(* ===== verification/_CoqProject ===== *)
-Q . S2P
Prelude.v
Consts.v
SlotAlloc.v
SlotPool.v
Kernel.v
Invoke.v
SlotExpand.v
Ipc.v
Pending.v
CapTable.v
Layout.v
Cpio.v
Elf.v
Vm.v
ElfLoad.v
ElfImage.v
VmSim.v
ElfRefine.v
ElfCorrect.v
ElfDynamic.v
ElfTheorems.v
Pe.v
PeLoad.v
PeImage.v
PeRefine.v
PeCorrect.v
PeImports.v
PeTheorems.v
CasefoldTable.v
Casefold.v
PosixCall.v
Protocol.v
PosixClient.v
PosixProc.v
PosixFile.v
FileSpec.v
FileTheorems.v
FileMessages.v
PosixPoll.v
ProcTheorems.v
Dns.v
PosixSocket.v
PosixMisc.v
PosixMessages.v
Handle.v
Futex.v
Mutex.v
TypedMutex.v
Once.v
Semaphore.v
RWLock.v
Barrier.v
InvokeOps.v
Serial.v
ByteMem.v
Ledger.v
SlotRange.v
SpinLock.v
Tls.v
TlsTheorems.v
Worker.v
WorkerTls.v
WorkerSpawn.v
WorkerTheorems.v
Runtime.v
Signals.v
SignalTheorems.v
Pthread.v
PthreadHandles.v
PthreadCreate.v
PthreadCancel.v
PthreadFork.v
PthreadTheorems.v
PosixExports.v
Shim.v
Win32.v
Win32Theorems.v
Condvar.v
CondvarTyped.v
Abi.v
