(* ===== verification/Prelude.v ===== *)
(** * A verification of trona

    trona is the user-space runtime of SaltyOS, a capability microkernel: the
    _substrate_ (system calls, IPC, capability slots, synchronisation, process
    layout), the _loader_ (initrd archives, executables), the POSIX and win32
    layers above them, and the ABI (_uapi_) they share.  This development
    translates its core into executable functions and proves them correct for
    all inputs, all kernels that keep the stated contract and, for the
    synchronisation primitives, all interleavings of any number of threads.

    ** Parts, files and sources

    - Prelude: machine integers ([u64] values are [Z] with wrap-around written
      out), bit and counting lemmas, little-endian memory, tactics and hints.
    - Consts ([src/uapi/consts/kernel.rs], [server.rs]): status codes, system
      call numbers, the spawn policy word.
    - Kernel ([src/uapi/types/core.rs], [src/substrate/syscall.rs]): messages,
      the IPC buffer page and the system call entry.  The kernel is not in the
      repository: it is the class [Kernel], any function from the calls made so
      far, the present call and the caller's buffer to an answer and a new
      buffer.  A [World] is the trace of calls and the thread's IPC context.
    - Abi ([src/uapi/types/], [src/uapi/consts/]): the structures of the ABI as
      [repr(C)] lays them out - sizes, alignments, offsets, encoding, decoding and
      zero values - with the constants no other file uses, the wait-status
      functions and the device numbers.
    - SlotAlloc, SlotPool, SlotExpand ([src/substrate/slot_alloc.rs]): the
      allocator of capability slots.  SlotAlloc has the bitmap segments, the
      chain of segments, initialisation and release; SlotPool the invariant
      [st_wf], the abstract view of the pool as its managed and its allocated
      slots, the specification of every operation against it, and the class
      [SlotPool] of what a pool promises its clients; SlotExpand the protocol
      that asks the process manager for more slots, as a state machine driven
      turn by turn, with the blocking and the non-blocking entry points and
      their invariant [pool_inv].
    - SpinLock ([src/substrate/worker.rs], [slot_alloc.rs]): the spin lock, and a
      machine of threads that take it, change the guarded data step by step and
      release it; the locked sections of the slot allocator on this machine.
    - Invoke, InvokeOps ([src/substrate/invoke.rs]): CNode invocations, which
      announce slot depths to the kernel before they act; untyped, TCB,
      scheduling context, VSpace, IRQ, I/O port and memory object invocations.
    - Ipc ([src/substrate/ipc.rs]): the message-info word, staging of
      capabilities and receive slots, overflow registers, and all send,
      receive, call and reply operations.
    - Pending ([src/substrate/pending.rs]): the request table of asynchronous
      servers.
    - CapTable ([src/substrate/cap_table.rs], [caps.rs], [lib.rs]): the table a
      spawner writes for its child, its validation and lookup, and the
      installation of well-known capabilities at start-up.
    - Layout ([src/substrate/layout.rs]): the planners of a child's CSpace and
      address space, with and without randomisation.
    - Cpio ([src/loader/cpio.rs]): the reader of initrd archives, over memory
      whose reads can fault.
    - Elf, Vm, ElfLoad ([src/loader/elf_loader.rs], [src/uapi/types/core.rs]):
      the structures of ELF files and the functions that inspect them; the
      kernel as the loader sees it (slots with frames, VSpaces, retype, map and
      unmap), as the class [Vm] with its contract [VmOk]; the loader proper.
      ElfImage says what a file means as a finite map from pages to contents and
      permissions; VmSim relates states of the machine to such images, for both
      loaders; ElfRefine and ElfCorrect have the simulation of [elf_load];
      ElfTheorems and ElfDynamic the properties, of loading, of the program
      headers a child finds, of [DT_NEEDED] and the interpreter.  The end of
      VmSim is a small kernel that keeps the contract and runs.
    - Pe, PeLoad ([src/loader/pe_loader.rs], [src/uapi/types/pe.rs]): validation
      and inspection of PE files; mapping of headers and sections, relocation
      and import resolution over the same machine.  PeImage is the meaning of a
      file, PeRefine, PeCorrect and PeImports the proofs, PeTheorems the
      properties.
    - CasefoldTable, Casefold ([src/substrate/casefold_table.rs],
      [casefold.rs]): Unicode simple case folding.
    - PosixCall ([src/posix/lib.rs]): errno translation, calls with retry, path
      packing.
    - Protocol ([src/uapi/protocol/], [src/uapi/consts/]): the labels and limits
      of the server protocols.
    - PosixClient: programs of the POSIX layer, in a small error and state
      monad over the class [Transport] (the calls of PosixCall and the IPC
      buffer); what such a program sends is a list of (endpoint, message)
      pairs.
    - PosixProc, PosixFile, PosixPoll, PosixSocket, PosixMisc
      ([src/posix/proc.rs], [file.rs], [mm.rs], [poll.rs], [socket.rs],
      [misc.rs]): every call of these files.  FileSpec is the contract of a file
      server ([FileServer], [BulkServer], [FullService]), the abstract meaning
      of reading and writing, and an in-memory server that keeps it;
      FileTheorems and ProcTheorems the properties; FileMessages and
      PosixMessages the well-formedness of every request.
    - Dns ([src/posix/dns.rs]): address parsing and the client of
      the name service.
    - Handle, Shim, Win32 ([src/win32]): the handle table; the private copy of
      the IPC layer kernel32.dll is linked with; its console, error and process
      functions and its start, over [Transport].  Win32Theorems has the
      properties.
    - Futex, Mutex, TypedMutex, Once, Semaphore, RWLock, Barrier, Condvar,
      CondvarTyped ([src/substrate/sync.rs]): Futex is a machine of threads with atomic words
      and futex sleep and wake; the other files give the code of each primitive
      as atomic actions per program point, and threads that use it.
    - Serial ([src/substrate/serial.rs]): console output and the line buffer.
    - ByteMem: memory as a function from addresses to bytes, with loads and
      stores; Ledger: what a trace of system calls has mapped and created;
      SlotRange: consecutive ranges of slots as their clients use them.
    - Tls, TlsTheorems ([src/substrate/tls.rs]): the pool of thread descriptors,
      static TLS images, the runtime block of a thread, its clean-up, the fork
      child.  [Proc X] is the state of a process: world, slot pool, memory,
      descriptors, and the statics [X] of the personality above.
    - Worker, WorkerTls, WorkerSpawn, WorkerTheorems
      ([src/substrate/worker.rs]): the pool of server threads: creation with
      roll-back, the receive loop, exit and reaping.
    - Runtime ([src/substrate/syscall.rs], [lib.rs], [framebuffer.rs]): the
      other system call wrappers, the auxiliary vector, the panic report, the C
      entry points, the framebuffer description.
    - Signals, SignalTheorems ([src/posix/signals.rs], the statics of
      [src/posix/lib.rs] and its modules): the statics of the POSIX personality
      and the monad [PT] its thread and signal functions run in (a value, an
      early return, the end of the thread, or a call that does not come back);
      handlers and both ways of delivery.
    - Pthread ([src/posix/pthread.rs], [tls.rs]): threads.  PthreadHandles has
      handles and generations, PthreadCreate the outcomes of a creation and the
      memory of a new thread, PthreadTheorems the properties; PthreadCancel
      has clean-up handlers and cancellation, with the futex wrappers of
      [src/substrate/sync.rs] that serve it, and PthreadFork the child of a fork.
    - PosixExports ([src/posix/lib.rs], [tls.rs]): the functions exported to C.

    Clients are proved against interfaces: IPC, CNode and expansion theorems
    against [Kernel], with [KernelWf] (the kernel keeps the buffer's shape) or
    a named hypothesis ([delivers], [probe_ready]) where they need more;
    repeated allocation against [SlotPool]; the loader against [Vm] and [VmOk];
    file operations against [FileServer]; the synchronisation primitives
    against the machine of Futex; POSIX calls against [Transport], which the
    operations of Ipc implement; typed mutexes against the invariant of the
    plain mutex they contain.

    ** What the theorems show

    - Slots: [slot_alloc_fast_spec], [slot_free_spec] and
      [slot_alloc_remaining_spec] say what each operation does to the set of
      allocated slots, failures included; [reachable_pool_inv] lifts it to all
      histories, expansion included; [slot_alloc_async_spec] and
      [slot_alloc_terminates] cover the entry points, the latter with the number
      of turns needed; [slots_never_shared] shows for every interleaving of
      threads over the spin lock that no slot has two owners and that the bitmaps
      are what was handed out and not given back.
    - Layout of the ABI: [loader_reads_repr_c], the readers of the ELF and PE
      loaders and the structures agree; [registry_roundtrip], [layout_sound],
      [documented_sizes].
    - IPC: [msginfo_roundtrip], [ipc_transmit_spec] and the end-to-end
      [ipc_roundtrip]; [ipc_call_retry_spec] and [pack_path_spec] for the layer
      above.
    - Start-up: [cap_table_delivery] from the spawner's builder to the child's
      symbols; [vm_layout_sound], [heap_and_mmap_above], [cspace_layout_spec]
      for disjointness and alignment of what is planned.
    - Loader: [cpio_find_spec] on arbitrary bytes (in bounds, terminating, the
      first match of the entry sequence), [cpio_roundtrip] on well-formed ones.
      For ELF files, that [elf_load] returns on every valid file and every
      kernel of the contract, that what it leaves in the child is the file's
      image, that it succeeds when memory suffices, that it touches nothing
      else, and the pointwise content and permissions of every page.
    - Files: [posix_read_spec] and [posix_write_spec] refine the chunked loops
      to one abstract read or write of the file; [file_roundtrip] reads back
      what was written.
    - Processes and readiness: [execve_roundtrip], the argument block the server
      unpacks is the caller's; [posix_select_spec], the sets [select] returns.
    - Messages: [posix_requests_wf], every request the POSIX layer sends has a
      length within the registers and 64-bit words.
    - Text: [fold_codepoint_spec] (binary search equals the table),
      [fold_utf8_spec]; [parse_ipv4_exact], the parser accepts exactly dotted
      quads.
    - Tables: [pending_ids_unique], [close_handle_spec].
    - PE files: [pe_load_refines], [pe_load_total], [pe_load_words] and
      [pe_inspect_safe] as for ELF files, with relocations;
      [pe_resolve_imports_spec] for the import tables.
    - Synchronisation: [mutex_exclusion], [mutex_no_lost_wakeup],
      [typed_mutex_ownership], [typed_mutex_results], [call_once_spec],
      [barrier_spec], [semaphore_conservation], [rwlock_exclusion],
      [condvar_spec], [typed_condvar_spec], all by rule induction over every
      interleaving.
      [semaphore_lost_wakeup], [rwlock_lost_wakeup] and [signal_can_be_stolen]
      are executions in which a sleeper is forgotten.
    - Workers: [spawn_worker_conserves] and [worker_reap_conserves], that nothing
      is leaked or released twice on any path, against the ledger of the trace;
      [worker_tls_image], what a worker's thread-local area holds;
      [worker_loop_dispatches], the order of requests, dispatches and replies.
    - Threads: [pthread_create_clean] (every failure gives everything back),
      [pthread_create_image] (what the new thread finds),
      [pthread_handle_lifetime] (which handles are valid after any history),
      [cancellation_unwinds] (the linked handlers are a stack, and a cancelled
      thread runs it and exits), [cancel_missed] (when a cancellation does not
      reach a sleeper), [fork_child_spec] (threads, handles and mappings of a
      forked child).
    - Signals: [signal_delivery] against an abstract log of handler calls,
      [sigcheck_equiv] for the two copies of the delivery code.
    - Win32: [shim_call_equiv] for the private IPC copy, [console_write_spec] and
      [console_read_spec] against the file server, [CloseHandle_spec].
    - Runtime: [slot_pool_roundtrip], [framebuffer_roundtrip], [line_buf_text].
    - Lemmas named in the comments of Layout, Cpio, Casefold, PosixCall,
      ElfTheorems and the POSIX files record where code and documentation
      differ.

    ** Bounds and fuel

    Archive loops run with [search_fuel], one step per possible header, and are
    proved never to exhaust it; the binary search has one step per halving.
    A segment's page loop has [MAX_PAGES + 1] steps, which the loader's own
    capacity check makes enough, and the scan of a dynamic section one per byte
    of the file.  The read and write loops take one step per message of 152 or
    144 bytes and per restart, and their theorems give the fuel that suffices.
    Blocking allocation and calls with retry loop until the kernel's answer
    changes: their theorems give the number of turns after which the answer
    comes and show that any larger fuel returns.  Layout theorems assume spans
    of at most [2^40] bytes, pool theorems the expansion window of eight
    expansions that the ABI constants fix; the typed mutex assumes distinct
    thread ids below [u64::MAX] and fewer than [2^32 - 1] nested locks, the
    semaphore and the reader-writer lock fewer threads than their counters can
    hold.  Memory is sequentially consistent; the orderings of the atomic
    operations are not modelled.

    Workers, threads and the slot allocator's expansion driver take the number
    of turns as [fuel]; [probe_ready] and [served] say how many the environment
    needs.  The worker loop runs for as many rounds as given and its theorem
    holds for every number.  Thread functions of different threads are
    interleaved at function granularity only.

    The handlers run by a cancelled thread are any functions that leave the
    handlers below them and the thread's block alone ([calm]); their number bounds
    the turns.

    ** Not modelled

    The entry trampolines, the system call instruction, the reading of the
    thread-pointer register and the fork stub are assembly: the model starts from
    the stack they are given, and the register is an argument.  The C run-time
    linker is another language.  Debug output of the loaders, the logging macros
    of serial.rs (a line buffer around the caller's own statements) and the panic
    loop of kernel32 are left out, and so are declarations without code: module
    lists, re-exports, derived and marker traits, accessors of one static. *)


From stdpp Require Export base tactics numbers list relations.
From Stdlib Require Export ZArith Lia.

#[global] Open Scope Z_scope.

(** ** Machine integers

    A [uN] value of the source is a [Z] in [[0, 2^N)].  The crates are built
    with [-C opt-level=2] and no overflow checks, so [+], [-], [*] and [<<]
    on unsigned integers wrap; the operators below write the wrap-around out. *)

Definition wrap (w z : Z) : Z := z mod 2 ^ w.

Definition U8_MAX : Z := 2 ^ 8 - 1.
Definition U32_MAX : Z := 2 ^ 32 - 1.
Definition U64_MAX : Z := 2 ^ 64 - 1.

Definition as_u8 (z : Z) : Z := wrap 8 z.
Definition as_u16 (z : Z) : Z := wrap 16 z.
Definition as_u32 (z : Z) : Z := wrap 32 z.
Definition as_u64 (z : Z) : Z := wrap 64 z.

(** [as i32] / [as isize]: two's complement reading of the low [w] bits. *)
Definition signed (w z : Z) : Z :=
  let r := wrap w z in if r <? 2 ^ (w - 1) then r else r - 2 ^ w.
Definition as_i32 (z : Z) : Z := signed 32 z.
Definition as_i64 (z : Z) : Z := signed 64 z.

Declare Scope u64_scope.
Delimit Scope u64_scope with u64.
Notation "a + b" := (wrap 64 (a + b)) : u64_scope.
Notation "a - b" := (wrap 64 (a - b)) : u64_scope.
Notation "a * b" := (wrap 64 (a * b)) : u64_scope.
Notation "a << b" := (wrap 64 (Z.shiftl a b)) (at level 45, left associativity) : u64_scope.

(** [saturating_sub] and [saturating_add] on [u64]. *)
Definition sat_sub (a b : Z) : Z := if a <? b then 0 else a - b.
Definition sat_add (a b : Z) : Z := if U64_MAX <? a + b then U64_MAX else a + b.

(** [u64::checked_add] and [u64::checked_mul]. *)
Definition checked_add (a b : Z) : option Z := if a + b <? 2 ^ 64 then Some (a + b) else None.
Definition checked_mul (a b : Z) : option Z := if a * b <? 2 ^ 64 then Some (a * b) else None.

(** Bitwise complement of a [w]-bit word. *)
Definition bnot (w z : Z) : Z := 2 ^ w - 1 - z.

Definition in_u (w z : Z) : Prop := 0 <= z < 2 ^ w.
Definition u32 (z : Z) : Prop := in_u 32 z.
Definition u64 (z : Z) : Prop := in_u 64 z.

Create HintDb trona.
Create Rewrite HintDb wrap.

Ltac unfold_widths :=
  unfold u32, u64, in_u, as_u8, as_u16, as_u32, as_u64, U8_MAX, U32_MAX, U64_MAX in *.

(** Turns boolean comparisons in the context and goal into propositions. *)
Ltac bprop :=
  repeat match goal with
  | H : _ && _ = true |- _ => apply andb_true_iff in H as [? ?]
  | H : _ || _ = false |- _ => apply orb_false_iff in H as [? ?]
  | H : negb _ = true |- _ => apply negb_true_iff in H
  | H : negb _ = false |- _ => apply negb_false_iff in H
  | H : (_ =? _)%Z = true |- _ => apply Z.eqb_eq in H
  | H : (_ =? _)%Z = false |- _ => apply Z.eqb_neq in H
  | H : (_ <? _)%Z = true |- _ => apply Z.ltb_lt in H
  | H : (_ <? _)%Z = false |- _ => apply Z.ltb_ge in H
  | H : (_ <=? _)%Z = true |- _ => apply Z.leb_le in H
  | H : (_ <=? _)%Z = false |- _ => apply Z.leb_gt in H
  | H : (_ >=? _)%Z = true |- _ => rewrite Z.geb_leb in H
  | H : (_ >=? _)%Z = false |- _ => rewrite Z.geb_leb in H
  | H : (_ >? _)%Z = true |- _ => rewrite Z.gtb_ltb in H
  | H : (_ >? _)%Z = false |- _ => rewrite Z.gtb_ltb in H
  end.

(** Case split on the condition of the first [if] of the goal (or of a
    hypothesis), with the condition as a proposition. *)
Ltac case_if :=
  match goal with
  | |- context [if ?b then _ else _] =>
      match type of b with bool => destruct b eqn:? end
  | H : context [if ?b then _ else _] |- _ =>
      match type of b with bool => destruct b eqn:? end
  end; bprop.

Lemma wrap_small w z : 0 <= z < 2 ^ w -> wrap w z = z.
Proof. apply Z.mod_small. Qed.

Lemma wrap_range w z : 0 <= w -> 0 <= wrap w z < 2 ^ w.
Proof. intros. apply Z.mod_pos_bound. apply Z.pow_pos_nonneg; lia. Qed.

Lemma wrap_wrap w z : wrap w (wrap w z) = wrap w z.
Proof. unfold wrap. destruct (Z.eq_dec (2 ^ w) 0) as [->|]; [by rewrite !Z.mod_0_r|]. apply Z.mod_mod; lia. Qed.

Lemma wrap_add_l w a b : wrap w (wrap w a + b) = wrap w (a + b).
Proof. apply Zplus_mod_idemp_l. Qed.

Lemma wrap_add_r w a b : wrap w (a + wrap w b) = wrap w (a + b).
Proof. apply Zplus_mod_idemp_r. Qed.

Lemma wrap_sub_l w a b : wrap w (wrap w a - b) = wrap w (a - b).
Proof. apply Zminus_mod_idemp_l. Qed.

Lemma wrap_sub_r w a b : wrap w (a - wrap w b) = wrap w (a - b).
Proof. apply Zminus_mod_idemp_r. Qed.

Lemma as_u64_u64 z : u64 (as_u64 z).
Proof. apply wrap_range. lia. Qed.

Lemma sat_sub_spec a b : sat_sub a b = Z.max 0 (a - b).
Proof. unfold sat_sub. case_if; lia. Qed.

Lemma sat_add_spec a b : sat_add a b = Z.min U64_MAX (a + b).
Proof. unfold sat_add. case_if; lia. Qed.

#[export] Hint Resolve as_u64_u64 : trona.
#[export] Hint Rewrite wrap_wrap wrap_add_l wrap_add_r wrap_sub_l wrap_sub_r : wrap.

(** ** Bits of a machine word *)

Lemma testbit_high w z i : 0 <= z < 2 ^ w -> 0 <= w -> w <= i -> Z.testbit z i = false.
Proof.
  intros Hz Hw Hi. rewrite <- (Z.mod_small z (2 ^ w)) by done.
  apply Z.mod_pow2_bits_high. lia.
Qed.

Lemma bnot_lnot w z i :
  0 <= i < w -> 0 <= z < 2 ^ w -> Z.testbit (bnot w z) i = negb (Z.testbit z i).
Proof.
  intros Hi Hz. unfold bnot.
  replace (2 ^ w - 1 - z) with (Z.ones w - z) by (rewrite Z.ones_equiv; lia).
  assert (Z.land z (Z.ones w) = z) as Hland.
  { rewrite Z.land_ones by lia. apply Z.mod_small. lia. }
  rewrite Z.sub_nocarry_ldiff.
  - rewrite Z.ldiff_spec, Z.ones_spec_low by lia. done.
  - apply Z.bits_inj'. intros j Hj. rewrite Z.ldiff_spec, Z.bits_0.
    destruct (Z_lt_dec j w).
    + rewrite Z.ones_spec_low by lia. apply andb_false_r.
    + rewrite (testbit_high w) by lia. done.
Qed.

Lemma pow2_range k w : 0 <= k < w -> 0 <= 2 ^ k < 2 ^ w.
Proof. intros. split; [apply Z.pow_nonneg; lia | apply Z.pow_lt_mono_r; lia]. Qed.

Lemma shiftl1_bit b i : 0 <= b -> Z.testbit (Z.shiftl 1 b) i = (i =? b).
Proof.
  intros. rewrite Z.shiftl_1_l. destruct (Z.eqb_spec i b) as [->|].
  - by apply Z.pow2_bits_true.
  - apply Z.pow2_bits_false. lia.
Qed.

(** [(x & (1 << b)) != 0] tests bit [b]. *)
Lemma land_shiftl1_nonzero x b :
  0 <= b -> negb (Z.land x (Z.shiftl 1 b) =? 0) = Z.testbit x b.
Proof.
  intros Hb. destruct (Z.eqb_spec (Z.land x (Z.shiftl 1 b)) 0) as [E|E]; simpl.
  - apply (f_equal (fun z => Z.testbit z b)) in E.
    rewrite Z.land_spec, shiftl1_bit, Z.eqb_refl, Z.bits_0, andb_true_r in E by lia. done.
  - destruct (Z.testbit x b) eqn:Hx; [done|]. exfalso. apply E.
    apply Z.bits_inj'. intros j Hj. rewrite Z.land_spec, shiftl1_bit, Z.bits_0 by lia.
    destruct (Z.eqb_spec j b) as [->|]; [by rewrite Hx | apply andb_false_r].
Qed.

(** Setting and clearing one bit of a [w]-bit word. *)
Lemma testbit_set x b i :
  0 <= b -> Z.testbit (Z.lor x (Z.shiftl 1 b)) i = Z.testbit x i || (i =? b).
Proof. intros. by rewrite Z.lor_spec, shiftl1_bit. Qed.

Lemma testbit_clear w x b i :
  0 <= b < w -> 0 <= i < w ->
  Z.testbit (Z.land x (bnot w (Z.shiftl 1 b))) i = Z.testbit x i && negb (i =? b).
Proof.
  intros. pose proof (pow2_range b w ltac:(lia)).
  rewrite Z.land_spec, bnot_lnot, shiftl1_bit; rewrite ?Z.shiftl_1_l; try lia. done.
Qed.

(** A word is [w] bits wide iff its bits from [w] on are clear. *)
Lemma in_u_bits w z :
  0 <= w -> (forall i, w <= i -> Z.testbit z i = false) -> in_u w z.
Proof.
  intros Hw Hz. assert (z mod 2 ^ w = z) as <-.
  { apply Z.bits_inj'. intros i Hi. rewrite Z.testbit_mod_pow2 by lia.
    destruct (Z.ltb_spec i w); [done|]. by rewrite Hz. }
  by apply wrap_range.
Qed.

Lemma lor_range w x y : 0 <= w -> in_u w x -> in_u w y -> in_u w (Z.lor x y).
Proof.
  intros Hw Hx Hy. apply in_u_bits; [done|]. intros i Hi.
  by rewrite Z.lor_spec, !(testbit_high w) by done.
Qed.

Lemma land_range w x y : 0 <= w -> in_u w x -> in_u w (Z.land x y).
Proof.
  intros Hw Hx. apply in_u_bits; [done|]. intros i Hi.
  by rewrite Z.land_spec, (testbit_high w) by done.
Qed.

(** [v & !(2^k - 1)] rounds down to a multiple of [2^k]. *)
Lemma land_bnot_align w k v :
  0 <= k <= w -> 0 <= v < 2 ^ w ->
  Z.land v (bnot w (2 ^ k - 1)) = v - v mod 2 ^ k.
Proof.
  intros Hk Hv.
  assert (2 ^ k <= 2 ^ w) by (apply Z.pow_le_mono_r; lia).
  assert (0 < 2 ^ k) by (apply Z.pow_pos_nonneg; lia).
  replace (v - v mod 2 ^ k) with (Z.shiftl (Z.shiftr v k) k).
  - apply Z.bits_inj'. intros i Hi. rewrite Z.land_spec, Z.shiftl_spec by lia.
    destruct (Z_lt_dec i w).
    + rewrite bnot_lnot by lia.
      replace (2 ^ k - 1) with (Z.ones k) by (rewrite Z.ones_equiv; lia).
      destruct (Z_lt_dec i k).
      * rewrite Z.ones_spec_low, andb_false_r by lia.
        symmetry. apply Z.testbit_neg_r. lia.
      * rewrite Z.ones_spec_high, andb_true_r, Z.shiftr_spec by lia. f_equal. lia.
    + rewrite (testbit_high w v i) by lia. rewrite Z.shiftr_spec by lia.
      replace (i - k + k) with i by lia. by rewrite (testbit_high w v i) by lia.
  - rewrite Z.shiftl_mul_pow2, Z.shiftr_div_pow2 by lia.
    pose proof (Z.div_mod v (2 ^ k)). lia.
Qed.

(** Rounding up: [(v + 2^k - 1) & !(2^k - 1)], when the sum does not wrap. *)
Lemma align_up_spec w k v :
  0 <= k <= w -> 0 <= v -> v + 2 ^ k - 1 < 2 ^ w ->
  let a := Z.land (v + (2 ^ k - 1)) (bnot w (2 ^ k - 1)) in
  v <= a < v + 2 ^ k /\ a mod 2 ^ k = 0.
Proof.
  intros Hk Hv Hlt a. subst a.
  assert (0 < 2 ^ k) by (apply Z.pow_pos_nonneg; lia).
  rewrite land_bnot_align by lia.
  pose proof (Z.mod_pos_bound (v + (2 ^ k - 1)) (2 ^ k) ltac:(lia)).
  split; [lia|].
  pose proof (Z.div_mod (v + (2 ^ k - 1)) (2 ^ k) ltac:(lia)) as E.
  replace (v + (2 ^ k - 1) - (v + (2 ^ k - 1)) mod 2 ^ k)
    with ((v + (2 ^ k - 1)) / 2 ^ k * 2 ^ k) by lia.
  by apply Z_mod_mult.
Qed.

(** ** Counting the indices below [n] that satisfy a boolean predicate *)

Definition countb (f : nat -> bool) (n : nat) : nat := length (List.filter f (seq 0 n)).

Lemma countb_S f n : countb f (S n) = (countb f n + (if f n then 1 else 0))%nat.
Proof.
  unfold countb. rewrite seq_S, List.filter_app, length_app. simpl. by destruct (f n).
Qed.

Lemma countb_le f n : (countb f n <= n)%nat.
Proof. induction n; [done|]. rewrite countb_S. destruct (f n); lia. Qed.

Lemma countb_ext f g n : (forall i, (i < n)%nat -> f i = g i) -> countb f n = countb g n.
Proof.
  induction n as [|n IH]; intros E; [done|].
  rewrite !countb_S, E, IH by (try lia; intros; apply E; lia). done.
Qed.

(** Turning one index on raises the count by one. *)
Lemma countb_flip f g n i :
  (i < n)%nat -> f i = false -> g i = true ->
  (forall j, j <> i -> g j = f j) -> countb g n = S (countb f n).
Proof.
  intros Hi Hf Hg Hj. induction n as [|n IH]; [lia|]. rewrite !countb_S.
  destruct (Nat.eq_dec i n) as [<-|Hne].
  - rewrite Hf, Hg. rewrite (countb_ext g f) by (intros; apply Hj; lia). lia.
  - rewrite IH, (Hj n) by lia. lia.
Qed.

(** A count below the number of indices leaves one index off. *)
Lemma countb_lt_exists f n : (countb f n < n)%nat -> exists i, (i < n)%nat /\ f i = false.
Proof.
  induction n as [|n IH]; [lia|]. rewrite countb_S. destruct (f n) eqn:E; [|eauto with lia].
  intros H. destruct IH as (i & ? & ?); [lia|]. eauto with lia.
Qed.

Lemma countb_all f n : (forall i, (i < n)%nat -> f i = true) -> countb f n = n.
Proof.
  induction n as [|n IH]; intros H; [done|]. rewrite countb_S, H, IH by auto with lia. lia.
Qed.

Lemma countb_none f n : (forall i, (i < n)%nat -> f i = false) -> countb f n = 0%nat.
Proof.
  induction n as [|n IH]; intros H; [done|]. rewrite countb_S, H, IH by auto with lia. lia.
Qed.

Lemma countb_add_le f a b : (countb f (a + b) <= countb f a + b)%nat.
Proof.
  induction b as [|b IH]; [rewrite Nat.add_0_r; lia|].
  rewrite Nat.add_succ_r, countb_S. destruct (f _); lia.
Qed.

(** A run of [n] indices that are off bounds the count by [N - n]. *)
Lemma countb_run_off f lo n N :
  (lo + n <= N)%nat -> (forall j, (lo <= j < lo + n)%nat -> f j = false) ->
  (countb f N + n <= N)%nat.
Proof.
  intros HN Hoff.
  assert (countb f (lo + n) = countb f lo) as E.
  { clear HN. induction n as [|n IH]; [by rewrite Nat.add_0_r|].
    rewrite Nat.add_succ_r, countb_S, Hoff, IH by (try lia; intros; apply Hoff; lia). lia. }
  pose proof (countb_add_le f (lo + n) (N - (lo + n))) as H.
  rewrite Nat.add_sub_assoc, Nat.add_comm, Nat.add_sub in H by lia.
  pose proof (countb_le f lo). lia.
Qed.

(** A decidable property checked on every element. *)
Lemma forallb_Forall {A} (f : A -> bool) (P : A -> Prop) l :
  (forall x, f x = true -> P x) -> forallb f l = true -> Forall P l.
Proof.
  intros H Hl. apply Forall_forall. intros x Hx. apply H. rewrite forallb_forall in Hl. by apply Hl, list_elem_of_In.
Qed.

(** ** Memory as a list of bytes; little-endian integers *)

Definition byte_at (mem : list Z) (off : nat) : Z := default 0 (mem !! off).

Fixpoint le_bytes (n : nat) (z : Z) : list Z :=
  match n with
  | O => []
  | S n' => z mod 256 :: le_bytes n' (z / 256)
  end.

Fixpoint le_value (l : list Z) : Z :=
  match l with
  | [] => 0
  | b :: rest => b + 256 * le_value rest
  end.

(** An [n]-byte unsigned load at [off]. *)
Definition le_read (n : nat) (mem : list Z) (off : nat) : Z :=
  le_value (map (fun i => byte_at mem (off + i)) (seq 0 n)).

Lemma length_le_bytes n z : length (le_bytes n z) = n.
Proof. revert z. induction n; simpl; intros; [done|]. by rewrite IHn. Qed.

Lemma le_value_bytes n z : 0 <= z < 256 ^ Z.of_nat n -> le_value (le_bytes n z) = z.
Proof.
  revert z. induction n as [|n IH]; intros z Hz; cbn [le_bytes le_value].
  - change (256 ^ Z.of_nat 0) with 1 in Hz. lia.
  - rewrite Nat2Z.inj_succ, Z.pow_succ_r in Hz by lia.
    rewrite IH; [pose proof (Z.div_mod z 256); lia|].
    split; [apply Z.div_pos; lia|]. apply Z.div_lt_upper_bound; lia.
Qed.

Lemma le_bytes_byte n z i b : le_bytes n z !! i = Some b -> 0 <= b < 256.
Proof.
  revert z i. induction n as [|n IH]; intros z [|i]; simpl; try done.
  - intros [= <-]. apply Z.mod_pos_bound. lia.
  - apply IH.
Qed.

Lemma map_byte_at (mem : list Z) off n l :
  (forall i, (i < n)%nat -> mem !! (off + i)%nat = l !! i) -> length l = n ->
  map (fun i => byte_at mem (off + i)) (seq 0 n) = l.
Proof.
  intros Hm Hl. apply list_eq. intros i. rewrite list_lookup_fmap.
  destruct (decide (i < n)%nat) as [Hi|Hi].
  - rewrite lookup_seq_lt by done. simpl. unfold byte_at. rewrite Hm by done.
    destruct (lookup_lt_is_Some_2 l i ltac:(lia)) as [x ->]. done.
  - rewrite lookup_seq_ge by lia. simpl. symmetry. apply lookup_ge_None. lia.
Qed.

(** A load inside a block that was stored little-endian gives the value back. *)
Lemma le_read_app n pre z post :
  0 <= z < 256 ^ Z.of_nat n -> le_read n (pre ++ le_bytes n z ++ post) (length pre) = z.
Proof.
  intros Hz. unfold le_read. rewrite (map_byte_at _ _ _ (le_bytes n z)).
  - by apply le_value_bytes.
  - intros i Hi. rewrite lookup_app_r by lia. rewrite Nat.add_comm, Nat.add_sub.
    apply lookup_app_l. by rewrite length_le_bytes.
  - apply length_le_bytes.
Qed.

Lemma le_read_skip n pre mem off :
  le_read n (pre ++ mem) (length pre + off) = le_read n mem off.
Proof.
  unfold le_read. f_equal. apply map_ext. intros i. unfold byte_at.
  rewrite lookup_app_r by lia. f_equal. f_equal. lia.
Qed.

Lemma le_read_ext n m1 m2 off :
  (forall i, (off <= i < off + n)%nat -> m1 !! i = m2 !! i) -> le_read n m1 off = le_read n m2 off.
Proof.
  intros He. unfold le_read. f_equal. apply map_ext_in. intros i Hi%in_seq.
  unfold byte_at. by rewrite He by lia.
Qed.
