(* ===== verification/Consts.v ===== *)
(** Kernel and server constants ([src/uapi/consts/kernel.rs],
    [src/uapi/consts/server.rs]) and the [spawn_policy] bit field.  The constants
    no modelled function uses are in file Abi. *)

From S2P Require Import Prelude.

(** Capability slot: [pub type Cap = u64]. *)
Definition Cap : Type := Z.

(** ** System calls *)
Definition SYS_SEND : Z := 0.
Definition SYS_RECV : Z := 1.
Definition SYS_CALL : Z := 2.
Definition SYS_REPLY_RECV : Z := 3.
Definition SYS_NBSEND : Z := 4.
Definition SYS_SIGNAL : Z := 5.
Definition SYS_YIELD : Z := 8.
Definition SYS_INVOKE : Z := 9.
Definition SYS_CLOCK_GETTIME : Z := 12.
Definition SYS_SET_INVOKE_DEPTHS : Z := 17.
Definition SYS_FUTEX : Z := 18.
Definition SYS_GETRANDOM : Z := 19.
Definition SYS_SEND_TIMED : Z := 21.
Definition SYS_RECV_TIMED : Z := 22.
Definition SYS_RECV_ANY : Z := 23.
Definition SYS_REPLY_RECV_ANY : Z := 24.
Definition SYS_RECV_ANY_TIMED : Z := 25.
Definition SYS_REPLY_RECV_ANY_TIMED : Z := 26.
Definition SYS_WAIT : Z := 6.
Definition SYS_POLL : Z := 7.
Definition SYS_DEBUG_PUTCHAR : Z := 10.
Definition SYS_DEBUG_DUMP_STATE : Z := 11.
Definition SYS_SHUTDOWN : Z := 20.
Definition SYS_DEBUG_PUTBUF : Z := 15.
Definition BOOTINFO_VADDR : Z := 0x1FF000.
Definition BOOTINFO_MAGIC : Z := 0x534C5459424F4F54.
Definition SYS_THREAD_EXIT : Z := 28.

(** ** Invoke labels *)
Definition CNODE_COPY : Z := 0x10.
Definition CNODE_MINT : Z := 0x11.
Definition CNODE_MOVE : Z := 0x12.
Definition CNODE_MUTATE : Z := 0x13.
Definition CNODE_DELETE : Z := 0x14.
Definition CNODE_REVOKE : Z := 0x15.
Definition CNODE_SAVE_CALLER : Z := 0x16.
Definition CNODE_GET_INFO : Z := 0x18.
Definition UNTYPED_RETYPE : Z := 0x20.
Definition VSPACE_MAP : Z := 0x50.
Definition VSPACE_UNMAP : Z := 0x51.
Definition CNODE_SET_GUARD : Z := 0x17.
Definition UNTYPED_RESET : Z := 0x21.
Definition SC_CONFIGURE : Z := 0x30.
Definition SC_BIND : Z := 0x31.
Definition TCB_CONFIGURE : Z := 0x40.
Definition TCB_RESUME : Z := 0x41.
Definition TCB_SUSPEND : Z := 0x42.
Definition TCB_SET_SPACE : Z := 0x43.
Definition TCB_WRITE_REGISTERS : Z := 0x46.
Definition TCB_SET_IPC_BUFFER : Z := 0x48.
Definition TCB_BIND_NOTIFICATION : Z := 0x49.
Definition TCB_SET_FAULT_HANDLER : Z := 0x4B.
Definition TCB_COPY_FPU : Z := 0x4C.
Definition TCB_SET_TLS_BASE : Z := 0x4D.
Definition TCB_SET_NOTIFICATION_DISPATCHER : Z := 0x4E.
Definition TCB_GET_SPACE_INFO : Z := 0x4F.
Definition VSPACE_MAP_PT : Z := 0x52.
Definition VSPACE_WALK : Z := 0x53.
Definition VSPACE_COPY_PAGE : Z := 0x54.
Definition VSPACE_MAP_DEVICE : Z := 0x55.
Definition VSPACE_CLONE_COW_PAGE : Z := 0x56.
Definition VSPACE_MAP_DEVICE_RANGE : Z := 0x57.
Definition VSPACE_PROTECT : Z := 0x58.
Definition VSPACE_MAP_DEMAND : Z := 0x59.
Definition VSPACE_MAP_DEMAND_RANGE : Z := 0x5A.
Definition VSPACE_COW_RESOLVE : Z := 0x5B.
Definition VSPACE_SET_COW_POOL : Z := 0x5C.
Definition VSPACE_SET_COW_NOTIF : Z := 0x5D.
Definition VSPACE_REPLENISH_COW_POOL : Z := 0x5E.
Definition VSPACE_PROTECT_RANGE : Z := 0x5F.
Definition IRQ_CONTROL_GET : Z := 0x60.
Definition IRQ_HANDLER_ACK : Z := 0x61.
Definition IRQ_HANDLER_SET_NOTIFICATION : Z := 0x62.
Definition IRQ_HANDLER_CLEAR : Z := 0x63.
Definition DEVICE_UNTYPED_CREATE : Z := 0x64.
Definition IOPORT_IN8 : Z := 0x70.
Definition IOPORT_OUT8 : Z := 0x71.
Definition IOPORT_IN16 : Z := 0x72.
Definition IOPORT_OUT16 : Z := 0x73.
Definition IOPORT_IN32 : Z := 0x74.
Definition IOPORT_OUT32 : Z := 0x75.
Definition IOPORT_CONFIGURE : Z := 0x76.
Definition IOPORT_CREATE : Z := 0x77.
Definition MO_COMMIT : Z := 0x90.
Definition MO_DECOMMIT : Z := 0x91.
Definition MO_GET_SIZE : Z := 0x92.
Definition MO_CLONE : Z := 0x93.
Definition MO_RESIZE : Z := 0x94.
Definition MO_READ : Z := 0x95.
Definition MO_WRITE : Z := 0x96.
Definition MO_HAS_PAGE : Z := 0x97.
Definition VSPACE_MAP_MO : Z := 0x97.
Definition VSPACE_SHARE_RO_PAGE : Z := 0x99.
Definition VSPACE_FORK_RANGE : Z := 0x9A.

(** ** Status codes *)
Definition TRONA_OK : Z := 0.
Definition TRONA_INVALID_CAPABILITY : Z := 1.
Definition TRONA_INVALID_OPERATION : Z := 2.
Definition TRONA_INSUFFICIENT_RIGHTS : Z := 3.
Definition TRONA_INVALID_ARGUMENT : Z := 4.
Definition TRONA_OUT_OF_MEMORY : Z := 5.
Definition TRONA_NOT_FOUND : Z := 6.
Definition TRONA_BUSY : Z := 7.
Definition TRONA_ALREADY_EXISTS : Z := 8.
Definition TRONA_WOULD_BLOCK : Z := 9.
Definition TRONA_BAD_ADDRESS : Z := 10.
Definition TRONA_OUT_OF_RANGE : Z := 11.
Definition TRONA_CANCELLED : Z := 12.
Definition TRONA_RESTART : Z := 13.
Definition TRONA_DEADLOCK : Z := 14.
Definition TRONA_INTERRUPTED : Z := 15.
Definition TRONA_SLOT_OCCUPIED : Z := 0x18.
Definition TRONA_ALREADY_MAPPED : Z := 0x19.
Definition TRONA_ALREADY_BOUND : Z := 0x1A.
Definition TRONA_IN_PROGRESS : Z := 0x10.
Definition TRONA_NOT_DIRECTORY : Z := 0x14.
Definition TRONA_IS_DIRECTORY : Z := 0x15.
Definition TRONA_LOOP : Z := 0x16.
Definition TRONA_IO_ERROR : Z := 0x17.

(** ** Status codes of the network servers *)
Definition TRONA_CONN_REFUSED : Z := 21.
Definition TRONA_TIMED_OUT : Z := 22.
Definition TRONA_DNS_NXDOMAIN : Z := 23.
Definition TRONA_DNS_SERVER_FAIL : Z := 24.
Definition TRONA_PROTO_NOT_SUPPORTED : Z := 25.
Definition TRONA_HOST_UNREACHABLE : Z := 26.
Definition TRONA_NET_UNREACHABLE : Z := 27.
Definition TRONA_NO_BUFS : Z := 28.
Definition TRONA_CONN_RESET : Z := 29.
Definition TRONA_NOT_CONNECTED : Z := 30.
Definition TRONA_IS_CONNECTED : Z := 31.
Definition TRONA_ADDR_IN_USE : Z := 32.

(** ** Page mapping flags *)
Definition VSPACE_FLAG_WRITABLE : Z := Z.shiftl 1 0.
Definition VSPACE_FLAG_USER : Z := Z.shiftl 1 1.
Definition VSPACE_FLAG_EXECUTABLE : Z := Z.shiftl 1 2.

Definition OBJ_TCB : Z := 4.
Definition OBJ_FRAME : Z := 7.
Definition OBJ_SCHED_CONTEXT : Z := 10.

Definition CAP_SELF_TCB : Z := 0.
Definition CAP_SELF_CSPACE : Z := 2.
Definition CAP_RIGHTS_ALL : Z := 0xFFFFFFFF.
Definition CAP_UNTYPED_START : Z := 16.

(** ** CSpace expansion window (root slots 1008..1015) *)
Definition CSPACE_EXPAND_BASE : Z := 1008.
Definition MAX_CSPACE_EXPANSIONS : Z := 8.

(** ** Spawn policy bit field *)
Definition spawn_policy_build (readiness_mode : Z) (map_initrd is_display : bool)
    (cnode_bits memory_kb : Z) : Z :=
  let p := Z.land readiness_mode 0x3 in
  let p := if map_initrd then Z.lor p (Z.shiftl 1 2) else p in
  let p := if is_display then Z.lor p (Z.shiftl 1 3) else p in
  let p := Z.lor p (wrap 64 (Z.shiftl cnode_bits 8)) in
  Z.lor p (wrap 64 (Z.shiftl memory_kb 16)).

Definition spawn_policy_readiness (policy : Z) : Z := Z.land policy 0x3.
Definition spawn_policy_map_initrd (policy : Z) : bool :=
  negb (Z.land policy (Z.shiftl 1 2) =? 0).
Definition spawn_policy_is_display (policy : Z) : bool :=
  negb (Z.land policy (Z.shiftl 1 3) =? 0).
Definition spawn_policy_cnode_bits (policy : Z) : Z :=
  as_u8 (Z.land (Z.shiftr policy 8) 0xFF).
Definition spawn_policy_memory_kb (policy : Z) : Z :=
  as_u16 (Z.land (Z.shiftr policy 16) 0xFFFF).
