(* ===== verification/SlotAlloc.v ===== *)
(** The per-process capability slot allocator, [src/substrate/slot_alloc.rs]:
    bitmap segments ([Segment]) and the chain of segments held by
    [SlotAllocState].  The CSpace expansion protocol, which talks to the
    kernel, is in [SlotExpand]. *)

From S2P Require Import Prelude Consts.

Definition SLOT_EXPAND_BITS_DEFAULT : Z := 10.
Definition MAX_SEGMENTS : nat := 16.
Definition MAX_SEGMENT_SLOTS : nat := 4096.
Definition SEGMENT_BITMAP_WORDS : nat := MAX_SEGMENT_SLOTS `div` 64.

(** ** A segment: a contiguous range of CNode slots with a bitmap *)

Record Segment := mkSegment {
  base : Cap;
  count : Z;
  alloc_hint : Z;
  used : Z;
  bits : list Z;
}.

Definition zero_bits : list Z := replicate SEGMENT_BITMAP_WORDS 0.
Definition fresh_segment (b c : Z) : Segment := mkSegment b c 0 0 zero_bits.

(** [seg.bits[word]].  Every index the code uses is below [count <= 4096]
    (lemma [word_in_range]), so the bounds check of the source never fires. *)
Definition word_at (seg : Segment) (w : nat) : Z := default 0 (bits seg !! w).

Definition segment_slot_index (seg : Segment) (slot : Cap) : option nat :=
  if slot <? base seg then None
  else let idx := slot - base seg in
       if count seg <=? idx then None else Some (Z.to_nat idx).

Definition segment_is_used (seg : Segment) (idx : nat) : bool :=
  negb (Z.land (word_at seg (idx `div` 64)) (Z.shiftl 1 (Z.of_nat (idx `mod` 64))) =? 0).

Definition segment_mark_used (seg : Segment) (idx : nat) : Segment :=
  let word := (idx `div` 64)%nat in
  let bit := Z.of_nat (idx `mod` 64) in
  mkSegment (base seg) (count seg) (alloc_hint seg)
    (used seg + 1)%u64
    (<[word := Z.lor (word_at seg word) (Z.shiftl 1 bit)]> (bits seg)).

Definition segment_mark_free (seg : Segment) (idx : nat) : Segment :=
  let word := (idx `div` 64)%nat in
  let bit := Z.of_nat (idx `mod` 64) in
  mkSegment (base seg) (count seg) (alloc_hint seg)
    (sat_sub (used seg) 1)
    (<[word := Z.land (word_at seg word) (bnot 64 (Z.shiftl 1 bit))]> (bits seg)).

Definition set_hint (seg : Segment) (h : Z) : Segment :=
  mkSegment (base seg) (count seg) h (used seg) (bits seg).

(** The scan [for idx in lo..hi { if !segment_is_used(seg, idx) {..} }]. *)
Fixpoint scan_free (seg : Segment) (idxs : list nat) : option nat :=
  match idxs with
  | [] => None
  | idx :: rest => if segment_is_used seg idx then scan_free seg rest else Some idx
  end.

Definition segment_alloc_single (seg : Segment) : option Cap * Segment :=
  if count seg <=? used seg then (None, seg)
  else
    let n := Z.to_nat (count seg) in
    let start := Nat.min (Z.to_nat (alloc_hint seg)) n in
    let take idx := (Some (base seg + Z.of_nat idx)%u64,
                     set_hint (segment_mark_used seg idx) (Z.of_nat (idx + 1))) in
    match scan_free seg (seq start (n - start)) with
    | Some idx => take idx
    | None => match scan_free seg (seq 0 start) with
              | Some idx => take idx
              | None => (None, seg)
              end
    end.

(** The run search of [segment_alloc_contiguous]: [run_start] and [run_len]
    are the loop's accumulators. *)
Fixpoint scan_run (seg : Segment) (want : nat) (idxs : list nat)
    (run_start run_len : nat) : option nat :=
  match idxs with
  | [] => None
  | idx :: rest =>
      if segment_is_used seg idx then scan_run seg want rest run_start 0
      else
        let run_start := if Nat.eqb run_len 0 then idx else run_start in
        let run_len := S run_len in
        if Nat.eqb run_len want then Some run_start
        else scan_run seg want rest run_start run_len
  end.

Definition mark_all_used (seg : Segment) (idxs : list nat) : Segment :=
  fold_left segment_mark_used idxs seg.

Definition segment_alloc_contiguous (seg : Segment) (cnt : Z) : option Cap * Segment :=
  if (cnt =? 0) || (sat_sub (count seg) (used seg) <? cnt) then (None, seg)
  else if cnt =? 1 then segment_alloc_single seg
  else
    let want := Z.to_nat cnt in
    match scan_run seg want (seq 0 (Z.to_nat (count seg))) 0 0 with
    | Some run_start =>
        (Some (base seg + Z.of_nat run_start)%u64,
         set_hint (mark_all_used seg (seq run_start want)) (Z.of_nat (run_start + want)))
    | None => (None, seg)
    end.

Definition segment_free (seg : Segment) (idx : nat) : bool * Segment :=
  if (Z.to_nat (count seg) <=? idx)%nat || negb (segment_is_used seg idx) then (false, seg)
  else
    let seg' := segment_mark_free seg idx in
    (true, if Z.of_nat idx <=? alloc_hint seg' then set_hint seg' (Z.of_nat idx) else seg').

(** ** The allocator state *)

Inductive ExpandState := Idle | Requested | Failed.
Inductive ExpandProgress := PCompleted | PPending | PFailed.
Inductive SlotResult := Ok (cap : Cap) | WouldBlock | Exhausted.

#[global] Instance ExpandState_eq_dec : EqDecision ExpandState.
Proof. solve_decision. Defined.

Record SlotAllocState := mkState {
  segments : list Segment;
  seg_count : nat;
  active_seg : nat;
  initialized : bool;
  cspace_ntfn : Cap;
  expand_state : ExpandState;
  root_bits : Z;
  expanded_depth : Z;
  cspace_expand_count : Z;
}.

(** The static initialiser of [SLOT_ALLOC]. *)
Definition SLOT_ALLOC_INIT : SlotAllocState :=
  mkState (replicate MAX_SEGMENTS (fresh_segment 0 0)) 0 0 false 0 Idle 0 0 0.

Definition set_segment (st : SlotAllocState) (i : nat) (seg : Segment) : SlotAllocState :=
  mkState (<[i := seg]> (segments st)) (seg_count st) (active_seg st) (initialized st)
    (cspace_ntfn st) (expand_state st) (root_bits st) (expanded_depth st)
    (cspace_expand_count st).

Definition set_active (st : SlotAllocState) (i : nat) : SlotAllocState :=
  mkState (segments st) (seg_count st) i (initialized st)
    (cspace_ntfn st) (expand_state st) (root_bits st) (expanded_depth st)
    (cspace_expand_count st).

Definition set_expand (st : SlotAllocState) (e : ExpandState) : SlotAllocState :=
  mkState (segments st) (seg_count st) (active_seg st) (initialized st)
    (cspace_ntfn st) e (root_bits st) (expanded_depth st) (cspace_expand_count st).

Definition seg_at (st : SlotAllocState) (i : nat) : Segment :=
  default (fresh_segment 0 0) (segments st !! i).

(** [slot_alloc_init]: the initial range is cut into chunks of at most
    [MAX_SEGMENT_SLOTS]; [fill_chunks] is the [while] loop (it consumes one
    of the [MAX_SEGMENTS] segments per turn, which bounds it). *)
Fixpoint fill_chunks (fuel : nat) (next_base remaining : Z) : list Segment * Z :=
  match fuel with
  | O => ([], remaining)
  | S f =>
      if remaining =? 0 then ([], remaining)
      else
        let chunk := Z.min remaining (Z.of_nat MAX_SEGMENT_SLOTS) in
        let '(rest, rem) := fill_chunks f (next_base + chunk)%u64 (remaining - chunk) in
        (fresh_segment next_base chunk :: rest, rem)
  end.

Definition slot_alloc_init (b c ntfn : Z) : SlotAllocState :=
  let '(segs, remaining) :=
    if (c =? 0) && negb (b =? 0) then ([fresh_segment b 0], 0)
    else fill_chunks MAX_SEGMENTS b c in
  let inited := (remaining =? 0) && (negb (c =? 0) || negb (b =? 0)) in
  mkState (segs ++ replicate (MAX_SEGMENTS - length segs) (fresh_segment 0 0))
    (if inited then length segs else 0%nat) 0 inited ntfn Idle 0 0 0.

Definition slot_alloc_base (st : SlotAllocState) : Cap :=
  if (0 <? seg_count st)%nat then base (seg_at st 0) else 0.

Definition slot_alloc_count (st : SlotAllocState) : Z :=
  fold_left (fun total i => (total + count (seg_at st i))%u64) (seq 0 (seg_count st)) 0.

Definition slot_alloc_remaining (st : SlotAllocState) : Z :=
  if negb (initialized st) then 0
  else fold_left (fun r i => (r + sat_sub (count (seg_at st i)) (used (seg_at st i)))%u64)
         (seq 0 (seg_count st)) 0.

Definition slot_invoke_depth (st : SlotAllocState) (slot : Cap) : Z :=
  if expanded_depth st =? 0 then 0
  else if CSPACE_EXPAND_BASE <=? Z.shiftr slot SLOT_EXPAND_BITS_DEFAULT
       then expanded_depth st else 0.

(** The round-robin scan over the segment chain starting at [active_seg],
    shared by [alloc_single_locked] and [slot_alloc_consecutive_fast]. *)
Fixpoint scan_segments (try : Segment -> option Cap * Segment) (st : SlotAllocState)
    (offs : list nat) : option Cap * SlotAllocState :=
  match offs with
  | [] => (None, st)
  | off :: rest =>
      let idx := ((active_seg st + off) `mod` seg_count st)%nat in
      match try (seg_at st idx) with
      | (Some slot, seg') => (Some slot, set_active (set_segment st idx seg') idx)
      | (None, _) => scan_segments try st rest
      end
  end.

Definition alloc_single_locked (st : SlotAllocState) : option Cap * SlotAllocState :=
  if Nat.eqb (seg_count st) 0 then (None, st)
  else scan_segments segment_alloc_single st (seq 0 (seg_count st)).

Definition slot_alloc_fast (st : SlotAllocState) : option Cap * SlotAllocState :=
  if negb (initialized st) then (None, st) else alloc_single_locked st.

Definition slot_alloc_consecutive_fast (st : SlotAllocState) (cnt : Z)
    : option Cap * SlotAllocState :=
  if negb (initialized st) || (cnt =? 0) then (None, st)
  else scan_segments (fun seg => segment_alloc_contiguous seg cnt) st (seq 0 (seg_count st)).

(** [slot_alloc_no_expand]: the fast path under the lock, after the
    [is_initialized] test. *)
Definition slot_alloc_no_expand (st : SlotAllocState) : option Cap * SlotAllocState :=
  if negb (initialized st) then (None, st) else slot_alloc_fast st.

Fixpoint free_scan (st : SlotAllocState) (slot : Cap) (idxs : list nat)
    : bool * SlotAllocState :=
  match idxs with
  | [] => (false, st)
  | idx :: rest =>
      match segment_slot_index (seg_at st idx) slot with
      | Some slot_idx =>
          match segment_free (seg_at st idx) slot_idx with
          | (true, seg') =>
              let st' := set_segment st idx seg' in
              (true, if (idx <? active_seg st)%nat then set_active st' idx else st')
          | (false, _) => (false, st)
          end
      | None => free_scan st slot rest
      end
  end.

Definition slot_free (st : SlotAllocState) (slot : Cap) : bool * SlotAllocState :=
  if negb (initialized st) then (false, st)
  else free_scan st slot (seq 0 (seg_count st)).

Fixpoint free_range_loop (n : nat) (st : SlotAllocState) (b off : Z) : SlotAllocState :=
  match n with
  | O => st
  | S n' => free_range_loop n' (snd (slot_free st (b + off)%u64)) b (off + 1)
  end.

Definition slot_free_range (st : SlotAllocState) (b cnt : Z) : SlotAllocState :=
  if cnt =? 0 then st else free_range_loop (Z.to_nat cnt) st b 0.

(** ** Well-formed segments *)

Record seg_wf (seg : Segment) : Prop := {
  wf_len : length (bits seg) = SEGMENT_BITMAP_WORDS;
  wf_words : forall w z, bits seg !! w = Some z -> u64 z;
  wf_count : 0 <= count seg <= Z.of_nat MAX_SEGMENT_SLOTS;
  wf_base : 0 <= base seg /\ base seg + count seg < 2 ^ 64;
  wf_hint : 0 <= alloc_hint seg <= count seg;
  wf_used : used seg = Z.of_nat (countb (segment_is_used seg) (Z.to_nat (count seg)));
}.

(** Membership of a slot number in a segment's range, and in its used set. *)
Definition seg_has (seg : Segment) (slot : Cap) : Prop :=
  base seg <= slot < base seg + count seg.
Definition seg_allocated (seg : Segment) (slot : Cap) : Prop :=
  seg_has seg slot /\ segment_is_used seg (Z.to_nat (slot - base seg)) = true.

(** Every slot index of a well-formed segment addresses a word of the bitmap. *)
Lemma word_in_range seg idx :
  seg_wf seg -> (idx < Z.to_nat (count seg))%nat ->
  (idx `div` 64 < length (bits seg))%nat.
Proof.
  intros Hwf Hi. rewrite (wf_len _ Hwf). pose proof (wf_count _ Hwf).
  change SEGMENT_BITMAP_WORDS with 64%nat. apply Nat.Div0.div_lt_upper_bound.
  unfold MAX_SEGMENT_SLOTS in *. lia.
Qed.

Lemma is_used_testbit seg idx :
  segment_is_used seg idx = Z.testbit (word_at seg (idx `div` 64)) (Z.of_nat (idx `mod` 64)).
Proof. apply land_shiftl1_nonzero. lia. Qed.

Lemma word_at_insert seg w w' z :
  (w < length (bits seg))%nat ->
  default 0 ((<[w := z]> (bits seg)) !! w') = if decide (w = w') then z else word_at seg w'.
Proof.
  intros Hw. unfold word_at. destruct (decide (w = w')) as [<-|Hne].
  - by rewrite list_lookup_insert_eq.
  - by rewrite list_lookup_insert_ne.
Qed.

Lemma div_mod_64_inj i j : (i `div` 64 = j `div` 64)%nat -> (i `mod` 64 = j `mod` 64)%nat -> i = j.
Proof. intros. rewrite (Nat.div_mod_eq i 64), (Nat.div_mod_eq j 64). lia. Qed.

Lemma mark_used_is_used seg idx j :
  (idx `div` 64 < length (bits seg))%nat ->
  segment_is_used (segment_mark_used seg idx) j = segment_is_used seg j || Nat.eqb j idx.
Proof.
  intros Hr. rewrite !is_used_testbit. unfold word_at at 1. cbn [bits segment_mark_used segment_mark_free].
  rewrite word_at_insert by done.
  destruct (decide (idx `div` 64 = j `div` 64)%nat) as [E|E].
  - rewrite testbit_set, E by lia. f_equal.
    destruct (Nat.eqb_spec j idx) as [->|Hne]; [apply Z.eqb_refl|].
    apply Z.eqb_neq. intros ?. apply Hne, div_mod_64_inj; lia.
  - destruct (Nat.eqb_spec j idx) as [->|]; [done|]. by rewrite orb_false_r.
Qed.

Lemma mark_free_is_used seg idx j :
  (idx `div` 64 < length (bits seg))%nat ->
  segment_is_used (segment_mark_free seg idx) j = segment_is_used seg j && negb (Nat.eqb j idx).
Proof.
  intros Hr. rewrite !is_used_testbit. unfold word_at at 1. cbn [bits segment_mark_used segment_mark_free].
  rewrite word_at_insert by done.
  pose proof (Nat.mod_upper_bound idx 64). pose proof (Nat.mod_upper_bound j 64).
  destruct (decide (idx `div` 64 = j `div` 64)%nat) as [E|E].
  - rewrite testbit_clear, E by lia. do 2 f_equal.
    destruct (Nat.eqb_spec j idx) as [->|Hne]; [apply Z.eqb_refl|].
    apply Z.eqb_neq. intros ?. apply Hne, div_mod_64_inj; lia.
  - destruct (Nat.eqb_spec j idx) as [->|]; [done|]. by rewrite andb_true_r.
Qed.

Lemma word_at_u64 seg w : seg_wf seg -> u64 (word_at seg w).
Proof.
  intros Hwf. unfold word_at. destruct (bits seg !! w) eqn:E; simpl.
  - by eapply wf_words.
  - done.
Qed.

Lemma insert_words_u64 (l : list Z) w z :
  u64 z -> (forall i y, l !! i = Some y -> u64 y) ->
  forall i y, (<[w := z]> l) !! i = Some y -> u64 y.
Proof. intros Hz Hl i y. rewrite list_lookup_insert_Some. intros [(_ & <- & _)|(_ & ?)]; eauto. Qed.

Lemma shiftl1_u64 (n : nat) : u64 (Z.shiftl 1 (Z.of_nat (n `mod` 64))).
Proof.
  rewrite Z.shiftl_1_l. apply pow2_range. pose proof (Nat.mod_upper_bound n 64). lia.
Qed.

Lemma mark_used_wf seg idx h :
  seg_wf seg -> (idx < Z.to_nat (count seg))%nat -> segment_is_used seg idx = false ->
  0 <= h <= count seg -> seg_wf (set_hint (segment_mark_used seg idx) h).
Proof.
  intros Hwf Hi Hfree Hh. pose proof (word_in_range _ _ Hwf Hi) as Hr.
  assert (countb (segment_is_used (segment_mark_used seg idx)) (Z.to_nat (count seg)) =
          S (countb (segment_is_used seg) (Z.to_nat (count seg)))) as Hc.
  { apply countb_flip with (i := idx); rewrite ?mark_used_is_used by done.
    - done.
    - done.
    - by rewrite Nat.eqb_refl, orb_true_r.
    - intros j Hj. rewrite mark_used_is_used by done.
      apply Nat.eqb_neq in Hj. by rewrite Hj, orb_false_r. }
  pose proof (countb_le (segment_is_used (segment_mark_used seg idx)) (Z.to_nat (count seg))).
  pose proof (wf_count _ Hwf) as Hn. unfold MAX_SEGMENT_SLOTS in Hn.
  split; cbn [bits count base alloc_hint used set_hint segment_mark_used segment_mark_free].
  - rewrite length_insert. apply Hwf.
  - apply insert_words_u64; [|apply Hwf].
    apply lor_range; [lia | by apply word_at_u64 | apply shiftl1_u64].
  - apply Hwf.
  - apply Hwf.
  - done.
  - change (segment_is_used (set_hint ?s _)) with (segment_is_used s).
    rewrite Hc, (wf_used _ Hwf), wrap_small; lia.
Qed.

Lemma mark_free_wf seg idx h :
  seg_wf seg -> (idx < Z.to_nat (count seg))%nat -> segment_is_used seg idx = true ->
  0 <= h <= count seg -> seg_wf (set_hint (segment_mark_free seg idx) h).
Proof.
  intros Hwf Hi Hused Hh. pose proof (word_in_range _ _ Hwf Hi) as Hr.
  assert (countb (segment_is_used seg) (Z.to_nat (count seg)) =
          S (countb (segment_is_used (segment_mark_free seg idx)) (Z.to_nat (count seg)))) as Hc.
  { apply countb_flip with (i := idx); rewrite ?mark_free_is_used by done.
    - done.
    - by rewrite Nat.eqb_refl, andb_false_r.
    - done.
    - intros j Hj. rewrite mark_free_is_used by done.
      apply Nat.eqb_neq in Hj. by rewrite Hj, andb_true_r. }
  split; cbn [bits count base alloc_hint used set_hint segment_mark_used segment_mark_free].
  - rewrite length_insert. apply Hwf.
  - apply insert_words_u64; [|apply Hwf].
    apply land_range; [lia | by apply word_at_u64].
  - apply Hwf.
  - apply Hwf.
  - done.
  - change (segment_is_used (set_hint ?s _)) with (segment_is_used s).
    rewrite (wf_used _ Hwf), Hc, sat_sub_spec. lia.
Qed.

Lemma set_hint_wf seg h : seg_wf seg -> 0 <= h <= count seg -> seg_wf (set_hint seg h).
Proof. intros []. by split. Qed.

(** [seg'] is [seg] with exactly the free indices [lo .. lo+n) turned to used. *)
Record seg_take (seg seg' : Segment) (lo n : nat) : Prop := {
  tk_base : base seg' = base seg;
  tk_count : count seg' = count seg;
  tk_fit : (lo + n <= Z.to_nat (count seg))%nat;
  tk_free : forall j, (lo <= j < lo + n)%nat -> segment_is_used seg j = false;
  tk_used : forall j, segment_is_used seg' j =
              segment_is_used seg j || ((lo <=? j) && (j <? lo + n))%nat;
  tk_wf : seg_wf seg';
}.

Lemma scan_free_Some seg l i :
  scan_free seg l = Some i -> i ∈ l /\ segment_is_used seg i = false.
Proof.
  induction l as [|x l IH]; simpl; [done|]. destruct (segment_is_used seg x) eqn:E.
  - intros [? ?]%IH. by split; [right|].
  - intros [= <-]. split; [left|done].
Qed.

Lemma scan_free_None seg l :
  scan_free seg l = None -> forall i, i ∈ l -> segment_is_used seg i = true.
Proof.
  induction l as [|x l IH]; simpl; [intros _ i Hi; by apply not_elem_of_nil in Hi|].
  destruct (segment_is_used seg x) eqn:E; [|done].
  intros Hn i [->|Hi]%elem_of_cons; auto.
Qed.

Lemma mark_used_take seg idx :
  seg_wf seg -> (idx < Z.to_nat (count seg))%nat -> segment_is_used seg idx = false ->
  seg_take seg (set_hint (segment_mark_used seg idx) (Z.of_nat (idx + 1))) idx 1.
Proof.
  intros Hwf Hi Hf. split; [done..| | | |].
  - lia.
  - intros j Hj. by replace j with idx by lia.
  - intros j. change (segment_is_used (set_hint ?s _)) with (segment_is_used s).
    rewrite mark_used_is_used by eauto using word_in_range. f_equal.
    destruct (Nat.eqb_spec j idx), (Nat.leb_spec idx j), (Nat.ltb_spec j (idx + 1)); simpl; lia.
  - apply mark_used_wf; [done..|lia].
Qed.

Lemma alloc_single_Some seg cap seg' :
  seg_wf seg -> segment_alloc_single seg = (Some cap, seg') ->
  exists idx, cap = base seg + Z.of_nat idx /\ seg_take seg seg' idx 1.
Proof.
  intros Hwf. unfold segment_alloc_single. case_if; [done|].
  set (n := Z.to_nat (count seg)). set (start := Nat.min _ n).
  assert (forall idx, (idx < n)%nat -> segment_is_used seg idx = false ->
    (Some (base seg + Z.of_nat idx)%u64,
      set_hint (segment_mark_used seg idx) (Z.of_nat (idx + 1))) = (Some cap, seg') ->
    exists idx, cap = base seg + Z.of_nat idx /\ seg_take seg seg' idx 1) as Hgo.
  { intros idx Hi Hf [= <- <-]. exists idx. split; [|by apply mark_used_take].
    pose proof (wf_base _ Hwf). apply wrap_small. lia. }
  destruct (scan_free seg (seq start (n - start))) as [i|] eqn:E1.
  - apply scan_free_Some in E1 as [Hin Hf]. rewrite elem_of_seq in Hin. apply Hgo; [lia|done].
  - destruct (scan_free seg (seq 0 start)) as [i|] eqn:E2; [|done].
    apply scan_free_Some in E2 as [Hin Hf]. rewrite elem_of_seq in Hin. apply Hgo; [lia|done].
Qed.

Lemma alloc_single_None seg seg' :
  seg_wf seg -> segment_alloc_single seg = (None, seg') ->
  seg' = seg /\ forall idx, (idx < Z.to_nat (count seg))%nat -> segment_is_used seg idx = true.
Proof.
  intros Hwf. unfold segment_alloc_single. case_if.
  - intros [= <-]. split; [done|]. intros idx Hi.
    destruct (segment_is_used seg idx) eqn:E; [done|]. exfalso.
    rewrite (wf_used _ Hwf) in *.
    pose proof (countb_run_off (segment_is_used seg) idx 1 (Z.to_nat (count seg))) as Hc.
    assert (countb (segment_is_used seg) (Z.to_nat (count seg)) + 1 <= Z.to_nat (count seg))%nat;
      [|lia].
    apply Hc; [lia|]. intros j Hj. by replace j with idx by lia.
  - set (n := Z.to_nat (count seg)). set (start := Nat.min _ n).
    destruct (scan_free seg (seq start (n - start))) eqn:E1; [done|].
    destruct (scan_free seg (seq 0 start)) eqn:E2; [done|].
    intros [= <-]. split; [done|]. intros idx Hi.
    destruct (le_lt_dec start idx).
    + eapply scan_free_None in E1; [done|]. rewrite elem_of_seq. lia.
    + eapply scan_free_None in E2; [done|]. rewrite elem_of_seq. lia.
Qed.

(** The run search finds a free run when it answers, and misses none. *)
Lemma scan_run_sound seg want m : forall k rs rl s,
  (rl < want)%nat -> (rl <= k)%nat -> (rl <> 0 -> rs + rl = k)%nat ->
  (forall j, (k - rl <= j < k)%nat -> segment_is_used seg j = false) ->
  scan_run seg want (seq k m) rs rl = Some s ->
  (s + want <= k + m)%nat /\ forall j, (s <= j < s + want)%nat -> segment_is_used seg j = false.
Proof.
  induction m as [|m IH]; intros k rs rl s Hlt Hk Hrs Hfree; [done|]. simpl.
  destruct (segment_is_used seg k) eqn:Hu; intros H.
  - destruct (IH (S k) rs 0%nat s) as [? ?]; [lia|lia|lia|intros; lia|done|].
    split; [lia|done].
  - set (rs' := if Nat.eqb rl 0 then k else rs) in *.
    assert (rs' + rl = k)%nat as Hrs'.
    { subst rs'. destruct (Nat.eqb_spec rl 0); lia. }
    assert (forall j, (k - rl <= j < S k)%nat -> segment_is_used seg j = false) as Hf.
    { intros j Hj. destruct (Nat.eq_dec j k) as [->|]; [done|]. apply Hfree. lia. }
    destruct want as [|w]; [lia|]. destruct (Nat.eqb_spec rl w) as [->|Hne].
    + injection H as <-. split; [lia|]. intros j Hj. apply Hf. lia.
    + destruct (IH (S k) rs' (S rl) s) as [? ?]; [lia|lia|lia| |done|].
      * intros j Hj. apply Hf. lia.
      * split; [lia|done].
Qed.

Lemma scan_run_complete seg want m : forall k rs rl,
  (rl < want)%nat -> (rl <= k)%nat ->
  scan_run seg want (seq k m) rs rl = None ->
  forall lo, (k - rl <= lo)%nat -> (lo + want <= k + m)%nat ->
  exists j, (lo <= j < lo + want)%nat /\ segment_is_used seg j = true.
Proof.
  induction m as [|m IH]; intros k rs rl Hlt Hk; [intros _ lo; lia|]. simpl.
  destruct (segment_is_used seg k) eqn:Hu; intros H lo Hlo Hm.
  - destruct (le_lt_dec lo k); [exists k; split; [lia|done]|].
    eapply IH in H; [exact H|lia..].
  - destruct want as [|w]; [lia|].
    destruct (Nat.eqb_spec rl w) as [->|E]; [done|].
    eapply IH in H; [exact H|lia..].
Qed.

Lemma mark_all_used_take seg n : forall lo,
  seg_wf seg -> (lo + n <= Z.to_nat (count seg))%nat ->
  (forall j, (lo <= j < lo + n)%nat -> segment_is_used seg j = false) ->
  seg_take seg (mark_all_used seg (seq lo n)) lo n.
Proof.
  induction n as [|n IH]; intros lo Hwf Hfit Hfree.
  - split; try done. intros j. destruct (Nat.leb_spec lo j), (Nat.ltb_spec j (lo + 0)); simpl;
      rewrite ?orb_false_r; try done; lia.
  - rewrite seq_S. unfold mark_all_used. rewrite fold_left_app.
    destruct (IH lo) as [Hb Hc Hf Hfr Hu Hw]; [done|lia|intros; apply Hfree; lia|].
    fold (mark_all_used seg (seq lo n)). set (s := mark_all_used seg (seq lo n)) in *.
    cbn [fold_left].
    assert (segment_is_used s (lo + n) = false) as Hfn.
    { rewrite Hu, Hfree by lia. simpl.
      destruct (Nat.leb_spec lo (lo + n)), (Nat.ltb_spec (lo + n) (lo + n)); simpl; try done; lia. }
    assert (lo + n < Z.to_nat (count s))%nat by (rewrite Hc; lia).
    split; [by rewrite <- Hb|by rewrite <- Hc|lia|done| |].
    + intros j. rewrite mark_used_is_used, Hu by eauto using word_in_range.
      rewrite <- orb_assoc. f_equal.
      destruct (Nat.eqb_spec j (lo + n)), (Nat.leb_spec lo j), (Nat.ltb_spec j (lo + n)),
        (Nat.ltb_spec j (lo + S n)); simpl; try done; lia.
    + apply (mark_used_wf s (lo + n) (alloc_hint s)); [done..|apply Hw].
Qed.

(** What a segment-level allocation attempt for [n] contiguous slots promises. *)
Definition try_spec (n : nat) (try : Segment -> option Cap * Segment) : Prop :=
  forall seg, seg_wf seg ->
  match try seg with
  | (Some cap, seg') => exists lo, cap = base seg + Z.of_nat lo /\ seg_take seg seg' lo n
  | (None, _) => forall lo, (lo + n <= Z.to_nat (count seg))%nat ->
      exists j, (lo <= j < lo + n)%nat /\ segment_is_used seg j = true
  end.

Lemma alloc_single_try_spec : try_spec 1 segment_alloc_single.
Proof.
  intros seg Hwf. destruct (segment_alloc_single seg) as [[cap|] seg'] eqn:E.
  - by apply alloc_single_Some.
  - apply alloc_single_None in E as [_ H]; [|done]. intros lo Hlo.
    exists lo. split; [lia|]. apply H. lia.
Qed.

(** A segment with fewer than [n] free slots has no free run of length [n]. *)
Lemma no_room_no_run seg n lo :
  seg_wf seg -> count seg - used seg < Z.of_nat n -> (lo + n <= Z.to_nat (count seg))%nat ->
  exists j, (lo <= j < lo + n)%nat /\ segment_is_used seg j = true.
Proof.
  intros Hwf Hroom Hfit.
  destruct (decide (Exists (fun j => segment_is_used seg j = true) (seq lo n))) as [HE|HE].
  - apply Exists_exists in HE as (j & Hj & Hu). rewrite elem_of_seq in Hj. eauto.
  - exfalso. pose proof (countb_run_off (segment_is_used seg) lo n _ Hfit) as Hc.
    rewrite (wf_used _ Hwf) in Hroom. pose proof (wf_count _ Hwf).
    assert (countb (segment_is_used seg) (Z.to_nat (count seg)) + n <= Z.to_nat (count seg))%nat;
      [|lia].
    apply Hc. intros j Hj. destruct (segment_is_used seg j) eqn:E; [|done].
    exfalso. apply HE, Exists_exists. exists j. rewrite elem_of_seq. split; [lia|done].
Qed.

Lemma alloc_contiguous_try_spec n :
  (0 < n)%nat -> try_spec n (fun seg => segment_alloc_contiguous seg (Z.of_nat n)).
Proof.
  intros Hn seg Hwf. unfold segment_alloc_contiguous. rewrite sat_sub_spec.
  destruct (Z.eqb_spec (Z.of_nat n) 0); [lia|]. simpl.
  case_if; [intros lo Hlo; apply no_room_no_run; [done|lia|done]|].
  case_if; [replace n with 1%nat by lia; by apply alloc_single_try_spec|].
  rewrite Nat2Z.id.
  destruct (scan_run seg n (seq 0 (Z.to_nat (count seg))) 0 0) as [s|] eqn:E.
  - exists s. apply scan_run_sound in E as [Hfit Hf]; [|lia..].
    pose proof (wf_base _ Hwf). split; [apply wrap_small; lia|].
    destruct (mark_all_used_take seg n s) as [Hb Hc H1 H2 Hu Hw]; [done..|].
    split; try done. apply set_hint_wf; [done|]. rewrite Hc. lia.
  - intros lo Hlo. eapply scan_run_complete in E; [exact E|lia..].
Qed.

Lemma segment_free_spec seg idx seg' :
  seg_wf seg -> segment_free seg idx = (true, seg') ->
  (idx < Z.to_nat (count seg))%nat /\ segment_is_used seg idx = true /\
  base seg' = base seg /\ count seg' = count seg /\ seg_wf seg' /\
  forall j, segment_is_used seg' j = segment_is_used seg j && negb (Nat.eqb j idx).
Proof.
  intros Hwf. unfold segment_free. case_if; [done|].
  match goal with H : (_ <=? _)%nat = false |- _ => apply Nat.leb_gt in H end.
  intros [= <-]. split; [done|]. split; [done|].
  pose proof (wf_hint _ Hwf).
  assert (seg_wf (segment_mark_free seg idx)).
  { apply (mark_free_wf seg idx (alloc_hint seg)); done. }
  case_if; (split; [done|]; split; [done|]; split; [|intros j]).
  1: apply mark_free_wf; [done..|lia].
  2: done.
  all: change (segment_is_used (set_hint ?s _)) with (segment_is_used s) || idtac;
    apply mark_free_is_used; eauto using word_in_range.
Qed.

Lemma segment_free_false seg idx seg' :
  segment_free seg idx = (false, seg') ->
  seg' = seg /\ ((Z.to_nat (count seg) <= idx)%nat \/ segment_is_used seg idx = false).
Proof.
  unfold segment_free. case_if; [|by case_if].
  intros [= <-]. split; [done|]. apply orb_true_iff in Heqb as [H|H].
  - left. by apply Nat.leb_le.
  - right. by apply negb_true_iff.
Qed.
