(* ===== verification/SlotPool.v ===== *)
(** The segment chain of [src/substrate/slot_alloc.rs] as a pool of slots:
    the state invariant, the specification of the allocation and release
    operations, and the interface [SlotPool] other components rely on. *)

From S2P Require Import Prelude Consts SlotAlloc.

(** ** Interface: what a pool of capability slots promises its clients *)

Class SlotPool (S : Type) := {
  sp_inv : S -> Prop;
  sp_managed : S -> Cap -> Prop;
  sp_allocated : S -> Cap -> Prop;
  sp_alloc : S -> option Cap * S;
  sp_free : S -> Cap -> bool * S;
  (** Allocation hands out a managed slot that was free, and marks exactly it;
      it fails only when every managed slot is taken. *)
  sp_alloc_ok s : sp_inv s ->
    match sp_alloc s with
    | (Some c, s') => sp_inv s' /\ sp_managed s c /\ ~ sp_allocated s c /\
        (forall x, sp_managed s' x <-> sp_managed s x) /\
        (forall x, sp_allocated s' x <-> sp_allocated s x \/ x = c)
    | (None, s') => s' = s /\ forall x, sp_managed s x -> sp_allocated s x
    end;
  (** Release succeeds exactly on allocated slots, and frees exactly the slot. *)
  sp_free_ok s c : sp_inv s ->
    match sp_free s c with
    | (true, s') => sp_inv s' /\ sp_allocated s c /\
        (forall x, sp_managed s' x <-> sp_managed s x) /\
        (forall x, sp_allocated s' x <-> sp_allocated s x /\ x <> c)
    | (false, s') => s' = s /\ ~ sp_allocated s c
    end;
}.

Section client.
Context {S : Type} `{SlotPool S}.

(** A client that draws [n] slots, one [slot_alloc] call at a time. *)
Fixpoint alloc_many (n : nat) (s : S) : list Cap * S :=
  match n with
  | O => ([], s)
  | Datatypes.S n' =>
      match sp_alloc s with
      | (Some c, s') => let '(cs, s'') := alloc_many n' s' in (c :: cs, s'')
      | (None, s') => ([], s')
      end
  end.

Lemma alloc_many_fresh n : forall s cs s',
  sp_inv s -> alloc_many n s = (cs, s') ->
  sp_inv s' /\ NoDup cs /\
  (forall c, c ∈ cs -> sp_managed s c /\ ~ sp_allocated s c) /\
  (forall x, sp_allocated s' x <-> sp_allocated s x \/ x ∈ cs).
Proof.
  induction n as [|n IH]; intros s cs s' Hi E; simpl in E.
  - injection E as <- <-. split; [done|]. split; [constructor|].
    split; [set_solver|]. intros x. rewrite elem_of_nil. tauto.
  - pose proof (sp_alloc_ok s Hi) as Ha. destruct (sp_alloc s) as [[c|] s1].
    + destruct Ha as (Hi1 & Hm & Hna & Hman & Hall).
      destruct (alloc_many n s1) as [cs1 s2] eqn:E1. injection E as <- <-.
      destruct (IH s1 cs1 s2 Hi1 E1) as (Hi2 & Hnd & Hfree & Hall2).
      split; [done|]. split; [|split].
      * constructor; [|done]. intros Hin. apply Hfree in Hin as [_ Hin].
        apply Hin, Hall. by right.
      * intros x [->|Hx]%elem_of_cons; [done|].
        apply Hfree in Hx as [Hx1 Hx2]. rewrite Hman in Hx1. rewrite Hall in Hx2. tauto.
      * intros x. rewrite Hall2, Hall, elem_of_cons. tauto.
    + destruct Ha as [-> _]. injection E as <- <-. split; [done|]. split; [constructor|].
      split; [set_solver|]. intros x. rewrite elem_of_nil. tauto.
Qed.
End client.

(** ** State invariant *)

Record st_wf (st : SlotAllocState) : Prop := {
  st_len : length (segments st) = MAX_SEGMENTS;
  st_cnt : (seg_count st <= MAX_SEGMENTS)%nat;
  st_segs : forall i, (i < seg_count st)%nat -> seg_wf (seg_at st i);
  st_disj : forall i j slot, (i < seg_count st)%nat -> (j < seg_count st)%nat ->
    seg_has (seg_at st i) slot -> seg_has (seg_at st j) slot -> i = j;
}.

Definition managed (st : SlotAllocState) (slot : Cap) : Prop :=
  exists i, (i < seg_count st)%nat /\ seg_has (seg_at st i) slot.
Definition allocated (st : SlotAllocState) (slot : Cap) : Prop :=
  exists i, (i < seg_count st)%nat /\ seg_allocated (seg_at st i) slot.

Lemma seg_at_set st i s j :
  (i < length (segments st))%nat ->
  seg_at (set_segment st i s) j = if decide (i = j) then s else seg_at st j.
Proof.
  intros Hi. unfold seg_at. simpl. destruct (decide (i = j)) as [<-|].
  - by rewrite list_lookup_insert_eq.
  - by rewrite list_lookup_insert_ne.
Qed.

(** Replacing one segment by a well-formed one with the same range keeps the
    invariant and the managed set. *)
Lemma set_segment_wf st i s :
  st_wf st -> (i < seg_count st)%nat -> seg_wf s ->
  base s = base (seg_at st i) -> count s = count (seg_at st i) ->
  st_wf (set_segment st i s) /\
  forall x, managed (set_segment st i s) x <-> managed st x.
Proof.
  intros [Hl Hc Hs Hd] Hi Hw Hb Hn.
  assert (forall j, seg_at (set_segment st i s) j = if decide (i = j) then s else seg_at st j) as E.
  { intros j. apply seg_at_set. lia. }
  assert (forall j x, seg_has (seg_at (set_segment st i s) j) x <-> seg_has (seg_at st j) x) as Eh.
  { intros j x. rewrite E. case_decide; subst; [|done]. unfold seg_has. by rewrite Hb, Hn. }
  split.
  - split; simpl.
    + by rewrite length_insert.
    + done.
    + intros j Hj. rewrite E. case_decide; auto.
    + intros j k x Hj Hk. rewrite !Eh. by apply Hd.
  - intros x. unfold managed. simpl. by setoid_rewrite Eh.
Qed.

(** [st'] is [st] with exactly the free slots [s .. s+n) turned to allocated. *)
Record pool_take (st st' : SlotAllocState) (s : Cap) (n : nat) : Prop := {
  pt_wf : st_wf st';
  pt_free : forall x, s <= x < s + Z.of_nat n -> managed st x /\ ~ allocated st x;
  pt_managed : forall x, managed st' x <-> managed st x;
  pt_alloc : forall x, allocated st' x <-> allocated st x \/ s <= x < s + Z.of_nat n;
}.

Lemma take_pool st i seg' lo n :
  st_wf st -> (i < seg_count st)%nat -> seg_take (seg_at st i) seg' lo n ->
  pool_take st (set_active (set_segment st i seg') i) (base (seg_at st i) + Z.of_nat lo) n.
Proof.
  intros Hwf Hi [Hb Hc Hfit Hfree Hu Hw].
  destruct (set_segment_wf st i seg' Hwf Hi Hw Hb Hc) as [Hwf' Hman].
  set (g := seg_at st i) in *.
  assert (forall x, base g + Z.of_nat lo <= x < base g + Z.of_nat lo + Z.of_nat n ->
    seg_has g x /\ segment_is_used g (Z.to_nat (x - base g)) = false) as Hrange.
  { intros x Hx. pose proof (wf_count _ (st_segs _ Hwf i Hi)). fold g in H.
    split; [split; lia|]. apply Hfree. lia. }
  split.
  - by destruct Hwf'.
  - intros x Hx. destruct (Hrange x Hx) as [Hh Hf]. split; [by exists i|].
    intros (j & Hj & Hhj & Huj). assert (j = i) as -> by (by apply (st_disj st Hwf j i x)).
    fold g in Huj. congruence.
  - exact Hman.
  - intros x. unfold allocated, seg_allocated.
    assert (forall j, seg_at (set_active (set_segment st i seg') i) j =
              if decide (i = j) then seg' else seg_at st j) as E.
    { intros j. apply seg_at_set. rewrite (st_len _ Hwf). pose proof (st_cnt _ Hwf). lia. }
    setoid_rewrite E. simpl. split.
    + intros (j & Hj & Hh & Hx). case_decide as Eij; [subst j|by left; exists j].
      unfold seg_has in Hh. rewrite Hb, Hc in Hh. rewrite Hb, Hu in Hx.
      apply orb_true_iff in Hx as [Hx|Hx]; [left; exists i; by split|right].
      apply andb_true_iff in Hx as [H1%Nat.leb_le H2%Nat.ltb_lt]. lia.
    + intros [(j & Hj & Hh & Hx)|Hx].
      * exists j. split; [done|]. case_decide as Eij; [subst j|done].
        unfold seg_has. rewrite Hb, Hc, Hu. fold g in Hh, Hx. rewrite Hx. done.
      * exists i. destruct (Hrange x Hx) as [Hh Hf]. rewrite decide_True by done.
        unfold seg_has. rewrite Hb, Hc, Hu. split; [done|]. split; [done|].
        apply orb_true_iff. right. apply andb_true_iff.
        rewrite Nat.leb_le, Nat.ltb_lt. unfold seg_has in Hh. lia.
Qed.

(** The round-robin order visits every segment. *)
Lemma round_robin_covers (a n i : nat) :
  (i < n)%nat -> exists off, (off < n)%nat /\ ((a + off) `mod` n)%nat = i.
Proof.
  intros Hi. exists (((n - a `mod` n) + i) `mod` n)%nat.
  split; [apply Nat.mod_upper_bound; lia|].
  rewrite Nat.Div0.add_mod_idemp_r.
  pose proof (Nat.mod_upper_bound a n ltac:(lia)).
  rewrite <- (Nat.Div0.add_mod_idemp_l a).
  replace (a `mod` n + (n - a `mod` n + i))%nat with (i + 1 * n)%nat by lia.
  rewrite Nat.Div0.mod_add. apply Nat.mod_small. lia.
Qed.

Definition no_run (st : SlotAllocState) (n : nat) : Prop :=
  forall i lo, (i < seg_count st)%nat -> (lo + n <= Z.to_nat (count (seg_at st i)))%nat ->
    exists j, (lo <= j < lo + n)%nat /\ segment_is_used (seg_at st i) j = true.

Lemma scan_segments_spec n try st offs :
  try_spec n try -> st_wf st -> (0 < seg_count st)%nat ->
  match scan_segments try st offs with
  | (Some s, st') => pool_take st st' s n
  | (None, st') => st' = st /\
      forall off lo, off ∈ offs ->
      let i := ((active_seg st + off) `mod` seg_count st)%nat in
      (lo + n <= Z.to_nat (count (seg_at st i)))%nat ->
      exists j, (lo <= j < lo + n)%nat /\ segment_is_used (seg_at st i) j = true
  end.
Proof.
  intros Hspec Hwf Hpos. induction offs as [|off offs IH]; simpl.
  - split; [done|]. intros off lo Hin. by apply not_elem_of_nil in Hin.
  - set (i := ((active_seg st + off) `mod` seg_count st)%nat).
    assert (i < seg_count st)%nat as Hi by (apply Nat.mod_upper_bound; lia).
    specialize (Hspec _ (st_segs _ Hwf i Hi)).
    destruct (try (seg_at st i)) as [[c|] seg'].
    + destruct Hspec as (lo & -> & Ht). by apply take_pool.
    + destruct (scan_segments try st offs) as [[s|] st']; [done|].
      destruct IH as [-> IH]. split; [done|].
      intros off' lo [->|Hin]%elem_of_cons; [apply Hspec | by apply IH].
Qed.

Lemma scan_all_segments n try st :
  try_spec n try -> st_wf st -> (0 < seg_count st)%nat ->
  match scan_segments try st (seq 0 (seg_count st)) with
  | (Some s, st') => pool_take st st' s n
  | (None, st') => st' = st /\ no_run st n
  end.
Proof.
  intros Ht Hwf Hpos. pose proof (scan_segments_spec n try st (seq 0 (seg_count st)) Ht Hwf Hpos) as H.
  destruct (scan_segments _ _ _) as [[s|] st']; [done|]. destruct H as [-> H]. split; [done|].
  intros i lo Hi Hfit. destruct (round_robin_covers (active_seg st) (seg_count st) i Hi) as (off & Hoff & E).
  specialize (H off lo ltac:(rewrite elem_of_seq; lia)). cbv zeta in H. rewrite E in H. by apply H.
Qed.

Lemma no_run_1_full st : st_wf st -> no_run st 1 -> forall x, managed st x -> allocated st x.
Proof.
  intros Hwf Hn x (i & Hi & Hh). exists i. split; [done|]. split; [done|].
  pose proof (wf_count _ (st_segs _ Hwf i Hi)). unfold seg_has in Hh.
  destruct (Hn i (Z.to_nat (x - base (seg_at st i)))) as (j & Hj & Hu); [done|lia|].
  by replace (Z.to_nat (x - base (seg_at st i))) with j by lia.
Qed.

(** ** Release *)

Lemma slot_index_Some g slot k :
  segment_slot_index g slot = Some k -> seg_has g slot /\ k = Z.to_nat (slot - base g).
Proof. unfold segment_slot_index, seg_has. repeat case_if; [done..|]. intros [= <-]. lia. Qed.

Lemma slot_index_None g slot : segment_slot_index g slot = None -> ~ seg_has g slot.
Proof. unfold segment_slot_index, seg_has. repeat case_if; [lia..|done]. Qed.

(** [st'] is [st] with exactly the allocated slot [s] released. *)
Record pool_release (st st' : SlotAllocState) (s : Cap) : Prop := {
  pr_wf : st_wf st';
  pr_was : allocated st s;
  pr_managed : forall x, managed st' x <-> managed st x;
  pr_alloc : forall x, allocated st' x <-> allocated st x /\ x <> s;
}.

Lemma pool_release_active st st' s i : pool_release st st' s -> pool_release st (set_active st' i) s.
Proof. intros [[] ? ? ?]. by split. Qed.

Lemma release_pool st i slot seg' :
  st_wf st -> (i < seg_count st)%nat -> seg_has (seg_at st i) slot ->
  segment_free (seg_at st i) (Z.to_nat (slot - base (seg_at st i))) = (true, seg') ->
  pool_release st (set_segment st i seg') slot.
Proof.
  intros Hwf Hi Hh Hf. set (g := seg_at st i) in *.
  apply segment_free_spec in Hf as (Hlt & Hused & Hb & Hc & Hw & Hu); [|by apply Hwf].
  destruct (set_segment_wf st i seg' Hwf Hi Hw Hb Hc) as [Hwf' Hman].
  assert (forall j, seg_at (set_segment st i seg') j =
            if decide (i = j) then seg' else seg_at st j) as E.
  { intros j. apply seg_at_set. rewrite (st_len _ Hwf). pose proof (st_cnt _ Hwf). lia. }
  split; [done|by exists i|done|].
  intros x. unfold allocated, seg_allocated. setoid_rewrite E. simpl. split.
  - intros (j & Hj & Hhx & Hx). case_decide as Eij; [subst j|].
    + unfold seg_has in *. rewrite Hb, Hc in Hhx. rewrite Hb, Hu in Hx.
      apply andb_true_iff in Hx as [Hx Hne]. apply negb_true_iff, Nat.eqb_neq in Hne.
      split; [by exists i|]. by intros ->.
    + split; [by exists j|]. intros ->. apply Eij. by apply (st_disj st Hwf i j slot).
  - intros [(j & Hj & Hhx & Hx) Hne]. exists j. split; [done|].
    case_decide as Eij; [subst j|done]. unfold seg_has in *. rewrite Hb, Hc, Hu.
    fold g in Hhx, Hx. rewrite Hx. split; [done|].
    apply negb_true_iff, Nat.eqb_neq. lia.
Qed.

Lemma free_scan_spec st slot idxs :
  st_wf st -> (forall i, i ∈ idxs -> (i < seg_count st)%nat) ->
  match free_scan st slot idxs with
  | (true, st') => pool_release st st' slot
  | (false, st') => st' = st /\
      forall i, i ∈ idxs -> ~ seg_allocated (seg_at st i) slot
  end.
Proof.
  intros Hwf. induction idxs as [|i idxs IH]; intros Hin; simpl.
  - split; [done|]. intros i Hi. by apply not_elem_of_nil in Hi.
  - assert (i < seg_count st)%nat as Hi by (apply Hin; left).
    destruct (segment_slot_index (seg_at st i) slot) as [k|] eqn:Ek.
    + apply slot_index_Some in Ek as [Hh ->].
      destruct (segment_free _ _) as [[|] seg'] eqn:Ef.
      * pose proof (release_pool st i slot seg' Hwf Hi Hh Ef).
        case_if; [by apply pool_release_active|done].
      * split; [done|]. intros j Hj [Hhj Huj].
        assert (j = i) as -> by (apply (st_disj st Hwf j i slot); auto).
        apply segment_free_false in Ef as [_ [Hr|Hr]]; [|congruence].
        unfold seg_has in Hh. lia.
    + apply slot_index_None in Ek. specialize (IH ltac:(intros; apply Hin; by right)).
      destruct (free_scan st slot idxs) as [[|] st']; [done|]. destruct IH as [-> IH].
      split; [done|]. intros j [->|Hj]%elem_of_cons; [by intros [? _]|by apply IH].
Qed.

Lemma slot_free_correct st slot :
  st_wf st ->
  match slot_free st slot with
  | (true, st') => initialized st = true /\ pool_release st st' slot
  | (false, st') => st' = st /\ (initialized st = true -> ~ allocated st slot)
  end.
Proof.
  intros Hwf. unfold slot_free. destruct (initialized st) eqn:Ei; simpl; [|done].
  pose proof (free_scan_spec st slot (seq 0 (seg_count st)) Hwf) as H.
  destruct (free_scan _ _ _) as [[|] st'].
  - split; [done|]. apply H. intros i. rewrite elem_of_seq. lia.
  - destruct H as [-> H]; [intros i; rewrite elem_of_seq; lia|].
    split; [done|]. intros _ (i & Hi & Ha). apply (H i); [rewrite elem_of_seq; lia|done].
Qed.

(** ** Initialisation *)

Lemma fresh_is_used b c j : segment_is_used (fresh_segment b c) j = false.
Proof.
  rewrite is_used_testbit. unfold word_at. cbn [bits fresh_segment].
  destruct (zero_bits !! _) eqn:E; simpl; [|apply Z.bits_0].
  apply lookup_replicate in E as [-> _]. apply Z.bits_0.
Qed.

Lemma fresh_segment_wf b c :
  0 <= b -> b + c < 2 ^ 64 -> 0 <= c <= Z.of_nat MAX_SEGMENT_SLOTS -> seg_wf (fresh_segment b c).
Proof.
  intros Hb Hbc Hc. split; cbn [bits count base alloc_hint used fresh_segment]; try lia.
  - apply length_replicate.
  - intros w z Hz. apply lookup_replicate in Hz as [-> _]. done.
  - rewrite countb_none; [done|]. intros. apply fresh_is_used.
Qed.

Lemma fill_chunks_spec f : forall nb r,
  0 <= nb -> 0 <= r -> nb + r < 2 ^ 64 ->
  let '(segs, rem) := fill_chunks f nb r in
  (length segs <= f)%nat /\ rem = Z.max 0 (r - Z.of_nat f * 4096) /\
  (0 < r -> (0 < f)%nat -> (0 < length segs)%nat) /\
  forall i s, segs !! i = Some s <->
    ((i < f)%nat /\ 4096 * Z.of_nat i < r /\
     s = fresh_segment (nb + 4096 * Z.of_nat i) (Z.min (r - 4096 * Z.of_nat i) 4096)).
Proof.
  induction f as [|f IH]; intros nb r Hnb Hr Hlt; simpl.
  - split; [done|]. split; [lia|]. split; [lia|]. intros i s. rewrite lookup_nil. split; [done|lia].
  - destruct (Z.eqb_spec r 0) as [->|Hne].
    { split; [simpl; lia|]. split; [lia|]. split; [lia|].
      intros i s. rewrite lookup_nil. split; [done|lia]. }
    change (Z.of_nat MAX_SEGMENT_SLOTS) with 4096. set (c := Z.min r 4096).
    rewrite wrap_small by lia. specialize (IH (nb + c) (r - c) ltac:(lia) ltac:(lia) ltac:(lia)).
    destruct (fill_chunks f (nb + c) (r - c)) as [segs rem].
    destruct IH as (Hl & -> & _ & Hs). split; [simpl; lia|]. split; [lia|]. split; [simpl; lia|].
    intros [|i] s; simpl.
    + split.
      * intros [= <-]. split; [lia|]. split; [lia|]. f_equal; lia.
      * intros (_ & _ & ->). do 2 f_equal; lia.
    + rewrite Hs. split; intros (H1 & H2 & ->); (split; [lia|]; split; [lia|]); f_equal; lia.
Qed.

Lemma seg_at_init b c ntfn i :
  0 <= b -> 0 < c <= 65536 -> b + c < 2 ^ 64 ->
  (i < seg_count (slot_alloc_init b c ntfn))%nat ->
  4096 * Z.of_nat i < c /\
  seg_at (slot_alloc_init b c ntfn) i =
    fresh_segment (b + 4096 * Z.of_nat i) (Z.min (c - 4096 * Z.of_nat i) 4096).
Proof.
  intros Hb Hc Hlt. unfold slot_alloc_init.
  destruct (Z.eqb_spec c 0); [lia|]. cbn [andb].
  pose proof (fill_chunks_spec MAX_SEGMENTS b c ltac:(lia) ltac:(lia) Hlt) as H.
  destruct (fill_chunks MAX_SEGMENTS b c) as [segs rem]. destruct H as (Hl & -> & _ & Hs).
  change (Z.of_nat MAX_SEGMENTS * 4096) with 65536.
  rewrite Z.max_l by lia. cbn [seg_count Z.eqb andb negb orb]. intros Hi.
  destruct (lookup_lt_is_Some_2 segs i Hi) as [s E]. unfold seg_at. cbn [segments].
  rewrite (lookup_app_l_Some _ _ _ _ E). apply Hs in E as (_ & ? & ->). done.
Qed.

Lemma init_seg_count b c ntfn i :
  0 <= b -> 0 < c <= 65536 -> b + c < 2 ^ 64 -> 4096 * Z.of_nat i < c ->
  (i < seg_count (slot_alloc_init b c ntfn))%nat.
Proof.
  intros Hb Hc Hlt Hi. unfold slot_alloc_init.
  destruct (Z.eqb_spec c 0); [lia|]. cbn [andb].
  pose proof (fill_chunks_spec MAX_SEGMENTS b c ltac:(lia) ltac:(lia) Hlt) as H.
  destruct (fill_chunks MAX_SEGMENTS b c) as [segs rem]. destruct H as (Hl & -> & _ & Hs).
  change (Z.of_nat MAX_SEGMENTS * 4096) with 65536. rewrite Z.max_l by lia. cbn [seg_count Z.eqb andb negb orb].
  eapply lookup_lt_Some. apply Hs. split; [unfold MAX_SEGMENTS; lia|]. split; [done|]. reflexivity.
Qed.

Lemma init_len b c ntfn :
  0 <= b -> 0 <= c -> b + c < 2 ^ 64 ->
  length (segments (slot_alloc_init b c ntfn)) = MAX_SEGMENTS /\
  (seg_count (slot_alloc_init b c ntfn) <= MAX_SEGMENTS)%nat.
Proof.
  intros Hb Hc Hlt. unfold slot_alloc_init.
  assert (exists segs rem, (if (c =? 0) && negb (b =? 0) then ([fresh_segment b 0], 0)
            else fill_chunks MAX_SEGMENTS b c) = (segs, rem) /\ (length segs <= MAX_SEGMENTS)%nat)
    as (segs & rem & -> & Hl).
  { case_if; [eexists _, _; split; [done|]; unfold MAX_SEGMENTS; cbn [length]; lia|].
    pose proof (fill_chunks_spec MAX_SEGMENTS b c Hb Hc Hlt) as H.
    destruct (fill_chunks _ _ _) as [segs rem]. destruct H as (? & _). eauto. }
  cbn [segments seg_count]. rewrite length_app, length_replicate. split; [lia|]. case_if; lia.
Qed.

Lemma init_wf b c ntfn :
  0 <= b -> 0 < c <= 65536 -> b + c < 2 ^ 64 -> st_wf (slot_alloc_init b c ntfn).
Proof.
  intros Hb Hc Hlt. destruct (init_len b c ntfn) as [H1 H2]; [lia..|].
  split; [done|done| |].
  - intros i Hi. destruct (seg_at_init b c ntfn i) as [? ->]; [done..|].
    apply fresh_segment_wf; unfold MAX_SEGMENT_SLOTS; lia.
  - intros i j slot Hi Hj. destruct (seg_at_init b c ntfn i) as [? ->]; [done..|].
    destruct (seg_at_init b c ntfn j) as [? ->]; [done..|].
    unfold seg_has. cbn [base count fresh_segment]. lia.
Qed.

Lemma init_initialized b c ntfn :
  0 <= b -> 0 < c <= 65536 -> b + c < 2 ^ 64 -> initialized (slot_alloc_init b c ntfn) = true.
Proof.
  intros Hb Hc Hbc. unfold slot_alloc_init. destruct (Z.eqb_spec c 0); [lia|]. cbn [andb].
  pose proof (fill_chunks_spec MAX_SEGMENTS b c Hb ltac:(lia) Hbc) as H.
  destruct (fill_chunks MAX_SEGMENTS b c) as [segs rem]. destruct H as (_ & -> & _).
  change (Z.of_nat MAX_SEGMENTS * 4096) with 65536. by rewrite Z.max_l by lia.
Qed.

Lemma init_too_large b c ntfn :
  0 <= b -> 65536 < c -> b + c < 2 ^ 64 ->
  initialized (slot_alloc_init b c ntfn) = false /\ seg_count (slot_alloc_init b c ntfn) = 0%nat.
Proof.
  intros Hb Hc Hbc. unfold slot_alloc_init. destruct (Z.eqb_spec c 0); [lia|]. cbn [andb].
  pose proof (fill_chunks_spec MAX_SEGMENTS b c Hb ltac:(lia) Hbc) as H.
  destruct (fill_chunks MAX_SEGMENTS b c) as [segs rem]. destruct H as (_ & -> & _).
  change (Z.of_nat MAX_SEGMENTS * 4096) with 65536. rewrite Z.max_r by lia.
  destruct (Z.eqb_spec (c - 65536) 0); [lia|]. done.
Qed.

Lemma init_managed b c ntfn x :
  0 <= b -> 0 < c <= 65536 -> b + c < 2 ^ 64 ->
  (managed (slot_alloc_init b c ntfn) x <-> b <= x < b + c).
Proof.
  intros Hb Hc Hbc. unfold managed, seg_has. split.
  - intros (i & Hlt & Hh). destruct (seg_at_init b c ntfn i) as [Hi1 E]; [done..|].
    rewrite E in Hh. cbn [base count fresh_segment] in Hh. lia.
  - intros Hx. pose (i := Z.to_nat ((x - b) / 4096)).
    assert (4096 * Z.of_nat i <= x - b < 4096 * Z.of_nat i + 4096).
    { unfold i. rewrite Z2Nat.id by (apply Z.div_pos; lia).
      pose proof (Z.div_mod (x - b) 4096). pose proof (Z.mod_pos_bound (x - b) 4096). lia. }
    assert (i < seg_count (slot_alloc_init b c ntfn))%nat by (apply init_seg_count; lia).
    exists i. split; [done|]. destruct (seg_at_init b c ntfn i) as [_ ->]; [done..|].
    cbn [base count fresh_segment]. lia.
Qed.

(** ** The allocator implements the interface *)

Lemma scan_segments_init try st offs :
  initialized (snd (scan_segments try st offs)) = initialized st.
Proof.
  induction offs as [|off offs IH]; simpl; [done|].
  destruct (try _) as [[c|] g]; [done|exact IH].
Qed.

Lemma free_scan_init st slot idxs : initialized (snd (free_scan st slot idxs)) = initialized st.
Proof.
  induction idxs as [|i idxs IH]; simpl; [done|].
  destruct (segment_slot_index _ _); [|exact IH].
  destruct (segment_free _ _) as [[|] g]; [by case_if|done].
Qed.

Lemma slot_alloc_fast_init st : initialized (snd (slot_alloc_fast st)) = initialized st.
Proof.
  unfold slot_alloc_fast, alloc_single_locked. repeat case_if; try done. apply scan_segments_init.
Qed.

Lemma slot_alloc_fast_correct st :
  st_wf st -> initialized st = true ->
  match slot_alloc_fast st with
  | (Some s, st') => pool_take st st' s 1
  | (None, st') => st' = st /\ forall x, managed st x -> allocated st x
  end.
Proof.
  intros Hwf Hi. unfold slot_alloc_fast, alloc_single_locked. rewrite Hi. simpl.
  destruct (Nat.eqb_spec (seg_count st) 0) as [E|E].
  - split; [done|]. intros x (i & Hlt & _). lia.
  - pose proof (scan_all_segments 1 segment_alloc_single st alloc_single_try_spec Hwf ltac:(lia)) as H.
    destruct (scan_segments _ _ _) as [[s|] st']; [done|]. destruct H as [-> H].
    split; [done|]. by apply no_run_1_full.
Qed.

#[global] Program Instance slot_alloc_pool : SlotPool SlotAllocState := {|
  sp_inv st := st_wf st /\ initialized st = true;
  sp_managed := managed;
  sp_allocated := allocated;
  sp_alloc := slot_alloc_fast;
  sp_free := slot_free;
|}.
Next Obligation.
  intros st [Hwf Hi]. pose proof (slot_alloc_fast_correct st Hwf Hi) as H.
  pose proof (slot_alloc_fast_init st) as Hini.
  destruct (slot_alloc_fast st) as [[c|] st']; [|done]. destruct H as [Hw Hf Hm Ha].
  simpl in Hini. split; [split; [done|congruence]|].
  split; [apply Hf; lia|]. split; [apply Hf; lia|]. split; [done|].
  intros x. rewrite Ha. split; (intros [?|?]; [by left|right; lia]).
Qed.
Next Obligation.
  intros st c [Hwf Hi]. pose proof (slot_free_correct st c Hwf) as H.
  assert (initialized (snd (slot_free st c)) = initialized st) as Hini.
  { unfold slot_free. case_if; [done|]. apply free_scan_init. }
  destruct (slot_free st c) as [[|] st'].
  - destruct H as [_ [Hw Hwas Hm Ha]]. simpl in Hini. split; [split; [done|congruence]|done].
  - destruct H as [-> H]. split; [done|auto].
Qed.

(** ** Free slots left *)

Definition free_slots (st : SlotAllocState) : Z :=
  foldr Z.add 0 (map (fun i => count (seg_at st i) - used (seg_at st i)) (seq 0 (seg_count st))).

Lemma seg_used_bounds g : seg_wf g -> 0 <= used g <= count g /\ count g <= 4096.
Proof.
  intros Hwf. pose proof (wf_count _ Hwf) as Hc. change (Z.of_nat MAX_SEGMENT_SLOTS) with 4096 in Hc.
  pose proof (countb_le (segment_is_used g) (Z.to_nat (count g))).
  rewrite (wf_used _ Hwf). lia.
Qed.

Lemma fold_sum_u64 (f : nat -> Z) l acc :
  0 <= acc -> (forall i, i ∈ l -> 0 <= f i <= 4096) ->
  acc + 4096 * Z.of_nat (length l) < 2 ^ 64 ->
  fold_left (fun r i => (r + f i)%u64) l acc = acc + foldr Z.add 0 (map f l) /\
  0 <= foldr Z.add 0 (map f l) <= 4096 * Z.of_nat (length l).
Proof.
  revert acc. induction l as [|x l IH]; intros acc Ha Hf Hb; cbn [fold_left foldr map length] in *; [lia|].
  pose proof (Hf x ltac:(left)). rewrite wrap_small by lia.
  destruct (IH (acc + f x)) as [-> ?]; [lia|intros; apply Hf; by right|lia|]. lia.
Qed.

Lemma slot_alloc_remaining_free st :
  st_wf st -> initialized st = true -> slot_alloc_remaining st = free_slots st.
Proof.
  intros Hwf Hi. unfold slot_alloc_remaining, free_slots. rewrite Hi. simpl.
  assert (forall i, i ∈ seq 0 (seg_count st) ->
    sat_sub (count (seg_at st i)) (used (seg_at st i)) = count (seg_at st i) - used (seg_at st i) /\
    0 <= count (seg_at st i) - used (seg_at st i) <= 4096) as Hb.
  { intros i Hin. rewrite elem_of_seq in Hin.
    pose proof (seg_used_bounds _ (st_segs _ Hwf i ltac:(lia))). rewrite sat_sub_spec. lia. }
  edestruct (fold_sum_u64 (fun i => sat_sub (count (seg_at st i)) (used (seg_at st i)))
    (seq 0 (seg_count st)) 0) as [-> _].
  - lia.
  - intros i Hin. destruct (Hb i Hin) as [-> ?]. done.
  - rewrite length_seq. pose proof (st_cnt _ Hwf) as Hc. change MAX_SEGMENTS with 16%nat in Hc. lia.
  - rewrite Z.add_0_l. f_equal. apply map_ext_in. intros i Hin%list_elem_of_In. by apply Hb.
Qed.

Lemma foldr_add_zero l : (forall z, z ∈ l -> 0 <= z) -> foldr Z.add 0 l = 0 -> forall z, z ∈ l -> z = 0.
Proof.
  induction l as [|x l IH]; intros Hp Hz z; [by intros ?%not_elem_of_nil|].
  assert (0 <= foldr Z.add 0 l).
  { clear -Hp. induction l as [|y l IH]; simpl; [lia|].
    pose proof (Hp y ltac:(right; left)). enough (0 <= foldr Z.add 0 l) by lia.
    apply IH. intros w [->|Hw]%elem_of_cons; apply Hp; [left|by right; right]. }
  pose proof (Hp x ltac:(left)). simpl in Hz.
  intros [->|Hin]%elem_of_cons; [lia|]. apply IH; [|lia|done]. intros; apply Hp; by right.
Qed.

(** A segment's [used] counter reaches [count] exactly when its bitmap is full. *)
Lemma seg_full_iff g :
  seg_wf g ->
  (count g - used g = 0 <->
   forall j, (j < Z.to_nat (count g))%nat -> segment_is_used g j = true).
Proof.
  intros Hwf. pose proof (wf_count _ Hwf). rewrite (wf_used _ Hwf). split.
  - intros Hz j Hj. destruct (segment_is_used g j) eqn:Ef; [done|]. exfalso.
    assert (countb (segment_is_used g) (Z.to_nat (count g)) + 1 <= Z.to_nat (count g))%nat; [|lia].
    apply (countb_run_off _ j); [lia|]. intros k Hk. by replace k with j by lia.
  - intros Hall. rewrite countb_all by done. lia.
Qed.

Lemma free_slots_zero st :
  st_wf st -> (free_slots st = 0 <-> forall x, managed st x -> allocated st x).
Proof.
  intros Hwf.
  set (f := fun i => count (seg_at st i) - used (seg_at st i)).
  assert (forall z, z ∈ map f (seq 0 (seg_count st)) -> 0 <= z) as Hpos.
  { intros z (i & <- & Hin%in_seq)%list_elem_of_In%in_map_iff.
    pose proof (seg_used_bounds _ (st_segs _ Hwf i ltac:(lia))). unfold f. lia. }
  split.
  - intros Hz x (i & Hi & Hh). exists i. split; [done|]. split; [done|].
    apply (seg_full_iff _ (st_segs _ Hwf i Hi)); [|unfold seg_has in Hh; lia].
    eapply foldr_add_zero; [exact Hpos|exact Hz|]. apply list_elem_of_In, in_map_iff.
    exists i. split; [done|]. apply in_seq. lia.
  - intros Hfull. unfold free_slots. fold f. rewrite (map_ext_in _ (fun _ => 0)).
    { clear. induction (seq 0 (seg_count st)) as [|? l IH]; [done|]. cbn [map foldr]. by rewrite IH. }
    intros i Hin%in_seq. assert (i < seg_count st)%nat as Hi by lia.
    pose proof (wf_count _ (st_segs _ Hwf i Hi)).
    apply (seg_full_iff _ (st_segs _ Hwf i Hi)). intros j Hj.
    set (x := base (seg_at st i) + Z.of_nat j).
    assert (seg_has (seg_at st i) x) as Hx by (unfold seg_has, x; lia).
    destruct (Hfull x) as (k & Hk & Hh & Hu); [by exists i|].
    assert (i = k) as <- by (by apply (st_disj st Hwf i k x)).
    by replace (Z.to_nat (x - base (seg_at st i))) with j in Hu by lia.
Qed.

(** ** Properties *)

(** single-slot allocation ([slot_alloc_fast], the path of [slot_alloc] and
    [slot_alloc_no_expand]): from a well-formed state it either returns a slot
    that a registered segment manages and that was free, marks exactly that slot
    and keeps the state well-formed, or returns [None], changes nothing, and then
    every managed slot is allocated. *)
Theorem slot_alloc_fast_spec (st : SlotAllocState) (Hwf : st_wf st)
    (Hinit : initialized st = true) :
  match slot_alloc_fast st with
  | (Some s, st') =>
      st_wf st' /\ managed st s /\ ~ allocated st s /\
      (forall x, managed st' x <-> managed st x) /\
      (forall x, allocated st' x <-> allocated st x \/ x = s)
  | (None, st') => st' = st /\ forall x, managed st x -> allocated st x
  end.
Proof.
  pose proof (sp_alloc_ok st (conj Hwf Hinit)) as H. simpl in H.
  destruct (slot_alloc_fast st) as [[s|] st']; [|done]. by destruct H as [[? _] ?].
Qed.

Definition demo_pool : SlotAllocState := slot_alloc_init 64 5000 0.

Lemma demo_pool_wf : st_wf demo_pool.
Proof. apply init_wf; lia. Qed.

Lemma slot_alloc_fast_spec_witness :
  initialized demo_pool = true /\ fst (slot_alloc_fast demo_pool) = Some 64 /\
  match slot_alloc_fast demo_pool with
  | (Some s, st') =>
      st_wf st' /\ managed demo_pool s /\ ~ allocated demo_pool s /\
      (forall x, managed st' x <-> managed demo_pool x) /\
      (forall x, allocated st' x <-> allocated demo_pool x \/ x = s)
  | (None, st') => st' = demo_pool /\ forall x, managed demo_pool x -> allocated demo_pool x
  end.
Proof.
  split; [reflexivity|]. split; [vm_compute; reflexivity|].
  apply (slot_alloc_fast_spec demo_pool demo_pool_wf). reflexivity.
Defined.

(** contiguous allocation ([slot_alloc_consecutive_fast], every bitmap word of
    every segment included): on success the [n] slots from the returned base are
    all managed, were all free, and are exactly the slots that become allocated;
    on failure nothing changes and no segment has [n] adjacent free slots. *)
Theorem slot_alloc_consecutive_fast_spec (st : SlotAllocState) (n : nat)
    (Hwf : st_wf st) (Hinit : initialized st = true) (Hn : (0 < n)%nat) :
  match slot_alloc_consecutive_fast st (Z.of_nat n) with
  | (Some s, st') =>
      st_wf st' /\
      (forall x, s <= x < s + Z.of_nat n -> managed st x /\ ~ allocated st x) /\
      (forall x, managed st' x <-> managed st x) /\
      (forall x, allocated st' x <-> allocated st x \/ s <= x < s + Z.of_nat n)
  | (None, st') => st' = st /\ no_run st n
  end.
Proof.
  unfold slot_alloc_consecutive_fast. rewrite Hinit. cbn [negb orb].
  destruct (Z.eqb_spec (Z.of_nat n) 0); [lia|].
  destruct (Nat.eq_dec (seg_count st) 0) as [E|E].
  - rewrite E. simpl. split; [done|]. intros i lo Hi. lia.
  - pose proof (scan_all_segments n _ st (alloc_contiguous_try_spec n Hn) Hwf ltac:(lia)) as H.
    destruct (scan_segments _ _ _) as [[s|] st']; [|done]. by destruct H.
Qed.

Lemma slot_alloc_consecutive_fast_spec_witness :
  fst (slot_alloc_consecutive_fast demo_pool 4000) = Some 64 /\
  match slot_alloc_consecutive_fast demo_pool (Z.of_nat 3) with
  | (Some s, st') =>
      st_wf st' /\
      (forall x, s <= x < s + Z.of_nat 3 -> managed demo_pool x /\ ~ allocated demo_pool x) /\
      (forall x, managed st' x <-> managed demo_pool x) /\
      (forall x, allocated st' x <-> allocated demo_pool x \/ s <= x < s + Z.of_nat 3)
  | (None, st') => st' = demo_pool /\ no_run demo_pool 3
  end.
Proof.
  split; [vm_compute; reflexivity|].
  apply (slot_alloc_consecutive_fast_spec demo_pool 3 demo_pool_wf); [reflexivity|lia].
Defined.

(** release ([slot_free]) succeeds exactly on allocated slots, then frees that
    slot and no other; a slot that is free, or that no segment manages, is refused
    and the state is unchanged (so a double free is harmless). *)
Theorem slot_free_spec (st : SlotAllocState) (slot : Cap)
    (Hwf : st_wf st) (Hinit : initialized st = true) :
  match slot_free st slot with
  | (true, st') =>
      st_wf st' /\ allocated st slot /\
      (forall x, managed st' x <-> managed st x) /\
      (forall x, allocated st' x <-> allocated st x /\ x <> slot)
  | (false, st') => st' = st /\ ~ allocated st slot
  end.
Proof.
  pose proof (sp_free_ok st slot (conj Hwf Hinit)) as H. simpl in H.
  destruct (slot_free st slot) as [[|] st']; [|done]. by destruct H as [[? _] ?].
Qed.

Lemma slot_free_spec_witness :
  fst (slot_free (snd (slot_alloc_fast demo_pool)) 64) = true /\
  fst (slot_free demo_pool 64) = false /\
  match slot_free demo_pool 64 with
  | (true, st') =>
      st_wf st' /\ allocated demo_pool 64 /\
      (forall x, managed st' x <-> managed demo_pool x) /\
      (forall x, allocated st' x <-> allocated demo_pool x /\ x <> 64)
  | (false, st') => st' = demo_pool /\ ~ allocated demo_pool 64
  end.
Proof.
  split; [vm_compute; reflexivity|]. split; [vm_compute; reflexivity|].
  apply (slot_free_spec demo_pool 64 demo_pool_wf). reflexivity.
Defined.

(** initialisation ([slot_alloc_init]) with a non-empty range of at most
    16 * 4096 slots yields a well-formed, initialised pool that manages exactly
    the range [[b, b+c)] with every slot free; a larger range is refused and
    leaves the allocator uninitialised. *)
Theorem slot_alloc_init_spec (b c ntfn : Z)
    (Hb : 0 <= b) (Hc : 0 < c) (Hbc : b + c < 2 ^ 64) :
  let st := slot_alloc_init b c ntfn in
  (c <= 65536 ->
     st_wf st /\ initialized st = true /\
     (forall x, managed st x <-> b <= x < b + c) /\ (forall x, ~ allocated st x)) /\
  (65536 < c -> initialized st = false /\ seg_count st = 0%nat).
Proof.
  intros st. split; intros Hsz; [|by apply init_too_large].
  split; [apply init_wf; lia|]. split; [apply init_initialized; lia|].
  split; [intros x; apply init_managed; lia|]. intros x (i & Hlt & _ & Hu).
  destruct (seg_at_init b c ntfn i) as [_ E]; [lia..|done|].
  unfold st in Hu. by rewrite E, fresh_is_used in Hu.
Qed.

Lemma slot_alloc_init_spec_witness :
  initialized (slot_alloc_init 64 70000 0) = false /\
  (5000 <= 65536 -> st_wf demo_pool /\ initialized demo_pool = true /\
     (forall x, managed demo_pool x <-> 64 <= x < 64 + 5000) /\
     (forall x, ~ allocated demo_pool x)).
Proof.
  split; [vm_compute; reflexivity|].
  apply (slot_alloc_init_spec 64 5000 0); lia.
Defined.

(** slots drawn by successive [slot_alloc] calls are pairwise distinct and none
    was in use before; proved against the [SlotPool] interface. *)
Theorem slot_alloc_distinct (st : SlotAllocState) (n : nat) (cs : list Cap)
    (st' : SlotAllocState) (Hwf : st_wf st) (Hinit : initialized st = true)
    (E : alloc_many n st = (cs, st')) :
  NoDup cs /\ (forall c, c ∈ cs -> managed st c /\ ~ allocated st c) /\ st_wf st' /\
  (forall x, allocated st' x <-> allocated st x \/ x ∈ cs).
Proof.
  destruct (alloc_many_fresh n st cs st') as ([? _] & ? & ? & ?); [by split|done|]. done.
Qed.

Lemma slot_alloc_distinct_witness :
  NoDup (fst (alloc_many 3 demo_pool)) /\ fst (alloc_many 3 demo_pool) = [64; 65; 66].
Proof.
  split; [|vm_compute; reflexivity].
  apply (slot_alloc_distinct demo_pool 3 (fst (alloc_many 3 demo_pool))
    (snd (alloc_many 3 demo_pool)) demo_pool_wf eq_refl).
  by destruct (alloc_many 3 demo_pool).
Defined.

(** [slot_alloc_remaining] is the number of free slots over all segments (its
    64-bit additions never wrap), and it is zero exactly when the allocation fast
    path fails. *)
Theorem slot_alloc_remaining_spec (st : SlotAllocState)
    (Hwf : st_wf st) (Hinit : initialized st = true) :
  slot_alloc_remaining st = free_slots st /\
  (slot_alloc_remaining st = 0 <-> fst (slot_alloc_fast st) = None).
Proof.
  rewrite slot_alloc_remaining_free by done. split; [done|].
  rewrite free_slots_zero by done.
  pose proof (slot_alloc_fast_correct st Hwf Hinit) as H.
  destruct (slot_alloc_fast st) as [[s|] st']; simpl; split; try done.
  - intros Hfull. exfalso. destruct (pt_free _ _ _ _ H s ltac:(lia)) as [Hm Hna]. auto.
  - by intros _; apply H.
Qed.

Lemma slot_alloc_remaining_spec_witness :
  slot_alloc_remaining demo_pool = 5000 /\
  (slot_alloc_remaining demo_pool = free_slots demo_pool /\
   (slot_alloc_remaining demo_pool = 0 <-> fst (slot_alloc_fast demo_pool) = None)).
Proof.
  split; [vm_compute; reflexivity|].
  apply (slot_alloc_remaining_spec demo_pool demo_pool_wf). reflexivity.
Defined.
