(* ===== verification/Kernel.v ===== *)
(** The boundary to the kernel: the register and IPC-buffer types of
    [src/uapi/types/core.rs] and the system call entry of
    [src/substrate/syscall.rs].  The kernel itself is not part of the
    repository; it is the parameter [Kernel], an arbitrary response function
    of the calls made so far, the present call and the caller's IPC buffer. *)

From S2P Require Import Prelude Consts.

Record TronaResult := mkResult { error : Z; value : Z }.

Record TronaMsg := mkMsg {
  label : Z;
  msg_length : Z;
  regs : list Z;      (* [u64; 32] *)
}.

Definition TronaMsg_zeroed : TronaMsg := mkMsg 0 0 (replicate 32 0).

Definition IPC_BUFFER_RESERVED_WORDS : nat := 465.

Record IpcBuffer := mkBuffer {
  msg : list Z;       (* [u64; 34] *)
  badge : Z;
  caps : list Z;      (* [u64; 4] *)
  receive_cnode : Z;
  receive_index : Z;
  receive_depth : Z;
  timeout_ns : Z;
  reserved : list Z;  (* [u64; IPC_BUFFER_RESERVED_WORDS] *)
}.

(** [ipc_buffer] is a pointer to the thread's buffer page; [None] is null. *)
Record IpcContext := mkCtx {
  ipc_buffer : option IpcBuffer;
  send_cap_count : Z;   (* i32 *)
}.

Definition IpcContext_new : IpcContext := mkCtx None 0.

Record Syscall := mkCall {
  num : Z; a0 : Z; a1 : Z; a2 : Z; a3 : Z; a4 : Z; a5 : Z
}.

(** The kernel: its answer, and what it does to the caller's buffer page. *)
Class Kernel := {
  k_result : list Syscall -> Syscall -> option IpcBuffer -> TronaResult;
  k_buffer : list Syscall -> Syscall -> IpcBuffer -> IpcBuffer;
}.

(** What a thread can observe: the calls issued so far (oldest first) and the
    IPC context its library functions work on ([None]: a null [ctx]). *)
Record World := mkWorld {
  trace : list Syscall;
  ctx : option IpcContext;
}.

Definition buffer_of (c : option IpcContext) : option IpcBuffer := c ≫= ipc_buffer.

Definition map_buffer (f : IpcBuffer -> IpcBuffer) (c : option IpcContext) : option IpcContext :=
  (fun x => mkCtx (f <$> ipc_buffer x) (send_cap_count x)) <$> c.

Section syscall.
Context `{Kernel}.

Definition syscall (w : World) (n x0 x1 x2 x3 x4 x5 : Z) : TronaResult * World :=
  let c := mkCall n x0 x1 x2 x3 x4 x5 in
  (k_result (trace w) c (buffer_of (ctx w)),
   mkWorld (trace w ++ [c]) (map_buffer (k_buffer (trace w) c) (ctx w))).

Definition sys_getrandom (w : World) : option Z * World :=
  let '(r, w) := syscall w SYS_GETRANDOM 0 0 0 0 0 0 in
  ((if error r =? 0 then Some (value r) else None), w).
End syscall.

(** Field updates of the buffer. *)
Definition set_msg (b : IpcBuffer) (m : list Z) : IpcBuffer :=
  mkBuffer m (badge b) (caps b) (receive_cnode b) (receive_index b) (receive_depth b)
    (timeout_ns b) (reserved b).
Definition set_caps (b : IpcBuffer) (c : list Z) : IpcBuffer :=
  mkBuffer (msg b) (badge b) c (receive_cnode b) (receive_index b) (receive_depth b)
    (timeout_ns b) (reserved b).
Definition set_receive (b : IpcBuffer) (cn ix d : Z) : IpcBuffer :=
  mkBuffer (msg b) (badge b) (caps b) cn ix d (timeout_ns b) (reserved b).
Definition set_timeout (b : IpcBuffer) (t : Z) : IpcBuffer :=
  mkBuffer (msg b) (badge b) (caps b) (receive_cnode b) (receive_index b) (receive_depth b)
    t (reserved b).
Definition set_reserved (b : IpcBuffer) (r : list Z) : IpcBuffer :=
  mkBuffer (msg b) (badge b) (caps b) (receive_cnode b) (receive_index b) (receive_depth b)
    (timeout_ns b) r.

(** [*(buf as *const TronaMsg)]: a [TronaMsg] is the first 34 words of the page. *)
Definition buffer_as_msg (b : IpcBuffer) : TronaMsg :=
  mkMsg (default 0 (msg b !! 0%nat)) (default 0 (msg b !! 1%nat)) (drop 2 (msg b)).

Record buffer_wf (b : IpcBuffer) : Prop := {
  bw_msg : length (msg b) = 34%nat;
  bw_caps : length (caps b) = 4%nat;
  bw_reserved : length (reserved b) = IPC_BUFFER_RESERVED_WORDS;
}.
