(* ===== verification/Invoke.v ===== *)
(** Capability invocation wrappers, [src/substrate/invoke.rs]: the raw and the
    depth-aware CNode operations and the wrappers the loaders use.  The
    operations whose depth depends on the slot allocator's state take it as
    the argument [st]. *)

From S2P Require Import Prelude Consts Kernel SlotAlloc.

Section invoke.
Context `{Kernel}.

Definition invoke (w : World) (cap : Cap) (lbl x0 x1 x2 x3 : Z) : TronaResult * World :=
  syscall w SYS_INVOKE cap lbl x0 x1 x2 x3.

Definition invoke_err (w : World) (cap : Cap) (lbl x0 x1 x2 x3 : Z) : Z * World :=
  let '(r, w) := invoke w cap lbl x0 x1 x2 x3 in (as_i32 (error r), w).

Definition write_invoke_depth (w : World) (d0 d1 : Z) : World :=
  snd (syscall w SYS_SET_INVOKE_DEPTHS d0 d1 0 0 0 0).

Definition untyped_retype (w : World) (untyped : Cap) (new_type size_bits dest_slot : Z) :=
  invoke_err w untyped UNTYPED_RETYPE new_type size_bits dest_slot 0.

Definition vspace_map (w : World) (vspace frame : Cap) (vaddr flags : Z) :=
  invoke_err w vspace VSPACE_MAP frame vaddr flags 0.

Definition vspace_unmap (w : World) (vspace : Cap) (vaddr : Z) :=
  invoke_err w vspace VSPACE_UNMAP vaddr 0 0 0.

Definition cnode_get_info (w : World) (cnode : Cap) := invoke w cnode CNODE_GET_INFO 0 0 0 0.

Definition cnode_copy_depth (w : World) (src_cnode src_slot dest_cnode dest_slot rights
    src_depth dest_depth : Z) : Z * World :=
  let w := write_invoke_depth w src_depth dest_depth in
  invoke_err w src_cnode CNODE_COPY src_slot dest_cnode dest_slot rights.

Definition cnode_delete_depth (w : World) (cnode slot depth : Z) : Z * World :=
  let w := write_invoke_depth w depth 0 in
  invoke_err w cnode CNODE_DELETE slot 0 0 0.

Definition cnode_revoke_depth (w : World) (cnode slot depth : Z) : Z * World :=
  let w := write_invoke_depth w depth 0 in
  invoke_err w cnode CNODE_REVOKE slot 0 0 0.

(** ** Operations whose depth comes from the allocator *)

Definition cspace_slot_depth (st : SlotAllocState) (slot : Z) : Z := slot_invoke_depth st slot.

Definition cnode_copy (st : SlotAllocState) (w : World)
    (src_cnode src_slot dest_cnode dest_slot rights : Z) : Z * World :=
  let src_depth := cspace_slot_depth st src_slot in
  let dest_depth := cspace_slot_depth st dest_slot in
  if (src_depth =? 0) && (dest_depth =? 0) then
    invoke_err w src_cnode CNODE_COPY src_slot dest_cnode dest_slot rights
  else cnode_copy_depth w src_cnode src_slot dest_cnode dest_slot rights src_depth dest_depth.

Definition cnode_mint (st : SlotAllocState) (w : World)
    (src_cnode src_slot dest_cnode dest_slot bdg : Z) : Z * World :=
  let src_depth := cspace_slot_depth st src_slot in
  let dest_depth := cspace_slot_depth st dest_slot in
  if (src_depth =? 0) && (dest_depth =? 0) then
    invoke_err w src_cnode CNODE_MINT src_slot dest_cnode dest_slot bdg
  else
    let w := write_invoke_depth w src_depth dest_depth in
    invoke_err w src_cnode CNODE_MINT src_slot dest_cnode dest_slot bdg.

Definition cnode_move (st : SlotAllocState) (w : World)
    (dest_cnode dest_slot src_cnode src_slot : Z) : Z * World :=
  let dest_depth := cspace_slot_depth st dest_slot in
  let src_depth := cspace_slot_depth st src_slot in
  if (dest_depth =? 0) && (src_depth =? 0) then
    invoke_err w dest_cnode CNODE_MOVE dest_slot src_cnode src_slot 0
  else
    let w := write_invoke_depth w dest_depth src_depth in
    invoke_err w dest_cnode CNODE_MOVE dest_slot src_cnode src_slot 0.

Definition cnode_mutate (st : SlotAllocState) (w : World)
    (dest_cnode dest_slot src_cnode src_slot bdg : Z) : Z * World :=
  let dest_depth := cspace_slot_depth st dest_slot in
  let src_depth := cspace_slot_depth st src_slot in
  if (dest_depth =? 0) && (src_depth =? 0) then
    invoke_err w dest_cnode CNODE_MUTATE dest_slot src_cnode src_slot bdg
  else
    let w := write_invoke_depth w dest_depth src_depth in
    invoke_err w dest_cnode CNODE_MUTATE dest_slot src_cnode src_slot bdg.

Definition cnode_save_caller (st : SlotAllocState) (w : World) (cnode slot : Z) : Z * World :=
  let depth := cspace_slot_depth st slot in
  if depth =? 0 then invoke_err w cnode CNODE_SAVE_CALLER slot 0 0 0
  else let w := write_invoke_depth w depth 0 in
       invoke_err w cnode CNODE_SAVE_CALLER slot 0 0 0.

Definition cnode_delete (st : SlotAllocState) (w : World) (cnode slot : Z) : Z * World :=
  let depth := cspace_slot_depth st slot in
  if depth =? 0 then invoke_err w cnode CNODE_DELETE slot 0 0 0
  else cnode_delete_depth w cnode slot depth.

Definition cnode_revoke (st : SlotAllocState) (w : World) (cnode slot : Z) : Z * World :=
  let depth := cspace_slot_depth st slot in
  if depth =? 0 then invoke_err w cnode CNODE_REVOKE slot 0 0 0
  else cnode_revoke_depth w cnode slot depth.

(** ** The calls the kernel sees *)

Definition depth_call (d0 d1 : Z) : Syscall := mkCall SYS_SET_INVOKE_DEPTHS d0 d1 0 0 0 0.
Definition invoke_call (cap lbl x0 x1 x2 x3 : Z) : Syscall :=
  mkCall SYS_INVOKE cap lbl x0 x1 x2 x3.

Lemma invoke_err_trace w cap lbl x0 x1 x2 x3 :
  trace (snd (invoke_err w cap lbl x0 x1 x2 x3)) = trace w ++ [invoke_call cap lbl x0 x1 x2 x3].
Proof. done. Qed.

Lemma depth_trace w d0 d1 : trace (write_invoke_depth w d0 d1) = trace w ++ [depth_call d0 d1].
Proof. done. Qed.

(** The calls of a two-slot operation: one invocation for two flat slots, and
    otherwise a depth announcement first, in the order of the slot arguments. *)
Definition two_slot_calls (st : SlotAllocState) (s1 s2 : Cap) (c : Syscall) : list Syscall :=
  if (slot_invoke_depth st s1 =? 0) && (slot_invoke_depth st s2 =? 0) then [c]
  else [depth_call (slot_invoke_depth st s1) (slot_invoke_depth st s2); c].

Definition one_slot_calls (st : SlotAllocState) (s : Cap) (c : Syscall) : list Syscall :=
  if slot_invoke_depth st s =? 0 then [c] else [depth_call (slot_invoke_depth st s) 0; c].
End invoke.

Ltac trace_calls :=
  unfold two_slot_calls, one_slot_calls, cspace_slot_depth; repeat case_if;
  rewrite ?invoke_err_trace, ?depth_trace, <- ?app_assoc; reflexivity.

(** Every CNode operation announces the slot depths to the kernel exactly when
    one of its slots lies in an expanded sub-CNode, in the order in which the
    operation passes the slots, and immediately before its one invocation. *)
Theorem cnode_ops_announce_depth {K : Kernel} (st : SlotAllocState) (w : World)
    (c1 s1 c2 s2 x : Z) :
  trace (snd (cnode_copy st w c1 s1 c2 s2 x)) =
    trace w ++ two_slot_calls st s1 s2 (invoke_call c1 CNODE_COPY s1 c2 s2 x) /\
  trace (snd (cnode_mint st w c1 s1 c2 s2 x)) =
    trace w ++ two_slot_calls st s1 s2 (invoke_call c1 CNODE_MINT s1 c2 s2 x) /\
  trace (snd (cnode_move st w c1 s1 c2 s2)) =
    trace w ++ two_slot_calls st s1 s2 (invoke_call c1 CNODE_MOVE s1 c2 s2 0) /\
  trace (snd (cnode_mutate st w c1 s1 c2 s2 x)) =
    trace w ++ two_slot_calls st s1 s2 (invoke_call c1 CNODE_MUTATE s1 c2 s2 x) /\
  trace (snd (cnode_save_caller st w c1 s1)) =
    trace w ++ one_slot_calls st s1 (invoke_call c1 CNODE_SAVE_CALLER s1 0 0 0) /\
  trace (snd (cnode_delete st w c1 s1)) =
    trace w ++ one_slot_calls st s1 (invoke_call c1 CNODE_DELETE s1 0 0 0) /\
  trace (snd (cnode_revoke st w c1 s1)) =
    trace w ++ one_slot_calls st s1 (invoke_call c1 CNODE_REVOKE s1 0 0 0).
Proof.
  unfold cnode_copy, cnode_mint, cnode_move, cnode_mutate, cnode_save_caller, cnode_delete,
    cnode_revoke, cnode_copy_depth, cnode_delete_depth, cnode_revoke_depth.
  repeat split; trace_calls.
Qed.
