(* ===== verification/SlotExpand.v ===== *)
(** The CSpace expansion protocol of [src/substrate/slot_alloc.rs]: when every
    segment is full the allocator signals the process manager and probes a
    deterministic root slot until a sub-CNode appears there.  The state
    machine is [expand_state]; the kernel's answers come from [Kernel]. *)

From S2P Require Import Prelude Consts Kernel SlotAlloc SlotPool Invoke.

Section expand.
Context `{Kernel}.

Definition signal (w : World) (ntfn : Cap) : World := snd (syscall w SYS_SIGNAL ntfn 0 0 0 0 0).
Definition yield_ (w : World) : World := snd (syscall w SYS_YIELD 0 0 0 0 0 0).

Definition set_root_bits (st : SlotAllocState) (b : Z) : SlotAllocState :=
  mkState (segments st) (seg_count st) (active_seg st) (initialized st) (cspace_ntfn st)
    (expand_state st) b (expanded_depth st) (cspace_expand_count st).

Definition set_expanded_depth (st : SlotAllocState) (d : Z) : SlotAllocState :=
  mkState (segments st) (seg_count st) (active_seg st) (initialized st) (cspace_ntfn st)
    (expand_state st) (root_bits st) d (cspace_expand_count st).

(** [ensure_root_bits] (and the first half of [update_expansion_depth]). *)
Definition ensure_root_bits (st : SlotAllocState) (w : World) : SlotAllocState * World :=
  if root_bits st =? 0 then
    let '(info, w) := cnode_get_info w CAP_SELF_CSPACE in
    if error info =? 0 then
      match buffer_of (ctx w) with
      | Some b => (set_root_bits st (as_u8 (default 0 (msg b !! 2%nat))), w)
      | None => (st, w)
      end
    else (st, w)
  else (st, w).

Definition update_expansion_depth (st : SlotAllocState) (w : World) : SlotAllocState * World :=
  let '(st, w) := ensure_root_bits st w in
  (if 0 <? root_bits st
   then set_expanded_depth st (as_u8 (root_bits st + SLOT_EXPAND_BITS_DEFAULT)) else st, w).

(** Appending a fresh segment and making it the active one. *)
Definition push_segment (st : SlotAllocState) (b c : Z) : SlotAllocState :=
  mkState (<[seg_count st := fresh_segment b c]> (segments st)) (S (seg_count st))
    (seg_count st) (initialized st) (cspace_ntfn st) Idle (root_bits st)
    (expanded_depth st) (cspace_expand_count st).

Definition register_new_segment (st : SlotAllocState) (w : World) (b c : Z)
    : bool * SlotAllocState * World :=
  if (MAX_SEGMENTS <=? seg_count st)%nat then (false, set_expand st Failed, w)
  else if Z.of_nat MAX_SEGMENT_SLOTS <? c then (false, set_expand st Failed, w)
  else let '(st, w) := update_expansion_depth (push_segment st b c) w in (true, st, w).

Definition probe_addr_of (st : SlotAllocState) : Z :=
  ((CSPACE_EXPAND_BASE + cspace_expand_count st)%u64 << SLOT_EXPAND_BITS_DEFAULT)%u64.

Definition bump_expand_count (st : SlotAllocState) : SlotAllocState :=
  mkState (segments st) (seg_count st) (active_seg st) (initialized st) (cspace_ntfn st)
    (expand_state st) (root_bits st) (expanded_depth st) (cspace_expand_count st + 1)%u64.

Definition poll_requested_expand_locked (st : SlotAllocState) (w : World) (ntfn : Cap)
    : ExpandProgress * SlotAllocState * World :=
  let depth := as_u8 (root_bits st + SLOT_EXPAND_BITS_DEFAULT) in
  let probe_addr := probe_addr_of st in
  let '(err, w) := cnode_copy_depth w CAP_SELF_CSPACE CAP_SELF_TCB CAP_SELF_CSPACE
                     probe_addr CAP_RIGHTS_ALL 0 depth in
  if negb (err =? 0) then
    (PPending, st, if negb (ntfn =? 0) then signal w ntfn else w)
  else
    let '(_, w) := cnode_delete_depth w CAP_SELF_CSPACE probe_addr depth in
    let cnt := (1 << SLOT_EXPAND_BITS_DEFAULT)%u64 in
    if (MAX_SEGMENTS <=? seg_count st)%nat then (PFailed, set_expand st Failed, w)
    else
      let st := bump_expand_count (push_segment st probe_addr cnt) in
      (PCompleted, if 0 <? root_bits st then set_expanded_depth st depth else st, w).

Definition slot_alloc_async_inner (st : SlotAllocState) (w : World)
    : SlotResult * SlotAllocState * World :=
  if negb (initialized st) then (Exhausted, st, w)
  else
    match alloc_single_locked st with
    | (Some slot, st) => (Ok slot, st, w)
    | (None, st) =>
        let ntfn := cspace_ntfn st in
        match expand_state st with
        | Idle =>
            if (ntfn =? 0) || (MAX_CSPACE_EXPANSIONS <=? cspace_expand_count st)
            then (Exhausted, st, w)
            else
              let '(st, w) := ensure_root_bits st w in
              let w := signal w ntfn in
              (WouldBlock, set_expand st Requested, w)
        | Requested =>
            match poll_requested_expand_locked st w ntfn with
            | (PCompleted, st, w) =>
                match alloc_single_locked st with
                | (Some slot, st) => (Ok slot, st, w)
                | (None, st) => (Exhausted, st, w)
                end
            | (PPending, st, w) => (WouldBlock, st, w)
            | (PFailed, st, w) => (Exhausted, st, w)
            end
        | Failed => (Exhausted, st, w)
        end
    end.

(** One turn of the loop of [drive_cspace_expand_blocking], under the lock;
    [inr b] is the early [return b] (the lock is released on every path). *)
Definition drive_turn (st : SlotAllocState) (w : World)
    : (ExpandProgress + bool) * SlotAllocState * World :=
  if negb (initialized st) then (inl PFailed, st, w)
  else
    let ntfn := cspace_ntfn st in
    if negb (ntfn =? 0) && (cspace_expand_count st <? MAX_CSPACE_EXPANSIONS) then
      let '(st, w) := ensure_root_bits st w in
      match expand_state st with
      | Idle => (inl PPending, set_expand st Requested, signal w ntfn)
      | Requested =>
          let '(p, st, w) := poll_requested_expand_locked st w ntfn in (inl p, st, w)
      | Failed => (inl PFailed, st, w)
      end
    else (inr false, st, w).

(** The loop; [None] when [fuel] turns were not enough. *)
Fixpoint drive_cspace_expand_blocking (fuel : nat) (st : SlotAllocState) (w : World)
    : option bool * SlotAllocState * World :=
  match fuel with
  | O => (None, st, w)
  | S f =>
      match drive_turn st w with
      | (inr b, st, w) => (Some b, st, w)
      | (inl PCompleted, st, w) => (Some true, st, w)
      | (inl PPending, st, w) => drive_cspace_expand_blocking f st (yield_ w)
      | (inl PFailed, st, w) => (Some false, st, w)
      end
  end.

(** [slot_alloc]: at most [MAX_SEGMENTS + 2] rounds of fast path and expansion.
    The outer [None] means the blocking driver ran out of fuel. *)
Fixpoint slot_alloc_rounds (rounds fuel : nat) (st : SlotAllocState) (w : World)
    : option (option Cap) * SlotAllocState * World :=
  match rounds with
  | O => (Some None, st, w)
  | S n =>
      match slot_alloc_fast st with
      | (Some cap, st) => (Some (Some cap), st, w)
      | (None, st) =>
          match drive_cspace_expand_blocking fuel st w with
          | (None, st, w) => (None, st, w)
          | (Some false, st, w) => (Some None, st, w)
          | (Some true, st, w) => slot_alloc_rounds n fuel st w
          end
      end
  end.

Definition slot_alloc (fuel : nat) (st : SlotAllocState) (w : World) :=
  if negb (initialized st) then (Some None, st, w)
  else slot_alloc_rounds (MAX_SEGMENTS + 2) fuel st w.

Fixpoint slot_alloc_consecutive_rounds (rounds fuel : nat) (cnt : Z) (st : SlotAllocState)
    (w : World) : option (option Cap) * SlotAllocState * World :=
  match rounds with
  | O => (Some None, st, w)
  | S n =>
      match slot_alloc_consecutive_fast st cnt with
      | (Some cap, st) => (Some (Some cap), st, w)
      | (None, st) =>
          match drive_cspace_expand_blocking fuel st w with
          | (None, st, w) => (None, st, w)
          | (Some false, st, w) => (Some None, st, w)
          | (Some true, st, w) => slot_alloc_consecutive_rounds n fuel cnt st w
          end
      end
  end.

Definition slot_alloc_consecutive (fuel : nat) (cnt : Z) (st : SlotAllocState) (w : World) :=
  if negb (initialized st) || (cnt =? 0) then (Some None, st, w)
  else slot_alloc_consecutive_rounds (MAX_SEGMENTS + 2) fuel cnt st w.
End expand.

(** ** Invariant of the allocator with expansion

    The first segments come from the initial range, which lies below the
    expansion window; segment [n0 + k] is the [k]-th probed sub-CNode. *)

Definition EXPAND_FLOOR : Z := CSPACE_EXPAND_BASE * 1024.

Record pool_inv (st : SlotAllocState) : Prop := {
  pi_wf : st_wf st;
  pi_count : 0 <= cspace_expand_count st <= MAX_CSPACE_EXPANSIONS;
  pi_requested : expand_state st = Requested -> cspace_expand_count st < MAX_CSPACE_EXPANSIONS;
  pi_ranges : exists n0, seg_count st = (n0 + Z.to_nat (cspace_expand_count st))%nat /\
    (forall i, (i < n0)%nat -> base (seg_at st i) + count (seg_at st i) <= EXPAND_FLOOR) /\
    (forall k, (k < Z.to_nat (cspace_expand_count st))%nat ->
       base (seg_at st (n0 + k)) = (CSPACE_EXPAND_BASE + Z.of_nat k) * 1024 /\
       count (seg_at st (n0 + k)) = 1024);
}.

(** [st'] has the same segment ranges and the same protocol state as [st]. *)
Record same_shape (st st' : SlotAllocState) : Prop := {
  sh_count : seg_count st' = seg_count st;
  sh_exp : cspace_expand_count st' = cspace_expand_count st;
  sh_state : expand_state st' = expand_state st;
  sh_init : initialized st' = initialized st;
  sh_ntfn : cspace_ntfn st' = cspace_ntfn st;
  sh_seg : forall i, base (seg_at st' i) = base (seg_at st i) /\
                     count (seg_at st' i) = count (seg_at st i);
}.

Lemma same_shape_refl st : same_shape st st.
Proof. by split. Qed.

Lemma pool_inv_shape st st' : pool_inv st -> same_shape st st' -> st_wf st' -> pool_inv st'.
Proof.
  intros [Hw Hc Hr (n0 & Hn & Hlo & Hhi)] [E1 E2 E3 E4 E5 E6] Hw'. split.
  - done.
  - by rewrite E2.
  - by rewrite E2, E3.
  - exists n0. rewrite E1, E2. split; [done|]. split.
    + intros i Hi. destruct (E6 i) as [-> ->]. by apply Hlo.
    + intros k Hk. destruct (E6 (n0 + k)%nat) as [-> ->]. by apply Hhi.
Qed.

Lemma set_segment_shape st i g :
  base g = base (seg_at st i) -> count g = count (seg_at st i) -> same_shape st (set_segment st i g).
Proof.
  intros Hb Hc. split; try done. intros j.
  destruct (decide (i < length (segments st))%nat) as [Hi|Hi].
  - rewrite seg_at_set by done. case_decide; subst; done.
  - unfold seg_at. simpl. by rewrite list_insert_ge by lia.
Qed.

Lemma set_active_shape st st' i : same_shape st st' -> same_shape st (set_active st' i).
Proof. intros []. by split. Qed.

Lemma mark_all_used_range l : forall g,
  base (mark_all_used g l) = base g /\ count (mark_all_used g l) = count g.
Proof.
  induction l as [|i l IH]; intros g; [done|]. unfold mark_all_used in *. cbn [fold_left].
  destruct (IH (segment_mark_used g i)) as [-> ->]. done.
Qed.

Lemma alloc_single_range g c g' :
  segment_alloc_single g = (c, g') -> base g' = base g /\ count g' = count g.
Proof.
  unfold segment_alloc_single. case_if; [by intros [= <- <-]|].
  destruct (scan_free _ _); [by intros [= <- <-]|].
  destruct (scan_free _ _); by intros [= <- <-].
Qed.

Lemma alloc_contiguous_range g n c g' :
  segment_alloc_contiguous g n = (c, g') -> base g' = base g /\ count g' = count g.
Proof.
  unfold segment_alloc_contiguous. case_if; [by intros [= <- <-]|].
  case_if; [apply alloc_single_range|].
  destruct (scan_run _ _ _ _ _); intros [= <- <-]; [apply mark_all_used_range|done].
Qed.

Lemma scan_segments_shape try st offs :
  (forall g c g', try g = (c, g') -> base g' = base g /\ count g' = count g) ->
  same_shape st (snd (scan_segments try st offs)).
Proof.
  intros Ht. induction offs as [|o offs IH]; simpl; [apply same_shape_refl|].
  destruct (try _) as [[c|] g'] eqn:E; [|exact IH]. apply Ht in E as [??].
  by apply set_active_shape, set_segment_shape.
Qed.

Lemma alloc_single_locked_shape st : same_shape st (snd (alloc_single_locked st)).
Proof.
  unfold alloc_single_locked. case_if; [apply same_shape_refl|].
  apply scan_segments_shape. apply alloc_single_range.
Qed.

Lemma segment_free_range g i b g' :
  segment_free g i = (b, g') -> base g' = base g /\ count g' = count g.
Proof. unfold segment_free. repeat case_if; by intros [= <- <-]. Qed.

Lemma slot_free_shape st slot : same_shape st (snd (slot_free st slot)).
Proof.
  unfold slot_free. case_if; [apply same_shape_refl|].
  induction (seq 0 (seg_count st)) as [|i l IH]; simpl; [apply same_shape_refl|].
  destruct (segment_slot_index _ _); [|exact IH].
  destruct (segment_free _ _) as [[|] g'] eqn:E; [|apply same_shape_refl].
  apply segment_free_range in E as [??].
  case_if; [apply set_active_shape|]; by apply set_segment_shape.
Qed.

(** ** Single-threaded operations keep the invariant *)

Lemma slot_alloc_fast_inv st : pool_inv st -> pool_inv (snd (slot_alloc_fast st)).
Proof.
  intros Hi. unfold slot_alloc_fast. destruct (initialized st) eqn:E; simpl; [|done].
  eapply pool_inv_shape; [done|apply alloc_single_locked_shape|].
  pose proof (slot_alloc_fast_correct st (pi_wf _ Hi) E) as H. unfold slot_alloc_fast in H.
  rewrite E in H. simpl in H. destruct (alloc_single_locked st) as [[s|] st']; [apply H|].
  destruct H as [-> _]. apply Hi.
Qed.

Lemma slot_free_inv st slot : pool_inv st -> pool_inv (snd (slot_free st slot)).
Proof.
  intros Hi. eapply pool_inv_shape; [done|apply slot_free_shape|].
  pose proof (slot_free_correct st slot (pi_wf _ Hi)) as H.
  destruct (slot_free st slot) as [[|] st']; [apply H|]. destruct H as [-> _]. apply Hi.
Qed.

Lemma slot_alloc_consecutive_fast_inv st cnt :
  0 <= cnt -> pool_inv st -> pool_inv (snd (slot_alloc_consecutive_fast st cnt)).
Proof.
  intros Hcnt Hi. unfold slot_alloc_consecutive_fast.
  destruct (negb (initialized st) || (cnt =? 0)) eqn:Eb; [done|]. apply orb_false_iff in Eb as [_ Eb].
  bprop. eapply pool_inv_shape; [done|apply scan_segments_shape; intros; by eapply alloc_contiguous_range|].
  destruct (Nat.eq_dec (seg_count st) 0) as [E|E]; [rewrite E; apply Hi|].
  rewrite <- (Z2Nat.id cnt) by lia.
  pose proof (scan_all_segments (Z.to_nat cnt) _ st
    (alloc_contiguous_try_spec (Z.to_nat cnt) ltac:(lia)) (pi_wf _ Hi) ltac:(lia)) as Hs.
  destruct (scan_segments _ _ _) as [[s|] st']; [apply Hs|]. destruct Hs as [-> _]. apply Hi.
Qed.

Lemma set_requested_inv st :
  pool_inv st -> cspace_expand_count st < MAX_CSPACE_EXPANSIONS -> pool_inv (set_expand st Requested).
Proof. intros [[] ? ? ?] Hlt. by split. Qed.

Lemma set_failed_inv st : pool_inv st -> pool_inv (set_expand st Failed).
Proof. intros [[] ? ? ?]. by split. Qed.

Lemma set_root_bits_inv st b : pool_inv st -> pool_inv (set_root_bits st b).
Proof. intros [[] ? ? ?]. by split. Qed.

Lemma set_expanded_depth_inv st d : pool_inv st -> pool_inv (set_expanded_depth st d).
Proof. intros [[] ? ? ?]. by split. Qed.

#[export] Hint Resolve set_failed_inv set_root_bits_inv set_expanded_depth_inv : trona.

(** ** Registering a probed sub-CNode *)

Lemma probe_addr_value st :
  0 <= cspace_expand_count st <= MAX_CSPACE_EXPANSIONS ->
  probe_addr_of st = (CSPACE_EXPAND_BASE + cspace_expand_count st) * 1024.
Proof.
  intros Hc. unfold probe_addr_of, MAX_CSPACE_EXPANSIONS, CSPACE_EXPAND_BASE in *.
  rewrite Z.shiftl_mul_pow2 by (unfold SLOT_EXPAND_BITS_DEFAULT; lia).
  change (2 ^ SLOT_EXPAND_BITS_DEFAULT) with 1024.
  rewrite !wrap_small; rewrite ?wrap_small; lia.
Qed.

Definition expanded (st : SlotAllocState) : SlotAllocState :=
  bump_expand_count (push_segment st (probe_addr_of st) (1 << SLOT_EXPAND_BITS_DEFAULT)%u64).

Lemma seg_at_expanded st i :
  length (segments st) = MAX_SEGMENTS -> (seg_count st < MAX_SEGMENTS)%nat ->
  seg_at (expanded st) i =
    if decide (seg_count st = i) then fresh_segment (probe_addr_of st) 1024 else seg_at st i.
Proof.
  intros Hl Hc. unfold seg_at, expanded. cbn [segments bump_expand_count push_segment].
  change (1 << SLOT_EXPAND_BITS_DEFAULT)%u64 with 1024.
  destruct (decide (seg_count st = i)) as [<-|].
  - rewrite list_lookup_insert_eq by lia. done.
  - by rewrite list_lookup_insert_ne.
Qed.

(** The new segment is disjoint from every registered one. *)
Lemma expanded_disjoint st i x :
  pool_inv st -> (i < seg_count st)%nat -> seg_has (seg_at st i) x ->
  ~ probe_addr_of st <= x < probe_addr_of st + 1024.
Proof.
  intros [Hw Hc Hr (n0 & Hn & Hlo & Hhi)] Hi Hh. rewrite probe_addr_value by done.
  unfold seg_has in Hh. destruct (le_lt_dec n0 i) as [Hge|Hlt].
  - replace i with (n0 + (i - n0))%nat in Hh by lia.
    destruct (Hhi (i - n0)%nat ltac:(lia)) as [Hb Hcc]. rewrite Hb, Hcc in Hh.
    unfold CSPACE_EXPAND_BASE in *. lia.
  - specialize (Hlo i Hlt). unfold EXPAND_FLOOR in Hlo. lia.
Qed.

Lemma expanded_wf st :
  pool_inv st -> (seg_count st < MAX_SEGMENTS)%nat -> st_wf (expanded st).
Proof.
  intros Hi Hs. pose proof (pi_wf _ Hi) as Hw. pose proof (pi_count _ Hi) as Hc.
  assert (forall i, seg_at (expanded st) i =
    if decide (seg_count st = i) then fresh_segment (probe_addr_of st) 1024 else seg_at st i) as E.
  { intros i. apply seg_at_expanded; [apply Hw|done]. }
  pose proof (probe_addr_value st Hc) as Ep.
  split.
  - cbn. rewrite length_insert. apply Hw.
  - cbn. lia.
  - intros i Hlt. cbn in Hlt. rewrite E. case_decide; [|apply Hw; lia].
    unfold MAX_CSPACE_EXPANSIONS, CSPACE_EXPAND_BASE in *.
    apply fresh_segment_wf; unfold MAX_SEGMENT_SLOTS; lia.
  - intros i j x Hi1 Hj1. cbn in Hi1, Hj1. rewrite !E.
    repeat case_decide; subst; try done; intros H1 H2.
    + exfalso. eapply (expanded_disjoint st j x); [done|lia|done|exact H1].
    + exfalso. eapply (expanded_disjoint st i x); [done|lia|done|exact H2].
    + apply (st_disj st Hw i j x); [lia|lia|done|done].
Qed.

Lemma expanded_inv st :
  pool_inv st -> expand_state st = Requested -> (seg_count st < MAX_SEGMENTS)%nat ->
  pool_inv (expanded st) /\
  (forall x, managed (expanded st) x <->
     managed st x \/ probe_addr_of st <= x < probe_addr_of st + 1024) /\
  (forall x, allocated (expanded st) x <-> allocated st x).
Proof.
  intros Hi Hreq Hs. pose proof (pi_wf _ Hi) as Hw. pose proof (pi_count _ Hi) as Hc.
  pose proof (pi_requested _ Hi Hreq) as Hlt.
  assert (forall i, seg_at (expanded st) i =
    if decide (seg_count st = i) then fresh_segment (probe_addr_of st) 1024 else seg_at st i) as E.
  { intros i. apply seg_at_expanded; [apply Hw|done]. }
  assert (cspace_expand_count (expanded st) = cspace_expand_count st + 1) as Ec.
  { cbn. apply wrap_small. unfold MAX_CSPACE_EXPANSIONS in *. lia. }
  assert (seg_count (expanded st) = S (seg_count st)) as Es by done.
  split; [|split].
  - split.
    + by apply expanded_wf.
    + rewrite Ec. lia.
    + done.
    + destruct (pi_ranges _ Hi) as (n0 & Hn & Hlo & Hhi). exists n0. rewrite Es, Ec. split; [lia|].
      split.
      * intros i Hi0. rewrite E, decide_False by lia. by apply Hlo.
      * intros k Hk. rewrite E. case_decide as Hd; [|apply Hhi; lia].
        cbn [base count fresh_segment]. split; [|done]. rewrite probe_addr_value by done.
        f_equal. lia.
  - intros x. unfold managed. setoid_rewrite E. rewrite Es. split.
    + intros (i & Hi0 & Hh). case_decide; [by right|left; exists i; split; [lia|done]].
    + intros [(i & Hi0 & Hh)|Hx].
      * exists i. rewrite decide_False by lia. split; [lia|done].
      * exists (seg_count st). rewrite decide_True by done. split; [lia|]. done.
  - intros x. unfold allocated, seg_allocated. setoid_rewrite E. rewrite Es. split.
    + intros (i & Hi0 & Hh & Hu). case_decide; [by rewrite fresh_is_used in Hu|].
      exists i. split; [lia|done].
    + intros (i & Hi0 & Hh). exists i. rewrite decide_False by lia. split; [lia|done].
Qed.

(** ** The protocol steps *)

Section protocol.
Context {K : Kernel}.

Lemma ensure_root_bits_cases st w :
  exists b, fst (ensure_root_bits st w) = set_root_bits st b.
Proof.
  unfold ensure_root_bits. destruct st as [a b c d e f r g h]; cbn [root_bits].
  destruct (r =? 0); [|by exists r].
  destruct (cnode_get_info w CAP_SELF_CSPACE) as [info w1]. case_if; [|by exists r].
  destruct (buffer_of _); [eexists; reflexivity|by exists r].
Qed.

(** What one poll of the probe slot does. *)
Lemma poll_spec st w ntfn :
  pool_inv st -> expand_state st = Requested ->
  match poll_requested_expand_locked st w ntfn with
  | (PPending, st', _) => st' = st
  | (PCompleted, st', _) =>
      (seg_count st < MAX_SEGMENTS)%nat /\ pool_inv st' /\ expand_state st' = Idle /\
      initialized st' = initialized st /\
      (forall x, managed st' x <->
         managed st x \/ probe_addr_of st <= x < probe_addr_of st + 1024) /\
      (forall x, allocated st' x <-> allocated st x)
  | (PFailed, st', _) => (MAX_SEGMENTS <= seg_count st)%nat /\ st' = set_expand st Failed
  end.
Proof.
  intros Hi Hr. unfold poll_requested_expand_locked.
  destruct (cnode_copy_depth _ _ _ _ _ _ _ _) as [err w1]. case_if; [done|].
  destruct (cnode_delete_depth _ _ _ _) as [d w2].
  destruct (Nat.leb_spec MAX_SEGMENTS (seg_count st)) as [Hge|Hlt]; [done|].
  fold (expanded st). destruct (expanded_inv st Hi Hr Hlt) as (Hi' & Hm & Ha).
  split; [done|]. case_if.
  - split; [by apply set_expanded_depth_inv|]. done.
  - done.
Qed.

Lemma drive_turn_inv st w : pool_inv st -> pool_inv (snd (fst (drive_turn st w))).
Proof.
  intros Hi. unfold drive_turn. case_if; [done|].
  destruct (negb (cspace_ntfn st =? 0) && (cspace_expand_count st <? MAX_CSPACE_EXPANSIONS)) eqn:Eg;
    [|done]. bprop.
  destruct (ensure_root_bits_cases st w) as [b Eb].
  destruct (ensure_root_bits st w) as [st1 w1]. simpl in Eb. subst st1.
  assert (pool_inv (set_root_bits st b)) as Hi1 by auto with trona.
  destruct (expand_state (set_root_bits st b)) eqn:Ee; [| |done].
  - by apply set_requested_inv.
  - pose proof (poll_spec _ w1 (cspace_ntfn st) Hi1 Ee) as Hp.
    destruct (poll_requested_expand_locked _ _ _) as [[[] st2] w2]; simpl.
    + apply Hp.
    + by subst.
    + destruct Hp as [_ ->]. auto with trona.
Qed.

(** One locked section of the allocator run by any thread, or any other system
    activity of the process (which changes only the world). *)
Inductive locked_step : SlotAllocState * World -> SlotAllocState * World -> Prop :=
| step_fast st w : locked_step (st, w) (snd (slot_alloc_fast st), w)
| step_consecutive st w cnt :
    0 <= cnt -> locked_step (st, w) (snd (slot_alloc_consecutive_fast st cnt), w)
| step_free st w slot : locked_step (st, w) (snd (slot_free st slot), w)
| step_async st w r st' w' :
    slot_alloc_async_inner st w = (r, st', w') -> locked_step (st, w) (st', w')
| step_drive st w p st' w' :
    drive_turn st w = (p, st', w') -> locked_step (st, w) (st', w')
| step_world st w w' : locked_step (st, w) (st, w').

(** The locked scan, with the invariant. *)
Lemma alloc_locked_correct st :
  pool_inv st ->
  match alloc_single_locked st with
  | (Some s, st') =>
      pool_inv st' /\ ~ allocated st s /\ (forall x, allocated st' x <-> allocated st x \/ x = s)
  | (None, st') => st' = st /\ forall x, managed st x -> allocated st x
  end.
Proof.
  intros Hi. pose proof (pi_wf _ Hi) as Hw. pose proof (alloc_single_locked_shape st) as Hsh.
  unfold alloc_single_locked in *. destruct (Nat.eqb_spec (seg_count st) 0).
  { split; [done|]. intros x (i & Hlt & _). lia. }
  pose proof (scan_all_segments 1 _ st alloc_single_try_spec Hw ltac:(lia)) as Hs.
  destruct (scan_segments _ _ _) as [[s|] st'].
  - destruct Hs as [Hw' Hfree _ Ha]. split; [by eapply pool_inv_shape|].
    split; [apply Hfree; lia|]. intros x. rewrite Ha.
    split; (intros [?|?]; [by left|right; lia]).
  - destruct Hs as [-> Hs]. split; [done|]. by apply no_run_1_full.
Qed.

(** After a completed expansion the scan cannot fail. *)
Lemma alloc_after_expansion st st1 :
  pool_inv st -> pool_inv st1 ->
  (forall x, managed st1 x <-> managed st x \/ probe_addr_of st <= x < probe_addr_of st + 1024) ->
  (forall x, allocated st1 x <-> allocated st x) ->
  fst (alloc_single_locked st1) <> None.
Proof.
  intros Hi Hi1 Hm Ha Hn. pose proof (alloc_locked_correct st1 Hi1) as Hf.
  destruct (alloc_single_locked st1) as [[s|] st2]; [done|]. destruct Hf as [_ Hf].
  assert (allocated st (probe_addr_of st)) as (i & Hlt & Hh & _).
  { apply Ha, Hf, Hm. right. lia. }
  eapply (expanded_disjoint st i); [done..|lia].
Qed.

(** Specification of the non-blocking allocation, branch by branch. *)
Lemma async_correct st w :
  pool_inv st -> initialized st = true ->
  match slot_alloc_async_inner st w with
  | (Ok s, st', _) =>
      pool_inv st' /\ ~ allocated st s /\ (forall x, allocated st' x <-> allocated st x \/ x = s)
  | (WouldBlock, st', _) =>
      pool_inv st' /\ expand_state st' = Requested /\
      (forall x, managed st x -> allocated st x) /\ (forall x, allocated st' x <-> allocated st x)
  | (Exhausted, st', _) =>
      pool_inv st' /\ (forall x, managed st x -> allocated st x) /\
      (forall x, allocated st' x <-> allocated st x) /\
      (cspace_ntfn st = 0 \/ cspace_expand_count st = MAX_CSPACE_EXPANSIONS \/
       expand_state st' = Failed)
  end.
Proof.
  intros Hi Hini. unfold slot_alloc_async_inner. rewrite Hini. cbn [negb].
  pose proof (alloc_locked_correct st Hi) as Hf.
  destruct (alloc_single_locked st) as [[s|] st1]; [done|]. destruct Hf as [-> Hfull].
  destruct (expand_state st) eqn:Ee.
  - destruct ((cspace_ntfn st =? 0) || (MAX_CSPACE_EXPANSIONS <=? cspace_expand_count st)) eqn:Eg.
    + split; [done|]. split; [done|]. split; [done|].
      pose proof (pi_count _ Hi). apply orb_true_iff in Eg as [Eg|Eg]; bprop; [by left|right; left; lia].
    + apply orb_false_iff in Eg as [Eg1 Eg2]. bprop.
      destruct (ensure_root_bits_cases st w) as [b Eb].
      destruct (ensure_root_bits st w) as [st1 w1]. simpl in Eb. subst st1.
      split; [apply set_requested_inv; [auto with trona|done]|]. done.
  - pose proof (poll_spec st w (cspace_ntfn st) Hi Ee) as Hp.
    destruct (poll_requested_expand_locked _ _ _) as [[[] st1] w1].
    + destruct Hp as (_ & Hi1 & Hidle & Hini1 & Hm & Ha).
      pose proof (alloc_after_expansion st st1 Hi Hi1 Hm Ha) as Hne.
      pose proof (alloc_locked_correct st1 Hi1) as Hf.
      destruct (alloc_single_locked st1) as [[s|] st2]; [|by destruct Hne].
      destruct Hf as (Hi2 & Hna & Ha2). split; [done|]. split; [by rewrite <- Ha|].
      intros x. by rewrite Ha2, Ha.
    + subst. done.
    + destruct Hp as [_ ->]. split; [auto with trona|]. split; [done|]. split; [done|].
      by right; right.
  - split; [done|]. split; [done|]. split; [done|]. by right; right.
Qed.

(** ** Termination of the blocking driver *)

(** The probe: copying a capability into the sub-CNode awaited from procmgr. *)
Definition is_probe (c : Syscall) : bool :=
  (num c =? SYS_INVOKE) && (a0 c =? CAP_SELF_CSPACE) && (a1 c =? CNODE_COPY).
Definition probes (tr : list Syscall) : nat := length (List.filter is_probe tr).

(** The process manager installs the sub-CNode: from the [k]-th probe on, the
    kernel accepts the copy. *)
Definition probe_ready (k : nat) : Prop :=
  forall tr c buf, is_probe c = true -> (k <= probes tr)%nat -> error (k_result tr c buf) = 0.

Lemma probes_app tr tr' : probes (tr ++ tr') = (probes tr + probes tr')%nat.
Proof. unfold probes. by rewrite List.filter_app, length_app. Qed.

Lemma ensure_root_bits_probes st w : probes (trace (snd (ensure_root_bits st w))) = probes (trace w).
Proof.
  unfold ensure_root_bits. case_if; [|done].
  assert (probes (trace (snd (cnode_get_info w CAP_SELF_CSPACE))) = probes (trace w)) as E.
  { unfold cnode_get_info, invoke, syscall. cbn [snd trace]. rewrite probes_app. cbn. lia. }
  destruct (cnode_get_info _ _) as [info w1]. simpl in E. case_if; [|done].
  by destruct (buffer_of _).
Qed.

Lemma signal_probes w n : probes (trace (signal w n)) = probes (trace w).
Proof. unfold signal, syscall. cbn [snd trace]. rewrite probes_app. cbn. lia. Qed.

Lemma yield_probes w : probes (trace (yield_ w)) = probes (trace w).
Proof. unfold yield_, syscall. cbn [snd trace]. rewrite probes_app. cbn. lia. Qed.

Lemma as_i32_zero z : z = 0 -> as_i32 z = 0.
Proof. by intros ->. Qed.

(** A poll issues one probe; it cannot stay pending once the slot is ready. *)
Lemma poll_progress k st w ntfn :
  probe_ready k ->
  match poll_requested_expand_locked st w ntfn with
  | (PPending, _, w') => (probes (trace w) < k)%nat /\ probes (trace w') = S (probes (trace w))
  | _ => True
  end.
Proof.
  intros Hk. unfold poll_requested_expand_locked, cnode_copy_depth, write_invoke_depth,
    invoke_err, invoke, syscall. cbn [snd trace ctx].
  match goal with |- context [k_result ?tr ?c ?b] =>
    assert ((k <= probes tr)%nat -> error (k_result tr c b) = 0) as Hz by (by apply Hk);
    assert (probes tr = probes (trace w)) as Ep by (rewrite probes_app; cbn; lia);
    destruct (k_result tr c b) as [e v] end.
  cbn [error] in *. rewrite Ep in Hz. case_if.
  - split.
    + destruct (le_lt_dec k (probes (trace w))); [|done]. rewrite Hz in * by done. done.
    + case_if; rewrite ?signal_probes; cbn [trace]; rewrite !probes_app; cbn; lia.
  - destruct (cnode_delete_depth _ _ _ _). by case_if.
Qed.

(** An expansion can complete: the driver is enabled and the table has room. *)
Record can_expand (st : SlotAllocState) : Prop := {
  ce_inv : pool_inv st;
  ce_init : initialized st = true;
  ce_ntfn : cspace_ntfn st <> 0;
  ce_more : cspace_expand_count st < MAX_CSPACE_EXPANSIONS;
  ce_room : (seg_count st < MAX_SEGMENTS)%nat;
}.

(** The result of a successful blocking expansion. *)
Definition expansion_done (st st' : SlotAllocState) : Prop :=
  pool_inv st' /\ initialized st' = true /\
  (forall x, managed st' x <-> managed st x \/ probe_addr_of st <= x < probe_addr_of st + 1024) /\
  (forall x, allocated st' x <-> allocated st x).

Lemma drive_requested k : probe_ready k -> forall m fuel st w,
  can_expand st -> expand_state st = Requested ->
  (k - probes (trace w) <= m)%nat -> (m < fuel)%nat ->
  match drive_cspace_expand_blocking fuel st w with
  | (Some true, st', _) => expansion_done st st'
  | _ => False
  end.
Proof.
  intros Hk. induction m as [m IH] using lt_wf_ind. intros [|fuel] st w [Hi Hini Hn Hm Hr] Hreq Hp Hf; [lia|].
  simpl. unfold drive_turn. rewrite Hini. cbn [negb].
  destruct (Z.eqb_spec (cspace_ntfn st) 0); [done|]. cbn [negb andb].
  destruct (Z.ltb_spec (cspace_expand_count st) MAX_CSPACE_EXPANSIONS); [|lia].
  destruct (ensure_root_bits_cases st w) as [b Eb]. pose proof (ensure_root_bits_probes st w) as Epr.
  destruct (ensure_root_bits st w) as [st1 w1]. simpl in Eb, Epr. subst st1.
  cbn [expand_state set_root_bits]. rewrite Hreq.
  assert (pool_inv (set_root_bits st b)) as Hi1 by auto with trona.
  pose proof (poll_spec _ w1 (cspace_ntfn st) Hi1 Hreq) as Hs.
  pose proof (poll_progress k (set_root_bits st b) w1 (cspace_ntfn st) Hk) as Hg.
  destruct (poll_requested_expand_locked _ _ _) as [[[] st2] w2].
  - destruct Hs as (_ & ? & _ & Hini2 & Hm2 & Ha2). split; [done|]. split; [by rewrite Hini2|].
    split; [exact Hm2|exact Ha2].
  - destruct Hg as [Hlt Hinc]. subst st2.
    assert (can_expand (set_root_bits st b)) as Hce by (by split).
    specialize (IH (m - 1)%nat ltac:(lia) fuel _ (yield_ w2) Hce Hreq).
    rewrite yield_probes in IH. specialize (IH ltac:(lia) ltac:(lia)).
    destruct (drive_cspace_expand_blocking _ _ _) as [[[[]|] st3] w3]; try done.
  - destruct Hs as [Hs _]. cbn in Hs. lia.
Qed.

Lemma drive_terminates k fuel st w :
  probe_ready k -> can_expand st -> expand_state st <> Failed -> (k + 1 < fuel)%nat ->
  match drive_cspace_expand_blocking fuel st w with
  | (Some true, st', _) => expansion_done st st'
  | _ => False
  end.
Proof.
  intros Hk Hce Hnf Hf. destruct (expand_state st) eqn:Ee; [|by eapply (drive_requested k Hk k); eauto with lia|done].
  destruct fuel as [|fuel]; [lia|]. destruct Hce as [Hi Hini Hn Hm Hr].
  simpl. unfold drive_turn. rewrite Hini. cbn [negb].
  destruct (Z.eqb_spec (cspace_ntfn st) 0); [done|]. cbn [negb andb].
  destruct (Z.ltb_spec (cspace_expand_count st) MAX_CSPACE_EXPANSIONS); [|lia].
  destruct (ensure_root_bits_cases st w) as [b Eb].
  destruct (ensure_root_bits st w) as [st1 w1]. simpl in Eb. subst st1.
  cbn [expand_state set_root_bits]. rewrite Ee.
  assert (can_expand (set_expand (set_root_bits st b) Requested)) as Hce.
  { split; try done. apply set_requested_inv; [auto with trona|done]. }
  pose proof (drive_requested k Hk k fuel _ (yield_ (signal w1 (cspace_ntfn st))) Hce eq_refl
    ltac:(lia) ltac:(lia)) as Hd.
  destruct (drive_cspace_expand_blocking _ _ _) as [[[[]|] st3] w3]; done.
Qed.
End protocol.

(** ** Properties *)

Lemma init_pool_inv b c ntfn :
  0 <= b -> 0 < c <= 65536 -> b + c <= EXPAND_FLOOR -> pool_inv (slot_alloc_init b c ntfn).
Proof.
  intros Hb Hc Hf. assert (b + c < 2 ^ 64) by (unfold EXPAND_FLOOR, CSPACE_EXPAND_BASE in *; lia).
  assert (forall x y z, cspace_expand_count (slot_alloc_init x y z) = 0 /\
                        expand_state (slot_alloc_init x y z) = Idle) as Hfix.
  { intros. unfold slot_alloc_init. case_if; [done|]. by destruct (fill_chunks _ _ _). }
  destruct (Hfix b c ntfn) as [E1 E2]. split.
  - by apply init_wf.
  - rewrite E1. unfold MAX_CSPACE_EXPANSIONS. lia.
  - congruence.
  - exists (seg_count (slot_alloc_init b c ntfn)). rewrite E1. split; [simpl; lia|]. split.
    + intros i Hi. destruct (seg_at_init b c ntfn i) as [? ->]; [done..|].
      cbn [base count fresh_segment]. lia.
    + simpl. lia.
Qed.

Lemma locked_step_inv {K : Kernel} p q : locked_step p q -> pool_inv (fst p) -> pool_inv (fst q).
Proof.
  intros Hs Hi. destruct Hs as [st w|st w cnt Hcnt|st w slot|st w r st' w' E|st w r st' w' E|st w w'];
    cbn [fst] in *.
  - by apply slot_alloc_fast_inv.
  - by apply slot_alloc_consecutive_fast_inv.
  - by apply slot_free_inv.
  - destruct (initialized st) eqn:Ei.
    + pose proof (async_correct st w Hi Ei) as H. rewrite E in H. destruct r; apply H.
    + unfold slot_alloc_async_inner in E. rewrite Ei in E. by injection E as <- <- <-.
  - pose proof (drive_turn_inv st w Hi) as H. by rewrite E in H.
  - done.
Qed.

(** in every state reachable from [slot_alloc_init] by any interleaving of the
    locked sections of the allocator (single and contiguous allocation, release,
    the asynchronous allocation and the turns of the blocking expansion driver),
    whatever the kernel answers: the segments stay well-formed and pairwise
    disjoint, at most [MAX_CSPACE_EXPANSIONS] sub-CNodes are registered, and the
    [k]-th one occupies exactly the [k]-th slot range of the expansion window. *)
Theorem reachable_pool_inv {K : Kernel} (b c ntfn : Z) (w w' : World) (st' : SlotAllocState)
    (Hb : 0 <= b) (Hc : 0 < c <= 65536) (Hfl : b + c <= EXPAND_FLOOR)
    (Hreach : rtc locked_step (slot_alloc_init b c ntfn, w) (st', w')) :
  pool_inv st'.
Proof.
  pose proof (init_pool_inv b c ntfn Hb Hc Hfl) as Hi.
  change st' with (fst (st', w')). revert Hreach.
  change (pool_inv (fst (slot_alloc_init b c ntfn, w))) in Hi.
  generalize (slot_alloc_init b c ntfn, w) as p, (st', w') as q, Hi. clear.
  intros p q Hi Hr. induction Hr as [|p p' q Hs Hr IH]; [done|].
  apply IH. by eapply locked_step_inv.
Qed.

(** A kernel that accepts the probe from the third attempt on. *)
Definition slow_procmgr : Kernel := {|
  k_result tr c _ := if is_probe c && (probes tr <? 2)%nat then mkResult 1 0 else mkResult 0 0;
  k_buffer _ _ b := b;
|}.

Definition demo_world : World := mkWorld [] (Some (mkCtx None 0)).
Definition tiny_pool : SlotAllocState := slot_alloc_init 64 1 7.
Definition full_pool : SlotAllocState := snd (slot_alloc_fast tiny_pool).

Lemma slow_procmgr_ready : @probe_ready slow_procmgr 2.
Proof.
  intros tr c buf Hc Hk. unfold slow_procmgr; simpl. rewrite Hc. simpl.
  destruct (Nat.ltb_spec (probes tr) 2); [lia|done].
Qed.

Lemma full_pool_inv : pool_inv full_pool.
Proof. apply slot_alloc_fast_inv, init_pool_inv; unfold EXPAND_FLOOR, CSPACE_EXPAND_BASE; lia. Qed.

Lemma full_pool_can_expand : can_expand full_pool.
Proof. split; [apply full_pool_inv|done|done|done|unfold MAX_SEGMENTS; vm_compute; lia]. Qed.

Lemma reachable_pool_inv_witness : pool_inv full_pool.
Proof.
  apply (@reachable_pool_inv slow_procmgr 64 1 7 demo_world demo_world full_pool); try lia.
  - unfold EXPAND_FLOOR, CSPACE_EXPAND_BASE. lia.
  - apply rtc_once. apply (step_fast tiny_pool).
Defined.

(** the non-blocking allocation ([slot_alloc_async_inner]) on every branch: a
    slot it returns was free and is the only one that becomes allocated;
    [WouldBlock] is returned only when every managed slot is taken and leaves the
    request pending; [Exhausted] only when every managed slot is taken and no
    notification is configured, the expansion limit is reached or the protocol
    has failed. *)
Theorem slot_alloc_async_spec {K : Kernel} (st : SlotAllocState) (w : World)
    (Hi : pool_inv st) (Hinit : initialized st = true) :
  match slot_alloc_async_inner st w with
  | (Ok s, st', _) =>
      pool_inv st' /\ ~ allocated st s /\ (forall x, allocated st' x <-> allocated st x \/ x = s)
  | (WouldBlock, st', _) =>
      pool_inv st' /\ expand_state st' = Requested /\
      (forall x, managed st x -> allocated st x) /\ (forall x, allocated st' x <-> allocated st x)
  | (Exhausted, st', _) =>
      pool_inv st' /\ (forall x, managed st x -> allocated st x) /\
      (forall x, allocated st' x <-> allocated st x) /\
      (cspace_ntfn st = 0 \/ cspace_expand_count st = MAX_CSPACE_EXPANSIONS \/
       expand_state st' = Failed)
  end.
Proof. by apply async_correct. Qed.

Lemma slot_alloc_async_spec_witness :
  fst (fst (@slot_alloc_async_inner slow_procmgr full_pool demo_world)) = WouldBlock /\
  match @slot_alloc_async_inner slow_procmgr tiny_pool demo_world with
  | (Ok s, st', _) =>
      pool_inv st' /\ ~ allocated tiny_pool s /\
      (forall x, allocated st' x <-> allocated tiny_pool x \/ x = s)
  | (WouldBlock, st', _) =>
      pool_inv st' /\ expand_state st' = Requested /\
      (forall x, managed tiny_pool x -> allocated tiny_pool x) /\
      (forall x, allocated st' x <-> allocated tiny_pool x)
  | (Exhausted, st', _) =>
      pool_inv st' /\ (forall x, managed tiny_pool x -> allocated tiny_pool x) /\
      (forall x, allocated st' x <-> allocated tiny_pool x) /\
      (cspace_ntfn tiny_pool = 0 \/ cspace_expand_count tiny_pool = MAX_CSPACE_EXPANSIONS \/
       expand_state st' = Failed)
  end.
Proof.
  split; [vm_compute; reflexivity|].
  apply (@slot_alloc_async_spec slow_procmgr tiny_pool demo_world); [|reflexivity].
  apply init_pool_inv; unfold EXPAND_FLOOR, CSPACE_EXPAND_BASE; lia.
Defined.

(** C30: the blocking allocation [slot_alloc] returns a slot: if the process
    manager installs the sub-CNode so that the kernel accepts the probe from the
    [k]-th attempt on, and expansion is still possible, then [k + 2] turns of the
    driver loop are enough and the slot returned was free. *)
Theorem slot_alloc_terminates {K : Kernel} (k fuel : nat) (st : SlotAllocState) (w : World)
    (Hk : probe_ready k) (Hce : can_expand st) (Hnf : expand_state st <> Failed)
    (Hfuel : (k + 1 < fuel)%nat) :
  match slot_alloc fuel st w with
  | (Some (Some s), st', _) =>
      pool_inv st' /\ ~ allocated st s /\ (forall x, allocated st' x <-> allocated st x \/ x = s)
  | _ => False
  end.
Proof.
  pose proof (ce_inv _ Hce) as Hi. pose proof (ce_init _ Hce) as Hini.
  unfold slot_alloc. rewrite Hini. cbn [negb]. change (MAX_SEGMENTS + 2)%nat with (S (S 16)).
  cbn [slot_alloc_rounds]. unfold slot_alloc_fast at 1. rewrite Hini. cbn [negb].
  pose proof (alloc_locked_correct st Hi) as Hf.
  destruct (alloc_single_locked st) as [[s|] st1]; [done|]. destruct Hf as [-> _].
  pose proof (drive_terminates k fuel st w Hk Hce Hnf Hfuel) as Hd.
  destruct (drive_cspace_expand_blocking _ _ _) as [[[[]|] st1] w1]; try done.
  destruct Hd as (Hi1 & Hini1 & Hm & Ha). unfold slot_alloc_fast. rewrite Hini1. cbn [negb].
  pose proof (alloc_after_expansion st st1 Hi Hi1 Hm Ha) as Hne.
  pose proof (alloc_locked_correct st1 Hi1) as Hf.
  destruct (alloc_single_locked st1) as [[s|] st2]; [|by destruct Hne].
  destruct Hf as (Hi2 & Hna & Ha2). split; [done|]. split; [by rewrite <- Ha|].
  intros x. by rewrite Ha2, Ha.
Qed.

Lemma slot_alloc_terminates_witness :
  fst (fst (@slot_alloc slow_procmgr 4 full_pool demo_world)) = Some (Some (1008 * 1024)) /\
  match @slot_alloc slow_procmgr 4 full_pool demo_world with
  | (Some (Some s), st', _) =>
      pool_inv st' /\ ~ allocated full_pool s /\
      (forall x, allocated st' x <-> allocated full_pool x \/ x = s)
  | _ => False
  end.
Proof.
  split; [vm_compute; reflexivity|].
  apply (@slot_alloc_terminates slow_procmgr 2 4 full_pool demo_world
           slow_procmgr_ready full_pool_can_expand); [done|lia].
Defined.
