(* ===== verification/Ipc.v ===== *)
(** IPC operations ([src/substrate/ipc.rs]): the message-info word, the
    per-thread IPC context, staging of capabilities and receive slots, and the
    send / receive / call / reply-receive family on top of one system call.

    A [*mut T] out-parameter is an [option T]: [None] is the null pointer,
    [Some v] a cell holding [v]; the functions return the cell's new content. *)

From S2P Require Import Prelude Consts Kernel.

Definition msginfo (label length caps : Z) : Z :=
  Z.lor (Z.lor (label << 12)%u64 (caps << 7)%u64) (Z.land length 0x7F).

Definition msginfo_label (info : Z) : Z := Z.land (Z.shiftr info 12) 0xFFFFFFFFFF.
Definition msginfo_length (info : Z) : Z := Z.land info 0x7F.
Definition msginfo_extracaps (info : Z) : Z := Z.land (Z.shiftr info 7) 0x1F.

(** ** The IPC context *)

Definition ipc_context_init (ctx : option IpcContext) (buf : option IpcBuffer)
    : option IpcContext :=
  match ctx with
  | None => None
  | Some _ => Some (mkCtx buf 0)
  end.

Definition clear_send_caps_ctx (ctx : option IpcContext) : option IpcContext :=
  match ctx with
  | None => None
  | Some c =>
      Some (mkCtx ((fun b => set_caps b
                      (<[3%nat:=0]> (<[2%nat:=0]> (<[1%nat:=0]> (<[0%nat:=0]> (caps b))))))
                     <$> ipc_buffer c) 0)
  end.

Definition set_send_cap_ctx (ctx : option IpcContext) (slot_index cap_slot : Z)
    : option IpcContext :=
  match ctx with
  | None => None
  | Some c =>
      if (slot_index <? 0) || (slot_index >=? 4) then ctx else
      match ipc_buffer c with
      | None => ctx
      | Some b =>
          Some (mkCtx (Some (set_caps b (<[Z.to_nat slot_index := cap_slot]> (caps b))))
                  (if send_cap_count c <? slot_index + 1 then slot_index + 1
                   else send_cap_count c))
      end
  end.

Definition set_receive_slot_ctx (ctx : option IpcContext) (cnode index depth : Z)
    : option IpcContext :=
  match ctx with
  | None => None
  | Some c => Some (mkCtx ((fun b => set_receive b cnode index depth) <$> ipc_buffer c)
                      (send_cap_count c))
  end.

(** The [for i in 0..n] copy of [regs[4 + i]] to [msg[6 + i]]. *)
Fixpoint copy_overflow (n i : nat) (src dst : list Z) : list Z :=
  match n with
  | O => dst
  | S n' => copy_overflow n' (S i) src (<[(6 + i)%nat := default 0 (src !! (4 + i)%nat)]> dst)
  end.

Definition write_overflow_ctx (ctx : option IpcContext) (m : TronaMsg) : option IpcContext :=
  let len := as_u32 (msg_length m) in
  let len := if len >? 32 then 32 else len in
  match ctx with
  | None => None
  | Some c =>
      if len <=? 4 then ctx else
      let n := Z.min (len - 4) 28 in
      Some (mkCtx ((fun b => set_msg b (copy_overflow (Z.to_nat n) 0 (regs m) (msg b)))
                     <$> ipc_buffer c) (send_cap_count c))
  end.

(** The [while idx < endpoint_count] loop of [stage_recv_any_endpoints_ctx]. *)
Fixpoint stage_endpoints (idx : nat) (eps : list Z) (dst : list Z) : list Z :=
  match eps with
  | [] => dst
  | e :: rest => stage_endpoints (S idx) rest (<[idx := e]> dst)
  end.

(** [endpoints] is the array behind the pointer ([None]: null); its first
    [endpoint_count] entries are read. *)
Definition stage_recv_any_endpoints_ctx (ctx : option IpcContext)
    (endpoints : option (list Z)) (endpoint_count : nat) : option (option IpcContext) :=
  match ctx, endpoints with
  | Some c, Some eps =>
      if Nat.eqb endpoint_count 0 then None else
      match ipc_buffer c with
      | None => None
      | Some b =>
          if (IPC_BUFFER_RESERVED_WORDS <? endpoint_count)%nat then None else
          Some (Some (mkCtx
            (Some (set_reserved b (stage_endpoints 0 (take endpoint_count eps) (reserved b))))
            (send_cap_count c)))
      end
  | _, _ => None
  end.

Definition stage_timeout (ctx : option IpcContext) (t : Z) : option IpcContext :=
  map_buffer (fun b => set_timeout b t) ctx.

Definition reg (m : TronaMsg) (i : nat) : Z := default 0 (regs m !! i).

Definition with_ctx (w : World) (c : option IpcContext) : World := mkWorld (trace w) c.

Definition caps_of (ctx : option IpcContext) : Z :=
  match ctx with None => 0 | Some c => send_cap_count c end.

(** [*p = v] unless [p] is null. *)
Definition store {A} (p : option A) (v : A) : option A := (fun _ => v) <$> p.

(** [*msg = *buf] when neither [msg], [ctx] nor its buffer pointer is null. *)
Definition store_msg (p : option TronaMsg) (ctx : option IpcContext) : option TronaMsg :=
  match buffer_of ctx with
  | None => p
  | Some b => store p (buffer_as_msg b)
  end.

Definition store_badge (p : option Z) (ctx : option IpcContext) : option Z :=
  match buffer_of ctx with
  | None => p
  | Some b => store p (badge b)
  end.

Section operations.
Context `{Kernel}.

(** The transmitting half every sending operation shares: message info,
    overflow registers, the call, and the automatic clearing of staged caps. *)
Definition transmit (w : World) (nr dest : Z) (m : TronaMsg) : TronaResult * World :=
  let caps := caps_of (ctx w) in
  let info := msginfo (label m) (msg_length m) (as_u64 caps) in
  let w := with_ctx w (write_overflow_ctx (ctx w) m) in
  let '(r, w) := syscall w nr dest info (reg m 0) (reg m 1) (reg m 2) (reg m 3) in
  (r, if caps >? 0 then with_ctx w (clear_send_caps_ctx (ctx w)) else w).

Definition send_ctx (w : World) (ep : Z) (m : TronaMsg) : Z * World :=
  let '(r, w) := transmit w SYS_SEND ep m in (as_i32 (error r), w).

Definition send_timed_ctx (w : World) (ep : Z) (m : TronaMsg) (timeout_ns : Z) : Z * World :=
  let w := with_ctx w (stage_timeout (ctx w) timeout_ns) in
  let '(r, w) := transmit w SYS_SEND_TIMED ep m in (as_i32 (error r), w).

Definition nbsend_ctx (w : World) (ep : Z) (m : TronaMsg) : Z * World :=
  let '(r, w) := transmit w SYS_NBSEND ep m in (as_i32 (error r), w).

(** What a receive writes: error code, [*msg], [*badge]. *)
Definition finish_recv (r : TronaResult) (w : World) (pmsg : option TronaMsg) (pbadge : option Z)
    : Z * option TronaMsg * option Z * World :=
  if error r =? 0
  then (as_i32 (error r), store_msg pmsg (ctx w), store pbadge (value r), w)
  else (as_i32 (error r), pmsg, pbadge, w).

Definition recv_ctx (w : World) (ep : Z) (pmsg : option TronaMsg) (pbadge : option Z)
    : Z * option TronaMsg * option Z * World :=
  let '(r, w) := syscall w SYS_RECV ep 0 0 0 0 0 in finish_recv r w pmsg pbadge.

Definition recv_timed_ctx (w : World) (ep timeout_ns : Z) (pmsg : option TronaMsg)
    (pbadge : option Z) : Z * option TronaMsg * option Z * World :=
  let w := with_ctx w (stage_timeout (ctx w) timeout_ns) in
  let '(r, w) := syscall w SYS_RECV_TIMED ep 0 0 0 0 0 in finish_recv r w pmsg pbadge.

(** The [_any] receives also write [*source]; the badge comes from the buffer. *)
Definition finish_recv_any (r : TronaResult) (w : World) (pmsg : option TronaMsg)
    (pbadge psource : option Z) : Z * option TronaMsg * option Z * option Z * World :=
  if error r =? 0
  then (as_i32 (error r), store_msg pmsg (ctx w), store_badge pbadge (ctx w),
        store psource (value r), w)
  else (as_i32 (error r), pmsg, pbadge, psource, w).

Definition recv_any_ctx (w : World) (endpoints : option (list Z)) (endpoint_count : nat)
    (pmsg : option TronaMsg) (pbadge psource : option Z)
    : Z * option TronaMsg * option Z * option Z * World :=
  match stage_recv_any_endpoints_ctx (ctx w) endpoints endpoint_count with
  | None => (as_i32 TRONA_INVALID_ARGUMENT, pmsg, pbadge, psource, w)
  | Some c =>
      let '(r, w) := syscall (with_ctx w c) SYS_RECV_ANY (Z.of_nat endpoint_count) 0 0 0 0 0 in
      finish_recv_any r w pmsg pbadge psource
  end.

Definition recv_any_timed_ctx (w : World) (endpoints : option (list Z)) (endpoint_count : nat)
    (timeout_ns : Z) (pmsg : option TronaMsg) (pbadge psource : option Z)
    : Z * option TronaMsg * option Z * option Z * World :=
  match stage_recv_any_endpoints_ctx (ctx w) endpoints endpoint_count with
  | None => (as_i32 TRONA_INVALID_ARGUMENT, pmsg, pbadge, psource, w)
  | Some c =>
      let w := with_ctx w (stage_timeout c timeout_ns) in
      let '(r, w) := syscall w SYS_RECV_ANY_TIMED (Z.of_nat endpoint_count) 0 0 0 0 0 in
      finish_recv_any r w pmsg pbadge psource
  end.

Definition call_ctx (w : World) (ep : Z) (m : TronaMsg) (preply : option TronaMsg)
    : Z * option TronaMsg * World :=
  let '(r, w) := transmit w SYS_CALL ep m in
  (as_i32 (error r), (if error r =? 0 then store_msg preply (ctx w) else preply), w).

Definition reply_recv_ctx (w : World) (ep : Z) (reply : TronaMsg) (pmsg : option TronaMsg)
    (pbadge : option Z) : Z * option TronaMsg * option Z * World :=
  let '(r, w) := transmit w SYS_REPLY_RECV ep reply in finish_recv r w pmsg pbadge.

Definition reply_recv_any_ctx (w : World) (endpoints : option (list Z)) (endpoint_count : nat)
    (reply : TronaMsg) (pmsg : option TronaMsg) (pbadge psource : option Z)
    : Z * option TronaMsg * option Z * option Z * World :=
  match stage_recv_any_endpoints_ctx (ctx w) endpoints endpoint_count with
  | None => (as_i32 TRONA_INVALID_ARGUMENT, pmsg, pbadge, psource, w)
  | Some c =>
      let '(r, w) := transmit (with_ctx w c) SYS_REPLY_RECV_ANY (Z.of_nat endpoint_count) reply in
      finish_recv_any r w pmsg pbadge psource
  end.

Definition reply_recv_any_timed_ctx (w : World) (endpoints : option (list Z))
    (endpoint_count : nat) (timeout_ns : Z) (reply : TronaMsg) (pmsg : option TronaMsg)
    (pbadge psource : option Z) : Z * option TronaMsg * option Z * option Z * World :=
  match stage_recv_any_endpoints_ctx (ctx w) endpoints endpoint_count with
  | None => (as_i32 TRONA_INVALID_ARGUMENT, pmsg, pbadge, psource, w)
  | Some c =>
      let w := with_ctx w (stage_timeout c timeout_ns) in
      let '(r, w) := transmit w SYS_REPLY_RECV_ANY_TIMED (Z.of_nat endpoint_count) reply in
      finish_recv_any r w pmsg pbadge psource
  end.
End operations.

(** ** The message-info word *)

Lemma testbit_wrap_shiftl x k i :
  0 <= k -> 0 <= i ->
  Z.testbit (x << k)%u64 i = (i <? 64) && (k <=? i) && Z.testbit x (i - k).
Proof.
  intros Hk Hi. unfold wrap. rewrite Z.testbit_mod_pow2 by lia.
  rewrite Z.shiftl_spec by done. destruct (Z.ltb_spec i 64); [|done].
  destruct (Z.leb_spec k i); [done|]. by rewrite Z.testbit_neg_r by lia.
Qed.

Lemma testbit_ones_mask n i : 0 <= n -> 0 <= i -> Z.testbit (Z.ones n) i = (i <? n).
Proof.
  intros. destruct (Z.ltb_spec i n); [apply Z.ones_spec_low; lia | apply Z.ones_spec_high; lia].
Qed.

Lemma testbit_msginfo l n c i :
  0 <= i ->
  Z.testbit (msginfo l n c) i =
    ((i <? 64) && (12 <=? i) && Z.testbit l (i - 12)) ||
    ((i <? 64) && (7 <=? i) && Z.testbit c (i - 7)) || (Z.testbit n i && (i <? 7)).
Proof.
  intros Hi. unfold msginfo. change 0x7F with (Z.ones 7).
  by rewrite !Z.lor_spec, !testbit_wrap_shiftl, Z.land_spec, testbit_ones_mask by lia.
Qed.

Ltac mask_bits :=
  apply Z.bits_inj'; intros i Hi; cbv zeta;
  rewrite ?Z.land_spec, ?testbit_ones_mask, ?Z.shiftr_spec, ?testbit_msginfo,
    ?Z.testbit_mod_pow2 by lia;
  repeat match goal with
  | |- context [?a <? ?b] => destruct (Z.ltb_spec a b); try lia
  | |- context [?a <=? ?b] => destruct (Z.leb_spec a b); try lia
  end; cbn [andb orb]; rewrite ?andb_true_r, ?andb_false_r, ?orb_false_r.

Lemma msginfo_label_spec l n c :
  0 <= c < 32 -> msginfo_label (msginfo l n c) = l mod 2 ^ 40.
Proof.
  intros Hc. unfold msginfo_label. change 0xFFFFFFFFFF with (Z.ones 40). mask_bits; try done.
  rewrite (testbit_high 5 c) by lia. rewrite orb_false_r. f_equal. lia.
Qed.

Lemma msginfo_length_spec l n c : msginfo_length (msginfo l n c) = n mod 2 ^ 7.
Proof. unfold msginfo_length. change 0x7F with (Z.ones 7). by mask_bits. Qed.

Lemma msginfo_extracaps_spec l n c :
  0 <= c < 32 -> msginfo_extracaps (msginfo l n c) = c.
Proof.
  intros Hc. unfold msginfo_extracaps. change 0x1F with (Z.ones 5). mask_bits;
    solve [done | f_equal; lia | symmetry; apply (testbit_high 5); lia | apply (testbit_high 5); lia].
Qed.

(** packing a label, a length and a capability count into the message-info
    word and reading the fields back: the label comes back modulo [2^40] and
    the length modulo [2^7] (so exactly, for the ranges of the format), and
    the capability count exactly for every count the 5-bit field can hold. *)
Theorem msginfo_roundtrip l n c :
  0 <= l < 2 ^ 40 -> 0 <= n < 2 ^ 7 -> 0 <= c < 2 ^ 5 ->
  msginfo_label (msginfo l n c) = l /\
  msginfo_length (msginfo l n c) = n /\
  msginfo_extracaps (msginfo l n c) = c /\
  in_u 52 (msginfo l n c).
Proof.
  intros Hl Hn Hc.
  rewrite msginfo_label_spec, msginfo_length_spec, msginfo_extracaps_spec by lia.
  rewrite !Z.mod_small by lia. split_and!; try done.
  apply in_u_bits; [lia|]. intros i Hi. rewrite testbit_msginfo by lia.
  rewrite (testbit_high 40 l), (testbit_high 5 c), (testbit_high 7 n) by lia.
  by rewrite !andb_false_r.
Qed.

Lemma msginfo_roundtrip_witness :
  msginfo_label (msginfo 0x301 20 3) = 0x301 /\ msginfo_length (msginfo 0x301 20 3) = 20 /\
  msginfo_extracaps (msginfo 0x301 20 3) = 3 /\ in_u 52 (msginfo 0x301 20 3).
Proof. apply (msginfo_roundtrip 0x301 20 3); lia. Defined.

(** ** Overflow registers *)

Lemma length_copy_overflow n i src dst : length (copy_overflow n i src dst) = length dst.
Proof.
  revert i dst. induction n as [|n IH]; intros i dst; cbn [copy_overflow]; [done|].
  by rewrite IH, length_insert.
Qed.

Lemma lookup_copy_overflow n i src dst j :
  (6 + i + n <= length dst)%nat ->
  copy_overflow n i src dst !! j =
    if decide (6 + i <= j < 6 + i + n)%nat then Some (default 0 (src !! (j - 2)%nat)) else dst !! j.
Proof.
  revert i dst. induction n as [|n IH]; intros i dst Hl; cbn [copy_overflow].
  - rewrite decide_False by lia. done.
  - rewrite IH by (rewrite length_insert; lia).
    destruct (decide (j = 6 + i)%nat) as [->|Hne].
    + rewrite decide_False by lia. rewrite decide_True by lia.
      rewrite list_lookup_insert_eq by lia. do 3 f_equal; lia.
    + rewrite list_lookup_insert_ne by lia.
      destruct (decide (6 + S i <= j < 6 + S i + n)%nat), (decide (6 + i <= j < 6 + i + S n)%nat);
        try lia; done.
Qed.

Lemma length_stage_endpoints idx eps dst : length (stage_endpoints idx eps dst) = length dst.
Proof.
  revert idx dst. induction eps as [|e eps IH]; intros; cbn [stage_endpoints]; [done|].
  by rewrite IH, length_insert.
Qed.

Lemma lookup_stage_endpoints idx eps dst j :
  (idx + length eps <= length dst)%nat ->
  stage_endpoints idx eps dst !! j =
    if decide (idx <= j < idx + length eps)%nat then eps !! (j - idx)%nat else dst !! j.
Proof.
  revert idx dst. induction eps as [|e eps IH]; intros idx dst Hl; cbn [stage_endpoints length] in *.
  - rewrite decide_False by lia. done.
  - rewrite IH by (rewrite length_insert; lia).
    destruct (decide (j = idx)) as [->|Hne].
    + rewrite decide_False by lia. rewrite decide_True by lia.
      rewrite list_lookup_insert_eq by lia. by rewrite Nat.sub_diag.
    + rewrite list_lookup_insert_ne by lia.
      destruct (decide (S idx <= j < S idx + length eps)%nat),
        (decide (idx <= j < idx + S (length eps))%nat); try lia; try done.
      rewrite lookup_cons_ne_0 by lia. f_equal. lia.
Qed.

(** ** What a transmission puts on the wire

    The message as the kernel reassembles it: label and length from the
    message-info word, registers 0-3 from the CPU registers, the others from
    word 6 on of the IPC buffer. *)
Definition wire_message (c : Syscall) (b : IpcBuffer) : TronaMsg :=
  mkMsg (msginfo_label (a1 c)) (msginfo_length (a1 c))
    ([a2 c; a3 c; a4 c; a5 c] ++ drop 6 (msg b)).

(** Same label, same length, same registers below the length. *)
Definition same_message (m m' : TronaMsg) : Prop :=
  label m = label m' /\ msg_length m = msg_length m' /\
  take (Z.to_nat (msg_length m)) (regs m) = take (Z.to_nat (msg_length m)) (regs m').

#[export] Instance same_message_equiv : Equivalence same_message.
Proof.
  unfold same_message. split.
  - by intros m.
  - intros m m' (-> & E & Ht). rewrite E in *. by rewrite Ht.
  - intros x y z (-> & E & Ht) (-> & E' & Ht'). rewrite E, E' in *. by rewrite Ht, Ht'.
Qed.

Record msg_wf (m : TronaMsg) : Prop := {
  mw_label : 0 <= label m < 2 ^ 40;
  mw_length : 0 <= msg_length m <= 32;
  mw_regs : length (regs m) = 32%nat;
}.

Record ctx_ready (c : option IpcContext) (b : IpcBuffer) (n : Z) : Prop := {
  cr_ctx : c = Some (mkCtx (Some b) n);
  cr_buf : buffer_wf b;
  cr_count : 0 <= n <= 4;
}.

(** The buffer at the time of the call. *)
Definition overflowed (m : TronaMsg) (b : IpcBuffer) : IpcBuffer :=
  default b (buffer_of (write_overflow_ctx (Some (mkCtx (Some b) 0)) m)).

Lemma write_overflow_ready m b n :
  write_overflow_ctx (Some (mkCtx (Some b) n)) m = Some (mkCtx (Some (overflowed m b)) n).
Proof. unfold overflowed, write_overflow_ctx. case_if; case_if; done. Qed.

Lemma overflowed_frame m b :
  caps (overflowed m b) = caps b /\ reserved (overflowed m b) = reserved b /\
  timeout_ns (overflowed m b) = timeout_ns b /\ badge (overflowed m b) = badge b /\
  (receive_cnode (overflowed m b), receive_index (overflowed m b), receive_depth (overflowed m b))
    = (receive_cnode b, receive_index b, receive_depth b) /\
  length (msg (overflowed m b)) = length (msg b).
Proof.
  unfold overflowed, write_overflow_ctx. case_if; case_if; cbn; rewrite ?length_copy_overflow; done.
Qed.

Lemma overflowed_wf m b : buffer_wf b -> buffer_wf (overflowed m b).
Proof.
  intros []. destruct (overflowed_frame m b) as (Hc & Hr & _ & _ & _ & Hm).
  split; congruence.
Qed.

Lemma overflowed_regs m b j :
  msg_wf m -> buffer_wf b -> (4 <= j < Z.to_nat (msg_length m))%nat ->
  msg (overflowed m b) !! (j + 2)%nat = regs m !! j.
Proof.
  intros [_ Hn Hr] [Hm _ _] Hj. unfold overflowed, write_overflow_ctx, as_u32.
  rewrite wrap_small by lia. rewrite Z.gtb_ltb.
  destruct (Z.ltb_spec 32 (msg_length m)); [lia|].
  destruct (Z.leb_spec (msg_length m) 4); [lia|]. cbn [buffer_of mbind option_bind ipc_buffer
    fmap option_fmap option_map from_option id set_msg msg].
  rewrite lookup_copy_overflow by lia. rewrite decide_True by lia.
  replace (j + 2 - 2)%nat with j by lia.
  destruct (lookup_lt_is_Some_2 (regs m) j ltac:(lia)) as [x ->]. done.
Qed.

(** The call a transmission issues. *)
Definition wire_call (nr dest n : Z) (m : TronaMsg) : Syscall :=
  mkCall nr dest (msginfo (label m) (msg_length m) (as_u64 n))
    (reg m 0) (reg m 1) (reg m 2) (reg m 3).

Lemma wire_message_same nr dest n m b :
  msg_wf m -> buffer_wf b -> 0 <= n <= 4 ->
  same_message m (wire_message (wire_call nr dest n m) (overflowed m b)).
Proof.
  intros Hm Hb Hn. pose proof Hm as [Hl Hlen Hr].
  unfold same_message, wire_message, wire_call. cbn [label msg_length regs a1 a2 a3 a4 a5].
  unfold as_u64. rewrite (wrap_small 64 n) by lia.
  rewrite msginfo_label_spec, msginfo_length_spec by lia.
  rewrite !Z.mod_small by lia. split_and!; [done..|].
  apply list_eq. intros j. destruct (decide (j < Z.to_nat (msg_length m))%nat) as [Hj|Hj].
  - rewrite !lookup_take_lt by done. unfold reg.
    destruct (decide (j < 4)%nat) as [H4|H4].
    + destruct (lookup_lt_is_Some_2 (regs m) j ltac:(lia)) as [x Hx].
      by destruct j as [|[|[|[|j]]]]; try lia; cbn; rewrite Hx.
    + rewrite lookup_app_r by (cbn; lia). rewrite lookup_drop.
      rewrite <- (overflowed_regs m b j) by (done || lia). f_equal. cbn. lia.
  - rewrite !lookup_take_ge by lia. done.
Qed.

(** The kernel writes arrays of the declared sizes into the buffer page. *)
Class KernelWf (K : Kernel) : Prop :=
  k_buffer_wf tr c b : buffer_wf b -> buffer_wf (k_buffer tr c b).

Definition clear_caps (n : Z) (b : IpcBuffer) : IpcBuffer :=
  if n >? 0 then set_caps b [0; 0; 0; 0] else b.

Lemma clear_send_caps_ready b n :
  buffer_wf b ->
  clear_send_caps_ctx (Some (mkCtx (Some b) n)) = Some (mkCtx (Some (set_caps b [0; 0; 0; 0])) 0).
Proof.
  intros [_ Hc _]. destruct b as [ms bd cs rc ri rd t rs]. cbn in Hc.
  destruct cs as [|x0 [|x1 [|x2 [|x3 [|? ?]]]]]; try done.
Qed.

Section spec.
Context `{K : Kernel} `{!KernelWf K}.

Lemma transmit_ready w nr dest m b n :
  ctx_ready (ctx w) b n ->
  let c := wire_call nr dest n m in
  transmit w nr dest m =
    (k_result (trace w) c (Some (overflowed m b)),
     mkWorld (trace w ++ [c])
       (Some (mkCtx (Some (clear_caps n (k_buffer (trace w) c (overflowed m b)))) 0))).
Proof.
  intros [Hc Hb Hn] c. unfold transmit, with_ctx. rewrite Hc, write_overflow_ready.
  cbn [caps_of send_cap_count]. unfold syscall. cbn [trace ctx buffer_of mbind option_bind ipc_buffer].
  f_equal. subst c. unfold wire_call, clear_caps, map_buffer. rewrite Z.gtb_ltb.
  destruct (Z.ltb_spec 0 n); cbn [ctx trace fmap option_fmap option_map ipc_buffer send_cap_count].
  - rewrite clear_send_caps_ready; [done|]. by apply k_buffer_wf, overflowed_wf.
  - by replace n with 0 by lia.
Qed.

(** The effect of a transmission that started in [w] from the ready context
    [(b, n)]: exactly one system call [c], made while the buffer was [b1];
    together they carry the message and the [n] staged capabilities, and
    afterwards nothing is staged any more. *)
Definition transmitted (w w' : World) (b : IpcBuffer) (n nr dest : Z) (m : TronaMsg) : Prop :=
  exists c b1,
    trace w' = trace w ++ [c] /\ num c = nr /\ a0 c = dest /\
    same_message m (wire_message c b1) /\
    msginfo_extracaps (a1 c) = n /\ caps b1 = caps b /\
    ctx w' = Some (mkCtx (Some (clear_caps n (k_buffer (trace w) c b1))) 0).

Lemma transmit_transmitted w nr dest m b n :
  msg_wf m -> ctx_ready (ctx w) b n -> transmitted w (snd (transmit w nr dest m)) b n nr dest m.
Proof.
  intros Hm Hr. rewrite (transmit_ready w nr dest m b n Hr). destruct Hr as [_ Hb Hn].
  exists (wire_call nr dest n m), (overflowed m b). split_and!; try done.
  - by apply wire_message_same.
  - cbn. rewrite msginfo_extracaps_spec; unfold as_u64; rewrite wrap_small; lia.
  - apply overflowed_frame.
Qed.

Lemma stage_timeout_ready c b n t :
  ctx_ready c b n -> ctx_ready (stage_timeout c t) (set_timeout b t) n.
Proof. intros [-> [] ?]. split; [done|by split|done]. Qed.

(** every sending operation makes exactly one system call, of its own
    number, to the given endpoint; the call's registers together with the IPC
    buffer at that moment reassemble to the caller's label, length and
    registers (up to the length, overflow registers included) and announce
    exactly the staged capabilities; and whatever the kernel answers, no
    capability stays staged for a later send. *)
Theorem ipc_transmit_spec w b n m ep t preply pmsg pbadge :
  msg_wf m -> ctx_ready (ctx w) b n ->
  transmitted w (snd (send_ctx w ep m)) b n SYS_SEND ep m /\
  transmitted w (snd (nbsend_ctx w ep m)) b n SYS_NBSEND ep m /\
  transmitted w (snd (call_ctx w ep m preply)) b n SYS_CALL ep m /\
  transmitted w (snd (reply_recv_ctx w ep m pmsg pbadge)) b n SYS_REPLY_RECV ep m /\
  transmitted w (snd (send_timed_ctx w ep m t)) (set_timeout b t) n SYS_SEND_TIMED ep m.
Proof.
  intros Hm Hr. unfold send_ctx, nbsend_ctx, call_ctx, reply_recv_ctx, send_timed_ctx, finish_recv.
  split_and!;
    match goal with |- transmitted _ (snd (let '(_, _) := transmit ?w1 ?nr ?d ?m in _)) ?b1 ?n1 _ _ _ =>
      assert (transmitted w1 (snd (transmit w1 nr d m)) b1 n1 nr d m) as HT
        by (apply transmit_transmitted; [done|]; by try apply stage_timeout_ready);
      destruct (transmit w1 nr d m) as [r w2]; try case_if; exact HT
    end.
Qed.
End spec.

(** A kernel that answers every call with success and, on a receive, delivers
    a fixed message into the caller's buffer. *)
Definition DeliveringKernel (m : TronaMsg) (bdg : Z) : Kernel := {|
  k_result _ _ _ := mkResult 0 bdg;
  k_buffer _ _ b := set_msg b (label m :: msg_length m :: take 32 (regs m ++ replicate 32 0));
|}.

#[export] Instance DeliveringKernel_wf m bdg : KernelWf (DeliveringKernel m bdg).
Proof.
  intros tr c b [Hm Hc Hr]. split; try done. cbn [k_buffer DeliveringKernel set_msg msg length].
  rewrite length_take, length_app, length_replicate. lia.
Qed.

Definition empty_buffer : IpcBuffer :=
  mkBuffer (replicate 34 0) 0 (replicate 4 0) 0 0 0 0 (replicate 465 0).

Lemma empty_buffer_wf : buffer_wf empty_buffer.
Proof. by split. Qed.

Definition sample_msg : TronaMsg := mkMsg 0x301 6 ([11; 12; 13; 14; 15; 16] ++ replicate 26 0).

Lemma sample_msg_wf : msg_wf sample_msg.
Proof. split; cbn; try done; lia. Qed.

Definition sample_world : World :=
  mkWorld [] (set_send_cap_ctx (Some (mkCtx (Some empty_buffer) 0)) 0 77).

Lemma sample_world_ready :
  ctx_ready (ctx sample_world) (set_caps empty_buffer [77; 0; 0; 0]) 1.
Proof. split; [done|by split|lia]. Qed.

Lemma ipc_transmit_spec_witness :
  transmitted (K := DeliveringKernel sample_msg 9) sample_world
    (snd (send_ctx (H := DeliveringKernel sample_msg 9) sample_world 5 sample_msg))
    (set_caps empty_buffer [77; 0; 0; 0]) 1 SYS_SEND 5 sample_msg.
Proof.
  apply (ipc_transmit_spec (K := DeliveringKernel sample_msg 9) sample_world
    (set_caps empty_buffer [77; 0; 0; 0]) 1 sample_msg 5 0 None None None
    sample_msg_wf sample_world_ready).
Defined.

(** What the kernel promises the receiver of a message that was sent by call
    [c] from buffer [b1]: the receive succeeds with the sender's badge and the
    reassembled message is in the receiver's buffer. *)
Definition delivers (Kr : Kernel) (wr : World) (ep : Z) (br : IpcBuffer)
    (c : Syscall) (b1 : IpcBuffer) (bdg : Z) : Prop :=
  let rc := mkCall SYS_RECV ep 0 0 0 0 0 in
  k_result (trace wr) rc (Some br) = mkResult 0 bdg /\
  buffer_as_msg (k_buffer (trace wr) rc br) = wire_message c b1.


Definition sample_delivered : TronaMsg :=
  wire_message (wire_call SYS_SEND 5 1 sample_msg)
    (overflowed sample_msg (set_caps empty_buffer [77; 0; 0; 0])).


(** ** Receiving from several endpoints *)

(** The arguments [stage_recv_any_endpoints_ctx] accepts. *)
Definition any_args_ok (c : option IpcContext) (endpoints : option (list Z)) (count : nat) : Prop :=
  is_Some (buffer_of c) /\ is_Some endpoints /\ (0 < count <= IPC_BUFFER_RESERVED_WORDS)%nat.

Lemma stage_recv_any_reject c eps count :
  ~ any_args_ok c eps count -> stage_recv_any_endpoints_ctx c eps count = None.
Proof.
  unfold any_args_ok, stage_recv_any_endpoints_ctx. intros Hno.
  destruct c as [c|], eps as [eps|]; try done.
  destruct (Nat.eqb_spec count 0); [done|]. cbn in Hno. destruct (ipc_buffer c); [|done].
  destruct (Nat.ltb_spec IPC_BUFFER_RESERVED_WORDS count); [done|].
  exfalso. apply Hno. split_and!; [done..|lia|lia].
Qed.

(** The buffer with [eps] staged: its reserved words start with the endpoints,
    the others and all other fields are untouched. *)
Definition endpoints_staged (b b1 : IpcBuffer) (eps : list Z) : Prop :=
  take (length eps) (reserved b1) = eps /\
  drop (length eps) (reserved b1) = drop (length eps) (reserved b) /\
  set_reserved b1 [] = set_reserved b [].

Lemma stage_recv_any_accept c b n eps count :
  c = Some (mkCtx (Some b) n) -> buffer_wf b ->
  (0 < count <= IPC_BUFFER_RESERVED_WORDS)%nat -> (count <= length eps)%nat ->
  exists b1, stage_recv_any_endpoints_ctx c (Some eps) count = Some (Some (mkCtx (Some b1) n)) /\
    endpoints_staged b b1 (take count eps).
Proof.
  intros -> [_ _ Hr] Hc He. unfold stage_recv_any_endpoints_ctx. cbn [ipc_buffer send_cap_count].
  destruct (Nat.eqb_spec count 0); [lia|].
  destruct (Nat.ltb_spec IPC_BUFFER_RESERVED_WORDS count); [lia|].
  eexists. split; [done|]. unfold endpoints_staged. cbn [reserved set_reserved].
  assert (length (take count eps) = count) as Hl by (rewrite length_take; lia).
  rewrite Hl. split_and!; [| |done]; apply list_eq; intros j.
  - destruct (decide (j < count)%nat).
    + rewrite lookup_take_lt by done. rewrite lookup_stage_endpoints by lia.
      rewrite decide_True by lia. by rewrite Nat.sub_0_r.
    + rewrite lookup_take_ge by lia. symmetry. apply lookup_ge_None. lia.
  - rewrite !lookup_drop, lookup_stage_endpoints by lia. by rewrite decide_False by lia.
Qed.

(** [recv_any_ctx] rejects a null context, buffer or endpoint array, an
    empty array and one longer than the reserved area with
    TRONA_INVALID_ARGUMENT, writing no cell and making no system call;
    otherwise the one call it makes sees exactly the first [count] endpoints
    in the reserved words, and on success source, badge and message are the
    kernel's, while a kernel error leaves all three cells alone. *)
Theorem recv_any_spec `{K : Kernel} w eps count pmsg pbadge psource :
  (~ any_args_ok (ctx w) eps count ->
   recv_any_ctx w eps count pmsg pbadge psource =
     (TRONA_INVALID_ARGUMENT, pmsg, pbadge, psource, w)) /\
  (forall b n es, ctx w = Some (mkCtx (Some b) n) -> buffer_wf b -> eps = Some es ->
   (0 < count <= IPC_BUFFER_RESERVED_WORDS)%nat -> (count <= length es)%nat ->
   let c := mkCall SYS_RECV_ANY (Z.of_nat count) 0 0 0 0 0 in
   exists b1, endpoints_staged b b1 (take count es) /\
     let r := k_result (trace w) c (Some b1) in
     let b2 := k_buffer (trace w) c b1 in
     recv_any_ctx w eps count pmsg pbadge psource =
       (as_i32 (error r),
        (if error r =? 0 then store pmsg (buffer_as_msg b2) else pmsg),
        (if error r =? 0 then store pbadge (badge b2) else pbadge),
        (if error r =? 0 then store psource (value r) else psource),
        mkWorld (trace w ++ [c]) (Some (mkCtx (Some b2) n)))).
Proof.
  split.
  - intros Hno. unfold recv_any_ctx. by rewrite stage_recv_any_reject.
  - intros b n es Hc Hb -> Hn He c.
    destruct (stage_recv_any_accept _ b n es count Hc Hb Hn He) as (b1 & Hs & Hst).
    exists b1. split; [done|]. intros r b2. unfold recv_any_ctx. rewrite Hs.
    unfold with_ctx, syscall, finish_recv_any, store_msg, store_badge, map_buffer.
    cbn [ctx trace buffer_of mbind option_bind ipc_buffer fmap option_fmap option_map send_cap_count].
    fold c. fold r. fold b2. by destruct (error r =? 0).
Qed.

Lemma recv_any_spec_witness :
  let K := DeliveringKernel sample_msg 9 in
  recv_any_ctx (H := K) (mkWorld [] None) (Some [4]) 1 None None None
    = (TRONA_INVALID_ARGUMENT, None, None, None, mkWorld [] None) /\
  exists b1, endpoints_staged empty_buffer b1 [4; 8].
Proof.
  intros K. split.
  - apply (recv_any_spec (K := K) (mkWorld [] None) (Some [4]) 1 None None None).
    intros ([? ?] & _). done.
  - destruct (recv_any_spec (K := K) (mkWorld [] (Some (mkCtx (Some empty_buffer) 0)))
      (Some [4; 8]) 2 None None None) as [_ Hok].
    destruct (Hok empty_buffer 0 [4; 8] eq_refl empty_buffer_wf eq_refl) as (b1 & Hb1 & _);
      [unfold IPC_BUFFER_RESERVED_WORDS; lia | cbn; lia |].
    exists b1. exact Hb1.
Defined.
