(* ===== verification/Pending.v ===== *)
(** The table of deferred requests of an event-loop server,
    [src/substrate/pending.rs]: [PendingTable<N>] with its fixed array of
    entries and its wrapping request counter. *)

From S2P Require Import Prelude.

Inductive WaitReason := Free | DownstreamCall | AsyncCallback | Timer.

Record PendingRequest := mkReq {
  active : Z;
  wait_reason : WaitReason;
  request_id : Z;
  reply_slot : Z;
  recv_slot : Z;
  client_badge : Z;
  orig_label : Z;
  context : list Z;
  deadline_ns : Z;
}.

Definition PendingRequest_zeroed : PendingRequest :=
  mkReq 0 Free 0 0 0 0 0 [0; 0; 0; 0] 0.

Record PendingTable := mkTable { entries : list PendingRequest; next_id : Z }.

Definition PendingTable_new (N : nat) : PendingTable :=
  mkTable (replicate N PendingRequest_zeroed) 1.

Definition is_active (e : PendingRequest) : bool := negb (active e =? 0).

(** The successor of a request id: [wrapping_add(1)], skipping the reserved 0. *)
Definition succ_id (id : Z) : Z :=
  let n := wrap 32 (id + 1) in if n =? 0 then 1 else n.

(** [for entry in entries.iter_mut() { if p(entry) { *entry = new; return } }]:
    the first entry satisfying [p] is handed out and replaced. *)
Fixpoint replace_first (p : PendingRequest -> bool) (new : PendingRequest)
    (es : list PendingRequest) : option (PendingRequest * list PendingRequest) :=
  match es with
  | [] => None
  | e :: rest =>
      if p e then Some (e, new :: rest)
      else match replace_first p new rest with
           | Some (old, rest') => Some (old, e :: rest')
           | None => None
           end
  end.

Definition alloc (t : PendingTable) (reply recv badge lbl : Z) (reason : WaitReason)
    : Z * PendingTable :=
  let id := next_id t in
  match replace_first (fun e => active e =? 0)
          (mkReq 1 reason id reply recv badge lbl [0; 0; 0; 0] 0) (entries t) with
  | Some (_, es) => (id, mkTable es (succ_id id))
  | None => (0, t)
  end.

Definition ctx_word (e : PendingRequest) (i : nat) : Z := default 0 (context e !! i).

(** [find_by] returns a mutable reference: the index and the entry it points to. *)
Definition find_by (p : PendingRequest -> bool) (t : PendingTable) : option (nat * PendingRequest) :=
  list_find (fun e => is_active e && p e = true) (entries t).

Definition find_by_id (t : PendingTable) (id : Z) : option (nat * PendingRequest) :=
  find_by (fun e => request_id e =? id) t.

Definition complete_if (p : PendingRequest -> bool) (t : PendingTable)
    : option PendingRequest * PendingTable :=
  match replace_first (fun e => is_active e && p e) PendingRequest_zeroed (entries t) with
  | Some (e, es) => (Some e, mkTable es (next_id t))
  | None => (None, t)
  end.

Definition complete (t : PendingTable) (id : Z) : option PendingRequest * PendingTable :=
  complete_if (fun e => request_id e =? id) t.

Definition complete_by_context (t : PendingTable) (c0 c1 : Z) : option PendingRequest * PendingTable :=
  complete_if (fun e => (ctx_word e 0 =? c0) && (ctx_word e 1 =? c1)) t.

Definition iter_active (t : PendingTable) : list PendingRequest := List.filter is_active (entries t).

Definition count (t : PendingTable) : nat := length (iter_active t).

Definition has_capacity (t : PendingTable) : bool := existsb (fun e => active e =? 0) (entries t).

Definition get (t : PendingTable) (i : nat) : option PendingRequest :=
  match entries t !! i with
  | Some e => if is_active e then Some e else None
  | None => None
  end.

(** One turn of the minimum loop of [nearest_deadline]. *)
Definition deadline_step (m : Z) (e : PendingRequest) : Z :=
  if is_active e && negb (deadline_ns e =? 0) && (deadline_ns e <? m) then deadline_ns e else m.

Definition nearest_deadline (t : PendingTable) : Z :=
  fold_left deadline_step (entries t) U64_MAX.

(** ** Lemmas *)

Definition active_ids (t : PendingTable) : list Z := map request_id (iter_active t).

Lemma replace_first_Some p new es old es' :
  replace_first p new es = Some (old, es') ->
  exists l1 l2, es = l1 ++ old :: l2 /\ es' = l1 ++ new :: l2 /\ p old = true /\
    Forall (fun e => p e = false) l1.
Proof.
  revert es'. induction es as [|e es IH]; intros es' H; simpl in H; [done|].
  destruct (p e) eqn:E.
  - injection H as <- <-. by exists [], es.
  - destruct (replace_first p new es) as [[o r]|]; [|done]. injection H as <- <-.
    destruct (IH r eq_refl) as (l1 & l2 & -> & -> & Hp & Hf).
    exists (e :: l1), l2. split; [done|]. split; [done|]. split; [done|]. by constructor.
Qed.

Lemma replace_first_None p new es :
  replace_first p new es = None <-> Forall (fun e => p e = false) es.
Proof.
  induction es as [|e es IH]; simpl; [split; [constructor|done]|].
  destruct (p e) eqn:E.
  - split; [done|]. rewrite Forall_cons. by intros [? _]; congruence.
  - rewrite Forall_cons, <- IH. destruct (replace_first p new es) as [[]|]; [split; [done|by intros [_ ?]]|done].
Qed.

Lemma replace_first_split p new l1 old l2 :
  Forall (fun e => p e = false) l1 -> p old = true ->
  replace_first p new (l1 ++ old :: l2) = Some (old, l1 ++ new :: l2).
Proof.
  intros Hf Hp. induction l1 as [|e l1 IH]; simpl; [by rewrite Hp|].
  apply Forall_cons in Hf as [-> Hf]. by rewrite IH.
Qed.

(** An allocation hits the first inactive entry. *)
Lemma alloc_cases t reply recv badge lbl reason :
  (exists l1 o l2, entries t = l1 ++ o :: l2 /\ is_active o = false /\
     Forall (fun e => is_active e = true) l1 /\
     alloc t reply recv badge lbl reason =
       (next_id t, mkTable (l1 ++ mkReq 1 reason (next_id t) reply recv badge lbl [0; 0; 0; 0] 0 :: l2)
                     (succ_id (next_id t)))) \/
  (Forall (fun e => is_active e = true) (entries t) /\
   alloc t reply recv badge lbl reason = (0, t)).
Proof.
  unfold alloc, is_active. destruct (replace_first _ _ _) as [[o es]|] eqn:E.
  - left. apply replace_first_Some in E as (l1 & l2 & He & -> & Hp & Hf).
    exists l1, o, l2. split; [done|]. split; [by rewrite Hp|]. split; [|done].
    eapply Forall_impl; [exact Hf|]. simpl. by intros e ->.
  - right. apply replace_first_None in E. split; [|done].
    eapply Forall_impl; [exact E|]. simpl. by intros e ->.
Qed.

Lemma filter_none {A} (p : A -> bool) l : Forall (fun e => p e = false) l -> List.filter p l = [].
Proof. induction 1 as [|x l Hx _ IH]; simpl; [done|]. by rewrite Hx. Qed.

Lemma filter_all {A} (p : A -> bool) l : Forall (fun e => p e = true) l -> List.filter p l = l.
Proof. induction 1 as [|x l Hx _ IH]; simpl; [done|]. by rewrite Hx, IH. Qed.

Lemma succ_id_range id : 1 <= id < 2 ^ 32 -> 1 <= succ_id id < 2 ^ 32.
Proof.
  intros H. unfold succ_id. pose proof (wrap_range 32 (id + 1) ltac:(lia)). case_if; lia.
Qed.

Lemma succ_id_small id : 1 <= id < U32_MAX -> succ_id id = id + 1.
Proof. unfold U32_MAX. intros H. unfold succ_id. rewrite wrap_small by lia. case_if; lia. Qed.

(** ** Histories of the table *)

(** The operations that change a table; [OpUpdate] is a write through the
    reference returned by [find_by_id] to the fields servers set there. *)
Inductive op :=
| OpAlloc (reply recv badge lbl : Z) (reason : WaitReason)
| OpComplete (id : Z)
| OpCompleteCtx (c0 c1 : Z)
| OpUpdate (id : Z) (ctx : list Z) (deadline : Z).

Definition set_fields (e : PendingRequest) (c : list Z) (d : Z) : PendingRequest :=
  mkReq (active e) (wait_reason e) (request_id e) (reply_slot e) (recv_slot e)
    (client_badge e) (orig_label e) c d.

Definition run_op (t : PendingTable) (o : op) : PendingTable :=
  match o with
  | OpAlloc a b c d r => snd (alloc t a b c d r)
  | OpComplete id => snd (complete t id)
  | OpCompleteCtx c0 c1 => snd (complete_by_context t c0 c1)
  | OpUpdate id c d =>
      match find_by_id t id with
      | Some (i, e) => mkTable (<[i := set_fields e c d]> (entries t)) (next_id t)
      | None => t
      end
  end.

Definition is_alloc (o : op) : bool := match o with OpAlloc _ _ _ _ _ => true | _ => false end.
Definition allocs (os : list op) : nat := length (List.filter is_alloc os).

(** Live ids are distinct and below the counter. *)
Record ids_ok (t : PendingTable) : Prop := {
  ids_nodup : NoDup (active_ids t);
  ids_range : forall id, id ∈ active_ids t -> 1 <= id < next_id t;
  ids_next : 1 <= next_id t <= U32_MAX;
}.

Lemma active_ids_app l1 e l2 n :
  active_ids (mkTable (l1 ++ e :: l2) n) =
    map request_id (List.filter is_active l1) ++
    (if is_active e then [request_id e] else []) ++ map request_id (List.filter is_active l2).
Proof.
  unfold active_ids, iter_active. simpl. rewrite List.filter_app. simpl.
  destruct (is_active e); by rewrite map_app.
Qed.

Lemma alloc_ids_ok t a b c d r :
  ids_ok t -> next_id t < U32_MAX -> ids_ok (snd (alloc t a b c d r)).
Proof.
  intros [Hn Hr Hx] Hlt.
  destruct (alloc_cases t a b c d r) as [(l1 & o & l2 & He & Ho & _ & ->)|[_ ->]]; [|done].
  destruct t as [es n]. simpl in *. subst es.
  rewrite (active_ids_app l1 o l2 n) in Hn, Hr. rewrite Ho in Hn, Hr. simpl in Hn, Hr.
  rewrite succ_id_small by lia.
  split.
  - rewrite active_ids_app. simpl. rewrite NoDup_app in *. destruct Hn as (H1 & H2 & H3).
    split; [done|]. rewrite NoDup_cons. split; [|split; [|done]].
    + intros x Hx1 [->|Hx2]%elem_of_cons; [|by eapply H2].
      specialize (Hr n ltac:(apply elem_of_app; by left)). lia.
    + intros Hin. specialize (Hr n ltac:(apply elem_of_app; by right)). lia.
  - rewrite active_ids_app. simpl. intros id [Hin|[->|Hin]%elem_of_cons]%elem_of_app.
    + specialize (Hr id ltac:(apply elem_of_app; by left)). lia.
    + lia.
    + specialize (Hr id ltac:(apply elem_of_app; by right)). lia.
  - simpl. lia.
Qed.

Lemma complete_if_ids_ok p t : ids_ok t -> ids_ok (snd (complete_if p t)).
Proof.
  intros [Hn Hr Hx]. unfold complete_if. destruct (replace_first _ _ _) as [[e es]|] eqn:E; [|done].
  apply replace_first_Some in E as (l1 & l2 & He & -> & Hp & _).
  apply andb_true_iff in Hp as [Ha _].
  destruct t as [es0 n]. simpl in *. subst es0.
  rewrite (active_ids_app l1 e l2 n), Ha in Hn, Hr.
  assert (sublist (map request_id (List.filter is_active l1) ++ map request_id (List.filter is_active l2))
    (map request_id (List.filter is_active l1) ++ [request_id e] ++ map request_id (List.filter is_active l2))) as Hs.
  { apply sublist_app; [done|]. simpl. by constructor. }
  split; [| |done]; rewrite active_ids_app; simpl.
  - by eapply sublist_NoDup.
  - intros id Hid. apply Hr. rewrite !elem_of_app in *. tauto.
Qed.

Lemma run_op_ids_ok t o :
  ids_ok t -> (is_alloc o = true -> next_id t < U32_MAX) ->
  ids_ok (run_op t o) /\
  next_id (run_op t o) <= next_id t + (if is_alloc o then 1 else 0).
Proof.
  intros Hi Hlt. destruct o as [a b c d r|id|c0 c1|id c d]; simpl.
  - split; [by apply alloc_ids_ok; auto|].
    destruct (alloc_cases t a b c d r) as [(l1 & o & l2 & _ & _ & _ & ->)|[_ ->]]; simpl; [|lia].
    rewrite succ_id_small; [lia|]. pose proof (ids_next _ Hi). specialize (Hlt eq_refl). lia.
  - split; [by apply complete_if_ids_ok|]. unfold complete, complete_if.
    destruct (replace_first _ _ _) as [[]|]; simpl; lia.
  - split; [by apply complete_if_ids_ok|]. unfold complete_by_context, complete_if.
    destruct (replace_first _ _ _) as [[]|]; simpl; lia.
  - destruct (find_by_id t id) as [[i e]|] eqn:E; [|simpl; lia || (split; [done|lia])].
    split; [|simpl; lia]. unfold find_by_id, find_by in E. apply list_find_Some in E as (He & Hp & _).
    apply andb_true_iff in Hp as [Ha _].
    assert (active_ids (mkTable (<[i:=set_fields e c d]> (entries t)) (next_id t)) = active_ids t) as Eids.
    { unfold active_ids, iter_active. simpl. clear -He Ha. revert i He.
      induction (entries t) as [|x l IH]; intros [|i] He; simplify_eq/=.
      - change (is_active (set_fields e c d)) with (is_active e). by rewrite Ha.
      - destruct (is_active x); simpl; by rewrite IH. }
    destruct Hi as [H1 H2 H3]. by split; rewrite ?Eids.
Qed.

Lemma run_ids_ok os : forall t,
  ids_ok t -> next_id t + Z.of_nat (allocs os) <= U32_MAX ->
  ids_ok (fold_left run_op os t).
Proof.
  induction os as [|o os IH]; intros t Hi Hb; [done|]. cbn [fold_left].
  unfold allocs in *. cbn [List.filter] in Hb.
  destruct (run_op_ids_ok t o Hi) as [Hi' Hn].
  { intros E. rewrite E in Hb. simpl in Hb. lia. }
  apply IH; [done|]. destruct (is_alloc o); cbn [length] in Hb; lia.
Qed.

Lemma new_ids_ok N : ids_ok (PendingTable_new N).
Proof.
  assert (active_ids (PendingTable_new N) = []) as E.
  { unfold active_ids, iter_active. simpl. rewrite filter_none; [done|]. by apply Forall_replicate. }
  split; rewrite ?E; [constructor|intros id Hid; by apply not_elem_of_nil in Hid|].
  simpl. unfold U32_MAX. lia.
Qed.

(** A request with a deadline that counts for [nearest_deadline]. *)
Definition has_deadline (e : PendingRequest) : Prop := is_active e = true /\ deadline_ns e <> 0.

Lemma deadline_step_spec m e :
  deadline_step m e <= m /\ (has_deadline e -> deadline_step m e <= deadline_ns e) /\
  (deadline_step m e = m \/ (has_deadline e /\ deadline_step m e = deadline_ns e)).
Proof.
  unfold deadline_step, has_deadline.
  destruct (is_active e) eqn:Ea; cbn [andb]; [|split; [lia|]; split; [by intros []|by left]].
  destruct (Z.eqb_spec (deadline_ns e) 0); cbn [negb andb];
    [split; [lia|]; split; [by intros []|by left]|].
  destruct (Z.ltb_spec (deadline_ns e) m); (split; [lia|]; split; [lia|]); [by right|by left].
Qed.

Lemma deadline_fold l : forall m,
  fold_left deadline_step l m <= m /\
  (forall e, e ∈ l -> has_deadline e -> fold_left deadline_step l m <= deadline_ns e) /\
  (fold_left deadline_step l m = m \/
   exists e, e ∈ l /\ has_deadline e /\ fold_left deadline_step l m = deadline_ns e).
Proof.
  induction l as [|x l IH]; intros m; cbn [fold_left].
  - split; [lia|]. split; [intros e He; by apply not_elem_of_nil in He|by left].
  - destruct (deadline_step_spec m x) as (H1 & H2 & H3).
    destruct (IH (deadline_step m x)) as (I1 & I2 & I3). split; [lia|]. split.
    + intros e [->|Hin]%elem_of_cons He; [specialize (H2 He); lia|by apply I2].
    + destruct I3 as [->|(e & Hin & He)]; [|right; exists e; split; [by right|done]].
      destruct H3 as [->|[Hx ->]]; [by left|]. right. exists x. split; [left|done].
Qed.

(** ** Properties *)

(** request ids: along any history of a table from [new] with fewer than
    2^32 - 1 allocations, the ids of the live requests are pairwise distinct,
    never 0 and below the counter, so [complete] and [find_by_id] are unambiguous. *)
Theorem pending_ids_unique (N : nat) (os : list op)
    (Hb : Z.of_nat (allocs os) < U32_MAX) :
  ids_ok (fold_left run_op os (PendingTable_new N)).
Proof. apply run_ids_ok; [apply new_ids_ok|]. simpl. lia. Qed.

Lemma pending_ids_unique_witness :
  active_ids (fold_left run_op [OpAlloc 10 11 5 6 Timer; OpAlloc 12 13 5 7 Timer; OpComplete 1;
                                OpAlloc 14 15 5 8 AsyncCallback] (PendingTable_new 2)) = [3; 2] /\
  ids_ok (fold_left run_op [OpAlloc 10 11 5 6 Timer; OpAlloc 12 13 5 7 Timer; OpComplete 1;
                            OpAlloc 14 15 5 8 AsyncCallback] (PendingTable_new 2)).
Proof. split; [reflexivity|]. apply pending_ids_unique. vm_compute. reflexivity. Defined.

(** a full life cycle: [alloc] returns 0 and changes nothing exactly when no slot
    is free; otherwise it returns a non-zero id, and as long as no live request had
    that id, [complete] of it returns the request exactly as given (zero context, no
    deadline) and leaves the same active requests as before the allocation. *)
Theorem pending_alloc_complete (t : PendingTable) (reply recv badge lbl : Z) (reason : WaitReason)
    (Hid : 1 <= next_id t < 2 ^ 32) (Hfresh : next_id t ∉ active_ids t) :
  let '(id, t') := alloc t reply recv badge lbl reason in
  if has_capacity t then
    id = next_id t /\ count t' = S (count t) /\
    let '(r, t'') := complete t' id in
    r = Some (mkReq 1 reason id reply recv badge lbl [0; 0; 0; 0] 0) /\
    iter_active t'' = iter_active t /\ length (entries t'') = length (entries t)
  else id = 0 /\ t' = t /\ count t = length (entries t).
Proof.
  unfold has_capacity, count.
  destruct (alloc_cases t reply recv badge lbl reason) as [(l1 & o & l2 & He & Ho & Hl1 & ->)|[Hall ->]].
  - assert (existsb (fun e => active e =? 0) (entries t) = true) as ->.
    { apply existsb_exists. exists o. rewrite He. split; [apply in_elt|].
      unfold is_active in Ho. by apply negb_false_iff. }
    assert (iter_active t = List.filter is_active l1 ++ List.filter is_active l2) as Eit.
    { unfold iter_active. rewrite He, List.filter_app. simpl. by rewrite Ho. }
    split; [done|]. split.
    { rewrite Eit. unfold iter_active. simpl. rewrite List.filter_app, !length_app. simpl. lia. }
    unfold complete, complete_if. cbn [entries next_id].
    rewrite replace_first_split.
    + split; [done|]. split; [|rewrite He; cbn [entries]; rewrite !length_app; reflexivity].
      rewrite Eit. unfold iter_active. cbn [entries]. rewrite List.filter_app. reflexivity.
    + apply Forall_forall. intros e Hin.
      destruct (is_active e) eqn:Ea; [|done]. simpl. apply Z.eqb_neq. intros Eid.
      apply Hfresh. unfold active_ids. rewrite Eit, <- Eid.
      apply list_elem_of_In, in_map, in_or_app. left. apply filter_In.
      split; [by apply list_elem_of_In|done].
    + simpl. apply Z.eqb_refl.
  - destruct (existsb _ _) eqn:Ex.
    { apply existsb_exists in Ex as (e & Hin%list_elem_of_In & Ha).
      rewrite Forall_forall in Hall. apply Hall in Hin. unfold is_active in Hin. by rewrite Ha in Hin. }
    split; [done|]. split; [done|]. unfold iter_active. by rewrite filter_all.
Qed.

Lemma pending_alloc_complete_witness :
  fst (complete (snd (alloc (PendingTable_new 2) 10 11 5 6 Timer)) 1) =
    Some (mkReq 1 Timer 1 10 11 5 6 [0; 0; 0; 0] 0) /\
  (let '(id, t') := alloc (PendingTable_new 2) 10 11 5 6 Timer in
   if has_capacity (PendingTable_new 2) then
     id = next_id (PendingTable_new 2) /\ count t' = S (count (PendingTable_new 2)) /\
     let '(r, t'') := complete t' id in
     r = Some (mkReq 1 Timer id 10 11 5 6 [0; 0; 0; 0] 0) /\
     iter_active t'' = iter_active (PendingTable_new 2) /\
     length (entries t'') = length (entries (PendingTable_new 2))
   else id = 0 /\ t' = PendingTable_new 2 /\
        count (PendingTable_new 2) = length (entries (PendingTable_new 2))).
Proof.
  split; [reflexivity|].
  apply (pending_alloc_complete (PendingTable_new 2) 10 11 5 6 Timer); [simpl; lia|].
  vm_compute. intros H. inversion H.
Defined.

(** [nearest_deadline] is the least non-zero deadline of the active requests, and
    [u64::MAX] when there is none. *)
Lemma nearest_deadline_min (t : PendingTable) :
  (forall e, e ∈ entries t -> has_deadline e -> nearest_deadline t <= deadline_ns e) /\
  (nearest_deadline t = U64_MAX \/
   exists e, e ∈ entries t /\ has_deadline e /\ nearest_deadline t = deadline_ns e).
Proof.
  destruct (deadline_fold (entries t) U64_MAX) as (_ & Hle & Hex). split; [exact Hle|exact Hex].
Qed.
