(* ===== verification/CapTable.v ===== *)
(** The startup capability table, [src/substrate/cap_table.rs]: the spawner's
    [CapTableBuilder] with its serialisation into a scratch page, and the
    reader side that validates, searches and installs the table. *)

From S2P Require Import Prelude Consts.

Definition AT_TRONA_CAP_TABLE : Z := 0x101C.
Definition TRONA_CAP_TABLE_MAGIC : Z := 0x43544153.
Definition TRONA_CAP_TABLE_VERSION : Z := 1.

Definition ROLE_PROCMGR_CONTROL : Z := 0x0001.
Definition ROLE_SERVICE_EP : Z := 0x0002.
Definition ROLE_NAMESRV_CLIENT : Z := 0x0003.
Definition ROLE_VFS_CLIENT : Z := 0x0004.
Definition ROLE_MMSRV_CLIENT : Z := 0x0005.
Definition ROLE_MMSRV_AUTHORITY_RAW : Z := 0x0006.
Definition ROLE_RSRCSRV_CLIENT : Z := 0x0007.
Definition ROLE_RSRCSRV_AUTHORITY_RAW : Z := 0x0008.
Definition ROLE_CONSOLE_CLIENT : Z := 0x0009.
Definition ROLE_SIGNAL_NTFN : Z := 0x000A.
Definition ROLE_READINESS_NTFN : Z := 0x000B.
Definition ROLE_INITRD_UNTYPED : Z := 0x000C.
Definition ROLE_FB_UNTYPED : Z := 0x000D.
Definition ROLE_PCI_IOPORT : Z := 0x000E.
Definition ROLE_COM1_IOPORT : Z := 0x000F.
Definition ROLE_WIN32SRV_CLIENT : Z := 0x0010.
Definition ROLE_CSPACE_NTFN : Z := 0x0011.
Definition ROLE_SC_CAP : Z := 0x0012.

(** ** Data *)

Record TronaCapEntryV1 := mkEntry { role_id : Z; slot : Z; rights : Z; flags : Z }.
Definition TronaCapEntryV1_zeroed : TronaCapEntryV1 := mkEntry 0 0 0 0.

Definition SIZEOF_ENTRY : nat := 16.
Definition SIZEOF_TABLE : nat := 16.
Definition MAX_CAP_TABLE_ENTRIES : nat := 32.

Inductive CapTableErr := Overflow | SlotOutOfRange.

Record CapTableBuilder := mkBuilder { b_entries : list TronaCapEntryV1; b_count : nat }.

Definition CapTableBuilder_new : CapTableBuilder :=
  mkBuilder (replicate MAX_CAP_TABLE_ENTRIES TronaCapEntryV1_zeroed) 0.

(** ** Builder side *)

(** [Result<(), CapTableErr>] with the updated builder. *)
Definition push (b : CapTableBuilder) (role sl rts fls : Z) : (unit + CapTableErr) * CapTableBuilder :=
  if sl =? 0 then (inl tt, b)
  else if U32_MAX <? sl then (inr SlotOutOfRange, b)
  else if (MAX_CAP_TABLE_ENTRIES <=? b_count b)%nat then (inr Overflow, b)
  else (inl tt, mkBuilder (<[b_count b := mkEntry role (as_u32 sl) rts fls]> (b_entries b))
                  (S (b_count b))).

Definition byte_len (b : CapTableBuilder) : nat := (SIZEOF_TABLE + b_count b * SIZEOF_ENTRY)%nat.

Definition entry_bytes (e : TronaCapEntryV1) : list Z :=
  le_bytes 4 (role_id e) ++ le_bytes 4 (slot e) ++ le_bytes 4 (rights e) ++ le_bytes 4 (flags e).

Definition header_bytes (cnt : Z) : list Z :=
  le_bytes 4 TRONA_CAP_TABLE_MAGIC ++ le_bytes 4 TRONA_CAP_TABLE_VERSION ++
  le_bytes 4 cnt ++ le_bytes 4 0.

(** [write_at]: the bytes stamped over the start of the scratch page. *)
Definition write_at (b : CapTableBuilder) (page : list Z) : nat * list Z :=
  let bytes := header_bytes (as_u32 (Z.of_nat (b_count b))) ++
               concat (map entry_bytes (take (b_count b) (b_entries b))) in
  (byte_len b, bytes ++ drop (length bytes) page).

(** ** Reader side; [None] is the null pointer, [Some mem] the memory from it on *)

Definition hdr_magic (mem : list Z) : Z := le_read 4 mem 0.
Definition hdr_version (mem : list Z) : Z := le_read 4 mem 4.
Definition hdr_count (mem : list Z) : Z := le_read 4 mem 8.

Definition entry_at (mem : list Z) (i : nat) : TronaCapEntryV1 :=
  let o := (SIZEOF_TABLE + i * SIZEOF_ENTRY)%nat in
  mkEntry (le_read 4 mem o) (le_read 4 mem (o + 4)) (le_read 4 mem (o + 8)) (le_read 4 mem (o + 12)).

Definition validate (table : option (list Z)) : bool :=
  match table with
  | None => false
  | Some mem => (hdr_magic mem =? TRONA_CAP_TABLE_MAGIC) && (hdr_version mem =? TRONA_CAP_TABLE_VERSION)
  end.

Definition table_entries (mem : list Z) : list TronaCapEntryV1 :=
  map (entry_at mem) (seq 0 (Z.to_nat (hdr_count mem))).

Fixpoint find_role (role : Z) (es : list TronaCapEntryV1) : option TronaCapEntryV1 :=
  match es with
  | [] => None
  | e :: rest => if role_id e =? role then Some e else find_role role rest
  end.

Definition lookup_role (table : option (list Z)) (role : Z) : option TronaCapEntryV1 :=
  if negb (validate table) then None
  else match table with
       | Some mem => find_role role (table_entries mem)
       | None => None
       end.

(** The [__trona_cap_*] weak symbols. *)
Inductive cap_symbol :=
| procmgr_ep | service_ep | namesrv_ep | vfs_ep | mmsrv_ep | rsrcsrv_ep | console_ep
| signal_ntfn | readiness_ntfn | initrd_untyped | fb_untyped | pci_ioport | com1_ioport
| cspace_ntfn | sc_cap | win32srv_ep.

#[global] Instance cap_symbol_eq_dec : EqDecision cap_symbol.
Proof. solve_decision. Defined.

Definition cap_store : Type := cap_symbol -> Z.
Definition store_init : cap_store := fun _ => 0.

(** The getters of [caps.rs]: [procmgr_ep()] is [caps_read s procmgr_ep], and so on. *)
Definition caps_read (s : cap_store) (k : cap_symbol) : Z := s k.

Definition write_symbol (s : cap_store) (k : cap_symbol) (v : Z) : cap_store :=
  fun k' => if decide (k = k') then v else s k'.

Definition system_role_target (role : Z) : option cap_symbol :=
  if role =? ROLE_PROCMGR_CONTROL then Some procmgr_ep
  else if role =? ROLE_SERVICE_EP then Some service_ep
  else if role =? ROLE_NAMESRV_CLIENT then Some namesrv_ep
  else if role =? ROLE_VFS_CLIENT then Some vfs_ep
  else if role =? ROLE_MMSRV_CLIENT then Some mmsrv_ep
  else if role =? ROLE_RSRCSRV_CLIENT then Some rsrcsrv_ep
  else if role =? ROLE_CONSOLE_CLIENT then Some console_ep
  else if role =? ROLE_SIGNAL_NTFN then Some signal_ntfn
  else if role =? ROLE_READINESS_NTFN then Some readiness_ntfn
  else if role =? ROLE_INITRD_UNTYPED then Some initrd_untyped
  else if role =? ROLE_FB_UNTYPED then Some fb_untyped
  else if role =? ROLE_PCI_IOPORT then Some pci_ioport
  else if role =? ROLE_COM1_IOPORT then Some com1_ioport
  else if role =? ROLE_CSPACE_NTFN then Some cspace_ntfn
  else if role =? ROLE_SC_CAP then Some sc_cap
  else if role =? ROLE_WIN32SRV_CLIENT then Some win32srv_ep
  else None.

Definition install_entry (s : cap_store) (e : TronaCapEntryV1) : cap_store :=
  match system_role_target (role_id e) with
  | Some k => write_symbol s k (slot e)
  | None => s
  end.

(** The default [__trona_svc_caps_install] hook does nothing. *)
Definition install_well_known_caps (table : option (list Z)) (s : cap_store) : Z * cap_store :=
  if negb (validate table) then (0, s)
  else match table with
       | Some mem => (hdr_count mem, fold_left install_entry (table_entries mem) s)
       | None => (0, s)
       end.

(** The auxiliary vector as its tag/value pairs; a tag of 0 terminates it. *)
Fixpoint find_in_auxv (auxv : list (Z * Z)) : option Z :=
  match auxv with
  | [] => None
  | (tag, val) :: rest =>
      if tag =? 0 then None
      else if (tag =? AT_TRONA_CAP_TABLE) && negb (val =? 0) then Some val
      else find_in_auxv rest
  end.

(** [deref] reads the memory at an address. *)
Definition runtime_install_from_auxv (deref : Z -> list Z) (auxv : list (Z * Z)) (s : cap_store)
    : Z * cap_store :=
  match find_in_auxv auxv with
  | None => (0, s)
  | Some addr => install_well_known_caps (Some (deref addr)) s
  end.

(** ** Lemmas *)

Record entry_wf (e : TronaCapEntryV1) : Prop := {
  ew_role : u32 (role_id e);
  ew_slot : u32 (slot e);
  ew_rights : u32 (rights e);
  ew_flags : u32 (flags e);
}.

Record builder_wf (b : CapTableBuilder) : Prop := {
  bw_len : length (b_entries b) = MAX_CAP_TABLE_ENTRIES;
  bw_count : (b_count b <= MAX_CAP_TABLE_ENTRIES)%nat;
  bw_entries : forall i e, b_entries b !! i = Some e -> entry_wf e;
}.

(** The entries a builder holds. *)
Definition pushed (b : CapTableBuilder) : list TronaCapEntryV1 := take (b_count b) (b_entries b).

Lemma length_entry_bytes e : length (entry_bytes e) = SIZEOF_ENTRY.
Proof. done. Qed.

Lemma u32_le4 z : u32 z -> 0 <= z < 256 ^ Z.of_nat 4.
Proof. unfold_widths. change (256 ^ Z.of_nat 4) with (2 ^ 32). done. Qed.

(** Four consecutive little-endian words read back. *)
Lemma read_4_words pre a b c d post o :
  u32 a -> u32 b -> u32 c -> u32 d -> o = length pre ->
  let mem := pre ++ (le_bytes 4 a ++ le_bytes 4 b ++ le_bytes 4 c ++ le_bytes 4 d) ++ post in
  le_read 4 mem o = a /\ le_read 4 mem (o + 4) = b /\
  le_read 4 mem (o + 8) = c /\ le_read 4 mem (o + 12) = d.
Proof.
  intros Ha Hb Hc Hd -> mem. subst mem. rewrite <- !app_assoc.
  split; [by apply le_read_app, u32_le4|].
  split; [|split].
  - rewrite (app_assoc pre). pose proof (le_read_app 4 (pre ++ le_bytes 4 a) b
      (le_bytes 4 c ++ le_bytes 4 d ++ post) (u32_le4 _ Hb)) as H.
    by rewrite length_app, length_le_bytes in H.
  - rewrite (app_assoc pre), (app_assoc (pre ++ _)).
    pose proof (le_read_app 4 ((pre ++ le_bytes 4 a) ++ le_bytes 4 b) c
      (le_bytes 4 d ++ post) (u32_le4 _ Hc)) as H.
    rewrite !length_app, !length_le_bytes in H. by rewrite <- Nat.add_assoc in H.
  - rewrite (app_assoc pre), (app_assoc (pre ++ _)), (app_assoc ((pre ++ _) ++ _)).
    pose proof (le_read_app 4 (((pre ++ le_bytes 4 a) ++ le_bytes 4 b) ++ le_bytes 4 c) d
      post (u32_le4 _ Hd)) as H.
    rewrite !length_app, !length_le_bytes in H. by rewrite <- !Nat.add_assoc in H.
Qed.

Lemma entry_at_app pre e post i :
  entry_wf e -> length pre = (SIZEOF_TABLE + i * SIZEOF_ENTRY)%nat ->
  entry_at (pre ++ entry_bytes e ++ post) i = e.
Proof.
  intros [Hr Hs Hg Hf] Hl. destruct e as [r s g f]. cbn [role_id slot rights flags] in *.
  destruct (read_4_words pre r s g f post _ Hr Hs Hg Hf (eq_sym Hl)) as (E0 & E4 & E8 & E12).
  unfold entry_at, entry_bytes. cbn [role_id slot rights flags]. f_equal; assumption.
Qed.

Lemma length_concat_entries es : length (concat (map entry_bytes es)) = (length es * SIZEOF_ENTRY)%nat.
Proof.
  induction es as [|e es IH]; [done|]. cbn [map concat length].
  rewrite length_app, IH, length_entry_bytes. done.
Qed.

Lemma table_bytes_read cnt es rest :
  u32 cnt -> cnt = Z.of_nat (length es) -> Forall entry_wf es ->
  let mem := header_bytes cnt ++ concat (map entry_bytes es) ++ rest in
  validate (Some mem) = true /\ hdr_count mem = cnt /\ table_entries mem = es.
Proof.
  intros Hu Hcnt Hes mem.
  destruct (read_4_words [] TRONA_CAP_TABLE_MAGIC TRONA_CAP_TABLE_VERSION cnt 0
    (concat (map entry_bytes es) ++ rest) 0%nat) as (H0 & H4 & H8 & _); [done..|].
  change ([] ++ _ ++ _) with mem in H0, H4, H8. cbn [Nat.add] in H4, H8.
  assert (hdr_count mem = cnt) as Hc by exact H8.
  split; [|split; [done|]].
  - unfold validate, hdr_magic, hdr_version. by rewrite H0, H4.
  - unfold table_entries. rewrite Hc, Hcnt, Nat2Z.id. apply list_eq. intros i.
    rewrite list_lookup_fmap. destruct (decide (i < length es)%nat) as [Hi|Hi].
    + rewrite lookup_seq_lt by done. simpl.
      destruct (lookup_lt_is_Some_2 es i Hi) as [e He]. rewrite He. f_equal.
      rewrite Forall_lookup in Hes.
      pose proof (take_drop_middle es i e He) as Hsplit.
      assert (mem = (header_bytes cnt ++ concat (map entry_bytes (take i es))) ++ entry_bytes e ++
                (concat (map entry_bytes (drop (S i) es)) ++ rest)) as Em.
      { unfold mem. rewrite <- Hsplit at 1. rewrite map_app, concat_app. cbn [map concat].
        by rewrite <- !app_assoc. }
      rewrite Em. apply entry_at_app; [by apply (Hes i)|].
      by rewrite length_app, length_concat_entries, length_take, Nat.min_l by lia.
    + rewrite lookup_seq_ge by lia. simpl. symmetry. apply lookup_ge_None. lia.
Qed.

Lemma write_at_read b page :
  builder_wf b ->
  let mem := snd (write_at b page) in
  validate (Some mem) = true /\ hdr_count mem = Z.of_nat (b_count b) /\ table_entries mem = pushed b.
Proof.
  intros [Hl Hc He] mem. subst mem. unfold write_at. cbn [snd]. rewrite <- app_assoc.
  assert (length (pushed b) = b_count b) as Hlp by (unfold pushed; rewrite length_take; lia).
  assert (as_u32 (Z.of_nat (b_count b)) = Z.of_nat (b_count b)) as ->.
  { apply wrap_small. unfold MAX_CAP_TABLE_ENTRIES in Hc. lia. }
  apply table_bytes_read.
  - unfold_widths. unfold MAX_CAP_TABLE_ENTRIES in Hc. lia.
  - by rewrite Hlp.
  - apply Forall_lookup. intros i e Hi. apply lookup_take_Some in Hi as [Hi _]. eauto.
Qed.

Lemma new_builder_wf : builder_wf CapTableBuilder_new.
Proof.
  split; [apply length_replicate|simpl; lia|].
  intros i e [-> _]%lookup_replicate. by split.
Qed.

Lemma push_wf b role sl rts fls :
  builder_wf b -> u32 role -> 0 <= sl -> u32 rts -> u32 fls ->
  builder_wf (snd (push b role sl rts fls)).
Proof.
  intros [Hl Hc He] Hr Hs Hg Hf. unfold push. do 2 (case_if; [by split|]).
  destruct (Nat.leb_spec MAX_CAP_TABLE_ENTRIES (b_count b)); [by split|]. split; cbn [snd b_entries b_count].
  - by rewrite length_insert.
  - lia.
  - intros i e [(_ & <- & _)|(_ & Hi)]%list_lookup_insert_Some; [|eauto].
    split; try done. cbn [slot]. apply wrap_range. lia.
Qed.

Lemma find_role_Some role es e :
  find_role role es = Some e -> e ∈ es /\ role_id e = role.
Proof.
  induction es as [|x es IH]; simpl; [done|]. case_if.
  - intros [= <-]. split; [left|done].
  - intros [? ?]%IH. split; [by right|done].
Qed.

Lemma find_role_None role es :
  find_role role es = None <-> forall e, e ∈ es -> role_id e <> role.
Proof.
  induction es as [|x es IH]; simpl.
  - split; [|done]. intros _ e He. by apply not_elem_of_nil in He.
  - case_if; [split; [done|intros H; by destruct (H x ltac:(left))]|].
    rewrite IH. split; intros H e; [intros [->|?]%elem_of_cons; auto|intros; apply H; by right].
Qed.

(** System roles have pairwise distinct symbols. *)
Lemma role_target_inj r1 r2 k :
  system_role_target r1 = Some k -> system_role_target r2 = Some k -> r1 = r2.
Proof.
  unfold system_role_target.
  repeat match goal with |- context [if ?r =? ?c then _ else _] => destruct (Z.eqb_spec r c) end;
    congruence.
Qed.

Lemma install_fold_other k es : forall s,
  (forall e, e ∈ es -> system_role_target (role_id e) <> Some k) ->
  fold_left install_entry es s k = s k.
Proof.
  induction es as [|e es IH]; intros s H; [done|]. cbn [fold_left].
  rewrite IH by (intros; apply H; by right). unfold install_entry.
  pose proof (H e ltac:(left)). destruct (system_role_target (role_id e)); [|done].
  unfold write_symbol. rewrite decide_False; congruence.
Qed.

Lemma install_fold_unique es : forall s e k,
  NoDup (map role_id es) -> e ∈ es -> system_role_target (role_id e) = Some k ->
  fold_left install_entry es s k = slot e.
Proof.
  induction es as [|x es IH]; intros s e k Hnd Hin Hk; [by apply not_elem_of_nil in Hin|].
  cbn [map] in Hnd. apply NoDup_cons in Hnd as [Hnx Hnd]. cbn [fold_left].
  apply elem_of_cons in Hin as [->|Hin]; [|by apply IH].
  rewrite install_fold_other.
  - unfold install_entry. rewrite Hk. unfold write_symbol. by rewrite decide_True.
  - intros e' He' Hk'. apply Hnx. rewrite (role_target_inj _ _ _ Hk Hk').
    apply list_elem_of_In, in_map. by apply list_elem_of_In.
Qed.

(** ** Properties *)

(** serialisation round trip: whatever the scratch page held, the table stamped by
    [write_at] validates, its entries read back are exactly the pushed ones in
    order, [lookup] finds the first entry of a role, and the bytes written are
    [byte_len] (at most 528). *)
Theorem cap_table_roundtrip (b : CapTableBuilder) (page : list Z) (role : Z) (Hwf : builder_wf b) :
  let '(n, mem) := write_at b page in
  validate (Some mem) = true /\
  table_entries mem = pushed b /\
  lookup_role (Some mem) role = find_role role (pushed b) /\
  n = byte_len b /\ (n <= 528)%nat /\ drop n mem = drop n page.
Proof.
  pose proof (write_at_read b page Hwf) as (Hv & Hc & He).
  unfold write_at in *. cbn [snd] in *.
  split; [done|]. split; [done|]. split; [|split; [done|split]].
  - unfold lookup_role. by rewrite Hv, He.
  - destruct Hwf as [_ Hcnt _]. unfold byte_len, SIZEOF_TABLE, SIZEOF_ENTRY, MAX_CAP_TABLE_ENTRIES in *. lia.
  - assert (length (header_bytes (as_u32 (Z.of_nat (b_count b))) ++
              concat (map entry_bytes (take (b_count b) (b_entries b)))) = byte_len b) as Hl.
    { rewrite length_app, length_concat_entries, length_take, Nat.min_l; [done|].
      rewrite (bw_len _ Hwf). apply Hwf. }
    by rewrite <- Hl, drop_app_length.
Qed.

Definition demo_builder : CapTableBuilder :=
  snd (push (snd (push CapTableBuilder_new ROLE_VFS_CLIENT 71 3 0)) ROLE_NAMESRV_CLIENT 72 3 1).

Lemma demo_builder_wf : builder_wf demo_builder.
Proof. repeat apply push_wf; try done. apply new_builder_wf. Qed.

Lemma cap_table_roundtrip_witness :
  lookup_role (Some (snd (write_at demo_builder (replicate 4096 7)))) ROLE_NAMESRV_CLIENT =
    Some (mkEntry ROLE_NAMESRV_CLIENT 72 3 1) /\
  (let '(n, mem) := write_at demo_builder [] in
   validate (Some mem) = true /\ table_entries mem = pushed demo_builder /\
   lookup_role (Some mem) ROLE_VFS_CLIENT = find_role ROLE_VFS_CLIENT (pushed demo_builder) /\
   n = byte_len demo_builder /\ (n <= 528)%nat /\ drop n mem = drop n []).
Proof.
  split; [vm_compute; reflexivity|].
  apply (cap_table_roundtrip demo_builder [] ROLE_VFS_CLIENT demo_builder_wf).
Defined.

(** [push] on every branch: an absent capability (slot 0) is skipped silently, a
    slot beyond 32 bits and a full builder are refused and leave the builder as it
    was, and otherwise exactly the given entry is appended. *)
Theorem push_spec (b : CapTableBuilder) (role sl rts fls : Z)
    (Hwf : builder_wf b) (Hsl : 0 <= sl) :
  match push b role sl rts fls with
  | (inl _, b') =>
      (sl = 0 /\ b' = b) \/
      (0 < sl <= U32_MAX /\ (b_count b < MAX_CAP_TABLE_ENTRIES)%nat /\
       pushed b' = pushed b ++ [mkEntry role sl rts fls])
  | (inr SlotOutOfRange, b') => U32_MAX < sl /\ b' = b
  | (inr Overflow, b') => length (pushed b) = MAX_CAP_TABLE_ENTRIES /\ b' = b
  end.
Proof.
  unfold push. case_if; [by left|]. case_if; [done|].
  destruct (Nat.leb_spec MAX_CAP_TABLE_ENTRIES (b_count b)) as [Hge|Hlt].
  - split; [|done]. unfold pushed. rewrite length_take, (bw_len _ Hwf). lia.
  - right. split; [lia|]. split; [done|]. unfold pushed. cbn [b_entries b_count].
    rewrite (take_S_r _ _ (mkEntry role sl rts fls)).
    + by rewrite take_insert_ge.
    + rewrite list_lookup_insert_eq by (rewrite (bw_len _ Hwf); lia).
      do 2 f_equal. apply wrap_small. unfold U32_MAX in *. lia.
Qed.

Lemma push_spec_witness :
  fst (push CapTableBuilder_new 4 (2 ^ 32) 0 0) = inr SlotOutOfRange /\
  match push CapTableBuilder_new 4 70 0 0 with
  | (inl _, b') =>
      (70 = 0 /\ b' = CapTableBuilder_new) \/
      (0 < 70 <= U32_MAX /\ (b_count CapTableBuilder_new < MAX_CAP_TABLE_ENTRIES)%nat /\
       pushed b' = pushed CapTableBuilder_new ++ [mkEntry 4 70 0 0])
  | (inr SlotOutOfRange, b') => U32_MAX < 70 /\ b' = CapTableBuilder_new
  | (inr Overflow, b') =>
      length (pushed CapTableBuilder_new) = MAX_CAP_TABLE_ENTRIES /\ b' = CapTableBuilder_new
  end.
Proof.
  split; [reflexivity|]. apply (push_spec CapTableBuilder_new 4 70 0 0 new_builder_wf). lia.
Defined.

(** C31: startup delivery end to end: if the spawner pushed entries with distinct roles,
    wrote the table at [addr] and put [addr] in the auxiliary vector, then after
    [runtime_install_from_auxv] every public system role's symbol holds the slot of
    its entry, every other symbol is unchanged, and in particular the raw authority
    roles reach no public symbol. *)
Theorem cap_table_delivery (b : CapTableBuilder) (page : list Z) (deref : Z -> list Z)
    (auxv : list (Z * Z)) (addr : Z) (s : cap_store)
    (Hwf : builder_wf b) (Hnd : NoDup (map role_id (pushed b)))
    (Haux : find_in_auxv auxv = Some addr) (Hmem : deref addr = snd (write_at b page)) :
  let '(n, s') := runtime_install_from_auxv deref auxv s in
  n = Z.of_nat (b_count b) /\
  (forall e k, e ∈ pushed b -> system_role_target (role_id e) = Some k -> caps_read s' k = slot e) /\
  (forall k, (forall e, e ∈ pushed b -> system_role_target (role_id e) <> Some k) ->
     caps_read s' k = caps_read s k) /\
  system_role_target ROLE_MMSRV_AUTHORITY_RAW = None /\
  system_role_target ROLE_RSRCSRV_AUTHORITY_RAW = None.
Proof.
  unfold runtime_install_from_auxv, install_well_known_caps. rewrite Haux, Hmem.
  destruct (write_at_read b page Hwf) as (-> & -> & ->). simpl.
  split; [done|]. split; [intros e k; by apply install_fold_unique|].
  split; [intros k; apply install_fold_other|]. done.
Qed.

Lemma cap_table_delivery_witness :
  let '(n, s') := runtime_install_from_auxv (fun _ => snd (write_at demo_builder []))
                    [(6, 4096); (AT_TRONA_CAP_TABLE, 8192)] store_init in
  caps_read s' vfs_ep = 71 /\ caps_read s' mmsrv_ep = 0 /\
  (n = Z.of_nat (b_count demo_builder) /\
  (forall e k, e ∈ pushed demo_builder -> system_role_target (role_id e) = Some k -> caps_read s' k = slot e) /\
  (forall k, (forall e, e ∈ pushed demo_builder -> system_role_target (role_id e) <> Some k) ->
     caps_read s' k = caps_read store_init k) /\
  system_role_target ROLE_MMSRV_AUTHORITY_RAW = None /\
  system_role_target ROLE_RSRCSRV_AUTHORITY_RAW = None).
Proof.
  split; [vm_compute; reflexivity|]. split; [vm_compute; reflexivity|].
  apply (cap_table_delivery demo_builder [] (fun _ => snd (write_at demo_builder []))
    [(6, 4096); (AT_TRONA_CAP_TABLE, 8192)] 8192 store_init demo_builder_wf); [|reflexivity..].
  vm_compute. repeat constructor; intros H; repeat (apply elem_of_cons in H as [H|H]; [discriminate|]);
    by apply not_elem_of_nil in H.
Defined.
