(* ===== verification/Layout.v ===== *)
(** The child layout planner ([src/substrate/layout.rs]): the CSpace layout
    handed to a child ([TronaCspaceLayoutV1]) and its virtual address layout,
    deterministic and randomised. *)

From S2P Require Import Prelude Consts.

Definition CHILD_STACK_PAGES : Z := 32.
Definition AUTHORITY_RECV_SLOT_COUNT : Z := 1024.
Definition CHILD_FRAME_SLOT_BASE : Z := 64.
Definition IPC_BUF_BASE : Z := 0x200000.
Definition ELF_CODE_BASE : Z := 0x210000.
Definition DEFAULT_STACK_BASE : Z := 0x3F8000.
Definition DEFAULT_STACK_TOP : Z := DEFAULT_STACK_BASE + CHILD_STACK_PAGES * 0x1000.
Definition DEFAULT_SCRATCH_BASE : Z := DEFAULT_STACK_TOP.
Definition INITRD_BASE : Z := 0x1000000.
Definition MMAP_BASE_GAP : Z := 0x10000000.
Definition WINDOW2_STACK_BASE : Z := 0x7F8000.
Definition WINDOW2_STACK_TOP : Z := WINDOW2_STACK_BASE + CHILD_STACK_PAGES * 0x1000.
Definition WINDOW2_SCRATCH_BASE : Z := WINDOW2_STACK_TOP.
Definition ASLR_CODE_MAX_PAGES : Z := 256.
Definition ASLR_STACK_MAX_PAGES : Z := 64.

(** ** CSpace layout *)

Record TronaCspaceLayoutV1 := mkCspaceLayout {
  version : Z; cs_flags : Z; cnode_bits : Z; frame_slot_base : Z;
  alloc_base : Z; alloc_limit : Z; recv_base : Z; recv_limit : Z;
  expand_base : Z; expand_limit : Z;
}.

Definition CSPACE_LAYOUT_VERSION : Z := 1.
Definition FLAG_HAS_RECV_RANGE : Z := Z.shiftl 1 0.
Definition FLAG_HAS_EXPAND_RANGE : Z := Z.shiftl 1 1.

Definition alloc_count (l : TronaCspaceLayoutV1) : Z :=
  if alloc_limit l >? alloc_base l then alloc_limit l - alloc_base l else 0.
Definition recv_count (l : TronaCspaceLayoutV1) : Z :=
  if recv_limit l >? recv_base l then recv_limit l - recv_base l else 0.
Definition has_recv_range (l : TronaCspaceLayoutV1) : bool := recv_limit l >? recv_base l.
Definition has_expand_range (l : TronaCspaceLayoutV1) : bool := expand_limit l >? expand_base l.

Inductive CspaceLayoutProfile := DefaultService | Pager | BootstrapAuthority.

#[global] Instance CspaceLayoutProfile_eq_dec : EqDecision CspaceLayoutProfile.
Proof. solve_decision. Defined.

(** [(recv_base, recv_limit)] *)
Definition recv_range (total_slots : Z) (profile : CspaceLayoutProfile) : Z * Z :=
  if (bool_decide (profile = Pager) || bool_decide (profile = BootstrapAuthority))
     && negb (total_slots =? 0)
  then
    let reserve := if total_slots >? AUTHORITY_RECV_SLOT_COUNT
                   then AUTHORITY_RECV_SLOT_COUNT else total_slots in
    (sat_sub total_slots reserve, total_slots)
  else (0, 0).

(** [(expand_base, expand_limit)] *)
Definition expand_range (total_slots : Z) (has_expand_window : bool) : Z * Z :=
  if has_expand_window
  then
    let base := if total_slots >? CSPACE_EXPAND_BASE then CSPACE_EXPAND_BASE
                else total_slots in
    let requested := CSPACE_EXPAND_BASE + MAX_CSPACE_EXPANSIONS in
    let limit := if total_slots <? requested then total_slots else requested in
    if limit >? base then (base, limit) else (0, 0)
  else (0, 0).

Definition compute_cspace_layout (cnode_bits frame_slot_floor : Z)
    (profile : CspaceLayoutProfile) (has_expand_window : bool) : TronaCspaceLayoutV1 :=
  let total_slots := if cnode_bits >=? 63 then 0 else (1 << cnode_bits)%u64 in
  let frame_slot_base :=
    if frame_slot_floor >? CHILD_FRAME_SLOT_BASE then frame_slot_floor
    else CHILD_FRAME_SLOT_BASE in
  let '(recv_base, recv_limit) := recv_range total_slots profile in
  let '(expand_base, expand_limit) := expand_range total_slots has_expand_window in
  let alloc_limit := total_slots in
  let alloc_limit := if (expand_limit >? expand_base) && (expand_base <? alloc_limit)
                     then expand_base else alloc_limit in
  let alloc_limit := if (recv_limit >? recv_base) && (recv_base <? alloc_limit)
                     then recv_base else alloc_limit in
  let alloc_base := if frame_slot_base <? alloc_limit then frame_slot_base else alloc_limit in
  let flags := 0 in
  let flags := if recv_limit >? recv_base then Z.lor flags FLAG_HAS_RECV_RANGE else flags in
  let flags := if expand_limit >? expand_base then Z.lor flags FLAG_HAS_EXPAND_RANGE else flags in
  mkCspaceLayout CSPACE_LAYOUT_VERSION flags cnode_bits frame_slot_base alloc_base alloc_limit
    recv_base recv_limit expand_base expand_limit.

(** ** Virtual address layout *)

Record VmRegion := mkRegion { base : Z; size : Z }.

Definition VmRegion_zero : VmRegion := mkRegion 0 0.
Definition region_end (r : VmRegion) : Z := (base r + size r)%u64.
Definition page_count (r : VmRegion) : Z := size r `div` 0x1000.

Record VmLayoutPlan := mkPlan {
  ipc_buf : VmRegion; elf_code : VmRegion; rtld : VmRegion; shared_libs : VmRegion;
  stack : VmRegion; scratch : VmRegion; initrd : VmRegion; stack_top : Z;
}.

Definition VmLayoutPlan_zeroed : VmLayoutPlan :=
  mkPlan VmRegion_zero VmRegion_zero VmRegion_zero VmRegion_zero VmRegion_zero VmRegion_zero
    VmRegion_zero 0.

Definition page_align_up (v : Z) : Z := Z.land (v + 0xFFF)%u64 (bnot 64 0xFFF).

Definition code_end (p : VmLayoutPlan) : Z :=
  if size (shared_libs p) >? 0 then region_end (shared_libs p)
  else if size (rtld p) >? 0 then region_end (rtld p)
  else region_end (elf_code p).

(** [if r.size > 0 && r.end() > highest { highest = r.end() }] *)
Definition raise_to (highest : Z) (r : VmRegion) : Z :=
  if (size r >? 0) && (region_end r >? highest) then region_end r else highest.

Definition heap_base (p : VmLayoutPlan) : Z :=
  let highest := code_end p in
  let highest := raise_to highest (stack p) in
  let highest := raise_to highest (scratch p) in
  let highest := raise_to highest (initrd p) in
  page_align_up highest.

Definition regions (p : VmLayoutPlan) : list VmRegion :=
  [ipc_buf p; elf_code p; rtld p; shared_libs p; stack p; scratch p; initrd p].

Definition max_step (high : Z) (r : VmRegion) : Z :=
  if size r =? 0 then high
  else let e := region_end r in if e >? high then e else high.

Definition max_mapped_end (p : VmLayoutPlan) : Z := fold_left max_step (regions p) 0.

Definition compute_mmap_base (p : VmLayoutPlan) (heap_base : Z) : Z :=
  let high := Z.max (max_mapped_end p) heap_base in
  page_align_up (sat_add high MMAP_BASE_GAP).

(** The regions above the executable, which both planners place alike. *)
Definition plan_rtld (elf_code : VmRegion) (rtld_span : Z) : VmRegion :=
  if rtld_span >? 0
  then mkRegion (page_align_up (region_end elf_code + 0x1000)%u64) (page_align_up rtld_span)
  else VmRegion_zero.

Definition plan_shared_libs (rtld : VmRegion) (shared_lib_cache_pages : Z) : VmRegion :=
  if (shared_lib_cache_pages >? 0) && (size rtld >? 0)
  then mkRegion (page_align_up (region_end rtld + 0x1000)%u64) (shared_lib_cache_pages * 0x1000)%u64
  else VmRegion_zero.

Definition plan_code_end (elf_code rtld shared_libs : VmRegion) : Z :=
  if size shared_libs >? 0 then region_end shared_libs
  else if size rtld >? 0 then region_end rtld
  else region_end elf_code.

Definition compute_vm_layout (elf_span rtld_span shared_lib_cache_pages : Z)
    (map_initrd : bool) (initrd_window_size : Z) : VmLayoutPlan :=
  let ipc_buf := mkRegion IPC_BUF_BASE 0x1000 in
  let elf_code := mkRegion ELF_CODE_BASE (page_align_up elf_span) in
  let rtld := plan_rtld elf_code rtld_span in
  let shared_libs := plan_shared_libs rtld shared_lib_cache_pages in
  let code_end := plan_code_end elf_code rtld shared_libs in
  let stack_size := CHILD_STACK_PAGES * 0x1000 in
  let '(stack, scratch, stack_top) :=
    if code_end <=? DEFAULT_STACK_BASE then
      (mkRegion DEFAULT_STACK_BASE stack_size, mkRegion DEFAULT_SCRATCH_BASE 0x1000,
       DEFAULT_STACK_TOP)
    else if code_end <=? WINDOW2_STACK_BASE then
      (mkRegion WINDOW2_STACK_BASE stack_size, mkRegion WINDOW2_SCRATCH_BASE 0x1000,
       WINDOW2_STACK_TOP)
    else
      let guard := 0x10000 in
      let sbase := page_align_up (code_end + guard)%u64 in
      (mkRegion sbase stack_size, mkRegion (sbase + stack_size)%u64 0x1000,
       (sbase + stack_size)%u64) in
  let initrd :=
    if map_initrd && (initrd_window_size >? 0) then
      let initrd_base :=
        if (size scratch >? 0) && (region_end scratch >? INITRD_BASE)
        then page_align_up (region_end scratch + 0x1000)%u64
        else INITRD_BASE in
      mkRegion initrd_base (page_align_up initrd_window_size)
    else VmRegion_zero in
  mkPlan ipc_buf elf_code rtld shared_libs stack scratch initrd stack_top.

(** [rand_u64] is called twice; [r1] and [r2] are its two results. *)
Definition compute_vm_layout_randomized (elf_span rtld_span shared_lib_cache_pages : Z)
    (map_initrd : bool) (initrd_window_size : Z) (r1 r2 : option Z) : VmLayoutPlan :=
  let code_slide := match r1 with
                    | Some v => ((v `mod` ASLR_CODE_MAX_PAGES) * 0x1000)%u64 | None => 0 end in
  let stack_slide := match r2 with
                     | Some v => ((v `mod` ASLR_STACK_MAX_PAGES) * 0x1000)%u64 | None => 0 end in
  let ipc_buf := mkRegion IPC_BUF_BASE 0x1000 in
  let code_base := (ELF_CODE_BASE + code_slide)%u64 in
  let elf_code := mkRegion code_base (page_align_up elf_span) in
  let rtld := plan_rtld elf_code rtld_span in
  let shared_libs := plan_shared_libs rtld shared_lib_cache_pages in
  let code_end := plan_code_end elf_code rtld shared_libs in
  let stack_size := CHILD_STACK_PAGES * 0x1000 in
  let fallback := compute_vm_layout elf_span rtld_span shared_lib_cache_pages map_initrd
                    initrd_window_size in
  let at_base (sbase : Z) :=
    let stack := mkRegion sbase stack_size in
    let scratch := mkRegion (sbase + stack_size)%u64 0x1000 in
    let stack_top := (sbase + stack_size)%u64 in
    if region_end stack >? base scratch then fallback else
    let initrd :=
      if map_initrd && (initrd_window_size >? 0)
      then mkRegion INITRD_BASE (page_align_up initrd_window_size)
      else VmRegion_zero in
    mkPlan ipc_buf elf_code rtld shared_libs stack scratch initrd stack_top in
  if code_end <=? sat_sub DEFAULT_STACK_BASE stack_slide
  then at_base (DEFAULT_STACK_BASE - stack_slide)%u64
  else if code_end <=? sat_sub WINDOW2_STACK_BASE stack_slide
  then at_base (WINDOW2_STACK_BASE - stack_slide)%u64
  else fallback.

(** ** Page alignment *)

Definition page_aligned (v : Z) : Prop := v mod 0x1000 = 0.

Lemma page_align_up_spec v :
  0 <= v <= 2 ^ 62 ->
  v <= page_align_up v < v + 0x1000 /\ page_aligned (page_align_up v).
Proof.
  intros Hv. unfold page_align_up, page_aligned. rewrite wrap_small by lia.
  exact (align_up_spec 64 12 v ltac:(lia) ltac:(lia) ltac:(lia)).
Qed.

Lemma page_aligned_add a b : page_aligned a -> page_aligned b -> page_aligned (a + b).
Proof. unfold page_aligned. intros Ha Hb. rewrite Z.add_mod, Ha, Hb by lia. done. Qed.

Lemma page_aligned_mul k : page_aligned (k * 0x1000).
Proof. apply Z_mod_mult. Qed.

Lemma page_align_up_zero v : 0 <= v <= 2 ^ 62 -> page_align_up v = 0 -> v = 0.
Proof. intros Hv E. pose proof (page_align_up_spec v Hv). lia. Qed.

(** Spans the planners are meant for: up to a tebibyte each. *)
Record spans_ok (elf_span rtld_span pages window : Z) : Prop := {
  so_elf : 0 <= elf_span <= 2 ^ 40;
  so_rtld : 0 <= rtld_span <= 2 ^ 40;
  so_libs : 0 <= pages <= 2 ^ 28;
  so_initrd : 0 <= window <= 2 ^ 40;
}.

(** [r1] lies below [r2] unless one of them is unused. *)
Definition region_before (r1 r2 : VmRegion) : Prop :=
  size r1 = 0 \/ size r2 = 0 \/ base r1 + size r1 <= base r2.

Definition region_ok (r : VmRegion) : Prop :=
  page_aligned (base r) /\ page_aligned (size r) /\
  0 <= base r /\ 0 <= size r /\ base r + size r < 2 ^ 47.

Record code_ok (e r s : VmRegion) (ce : Z) : Prop := {
  ck_e : region_ok e; ck_r : region_ok r; ck_s : region_ok s;
  ck_er : size r = 0 \/ base e + size e <= base r;
  ck_es : size s = 0 \/ base e + size e <= base s;
  ck_rs : size s = 0 \/ base r + size r <= base s;
  ck_end : base e + size e <= ce /\ (size r = 0 \/ base r + size r <= ce) /\
           (size s = 0 \/ base s + size s <= ce);
  ck_bound : 0 <= ce <= 2 ^ 45;
}.

Lemma region_end_small r : region_ok r -> region_end r = base r + size r.
Proof. intros (_ & _ & ? & ? & ?). unfold region_end. apply wrap_small. lia. Qed.

Lemma region_ok_zero : region_ok VmRegion_zero.
Proof. unfold region_ok, page_aligned. cbn [base size VmRegion_zero]. split_and!; done. Qed.

Lemma plan_rtld_ok e span :
  region_ok e -> base e + size e <= 2 ^ 42 -> 0 <= span <= 2 ^ 40 ->
  region_ok (plan_rtld e span) /\
  (span = 0 /\ plan_rtld e span = VmRegion_zero \/
   0 < span <= size (plan_rtld e span) /\ base e + size e < base (plan_rtld e span) /\
   base (plan_rtld e span) + size (plan_rtld e span) <= 2 ^ 43).
Proof.
  intros He Hb Hs. unfold plan_rtld. rewrite region_end_small by done. rewrite Z.gtb_ltb.
  destruct (Z.ltb_spec 0 span).
  - destruct He as (_ & _ & ? & ? & _). rewrite wrap_small by lia.
    destruct (page_align_up_spec (base e + size e + 0x1000) ltac:(lia)) as [? ?].
    destruct (page_align_up_spec span ltac:(lia)) as [? ?].
    unfold region_ok. cbn [base size]. split_and!; try done; lia.
  - split; [apply region_ok_zero|]. left. split; [lia|done].
Qed.

Lemma plan_shared_libs_ok r pages :
  region_ok r -> base r + size r <= 2 ^ 43 -> 0 <= pages <= 2 ^ 28 ->
  let s := plan_shared_libs r pages in
  region_ok s /\
  (s = VmRegion_zero \/
   0 < pages /\ 0 < size r /\ size s = pages * 0x1000 /\ base r + size r < base s /\
   base s + size s <= 2 ^ 44).
Proof.
  intros Hr Hb Hp s. subst s. unfold plan_shared_libs. rewrite region_end_small by done.
  rewrite !Z.gtb_ltb. destruct (Z.ltb_spec 0 pages), (Z.ltb_spec 0 (size r)); cbn [andb];
    try (split; [apply region_ok_zero | by left]).
  destruct Hr as (_ & _ & ? & ? & _). rewrite !wrap_small by lia.
  destruct (page_align_up_spec (base r + size r + 0x1000) ltac:(lia)) as [? ?].
  pose proof (page_aligned_mul pages).
  unfold region_ok. cbn [base size]. split_and!; try done; lia.
Qed.

Lemma plan_code_ok e span pages :
  region_ok e -> base e + size e <= 2 ^ 42 -> 0 <= span <= 2 ^ 40 -> 0 <= pages <= 2 ^ 28 ->
  let r := plan_rtld e span in
  let s := plan_shared_libs r pages in
  code_ok e r s (plan_code_end e r s).
Proof.
  intros He Hb Hs Hp r s.
  destruct (plan_rtld_ok e span He Hb Hs) as (Hr & Hr'). fold r in Hr, Hr'.
  assert (base r + size r <= 2 ^ 43) as Hrb by (destruct Hr' as [[_ ->]|]; [cbn|]; lia).
  destruct (plan_shared_libs_ok r pages Hr Hrb Hp) as (Hs' & Hss). fold s in Hs', Hss.
  assert (0 <= base e /\ 0 <= size e) by (destruct He; lia).
  assert (0 <= base r /\ 0 <= size r) by (destruct Hr; lia).
  unfold plan_code_end. rewrite !Z.gtb_ltb, !region_end_small by done.
  destruct Hss as [->|Hss]; cbn [size base VmRegion_zero] in *;
    [destruct (Z.ltb_spec 0 0); [lia|]; destruct (Z.ltb_spec 0 (size r))
    |destruct (Z.ltb_spec 0 (size s)); [|lia]];
    split; try done; try apply region_ok_zero; cbn [size base VmRegion_zero];
    destruct Hr' as [[? ->]|?]; cbn [size base VmRegion_zero] in *; lia.
Qed.

(** ** Soundness of a plan *)

(** The regions are page aligned, inside the user address space, and pairwise
    disjoint in the order IPC buffer, executable, rtld, shared libraries,
    stack, scratch, initrd; the stack ends where the scratch page begins. *)
Record plan_ok (p : VmLayoutPlan) : Prop := {
  po_regions : Forall region_ok (regions p);
  po_ordered : ForallOrdPairs region_before (regions p);
  po_stack : size (stack p) = CHILD_STACK_PAGES * 0x1000 /\
             stack_top p = base (stack p) + size (stack p) /\
             base (scratch p) = stack_top p /\ size (scratch p) = 0x1000;
}.

Definition STACK_SIZE : Z := CHILD_STACK_PAGES * 0x1000.

Lemma place_ok e r s ce sbase ini :
  code_ok e r s ce -> ELF_CODE_BASE <= base e -> page_aligned sbase ->
  ce <= sbase <= 2 ^ 46 -> region_ok ini ->
  (size ini = 0 \/ sbase + STACK_SIZE + 0x1000 <= base ini) ->
  plan_ok (mkPlan (mkRegion IPC_BUF_BASE 0x1000) e r s (mkRegion sbase STACK_SIZE)
             (mkRegion (sbase + STACK_SIZE) 0x1000) ini (sbase + STACK_SIZE)).
Proof.
  intros [He Hr Hs Her Hes Hrs Hend Hb] Hbase Ha Hsb Hi Hini.
  assert (page_aligned (sbase + STACK_SIZE)) by (apply page_aligned_add; done).
  unfold STACK_SIZE, CHILD_STACK_PAGES, ELF_CODE_BASE, IPC_BUF_BASE in *.
  assert (forall x, region_ok x -> 0 <= base x /\ 0 <= size x) as Hpos
    by (intros x (_ & _ & ? & ? & _); done).
  pose proof (Hpos e He). pose proof (Hpos r Hr). pose proof (Hpos s Hs). pose proof (Hpos ini Hi).
  split; unfold regions;
    cbn [ipc_buf elf_code rtld shared_libs stack scratch initrd stack_top].
  - repeat apply Forall_cons_2; try apply Forall_nil_2; try done;
      unfold region_ok; cbn [base size]; split_and!; try done; try exact eq_refl; lia.
  - repeat apply FOP_cons; repeat apply Forall_cons_2; try apply Forall_nil_2; try apply FOP_nil;
      unfold region_before; cbn [base size]; lia.
  - done.
Qed.

(** The initrd window goes above the scratch page. *)
Definition plan_initrd (map_initrd : bool) (base0 window : Z) : VmRegion :=
  if map_initrd && (window >? 0) then mkRegion base0 (page_align_up window) else VmRegion_zero.

Lemma plan_initrd_ok mi base0 window lim :
  page_aligned base0 -> 0 <= lim <= base0 -> base0 <= 2 ^ 46 -> 0 <= window <= 2 ^ 40 ->
  region_ok (plan_initrd mi base0 window) /\
  (size (plan_initrd mi base0 window) = 0 \/ lim <= base (plan_initrd mi base0 window)).
Proof.
  intros Ha Hl Hb Hw. unfold plan_initrd.
  destruct (mi && (window >? 0)); [|split; [apply region_ok_zero | by left]].
  destruct (page_align_up_spec window ltac:(lia)). unfold region_ok. cbn [base size].
  split_and!; try done; lia.
Qed.

Lemma place_initrd_ok e r s ce sbase mi ib window :
  code_ok e r s ce -> ELF_CODE_BASE <= base e -> page_aligned sbase -> page_aligned ib ->
  ce <= sbase -> sbase + STACK_SIZE + 0x1000 <= ib <= 2 ^ 46 -> 0 <= window <= 2 ^ 40 ->
  plan_ok (mkPlan (mkRegion IPC_BUF_BASE 0x1000) e r s (mkRegion sbase STACK_SIZE)
             (mkRegion (sbase + STACK_SIZE) 0x1000) (plan_initrd mi ib window)
             (sbase + STACK_SIZE)).
Proof.
  intros Hc Hb Hs Hi Hce Hib Hw. assert (0 <= STACK_SIZE) by done.
  pose proof (ck_bound _ _ _ _ Hc).
  destruct (plan_initrd_ok mi ib window (sbase + STACK_SIZE + 0x1000) Hi); [lia..|].
  apply (place_ok _ _ _ ce); try done. lia.
Qed.

Lemma elf_region_ok slide span :
  page_aligned slide -> 0 <= slide < 2 ^ 20 -> 0 <= span <= 2 ^ 40 ->
  let e := mkRegion (ELF_CODE_BASE + slide) (page_align_up span) in
  region_ok e /\ base e + size e <= 2 ^ 42 /\ ELF_CODE_BASE <= base e.
Proof.
  intros Ha Hs Hsp. cbv zeta. destruct (page_align_up_spec span ltac:(lia)).
  assert (page_aligned (ELF_CODE_BASE + slide)) by (apply page_aligned_add; done).
  unfold region_ok, ELF_CODE_BASE in *. cbn [base size]. split_and!; try done; lia.
Qed.

Lemma compute_vm_layout_ok elf_span rtld_span pages mi window :
  spans_ok elf_span rtld_span pages window ->
  plan_ok (compute_vm_layout elf_span rtld_span pages mi window).
Proof.
  intros [He Hr Hp Hw].
  destruct (elf_region_ok 0 elf_span eq_refl ltac:(lia) He) as (Heo & Heb & Hbase).
  rewrite Z.add_0_r in *.
  set (e := mkRegion ELF_CODE_BASE (page_align_up elf_span)) in *.
  pose proof (plan_code_ok e rtld_span pages Heo Heb Hr Hp) as Hc. cbv zeta in Hc.
  unfold compute_vm_layout. fold e.
  set (r := plan_rtld e rtld_span) in *. set (s := plan_shared_libs r pages) in *.
  set (ce := plan_code_end e r s) in *. pose proof (ck_bound _ _ _ _ Hc).
  fold STACK_SIZE.
  destruct (Z.leb_spec ce DEFAULT_STACK_BASE); [|destruct (Z.leb_spec ce WINDOW2_STACK_BASE)].
  - change (plan_ok (mkPlan (mkRegion IPC_BUF_BASE 0x1000) e r s (mkRegion DEFAULT_STACK_BASE STACK_SIZE)
      (mkRegion (DEFAULT_STACK_BASE + STACK_SIZE) 0x1000) (plan_initrd mi INITRD_BASE window)
      (DEFAULT_STACK_BASE + STACK_SIZE))).
    apply (place_initrd_ok _ _ _ ce); done.
  - change (plan_ok (mkPlan (mkRegion IPC_BUF_BASE 0x1000) e r s (mkRegion WINDOW2_STACK_BASE STACK_SIZE)
      (mkRegion (WINDOW2_STACK_BASE + STACK_SIZE) 0x1000) (plan_initrd mi INITRD_BASE window)
      (WINDOW2_STACK_BASE + STACK_SIZE))).
    apply (place_initrd_ok _ _ _ ce); done.
  - rewrite (wrap_small 64 (ce + 0x10000)) by lia.
    destruct (page_align_up_spec (ce + 0x10000) ltac:(lia)) as [Hsb Hsa].
    set (sbase := page_align_up (ce + 0x10000)) in *.
    assert (0 <= STACK_SIZE <= 2 ^ 20) as Hst by done.
    rewrite (wrap_small 64 (sbase + STACK_SIZE)) by lia.
    set (scr := mkRegion (sbase + STACK_SIZE) 0x1000).
    set (ib := if (size scr >? 0) && (region_end scr >? INITRD_BASE)
               then page_align_up (region_end scr + 0x1000)%u64 else INITRD_BASE).
    assert (region_end scr = sbase + STACK_SIZE + 0x1000) as Hse
      by (unfold region_end; apply wrap_small; unfold scr; cbn [base size]; lia).
    assert (page_aligned ib /\ sbase + STACK_SIZE + 0x1000 <= ib <= 2 ^ 46) as [Hia Hib].
    { subst ib. rewrite Hse. cbn [size scr]. change (0x1000 >? 0) with true. cbn [andb].
      rewrite Z.gtb_ltb. destruct (Z.ltb_spec INITRD_BASE (sbase + STACK_SIZE + 0x1000)).
      - rewrite wrap_small by lia.
        destruct (page_align_up_spec (sbase + STACK_SIZE + 0x1000 + 0x1000) ltac:(lia)).
        split; [done|lia].
      - split; [done|]. unfold INITRD_BASE in *. lia. }
    change (plan_ok (mkPlan (mkRegion IPC_BUF_BASE 0x1000) e r s (mkRegion sbase STACK_SIZE)
      scr (plan_initrd mi ib window) (sbase + STACK_SIZE))).
    apply (place_initrd_ok _ _ _ ce); done || lia.
Qed.

Lemma slide_ok n (r : option Z) :
  0 < n <= 256 ->
  let s := match r with Some v => ((v `mod` n) * 0x1000)%u64 | None => 0 end in
  page_aligned s /\ 0 <= s <= (n - 1) * 0x1000.
Proof.
  intros Hn s. subst s. destruct r as [v|]; [|split; [done|lia]].
  pose proof (Z.mod_pos_bound v n ltac:(lia)).
  rewrite wrap_small by lia. split; [apply page_aligned_mul|lia].
Qed.

(** The randomised plan with slides [cs] and [ss], where it is not the fallback. *)
Lemma randomized_place e r s ce b0 ss mi window fallback :
  code_ok e r s ce -> ELF_CODE_BASE <= base e ->
  (b0 = DEFAULT_STACK_BASE \/ b0 = WINDOW2_STACK_BASE) ->
  page_aligned ss -> 0 <= ss <= 0x3F000 -> ce <= sat_sub b0 ss -> 0 <= window <= 2 ^ 40 ->
  let sbase := (b0 - ss)%u64 in
  let stack := mkRegion sbase STACK_SIZE in
  let scratch := mkRegion (sbase + STACK_SIZE)%u64 0x1000 in
  plan_ok
    (if region_end stack >? base scratch then fallback else
     mkPlan (mkRegion IPC_BUF_BASE 0x1000) e r s stack scratch
       (plan_initrd mi INITRD_BASE window) (sbase + STACK_SIZE)%u64).
Proof.
  intros Hc Hb Hb0 Ha Hss Hce Hw sbase stk scr. rewrite sat_sub_spec in Hce.
  assert (0x3F8000 <= b0 <= 0x7F8000 /\ page_aligned b0) as [? ?] by (by destruct Hb0 as [->| ->]).
  assert (0 <= STACK_SIZE <= 2 ^ 20) by done.
  assert (sbase = b0 - ss) as Esb by (apply wrap_small; lia).
  assert ((sbase + STACK_SIZE)%u64 = sbase + STACK_SIZE) as Ew by (apply wrap_small; lia).
  unfold region_end, stk, scr. cbn [base size]. rewrite Ew, Z.gtb_ltb.
  destruct (Z.ltb_spec (sbase + STACK_SIZE) (sbase + STACK_SIZE)); [lia|].
  apply (place_initrd_ok _ _ _ ce); try done; try lia.
  - rewrite Esb. unfold page_aligned in *. rewrite Zminus_mod, Ha. by rewrite Z.sub_0_r, Z.mod_mod.
  - rewrite Esb. change STACK_SIZE with 0x20000. unfold INITRD_BASE. lia.
Qed.

Lemma compute_vm_layout_randomized_ok elf_span rtld_span pages mi window r1 r2 :
  spans_ok elf_span rtld_span pages window ->
  plan_ok (compute_vm_layout_randomized elf_span rtld_span pages mi window r1 r2).
Proof.
  intros Hsp. pose proof (compute_vm_layout_ok elf_span rtld_span pages mi window Hsp) as Hfb.
  destruct Hsp as [He Hr Hp Hw].
  destruct (slide_ok ASLR_CODE_MAX_PAGES r1 ltac:(done)) as [Hca Hcs].
  destruct (slide_ok ASLR_STACK_MAX_PAGES r2 ltac:(done)) as [Hsa Hss].
  unfold compute_vm_layout_randomized.
  set (cs := match r1 with Some v => _ | None => _ end) in *.
  set (ss := match r2 with Some v => _ | None => _ end) in *.
  change ((ASLR_CODE_MAX_PAGES - 1) * 0x1000) with 0xFF000 in Hcs.
  change ((ASLR_STACK_MAX_PAGES - 1) * 0x1000) with 0x3F000 in Hss.
  rewrite (wrap_small 64 (ELF_CODE_BASE + cs)) by (unfold ELF_CODE_BASE; lia).
  destruct (elf_region_ok cs elf_span Hca ltac:(lia) He) as (Heo & Heb & Hbase).
  pose proof (plan_code_ok _ rtld_span pages Heo Heb Hr Hp) as Hc. cbv zeta in *.
  match goal with |- context [if ?a <=? sat_sub DEFAULT_STACK_BASE _ then _ else _] =>
    destruct (Z.leb_spec a (sat_sub DEFAULT_STACK_BASE ss));
      [|destruct (Z.leb_spec a (sat_sub WINDOW2_STACK_BASE ss))] end.
  - exact (randomized_place _ _ _ _ DEFAULT_STACK_BASE ss mi window _ Hc Hbase
      (or_introl eq_refl) Hsa Hss ltac:(done) Hw).
  - exact (randomized_place _ _ _ _ WINDOW2_STACK_BASE ss mi window _ Hc Hbase
      (or_intror eq_refl) Hsa Hss ltac:(done) Hw).
  - done.
Qed.


Lemma sample_spans_ok : spans_ok 0x123456 0x20000 100 0x300000.
Proof. split; lia. Qed.


(** Without a random number generator (both draws [None]) the randomised
    planner returns exactly the deterministic plan, as documented. *)
Theorem vm_layout_no_rng elf_span rtld_span pages mi window :
  compute_vm_layout_randomized elf_span rtld_span pages mi window None None =
  compute_vm_layout elf_span rtld_span pages mi window.
Proof.
  unfold compute_vm_layout_randomized.
  change (ELF_CODE_BASE + 0)%u64 with ELF_CODE_BASE.
  change (sat_sub DEFAULT_STACK_BASE 0) with DEFAULT_STACK_BASE.
  change (sat_sub WINDOW2_STACK_BASE 0) with WINDOW2_STACK_BASE.
  match goal with |- (if ?a <=? DEFAULT_STACK_BASE then _ else _) = _ =>
    destruct (Z.leb_spec a DEFAULT_STACK_BASE) as [H1|H1];
      [|destruct (Z.leb_spec a WINDOW2_STACK_BASE) as [H2|H2]; [|done]] end;
  unfold compute_vm_layout;
  match goal with |- _ = ?rhs =>
    match rhs with context [if ?a <=? DEFAULT_STACK_BASE then _ else _] =>
      destruct (Z.leb_spec a DEFAULT_STACK_BASE); [try (exfalso; lia)|try (exfalso; lia)] end end.
  - reflexivity.
  - match goal with |- context [if ?a <=? WINDOW2_STACK_BASE then _ else _] =>
      destruct (Z.leb_spec a WINDOW2_STACK_BASE); [|exfalso; lia] end.
    reflexivity.
Qed.

(** ** Heap and mmap bases *)

Lemma raise_to_spec h r :
  region_ok r -> h <= raise_to h r /\ (0 < size r -> base r + size r <= raise_to h r) /\
  (raise_to h r = h \/ raise_to h r = base r + size r).
Proof.
  intros Hr. unfold raise_to. rewrite region_end_small by done. rewrite !Z.gtb_ltb.
  destruct (Z.ltb_spec 0 (size r)), (Z.ltb_spec h (base r + size r)); cbn [andb]; lia.
Qed.

Lemma max_step_spec h r :
  region_ok r -> h <= max_step h r /\ (0 < size r -> base r + size r <= max_step h r).
Proof.
  intros Hr. unfold max_step. rewrite region_end_small by done. rewrite Z.gtb_ltb.
  destruct (Z.eqb_spec (size r) 0); [lia|].
  destruct (Z.ltb_spec h (base r + size r)); lia.
Qed.

Lemma fold_max_step rs h :
  Forall region_ok rs ->
  h <= fold_left max_step rs h /\
  Forall (fun r => 0 < size r -> base r + size r <= fold_left max_step rs h) rs.
Proof.
  intros Hrs. revert h. induction Hrs as [|r rs Hr Hrs IH]; intros h; cbn [fold_left]; [by split|].
  destruct (IH (max_step h r)) as [H1 H2]. destruct (max_step_spec h r Hr) as [H3 H4].
  split; [lia|]. constructor; [lia|done].
Qed.

Lemma max_mapped_end_bound p : Forall region_ok (regions p) -> max_mapped_end p <= 2 ^ 47.
Proof.
  unfold max_mapped_end. intros Hrs. assert (0 <= 2 ^ 47) as Hh by done. revert Hh. generalize 0.
  induction Hrs as [|r rs Hr Hrs IH]; intros h Hh; cbn [fold_left]; [done|]. apply IH.
  unfold max_step. rewrite region_end_small by done. destruct Hr as (_ & _ & _ & _ & ?).
  repeat case_if; lia.
Qed.

Lemma region_bounds r : region_ok r -> 0 <= base r /\ 0 <= size r /\ base r + size r < 2 ^ 47.
Proof. intros (_ & _ & ? & ? & ?). lia. Qed.

Lemma code_end_bound p : Forall region_ok (regions p) -> 0 <= code_end p <= 2 ^ 47.
Proof.
  unfold regions. rewrite !Forall_cons. intros (_ & He & Hr & Hs & _).
  pose proof (region_bounds _ He). pose proof (region_bounds _ Hr). pose proof (region_bounds _ Hs).
  unfold code_end. rewrite !region_end_small by done. repeat case_if; lia.
Qed.

Lemma FOP_cons_inv {A} (R : A -> A -> Prop) a l :
  ForallOrdPairs R (a :: l) -> Forall (R a) l /\ ForallOrdPairs R l.
Proof. by inversion 1. Qed.

Lemma plan_below_stack p :
  plan_ok p ->
  Forall (fun r => 0 < size r -> base r + size r <= base (stack p))
    [ipc_buf p; elf_code p; rtld p; shared_libs p].
Proof.
  intros [_ Hord [Hst _]]. assert (0 < size (stack p)) by (rewrite Hst; done). clear Hst.
  unfold regions in Hord.
  apply FOP_cons_inv in Hord as [H1 Hord]. apply FOP_cons_inv in Hord as [H2 Hord].
  apply FOP_cons_inv in Hord as [H3 Hord]. apply FOP_cons_inv in Hord as [H4 _].
  apply (Forall_lookup_1 _ _ 3%nat (stack p)) in H1; [|done].
  apply (Forall_lookup_1 _ _ 2%nat (stack p)) in H2; [|done].
  apply (Forall_lookup_1 _ _ 1%nat (stack p)) in H3; [|done].
  apply (Forall_lookup_1 _ _ 0%nat (stack p)) in H4; [|done].
  unfold region_before in *.
  repeat apply Forall_cons_2; try apply Forall_nil_2; intros; lia.
Qed.

(** The address [heap_base] rounds up. *)
Definition heap_floor (p : VmLayoutPlan) : Z :=
  raise_to (raise_to (raise_to (code_end p) (stack p)) (scratch p)) (initrd p).

Lemma heap_floor_spec p :
  plan_ok p ->
  0 <= heap_floor p <= 2 ^ 47 /\
  Forall (fun r => 0 < size r -> base r + size r <= heap_floor p) (regions p).
Proof.
  intros Hp. pose proof (plan_below_stack p Hp) as Hbelow.
  destruct Hp as [Hreg _ [Hst _]]. pose proof (code_end_bound p Hreg) as Hce.
  assert (0 < size (stack p)) as Hpos by (rewrite Hst; done). clear Hst.
  unfold regions in *. rewrite !Forall_cons in Hreg. rewrite !Forall_cons in Hbelow. rewrite !Forall_cons.
  destruct Hreg as (_ & _ & _ & _ & Hs & Hc & Hi & _), Hbelow as (B1 & B2 & B3 & B4 & _).
  unfold heap_floor. set (h1 := raise_to (code_end p) (stack p)). set (h2 := raise_to h1 (scratch p)).
  destruct (raise_to_spec (code_end p) (stack p) Hs) as (? & ? & ?).
  destruct (raise_to_spec h1 (scratch p) Hc) as (? & ? & ?).
  destruct (raise_to_spec h2 (initrd p) Hi) as (? & ? & ?).
  pose proof (region_bounds _ Hs). pose proof (region_bounds _ Hc). pose proof (region_bounds _ Hi).
  subst h2 h1. split_and!; try lia. apply Forall_nil_2.
Qed.

(** the heap of a sound plan starts page aligned at or above the end of
    every used region, and the mmap area starts page aligned at least 256 MiB
    above both the heap base and every used region. *)
Theorem heap_and_mmap_above p :
  plan_ok p ->
  page_aligned (heap_base p) /\ page_aligned (compute_mmap_base p (heap_base p)) /\
  heap_base p + MMAP_BASE_GAP <= compute_mmap_base p (heap_base p) /\
  Forall (fun r => 0 < size r -> base r + size r <= heap_base p /\
            base r + size r + MMAP_BASE_GAP <= compute_mmap_base p (heap_base p)) (regions p).
Proof.
  intros Hp. destruct (heap_floor_spec p Hp) as [Hhb Habove]. pose proof (po_regions p Hp) as Hreg.
  destruct (page_align_up_spec (heap_floor p) ltac:(lia)) as [Hpa Hpb].
  change (page_align_up (heap_floor p)) with (heap_base p) in Hpa, Hpb.
  unfold compute_mmap_base. pose proof (max_mapped_end_bound p Hreg).
  destruct (fold_max_step (regions p) 0 Hreg) as [? Hmax]. fold (max_mapped_end p) in *.
  assert (MMAP_BASE_GAP = 0x10000000) by done.
  rewrite sat_add_spec, Z.min_r by (unfold U64_MAX; lia).
  destruct (page_align_up_spec (Z.max (max_mapped_end p) (heap_base p) + MMAP_BASE_GAP)) as [? ?];
    [lia|].
  split_and!; try done; [lia|].
  eapply Forall_impl; [exact Habove|]. cbn beta. intros r Hr Hs. specialize (Hr Hs). lia.
Qed.

Lemma heap_and_mmap_above_witness :
  let p := compute_vm_layout 0x123456 0x20000 100 true 0x300000 in
  heap_base p = 0x1300000 /\ 0x1300000 + MMAP_BASE_GAP <= compute_mmap_base p (heap_base p).
Proof.
  split; [vm_compute; reflexivity|].
  change 0x1300000 with (heap_base (compute_vm_layout 0x123456 0x20000 100 true 0x300000)).
  apply (heap_and_mmap_above (compute_vm_layout 0x123456 0x20000 100 true 0x300000)
    (compute_vm_layout_ok _ _ _ _ _ sample_spans_ok)).
Defined.

(** ** CSpace layout *)

Definition in_range (lo hi s : Z) : Prop := lo <= s < hi.
Definition disjoint_ranges (lo hi lo' hi' : Z) : Prop :=
  forall s, in_range lo hi s -> ~ in_range lo' hi' s.
Definition is_authority (pr : CspaceLayoutProfile) : bool :=
  match pr with DefaultService => false | Pager | BootstrapAuthority => true end.

Lemma profile_is_authority pr :
  bool_decide (pr = Pager) || bool_decide (pr = BootstrapAuthority) = is_authority pr.
Proof. by destruct pr. Qed.

Lemma recv_range_spec total pr :
  0 < total ->
  recv_range total pr = if is_authority pr then (Z.max 0 (total - 1024), total) else (0, 0).
Proof.
  intros Ht. unfold recv_range, AUTHORITY_RECV_SLOT_COUNT.
  rewrite profile_is_authority, (proj2 (Z.eqb_neq total 0)), andb_true_r by lia.
  destruct (is_authority pr); [|done]. rewrite sat_sub_spec. case_if; f_equal; lia.
Qed.

Lemma expand_range_spec total win :
  expand_range total win = if win && (1008 <? total) then (1008, Z.min total 1016) else (0, 0).
Proof.
  unfold expand_range, CSPACE_EXPAND_BASE, MAX_CSPACE_EXPANSIONS. destruct win; [|done].
  rewrite !Z.gtb_ltb.
  destruct (Z.ltb_spec 1008 total), (Z.ltb_spec total (1008 + 8)); cbn [andb]; try lia;
    match goal with |- context [?a <? ?b] => destruct (Z.ltb_spec a b) end;
    solve [done | lia | f_equal; lia].
Qed.

(** the CSpace contract a child gets: all ranges lie inside the CNode; the
    allocatable range is disjoint from the receive and the expansion range and
    starts, if non-empty, at the frame slot base (above the fixed slots and the
    caller's floor); the flags tell which ranges exist; and the receive and the
    expansion range are disjoint unless an authority service gets an expansion
    window in a CNode of exactly 1024 slots. *)
Theorem cspace_layout_spec bits floor pr win :
  0 <= bits < 63 -> 0 <= floor ->
  let l := compute_cspace_layout bits floor pr win in
  let total := 2 ^ bits in
  (0 <= alloc_base l <= alloc_limit l /\ alloc_limit l <= total) /\
  (0 <= recv_base l <= recv_limit l /\ recv_limit l <= total) /\
  (0 <= expand_base l <= expand_limit l /\ expand_limit l <= total) /\
  disjoint_ranges (alloc_base l) (alloc_limit l) (recv_base l) (recv_limit l) /\
  disjoint_ranges (alloc_base l) (alloc_limit l) (expand_base l) (expand_limit l) /\
  (0 < alloc_count l -> alloc_base l = frame_slot_base l) /\
  frame_slot_base l = Z.max floor CHILD_FRAME_SLOT_BASE /\
  Z.testbit (cs_flags l) 0 = has_recv_range l /\
  Z.testbit (cs_flags l) 1 = has_expand_range l /\
  has_recv_range l = is_authority pr /\
  (bits <> 10 \/ is_authority pr = false \/ win = false ->
   disjoint_ranges (recv_base l) (recv_limit l) (expand_base l) (expand_limit l)).
Proof.
  intros Hb Hf. cbv zeta. unfold compute_cspace_layout, disjoint_ranges, in_range, alloc_count,
    has_recv_range, has_expand_range.
  rewrite Z.geb_leb. destruct (Z.leb_spec 63 bits); [lia|].
  rewrite Z.shiftl_1_l, wrap_small by (apply pow2_range; lia).
  assert (0 < 2 ^ bits) as Ht by (apply Z.pow_pos_nonneg; lia).
  assert (bits <> 10 -> 2 ^ bits <= 512 \/ 2048 <= 2 ^ bits) as H10.
  { intros. destruct (Z_lt_dec bits 10).
    - left. change 512 with (2 ^ 9). apply Z.pow_le_mono_r; lia.
    - right. change 2048 with (2 ^ 11). apply Z.pow_le_mono_r; lia. }
  generalize dependent (2 ^ bits). intros total Ht H10.
  rewrite recv_range_spec, expand_range_spec by done. unfold CHILD_FRAME_SLOT_BASE.
  destruct (is_authority pr), win; cbn [andb]; repeat (case_if; cbn [alloc_base alloc_limit recv_base
    recv_limit expand_base expand_limit frame_slot_base cs_flags] in * ); try lia;
  split_and!; try lia; try (intros; lia); try done.
Qed.

Lemma cspace_layout_spec_witness :
  let l := compute_cspace_layout 12 80 Pager true in
  (alloc_base l, alloc_limit l, recv_base l, recv_limit l, expand_base l, expand_limit l)
    = (80, 1008, 3072, 4096, 1008, 1016) /\
  disjoint_ranges (alloc_base l) (alloc_limit l) (recv_base l) (recv_limit l).
Proof.
  split; [vm_compute; reflexivity|].
  apply (cspace_layout_spec 12 80 Pager true); lia.
Defined.

(** An authority service in a CNode of 1024 slots or fewer gets no allocatable
    slot at all, and with 1024 slots its receive range covers the expansion
    window. *)
Lemma cspace_layout_small_authority bits floor pr win :
  0 <= bits <= 10 -> is_authority pr = true ->
  let l := compute_cspace_layout bits floor pr win in
  alloc_count l = 0 /\ (recv_base l, recv_limit l) = (0, 2 ^ bits) /\
  (bits = 10 -> win = true -> (expand_base l, expand_limit l) = (1008, 1016)).
Proof.
  intros Hb Ha. cbv zeta. unfold compute_cspace_layout, alloc_count, CHILD_FRAME_SLOT_BASE.
  rewrite Z.geb_leb. destruct (Z.leb_spec 63 bits); [lia|].
  rewrite Z.shiftl_1_l, wrap_small by (apply pow2_range; lia).
  assert (0 < 2 ^ bits) as Ht by (apply Z.pow_pos_nonneg; lia).
  assert (2 ^ bits <= 2 ^ 10) by (apply Z.pow_le_mono_r; lia).
  rewrite recv_range_spec, expand_range_spec, Ha by done.
  rewrite Z.max_l, !Z.gtb_ltb, (proj2 (Z.ltb_lt 0 (2 ^ bits))) by lia.
  destruct (win && (1008 <? 2 ^ bits)) eqn:E; cbn [alloc_base alloc_limit recv_base recv_limit
    expand_base expand_limit]; rewrite ?Z.gtb_ltb; cbn [andb].
  - split_and!; try done; [repeat case_if; lia|]. intros -> _. done.
  - split_and!; try done; [repeat case_if; lia|]. intros -> ->. done.
Qed.

(** The deterministic planner never signals failure: however large the code
    regions are (within the bounds above), [stack_top] is not 0. *)
Lemma compute_vm_layout_never_fails elf_span rtld_span pages mi window :
  spans_ok elf_span rtld_span pages window ->
  0 < stack_top (compute_vm_layout elf_span rtld_span pages mi window).
Proof.
  intros Hs. pose proof (compute_vm_layout_ok _ _ _ mi _ Hs) as [Hr _ (H1 & H2 & _)].
  unfold regions in Hr. rewrite !Forall_cons in Hr. destruct Hr as (_ & _ & _ & _ & Hst & _).
  pose proof (region_bounds _ Hst). rewrite H2, H1. unfold CHILD_STACK_PAGES. lia.
Qed.
