(* ===== verification/Cpio.v ===== *)
(** The CPIO "newc" archive reader ([src/loader/cpio.rs]).

    The archive is a list of bytes; a read outside it is a fault ([None]), so
    that memory safety is a theorem and not built into the model.  Pointers
    into the archive are offsets. *)

From S2P Require Import Prelude.

Definition CPIO_HEADER_SIZE : Z := 110.

Record CpioEntry := mkEntry { name : Z; name_len : Z; data : Z; data_len : Z }.

Record CpioEntryExt := mkEntryExt {
  x_entry : CpioEntry;
  ino : Z; mode : Z; uid : Z; gid : Z; nlink : Z; mtime : Z;
}.

(** A load of one byte. *)
Definition rd (mem : list Z) (off : Z) : option Z :=
  if off <? 0 then None else mem !! Z.to_nat off.

(** [b'0'..=b'9'], [b'a'..=b'f'], [b'A'..=b'F'] *)
Definition hex_digit (b : Z) : option Z :=
  if (48 <=? b) && (b <=? 57) then Some (b - 48)
  else if (97 <=? b) && (b <=? 102) then Some (b - 97 + 10)
  else if (65 <=? b) && (b <=? 70) then Some (b - 65 + 10)
  else None.

(** The remaining [n] of the eight digits at [bytes]. *)
Fixpoint parse_hex (n : nat) (mem : list Z) (bytes val : Z) : option Z :=
  match n with
  | O => Some val
  | S n' =>
      b ← rd mem bytes;
      match hex_digit b with
      | None => Some 0
      | Some digit => parse_hex n' mem (bytes + 1) (Z.lor (val << 4)%u64 digit)
      end
  end.

Definition parse_hex8 (mem : list Z) (bytes : Z) : option Z := parse_hex 8 mem bytes 0.

Definition align4 (n : Z) : Z := Z.land (n + 3)%u64 (bnot 64 3).

(** Comparison of the bytes at [off] with given ones, stopping at the first
    difference. *)
Fixpoint eq_bytes (mem : list Z) (off : Z) (l : list Z) : option bool :=
  match l with
  | [] => Some true
  | b :: rest => c ← rd mem off; if c =? b then eq_bytes mem (off + 1) rest else Some false
  end.

Definition MAGIC : list Z := [48; 55; 48; 55; 48; 49].                        (* "070701" *)
Definition TRAILER : list Z := [84; 82; 65; 73; 76; 69; 82; 33; 33; 33].      (* "TRAILER!!!" *)

Definition check_magic (mem : list Z) (header : Z) : option bool := eq_bytes mem header MAGIC.

Definition is_trailer (mem : list Z) (name name_len : Z) : option bool :=
  if negb (name_len =? 10) then Some false else eq_bytes mem name TRAILER.

(** What the functions find at an offset, up to and including the check that
    the name lies inside the archive. *)
Inductive Header :=
| HdrTruncated
| HdrBadMagic
| HdrNameTruncated
| Hdr (namesize filesize name_start entry_name_len : Z).

Definition read_header (mem : list Z) (archive_len off : Z) : option Header :=
  if (off + CPIO_HEADER_SIZE)%u64 >? archive_len then Some HdrTruncated else
  let header := off in
  magic ← check_magic mem header;
  if negb magic then Some HdrBadMagic else
  namesize ← parse_hex8 mem (header + 94);
  filesize ← parse_hex8 mem (header + 54);
  let name_start := (off + CPIO_HEADER_SIZE)%u64 in
  if (name_start + namesize)%u64 >? archive_len then Some HdrNameTruncated else
  let entry_name := name_start in
  if namesize >? 0 then
    last ← rd mem (entry_name + (namesize - 1));
    Some (Hdr namesize filesize name_start (if last =? 0 then namesize - 1 else namesize))
  else Some (Hdr namesize filesize name_start namesize).

(** The entry at [off] and the offset of the next one; [None] inside: no
    further entry. *)
Definition next_entry (mem : list Z) (archive_len off : Z) : option (option (CpioEntry * Z)) :=
  h ← read_header mem archive_len off;
  match h with
  | Hdr namesize filesize entry_name entry_name_len =>
      trailer ← is_trailer mem entry_name entry_name_len;
      if (trailer : bool) then Some None else
      let data_start := align4 ((off + CPIO_HEADER_SIZE)%u64 + namesize)%u64 in
      let data_end := (data_start + filesize)%u64 in
      if data_end >? archive_len then Some None else
      Some (Some (mkEntry entry_name entry_name_len data_start filesize, align4 data_end))
  | _ => Some None
  end.

(** The metadata fields of the header at [header], [as u32]. *)
Definition read_ext (mem : list Z) (header : Z) (e : CpioEntry) : option CpioEntryExt :=
  ino ← parse_hex8 mem (header + 6);
  mode ← parse_hex8 mem (header + 14);
  uid ← parse_hex8 mem (header + 22);
  gid ← parse_hex8 mem (header + 30);
  nlink ← parse_hex8 mem (header + 38);
  mtime ← parse_hex8 mem (header + 46);
  Some (mkEntryExt e (as_u32 ino) (as_u32 mode) (as_u32 uid) (as_u32 gid) (as_u32 nlink)
          (as_u32 mtime)).

(** [cpio_next]: return code, [*entry], [*offset]. *)
Definition cpio_next (mem : list Z) (archive_len offset : Z) (entry : CpioEntry)
    : option (Z * CpioEntry * Z) :=
  r ← next_entry mem archive_len offset;
  match r with
  | None => Some (0, entry, offset)
  | Some (e, next) => Some (1, e, next)
  end.

Definition cpio_next_ext (mem : list Z) (archive_len offset : Z) (entry : CpioEntryExt)
    : option (Z * CpioEntryExt * Z) :=
  r ← next_entry mem archive_len offset;
  match r with
  | None => Some (0, entry, offset)
  | Some (e, next) => x ← read_ext mem offset e; Some (1, x, next)
  end.

(** The name comparison of the searches. *)
Definition names_match (mem : list Z) (e : CpioEntry) (nm : list Z) : option bool :=
  if negb (name_len e =? Z.of_nat (length nm)) then Some false else eq_bytes mem (name e) nm.

(** The searches' loop; running out of fuel is its own result. *)
Inductive Outcome (A : Type) := Fault | OutOfFuel | Ret (a : A).
Arguments Fault {A}.
Arguments OutOfFuel {A}.
Arguments Ret {A} _.

Definition lift {A B} (o : option A) (f : A -> Outcome B) : Outcome B :=
  match o with None => Fault | Some a => f a end.

Fixpoint find_loop {X} (fuel : nat) (finish : Z -> CpioEntry -> option X)
    (mem : list Z) (archive_len : Z) (nm : list Z) (offset : Z) : Outcome (option X) :=
  match fuel with
  | O => OutOfFuel
  | S fuel' =>
      lift (next_entry mem archive_len offset) (fun r =>
      match r with
      | None => Ret None
      | Some (e, next) =>
          lift (names_match mem e nm) (fun found : bool =>
          if found then lift (finish offset e) (fun x => Ret (Some x))
          else find_loop fuel' finish mem archive_len nm next)
      end)
  end.

(** Every turn advances the offset by at least a header. *)
Definition search_fuel (archive_len : Z) : nat := S (Z.to_nat (archive_len `div` CPIO_HEADER_SIZE)).

(** [Ret (Some e)]: returned 1 with [*entry = e]; [Ret None]: returned 0. *)
Definition cpio_find_file (mem : list Z) (archive_len : Z) (nm : list Z)
    : Outcome (option CpioEntry) :=
  find_loop (search_fuel archive_len) (fun _ e => Some e) mem archive_len nm 0.

Definition cpio_find_file_ext (mem : list Z) (archive_len : Z) (nm : list Z)
    : Outcome (option CpioEntryExt) :=
  find_loop (search_fuel archive_len) (fun header e => read_ext mem header e)
    mem archive_len nm 0.

Fixpoint size_loop (fuel : nat) (mem : list Z) (max_len offset : Z) : Outcome Z :=
  match fuel with
  | O => OutOfFuel
  | S fuel' =>
      lift (read_header mem max_len offset) (fun h =>
      match h with
      | HdrTruncated => Ret max_len
      | HdrBadMagic => Ret offset
      | HdrNameTruncated => Ret max_len
      | Hdr namesize filesize entry_name entry_name_len =>
          let data_start := align4 ((offset + CPIO_HEADER_SIZE)%u64 + namesize)%u64 in
          let data_end := (data_start + filesize)%u64 in
          let next_offset := align4 data_end in
          lift (is_trailer mem entry_name entry_name_len) (fun trailer : bool =>
          if trailer then Ret next_offset
          else if data_end >? max_len then Ret max_len
          else size_loop fuel' mem max_len next_offset)
      end)
  end.

Definition cpio_archive_size (mem : list Z) (max_len : Z) : Outcome Z :=
  size_loop (search_fuel max_len) mem max_len 0.

(** ** Reading bytes *)

Lemma rd_Some mem off : 0 <= off < Z.of_nat (length mem) -> is_Some (rd mem off).
Proof.
  intros. unfold rd. destruct (Z.ltb_spec off 0); [lia|]. apply lookup_lt_is_Some. lia.
Qed.

Lemma hex_digit_range b d : hex_digit b = Some d -> 0 <= d < 16.
Proof. unfold hex_digit. repeat case_if; intros [= <-]; lia. Qed.

Lemma lor_digit val d : 0 <= val < 2 ^ 60 -> 0 <= d < 16 -> Z.lor (val << 4)%u64 d = val * 16 + d.
Proof.
  intros Hv Hd. rewrite Z.shiftl_mul_pow2, wrap_small by lia. change (2 ^ 4) with 16.
  assert (Z.land (val * 16) d = 0) as H0.
  { apply Z.bits_inj'. intros i Hi. rewrite Z.land_spec, Z.bits_0.
    change 16 with (2 ^ 4). rewrite <- Z.shiftl_mul_pow2, Z.shiftl_spec by lia.
    destruct (Z_lt_dec i 4);
      [by rewrite Z.testbit_neg_r by lia | by rewrite (testbit_high 4 d), andb_false_r by lia]. }
  by rewrite <- Z.lxor_lor, <- Z.add_nocarry_lxor.
Qed.

Lemma parse_hex_total n mem bytes val :
  0 <= bytes -> bytes + Z.of_nat n <= Z.of_nat (length mem) -> (n <= 8)%nat ->
  0 <= val < 16 ^ (8 - Z.of_nat n) ->
  exists v, parse_hex n mem bytes val = Some v /\ 0 <= v < 2 ^ 32.
Proof.
  revert bytes val. induction n as [|n IH]; intros bytes val Hb Hm Hn Hv; cbn [parse_hex].
  - exists val. split; [done|]. change (2 ^ 32) with (16 ^ 8). by rewrite Z.sub_0_r in Hv.
  - destruct (rd_Some mem bytes ltac:(lia)) as [b ->]. cbn [mbind option_bind].
    destruct (hex_digit b) as [d|] eqn:Hd; [|eexists; split; [done|lia]].
    pose proof (hex_digit_range b d Hd).
    assert (16 ^ (8 - Z.of_nat (S n)) <= 2 ^ 60) as Hle.
    { change 16 with (2 ^ 4). rewrite <- Z.pow_mul_r by lia. apply Z.pow_le_mono_r; lia. }
    rewrite lor_digit by lia. apply IH; try lia.
    replace (8 - Z.of_nat n) with (Z.succ (8 - Z.of_nat (S n))) by lia.
    rewrite Z.pow_succ_r by lia. lia.
Qed.

Lemma parse_hex8_total mem bytes :
  0 <= bytes -> bytes + 8 <= Z.of_nat (length mem) ->
  exists v, parse_hex8 mem bytes = Some v /\ 0 <= v < 2 ^ 32.
Proof. intros. apply parse_hex_total; cbn; lia. Qed.

Lemma eq_bytes_total mem off l :
  0 <= off -> off + Z.of_nat (length l) <= Z.of_nat (length mem) ->
  exists r, eq_bytes mem off l = Some r.
Proof.
  revert off. induction l as [|b l IH]; intros off Ho Hm; cbn [eq_bytes length] in *; [by eexists|].
  destruct (rd_Some mem off ltac:(lia)) as [c ->]. cbn [mbind option_bind].
  case_if; [apply IH; lia | by eexists].
Qed.

(** [l] is what memory holds from [off] on. *)
Definition occurs (mem : list Z) (off : Z) (l : list Z) : Prop :=
  0 <= off /\ forall i b, l !! i = Some b -> rd mem (off + Z.of_nat i) = Some b.

Lemma occurs_cons mem off b l :
  occurs mem off (b :: l) <-> rd mem off = Some b /\ occurs mem (off + 1) l.
Proof.
  split.
  - intros [Ho H]. split.
    + rewrite <- (H 0%nat b) by done. f_equal. lia.
    + split; [lia|]. intros i c Hi. rewrite <- (H (S i) c) by done. f_equal. lia.
  - intros [Hb [Ho H]]. split.
    + unfold rd in Hb. destruct (Z.ltb_spec off 0); [done|lia].
    + intros [|i] c Hi; cbn in Hi.
      * injection Hi as [= <-]. by rewrite Z.add_0_r.
      * rewrite <- (H i c) by done. f_equal. lia.
Qed.

Lemma occurs_app mem off l1 l2 :
  occurs mem off (l1 ++ l2) <-> occurs mem off l1 /\ occurs mem (off + Z.of_nat (length l1)) l2.
Proof.
  split.
  - intros [Ho H]. split; (split; [lia|]); intros i b Hi.
    + apply H. by apply lookup_app_l_Some.
    + rewrite <- (H (length l1 + i)%nat b); [f_equal; lia|].
      rewrite lookup_app_r by lia. by rewrite Nat.add_comm, Nat.add_sub.
  - intros [[Ho H1] [_ H2]]. split; [done|]. intros i b [Hi|[Hle Hi]]%lookup_app_Some.
    + by apply H1.
    + rewrite <- (H2 _ _ Hi). f_equal. lia.
Qed.

Lemma occurs_middle pre l post : occurs (pre ++ l ++ post) (Z.of_nat (length pre)) l.
Proof.
  split; [lia|]. intros i b Hi. unfold rd. destruct (Z.ltb_spec (Z.of_nat (length pre) + Z.of_nat i) 0); [lia|].
  replace (Z.to_nat _) with (length pre + i)%nat by lia.
  rewrite lookup_app_r by lia. rewrite Nat.add_comm, Nat.add_sub. by apply lookup_app_l_Some.
Qed.

Lemma eq_bytes_occurs mem off l : eq_bytes mem off l = Some true -> 0 <= off -> occurs mem off l.
Proof.
  revert off. induction l as [|b l IH]; intros off H Ho; cbn [eq_bytes] in H; [by split|].
  destruct (rd mem off) as [c|] eqn:Hc; [|done]. cbn [mbind option_bind] in H.
  destruct (Z.eqb_spec c b) as [->|]; [|done]. apply occurs_cons. split; [done|]. apply IH; [done|lia].
Qed.

Lemma occurs_eq_bytes mem off l l' :
  occurs mem off l -> length l' = length l -> eq_bytes mem off l' = Some (bool_decide (l' = l)).
Proof.
  revert off l'. induction l as [|b l IH]; intros off [|b' l'] H Hl; try done.
  apply occurs_cons in H as [Hb H]. cbn [eq_bytes]. rewrite Hb. cbn [mbind option_bind].
  destruct (Z.eqb_spec b b') as [<-|Hne].
  - rewrite (IH _ l') by (done || by injection Hl). f_equal. apply bool_decide_ext. split; congruence.
  - symmetry. f_equal. apply bool_decide_eq_false. congruence.
Qed.

(** ** Safety and termination on arbitrary bytes *)

(** The buffer really has [archive_len] bytes (and is no larger than the
    address space allows). *)
Definition mem_ok (mem : list Z) (archive_len : Z) : Prop :=
  0 <= archive_len <= Z.of_nat (length mem) /\ archive_len <= 2 ^ 62.

Lemma align4_spec n : 0 <= n <= 2 ^ 63 -> n <= align4 n < n + 4 /\ align4 n mod 4 = 0.
Proof.
  intros Hn. unfold align4. rewrite wrap_small by lia.
  exact (align_up_spec 64 2 n ltac:(lia) ltac:(lia) ltac:(lia)).
Qed.

Definition header_ok (L off : Z) (h : Header) : Prop :=
  match h with
  | HdrTruncated => L < off + 110
  | Hdr ns fs st nl =>
      st = off + 110 /\ off + 110 + ns <= L /\ 0 <= nl <= ns /\ 0 <= fs < 2 ^ 32
  | _ => off + 110 <= L
  end.

Lemma read_header_total mem L off :
  mem_ok mem L -> 0 <= off <= L + 3 ->
  exists h, read_header mem L off = Some h /\ header_ok L off h.
Proof.
  intros [HL Hmax] Ho. unfold read_header, CPIO_HEADER_SIZE. rewrite (wrap_small 64 (off + 110)) by lia.
  rewrite Z.gtb_ltb. destruct (Z.ltb_spec L (off + 110)); [eexists; split; [done|cbn; lia]|].
  destruct (eq_bytes_total mem off MAGIC (proj1 Ho)) as [m Hm]; [cbn; lia|].
  unfold check_magic. rewrite Hm. cbn [mbind option_bind].
  destruct m; cbn [negb]; [|eexists; split; [done|cbn; lia]].
  destruct (parse_hex8_total mem (off + 94)) as (ns & -> & Hns); [lia..|].
  destruct (parse_hex8_total mem (off + 54)) as (fs & -> & Hfs); [lia..|]. cbn [mbind option_bind].
  rewrite wrap_small, Z.gtb_ltb by lia.
  destruct (Z.ltb_spec L (off + 110 + ns)); [eexists; split; [done|cbn; lia]|].
  rewrite Z.gtb_ltb. destruct (Z.ltb_spec 0 ns); [|eexists; split; [done|cbn; lia]].
  destruct (rd_Some mem (off + 110 + (ns - 1)) ltac:(lia)) as [b ->]. cbn [mbind option_bind].
  eexists. split; [done|]. cbn. case_if; lia.
Qed.

Record entry_ok (L off : Z) (e : CpioEntry) (next : Z) : Prop := {
  eo_name : name e = off + 110 /\ 0 <= name_len e /\ name e + name_len e <= L;
  eo_data : name e + name_len e <= data e /\ data e mod 4 = 0 /\
            0 <= data_len e /\ data e + data_len e <= L;
  eo_next : data e + data_len e <= next < data e + data_len e + 4 /\ next mod 4 = 0;
}.

Lemma is_trailer_total mem L off nl :
  mem_ok mem L -> 0 <= off -> off + nl <= L -> exists t, is_trailer mem off nl = Some t.
Proof.
  intros [? ?] ? ?. unfold is_trailer. destruct (Z.eqb_spec nl 10); cbn [negb]; [|by eexists].
  apply eq_bytes_total; [done|cbn; lia].
Qed.

Lemma next_entry_total mem L off :
  mem_ok mem L -> 0 <= off <= L + 3 ->
  exists r, next_entry mem L off = Some r /\
    match r with None => True | Some (e, next) => entry_ok L off e next end.
Proof.
  intros Hm Ho. unfold next_entry.
  destruct (read_header_total mem L off Hm Ho) as (h & -> & Hh). cbn [mbind option_bind].
  destruct h as [| | |ns fs st nl]; try (by eexists). cbn in Hh. destruct Hh as (-> & Hn & Hnl & Hfs).
  destruct (is_trailer_total mem L (off + 110) nl Hm ltac:(lia) ltac:(lia)) as [t ->].
  cbn [mbind option_bind]. destruct t; [by eexists|]. destruct Hm as [? ?]. unfold CPIO_HEADER_SIZE.
  rewrite (wrap_small 64 (off + 110)), (wrap_small 64 (off + 110 + ns)) by lia.
  destruct (align4_spec (off + 110 + ns) ltac:(lia)) as [Ha Ham].
  rewrite wrap_small by lia. rewrite Z.gtb_ltb.
  destruct (Z.ltb_spec L (align4 (off + 110 + ns) + fs)); [by eexists|].
  destruct (align4_spec (align4 (off + 110 + ns) + fs) ltac:(lia)) as [Hb Hbm].
  eexists. split; [done|]. split; cbn [name name_len data data_len]; split_and!; done || lia.
Qed.

Lemma entry_ok_next L off e next :
  entry_ok L off e next -> 0 <= off -> off + 110 <= next <= L + 3.
Proof. intros [] ?. lia. Qed.

Lemma names_match_total mem L off e next nm :
  mem_ok mem L -> 0 <= off -> entry_ok L off e next ->
  exists b, names_match mem e nm = Some b /\
    (b = true -> name_len e = Z.of_nat (length nm) /\ occurs mem (name e) nm).
Proof.
  intros [HL _] Ho [Hn _ _]. unfold names_match.
  destruct (Z.eqb_spec (name_len e) (Z.of_nat (length nm))) as [E|]; cbn [negb];
    [|by eexists].
  destruct (eq_bytes_total mem (name e) nm) as [b Hb]; [lia..|].
  exists b. split; [done|]. intros ->. split; [done|]. apply eq_bytes_occurs; [done|lia].
Qed.

Lemma read_ext_total mem L off e next :
  mem_ok mem L -> 0 <= off -> entry_ok L off e next ->
  exists x, read_ext mem off e = Some x /\ x_entry x = e.
Proof.
  intros [HL _] Ho [(Hn & ? & ?) _ _]. unfold read_ext.
  destruct (parse_hex8_total mem (off + 6)) as (? & -> & _); [lia..|].
  destruct (parse_hex8_total mem (off + 14)) as (? & -> & _); [lia..|].
  destruct (parse_hex8_total mem (off + 22)) as (? & -> & _); [lia..|].
  destruct (parse_hex8_total mem (off + 30)) as (? & -> & _); [lia..|].
  destruct (parse_hex8_total mem (off + 38)) as (? & -> & _); [lia..|].
  destruct (parse_hex8_total mem (off + 46)) as (? & -> & _); [lia..|].
  by eexists.
Qed.

Definition enough_fuel (fuel : nat) (L off : Z) : Prop :=
  1 + Z.max 0 (L - off) / 110 <= Z.of_nat fuel.

Lemma enough_fuel_next fuel L off next :
  enough_fuel (S fuel) L off -> 0 <= off -> off + 110 <= L -> off + 110 <= next ->
  enough_fuel fuel L next.
Proof.
  unfold enough_fuel. intros Hf Ho HL Hn.
  assert (Z.max 0 (L - next) / 110 + 1 <= Z.max 0 (L - off) / 110); [|lia].
  replace (Z.max 0 (L - next) / 110 + 1) with ((Z.max 0 (L - next) + 1 * 110) / 110)
    by (rewrite Z.div_add by lia; lia).
  apply Z.div_le_mono; lia.
Qed.

Lemma enough_fuel_S L off : enough_fuel 0 L off -> False.
Proof. unfold enough_fuel. pose proof (Z.div_pos (Z.max 0 (L - off)) 110). lia. Qed.

Lemma search_fuel_enough L : 0 <= L -> enough_fuel (search_fuel L) L 0.
Proof.
  intros. unfold enough_fuel, search_fuel, CPIO_HEADER_SIZE. rewrite Z.sub_0_r, Z.max_r by lia.
  pose proof (Z.div_pos L 110). lia.
Qed.

(** The searches against the iterator: the entries [cpio_next] yields. *)
Fixpoint cpio_entries (fuel : nat) (mem : list Z) (L off : Z) : list (Z * CpioEntry) :=
  match fuel with
  | O => []
  | S fuel' =>
      match next_entry mem L off with
      | Some (Some (e, next)) => (off, e) :: cpio_entries fuel' mem L next
      | _ => []
      end
  end.

Definition first_match (mem : list Z) (nm : list Z) (l : list (Z * CpioEntry)) : option (Z * CpioEntry) :=
  List.find (fun '(_, e) => match names_match mem e nm with Some b => b | None => false end) l.

Lemma find_loop_spec {X} fuel (finish : Z -> CpioEntry -> option X) mem L nm off :
  mem_ok mem L -> 0 <= off <= L + 3 -> enough_fuel fuel L off ->
  (forall off e next, 0 <= off -> entry_ok L off e next -> is_Some (finish off e)) ->
  find_loop fuel finish mem L nm off =
    Ret (first_match mem nm (cpio_entries fuel mem L off) ≫= fun '(o, e) => finish o e).
Proof.
  intros Hm Ho Hf Hfin. revert off Ho Hf. induction fuel as [|fuel IH]; intros off Ho Hf.
  { by apply enough_fuel_S in Hf. }
  cbn [find_loop cpio_entries].
  destruct (next_entry_total mem L off Hm Ho) as (r & -> & Hr). cbn [lift].
  destruct r as [[e next]|]; [|done]. pose proof (entry_ok_next _ _ _ _ Hr ltac:(lia)) as Hnx.
  destruct (names_match_total mem L off e next nm Hm ltac:(lia) Hr) as (b & Hb & _).
  unfold first_match. cbn [List.find]. rewrite Hb. cbn [lift]. destruct b; cbn [mbind option_bind].
  - destruct (Hfin off e next ltac:(lia) Hr) as [x ->]. done.
  - apply IH; [lia|]. apply (enough_fuel_next fuel L off); try done; try lia.
    destruct Hr as [(-> & ? & ?) _ _]. lia.
Qed.

Lemma first_match_ok fuel mem L nm off o e :
  mem_ok mem L -> 0 <= off <= L + 3 ->
  first_match mem nm (cpio_entries fuel mem L off) = Some (o, e) ->
  0 <= o /\ (exists next, entry_ok L o e next) /\
  name_len e = Z.of_nat (length nm) /\ occurs mem (name e) nm.
Proof.
  intros Hm. revert off. induction fuel as [|fuel IH]; intros off Ho; [done|]. cbn [cpio_entries].
  destruct (next_entry_total mem L off Hm Ho) as (r & -> & Hr).
  destruct r as [[e' next]|]; [|done]. pose proof (entry_ok_next _ _ _ _ Hr ltac:(lia)) as Hnx.
  destruct (names_match_total mem L off e' next nm Hm ltac:(lia) Hr) as (b & Hb & Hbt).
  unfold first_match. cbn [List.find]. rewrite Hb. destruct b.
  - intros [= -> ->]. split; [lia|]. split; [by exists next|]. by apply Hbt.
  - apply IH. lia.
Qed.

(** searching arbitrary bytes never reads outside the buffer and always
    terminates.  The result is the first entry, in the order [cpio_next] visits
    them, whose name is the one asked for; its name and data lie inside the
    archive; and the extended search finds the same entry. *)
Theorem cpio_find_spec mem L nm :
  mem_ok mem L ->
  exists r,
    cpio_find_file mem L nm = Ret r /\
    r = snd <$> first_match mem nm (cpio_entries (search_fuel L) mem L 0) /\
    (forall e, r = Some e ->
       name_len e = Z.of_nat (length nm) /\ occurs mem (name e) nm /\
       0 <= name e /\ name e + name_len e <= data e /\
       0 <= data_len e /\ data e + data_len e <= L) /\
    exists rx, cpio_find_file_ext mem L nm = Ret rx /\ x_entry <$> rx = r.
Proof.
  intros Hm. assert (0 <= L) by apply Hm. pose proof (search_fuel_enough L ltac:(lia)) as Hf.
  pose proof (find_loop_spec _ (fun _ e => Some e) mem L nm 0 Hm ltac:(lia) Hf ltac:(eauto)) as H1.
  pose proof (find_loop_spec _ (fun o e => read_ext mem o e) mem L nm 0 Hm ltac:(lia) Hf) as H2.
  specialize (H2 ltac:(intros o e nx ? ?; destruct (read_ext_total mem L o e nx) as (x & -> & _); eauto)).
  unfold cpio_find_file, cpio_find_file_ext. rewrite H1, H2. clear H1 H2.
  destruct (first_match mem nm (cpio_entries (search_fuel L) mem L 0)) as [[o e]|] eqn:E;
    cbn [mbind option_bind fmap option_fmap option_map snd].
  - destruct (first_match_ok (search_fuel L) mem L nm 0 o e Hm ltac:(lia) E)
      as (Ho & (nx & Hok) & Hl & Hocc).
    destruct (read_ext_total mem L o e nx Hm Ho Hok) as (x & Hx & Hxe).
    eexists. split; [done|]. split; [done|]. split.
    + intros ? [= <-]. destruct Hok as [? ? ?]. split_and!; done || lia.
    + exists (Some x). rewrite Hx. split; [done|]. cbn. by rewrite Hxe.
  - eexists. split; [done|]. split; [done|]. split; [done|]. by exists None.
Qed.

Lemma size_loop_total fuel mem L off :
  mem_ok mem L -> 0 <= off <= L + 3 -> enough_fuel fuel L off ->
  exists n, size_loop fuel mem L off = Ret n /\ 0 <= n <= L + 2 ^ 32 + 8.
Proof.
  intros Hm. revert off. induction fuel as [|fuel IH]; intros off Ho Hf.
  { by apply enough_fuel_S in Hf. }
  cbn [size_loop]. destruct (read_header_total mem L off Hm Ho) as (h & -> & Hh). cbn [lift].
  pose proof Hm as [? ?]. destruct h as [| | |ns fs st nl]; cbn in Hh; try (eexists; split; [done|lia]).
  destruct Hh as (-> & Hn & Hnl & Hfs).
  destruct (is_trailer_total mem L (off + 110) nl Hm ltac:(lia) ltac:(lia)) as [t ->]. cbn [lift].
  unfold CPIO_HEADER_SIZE.
  rewrite (wrap_small 64 (off + 110)), (wrap_small 64 (off + 110 + ns)) by lia.
  destruct (align4_spec (off + 110 + ns) ltac:(lia)) as [Ha _].
  rewrite wrap_small by lia.
  destruct (align4_spec (align4 (off + 110 + ns) + fs) ltac:(lia)) as [Hb _].
  destruct t; [eexists; split; [done|lia]|]. rewrite Z.gtb_ltb.
  destruct (Z.ltb_spec L (align4 (off + 110 + ns) + fs)); [eexists; split; [done|lia]|].
  apply IH; [lia|]. apply (enough_fuel_next fuel L off); done || lia.
Qed.

(** ** Archives in newc format *)

Definition hexchar (d : Z) : Z := if d <? 10 then 48 + d else 87 + d.

Fixpoint digits (n : nat) (v : Z) : list Z :=
  match n with O => [] | S n' => digits n' (v `div` 16) ++ [v `mod` 16] end.

Definition hex8 (v : Z) : list Z := map hexchar (digits 8 v).

Record File := mkFile {
  f_name : list Z; f_data : list Z;
  f_ino : Z; f_mode : Z; f_uid : Z; f_gid : Z; f_nlink : Z; f_mtime : Z;
}.

Definition pad4 (n : nat) : list Z := replicate (Z.to_nat ((- Z.of_nat n) mod 4)) 0.

Definition encode_header (f : File) : list Z :=
  MAGIC ++ hex8 (f_ino f) ++ hex8 (f_mode f) ++ hex8 (f_uid f) ++ hex8 (f_gid f) ++
  hex8 (f_nlink f) ++ hex8 (f_mtime f) ++ hex8 (Z.of_nat (length (f_data f))) ++
  hex8 0 ++ hex8 0 ++ hex8 0 ++ hex8 0 ++ hex8 (Z.of_nat (length (f_name f)) + 1) ++ hex8 0.

Definition encode_file (f : File) : list Z :=
  encode_header f ++ (f_name f ++ [0]) ++ pad4 (110 + (length (f_name f) + 1)) ++
  f_data f ++ pad4 (length (f_data f)).

Definition trailer : File := mkFile TRAILER [] 0 0 0 0 1 0.

Definition encode_archive (fs : list File) : list Z :=
  concat (map encode_file fs) ++ encode_file trailer.

Record file_wf (f : File) : Prop := {
  fw_name : Z.of_nat (length (f_name f)) + 1 < 2 ^ 32;
  fw_data : Z.of_nat (length (f_data f)) < 2 ^ 32;
  fw_meta : Forall (in_u 32) [f_ino f; f_mode f; f_uid f; f_gid f; f_nlink f; f_mtime f];
}.

Lemma length_digits n v : length (digits n v) = n.
Proof. revert v. induction n; intros; cbn; [done|]. rewrite length_app, IHn. cbn. lia. Qed.

Lemma length_hex8 v : length (hex8 v) = 8%nat.
Proof. unfold hex8. by rewrite length_map, length_digits. Qed.

Lemma length_encode_header f : length (encode_header f) = 110%nat.
Proof. unfold encode_header. rewrite !length_app, !length_hex8. done. Qed.

Lemma digits_range n v : Forall (fun d => 0 <= d < 16) (digits n v).
Proof.
  revert v. induction n; intros; cbn; [done|]. apply Forall_app. split; [done|].
  repeat constructor; apply Z.mod_pos_bound; lia.
Qed.

Lemma digits_value n v :
  0 <= v < 16 ^ Z.of_nat n -> fold_left (fun a d => a * 16 + d) (digits n v) 0 = v.
Proof.
  revert v. induction n as [|n IH]; intros v Hv; cbn [digits].
  - change (16 ^ Z.of_nat 0) with 1 in Hv. cbn. lia.
  - rewrite Nat2Z.inj_succ, Z.pow_succ_r in Hv by lia. rewrite fold_left_app, IH.
    + cbn. pose proof (Z.div_mod v 16). lia.
    + split; [apply Z.div_pos; lia | apply Z.div_lt_upper_bound; lia].
Qed.

Lemma hex_digit_hexchar d : 0 <= d < 16 -> hex_digit (hexchar d) = Some d.
Proof.
  intros Hd. unfold hexchar, hex_digit.
  destruct (Z.ltb_spec d 10);
    repeat match goal with |- context [?a <=? ?b] => destruct (Z.leb_spec a b); try lia end;
    cbn [andb]; f_equal; lia.
Qed.

Lemma parse_hex_digits ds mem off val :
  Forall (fun d => 0 <= d < 16) ds -> (length ds <= 8)%nat ->
  0 <= val < 16 ^ (8 - Z.of_nat (length ds)) -> occurs mem off (map hexchar ds) ->
  parse_hex (length ds) mem off val = Some (fold_left (fun a d => a * 16 + d) ds val).
Proof.
  intros Hds. revert off val. induction Hds as [|d ds Hd Hds IH]; intros off val Hl Hv Hocc;
    cbn [parse_hex length fold_left map] in *; [done|].
  apply occurs_cons in Hocc as [-> Hocc]. cbn [mbind option_bind]. rewrite hex_digit_hexchar by done.
  assert (16 ^ (8 - Z.of_nat (S (length ds))) <= 2 ^ 60) as Hle.
  { change 16 with (2 ^ 4). rewrite <- Z.pow_mul_r by lia. apply Z.pow_le_mono_r; lia. }
  rewrite lor_digit by lia. apply IH; [lia| |done].
  replace (8 - Z.of_nat (length ds)) with (Z.succ (8 - Z.of_nat (S (length ds)))) by lia.
  rewrite Z.pow_succ_r by lia. lia.
Qed.

Lemma parse_hex8_hex8 mem off v :
  0 <= v < 2 ^ 32 -> occurs mem off (hex8 v) -> parse_hex8 mem off = Some v.
Proof.
  intros Hv Hocc. unfold parse_hex8. rewrite <- (length_digits 8 v) at 1.
  rewrite parse_hex_digits; rewrite ?length_digits; try done.
  - by rewrite digits_value.
  - apply digits_range.
Qed.

Lemma align4_eq n : 0 <= n <= 2 ^ 63 -> align4 n = n + (- n) mod 4.
Proof.
  intros Hn. destruct (align4_spec n Hn) as [Ha Hm].
  Z.to_euclidean_division_equations. lia.
Qed.

Lemma mod4_shift off n : off mod 4 = 0 -> (- (off + n)) mod 4 = (- n) mod 4.
Proof. intros. Z.to_euclidean_division_equations. lia. Qed.

Lemma length_pad4 n : Z.of_nat (length (pad4 n)) = (- Z.of_nat n) mod 4.
Proof.
  unfold pad4. rewrite length_replicate. pose proof (Z.mod_pos_bound (- Z.of_nat n) 4). lia.
Qed.

Definition name_pad (f : File) : Z := (- (110 + (Z.of_nat (length (f_name f)) + 1))) mod 4.
Definition data_pad (f : File) : Z := (- Z.of_nat (length (f_data f))) mod 4.
Definition file_size (f : File) : Z :=
  110 + (Z.of_nat (length (f_name f)) + 1) + name_pad f + Z.of_nat (length (f_data f)) + data_pad f.

Lemma length_encode_file f : Z.of_nat (length (encode_file f)) = file_size f.
Proof.
  unfold encode_file, file_size, name_pad, data_pad.
  rewrite !length_app, length_encode_header, !Nat2Z.inj_add, !length_pad4. cbn [length].
  rewrite !Nat2Z.inj_add. change (Z.of_nat 110) with 110. change (Z.of_nat 1) with 1. lia.
Qed.

Lemma file_size_mod4 f : file_size f mod 4 = 0.
Proof. unfold file_size, name_pad, data_pad. Z.to_euclidean_division_equations. lia. Qed.

(** The entry the reader should report for [f] stored at [off]. *)
Definition entry_of (off : Z) (f : File) : CpioEntry :=
  mkEntry (off + 110) (Z.of_nat (length (f_name f)))
    (off + 110 + (Z.of_nat (length (f_name f)) + 1) + name_pad f)
    (Z.of_nat (length (f_data f))).

Definition ext_of (off : Z) (f : File) : CpioEntryExt :=
  mkEntryExt (entry_of off f) (f_ino f) (f_mode f) (f_uid f) (f_gid f) (f_nlink f) (f_mtime f).

Record stored (mem : list Z) (L off : Z) (f : File) : Prop := {
  st_mem : mem_ok mem L;
  st_wf : file_wf f;
  st_off : 0 <= off /\ off mod 4 = 0;
  st_occ : occurs mem off (encode_file f);
  st_len : off + file_size f <= L;
}.

Lemma stored_parts mem off f :
  occurs mem off (encode_file f) ->
  occurs mem off (encode_header f) /\ occurs mem (off + 110) (f_name f) /\
  rd mem (off + 110 + Z.of_nat (length (f_name f))) = Some 0 /\
  occurs mem (off + 110 + (Z.of_nat (length (f_name f)) + 1) + name_pad f) (f_data f).
Proof.
  unfold encode_file. rewrite !occurs_app. rewrite length_encode_header.
  intros (Hh & (Hn & Hz) & _ & Hd & _). change (Z.of_nat 110) with 110 in *.
  apply occurs_cons in Hz as [Hz _]. split_and!; try done.
  rewrite length_app, length_pad4, !Nat2Z.inj_add in Hd. cbn [length] in Hd.
  replace (off + 110 + (Z.of_nat (length (f_name f)) + 1) + name_pad f) with
    (off + 110 + (Z.of_nat (length (f_name f)) + Z.of_nat 1) +
     - (Z.of_nat 110 + (Z.of_nat (length (f_name f)) + Z.of_nat 1)) mod 4); [done|].
  unfold name_pad. change (Z.of_nat 110) with 110. change (Z.of_nat 1) with 1. lia.
Qed.

Lemma header_fields mem off f :
  file_wf f -> occurs mem off (encode_header f) ->
  check_magic mem off = Some true /\
  parse_hex8 mem (off + 94) = Some (Z.of_nat (length (f_name f)) + 1) /\
  parse_hex8 mem (off + 54) = Some (Z.of_nat (length (f_data f))) /\
  read_ext mem off (entry_of off f) = Some (ext_of off f).
Proof.
  intros [Hn Hd Hm] Hocc. unfold encode_header in Hocc.
  rewrite !occurs_app, !length_hex8 in Hocc. change (length MAGIC) with 6%nat in Hocc.
  rewrite <- !Z.add_assoc in Hocc.
  destruct Hocc as (H0 & H6 & H14 & H22 & H30 & H38 & H46 & H54 & _ & _ & _ & _ & H94 & _).
  rewrite !Forall_cons in Hm. destruct Hm as (M1 & M2 & M3 & M4 & M5 & M6 & _). unfold in_u in *.
  split_and!.
  - unfold check_magic. rewrite (occurs_eq_bytes _ _ _ _ H0 eq_refl). by rewrite bool_decide_true.
  - apply parse_hex8_hex8; [lia|done].
  - apply parse_hex8_hex8; [lia|done].
  - unfold read_ext, as_u32.
    rewrite (parse_hex8_hex8 mem (off + 6) _ M1 H6), (parse_hex8_hex8 mem (off + 14) _ M2 H14),
      (parse_hex8_hex8 mem (off + 22) _ M3 H22), (parse_hex8_hex8 mem (off + 30) _ M4 H30),
      (parse_hex8_hex8 mem (off + 38) _ M5 H38), (parse_hex8_hex8 mem (off + 46) _ M6 H46).
    cbn [mbind option_bind]. by rewrite !wrap_small.
Qed.

Lemma read_header_stored mem L off f :
  stored mem L off f ->
  read_header mem L off =
    Some (Hdr (Z.of_nat (length (f_name f)) + 1) (Z.of_nat (length (f_data f))) (off + 110)
            (Z.of_nat (length (f_name f)))).
Proof.
  intros [[HL Hmax] Hwf [Ho _] Hocc Hlen].
  destruct (stored_parts mem off f Hocc) as (Hh & Hn & Hz & _).
  destruct (header_fields mem off f Hwf Hh) as (Hc & H94 & H54 & _).
  unfold file_size, name_pad, data_pad in Hlen.
  pose proof (Z.mod_pos_bound (- (110 + (Z.of_nat (length (f_name f)) + 1))) 4).
  pose proof (Z.mod_pos_bound (- Z.of_nat (length (f_data f))) 4).
  unfold read_header, CPIO_HEADER_SIZE. rewrite (wrap_small 64 (off + 110)) by lia.
  rewrite Z.gtb_ltb. destruct (Z.ltb_spec L (off + 110)); [lia|].
  rewrite Hc. cbn [mbind option_bind negb]. rewrite H94, H54. cbn [mbind option_bind].
  rewrite wrap_small, Z.gtb_ltb by lia.
  destruct (Z.ltb_spec L (off + 110 + (Z.of_nat (length (f_name f)) + 1))); [lia|].
  rewrite Z.gtb_ltb. destruct (Z.ltb_spec 0 (Z.of_nat (length (f_name f)) + 1)); [|lia].
  rewrite Z.add_simpl_r, Hz. cbn [mbind option_bind]. done.
Qed.

Lemma is_trailer_stored mem L off f :
  stored mem L off f ->
  is_trailer mem (off + 110) (Z.of_nat (length (f_name f))) = Some (bool_decide (f_name f = TRAILER)).
Proof.
  intros [_ _ _ Hocc _]. destruct (stored_parts mem off f Hocc) as (_ & Hn & _ & _).
  unfold is_trailer. destruct (Z.eqb_spec (Z.of_nat (length (f_name f))) 10) as [E|E]; cbn [negb].
  - rewrite (occurs_eq_bytes _ _ _ TRAILER Hn) by (change (length TRAILER) with 10%nat; lia).
    f_equal. apply bool_decide_ext. split; congruence.
  - rewrite bool_decide_false; [done|]. intros Ht. apply E. by rewrite Ht.
Qed.

(** The arithmetic of an entry: data start and next offset. *)
Lemma stored_offsets mem L off f :
  stored mem L off f ->
  let data_start := align4 ((off + CPIO_HEADER_SIZE)%u64 + (Z.of_nat (length (f_name f)) + 1))%u64 in
  let data_end := (data_start + Z.of_nat (length (f_data f)))%u64 in
  data_start = data (entry_of off f) /\ data_end <= L /\ align4 data_end = off + file_size f.
Proof.
  intros [[HL Hmax] Hwf [Ho Hm] _ Hlen] ds de. subst de ds.
  pose proof Hlen as Hl'. unfold file_size, name_pad, data_pad in Hl'.
  pose proof (Z.mod_pos_bound (- (110 + (Z.of_nat (length (f_name f)) + 1))) 4).
  pose proof (Z.mod_pos_bound (- Z.of_nat (length (f_data f))) 4).
  unfold CPIO_HEADER_SIZE. rewrite (wrap_small 64 (off + 110)), wrap_small by lia.
  rewrite (align4_eq (off + 110 + _)) by lia. rewrite <- (Z.add_assoc off 110), mod4_shift by done.
  cbn [data entry_of]. rewrite Z.add_assoc. fold (name_pad f) in *.
  rewrite wrap_small by lia. split; [done|]. split; [lia|]. rewrite align4_eq by lia.
  unfold file_size, name_pad, data_pad. clear - Hm. Z.to_euclidean_division_equations. lia.
Qed.

Lemma next_entry_stored mem L off f :
  stored mem L off f ->
  next_entry mem L off =
    Some (if bool_decide (f_name f = TRAILER) then None
          else Some (entry_of off f, off + file_size f)).
Proof.
  intros Hs. unfold next_entry. rewrite (read_header_stored mem L off f Hs).
  cbn [mbind option_bind]. rewrite (is_trailer_stored mem L off f Hs). cbn [mbind option_bind].
  destruct (bool_decide _); [done|].
  destruct (stored_offsets mem L off f Hs) as (Hd & He & Hnx). rewrite Hnx, Z.gtb_ltb.
  destruct (Z.ltb_spec L (align4 ((off + CPIO_HEADER_SIZE)%u64 +
    (Z.of_nat (length (f_name f)) + 1))%u64 + Z.of_nat (length (f_data f)))%u64); [lia|].
  rewrite Hd. done.
Qed.

(** The files of an archive with their offsets. *)
Fixpoint offsets (off : Z) (fs : list File) : list (Z * File) :=
  match fs with [] => [] | f :: rest => (off, f) :: offsets (off + file_size f) rest end.

(** [fs], then the trailer, are stored from [off] on. *)
Fixpoint archived (mem : list Z) (L off : Z) (fs : list File) : Prop :=
  match fs with
  | [] => stored mem L off trailer
  | f :: rest => stored mem L off f /\ f_name f <> TRAILER /\ archived mem L (off + file_size f) rest
  end.

Lemma stored_room mem L off f fuel :
  stored mem L off f -> enough_fuel (S fuel) L off ->
  enough_fuel fuel L (off + file_size f) /\ 0 <= off + file_size f.
Proof.
  intros [_ _ [Ho _] _ Hlen] Hf.
  assert (110 <= file_size f) as Hs.
  { unfold file_size, name_pad, data_pad.
    pose proof (Z.mod_pos_bound (- (110 + (Z.of_nat (length (f_name f)) + 1))) 4).
    pose proof (Z.mod_pos_bound (- Z.of_nat (length (f_data f))) 4). lia. }
  split; [|lia]. apply (enough_fuel_next fuel L off); done || lia.
Qed.

Lemma cpio_entries_archived fuel mem L off fs :
  archived mem L off fs -> enough_fuel fuel L off ->
  cpio_entries fuel mem L off = map (fun '(o, f) => (o, entry_of o f)) (offsets off fs).
Proof.
  revert fuel off. induction fs as [|f fs IH]; intros [|fuel] off Ha Hf;
    try (by apply enough_fuel_S in Hf); cbn [archived offsets map cpio_entries] in *.
  - by rewrite (next_entry_stored mem L off trailer Ha).
  - destruct Ha as (Hs & Hne & Ha). rewrite (next_entry_stored mem L off f Hs).
    rewrite bool_decide_false by done. f_equal. apply IH; [done|].
    by destruct (stored_room mem L off f fuel Hs Hf).
Qed.

Lemma size_loop_archived fuel mem L off fs :
  archived mem L off fs -> enough_fuel fuel L off ->
  size_loop fuel mem L off = Ret (off + Z.of_nat (length (encode_archive fs))).
Proof.
  revert fuel off. induction fs as [|f fs IH]; intros [|fuel] off Ha Hf;
    try (by apply enough_fuel_S in Hf); cbn [archived size_loop] in *.
  - rewrite (read_header_stored mem L off trailer Ha). cbn [lift].
    rewrite (is_trailer_stored mem L off trailer Ha). cbn [lift bool_decide].
    destruct (stored_offsets mem L off trailer Ha) as (_ & _ & Hnx). rewrite Hnx.
    unfold encode_archive. cbn [map concat app]. by rewrite length_encode_file.
  - destruct Ha as (Hs & Hne & Ha). rewrite (read_header_stored mem L off f Hs). cbn [lift].
    rewrite (is_trailer_stored mem L off f Hs), bool_decide_false by done. cbn [lift].
    destruct (stored_offsets mem L off f Hs) as (_ & He & Hnx). rewrite Hnx, Z.gtb_ltb.
    destruct (Z.ltb_spec L (align4 ((off + CPIO_HEADER_SIZE)%u64 +
      (Z.of_nat (length (f_name f)) + 1))%u64 + Z.of_nat (length (f_data f)))%u64); [lia|].
    destruct (stored_room mem L off f fuel Hs Hf) as [Hf' _]. rewrite (IH _ _ Ha Hf'). f_equal.
    unfold encode_archive. cbn [map concat]. rewrite !length_app, !Nat2Z.inj_add, !length_encode_file.
    lia.
Qed.

Lemma archived_intro mem L off fs :
  mem_ok mem L -> Forall file_wf fs -> Forall (fun f => f_name f <> TRAILER) fs ->
  0 <= off -> off mod 4 = 0 -> occurs mem off (encode_archive fs) ->
  off + Z.of_nat (length (encode_archive fs)) <= L -> archived mem L off fs.
Proof.
  intros Hm. revert off. induction fs as [|f fs IH]; intros off Hwf Hne Ho Hmod Hocc Hlen;
    unfold encode_archive in *; cbn [archived map concat] in *.
  - cbn [app] in *. rewrite length_encode_file in Hlen. split; try done.
    split; cbn; try lia. repeat constructor; cbn; lia.
  - apply Forall_cons in Hwf as [Hf Hwf]. apply Forall_cons in Hne as [Hfn Hne].
    rewrite <- app_assoc in Hocc, Hlen. apply occurs_app in Hocc as [H1 H2].
    rewrite length_app, Nat2Z.inj_add, length_encode_file in *.
    assert (0 <= file_size f) as Hfs by (rewrite <- length_encode_file; lia).
    split; [split; try done; lia|]. split; [done|].
    rewrite length_app, Nat2Z.inj_add, length_encode_file in Hlen.
    apply IH; try done; try lia.
    rewrite Z.add_mod, Hmod, file_size_mod4 by lia. done.
Qed.

Lemma first_match_archived mem L fs off nm :
  archived mem L off fs ->
  first_match mem nm (map (fun '(o, f) => (o, entry_of o f)) (offsets off fs)) =
  (fun '(o, f) => (o, entry_of o f)) <$>
    List.find (fun '(_, f) => bool_decide (f_name f = nm)) (offsets off fs).
Proof.
  revert off. induction fs as [|f fs IH]; intros off Ha; [done|].
  cbn [archived offsets map] in *. destruct Ha as (Hs & _ & Ha). unfold first_match in *.
  cbn [List.find]. destruct Hs as [_ _ _ Hocc _].
  destruct (stored_parts mem off f Hocc) as (_ & Hn & _ & _).
  unfold names_match at 1. cbn [name_len entry_of name].
  destruct (Z.eqb_spec (Z.of_nat (length (f_name f))) (Z.of_nat (length nm))) as [E|E]; cbn [negb].
  - rewrite (occurs_eq_bytes _ _ _ nm Hn) by lia.
    destruct (decide (f_name f = nm)) as [->|Hne].
    + by rewrite !bool_decide_true.
    + rewrite !bool_decide_false by congruence. by apply IH.
  - rewrite bool_decide_false by congruence. by apply IH.
Qed.

(** [x] is [f] as stored in the archive: name, contents and metadata. *)
Record reports (mem : list Z) (x : CpioEntryExt) (f : File) : Prop := {
  rp_name : name_len (x_entry x) = Z.of_nat (length (f_name f)) /\
            occurs mem (name (x_entry x)) (f_name f);
  rp_data : data_len (x_entry x) = Z.of_nat (length (f_data f)) /\
            occurs mem (data (x_entry x)) (f_data f);
  rp_meta : (ino x, mode x, uid x, gid x, nlink x, mtime x) =
            (f_ino f, f_mode f, f_uid f, f_gid f, f_nlink f, f_mtime f);
}.

Lemma offsets_stored mem L off fs o f :
  archived mem L off fs -> (o, f) ∈ offsets off fs -> stored mem L o f.
Proof.
  revert off. induction fs as [|g fs IH]; intros off Ha Hin; cbn [offsets archived] in *.
  - by apply not_elem_of_nil in Hin.
  - destruct Ha as (Hs & _ & Ha). apply elem_of_cons in Hin as [[= -> ->]|Hin]; [done|by eapply IH].
Qed.

Lemma find_offsets nm off fs :
  snd <$> List.find (fun '(_, f) => bool_decide (f_name f = nm)) (offsets off fs) =
  List.find (fun f => bool_decide (f_name f = nm)) fs.
Proof.
  revert off. induction fs as [|f fs IH]; intros off; cbn [offsets List.find]; [done|].
  destruct (bool_decide (f_name f = nm)); [done|]. apply IH.
Qed.

(** C28: round trip with the newc writer.  In an archive that holds the files
    [fs] (then the trailer, then anything), a search by name reports the first
    file of that name with its exact name, contents and metadata, or nothing if
    there is no such file; and the archive size is the offset just past the
    trailer. *)
Theorem cpio_roundtrip fs garbage nm :
  Forall file_wf fs -> Forall (fun f => f_name f <> TRAILER) fs ->
  let mem := encode_archive fs ++ garbage in
  let L := Z.of_nat (length mem) in
  L <= 2 ^ 62 ->
  match List.find (fun f => bool_decide (f_name f = nm)) fs with
  | Some f => exists x, cpio_find_file_ext mem L nm = Ret (Some x) /\ reports mem x f
  | None => cpio_find_file_ext mem L nm = Ret None
  end /\
  cpio_archive_size mem L = Ret (Z.of_nat (length (encode_archive fs))).
Proof.
  intros Hwf Hne mem L HL.
  assert (mem_ok mem L) as Hm by (split; lia).
  assert (occurs mem 0 (encode_archive fs)) as Hocc by apply (occurs_middle [] _ garbage).
  assert (archived mem L 0 fs) as Ha.
  { apply archived_intro; try done. unfold L, mem. rewrite length_app. lia. }
  pose proof (search_fuel_enough L ltac:(lia)) as Hf. split.
  - unfold cpio_find_file_ext. rewrite (find_loop_spec _ _ mem L nm 0 Hm ltac:(lia) Hf).
    2: { intros o e nx Ho Hok. destruct (read_ext_total mem L o e nx) as (x & -> & _); eauto. }
    rewrite (cpio_entries_archived _ mem L 0 fs Ha Hf), (first_match_archived mem L fs 0 nm Ha).
    rewrite <- (find_offsets nm 0 fs).
    destruct (List.find _ (offsets 0 fs)) as [[o f]|] eqn:E; [|done].
    apply find_some in E as [Hin%list_elem_of_In _].
    pose proof (offsets_stored mem L 0 fs o f Ha Hin) as [_ Hfw _ Hst _].
    destruct (stored_parts mem o f Hst) as (Hh & Hn & _ & Hd).
    destruct (header_fields mem o f Hfw Hh) as (_ & _ & _ & Hx).
    cbn [fmap option_fmap option_map mbind option_bind snd]. rewrite Hx.
    eexists. split; [done|]. by split.
  - unfold cpio_archive_size. by rewrite (size_loop_archived _ mem L 0 fs Ha Hf).
Qed.

Definition hello : File := mkFile [104; 105] [1; 2; 3; 4; 5] 7 33188 0 0 1 1700000000.

Lemma hello_wf : Forall file_wf [hello].
Proof. repeat constructor; cbn; lia. Qed.

Lemma cpio_roundtrip_witness :
  (exists x, cpio_find_file_ext (encode_archive [hello] ++ [9; 9; 9]) 251 [104; 105] = Ret (Some x) /\
     reports (encode_archive [hello] ++ [9; 9; 9]) x hello) /\
  cpio_archive_size (encode_archive [hello] ++ [9; 9; 9]) 251 = Ret 248.
Proof.
  apply (cpio_roundtrip [hello] [9; 9; 9] [104; 105] hello_wf).
  - repeat constructor; discriminate.
  - vm_compute. discriminate.
Defined.

Lemma cpio_find_spec_witness :
  mem_ok (encode_archive [hello]) 248 /\
  exists r, cpio_find_file (encode_archive [hello]) 248 [104; 105] = Ret r.
Proof.
  assert (mem_ok (encode_archive [hello]) 248) as Hm by (repeat split; vm_compute; discriminate).
  split; [exact Hm|].
  destruct (cpio_find_spec (encode_archive [hello]) 248 [104; 105] Hm) as (r & Hr & _).
  exists r. exact Hr.
Defined.

(** The size of an archive whose buffer ends right after the trailer's name is
    reported as larger than the buffer: the trailer's padding is not bounded. *)
Lemma cpio_archive_size_overshoots :
  let mem := take 121 (encode_archive []) in
  length mem = 121%nat /\ cpio_archive_size mem 121 = Ret 124.
Proof. split; vm_compute; reflexivity. Qed.
