(* ===== verification/Elf.v ===== *)
(** ELF64 files: the structures of [src/uapi/types/core.rs], the program header
    loop every function of the loader has, and the functions that inspect a
    file before it is loaded ([src/loader/elf_loader.rs]).

    A file is a list of bytes; a read outside it is a fault ([None]), so that
    memory safety is a theorem.  [usize] arithmetic wraps. *)

From S2P Require Import Prelude Consts.

Definition ELF_PAGE_SIZE : Z := 4096.
Definition ELFCLASS64 : Z := 2.
Definition ELFDATA2LSB : Z := 1.
Definition ET_EXEC : Z := 2.
Definition ET_DYN : Z := 3.
Definition EM_X86_64 : Z := 62.
Definition EM_AARCH64 : Z := 183.
Definition PT_LOAD : Z := 1.
Definition PT_DYNAMIC : Z := 2.
Definition PT_INTERP : Z := 3.
Definition PT_PHDR : Z := 6.
Definition PF_X : Z := 1.
Definition PF_W : Z := 2.
Definition PF_R : Z := 4.
Definition DT_NULL : Z := 0.
Definition DT_NEEDED : Z := 1.
Definition DT_STRTAB : Z := 5.
Definition DT_RELA : Z := 7.
Definition DT_RELASZ : Z := 8.
Definition DT_RELAENT : Z := 9.
Definition R_X86_64_RELATIVE : Z := 8.
Definition R_AARCH64_RELATIVE : Z := 1027.

Definition ELF_OK : Z := 0.
Definition ELF_NOT_ELF : Z := 1.
Definition ELF_NOT_64BIT : Z := 2.
Definition ELF_NOT_LE : Z := 3.
Definition ELF_BAD_TYPE : Z := 4.
Definition ELF_BAD_ARCH : Z := 5.
Definition ELF_NO_LOAD : Z := 6.
Definition ELF_RELOC_FAILED : Z := 7.
Definition ELF_OUT_OF_MEMORY : Z := 8.
Definition ELF_TOO_SMALL : Z := 9.
Definition ELF_MAP_FAILED : Z := 11.

(** ** Structures and how they lie in the file *)

Record Elf64Ehdr := mkEhdr {
  e_ident : list Z;     (* [u8; 16] *)
  e_type : Z; e_machine : Z; e_version : Z; e_entry : Z; e_phoff : Z; e_shoff : Z; e_flags : Z;
  e_ehsize : Z; e_phentsize : Z; e_phnum : Z; e_shentsize : Z; e_shnum : Z; e_shstrndx : Z;
}.

Record Elf64Phdr := mkPhdr {
  p_type : Z; p_flags : Z; p_offset : Z; p_vaddr : Z; p_paddr : Z; p_filesz : Z; p_memsz : Z; p_align : Z;
}.

Record Elf64Dyn := mkDyn { d_tag : Z (* i64 *); d_val : Z }.

Record Elf64Rela := mkRela { r_offset : Z; r_info : Z; r_addend : Z (* i64 *) }.

Definition SIZEOF_EHDR : Z := 64.
Definition SIZEOF_PHDR : Z := 56.
Definition SIZEOF_DYN : Z := 16.
Definition SIZEOF_RELA : Z := 24.

Section file.
Context (data : list Z).

Definition data_len : Z := Z.of_nat (length data).

(** [&*(data.add(off) as *const T)] for a [T] of [size] bytes. *)
Definition view_at {T} (size off : Z) (f : nat -> T) : option T :=
  if (0 <=? off) && (off + size <=? data_len) then Some (f (Z.to_nat off)) else None.

Definition read_ehdr : option Elf64Ehdr :=
  view_at SIZEOF_EHDR 0 (fun o => mkEhdr (take 16 (drop o data))
    (le_read 2 data (o + 16)) (le_read 2 data (o + 18)) (le_read 4 data (o + 20))
    (le_read 8 data (o + 24)) (le_read 8 data (o + 32)) (le_read 8 data (o + 40))
    (le_read 4 data (o + 48)) (le_read 2 data (o + 52)) (le_read 2 data (o + 54))
    (le_read 2 data (o + 56)) (le_read 2 data (o + 58)) (le_read 2 data (o + 60))
    (le_read 2 data (o + 62))).

Definition read_phdr (off : Z) : option Elf64Phdr :=
  view_at SIZEOF_PHDR off (fun o => mkPhdr (le_read 4 data o) (le_read 4 data (o + 4))
    (le_read 8 data (o + 8)) (le_read 8 data (o + 16)) (le_read 8 data (o + 24))
    (le_read 8 data (o + 32)) (le_read 8 data (o + 40)) (le_read 8 data (o + 48))).

Definition read_dyn (off : Z) : option Elf64Dyn :=
  view_at SIZEOF_DYN off (fun o => mkDyn (as_i64 (le_read 8 data o)) (le_read 8 data (o + 8))).

Definition read_rela (off : Z) : option Elf64Rela :=
  view_at SIZEOF_RELA off (fun o =>
    mkRela (le_read 8 data o) (le_read 8 data (o + 8)) (as_i64 (le_read 8 data (o + 16)))).

(** A byte of the file. *)
Definition read_byte (off : Z) : option Z := if off <? 0 then None else data !! Z.to_nat off.

(** [for i in 0..phdr_count { off = phdr_base + i * phdr_size; if off + 56 >
    data_len { break } ... }]; the body faults, continues with a state, or
    returns from the function. *)
Fixpoint phdr_loop {S R} (eh : Elf64Ehdr) (body : S -> Elf64Phdr -> option (S + R)) (n i : nat) (s : S)
    : option (S + R) :=
  match n with
  | O => Some (inl s)
  | Datatypes.S n' =>
      let off := (e_phoff eh + (Z.of_nat i * e_phentsize eh)%u64)%u64 in
      if (off + SIZEOF_PHDR)%u64 >? data_len then Some (inl s)
      else
        ph ← read_phdr off;
        r ← body s ph;
        match r with
        | inl s' => phdr_loop eh body n' (Datatypes.S i) s'
        | inr r => Some (inr r)
        end
  end.

Definition for_phdrs {S R} (eh : Elf64Ehdr) (body : S -> Elf64Phdr -> option (S + R)) (s : S)
    : option (S + R) :=
  phdr_loop eh body (Z.to_nat (e_phnum eh)) 0 s.

(** The loops that only look for one header. *)
Definition find_phdr {R} (eh : Elf64Ehdr) (f : Elf64Phdr -> option R) : option (option R) :=
  r ← for_phdrs eh (fun (_ : unit) ph => Some (match f ph with Some r => inr r | None => inl tt end)) tt;
  Some (match r with inl _ => None | inr r => Some r end).

(** The loops that never return early. *)
Definition fold_phdrs {S} (eh : Elf64Ehdr) (f : S -> Elf64Phdr -> S) (s : S) : option S :=
  r ← for_phdrs (R := Empty_set) eh (fun s ph => Some (inl (f s ph))) s;
  match r with inl s' => Some s' | inr e => Empty_set_rect (fun _ => option S) e end.

Definition has_magic (eh : Elf64Ehdr) : bool :=
  (byte_at (e_ident eh) 0 =? 0x7F) && (byte_at (e_ident eh) 1 =? 69) &&
  (byte_at (e_ident eh) 2 =? 76) && (byte_at (e_ident eh) 3 =? 70).

(** ** Inspection ([elf_loader.rs]) *)

Definition page_align_down (v : Z) : Z := Z.land v (bnot 64 (ELF_PAGE_SIZE - 1)).
Definition page_align_up (v : Z) : Z :=
  Z.land ((v + ELF_PAGE_SIZE)%u64 - 1)%u64 (bnot 64 (ELF_PAGE_SIZE - 1)).

(** Enforces W^X: writable wins. *)
Definition phdr_to_flags (p_flags : Z) : Z :=
  let flags := VSPACE_FLAG_USER in
  let w := negb (Z.land p_flags PF_W =? 0) in
  let x := negb (Z.land p_flags PF_X =? 0) in
  if w then Z.lor flags VSPACE_FLAG_WRITABLE
  else if x then Z.lor flags VSPACE_FLAG_EXECUTABLE
  else flags.

Definition is_load (ph : Elf64Phdr) : bool := p_type ph =? PT_LOAD.

(** The pages of a segment placed at [seg_vaddr]. *)
Definition seg_pages (seg_vaddr memsz : Z) : Z :=
  let seg_start := page_align_down seg_vaddr in
  let seg_end := page_align_up (seg_vaddr + memsz)%u64 in
  if seg_end >? seg_start then (seg_end - seg_start) `div` ELF_PAGE_SIZE else 0.

Definition elf_count_load_pages : option Z :=
  if data_len <? SIZEOF_EHDR then Some 0 else
  eh ← read_ehdr;
  if negb (has_magic eh) then Some 0 else
  fold_phdrs eh (fun total ph =>
    if negb (is_load ph) then total
    else (total + seg_pages (p_vaddr ph) (p_memsz ph))%u64) 0.

Definition elf_compute_load_span : option Z :=
  if data_len <? SIZEOF_EHDR then Some 0 else
  eh ← read_ehdr;
  if negb (has_magic eh) then Some 0 else
  r ← fold_phdrs eh (fun '(min_vaddr, max_vaddr_end) ph =>
        if negb (is_load ph) then (min_vaddr, max_vaddr_end)
        else
          let min_vaddr := if p_vaddr ph <? min_vaddr then p_vaddr ph else min_vaddr in
          let end_ := (p_vaddr ph + p_memsz ph)%u64 in
          (min_vaddr, if end_ >? max_vaddr_end then end_ else max_vaddr_end)) (U64_MAX, 0);
  let '(min_vaddr, max_vaddr_end) := r in
  if (min_vaddr =? U64_MAX) || (max_vaddr_end =? 0) then Some 0
  else Some (page_align_up max_vaddr_end - page_align_down min_vaddr)%u64.

(** The inner [None] is the code's: no segment holds the address, or its offset
    is outside the file. *)
Definition vaddr_to_file_offset (eh : Elf64Ehdr) (vaddr : Z) : option (option Z) :=
  r ← find_phdr eh (fun ph =>
        if negb (is_load ph) then None
        else if vaddr <? p_vaddr ph then None
        else
          let seg_off := vaddr - p_vaddr ph in
          if seg_off >=? p_filesz ph then None
          else
            let file_off := (p_offset ph + seg_off)%u64 in
            Some (if file_off >=? data_len then None else Some file_off));
  Some (match r with None => None | Some o => o end).

(** ** The header table as a list *)

(** The headers the loops above visit. *)
Fixpoint phdrs_from (eh : Elf64Ehdr) (n i : nat) : list Elf64Phdr :=
  match n with
  | O => []
  | Datatypes.S n' =>
      let off := (e_phoff eh + (Z.of_nat i * e_phentsize eh)%u64)%u64 in
      if (off + SIZEOF_PHDR)%u64 >? data_len then []
      else match read_phdr off with
           | Some ph => ph :: phdrs_from eh n' (Datatypes.S i)
           | None => []
           end
  end.

Definition phdrs (eh : Elf64Ehdr) : list Elf64Phdr := phdrs_from eh (Z.to_nat (e_phnum eh)) 0.
Definition loads (eh : Elf64Ehdr) : list Elf64Phdr := List.filter is_load (phdrs eh).

(** The first result a search gives. *)
Fixpoint list_find_map {H R} (f : H -> option R) (l : list H) : option R :=
  match l with
  | [] => None
  | ph :: l' => match f ph with Some r => Some r | None => list_find_map f l' end
  end.

(** A loop over a list of headers. *)
Fixpoint run_phdrs {H S R} (body : S -> H -> option (S + R)) (l : list H) (s : S)
    : option (S + R) :=
  match l with
  | [] => Some (inl s)
  | ph :: l' =>
      r ← body s ph;
      match r with inl s' => run_phdrs body l' s' | inr r => Some (inr r) end
  end.

(** The file is memory of an object, and the table does not start so high that
    an offset into it wraps. *)
Record file_ok (eh : Elf64Ehdr) : Prop := {
  fok_bytes : Forall (fun b => 0 <= b < 256) data;
  fok_len : data_len < 2 ^ 63;
  fok_ehdr : read_ehdr = Some eh;
  fok_phoff : e_phoff eh < 2 ^ 63;
}.

Lemma view_at_Some {T} size off (f : nat -> T) t :
  view_at size off f = Some t -> 0 <= off /\ off + size <= data_len /\ t = f (Z.to_nat off).
Proof. unfold view_at. intros Hv. case_if; naive_solver lia. Qed.

Lemma read_byte_is_Some off : 0 <= off < data_len -> exists b, read_byte off = Some b.
Proof.
  unfold read_byte, data_len. intros. destruct (Z.ltb_spec off 0); [lia|].
  apply lookup_lt_is_Some_2. lia.
Qed.
End file.

Lemma le_value_range l : Forall (fun b => 0 <= b < 256) l -> 0 <= le_value l < 256 ^ Z.of_nat (length l).
Proof.
  induction 1 as [|b l Hb _ IH]; cbn [le_value length]; [change (256 ^ Z.of_nat 0) with 1; lia|].
  rewrite Nat2Z.inj_succ, Z.pow_succ_r by lia. lia.
Qed.

Lemma le_read_range n mem off :
  Forall (fun b => 0 <= b < 256) mem -> 0 <= le_read n mem off < 256 ^ Z.of_nat n.
Proof.
  intros Hm. unfold le_read.
  pose proof (le_value_range (map (fun i => byte_at mem (off + i)) (seq 0 n))) as Hr.
  rewrite length_map, length_seq in Hr. apply Hr, Forall_map, Forall_forall. intros i _.
  unfold byte_at. destruct (mem !! (off + i)%nat) eqn:E; simpl; [|lia].
  by eapply Forall_lookup_1 in Hm.
Qed.

Section file_ok.
Context (data : list Z) (eh : Elf64Ehdr) (Hok : file_ok data eh).

Lemma phnum_range : 0 <= e_phnum eh < 2 ^ 16 /\ 0 <= e_phentsize eh < 2 ^ 16 /\ 0 <= e_phoff eh.
Proof.
  destruct Hok as [Hb _ Hr _]. apply view_at_Some in Hr as (_ & _ & ->). cbn [e_phnum e_phentsize e_phoff].
  pose proof (le_read_range 2 data (Z.to_nat 0 + 56) Hb). pose proof (le_read_range 2 data (Z.to_nat 0 + 54) Hb).
  pose proof (le_read_range 8 data (Z.to_nat 0 + 32) Hb).
  change (256 ^ Z.of_nat 2) with (2 ^ 16) in *. lia.
Qed.

(** The offset of a header does not wrap. *)
Lemma phdr_off_nowrap i :
  Z.of_nat i < 2 ^ 16 ->
  let off := (e_phoff eh + (Z.of_nat i * e_phentsize eh)%u64)%u64 in
  0 <= off < 2 ^ 63 + 2 ^ 32 /\ (off + SIZEOF_PHDR)%u64 = off + SIZEOF_PHDR.
Proof.
  intros Hi. pose proof phnum_range. pose proof (fok_phoff _ _ Hok).
  assert (0 <= Z.of_nat i * e_phentsize eh < 2 ^ 32) by nia.
  rewrite (wrap_small 64 (Z.of_nat i * _)) by lia. rewrite (wrap_small 64 (e_phoff eh + _)) by lia.
  split; [lia|]. apply wrap_small. unfold SIZEOF_PHDR. lia.
Qed.

(** No header loop reads outside the file: each is a loop over [phdrs]. *)
Lemma phdr_loop_run {S R} (body : S -> Elf64Phdr -> option (S + R)) n i s :
  Z.of_nat (n + i) <= 2 ^ 16 ->
  phdr_loop data eh body n i s = run_phdrs body (phdrs_from data eh n i) s.
Proof.
  revert i s. induction n as [|n IH]; intros i s Hn; [done|]. cbn [phdr_loop phdrs_from].
  pose proof (phdr_off_nowrap i ltac:(lia)) as [Hoff Hw]. rewrite Hw.
  case_if; [done|]. unfold read_phdr at 1 2, view_at at 1 2.
  destruct ((0 <=? _) && _) eqn:E; [|apply andb_false_iff in E; lia].
  cbn [run_phdrs]. simpl. destruct (body _ _) as [[s'|r]|]; simpl; try done. apply IH. lia.
Qed.

Lemma for_phdrs_run {S R} (body : S -> Elf64Phdr -> option (S + R)) s :
  for_phdrs data eh body s = run_phdrs body (phdrs data eh) s.
Proof. pose proof phnum_range. apply phdr_loop_run. lia. Qed.

Lemma fold_phdrs_run {S} (f : S -> Elf64Phdr -> S) s :
  fold_phdrs data eh f s = Some (foldl f s (phdrs data eh)).
Proof.
  unfold fold_phdrs. rewrite for_phdrs_run. revert s.
  induction (phdrs data eh) as [|ph l IH]; intros s; simpl; [done|]. apply IH.
Qed.

Lemma find_phdr_run {R} (f : Elf64Phdr -> option R) :
  find_phdr data eh f = Some (list_find_map f (phdrs data eh)).
Proof.
  unfold find_phdr. rewrite for_phdrs_run.
  induction (phdrs data eh) as [|ph l IH]; simpl; [done|]. destruct (f ph); simpl; [done|]. apply IH.
Qed.
End file_ok.

(** ** Writing a file

    The inverse of the views above, for examples. *)

Definition ehdr_bytes (type machine entry phoff phnum : Z) : list Z :=
  [0x7F; 69; 76; 70; 2; 1; 1; 0; 0; 0; 0; 0; 0; 0; 0; 0] ++ le_bytes 2 type ++ le_bytes 2 machine ++
  le_bytes 4 1 ++ le_bytes 8 entry ++ le_bytes 8 phoff ++ le_bytes 8 0 ++ le_bytes 4 0 ++
  le_bytes 2 64 ++ le_bytes 2 56 ++ le_bytes 2 phnum ++ le_bytes 2 0 ++ le_bytes 2 0 ++ le_bytes 2 0.

Definition phdr_bytes (type flags offset vaddr filesz memsz : Z) : list Z :=
  le_bytes 4 type ++ le_bytes 4 flags ++ le_bytes 8 offset ++ le_bytes 8 vaddr ++ le_bytes 8 vaddr ++
  le_bytes 8 filesz ++ le_bytes 8 memsz ++ le_bytes 8 4096.
