(* ===== verification/Vm.v ===== *)
(** The kernel as code that builds address spaces sees it: capability slots that
    hold frames, the mappings of VSpaces, and the memory behind them.

    The kernel is not part of the repository.  [Vm] is any state with an
    arbitrary answer to every invocation; [VmOk] states what the wrappers of
    [src/substrate/invoke.rs] document: a successful [VSPACE_MAP] maps the frame
    at the address and nothing else changes, [UNTYPED_RETYPE] puts a new frame
    into an empty slot, [VSPACE_UNMAP] affects at most the page named, and a
    failed invocation changes nothing.  Loads and stores of the loader itself go
    through its own VSpace. *)

From S2P Require Import Prelude Consts Elf.

Class Vm := {
  vm : Type;
  (** [invoke(cap, label, x0, x1, x2, x3)]: the error code and the new state. *)
  vm_invoke : vm -> Cap -> Z -> Z -> Z -> Z -> Z -> Z * vm;
  (** The frame capability and flags mapped at a page of a VSpace. *)
  vm_map : vm -> Cap -> Z -> option (Cap * Z);
  (** The contents of the frame in a slot. *)
  vm_frame : vm -> Cap -> option (list Z);
  (** A byte of a frame is overwritten. *)
  vm_poke : vm -> Cap -> nat -> Z -> vm;
  (** Word 3 of the caller's IPC buffer, if it has one. *)
  vm_ipc_word3 : vm -> option Z;
}.

Definition PAGE : nat := 4096.

Section ops.
Context `{Vm}.

Definition invoke_i32 (r : Z * vm) : Z * vm := (as_i32 r.1, r.2).

Definition untyped_retype (s : vm) (untyped : Cap) (new_type size_bits dest_slot : Z) : Z * vm :=
  invoke_i32 (vm_invoke s untyped UNTYPED_RETYPE new_type size_bits dest_slot 0).
Definition vspace_map (s : vm) (vspace frame : Cap) (vaddr flags : Z) : Z * vm :=
  invoke_i32 (vm_invoke s vspace VSPACE_MAP frame vaddr flags 0).
Definition vspace_unmap (s : vm) (vspace : Cap) (vaddr : Z) : Z * vm :=
  invoke_i32 (vm_invoke s vspace VSPACE_UNMAP vaddr 0 0 0).
Definition cnode_get_info (s : vm) (cnode : Cap) : Z * vm :=
  vm_invoke s cnode CNODE_GET_INFO 0 0 0 0.

(** A byte store to the virtual address [a] by a thread of [vspace]: a fault if
    nothing, or nothing writable, is mapped there. *)
Definition store_byte (s : vm) (vspace : Cap) (a v : Z) : option vm :=
  match vm_map s vspace (page_align_down a) with
  | Some (f, fl) =>
      if Z.land fl VSPACE_FLAG_WRITABLE =? 0 then None
      else Some (vm_poke s f (Z.to_nat (a - page_align_down a)) v)
  | None => None
  end.

(** Nothing observable has changed. *)
Definition vm_same (s s' : vm) : Prop :=
  (forall vs va, vm_map s' vs va = vm_map s vs va) /\ (forall f, vm_frame s' f = vm_frame s f).

#[global] Instance vm_same_equiv : Equivalence vm_same.
Proof.
  split; [done | |].
  - intros s s' [A B]. by split.
  - intros s1 s2 s3 [A B] [C D]. split; intros; [rewrite C | rewrite D]; auto.
Qed.

(** From [s] to [s'] a page-sized frame appeared in the empty slot [f]. *)
Definition fresh (s : vm) (f : Cap) (s' : vm) : Prop :=
  vm_frame s f = None /\ (exists p, vm_frame s' f = Some p /\ length p = PAGE) /\
  (forall g, g <> f -> vm_frame s' g = vm_frame s g) /\
  (forall vs va, vm_map s' vs va = vm_map s vs va).

#[global] Instance fresh_proper : Proper (vm_same ==> (=) ==> vm_same ==> iff) fresh.
Proof.
  intros s1 s2 [A B] f _ <- s1' s2' [A' B']. unfold fresh. setoid_rewrite A. setoid_rewrite B.
  setoid_rewrite A'. setoid_rewrite B'. done.
Qed.

(** [s'] keeps what [s] has outside the VSpace [vs0] and the page [va1] of
    [vs1]: mappings and the contents of existing frames. *)
Definition keeps (vs0 vs1 : Cap) (va1 : Z) (s s' : vm) : Prop :=
  (forall vs va, vs <> vs0 -> (vs, va) <> (vs1, va1) -> vm_map s' vs va = vm_map s vs va) /\
  (forall f, vm_frame s f <> None -> vm_frame s' f = vm_frame s f).

#[global] Instance keeps_proper vs0 vs1 va1 : Proper (vm_same ==> vm_same ==> iff) (keeps vs0 vs1 va1).
Proof.
  intros s1 s2 [A B] s1' s2' [A' B']. unfold keeps. setoid_rewrite A. setoid_rewrite B.
  setoid_rewrite A'. setoid_rewrite B'. done.
Qed.
End ops.

Class VmOk (V : Vm) : Prop := {
  vm_map_ok s vs f va fl s' :
    vspace_map s vs f va fl = (0, s') ->
    vm_map s' vs va = Some (f, fl) /\
    (forall vs' va', (vs', va') <> (vs, va) -> vm_map s' vs' va' = vm_map s vs' va') /\
    (forall g, vm_frame s' g = vm_frame s g);
  vm_map_err s vs f va fl e s' : vspace_map s vs f va fl = (e, s') -> e <> 0 -> vm_same s s';
  vm_unmap s vs va e s' :
    vspace_unmap s vs va = (e, s') ->
    (forall vs' va', (vs', va') <> (vs, va) -> vm_map s' vs' va' = vm_map s vs' va') /\
    (forall g, vm_frame s' g = vm_frame s g);
  vm_retype_ok s u slot s' :
    untyped_retype s u OBJ_FRAME 0 slot = (0, s') -> fresh s slot s';
  vm_retype_err s u slot e s' :
    untyped_retype s u OBJ_FRAME 0 slot = (e, s') -> e <> 0 -> vm_same s s';
  vm_info_ok s c e s' : cnode_get_info s c = (e, s') -> vm_same s s';
  vm_poke_ok s f k v p :
    vm_frame s f = Some p -> (k < length p)%nat ->
    vm_frame (vm_poke s f k v) f = Some (<[k := v]> p) /\
    (forall g, g <> f -> vm_frame (vm_poke s f k v) g = vm_frame s g) /\
    (forall vs va, vm_map (vm_poke s f k v) vs va = vm_map s vs va);
}.
