(* ===== verification/ElfLoad.v ===== *)
(** The ELF loader proper ([src/loader/elf_loader.rs]): segments are copied page
    by page into frames that are mapped into the loader at a scratch address
    while they are filled, and then into the child.

    The loader runs over any kernel ([Vm]); its frame-slot and page-recording
    callbacks are parameters.  A function returns [None] when the code would
    touch memory it must not (a read outside the file, a store to an unmapped or
    read-only page) or when a loop runs out of the fuel given to it. *)

From S2P Require Import Prelude Consts Elf Vm.

Definition CAP_SELF_CSPACE : Cap := 2.
Definition CAP_UNTYPED_START : Cap := 16.
Definition ELF_UT_SCAN_END_FALLBACK : Cap := 200.
Definition MAX_PAGES : Z := 256.

Record ElfPageEntry := mkPage { pg_vaddr : Z; pg_frame_cap : Cap; pg_flags : Z }.

Record ElfLoadResult := mkResult { res_entry : Z; res_base : Z; res_brk : Z }.

(** The fields of [ElfLoaderCtx] the loader never writes.  A callback with its
    opaque pointer is a function of the machine's state. *)
Record LoaderEnv `{Vm} := mkEnv {
  self_vspace : Cap;
  child_vspace : Cap;
  scratch_vaddr : Z;
  alloc_frame_slot : option (vm -> Cap * vm);
  record_page : option (vm -> Z -> Cap -> Z -> Z * vm);
}.

(** The fields it writes, the static [NEXT_UT_HINT], and the machine. *)
Record Loader `{Vm} := mkLoader {
  ld_vm : vm;
  ld_untyped : Cap;
  ld_next_frame_slot : Cap;
  ld_hint : Cap;
}.

(** The locals of [elf_load] that the segment loop updates. *)
Record Progress `{Vm} := mkProgress { pr_ld : Loader; pr_pages : list ElfPageEntry; pr_brk : Z }.

Section loader.
Context `{Vm} (env : LoaderEnv).

Definition set_vm (ld : Loader) (s : vm) : Loader :=
  mkLoader _ s (ld_untyped ld) (ld_next_frame_slot ld) (ld_hint ld).

(** ** Frames *)

Definition untyped_scan_end (s : vm) : Cap * vm :=
  let '(e, s) := cnode_get_info s CAP_SELF_CSPACE in
  let end_ :=
    if e =? 0 then
      match vm_ipc_word3 s with
      | Some num_slots =>
          if (num_slots >? CAP_UNTYPED_START) && (num_slots <? ELF_UT_SCAN_END_FALLBACK)
          then num_slots else ELF_UT_SCAN_END_FALLBACK
      | None => ELF_UT_SCAN_END_FALLBACK
      end
    else ELF_UT_SCAN_END_FALLBACK in
  (if end_ <=? CAP_UNTYPED_START then CAP_UNTYPED_START + 1 else end_, s).

(** [for ut in ut..ut+n]: the untyped that gave a frame, or the error to report. *)
Fixpoint scan_untypeds (n : nat) (ut skip frame_slot best_err : Z) (s : vm) : (Cap + Z) * vm :=
  match n with
  | O => (inr best_err, s)
  | S n' =>
      if ut =? skip then scan_untypeds n' (ut + 1) skip frame_slot best_err s
      else
        let '(err, s) := untyped_retype s ut OBJ_FRAME 0 frame_slot in
        if err =? 0 then (inl ut, s)
        else
          let best_err :=
            if negb (err =? TRONA_INVALID_CAPABILITY) && negb (err =? TRONA_INVALID_OPERATION) &&
               negb (err =? TRONA_NOT_FOUND)
            then err else best_err in
          scan_untypeds n' (ut + 1) skip frame_slot best_err s
  end.

Definition try_retype_frame_any_untyped (ld : Loader) (frame_slot : Cap) : Z * Loader :=
  let '(err, s) := untyped_retype (ld_vm ld) (ld_untyped ld) OBJ_FRAME 0 frame_slot in
  if err =? 0 then (0, mkLoader _ s (ld_untyped ld) (ld_next_frame_slot ld) (ld_untyped ld))
  else
    let start := CAP_UNTYPED_START in
    let '(end_, s) := untyped_scan_end s in
    let first := if (ld_hint ld <? start) || (ld_hint ld >=? end_) then start else ld_hint ld in
    match scan_untypeds (Z.to_nat (end_ - first)) first (ld_untyped ld) frame_slot err s with
    | (inl ut, s) => (0, mkLoader _ s ut (ld_next_frame_slot ld) ut)
    | (inr best_err, s) =>
        match scan_untypeds (Z.to_nat (first - start)) start (ld_untyped ld) frame_slot best_err s with
        | (inl ut, s) => (0, mkLoader _ s ut (ld_next_frame_slot ld) ut)
        | (inr best_err, s) => (best_err, set_vm ld s)
        end
    end.

Definition next_frame_slot (ld : Loader) : Cap * Loader :=
  match alloc_frame_slot env with
  | Some alloc => let '(slot, s) := alloc (ld_vm ld) in (slot, set_vm ld s)
  | None =>
      (ld_next_frame_slot ld,
       mkLoader _ (ld_vm ld) (ld_untyped ld) (ld_next_frame_slot ld + 1)%u64 (ld_hint ld))
  end.

Definition record_page_map (s : vm) (vaddr : Z) (frame_cap : Cap) (flags : Z) : Z * vm :=
  match record_page env with
  | Some record => record s vaddr frame_cap flags
  | None => (0, s)
  end.

(** ** Filling a frame through the scratch page *)

Definition map_scratch (s : vm) (frame : Cap) : Z * vm :=
  vspace_map s (self_vspace env) frame (scratch_vaddr env)
    (Z.lor VSPACE_FLAG_WRITABLE VSPACE_FLAG_USER).
Definition unmap_scratch (s : vm) : vm := (vspace_unmap s (self_vspace env) (scratch_vaddr env)).2.

(** [for k in 0..n { scratch[dst + k] = src(k) }]. *)
Fixpoint store_loop (n : nat) (k : Z) (dst : Z) (src : Z -> option Z) (s : vm) : option vm :=
  match n with
  | O => Some s
  | S n' =>
      b ← src k;
      s ← store_byte s (self_vspace env) (scratch_vaddr env + (dst + k)%u64)%u64 b;
      store_loop n' (k + 1) dst src s
  end.

Definition zero_page (s : vm) : option vm :=
  store_loop (Z.to_nat ELF_PAGE_SIZE) 0 0 (fun _ => Some 0) s.

Definition copy_in (data : list Z) (src_offset dst_offset copy_len : Z) (s : vm) : option vm :=
  store_loop (Z.to_nat copy_len) 0 dst_offset (fun k => read_byte data (src_offset + k)%u64) s.

(** A volatile store of a [u64], little endian, one byte at a time. *)
Definition write_to_page (s : vm) (frame_cap : Cap) (page_offset value : Z) : option (Z * vm) :=
  let '(err, s) := map_scratch s frame_cap in
  if negb (err =? 0) then Some (err, s)
  else
    s ← store_loop 8 0 page_offset (fun k => le_bytes 8 value !! Z.to_nat k) s;
    Some (0, unmap_scratch s).

(** ** Loading the segments *)

(** The part of the file that lands on a page: source offset, offset in the
    page and length. *)
Definition copy_window (delta seg_vaddr page_vaddr : Z) (ph : Elf64Phdr) : Z * Z * Z :=
  let file_start := seg_vaddr in
  let file_end := (seg_vaddr + p_filesz ph)%u64 in
  let copy_start := if page_vaddr >? file_start then page_vaddr else file_start in
  let copy_end_bound := (page_vaddr + ELF_PAGE_SIZE)%u64 in
  let copy_end := if copy_end_bound <? file_end then copy_end_bound else file_end in
  if copy_start <? copy_end then
    ((((copy_start - delta)%u64 - p_vaddr ph)%u64 + p_offset ph)%u64,
     (copy_start - page_vaddr)%u64, copy_end - copy_start)
  else (0, 0, 0).

(** Merged permissions of a page that two segments share. *)
Definition merge_flags (old new : Z) : Z :=
  let merged := Z.lor old new in
  if negb (Z.land merged VSPACE_FLAG_WRITABLE =? 0) && negb (Z.land merged VSPACE_FLAG_EXECUTABLE =? 0)
  then Z.land merged (bnot 64 VSPACE_FLAG_EXECUTABLE) else merged.

Fixpoint find_page (pages : list ElfPageEntry) (vaddr : Z) : option nat :=
  match pages with
  | [] => None
  | p :: rest => if pg_vaddr p =? vaddr then Some O else S <$> find_page rest vaddr
  end.

Definition fits (data : list Z) (src_offset copy_len : Z) : bool :=
  (copy_len >? 0) && ((src_offset + copy_len)%u64 <=? data_len data).

(** The page is already there: copy more data and widen its permissions. *)
Definition load_shared_page (data : list Z) (w : Z * Z * Z) (flags page_vaddr : Z)
    (j : nat) (e : ElfPageEntry) (pr : Progress) : option (Progress + Z * Loader) :=
  let '(src_offset, dst_offset, copy_len) := w in
  let ld := pr_ld pr in
  s ← (if fits data src_offset copy_len then
         let '(err, s) := map_scratch (ld_vm ld) (pg_frame_cap e) in
         if err =? 0 then unmap_scratch <$> copy_in data src_offset dst_offset copy_len s
         else Some s
       else Some (ld_vm ld));
  let merged := merge_flags (pg_flags e) flags in
  if merged =? pg_flags e then Some (inl (mkProgress _ (set_vm ld s) (pr_pages pr) (pr_brk pr)))
  else
    let '(_, s) := vspace_unmap s (child_vspace env) page_vaddr in
    let '(err, s) := vspace_map s (child_vspace env) (pg_frame_cap e) page_vaddr merged in
    if negb (err =? 0) then Some (inr (ELF_MAP_FAILED, set_vm ld s))
    else
      let pages := <[j := mkPage (pg_vaddr e) (pg_frame_cap e) merged]> (pr_pages pr) in
      let '(err, s) := record_page_map s page_vaddr (pg_frame_cap e) merged in
      if negb (err =? 0) then Some (inr (ELF_OUT_OF_MEMORY, set_vm ld s))
      else Some (inl (mkProgress _ (set_vm ld s) pages (pr_brk pr))).

(** A slot with a frame in it, or the code to return. *)
Definition new_frame (ld : Loader) : (Cap + Z) * Loader :=
  let '(frame_slot, ld) := next_frame_slot ld in
  if (frame_slot =? U64_MAX) || (frame_slot =? 0) then (inr ELF_OUT_OF_MEMORY, ld)
  else if ld_untyped ld =? 0 then (inl frame_slot, ld)
  else
    let '(err, ld) := try_retype_frame_any_untyped ld frame_slot in
    (if err =? 0 then inl frame_slot else inr ELF_OUT_OF_MEMORY, ld).

Definition load_new_page (data : list Z) (page_capacity : Z) (w : Z * Z * Z) (flags page_vaddr : Z)
    (pr : Progress) : option (Progress + Z * Loader) :=
  let '(src_offset, dst_offset, copy_len) := w in
  if Z.of_nat (length (pr_pages pr)) >=? page_capacity then Some (inr (ELF_OUT_OF_MEMORY, pr_ld pr))
  else
    match new_frame (pr_ld pr) with
    | (inr code, ld) => Some (inr (code, ld))
    | (inl frame_slot, ld) =>
        let '(err, s) := map_scratch (ld_vm ld) frame_slot in
        if negb (err =? 0) then Some (inr (ELF_MAP_FAILED, set_vm ld s))
        else
          s ← zero_page s;
          s ← (if fits data src_offset copy_len then copy_in data src_offset dst_offset copy_len s
               else Some s);
          let s := unmap_scratch s in
          let '(err, s) := vspace_map s (child_vspace env) frame_slot page_vaddr flags in
          if negb (err =? 0) then Some (inr (ELF_MAP_FAILED, set_vm ld s))
          else
            let pages := pr_pages pr ++ [mkPage page_vaddr frame_slot flags] in
            let '(err, s) := record_page_map s page_vaddr frame_slot flags in
            if negb (err =? 0) then Some (inr (ELF_OUT_OF_MEMORY, set_vm ld s))
            else Some (inl (mkProgress _ (set_vm ld s) pages (pr_brk pr)))
    end.

Definition load_page (data : list Z) (page_capacity delta seg_vaddr : Z) (ph : Elf64Phdr)
    (page_vaddr : Z) (pr : Progress) : option (Progress + Z * Loader) :=
  let w := copy_window delta seg_vaddr page_vaddr ph in
  let flags := phdr_to_flags (p_flags ph) in
  match find_page (pr_pages pr) page_vaddr with
  | Some j => e ← pr_pages pr !! j; load_shared_page data w flags page_vaddr j e pr
  | None => load_new_page data page_capacity w flags page_vaddr pr
  end.

(** [while page_vaddr < seg_end]. *)
Fixpoint load_pages (fuel : nat) (data : list Z) (page_capacity delta seg_vaddr seg_end : Z)
    (ph : Elf64Phdr) (page_vaddr : Z) (pr : Progress) : option (Progress + Z * Loader) :=
  match fuel with
  | O => None
  | S fuel' =>
      if page_vaddr <? seg_end then
        r ← load_page data page_capacity delta seg_vaddr ph page_vaddr pr;
        match r with
        | inl pr => load_pages fuel' data page_capacity delta seg_vaddr seg_end ph
                      (page_vaddr + ELF_PAGE_SIZE)%u64 pr
        | inr ret => Some (inr ret)
        end
      else Some (inl pr)
  end.

Definition load_segment (data : list Z) (page_capacity delta : Z) (pr : Progress) (ph : Elf64Phdr)
    : option (Progress + Z * Loader) :=
  if negb (is_load ph) then Some (inl pr)
  else
    let seg_vaddr := (p_vaddr ph + delta)%u64 in
    let seg_start := page_align_down seg_vaddr in
    let seg_end := page_align_up (seg_vaddr + p_memsz ph)%u64 in
    let brk := if seg_end >? pr_brk pr then seg_end else pr_brk pr in
    load_pages (S (Z.to_nat MAX_PAGES)) data page_capacity delta seg_vaddr seg_end ph seg_start
      (mkProgress _ (pr_ld pr) (pr_pages pr) brk).

(** ** Relocations *)

(** What the scan of the dynamic section collects. *)
Record RelaInfo := mkRelaInfo { rela_vaddr : Z; rela_size : Z; rela_ent : Z }.

Fixpoint scan_dynamic (fuel : nat) (data : list Z) (dyn_end pos : Z) (ri : RelaInfo) : option RelaInfo :=
  match fuel with
  | O => None
  | S fuel' =>
      if ((pos + SIZEOF_DYN)%u64 <=? dyn_end) && ((pos + SIZEOF_DYN)%u64 <=? data_len data) then
        d ← read_dyn data pos;
        if d_tag d =? DT_NULL then Some ri
        else
          let ri := if d_tag d =? DT_RELA then mkRelaInfo (d_val d) (rela_size ri) (rela_ent ri) else ri in
          let ri := if d_tag d =? DT_RELASZ then mkRelaInfo (rela_vaddr ri) (d_val d) (rela_ent ri) else ri in
          let ri := if d_tag d =? DT_RELAENT then mkRelaInfo (rela_vaddr ri) (rela_size ri) (d_val d) else ri in
          scan_dynamic fuel' data dyn_end (pos + SIZEOF_DYN)%u64 ri
      else Some ri
  end.

(** [for i in i..i+n]: the code and the machine. *)
Fixpoint apply_relas (n : nat) (i : Z) (data : list Z) (R_RELATIVE delta load_base rela_off rela_ent : Z)
    (pages : list ElfPageEntry) (s : vm) : option (Z * vm) :=
  match n with
  | O => Some (0, s)
  | S n' =>
      let entry_off := (rela_off + (i * rela_ent)%u64)%u64 in
      if (entry_off + SIZEOF_RELA)%u64 >? data_len data then Some (ELF_RELOC_FAILED, s)
      else
        rela ← read_rela data entry_off;
        let next := apply_relas n' (i + 1) data R_RELATIVE delta load_base rela_off rela_ent pages in
        if Z.land (r_info rela) 0xFFFFFFFF =? R_RELATIVE then
          let target_vaddr := (r_offset rela + delta)%u64 in
          let value := (load_base + as_u64 (r_addend rela))%u64 in
          let target_page := page_align_down target_vaddr in
          let page_offset := target_vaddr - target_page in
          match find_page pages target_page ≫= (pages !!.) with
          | Some p =>
              r ← write_to_page s (pg_frame_cap p) page_offset value;
              let '(err, s) := r in
              if negb (err =? 0) then Some (ELF_RELOC_FAILED, s) else next s
          | None => Some (ELF_RELOC_FAILED, s)
          end
        else next s
  end.

Definition apply_relocations (R_RELATIVE : Z) (data : list Z) (delta load_base : Z)
    (pages : list ElfPageEntry) (s : vm) : option (Z * vm) :=
  ehdr ← read_ehdr data;
  dyn ← find_phdr data ehdr (fun ph =>
          if p_type ph =? PT_DYNAMIC then Some (p_offset ph, p_filesz ph) else None);
  let '(dyn_offset, dyn_size) := default (0, 0) dyn in
  if dyn_offset =? 0 then Some (0, s)
  else
    ri ← scan_dynamic (S (length data)) data (dyn_offset + dyn_size)%u64 dyn_offset (mkRelaInfo 0 0 0);
    if (rela_vaddr ri =? 0) || (rela_size ri =? 0) || (rela_ent ri =? 0) then Some (0, s)
    else if rela_ent ri <? SIZEOF_RELA then Some (ELF_RELOC_FAILED, s)
    else
      off ← vaddr_to_file_offset data ehdr (rela_vaddr ri);
      match off with
      | None => Some (ELF_RELOC_FAILED, s)
      | Some off =>
          apply_relas (Z.to_nat (rela_size ri `div` rela_ent ri)) 0 data R_RELATIVE delta load_base
            off (rela_ent ri) pages s
      end.

(** ** [elf_load] *)

(** The checks on the file header. *)
Definition check_ehdr (EM_NATIVE : Z) (eh : Elf64Ehdr) : Z :=
  if negb (has_magic eh) then ELF_NOT_ELF
  else if negb (byte_at (e_ident eh) 4 =? ELFCLASS64) then ELF_NOT_64BIT
  else if negb (byte_at (e_ident eh) 5 =? ELFDATA2LSB) then ELF_NOT_LE
  else if negb (e_type eh =? ET_EXEC) && negb (e_type eh =? ET_DYN) then ELF_BAD_TYPE
  else if negb (e_machine eh =? EM_NATIVE) then ELF_BAD_ARCH
  else ELF_OK.

Definition find_min_vaddr (data : list Z) (eh : Elf64Ehdr) : option (Z * bool) :=
  fold_phdrs data eh (fun '(min_vaddr, has_load) ph =>
    if is_load ph then (if p_vaddr ph <? min_vaddr then p_vaddr ph else min_vaddr, true)
    else (min_vaddr, has_load)) (U64_MAX, false).

Definition page_capacity (data : list Z) (eh : Elf64Ehdr) (delta : Z) : option Z :=
  fold_phdrs data eh (fun cap ph =>
    if negb (is_load ph) then cap
    else (cap + seg_pages (p_vaddr ph + delta)%u64 (p_memsz ph))%u64) 0.

(** The architecture the loader is built for: its machine number and its
    RELATIVE relocation. *)
Record Arch := mkArch { EM_NATIVE : Z; R_RELATIVE : Z }.
Definition x86_64 : Arch := mkArch EM_X86_64 R_X86_64_RELATIVE.
Definition aarch64 : Arch := mkArch EM_AARCH64 R_AARCH64_RELATIVE.

(** The returned code, [*result] if it was written, and the loader's state. *)
Definition elf_load (arch : Arch) (data : list Z) (load_base : Z) (ld : Loader)
    : option (Z * option ElfLoadResult * Loader) :=
  if data_len data <? SIZEOF_EHDR then Some (ELF_TOO_SMALL, None, ld) else
  eh ← read_ehdr data;
  if negb (check_ehdr (EM_NATIVE arch) eh =? ELF_OK)
  then Some (check_ehdr (EM_NATIVE arch) eh, None, ld) else
  let is_pie := e_type eh =? ET_DYN in
  m ← find_min_vaddr data eh;
  let '(min_vaddr, has_load) := m in
  if negb has_load then Some (ELF_NO_LOAD, None, ld) else
  let delta := if is_pie then (load_base - min_vaddr)%u64 else 0 in
  cap ← page_capacity data eh delta;
  if cap =? 0 then Some (ELF_NO_LOAD, None, ld) else
  if cap >? MAX_PAGES then Some (ELF_OUT_OF_MEMORY, None, ld) else
  r ← for_phdrs data eh (load_segment data cap delta) (mkProgress _ ld [] 0);
  match r with
  | inr (code, ld) => Some (code, None, ld)
  | inl pr =>
      r ← (if is_pie then apply_relocations (R_RELATIVE arch) data delta load_base (pr_pages pr) (ld_vm (pr_ld pr))
           else Some (0, ld_vm (pr_ld pr)));
      let '(err, s) := r in
      if negb (err =? 0) then Some (err, None, set_vm (pr_ld pr) s)
      else Some (ELF_OK, Some (mkResult (e_entry eh + delta)%u64 load_base (pr_brk pr)),
                 set_vm (pr_ld pr) s)
  end.
End loader.
