(* ===== verification/ElfImage.v ===== *)
(** What loading an ELF file means: the memory image its segments describe.

    [seg_image] builds it segment by segment, page by page, as a finite map from
    page addresses to contents and permissions; [image_byte] and [page_flags]
    say the same pointwise.  Nothing here mentions frames, mappings or the order
    of kernel calls; ElfRefine shows that the loader implements it. *)

From stdpp Require Import gmap.
From S2P Require Import Prelude Consts Elf Vm ElfLoad.

Abbreviation image := (gmap Z (list Z * Z)).

(** ** Pages *)

Lemma page_align_down_eq v : u64 v -> page_align_down v = v - v mod 4096.
Proof. intros. apply (land_bnot_align 64 12); unfold u64, in_u in *; lia. Qed.

Lemma page_align_down_spec v :
  u64 v -> page_align_down v mod 4096 = 0 /\ page_align_down v <= v < page_align_down v + 4096 /\
           0 <= page_align_down v.
Proof.
  intros Hv. rewrite page_align_down_eq by done. pose proof (Z.mod_pos_bound v 4096).
  assert (0 <= v) by (unfold u64, in_u in Hv; lia).
  pose proof (Z.mod_le v 4096). split; [|lia].
  rewrite Zminus_mod_idemp_r, Z.sub_diag. done.
Qed.

Lemma page_align_up_bounds v :
  0 <= v -> v + 4096 <= 2 ^ 64 ->
  page_align_up v mod 4096 = 0 /\ v <= page_align_up v < v + 4096.
Proof.
  intros Hv Hlt. unfold page_align_up, ELF_PAGE_SIZE. rewrite wrap_sub_l.
  rewrite (wrap_small 64 (v + 4096 - 1)) by lia.
  pose proof (align_up_spec 64 12 v ltac:(lia) Hv ltac:(lia)) as [? ?].
  change (2 ^ 12) with 4096 in *.
  replace (v + 4096 - 1) with (v + (4096 - 1)) by lia. tauto.
Qed.

(** [page_align_down] on an address inside a page. *)
Lemma page_align_down_in a va : a mod 4096 = 0 -> 0 <= a -> a <= va < a + 4096 -> va < 2 ^ 64 -> page_align_down va = a.
Proof.
  intros Ha H0 Hva Hlt. rewrite page_align_down_eq by (unfold u64, in_u; lia).
  replace va with (va - a + a) at 2 by lia.
  rewrite <- Zplus_mod_idemp_r, Ha, Z.add_0_r, Z.mod_small by lia. lia.
Qed.

Section image.
Context (data : list Z) (delta : Z).

(** Where a segment is placed, and the pages it occupies. *)
Definition seg_at (ph : Elf64Phdr) : Z := (p_vaddr ph + delta)%u64.
Definition seg_start (ph : Elf64Phdr) : Z := page_align_down (seg_at ph).
Definition seg_end (ph : Elf64Phdr) : Z := page_align_up (seg_at ph + p_memsz ph)%u64.
Definition pages_of (ph : Elf64Phdr) : list Z :=
  (fun i : nat => seg_start ph + 4096 * Z.of_nat i) <$> seq 0 (Z.to_nat (seg_pages (seg_at ph) (p_memsz ph))).

(** The byte of the file a segment puts at an address. *)
Definition in_file (ph : Elf64Phdr) (a : Z) : bool :=
  (seg_at ph <=? a) && (a <? seg_at ph + p_filesz ph).
Definition file_byte (ph : Elf64Phdr) (a : Z) : Z :=
  byte_at data (Z.to_nat (a - seg_at ph + p_offset ph)).

(** A page with the data of a segment over it. *)
Definition overlay (ph : Elf64Phdr) (va : Z) (c : list Z) : list Z :=
  imap (fun k old => if in_file ph (va + Z.of_nat k) then file_byte ph (va + Z.of_nat k) else old) c.

Definition zeros : list Z := replicate PAGE 0.

(** A page after a segment was put on it, given the page before. *)
Definition touched (ph : Elf64Phdr) (va : Z) (old : option (list Z * Z)) : list Z * Z :=
  match old with
  | Some (c, fl) => (overlay ph va c, merge_flags fl (phdr_to_flags (p_flags ph)))
  | None => (overlay ph va zeros, phdr_to_flags (p_flags ph))
  end.

Definition touch (ph : Elf64Phdr) (im : image) (va : Z) : image := <[va := touched ph va (im !! va)]> im.

Definition touch_seg (im : image) (ph : Elf64Phdr) : image := foldl (touch ph) im (pages_of ph).
Definition seg_image (l : list Elf64Phdr) : image := foldl touch_seg ∅ l.

(** What a loader may rely on from a segment: the file part is in the file and
    not larger than the memory part, and the segment ends in the address space. *)
Record seg_ok (ph : Elf64Phdr) : Prop := {
  so_range : u64 (p_vaddr ph) /\ u64 (p_offset ph) /\ 0 <= p_filesz ph;
  so_sizes : p_filesz ph <= p_memsz ph <= 2 ^ 47;
  so_file : p_offset ph + p_filesz ph <= data_len data;
  so_end : seg_at ph + p_memsz ph + 4096 <= 2 ^ 64;
}.

(** Pointwise: the last segment whose file part holds the address decides. *)
Definition image_byte (l : list Elf64Phdr) (a : Z) : Z :=
  foldl (fun b ph => if in_file ph a then file_byte ph a else b) 0 l.

Definition covers (ph : Elf64Phdr) (va : Z) : bool := (seg_start ph <=? va) && (va <? seg_end ph).

(** Writable if some segment on the page is; executable if some segment on the
    page is and none is writable. *)
Definition wants (bit : Z) (ph : Elf64Phdr) : bool := negb (Z.land (p_flags ph) bit =? 0).
Definition flags_of (w x : bool) : Z :=
  Z.lor VSPACE_FLAG_USER (if w then VSPACE_FLAG_WRITABLE else if x then VSPACE_FLAG_EXECUTABLE else 0).
Definition page_flags (l : list Elf64Phdr) (va : Z) : Z :=
  let here := List.filter (fun ph => covers ph va) l in
  flags_of (existsb (wants PF_W) here) (existsb (wants PF_X) here).

Lemma seg_at_u64 ph : u64 (seg_at ph).
Proof. apply wrap_range. lia. Qed.

Section segment.
Context (ph : Elf64Phdr) (Hok : seg_ok ph).

Lemma seg_bounds :
  seg_start ph mod 4096 = 0 /\ seg_end ph mod 4096 = 0 /\
  0 <= seg_start ph <= seg_at ph /\ seg_at ph + p_memsz ph <= seg_end ph < seg_at ph + p_memsz ph + 4096 /\
  seg_at ph < seg_start ph + 4096 /\ seg_start ph <= seg_end ph.
Proof.
  pose proof (page_align_down_spec _ (seg_at_u64 ph)). pose proof (seg_at_u64 ph) as Hu.
  destruct Hok as [[? [? ?]] ? ? ?]. unfold u64, in_u in Hu. unfold seg_start, seg_end.
  rewrite (wrap_small 64 (seg_at ph + _)) by lia.
  pose proof (page_align_up_bounds (seg_at ph + p_memsz ph) ltac:(lia) ltac:(lia)). lia.
Qed.

Lemma seg_pages_eq : seg_end ph = seg_start ph + 4096 * seg_pages (seg_at ph) (p_memsz ph) /\
  0 <= seg_pages (seg_at ph) (p_memsz ph) <= 2 ^ 36.
Proof.
  pose proof seg_bounds as (Hs & He & H1 & H2 & H3 & H4). pose proof (so_sizes _ Hok).
  unfold seg_pages, ELF_PAGE_SIZE. fold (seg_start ph) (seg_end ph).
  assert ((seg_end ph - seg_start ph) mod 4096 = 0) as Hm by (rewrite Zminus_mod, Hs, He; done).
  pose proof (Z.div_mod (seg_end ph - seg_start ph) 4096 ltac:(lia)).
  case_if; [|lia]. split; [lia|]. split; [apply Z.div_pos; lia|]. apply Z.div_le_upper_bound; lia.
Qed.

(** The pages of a segment are the aligned addresses from its start to its end. *)
Lemma elem_of_pages_of va : va ∈ pages_of ph <-> va mod 4096 = 0 /\ covers ph va = true.
Proof.
  pose proof seg_bounds as (Hs & _). pose proof seg_pages_eq as [He Hn].
  unfold pages_of, covers. rewrite list_elem_of_fmap. split.
  - intros (i & -> & [_ Hi]%elem_of_seq). rewrite <- Zplus_mod_idemp_l, Hs.
    rewrite Z.add_0_l, Z.mul_comm, Z_mod_mult. split; [done|].
    apply andb_true_iff. rewrite Z.leb_le, Z.ltb_lt. lia.
  - intros [Hm Hc]. bprop. exists (Z.to_nat ((va - seg_start ph) / 4096)).
    assert ((va - seg_start ph) mod 4096 = 0) as E by (rewrite Zminus_mod, Hm, Hs; done).
    pose proof (Z.div_mod (va - seg_start ph) 4096 ltac:(lia)).
    pose proof (Z.div_pos (va - seg_start ph) 4096 ltac:(lia) ltac:(lia)).
    rewrite Z2Nat.id by lia. split; [lia|]. apply elem_of_seq. lia.
Qed.

(** File data lies on the pages of its segment. *)
Lemma in_file_covers va k :
  va mod 4096 = 0 -> 0 <= k < 4096 -> in_file ph (va + k) = true -> covers ph va = true.
Proof.
  pose proof seg_bounds as (Hs & He & Hb). destruct Hok as [[? [? ?]] ? ? ?].
  unfold in_file, covers. intros Hm Hk Hf. bprop. apply andb_true_iff. rewrite Z.leb_le, Z.ltb_lt.
  pose proof (Z.div_mod va 4096 ltac:(lia)). pose proof (Z.div_mod (seg_start ph) 4096 ltac:(lia)).
  pose proof (Z.div_mod (seg_end ph) 4096 ltac:(lia)). lia.
Qed.

Lemma NoDup_pages_of : NoDup (pages_of ph).
Proof. apply NoDup_fmap_2; [intros i j; lia|]. apply NoDup_seq. Qed.
End segment.

(** ** The image pointwise *)

Lemma touch_all_lookup ph im vs va :
  NoDup vs ->
  foldl (touch ph) im vs !! va = if decide (va ∈ vs) then Some (touched ph va (im !! va)) else im !! va.
Proof.
  intros Hnd. revert im. induction Hnd as [|v vs Hv Hnd IH]; intros im; simpl.
  - done.
  - rewrite IH. unfold touch. destruct (decide (va = v)) as [->|Hne].
    + rewrite decide_False by done. rewrite decide_True by set_solver. by rewrite lookup_insert_eq.
    + rewrite lookup_insert_ne by done. apply decide_ext. rewrite elem_of_cons. tauto.
Qed.

Lemma seg_image_snoc l ph : seg_image (l ++ [ph]) = touch_seg (seg_image l) ph.
Proof. apply foldl_snoc. Qed.

Lemma image_byte_snoc l ph a :
  image_byte (l ++ [ph]) a = if in_file ph a then file_byte ph a else image_byte l a.
Proof. unfold image_byte. by rewrite foldl_snoc. Qed.

Definition page_bytes (l : list Elf64Phdr) (va : Z) : list Z :=
  (fun k => image_byte l (va + Z.of_nat k)) <$> seq 0 PAGE.

Lemma overlay_page_bytes l ph va : overlay ph va (page_bytes l va) = page_bytes (l ++ [ph]) va.
Proof.
  apply list_eq. intros k. unfold overlay, page_bytes. rewrite list_lookup_imap, !list_lookup_fmap.
  destruct (seq 0 PAGE !! k) as [j|] eqn:E; [|done]. apply lookup_seq in E as [-> _]. simpl.
  by rewrite image_byte_snoc.
Qed.

Lemma image_byte_none l a : Forall (fun ph => in_file ph a = false) l -> image_byte l a = 0.
Proof.
  intros Hl. induction l as [|ph l IH] using rev_ind; [done|].
  apply Forall_app in Hl as [Hl Hph]. inv Hph. rewrite image_byte_snoc, H1. auto.
Qed.

Lemma page_bytes_zeros l va :
  Forall seg_ok l -> va mod 4096 = 0 -> existsb (fun ph => covers ph va) l = false ->
  page_bytes l va = zeros.
Proof.
  intros Hl Hm Hc. apply list_eq. intros k. unfold page_bytes, zeros. rewrite list_lookup_fmap.
  destruct (seq 0 PAGE !! k) as [j|] eqn:E.
  - apply lookup_seq in E as [-> Hk]. rewrite lookup_replicate_2 by done. simpl. f_equal.
    apply image_byte_none, Forall_forall. intros ph Hph. apply not_true_is_false. intros Hf.
    apply not_true_iff_false in Hc. apply Hc, existsb_exists. exists ph.
    split; [by apply list_elem_of_In|]. unfold PAGE in Hk.
    apply (in_file_covers ph) with (k := Z.of_nat k); try done; [|lia].
    by eapply Forall_forall in Hl.
  - symmetry. apply lookup_ge_None in E. rewrite length_seq in E. apply lookup_replicate_None. lia.
Qed.

Lemma phdr_to_flags_of f :
  phdr_to_flags f = flags_of (negb (Z.land f PF_W =? 0)) (negb (Z.land f PF_X =? 0)).
Proof. unfold phdr_to_flags, flags_of. by destruct (Z.land f PF_W =? 0), (Z.land f PF_X =? 0). Qed.

Lemma merge_flags_of w x w' x' :
  merge_flags (flags_of w x) (flags_of w' x') = flags_of (w || w') (x || x').
Proof. by destruct w, x, w', x'. Qed.

Lemma page_flags_snoc l ph va :
  covers ph va = true ->
  page_flags (l ++ [ph]) va =
  if existsb (fun ph => covers ph va) l then merge_flags (page_flags l va) (phdr_to_flags (p_flags ph))
  else phdr_to_flags (p_flags ph).
Proof.
  intros Hc. unfold page_flags. rewrite List.filter_app. simpl. rewrite Hc, !existsb_app. simpl.
  rewrite !orb_false_r, phdr_to_flags_of. case_if; [symmetry; apply merge_flags_of|].
  assert (List.filter (fun ph => covers ph va) l = []) as ->; [|done].
  destruct (List.filter _ l) as [|q l'] eqn:E; [done|].
  assert (In q (List.filter (fun ph => covers ph va) l)) as [Hq ?]%filter_In by (rewrite E; by left).
  apply not_true_iff_false in Heqb as []. apply existsb_exists. eauto.
Qed.

(** The image holds exactly the pages some segment covers, with the bytes of the
    last segment that has file data there, and zeros elsewhere. *)
Lemma seg_image_lookup l va :
  Forall seg_ok l -> va mod 4096 = 0 ->
  seg_image l !! va =
  if existsb (fun ph => covers ph va) l then Some (page_bytes l va, page_flags l va) else None.
Proof.
  intros Hl Hm. induction l as [|ph l IH] using rev_ind; [done|].
  apply Forall_app in Hl as [Hl Hok]. apply Forall_inv in Hok. specialize (IH Hl).
  rewrite seg_image_snoc. unfold touch_seg. rewrite touch_all_lookup by apply NoDup_pages_of.
  rewrite existsb_app. simpl. rewrite orb_false_r.
  destruct (decide (va ∈ pages_of ph)) as [[_ Hc]%elem_of_pages_of|Hn]; [|done|].
  - rewrite Hc, orb_true_r, IH, page_flags_snoc, <- overlay_page_bytes by done.
    destruct (existsb _ l) eqn:E; [done|]. simpl. by rewrite page_bytes_zeros.
  - assert (covers ph va = false) as Hc.
    { apply not_true_is_false. intros ?. apply Hn, elem_of_pages_of; auto. }
    rewrite Hc, orb_false_r, IH. case_if; [|done]. do 2 f_equal.
    + rewrite <- overlay_page_bytes. apply list_eq. intros k. unfold overlay. rewrite list_lookup_imap.
      destruct (page_bytes l va !! k) as [b|] eqn:E; [|done]. simpl. destruct (in_file ph _) eqn:Hf; [|done].
      apply lookup_lt_Some in E. unfold page_bytes in E. rewrite length_fmap, length_seq in E.
      unfold PAGE in E. apply in_file_covers in Hf; try done; [congruence|lia].
    + unfold page_flags. rewrite List.filter_app. simpl. by rewrite Hc, app_nil_r.
Qed.
End image.

(** ** Relocation *)

(** A little-endian [u64] stored inside one page. *)
Definition put64 (c : list Z) (off : nat) (v : Z) : list Z :=
  take off c ++ le_bytes 8 v ++ drop (off + 8) c.

Definition write64 (im : image) (a v : Z) : image :=
  alter (fun '(c, fl) => (put64 c (Z.to_nat (a - page_align_down a)) v, fl)) (page_align_down a) im.

(** The relocation entries the loader works through, in order; [None] if the
    tables are malformed. *)
Definition reloc_plan (data : list Z) (eh : Elf64Ehdr) : option (list Elf64Rela) :=
  dyn ← find_phdr data eh (fun ph =>
          if p_type ph =? PT_DYNAMIC then Some (p_offset ph, p_filesz ph) else None);
  let '(dyn_offset, dyn_size) := default (0, 0) dyn in
  if dyn_offset =? 0 then Some []
  else
    ri ← scan_dynamic (S (length data)) data (dyn_offset + dyn_size)%u64 dyn_offset (mkRelaInfo 0 0 0);
    if (rela_vaddr ri =? 0) || (rela_size ri =? 0) || (rela_ent ri =? 0) then Some []
    else if rela_ent ri <? SIZEOF_RELA then None
    else
      off ← vaddr_to_file_offset data eh (rela_vaddr ri);
      off ← off;
      mapM (fun i : nat => read_rela data (off + Z.of_nat i * rela_ent ri))
        (seq 0 (Z.to_nat (rela_size ri `div` rela_ent ri))).

Section reloc.
Context (R_RELATIVE delta load_base : Z).

Definition is_relative (r : Elf64Rela) : bool := Z.land (r_info r) 0xFFFFFFFF =? R_RELATIVE.
Definition target (r : Elf64Rela) : Z := (r_offset r + delta)%u64.

Definition reloc_step (im : image) (r : Elf64Rela) : image :=
  if is_relative r then write64 im (target r) (load_base + as_u64 (r_addend r))%u64 else im.
Definition reloc_image (im : image) (rs : list Elf64Rela) : image := foldl reloc_step im rs.

(** Every relocated word lies inside one page of the image. *)
Definition targets_ok (im : image) (rs : list Elf64Rela) : bool :=
  forallb (fun r => negb (is_relative r) ||
    ((target r - page_align_down (target r) <=? 4088) &&
     match im !! page_align_down (target r) with Some _ => true | None => false end)) rs.
End reloc.

(** ** What a file means *)

(** Base displacement, as the loader chooses it. *)
Definition min_vaddr (l : list Elf64Phdr) : Z :=
  foldl (fun m ph => if p_vaddr ph <? m then p_vaddr ph else m) U64_MAX l.
Definition elf_delta (eh : Elf64Ehdr) (l : list Elf64Phdr) (load_base : Z) : Z :=
  if e_type eh =? ET_DYN then (load_base - min_vaddr l)%u64 else 0.

Definition sum_pages (delta : Z) (l : list Elf64Phdr) : Z :=
  foldl (fun n ph => n + seg_pages (seg_at delta ph) (p_memsz ph)) 0 l.

(** The image of a file and the result of loading it. *)
Definition elf_image (arch : Arch) (data : list Z) (load_base : Z) : option (image * ElfLoadResult) :=
  eh ← read_ehdr data;
  let l := loads data eh in
  let delta := elf_delta eh l load_base in
  rs ← (if e_type eh =? ET_DYN then reloc_plan data eh else Some []);
  Some (reloc_image (R_RELATIVE arch) delta load_base (seg_image data delta l) rs,
        mkResult (e_entry eh + delta)%u64 load_base (foldl (fun b ph => Z.max b (seg_end delta ph)) 0 l)).

(** A file the loader must accept, when it is to be placed at [load_base]. *)
Definition valid_elf (arch : Arch) (data : list Z) (load_base : Z) : Prop :=
  exists eh, file_ok data eh /\ check_ehdr (EM_NATIVE arch) eh = ELF_OK /\
    let l := loads data eh in
    let delta := elf_delta eh l load_base in
    l <> [] /\ Forall (seg_ok data delta) l /\ 0 < sum_pages delta l <= MAX_PAGES /\
    (e_type eh = ET_DYN -> exists rs, reloc_plan data eh = Some rs /\
       targets_ok (R_RELATIVE arch) delta (seg_image data delta l) rs = true).
