(* ===== verification/VmSim.v ===== *)
(** The simulation between a loader and the image it builds, over any kernel that
    keeps the contract [VmOk]: frames filled through the scratch page, pages
    added to the child and pages remapped in it.  The ELF and the PE loader are
    both proved with it. *)

From stdpp Require Import gmap.
From S2P Require Import Prelude Consts Elf Vm ElfLoad ElfImage.

Lemma find_page_spec pages va :
  match find_page pages va with
  | Some j => exists e, pages !! j = Some e /\ pg_vaddr e = va
  | None => va ∉ (pg_vaddr <$> pages)
  end.
Proof.
  induction pages as [|e pages IH]; simpl; [set_solver|]. case_if; [by exists e|].
  destruct (find_page pages va); simpl; [done|]. set_solver.
Qed.

Lemma put64_length c off v : (off + 8 <= length c)%nat -> length (put64 c off v) = length c.
Proof. intros. unfold put64. rewrite !length_app, length_le_bytes, length_take, length_drop. lia. Qed.

Lemma put64_lookup c off v j :
  (off + 8 <= length c)%nat ->
  put64 c off v !! j = if decide (off <= j < off + 8)%nat then le_bytes 8 v !! (j - off)%nat else c !! j.
Proof.
  intros Hl. unfold put64. case_decide.
  - rewrite lookup_app_r by (rewrite length_take; lia).
    rewrite lookup_app_l by (rewrite length_take, length_le_bytes; lia). f_equal. rewrite length_take. lia.
  - destruct (decide (j < off)%nat).
    + rewrite lookup_app_l by (rewrite length_take; lia). by rewrite lookup_take_lt.
    + rewrite lookup_app_r by (rewrite length_take; lia).
      rewrite lookup_app_r by (rewrite length_take, length_le_bytes; lia).
      rewrite length_take, length_le_bytes, lookup_drop. f_equal. lia.
Qed.

Lemma alter_Some (f : list Z * Z -> list Z * Z) (im : image) va x :
  im !! va = Some x -> alter f va im = <[va := f x]> im.
Proof.
  intros Hx. apply map_eq. intros i. destruct (decide (i = va)) as [->|].
  - by rewrite lookup_alter_eq, Hx, lookup_insert_eq.
  - by rewrite lookup_alter_ne, lookup_insert_ne.
Qed.

Section refine.
Context `{V : Vm} {VOK : VmOk V} (env : LoaderEnv).

Abbreviation self := (self_vspace env).
Abbreviation child := (child_vspace env).
Abbreviation scratch := (scratch_vaddr env).

(** The environment is sane: a page-aligned scratch address in a VSpace that is
    not the child's. *)
Record env_ok : Prop := {
  eo_aligned : scratch mod 4096 = 0;
  eo_range : 0 <= scratch /\ scratch + 4096 <= 2 ^ 64;
  eo_child : self <> child;
}.

Context (Henv : env_ok).

(** Frame [f] is mapped at the scratch address and holds [c]. *)
Definition scratched (s : vm) (f : Cap) (c : list Z) : Prop :=
  vm_map s self scratch = Some (f, Z.lor VSPACE_FLAG_WRITABLE VSPACE_FLAG_USER) /\
  vm_frame s f = Some c /\ length c = PAGE.

(** From [s] to [s'] at most frame [f] and the scratch mapping changed. *)
Definition only_frame (f : Cap) (s s' : vm) : Prop :=
  (forall g, g <> f -> vm_frame s' g = vm_frame s g) /\
  (forall vs va, (vs, va) <> (self, scratch) -> vm_map s' vs va = vm_map s vs va).

Lemma only_frame_refl f s : only_frame f s s.
Proof. done. Qed.

Lemma only_frame_trans f s1 s2 s3 : only_frame f s1 s2 -> only_frame f s2 s3 -> only_frame f s1 s3.
Proof. intros [A B] [C D]. split; intros; [rewrite C, A | rewrite D, B]; done. Qed.

Lemma store_byte_spec s f c off v :
  scratched s f c -> 0 <= off < 4096 ->
  exists s', store_byte s self (scratch + off%Z)%u64 v = Some s' /\
    scratched s' f (<[Z.to_nat off := v]> c) /\ only_frame f s s'.
Proof.
  intros (Hm & Hf & Hl) Hoff. destruct Henv as [Ha Hr _]. unfold store_byte.
  rewrite wrap_small by lia. rewrite (page_align_down_in scratch) by lia. rewrite Hm.
  change (Z.land _ VSPACE_FLAG_WRITABLE =? 0) with false. cbv iota.
  replace (scratch + off - scratch) with off by lia.
  destruct (vm_poke_ok s f (Z.to_nat off) v c Hf) as (P1 & P2 & P3); [unfold PAGE in Hl; lia|].
  eexists. split; [done|]. repeat split; auto.
  - by rewrite P3.
  - by rewrite length_insert.
Qed.

Lemma store_loop_spec n k dst src (g : Z -> Z) s f c :
  scratched s f c -> 0 <= k -> 0 <= dst -> dst + k + Z.of_nat n <= 4096 ->
  (forall i, k <= i < k + Z.of_nat n -> src i = Some (g i)) ->
  exists s' c', store_loop env n k dst src s = Some s' /\ scratched s' f c' /\ only_frame f s s' /\
    forall j : nat, c' !! j =
      if decide (dst + k <= Z.of_nat j < dst + k + Z.of_nat n) then Some (g (Z.of_nat j - dst)) else c !! j.
Proof.
  revert k s c. induction n as [|n IH]; intros k s c Hs Hk Hd Hn Hsrc; cbn [store_loop].
  - exists s, c. repeat split; try apply Hs. intros j. rewrite decide_False by lia. done.
  - rewrite Hsrc by lia. rewrite (wrap_small 64 (dst + k)) by lia. cbn [mbind option_bind].
    destruct (store_byte_spec s f c (dst + k) (g k) Hs ltac:(lia)) as (s1 & -> & Hs1 & O1). simpl.
    destruct (IH (k + 1) s1 _ Hs1) as (s2 & c2 & -> & Hs2 & O2 & Hc2); try lia.
    { intros i Hi. apply Hsrc. lia. }
    exists s2, c2. split; [done|]. split; [done|]. split; [by eapply only_frame_trans|].
    intros j. rewrite Hc2. destruct (decide (Z.of_nat j = dst + k)) as [E|E].
    + rewrite decide_False by lia. rewrite decide_True by lia.
      replace (Z.to_nat (dst + k)) with j by lia.
      rewrite list_lookup_insert_eq; [do 2 f_equal; lia|].
      destruct Hs as (_ & _ & Hl). rewrite Hl. unfold PAGE. lia.
    + rewrite list_lookup_insert_ne by lia. apply decide_ext. lia.
Qed.

(** ** Where file data lands on a page *)

(** The window [(src, dst, len)] is the part of the file that segment [ph] has
    on the page [va]. *)
Definition window_ok (data : list Z) (delta : Z) (ph : Elf64Phdr) (va : Z) (w : Z * Z * Z) : Prop :=
  let '(src, dst, len) := w in
  0 <= len /\ 0 <= dst /\ dst + len <= 4096 /\ fits data src len = (0 <? len) /\
  0 <= src /\ (0 < len -> src + len <= data_len data) /\
  (forall k, 0 <= k < 4096 -> in_file delta ph (va + k) = (dst <=? k) && (k <? dst + len)) /\
  (forall k, dst <= k < dst + len -> src + (k - dst) = va + k - seg_at delta ph + p_offset ph).

(** ** Filling the frame under the scratch address *)

Lemma overlay_length data delta ph va c : length (overlay data delta ph va c) = length c.
Proof. unfold overlay. by rewrite length_imap. Qed.

Lemma overlay_none data delta ph va c :
  length c = PAGE -> (forall k, 0 <= k < 4096 -> in_file delta ph (va + k) = false) ->
  overlay data delta ph va c = c.
Proof.
  intros Hl Hn. apply list_eq. intros k. unfold overlay. rewrite list_lookup_imap.
  destruct (c !! k) eqn:E; [|done]. apply lookup_lt_Some in E. simpl.
  rewrite Hn; [done|]. unfold PAGE in Hl. lia.
Qed.

(** What the stores of a copy leave is the overlay. *)
Lemma overlay_stores data delta ph va src dst len c c' :
  length c = PAGE ->
  (forall k, 0 <= k < 4096 -> in_file delta ph (va + k) = (dst <=? k) && (k <? dst + len)) ->
  (forall k, dst <= k < dst + len -> src + (k - dst) = va + k - seg_at delta ph + p_offset ph) ->
  (forall j : nat, c' !! j =
    if decide (dst + 0 <= Z.of_nat j < dst + 0 + len)
    then Some (byte_at data (Z.to_nat (src + (Z.of_nat j - dst)))) else c !! j) ->
  dst + len <= 4096 ->
  c' = overlay data delta ph va c.
Proof.
  intros Hl Hin Hsrc Hc' Hle. apply list_eq. intros j. rewrite Hc'. unfold overlay.
  rewrite list_lookup_imap. destruct (c !! j) as [b|] eqn:E.
  - apply lookup_lt_Some in E as Hj. unfold PAGE in Hl. simpl. rewrite Hin by lia. case_decide.
    + assert ((dst <=? Z.of_nat j) && (Z.of_nat j <? dst + len) = true) as -> by lia.
      unfold file_byte. rewrite Hsrc by lia. done.
    + assert ((dst <=? Z.of_nat j) && (Z.of_nat j <? dst + len) = false) as -> by lia. done.
  - apply lookup_ge_None in E. unfold PAGE in Hl. rewrite decide_False by lia. done.
Qed.

Lemma read_byte_in data off : 0 <= off < data_len data -> read_byte data off = Some (byte_at data (Z.to_nat off)).
Proof.
  intros Hoff. destruct (read_byte_is_Some data off Hoff) as [b Hb]. rewrite Hb.
  unfold read_byte in Hb. case_if; [lia|]. unfold byte_at. by rewrite Hb.
Qed.

Lemma copy_in_spec data delta ph va w s f c :
  data_len data < 2 ^ 63 -> window_ok data delta ph va w -> scratched s f c ->
  let '(src, dst, len) := w in
  exists s', (if fits data src len then copy_in env data src dst len s else Some s) = Some s' /\
    scratched s' f (overlay data delta ph va c) /\ only_frame f s s'.
Proof.
  destruct w as [[src dst] len]. intros Hlen (H1 & H2 & H3 & -> & H4 & H5 & Hin & Hsrc) Hs.
  assert (length c = PAGE) as Hl by apply Hs. case_if.
  - specialize (H5 ltac:(done)). unfold copy_in.
    destruct (store_loop_spec (Z.to_nat len) 0 dst (fun k => read_byte data (src + k)%u64)
                (fun k => byte_at data (Z.to_nat (src + k))) s f c) as (s' & c' & -> & Hs' & O & Hc'); try lia; [done| |].
    { intros i Hi. rewrite wrap_small by lia. apply read_byte_in. lia. }
    exists s'. split; [done|]. split; [|done].
    rewrite <- (overlay_stores data delta ph va src dst len c c'); try done.
    intros j. rewrite Hc'. rewrite Z2Nat.id by lia. done.
  - exists s. split; [done|]. split; [|apply only_frame_refl].
    rewrite overlay_none; try done. intros k Hk. rewrite Hin by lia. lia.
Qed.

Lemma zero_page_spec s f c :
  scratched s f c -> exists s', zero_page env s = Some s' /\ scratched s' f zeros /\ only_frame f s s'.
Proof.
  intros Hs. unfold zero_page.
  destruct (store_loop_spec (Z.to_nat ELF_PAGE_SIZE) 0 0 (fun _ => Some 0) (fun _ => 0) s f c)
    as (s' & c' & E & Hs' & O & Hc'); try done.
  exists s'. split; [done|]. split; [|done]. replace zeros with c'; [done|].
  apply list_eq. intros j. rewrite Hc'. unfold zeros, ELF_PAGE_SIZE. destruct Hs as (_ & _ & Hl). unfold PAGE in *.
  case_decide.
  - rewrite lookup_replicate_2; [done|lia].
  - rewrite lookup_ge_None_2 by lia. symmetry. apply lookup_replicate_None. lia.
Qed.

Lemma map_scratch_spec s f c s1 :
  vm_frame s f = Some c -> length c = PAGE -> map_scratch env s f = (0, s1) ->
  scratched s1 f c /\ only_frame f s s1.
Proof.
  intros Hf Hl Hm. apply vm_map_ok in Hm as (M1 & M2 & M3). unfold scratched, only_frame.
  rewrite !M3. auto.
Qed.

Lemma map_scratch_err s f e s1 : map_scratch env s f = (e, s1) -> e <> 0 -> vm_same s s1.
Proof. apply vm_map_err. Qed.

Lemma unmap_scratch_spec s f c :
  scratched s f c -> vm_frame (unmap_scratch env s) f = Some c /\ only_frame f s (unmap_scratch env s).
Proof.
  intros (_ & Hf & _). unfold unmap_scratch. destruct (vspace_unmap s self scratch) as [e s'] eqn:E.
  apply vm_unmap in E as [U1 U2]. simpl. unfold only_frame. rewrite U2. auto.
Qed.

(** ** Frames *)

(** What the callbacks promise.  A slot allocator either retypes itself (the
    loader is then given no untyped) or only picks a slot; the recorder keeps
    its own books. *)
Record callbacks_ok (retypes : bool) : Prop := {
  cb_alloc : match alloc_frame_slot env with
    | None => retypes = false
    | Some alloc => forall s slot s', alloc s = (slot, s') ->
        if (slot =? U64_MAX) || (slot =? 0) || negb retypes then vm_same s s' else fresh s slot s'
    end;
  cb_record : match record_page env with
    | None => True
    | Some record => forall s va f fl e s', record s va f fl = (e, s') -> vm_same s s'
    end;
}.

(** The next slot, with a frame in it if the callback retypes. *)
Lemma next_frame_slot_spec ld slot ld1 :
  callbacks_ok (ld_untyped ld =? 0) -> next_frame_slot env ld = (slot, ld1) ->
  ld_untyped ld1 = ld_untyped ld /\
  if (slot =? U64_MAX) || (slot =? 0) || negb (ld_untyped ld =? 0) then vm_same (ld_vm ld) (ld_vm ld1)
  else fresh (ld_vm ld) slot (ld_vm ld1).
Proof.
  intros [Ha _] E. unfold next_frame_slot in E. destruct (alloc_frame_slot env) as [alloc|].
  - destruct (alloc (ld_vm ld)) as [sl s1] eqn:Ea. injection E as <- <-. split; [done|]. by apply Ha.
  - injection E as <- <-. split; [done|]. rewrite Ha, orb_true_r. done.
Qed.

(** ** The simulation *)

Record sim (s0 : vm) (retypes : bool) (pr : Progress) (im : image) : Prop := {
  sim_vaddrs : NoDup (pg_vaddr <$> pr_pages pr);
  sim_frames : NoDup (pg_frame_cap <$> pr_pages pr);
  sim_page e : e ∈ pr_pages pr ->
    exists c, im !! pg_vaddr e = Some (c, pg_flags e) /\ length c = PAGE /\
      vm_map (ld_vm (pr_ld pr)) child (pg_vaddr e) = Some (pg_frame_cap e, pg_flags e) /\
      vm_frame (ld_vm (pr_ld pr)) (pg_frame_cap e) = Some c;
  sim_new e : e ∈ pr_pages pr -> vm_frame s0 (pg_frame_cap e) = None;
  sim_dom va : im !! va <> None -> va ∈ (pg_vaddr <$> pr_pages pr);
  sim_rest va : va ∉ (pg_vaddr <$> pr_pages pr) ->
    vm_map (ld_vm (pr_ld pr)) child va = vm_map s0 child va;
  sim_others vs va : vs <> child -> (vs, va) <> (self, scratch) ->
    vm_map (ld_vm (pr_ld pr)) vs va = vm_map s0 vs va;
  sim_old f : f ∉ (pg_frame_cap <$> pr_pages pr) -> vm_frame (ld_vm (pr_ld pr)) f = vm_frame s0 f;
  sim_mode : (ld_untyped (pr_ld pr) =? 0) = retypes;
}.

(** Whatever the loader does, it touches only the child and the scratch page. *)
Abbreviation kept := (keeps child self scratch).

Lemma sim_kept s0 rt pr im : sim s0 rt pr im -> kept s0 (ld_vm (pr_ld pr)).
Proof.
  intros S. split; [apply S|]. intros f Hf. apply S. intros (e & -> & He)%list_elem_of_fmap.
  apply Hf. by eapply sim_new.
Qed.

Lemma sim_init ld : sim (ld_vm ld) (ld_untyped ld =? 0) (mkProgress _ ld [] 0) ∅.
Proof.
  split; simpl; try done; try constructor; try (intros e He; set_solver).
Qed.

Lemma sim_brk s0 rt pr im b : sim s0 rt pr im -> sim s0 rt (mkProgress _ (pr_ld pr) (pr_pages pr) b) im.
Proof. intros [???????? ?]. by split. Qed.

(** The machine may change unobservably under the simulation. *)
Lemma sim_same s0 rt ld pages b im s :
  sim s0 rt (mkProgress _ ld pages b) im -> vm_same (ld_vm ld) s ->
  sim s0 rt (mkProgress _ (set_vm ld s) pages b) im.
Proof.
  intros [S1 S2 S3 S4 S5 S6 S7 S8 S9] [A B]. split; simpl in *; try done; intros; rewrite ?A, ?B; auto.
Qed.

(** A change of one recorded page: new contents and flags. *)
Lemma sim_update s0 rt ld pages b im s j e c' fl' :
  sim s0 rt (mkProgress _ ld pages b) im -> pages !! j = Some e -> length c' = PAGE ->
  vm_frame s (pg_frame_cap e) = Some c' -> vm_map s child (pg_vaddr e) = Some (pg_frame_cap e, fl') ->
  (forall g, g <> pg_frame_cap e -> vm_frame s g = vm_frame (ld_vm ld) g) ->
  (forall vs va, (vs, va) <> (self, scratch) -> (vs, va) <> (child, pg_vaddr e) ->
     vm_map s vs va = vm_map (ld_vm ld) vs va) ->
  sim s0 rt (mkProgress _ (set_vm ld s) (<[j := mkPage (pg_vaddr e) (pg_frame_cap e) fl']> pages) b)
    (<[pg_vaddr e := (c', fl')]> im).
Proof.
  intros [S1 S2 S3 S4 S5 S6 S7 S8 S9] Hj Hl Hf Hm Hg Hv. simpl in *.
  assert (e ∈ pages) as He by by eapply list_elem_of_lookup_2.
  assert (forall {B} (h : ElfPageEntry -> B), h (mkPage (pg_vaddr e) (pg_frame_cap e) fl') = h e ->
    h <$> <[j := mkPage (pg_vaddr e) (pg_frame_cap e) fl']> pages = h <$> pages) as Hfm.
  { intros B h E. rewrite list_fmap_insert, E. apply list_insert_id. by rewrite list_lookup_fmap, Hj. }
  assert (forall x, x ∈ <[j := mkPage (pg_vaddr e) (pg_frame_cap e) fl']> pages ->
    x = mkPage (pg_vaddr e) (pg_frame_cap e) fl' \/
    (x ∈ pages /\ pg_vaddr x <> pg_vaddr e /\ pg_frame_cap x <> pg_frame_cap e)) as Hin.
  { intros x (i & Hi)%list_elem_of_lookup. destruct (decide (i = j)) as [->|Hne].
    - rewrite list_lookup_insert_eq in Hi by (by eapply lookup_lt_Some). left. congruence.
    - rewrite list_lookup_insert_ne in Hi by done. right. split; [by eapply list_elem_of_lookup_2|].
      split; intros E; apply Hne; eapply NoDup_lookup.
      + apply S1. + by rewrite list_lookup_fmap, Hi. + rewrite list_lookup_fmap, Hj; simpl; congruence.
      + apply S2. + by rewrite list_lookup_fmap, Hi. + rewrite list_lookup_fmap, Hj; simpl; congruence. }
  destruct Henv as [_ _ Hsc].
  split; simpl; rewrite ?Hfm by done; try done.
  - intros x [->|(Hx & N1 & N2)]%Hin; simpl; [rewrite lookup_insert_eq; eauto|].
    rewrite lookup_insert_ne by done. destruct (S3 x Hx) as (c & ? & ? & ? & ?). exists c.
    rewrite Hg, Hv by congruence. done.
  - intros x [->|(Hx & _)]%Hin; simpl; auto.
  - intros va Hva. destruct (decide (va = pg_vaddr e)) as [->|]; [by apply list_elem_of_fmap_2|].
    rewrite lookup_insert_ne in Hva by done. auto.
  - intros va Hva. rewrite Hv; [auto|congruence|]. intros [= ->]. apply Hva. by apply list_elem_of_fmap_2.
  - intros vs va Hne Hs. rewrite Hv; [auto|done|congruence].
  - intros f Hf'. rewrite Hg; [auto|]. intros ->. apply Hf'. by apply list_elem_of_fmap_2.
Qed.

(** A new page with a new frame. *)
Lemma sim_extend s0 rt ld pages b im ld' s f va c fl :
  sim s0 rt (mkProgress _ ld pages b) im -> va ∉ (pg_vaddr <$> pages) -> vm_frame (ld_vm ld) f = None ->
  length c = PAGE -> vm_frame s f = Some c -> vm_map s child va = Some (f, fl) ->
  (forall g, g <> f -> vm_frame s g = vm_frame (ld_vm ld) g) ->
  (forall vs va', (vs, va') <> (self, scratch) -> (vs, va') <> (child, va) ->
     vm_map s vs va' = vm_map (ld_vm ld) vs va') ->
  (ld_untyped ld' =? 0) = rt ->
  sim s0 rt (mkProgress _ (set_vm ld' s) (pages ++ [mkPage va f fl]) b) (<[va := (c, fl)]> im).
Proof.
  intros [S1 S2 S3 S4 S5 S6 S7 S8 S9] Hva Hf Hl Hfr Hm Hg Hv Hrt. simpl in *.
  assert (f ∉ (pg_frame_cap <$> pages)) as Hnew.
  { intros (e & -> & He)%list_elem_of_fmap. destruct (S3 e He) as (? & _ & _ & _ & ?). congruence. }
  destruct Henv as [_ _ Hsc].
  split; simpl; rewrite ?fmap_app; simpl; try done.
  - apply NoDup_app. split; [done|]. split; [set_solver|]. apply NoDup_singleton.
  - apply NoDup_app. split; [done|]. split; [set_solver|]. apply NoDup_singleton.
  - intros x [Hx|Hx%list_elem_of_singleton]%elem_of_app.
    + assert (pg_vaddr x <> va) by (intros <-; apply Hva; by apply list_elem_of_fmap_2).
      assert (pg_frame_cap x <> f) by (intros <-; apply Hnew; by apply list_elem_of_fmap_2).
      rewrite lookup_insert_ne by done. destruct (S3 x Hx) as (c' & ? & ? & ? & ?). exists c'.
      rewrite Hg, Hv by congruence. done.
    + subst x. simpl. rewrite lookup_insert_eq. eauto.
  - intros x [Hx|Hx%list_elem_of_singleton]%elem_of_app; [auto|]. subst x. simpl. by rewrite <- S8.
  - intros va' Hva'. destruct (decide (va' = va)) as [->|]; [set_solver|].
    rewrite lookup_insert_ne in Hva' by done. set_solver.
  - intros va' Hn. rewrite Hv; [apply S6; set_solver|congruence|]. intros [= ->]. set_solver.
  - intros vs va' Hne Hs. rewrite Hv; [auto|done|congruence].
  - intros g Hn. rewrite Hg; [apply S8; set_solver|]. set_solver.
Qed.

Lemma kept_only_frame s0 f s s' : kept s0 s -> only_frame f s s' -> vm_frame s0 f = None -> kept s0 s'.
Proof.
  intros [A B] [C D] Hf. split.
  - intros vs va ? ?. rewrite D by done. auto.
  - intros g Hg. rewrite C by congruence. auto.
Qed.

Lemma kept_child s0 s s' va :
  kept s0 s -> (forall vs' va', (vs', va') <> (child, va) -> vm_map s' vs' va' = vm_map s vs' va') ->
  (forall g, vm_frame s' g = vm_frame s g) -> kept s0 s'.
Proof.
  intros [A B] C D. split.
  - intros vs va' ? ?. rewrite C by congruence. auto.
  - intros g Hg. rewrite D. auto.
Qed.

Lemma kept_fresh s0 f s s' : kept s0 s -> fresh s f s' -> kept s0 s' /\ vm_frame s0 f = None.
Proof.
  intros [A B] (F1 & _ & F3 & F4). assert (vm_frame s0 f = None) as Hf.
  { destruct (vm_frame s0 f) eqn:E; [|done]. rewrite <- F1, B by congruence. done. }
  split; [|done]. split.
  - intros. rewrite F4. auto.
  - intros g Hg. rewrite F3 by congruence. auto.
Qed.

Lemma map_child_spec s f va fl e s' :
  vspace_map s child f va fl = (e, s') ->
  (e = 0 -> vm_map s' child va = Some (f, fl)) /\
  (forall vs' va', (vs', va') <> (child, va) -> vm_map s' vs' va' = vm_map s vs' va') /\
  (forall g, vm_frame s' g = vm_frame s g).
Proof.
  intros E. destruct (decide (e = 0)) as [->|Hne].
  - apply vm_map_ok in E as (? & ? & ?). auto.
  - apply vm_map_err in E as [? ?]; auto. split; [done|auto].
Qed.

Lemma record_same rt s va f fl e s' :
  callbacks_ok rt -> record_page_map env s va f fl = (e, s') -> vm_same s s'.
Proof.
  intros [_ Hr]. unfold record_page_map. destruct (record_page env); [apply Hr|]. by intros [= _ <-].
Qed.

(** ** One page *)

(** The kernel always maps an existing frame at the scratch address. *)
Definition scratch_ok : Prop :=
  forall s f c, vm_frame s f = Some c -> length c = PAGE -> (map_scratch env s f).1 = 0.

(** The same slots are in use. *)
Definition same_slots (s s' : vm) : Prop := forall f, vm_frame s f = None <-> vm_frame s' f = None.

Lemma only_frame_slots f s s' c c' :
  only_frame f s s' -> vm_frame s f = Some c -> vm_frame s' f = Some c' -> same_slots s s'.
Proof.
  intros [O _] Hs Hs' g. destruct (decide (g = f)) as [->|]; [by rewrite Hs, Hs'|]. by rewrite O.
Qed.

(** An environment in which nothing fails for want of memory: the kernel maps
    every existing frame, recording succeeds, and [supply n ld] promises that
    [new_frame] gives [n] more frames. *)
Record generous (new_frame : Loader -> (Cap + Z) * Loader) (supply : nat -> Loader -> Prop) : Prop := {
  gen_map s vs f va fl c : vm_frame s f = Some c -> length c = PAGE -> (vspace_map s vs f va fl).1 = 0;
  gen_record s va f fl : (record_page_map env s va f fl).1 = 0;
  gen_frame n ld r ld' : supply (S n) ld -> new_frame ld = (r, ld') -> supply n ld' /\ exists f, r = inl f;
  gen_stable n ld s : supply n ld -> same_slots (ld_vm ld) s -> supply n (set_vm ld s);
}.

Context (new_frame : Loader -> (Cap + Z) * Loader) (oom map_failed : Z) (supply : nat -> Loader -> Prop).

(** Frames are promised for all pages that [cap] still allows. *)
Definition supplied (cap : Z) (pr : Progress) : Prop :=
  generous new_frame supply /\
  (Z.of_nat (length (pr_pages pr)) <= cap -> supply (Z.to_nat (cap - Z.of_nat (length (pr_pages pr)))) (pr_ld pr)).

(** How a step of the loader from [pr] may end: the simulation holds for [im],
    or it gave up with an error and touched nothing but the child and the
    scratch page; and then either memory was short or [im] exceeds [cap]. *)
Definition outcome (s0 : vm) (rt : bool) (cap : Z) (pr : Progress) (r : Progress + Z * Loader) (im : image) : Prop :=
  match r with
  | inl pr' => sim s0 rt pr' im /\ pr_brk pr' = pr_brk pr /\ (supplied cap pr -> supplied cap pr')
  | inr (code, ld) =>
      (code = oom \/ code = map_failed) /\ kept s0 (ld_vm ld) /\
      (supplied cap pr -> cap < Z.of_nat (size im))
  end.

Lemma sim_size s0 rt pr im : sim s0 rt pr im -> size im = length (pr_pages pr).
Proof.
  intros S. rewrite <- (length_fmap pg_vaddr), <- size_dom.
  assert (dom im = list_to_set (pg_vaddr <$> pr_pages pr) :> gset Z) as ->.
  { apply set_eq. intros va. rewrite elem_of_list_to_set, elem_of_dom. split.
    - intros [x Hx]. eapply sim_dom; [done|]. congruence.
    - intros (e & -> & He)%list_elem_of_fmap. destruct (sim_page _ _ _ _ S e He) as (c & -> & _). eauto. }
  apply size_list_to_set. apply S.
Qed.

(** Two steps, the second from where the first ended. *)
Lemma outcome_then s0 rt cap pr r im r' im' :
  outcome s0 rt cap pr r im -> (size im <= size im')%nat ->
  match r with inl pr1 => outcome s0 rt cap pr1 r' im' | inr e => r' = inr e end ->
  outcome s0 rt cap pr r' im'.
Proof.
  destruct r as [pr1|[code ld]]; simpl; intros H1 Hsz H2.
  - destruct H1 as (S1 & B1 & L1). destruct r' as [pr2|[code ld]]; simpl in *.
    + destruct H2 as (? & ? & ?). split_and!; [done|congruence|auto].
    + destruct H2 as (? & ? & ?). auto.
  - subst r'. destruct H1 as (? & ? & L). split_and!; try done. intros Hs%L. lia.
Qed.

(** ** A recorded page changes *)

Section recorded.
Context (s0 : vm) (rt : bool) (ld : Loader) (pages : list ElfPageEntry) (b : Z) (im : image).
Context (j : nat) (e : ElfPageEntry) (c c1 : list Z) (s1 : vm).
Context (S : sim s0 rt (mkProgress _ ld pages b) im) (Hj : pages !! j = Some e) (Hl : length c1 = PAGE).
Context (Hf : vm_frame (ld_vm ld) (pg_frame_cap e) = Some c) (Hf1 : vm_frame s1 (pg_frame_cap e) = Some c1).
Context (O1 : only_frame (pg_frame_cap e) (ld_vm ld) s1).

Lemma recorded_mapped :
  vm_map (ld_vm ld) child (pg_vaddr e) = Some (pg_frame_cap e, pg_flags e) /\ vm_frame s0 (pg_frame_cap e) = None.
Proof.
  assert (e ∈ pages) as He by by eapply list_elem_of_lookup_2.
  destruct (sim_page _ _ _ _ S e He) as (c' & _ & _ & Hm & _). split; [done|]. by apply (sim_new _ _ _ _ S).
Qed.

Lemma recorded_kept : kept s0 s1.
Proof. eapply kept_only_frame; [apply (sim_kept _ _ _ _ S) | apply O1 | apply recorded_mapped]. Qed.

(** New contents. *)
Lemma sim_refill :
  sim s0 rt (mkProgress _ (set_vm ld s1) pages b) (<[pg_vaddr e := (c1, pg_flags e)]> im).
Proof.
  destruct recorded_mapped as [Hm _]. destruct O1 as [O M], Henv as [_ _ Hsc].
  rewrite <- (list_insert_id pages j e) by done.
  replace e with (mkPage (pg_vaddr e) (pg_frame_cap e) (pg_flags e)) at 1 by (by destruct e).
  eapply sim_update; try done; [rewrite M by congruence; done | auto].
Qed.

(** New contents and permissions. *)
Lemma sim_remap m e2 s2 e3 s3 :
  vspace_unmap s1 child (pg_vaddr e) = (e2, s2) -> vspace_map s2 child (pg_frame_cap e) (pg_vaddr e) m = (e3, s3) ->
  kept s0 s3 /\ same_slots (ld_vm ld) s3 /\ (generous new_frame supply -> e3 = 0) /\
  (e3 = 0 -> sim s0 rt (mkProgress _ (set_vm ld s3) (<[j := mkPage (pg_vaddr e) (pg_frame_cap e) m]> pages) b)
               (<[pg_vaddr e := (c1, m)]> im)).
Proof.
  intros E2 E3. apply vm_unmap in E2 as [U1 U2]. pose proof (map_child_spec _ _ _ _ _ _ E3) as (P1 & P2 & P3).
  pose proof (only_frame_slots _ _ _ _ _ O1 Hf Hf1) as SL. destruct O1 as [O M]. split_and!.
  - eapply kept_child; [|done|done]. eapply kept_child; [apply recorded_kept|done|done].
  - intros g. rewrite P3, U2. apply SL.
  - intros G. pose proof (gen_map _ _ G s2 child (pg_frame_cap e) (pg_vaddr e) m c1 ltac:(by rewrite U2) Hl) as G'.
    by rewrite E3 in G'.
  - intros ->. eapply sim_update; try done.
    + by rewrite P3, U2.
    + auto.
    + intros g Hg. rewrite P3, U2. auto.
    + intros vs va ? ?. rewrite P2, U1 by done. auto.
Qed.
End recorded.

(** ** A page is added *)

Lemma sim_install s0 rt ld pages b im ld1 f va c fl s5 e6 s6 :
  sim s0 rt (mkProgress _ ld pages b) im -> va ∉ (pg_vaddr <$> pages) -> fresh (ld_vm ld) f (ld_vm ld1) ->
  (ld_untyped ld1 =? 0) = rt -> only_frame f (ld_vm ld1) s5 -> vm_frame s5 f = Some c -> length c = PAGE ->
  vspace_map s5 child f va fl = (e6, s6) ->
  kept s0 s6 /\ same_slots (ld_vm ld1) s6 /\ (generous new_frame supply -> e6 = 0) /\
  (e6 = 0 -> sim s0 rt (mkProgress _ (set_vm ld1 s6) (pages ++ [mkPage va f fl]) b) (<[va := (c, fl)]> im)).
Proof.
  intros S Hva Hfr Hrt O Hf Hl E6. destruct (kept_fresh _ _ _ _ (sim_kept _ _ _ _ S) Hfr) as [K1 Hn0].
  destruct Hfr as (F1 & (p & Hp & _) & F3 & F4).
  pose proof (only_frame_slots _ _ _ _ _ O Hp Hf) as SL. pose proof (kept_only_frame _ _ _ _ K1 O Hn0) as K5.
  destruct O as [O M]. pose proof (map_child_spec _ _ _ _ _ _ E6) as (P1 & P2 & P3). split_and!.
  - eapply kept_child; [apply K5|done|done].
  - intros g. rewrite P3. apply SL.
  - intros G. pose proof (gen_map _ _ G s5 child f va fl _ Hf Hl) as G'. by rewrite E6 in G'.
  - intros ->. eapply (sim_extend s0 rt ld _ _ _ _ _ f); try done.
    + by rewrite P3.
    + auto.
    + intros g Hg. rewrite P3, O, F3 by done. done.
    + intros vs va' ? ?. rewrite P2, M, F4 by done. done.
Qed.

(** ** Filling frames with a segment's data *)

Section segment.
Context (data : list Z) (delta : Z) (ph : Elf64Phdr) (Hlen : data_len data < 2 ^ 63).

(** The copy into a page that is already there. *)
Lemma shared_copy_spec s f c va w :
  scratch_ok -> vm_frame s f = Some c -> length c = PAGE -> window_ok data delta ph va w ->
  let '(src, dst, len) := w in
  exists s', (if fits data src len then
                let '(err, s) := map_scratch env s f in
                if err =? 0 then unmap_scratch env <$> copy_in env data src dst len s else Some s
              else Some s) = Some s' /\
    vm_frame s' f = Some (overlay data delta ph va c) /\ only_frame f s s'.
Proof.
  intros Hscr Hf Hl Hw. pose proof (Hscr s f c Hf Hl) as E0.
  destruct (map_scratch env s f) as [e s1] eqn:E. simpl in E0. subst e.
  destruct (map_scratch_spec _ _ _ _ Hf Hl E) as [Hs1 O1].
  pose proof (copy_in_spec data delta ph va w s1 f c Hlen Hw Hs1) as Hcopy.
  destruct w as [[src dst] len]. destruct Hw as (H1 & _ & _ & Hfit & _ & _ & Hin & _).
  rewrite Hfit in *. destruct (0 <? len) eqn:E1.
  - destruct Hcopy as (s2 & -> & Hs2 & O2). destruct (unmap_scratch_spec _ _ _ Hs2) as [Hf3 O3].
    simpl. eexists. split; [done|]. split; [done|]. eauto using only_frame_trans.
  - exists s. split; [done|]. split; [|apply only_frame_refl].
    rewrite overlay_none; try done. intros k Hk. rewrite Hin by done. bprop. lia.
Qed.

(** Filling a new frame: zeros, then the file's data over them. *)
Lemma new_copy_spec s f c va w :
  scratched s f c -> window_ok data delta ph va w ->
  let '(src, dst, len) := w in
  exists s1 s2, zero_page env s = Some s1 /\
    (if fits data src len then copy_in env data src dst len s1 else Some s1) = Some s2 /\
    vm_frame (unmap_scratch env s2) f = Some (overlay data delta ph va zeros) /\
    only_frame f s (unmap_scratch env s2).
Proof.
  intros Hs Hw. destruct (zero_page_spec _ _ _ Hs) as (s1 & E1 & Hs1 & O1).
  pose proof (copy_in_spec data delta ph va w s1 f _ Hlen Hw Hs1) as Hcopy.
  destruct w as [[src dst] len]. destruct Hcopy as (s2 & E2 & Hs2 & O2).
  destruct (unmap_scratch_spec _ _ _ Hs2) as [Hf3 O3]. exists s1, s2. eauto 6 using only_frame_trans.
Qed.

Lemma touch_size im va : (size im <= size (touch data delta ph im va))%nat.
Proof.
  unfold touch. destruct (im !! va) eqn:E.
  - by rewrite map_size_insert_Some.
  - rewrite map_size_insert_None by done. lia.
Qed.

Lemma touch_all_size im vs : (size im <= size (foldl (touch data delta ph) im vs))%nat.
Proof.
  revert im. induction vs as [|v vs IH]; intros im; simpl; [lia|].
  pose proof (touch_size im v). pose proof (IH (touch data delta ph im v)). lia.
Qed.
End segment.
(** ** A word is stored *)

Lemma store64_spec s f c off v :
  scratched s f c -> 0 <= off <= 4088 ->
  exists s', store_loop env 8 0 off (fun k => le_bytes 8 v !! Z.to_nat k) s = Some s' /\
    scratched s' f (put64 c (Z.to_nat off) v) /\ only_frame f s s'.
Proof.
  intros Hs Hoff. assert (length c = PAGE) as Hl by apply Hs.
  destruct (store_loop_spec 8 0 off (fun k => le_bytes 8 v !! Z.to_nat k)
    (fun k => byte_at (le_bytes 8 v) (Z.to_nat k)) s f c Hs) as (s2 & c2 & -> & Hs2 & O2 & Hc2); try lia.
  { intros i Hi. unfold byte_at. destruct (lookup_lt_is_Some_2 (le_bytes 8 v) (Z.to_nat i)) as [x ->]; [|done].
    rewrite length_le_bytes. lia. }
  exists s2. split; [done|]. split; [|done]. replace (put64 c (Z.to_nat off) v) with c2; [done|].
  apply list_eq. intros k. rewrite Hc2, put64_lookup by (unfold PAGE in Hl; lia).
  destruct (decide (off + 0 <= Z.of_nat k < off + 0 + Z.of_nat 8)) as [H|H].
  - rewrite decide_True by lia. unfold byte_at. replace (Z.to_nat (Z.of_nat k - off)) with (k - Z.to_nat off)%nat by lia.
    destruct (lookup_lt_is_Some_2 (le_bytes 8 v) (k - Z.to_nat off)) as [x ->]; [|done]. rewrite length_le_bytes. lia.
  - rewrite decide_False by lia. done.
Qed.

(** ** The end result *)

(** The child after loading: the pages of the image, each in a new frame of its
    own, and every other page as before. *)
Definition holds (s0 s : vm) (im : image) : Prop :=
  (forall va, match im !! va with
    | Some (c, fl) => exists f, vm_map s child va = Some (f, fl) /\ vm_frame s f = Some c /\ vm_frame s0 f = None
    | None => vm_map s child va = vm_map s0 child va
    end) /\
  (forall va va' f fl fl', im !! va <> None -> im !! va' <> None ->
     vm_map s child va = Some (f, fl) -> vm_map s child va' = Some (f, fl') -> va = va').

Lemma sim_holds s0 rt pr im : sim s0 rt pr im -> holds s0 (ld_vm (pr_ld pr)) im.
Proof.
  intros S.
  assert (forall va, im !! va <> None -> exists e, e ∈ pr_pages pr /\ pg_vaddr e = va) as Hd.
  { intros va Hva. apply (sim_dom _ _ _ _ S) in Hva. apply list_elem_of_fmap in Hva as (e & -> & ?). eauto. }
  split.
  - intros va. destruct (im !! va) as [[c fl]|] eqn:E.
    + destruct (Hd va) as (e & He & <-); [congruence|].
      destruct (sim_page _ _ _ _ S e He) as (c' & E' & _ & Hm & Hf). rewrite E in E'. injection E' as <- ->.
      exists (pg_frame_cap e). split_and!; [done..|]. by eapply sim_new.
    + apply S. intros (e & -> & He)%list_elem_of_fmap.
      destruct (sim_page _ _ _ _ S e He) as (c' & E' & _). congruence.
  - intros va va' f fl fl' H1 H2 M1 M2. destruct (Hd va H1) as (e & He & <-), (Hd va' H2) as (e' & He' & <-).
    destruct (sim_page _ _ _ _ S e He) as (_ & _ & _ & Hm & _), (sim_page _ _ _ _ S e' He') as (_ & _ & _ & Hm' & _).
    apply list_elem_of_lookup in He as [i Hi], He' as [j Hj].
    assert (i = j) as ->; [|congruence]. eapply NoDup_lookup; [apply (sim_frames _ _ _ _ S)|..].
    + rewrite list_lookup_fmap, Hi. simpl. done.
    + rewrite list_lookup_fmap, Hj. simpl. congruence.
Qed.

End refine.

(** * A kernel that maps what it is given *)

Record toy_state := mkToy { tm_maps : gmap (Z * Z) (Z * Z); tm_frames : gmap Z (list Z) }.

(** A new frame holds whatever was there before. *)
Definition toy_page : list Z := replicate PAGE 165.

Definition toy_invoke (s : toy_state) (cap label x0 x1 x2 x3 : Z) : Z * toy_state :=
  if label =? VSPACE_MAP then
    match tm_frames s !! x0 with
    | Some _ => (0, mkToy (<[(cap, x1) := (x0, x2)]> (tm_maps s)) (tm_frames s))
    | None => (TRONA_INVALID_CAPABILITY, s)
    end
  else if label =? VSPACE_UNMAP then (0, mkToy (delete (cap, x0) (tm_maps s)) (tm_frames s))
  else if label =? UNTYPED_RETYPE then
    match tm_frames s !! x2 with
    | Some _ => (TRONA_SLOT_OCCUPIED, s)
    | None => (0, mkToy (tm_maps s) (<[x2 := toy_page]> (tm_frames s)))
    end
  else (TRONA_INVALID_OPERATION, s).

#[export] Instance toy : Vm := {
  vm := toy_state;
  vm_invoke := toy_invoke;
  vm_map s (vs va : Z) := tm_maps s !! (vs, va);
  vm_frame s (f : Z) := tm_frames s !! f;
  vm_poke s (f : Z) k v := mkToy (tm_maps s) (alter (insert k v) f (tm_frames s));
  vm_ipc_word3 _ := None;
}.

Lemma toy_map (s : toy_state) (vs f va fl : Z) :
  vspace_map s vs f va fl =
  match tm_frames s !! f with
  | Some _ => (0, mkToy (<[(vs, va) := (f, fl)]> (tm_maps s)) (tm_frames s))
  | None => (TRONA_INVALID_CAPABILITY, s)
  end.
Proof. unfold vspace_map. simpl. unfold invoke_i32, toy_invoke. simpl. destruct (tm_frames s !! f); reflexivity. Qed.

Lemma toy_unmap (s : toy_state) (vs va : Z) :
  vspace_unmap s vs va = (0, mkToy (delete (vs, va) (tm_maps s)) (tm_frames s)).
Proof. done. Qed.

Lemma toy_retype (s : toy_state) (u t b slot : Z) :
  untyped_retype s u t b slot =
  match tm_frames s !! slot with
  | Some _ => (TRONA_SLOT_OCCUPIED, s)
  | None => (0, mkToy (tm_maps s) (<[slot := toy_page]> (tm_frames s)))
  end.
Proof. unfold untyped_retype. simpl. unfold invoke_i32, toy_invoke. simpl. by destruct (tm_frames s !! slot). Qed.

#[export] Instance toy_ok : VmOk toy.
Proof.
  split.
  - intros s vs f va fl s'. rewrite toy_map. case_match; intros [= <-].
    split; [apply lookup_insert_eq|]. split; [|done]. intros. by apply lookup_insert_ne.
  - intros s vs f va fl e s'. rewrite toy_map. case_match; intros [= <- <-]; by intros.
  - intros s vs va e s'. rewrite toy_unmap. intros [= <- <-]. split; [|done]. intros. by apply lookup_delete_ne.
  - intros s u slot s'. rewrite toy_retype. case_match; intros [= <-].
    split; [done|]. split; [|split; [|done]].
    + exists toy_page. split; [apply lookup_insert_eq|]. apply length_replicate.
    + intros. by apply lookup_insert_ne.
  - intros s u slot e s'. rewrite toy_retype. case_match; intros [= <- <-]; by intros.
  - intros s c e s' [= <- <-]. done.
  - intros s f k v p Hp Hk. split; [|split; [|done]].
    + simpl. rewrite lookup_alter_eq. simpl in Hp. by rewrite Hp.
    + intros. by apply lookup_alter_ne.
Qed.

(** A loader of VSpace 5 that fills VSpace 9 and takes slots by counting. *)
Definition toy_env : LoaderEnv := mkEnv toy 5 9 0x700000 None None.
Definition toy_loader : Loader := mkLoader toy (mkToy ∅ ∅) 16 100 16.

Lemma toy_env_ok : env_ok toy_env.
Proof. split; done. Qed.

Lemma toy_callbacks_ok : callbacks_ok toy_env (ld_untyped toy_loader =? 0).
Proof. split; done. Qed.

Lemma toy_scratch_ok : scratch_ok toy_env.
Proof. intros s f c Hf _. unfold map_scratch. rewrite toy_map. simpl in Hf. by rewrite Hf. Qed.

(** [n] slots from the counter on are empty. *)
Definition toy_supply (n : nat) (ld : @Loader toy) : Prop :=
  ld_untyped ld <> 0 /\ 0 < ld_next_frame_slot ld /\ ld_next_frame_slot ld + Z.of_nat n <= U64_MAX /\
  forall i, 0 <= i < Z.of_nat n -> tm_frames (ld_vm ld) !! (ld_next_frame_slot ld + i) = None.

Lemma toy_generous : generous toy_env (new_frame toy_env) toy_supply.
Proof.
  split.
  - intros s vs f va fl c Hf _. rewrite toy_map. simpl in Hf. by rewrite Hf.
  - done.
  - intros n ld r ld' (Hu & Hp & Hm & He). unfold new_frame, next_frame_slot. simpl. unfold U64_MAX in *.
    destruct (Z.eqb_spec (ld_next_frame_slot ld) (2 ^ 64 - 1)); [lia|].
    destruct (Z.eqb_spec (ld_next_frame_slot ld) 0); [lia|]. simpl.
    destruct (Z.eqb_spec (ld_untyped ld) 0); [done|].
    unfold try_retype_frame_any_untyped. rewrite toy_retype. simpl.
    pose proof (He 0 ltac:(lia)) as E0. rewrite Z.add_0_r in E0. rewrite E0. simpl. intros [= <- <-].
    split; [|by eexists]. unfold toy_supply, U64_MAX. simpl ld_untyped. simpl ld_next_frame_slot. simpl ld_vm. rewrite wrap_small by lia.
    split_and!; try lia; try done. intros i Hi. etrans; [apply lookup_insert_ne; lia|].
    rewrite <- Z.add_assoc. apply He. lia.
  - intros n ld s (Hu & Hp & Hm & He) Hs. split_and!; try done. intros i Hi. apply Hs. by apply He.
Qed.
