(* ===== verification/ElfRefine.v ===== *)
(** The ELF loader refines the image of ElfImage: each step of its page and
    segment loops follows the simulation of VmSim. *)

From stdpp Require Import gmap.
From S2P Require Import Prelude Consts Elf Vm ElfLoad ElfImage VmSim.

Section refine.
Context `{V : Vm} {VOK : VmOk V} (env : LoaderEnv) (Henv : env_ok env).
Context (supply : nat -> Loader -> Prop).

Abbreviation self := (self_vspace env).
Abbreviation child := (child_vspace env).
Abbreviation scratch := (scratch_vaddr env).
Abbreviation kept := (keeps child self scratch).
Abbreviation sim := (sim env).
Abbreviation callbacks_ok := (callbacks_ok env).
Abbreviation supplied := (supplied env (new_frame env) supply).
Abbreviation outcome := (outcome env (new_frame env) ELF_OUT_OF_MEMORY ELF_MAP_FAILED supply).

(** ** Where file data lands on a page *)

Lemma copy_window_spec data delta ph va :
  seg_ok data delta ph -> data_len data < 2 ^ 63 -> va mod 4096 = 0 -> covers delta ph va = true ->
  window_ok data delta ph va (copy_window delta (seg_at delta ph) va ph).
Proof.
  intros Hok Hlen Hm Hc. pose proof (seg_bounds _ _ _ Hok) as (Hs & He & Hb1 & Hb2 & Hb3 & Hb4).
  destruct Hok as [(Hv & Ho & Hf) Hsz Hfile Hend]. unfold covers in Hc. unfold copy_window, in_file, ELF_PAGE_SIZE.
  unfold u64, in_u in *. bprop.
  assert (va + 4096 <= seg_end delta ph).
  { pose proof (Z.div_mod va 4096 ltac:(lia)). pose proof (Z.div_mod (seg_end delta ph) 4096 ltac:(lia)). lia. }
  rewrite (wrap_small 64 (seg_at delta ph + _)), (wrap_small 64 (va + 4096)) by lia.
  set (sa := seg_at delta ph) in *. set (cs := if va >? sa then va else sa).
  set (ce := if va + 4096 <? sa + p_filesz ph then va + 4096 else sa + p_filesz ph).
  assert (cs = Z.max va sa) as Ecs by (subst cs; case_if; lia).
  assert (ce = Z.min (va + 4096) (sa + p_filesz ph)) as Ece by (subst ce; case_if; lia).
  clearbody cs ce. case_if.
  - assert ((((cs - delta)%u64 - p_vaddr ph)%u64 + p_offset ph)%u64 = cs - sa + p_offset ph) as ->.
    { rewrite wrap_sub_l, wrap_add_l.
      rewrite <- (wrap_small 64 (cs - sa + p_offset ph)) by lia. subst sa. unfold seg_at.
      rewrite <- (wrap_add_l 64 (cs - _)), wrap_sub_r, wrap_add_l. f_equal. lia. }
    rewrite (wrap_small 64 (cs - va)) by lia.
    unfold window_ok, fits, in_file.
    rewrite (wrap_small 64 (cs - sa + p_offset ph + _)) by lia.
    split_and!; try lia; intros; lia.
  - unfold window_ok, fits, in_file, data_len in *. split_and!; try done; try lia; intros; lia.
Qed.

(** ** Frames *)

Lemma scan_untypeds_spec n ut skip slot best s (r : Cap + Z) s' :
  scan_untypeds n ut skip slot best s = (r, s') ->
  match r with
  | inl u => ut <= u /\ fresh s slot s'
  | inr e => vm_same s s' /\ (best <> 0 -> e <> 0)
  end.
Proof.
  revert ut best s. induction n as [|n IH]; intros ut best s; cbn [scan_untypeds].
  - intros [= <- <-]. split; [reflexivity | done].
  - case_if.
    + intros Hr%IH. destruct r; [|done]. split; [lia | apply Hr].
    + destruct (untyped_retype s ut OBJ_FRAME 0 slot) as [err s1] eqn:E. case_if.
      * intros [= <- <-]. subst err. split; [lia|]. by eapply vm_retype_ok.
      * intros Hr%IH. apply vm_retype_err in E; [|done]. destruct r.
        -- split; [lia|]. rewrite E. apply Hr.
        -- rewrite E. split; [apply Hr|]. intros Hb. apply Hr. by case_if.
Qed.

Lemma untyped_scan_end_spec s e s' : untyped_scan_end s = (e, s') -> vm_same s s'.
Proof.
  unfold untyped_scan_end. destruct (cnode_get_info _ _) as [err s1] eqn:E. intros [= _ <-].
  by eapply vm_info_ok.
Qed.

Lemma try_retype_spec ld slot e ld' :
  ld_untyped ld <> 0 -> try_retype_frame_any_untyped ld slot = (e, ld') ->
  ld_untyped ld' <> 0 /\
  (if e =? 0 then fresh (ld_vm ld) slot (ld_vm ld') else vm_same (ld_vm ld) (ld_vm ld')).
Proof.
  intros Hu. unfold try_retype_frame_any_untyped.
  destruct (untyped_retype _ _ _ _ _) as [err s1] eqn:E. case_if.
  { intros [= <- <-]. subst err. split; [done|]. by eapply vm_retype_ok. }
  apply vm_retype_err in E; [|done]. destruct (untyped_scan_end s1) as [en s2] eqn:E2.
  apply untyped_scan_end_spec in E2. set (first := if ((ld_hint ld <? _) || _)%bool then CAP_UNTYPED_START else ld_hint ld).
  assert (CAP_UNTYPED_START <= first) as Hfirst by (subst first; case_if; unfold CAP_UNTYPED_START in *; lia).
  clearbody first. unfold CAP_UNTYPED_START in *.
  destruct (scan_untypeds (Z.to_nat (en - first)) _ _ _ _ _) as [[u|e1] s3] eqn:E3; apply scan_untypeds_spec in E3.
  { intros [= <- <-]. simpl. split; [lia|]. rewrite E, E2. apply E3. }
  destruct E3 as [E3 Hne].
  destruct (scan_untypeds (Z.to_nat (first - 16)) _ _ _ _ _) as [[u|e2] s4] eqn:E4; apply scan_untypeds_spec in E4.
  { intros [= <- <-]. simpl. split; [lia|]. rewrite E, E2, E3. apply E4. }
  intros [= <- <-]. split; [done|]. destruct E4 as [E4 Hne2].
  assert ((e2 =? 0) = false) as -> by (apply Z.eqb_neq; auto). simpl. by rewrite E, E2, E3, E4.
Qed.

(** Either a new frame, or out of memory with nothing changed; and the loader
    stays in its mode. *)
Lemma new_frame_spec ld r ld' :
  callbacks_ok (ld_untyped ld =? 0) -> new_frame env ld = (r, ld') ->
  (ld_untyped ld' =? 0) = (ld_untyped ld =? 0) /\
  match r with
  | inl slot => fresh (ld_vm ld) slot (ld_vm ld')
  | inr code => code = ELF_OUT_OF_MEMORY /\ vm_same (ld_vm ld) (ld_vm ld')
  end.
Proof.
  intros Hcb Hn. unfold new_frame in Hn. destruct (next_frame_slot env ld) as [slot ld1] eqn:E.
  apply (next_frame_slot_spec _ _ _ _ Hcb) in E as [Hu Hs].
  destruct ((slot =? U64_MAX) || (slot =? 0)) eqn:Hbad.
  { injection Hn as <- <-. by rewrite Hu. }
  rewrite Hu in Hn. simpl in Hs. destruct (ld_untyped ld =? 0) eqn:Hz; simpl in Hs; bprop.
  { injection Hn as <- <-. rewrite Hu. rewrite Hz. done. }
  destruct (try_retype_frame_any_untyped ld1 slot) as [e ld2] eqn:Et. injection Hn as <- <-.
  apply try_retype_spec in Et as [Hu2 Hf]; [|congruence].
  split; [by apply Z.eqb_neq|]. destruct (e =? 0); [|split; [done|]]; by rewrite Hs.
Qed.

(** ** One page *)

Section page.
Context (data : list Z) (delta : Z) (ph : Elf64Phdr) (s0 : vm) (rt : bool).
Context (Hcb : callbacks_ok rt) (Hscr : scratch_ok env) (Hok : seg_ok data delta ph).
Context (Hlen : data_len data < 2 ^ 63).

Local Abbreviation window va := (copy_window delta (seg_at delta ph) va ph).
Local Abbreviation flags := (phdr_to_flags (p_flags ph)).

Lemma load_shared_page_spec cap va w j e pr im :
  sim s0 rt pr im -> window_ok data delta ph va w -> pr_pages pr !! j = Some e -> pg_vaddr e = va ->
  exists r, load_shared_page env data w flags va j e pr = Some r /\
    outcome s0 rt cap pr r (touch data delta ph im va).
Proof.
  intros S Hw Hj <-. destruct pr as [ld pages b]. simpl in Hj.
  assert (e ∈ pages) as He by by eapply list_elem_of_lookup_2.
  destruct (sim_page _ _ _ _ _ S e He) as (c & Him & Hl & Hmap & Hf). simpl in Hmap, Hf.
  pose proof (shared_copy_spec env Henv data delta ph Hlen (ld_vm ld) _ _ (pg_vaddr e) w Hscr Hf Hl Hw) as Hcopy.
  unfold load_shared_page. destruct w as [[src dst] len]. cbn [pr_ld pr_pages pr_brk].
  destruct Hcopy as (s1 & -> & Hf1 & O1). cbn [mbind option_bind].
  assert (length (overlay data delta ph (pg_vaddr e) c) = PAGE) as Hl1 by by rewrite overlay_length.
  unfold touch. rewrite Him. cbn [touched]. set (m := merge_flags _ _). case_if.
  { eexists. split; [done|]. split; [|split; [done|]].
    - rewrite Heqb0. by eapply sim_refill.
    - intros [G HS]. split; [done|]. intros Hle. apply (gen_stable _ _ _ G); [by apply HS|]. by eapply only_frame_slots. }
  destruct (vspace_unmap s1 child (pg_vaddr e)) as [e2 s2] eqn:E2.
  destruct (vspace_map s2 child _ _ _) as [e3 s3] eqn:E3.
  destruct (sim_remap env Henv (new_frame env) supply s0 rt ld pages b im j e c _ s1 S Hj Hl1 Hf Hf1 O1 m _ _ _ _ E2 E3)
    as (K3 & SL & G3 & S3). case_if.
  { eexists. split; [done|]. split; [by right|]. split; [done|]. intros [G _]. by specialize (G3 G). }
  destruct (record_page_map env s3 _ _ _) as [e4 s4] eqn:E4'. pose proof (record_same _ _ _ _ _ _ _ _ Hcb E4') as E4.
  case_if.
  { eexists. split; [done|]. split; [by left|]. simpl. split; [by rewrite <- E4|]. intros [G _].
    pose proof (gen_record _ _ _ G s3 (pg_vaddr e) (pg_frame_cap e) m) as G'. by rewrite E4' in G'. }
  eexists. split; [done|]. split; [|split; [done|]].
  - apply (sim_same env s0 rt (set_vm ld s3)); [auto|done].
  - intros [G HS]. split; [done|]. cbn [pr_pages pr_ld]. rewrite length_insert.
    intros Hle. apply (gen_stable _ _ _ G); [by apply HS|]. intros g. destruct E4 as [_ ->]. apply SL.
Qed.

Lemma load_new_page_spec cap va w pr im :
  sim s0 rt pr im -> window_ok data delta ph va w -> va ∉ (pg_vaddr <$> pr_pages pr) ->
  exists r, load_new_page env data cap w flags va pr = Some r /\
    outcome s0 rt cap pr r (touch data delta ph im va).
Proof.
  intros S Hw Hva. destruct pr as [ld pages b]. simpl in Hva. pose proof (sim_kept _ _ _ _ _ S) as K.
  assert (im !! va = None) as Him.
  { destruct (im !! va) eqn:E; [|done]. destruct Hva. eapply (sim_dom _ _ _ _ _ S). congruence. }
  unfold load_new_page, touch. rewrite Him. cbn [touched pr_ld pr_pages pr_brk].
  pose proof (fun s f c Hs => new_copy_spec env Henv data delta ph Hlen s f c va w Hs Hw) as Hcopy.
  destruct w as [[src dst] len]. case_if.
  { eexists. split; [done|]. split; [by left|]. split; [done|]. intros _.
    rewrite map_size_insert_None, (sim_size _ _ _ _ _ S) by done. simpl. lia. }
  pose proof (sim_mode _ _ _ _ _ S) as Hmode. simpl in Hmode, K.
  destruct (new_frame env ld) as [r ld1] eqn:E.
  destruct (new_frame_spec ld r ld1) as [Hu Hr]; [by rewrite Hmode | done |].
  set (n := Z.to_nat (cap - Z.of_nat (length (pages ++ [mkPage va 0 0])))).
  assert (supplied cap (mkProgress _ ld pages b) ->
    generous env (new_frame env) supply /\ supply n ld1 /\ exists f, r = inl f) as HS.
  { intros [G HS]. split; [done|]. eapply (gen_frame _ _ _ G); [|done]. cbn [pr_pages pr_ld] in HS.
    replace (Datatypes.S n) with (Z.to_nat (cap - Z.of_nat (length pages))); [apply HS; lia|].
    subst n. rewrite length_app. simpl. lia. }
  destruct r as [f|code].
  2: { destruct Hr as [-> Hr]. eexists. split; [done|]. split; [by left|]. split; [by rewrite <- Hr|].
    intros (_ & _ & f & ?)%HS. done. }
  destruct (kept_fresh _ _ _ _ _ K Hr) as [K1 Hn0]. pose proof Hr as (_ & (p & Hp & Hl) & _).
  destruct (map_scratch env (ld_vm ld1) f) as [e s2] eqn:E2. case_if.
  { eexists. split; [done|]. split; [by right|]. split.
    - apply map_scratch_err in E2; [|done]. simpl. by rewrite <- E2.
    - intros [G _]%HS. pose proof (gen_map _ _ _ G (ld_vm ld1) self f scratch (Z.lor VSPACE_FLAG_WRITABLE VSPACE_FLAG_USER) _ Hp Hl) as G'.
      unfold map_scratch in E2. by rewrite E2 in G'. }
  subst e. destruct (map_scratch_spec _ _ _ _ _ Hp Hl E2) as [Hs2 O2].
  destruct (Hcopy _ _ _ Hs2) as (s3 & s4 & -> & E4 & Hf5 & O5). cbn [mbind option_bind]. rewrite E4.
  cbn [mbind option_bind]. set (s5 := unmap_scratch env s4) in *.
  pose proof (only_frame_trans _ _ _ _ _ O2 O5) as O. destruct (vspace_map s5 child f va _) as [e6 s6] eqn:E6.
  destruct (sim_install env Henv (new_frame env) supply s0 rt ld pages b im ld1 f va (overlay data delta ph va zeros) flags s5 e6 s6 S Hva Hr)
    as (K6 & SL & G6 & S6); try done; [by rewrite Hu|]. case_if.
  { eexists. split; [done|]. split; [by right|]. split; [done|]. intros [G _]%HS. by specialize (G6 G). }
  destruct (record_page_map env s6 _ _ _) as [e7 s7] eqn:E7'. pose proof (record_same _ _ _ _ _ _ _ _ Hcb E7') as E7. case_if.
  { eexists. split; [done|]. split; [by left|]. simpl. split; [by rewrite <- E7|]. intros [G _]%HS.
    pose proof (gen_record _ _ _ G s6 va f flags) as G'. by rewrite E7' in G'. }
  eexists. split; [done|]. split; [|split; [done|]].
  - apply (sim_same env s0 rt (set_vm ld1 s6)); [auto|done].
  - intros (G & HS' & _)%HS. split; [done|]. cbn [pr_pages pr_ld]. subst n. rewrite length_app in *.
    intros _. apply (gen_stable _ _ _ G); [done|]. intros g. destruct E7 as [_ ->]. apply SL.
Qed.

Lemma load_page_spec cap va pr im :
  sim s0 rt pr im -> va mod 4096 = 0 -> covers delta ph va = true ->
  exists r, load_page env data cap delta (seg_at delta ph) ph va pr = Some r /\
    outcome s0 rt cap pr r (touch data delta ph im va).
Proof.
  intros S Hm Hc. pose proof (copy_window_spec data delta ph va Hok Hlen Hm Hc) as Hw.
  unfold load_page. pose proof (find_page_spec (pr_pages pr) va) as Hf.
  destruct (find_page _ va) as [j|]; [|by apply load_new_page_spec].
  destruct Hf as (e & He & Hva). rewrite He. cbn [mbind option_bind]. by apply load_shared_page_spec.
Qed.

(** ** The pages of a segment *)

(** Not reaching the end of the segment needs no more fuel than there are pages
    left. *)
Lemma load_pages_spec cap n i fuel pr im :
  Z.of_nat (i + n) = seg_pages (seg_at delta ph) (p_memsz ph) -> (n < fuel)%nat -> sim s0 rt pr im ->
  exists r, load_pages env fuel data cap delta (seg_at delta ph) (seg_end delta ph) ph
              (seg_start delta ph + 4096 * Z.of_nat i) pr = Some r /\
    outcome s0 rt cap pr r
      (foldl (touch data delta ph) im ((fun i : nat => seg_start delta ph + 4096 * Z.of_nat i) <$> seq i n)).
Proof.
  pose proof (seg_pages_eq _ _ _ Hok) as [He Hn]. pose proof (seg_bounds _ _ _ Hok) as (Hs & _ & Hb & Hb2 & _).
  pose proof (so_end _ _ _ Hok). revert i fuel pr im. induction n as [|n IH]; intros i fuel pr im Hi Hf S; destruct fuel as [|fuel]; try lia; cbn [load_pages].
  - destruct (Z.ltb_spec (seg_start delta ph + 4096 * Z.of_nat i) (seg_end delta ph)); [lia|].
    eexists. split; [done|]. by split.
  - destruct (Z.ltb_spec (seg_start delta ph + 4096 * Z.of_nat i) (seg_end delta ph)); [|lia].
    set (va := seg_start delta ph + 4096 * Z.of_nat i) in *.
    assert (va mod 4096 = 0) as Hm.
    { subst va. rewrite Z.mul_comm, Z_mod_plus_full. done. }
    assert (covers delta ph va = true) as Hc.
    { unfold covers. apply andb_true_iff. rewrite Z.leb_le, Z.ltb_lt. lia. }
    destruct (load_page_spec cap va pr im S Hm Hc) as (r & -> & Hr). cbn [mbind option_bind seq]. rewrite fmap_cons.
    cbn [foldl]. fold va. pose proof (touch_all_size data delta ph (touch data delta ph im va)) as Hsz.
    destruct r as [pr1|ret].
    + replace (wrap 64 (va + ELF_PAGE_SIZE)) with (seg_start delta ph + 4096 * Z.of_nat (Datatypes.S i))
        by (rewrite wrap_small; unfold ELF_PAGE_SIZE; lia).
      destruct Hr as (S1 & Hr). destruct (IH (Datatypes.S i) fuel pr1 _ ltac:(lia) ltac:(lia) S1) as (r' & -> & Hr').
      eexists. split; [done|]. eapply (outcome_then _ _ _ _ _ _ _ cap pr (inl pr1)); [by split|apply Hsz|done].
    + eexists. split; [done|]. eapply (outcome_then _ _ _ _ _ _ _ cap pr (inr ret)); [done|apply Hsz|done].
Qed.

Lemma load_segment_spec cap pr im :
  is_load ph = true -> seg_pages (seg_at delta ph) (p_memsz ph) <= MAX_PAGES -> sim s0 rt pr im ->
  exists r, load_segment env data cap delta pr ph = Some r /\
    outcome s0 rt cap (mkProgress _ (pr_ld pr) (pr_pages pr) (Z.max (pr_brk pr) (seg_end delta ph))) r
      (touch_seg data delta im ph).
Proof.
  intros Hl Hn S. unfold load_segment. rewrite Hl. cbn [negb].
  fold (seg_at delta ph) (seg_start delta ph) (seg_end delta ph).
  replace (if seg_end delta ph >? pr_brk pr then _ else _) with (Z.max (pr_brk pr) (seg_end delta ph)) by (case_if; lia).
  pose proof (seg_pages_eq _ _ _ Hok) as [_ Hpos].
  destruct (load_pages_spec cap (Z.to_nat (seg_pages (seg_at delta ph) (p_memsz ph))) 0
    (Datatypes.S (Z.to_nat MAX_PAGES)) (mkProgress _ (pr_ld pr) (pr_pages pr) (Z.max (pr_brk pr) (seg_end delta ph))) im)
    as (r & E & Hr); [lia | unfold MAX_PAGES in *; lia | by apply sim_brk |].
  rewrite Z.mul_0_r, Z.add_0_r in E. rewrite E. eauto.
Qed.
End page.
End refine.
