(* ===== verification/ElfCorrect.v ===== *)
(** [elf_load] is correct: on every valid file and every kernel that keeps the
    contract it returns, and what it leaves in the child is the file's image. *)

From stdpp Require Import gmap.
From S2P Require Import Prelude Consts Elf Vm ElfLoad ElfImage VmSim ElfRefine.

Section correct.
Context `{V : Vm} {VOK : VmOk V} (env : LoaderEnv) (Henv : env_ok env).
Context (supply : nat -> Loader -> Prop).

Abbreviation self := (self_vspace env).
Abbreviation child := (child_vspace env).
Abbreviation scratch := (scratch_vaddr env).
Abbreviation kept := (keeps child self scratch).

(** ** The segments *)

Section segments.
Context (data : list Z) (delta : Z) (s0 : vm) (rt : bool).
Context (Hcb : callbacks_ok env rt) (Hscr : scratch_ok env) (Hlen : data_len data < 2 ^ 63).

Definition brk_of (b : Z) (l : list Elf64Phdr) : Z := foldl (fun b ph => Z.max b (seg_end delta ph)) b l.

Lemma seg_image_size_mono im l : (size im <= size (foldl (touch_seg data delta) im l))%nat.
Proof.
  revert im. induction l as [|ph l IH]; intros im; simpl; [lia|].
  etrans; [apply (touch_all_size data delta ph)|]. apply IH.
Qed.

Lemma run_segments_spec cap l pr im :
  Forall (fun ph => is_load ph = true -> seg_ok data delta ph /\ seg_pages (seg_at delta ph) (p_memsz ph) <= MAX_PAGES) l ->
  sim env s0 rt pr im ->
  exists r, run_phdrs (load_segment env data cap delta) l pr = Some r /\
    outcome env (new_frame env) ELF_OUT_OF_MEMORY ELF_MAP_FAILED supply s0 rt cap
      (mkProgress _ (pr_ld pr) (pr_pages pr) (brk_of (pr_brk pr) (List.filter is_load l))) r
      (foldl (touch_seg data delta) im (List.filter is_load l)).
Proof.
  intros Hl. revert pr im. induction Hl as [|ph l Hph _ IH]; intros pr im S; cbn [run_phdrs List.filter].
  { eexists. split; [done|]. by split. }
  destruct (is_load ph) eqn:E.
  2: { assert (load_segment env data cap delta pr ph = Some (inl pr)) as -> by (unfold load_segment; by rewrite E).
    by apply IH. }
  destruct (Hph eq_refl) as [Hok Hn].
  destruct (load_segment_spec env Henv supply data delta ph s0 rt Hcb Hscr Hok Hlen cap pr im E Hn S) as (r & -> & Hr).
  cbn [mbind option_bind foldl]. destruct r as [pr1|ret].
  - destruct Hr as (S1 & B1 & L1). destruct (IH pr1 _ S1) as (r' & -> & Hr'). eexists. split; [done|].
    rewrite B1 in Hr'. cbn [pr_brk] in Hr'. unfold brk_of in *. cbn [foldl].
    destruct r' as [pr2|[code ld]]; cbn [outcome pr_brk] in *; unfold supplied in *; cbn [pr_pages pr_ld] in *; tauto.
  - eexists. split; [done|]. destruct ret as [code ld]. destruct Hr as (? & ? & L). split_and!; [done..|].
    intros Hs%L. pose proof (seg_image_size_mono (touch_seg data delta im ph) (List.filter is_load l)). lia.
Qed.

(** Counting page by page never undercounts. *)
Lemma touch_seg_size im ph :
  Z.of_nat (size (touch_seg data delta im ph)) <=
  Z.of_nat (size im) + Z.of_nat (length (pages_of delta ph)).
Proof.
  unfold touch_seg. revert im. induction (pages_of delta ph) as [|v vs IH]; intros im; simpl; [lia|].
  pose proof (IH (touch data delta ph im v)). unfold touch in *.
  destruct (im !! v) as [x|] eqn:E; [rewrite map_size_insert_Some in H by eauto|rewrite map_size_insert_None in H by done]; lia.
Qed.

Lemma seg_image_size l :
  Forall (seg_ok data delta) l -> Z.of_nat (size (seg_image data delta l)) <= sum_pages delta l.
Proof.
  intros Hl. unfold seg_image, sum_pages.
  assert (forall im n, Z.of_nat (size im) <= n ->
    Z.of_nat (size (foldl (touch_seg data delta) im l)) <=
    foldl (fun n ph => n + seg_pages (seg_at delta ph) (p_memsz ph)) n l) as H; [|by apply H].
  induction Hl as [|ph l Hok _ IH]; intros im n Hn; simpl; [done|]. apply IH.
  pose proof (touch_seg_size im ph). unfold pages_of in H. rewrite length_fmap, length_seq in H.
  pose proof (seg_pages_eq _ _ _ Hok). lia.
Qed.
End segments.

(** ** The relocations *)

Section relocs.
Context (arch : Arch) (data : list Z) (delta load_base : Z) (s0 : vm) (rt : bool).
Context (Hscr : scratch_ok env).

Lemma write_to_page_spec ld pages b im j e off v :
  sim env s0 rt (mkProgress _ ld pages b) im -> pages !! j = Some e -> 0 <= off <= 4088 ->
  exists s', write_to_page env (ld_vm ld) (pg_frame_cap e) off v = Some (0, s') /\
    sim env s0 rt (mkProgress _ (set_vm ld s') pages b)
      (alter (fun '(c, fl) => (put64 c (Z.to_nat off) v, fl)) (pg_vaddr e) im).
Proof.
  intros S Hj Hoff. assert (e ∈ pages) as He by by eapply list_elem_of_lookup_2.
  destruct (sim_page _ _ _ _ _ S e He) as (c & Him & Hl & Hmap & Hf). simpl in Hmap, Hf.
  unfold write_to_page. pose proof (Hscr _ _ _ Hf Hl) as E0.
  destruct (map_scratch env (ld_vm ld) _) as [err s1] eqn:E. simpl in E0. subst err. cbn [negb Z.eqb].
  destruct (map_scratch_spec _ _ _ _ _ Hf Hl E) as [Hs1 O1].
  destruct (store64_spec env Henv s1 (pg_frame_cap e) c off v Hs1 Hoff) as (s2 & -> & Hs2 & O2).
  destruct (unmap_scratch_spec _ _ _ _ Hs2) as [Hf3 O3]. cbn [mbind option_bind]. eexists. split; [done|].
  erewrite alter_Some by done. eapply sim_refill; try done; [by destruct Hs2 as (_ & _ & ?)|].
  eauto using only_frame_trans.
Qed.

(** Relocation does not change which pages there are. *)
Lemma write64_dom im a v va : (write64 im a v !! va = None) <-> im !! va = None.
Proof. unfold write64. rewrite lookup_alter_None. done. Qed.

Lemma targets_ok_write64 rs im a v :
  targets_ok (R_RELATIVE arch) delta (write64 im a v) rs = targets_ok (R_RELATIVE arch) delta im rs.
Proof.
  unfold targets_ok. induction rs as [|r rs IH]; simpl; [done|]. rewrite IH. do 3 f_equal.
  pose proof (write64_dom im a v (page_align_down (target delta r))).
  destruct (write64 im a v !! _), (im !! _); naive_solver.
Qed.

(** The loop carries out the plan. *)
Lemma apply_relas_spec off ent n i rs ld pages b im :
  0 <= off -> SIZEOF_RELA <= ent -> data_len data < 2 ^ 63 ->
  mapM (fun i : nat => read_rela data (off + Z.of_nat i * ent)) (seq i n) = Some rs ->
  targets_ok (R_RELATIVE arch) delta im rs = true -> sim env s0 rt (mkProgress _ ld pages b) im ->
  exists s', apply_relas env n (Z.of_nat i) data (R_RELATIVE arch) delta load_base off ent pages (ld_vm ld) = Some (0, s') /\
    sim env s0 rt (mkProgress _ (set_vm ld s') pages b) (reloc_image (R_RELATIVE arch) delta load_base im rs).
Proof.
  intros Hoff Hent Hlen. revert i rs ld im. induction n as [|n IH]; intros i rs ld im Hrs Ht S.
  { injection Hrs as <-. exists (ld_vm ld). split; [done|]. by destruct ld. }
  cbn [seq mapM] in Hrs. destruct (read_rela data _) as [r|] eqn:Er; [|done].
  destruct (mapM _ (seq _ n)) as [rs'|] eqn:Ers; [|done]. injection Hrs as <-.
  cbn [apply_relas]. apply view_at_Some in Er as Hr. destruct Hr as (Hr0 & Hr1 & _). unfold SIZEOF_RELA in *.
  rewrite (wrap_small 64 (Z.of_nat i * ent)), (wrap_small 64 (off + _)), (wrap_small 64 (_ + 24)) by nia.
  case_if; [lia|]. rewrite Er. cbn [mbind option_bind].
  replace (Z.of_nat i + 1) with (Z.of_nat (Datatypes.S i)) by lia.
  simpl in Ht. apply andb_true_iff in Ht as [Ht1 Ht]. unfold reloc_image. cbn [foldl]. unfold reloc_step at 2.
  unfold is_relative in *. destruct (Z.land (r_info r) 4294967295 =? R_RELATIVE arch); [|by apply IH].
  fold (target delta r). simpl in Ht1. apply andb_true_iff in Ht1 as [Ho Hp].
  set (pg := page_align_down (target delta r)) in *. pose proof (find_page_spec pages pg) as Hf.
  destruct (find_page pages pg) as [j|].
  2: { destruct (im !! pg) eqn:Ei; [|done]. destruct Hf. eapply (sim_dom _ _ _ _ _ S). congruence. }
  destruct Hf as (e & Hj & He). cbn [mbind option_bind]. rewrite Hj. cbn [mbind option_bind].
  pose proof (page_align_down_spec (target delta r) ltac:(apply wrap_range; lia)).
  destruct (write_to_page_spec ld pages b im j e (target delta r - pg) (load_base + as_u64 (r_addend r))%u64 S Hj)
    as (s1 & -> & S1); [bprop; subst pg; lia|]. cbn [mbind option_bind negb Z.eqb]. rewrite He in S1.
  destruct (IH (Datatypes.S i) rs' (set_vm ld s1)
    (write64 im (target delta r) (load_base + as_u64 (r_addend r))%u64) Ers) as (s2 & E2 & S2); [|apply S1|].
  { by rewrite targets_ok_write64. }
  exists s2. split; [exact E2|]. exact S2.
Qed.

Lemma list_find_map_Some {R} (f : Elf64Phdr -> option R) l r :
  list_find_map f l = Some r -> exists ph, f ph = Some r.
Proof. induction l as [|ph l IH]; simpl; [done|]. destruct (f ph) eqn:E; [|done]. intros [= ->]. eauto. Qed.

Lemma vaddr_to_file_offset_range eh va off :
  file_ok data eh -> vaddr_to_file_offset data eh va = Some (Some off) -> 0 <= off.
Proof.
  intros Hok. unfold vaddr_to_file_offset. rewrite (find_phdr_run data eh Hok). simpl.
  intros [= E]. destruct (list_find_map _ _) as [o|] eqn:El; [|done]. apply list_find_map_Some in El as [ph Hph].
  do 3 (case_if; [done|]). injection Hph as <-. case_if; [done|]. injection E as <-. apply wrap_range. lia.
Qed.

Lemma apply_relocations_spec eh rs ld pages b im :
  file_ok data eh -> reloc_plan data eh = Some rs ->
  targets_ok (R_RELATIVE arch) delta im rs = true -> sim env s0 rt (mkProgress _ ld pages b) im ->
  exists s', apply_relocations env (R_RELATIVE arch) data delta load_base pages (ld_vm ld) = Some (0, s') /\
    sim env s0 rt (mkProgress _ (set_vm ld s') pages b) (reloc_image (R_RELATIVE arch) delta load_base im rs).
Proof.
  intros Hok Hrs Ht S. unfold apply_relocations, reloc_plan in *. rewrite (fok_ehdr _ _ Hok). cbn [mbind option_bind].
  assert (exists s', Some (0, ld_vm ld) = Some (0, s') /\ sim env s0 rt (mkProgress _ (set_vm ld s') pages b)
    (reloc_image (R_RELATIVE arch) delta load_base im [])) as Hnone by (exists (ld_vm ld); by destruct ld).
  destruct (find_phdr data eh _) as [dyn|]; [|done]. cbn [mbind option_bind] in *.
  destruct (default (0, 0) dyn) as [doff dsz]. case_if; [by injection Hrs as <-|].
  destruct (scan_dynamic _ _ _ _ _) as [ri|]; [|done]. cbn [mbind option_bind] in *.
  destruct ((rela_vaddr ri =? 0) || _ || _); [by injection Hrs as <-|]. case_if; [done|].
  destruct (vaddr_to_file_offset data eh _) as [[off|]|] eqn:Eo; try done. cbn [mbind option_bind] in *.
  apply (apply_relas_spec off (rela_ent ri) _ 0 rs); try done; [by eapply vaddr_to_file_offset_range|apply Hok].
Qed.
End relocs.

(** ** The whole function *)

Lemma foldl_filter {A B} (p : B -> bool) (f : A -> B -> A) a l :
  foldl (fun a x => if p x then f a x else a) a l = foldl f a (List.filter p l).
Proof. revert a. induction l as [|x l IH]; intros a; simpl; [done|]. destruct (p x); simpl; apply IH. Qed.

Lemma find_min_vaddr_eq data eh :
  file_ok data eh ->
  find_min_vaddr data eh = Some (min_vaddr (loads data eh), negb (bool_decide (loads data eh = []))).
Proof.
  intros Hok. unfold find_min_vaddr, min_vaddr, loads. rewrite (fold_phdrs_run data eh Hok). f_equal.
  assert (forall l m h, foldl (fun '(min_vaddr, has_load) ph =>
      if is_load ph then (if p_vaddr ph <? min_vaddr then p_vaddr ph else min_vaddr, true) else (min_vaddr, has_load)) (m, h) l =
    (foldl (fun m ph => if p_vaddr ph <? m then p_vaddr ph else m) m (List.filter is_load l),
     h || negb (bool_decide (List.filter is_load l = [])))) as H; [|by rewrite H].
  induction l as [|ph l IH]; intros m h; simpl; [by rewrite orb_false_r|].
  destruct (is_load ph); simpl; rewrite IH; [|done]. f_equal. simpl. by rewrite orb_true_r.
Qed.

Lemma sum_pages_mono data delta l n :
  Forall (seg_ok data delta) l -> n <= foldl (fun n ph => n + seg_pages (seg_at delta ph) (p_memsz ph)) n l.
Proof.
  intros Hl. revert n. induction Hl as [|ph l Hok _ IH]; intros n; simpl; [lia|].
  pose proof (seg_pages_eq _ _ _ Hok). specialize (IH (n + seg_pages (seg_at delta ph) (p_memsz ph))). lia.
Qed.

Lemma page_capacity_fold data delta l n :
  Forall (seg_ok data delta) (List.filter is_load l) -> 0 <= n ->
  foldl (fun n ph => n + seg_pages (seg_at delta ph) (p_memsz ph)) n (List.filter is_load l) <= MAX_PAGES ->
  foldl (fun cap ph => if negb (is_load ph) then cap
    else (cap + seg_pages (p_vaddr ph + delta)%u64 (p_memsz ph))%u64) n l =
  foldl (fun n ph => n + seg_pages (seg_at delta ph) (p_memsz ph)) n (List.filter is_load l).
Proof.
  revert n. induction l as [|ph l IH]; intros n Hl Hn Hsum; [done|].
  cbn [foldl List.filter] in *. destruct (is_load ph); cbn [negb]; [|by apply IH].
  apply Forall_cons in Hl as [Hph Hl]. pose proof (seg_pages_eq _ _ _ Hph). cbn [foldl] in *. fold (seg_at delta ph).
  pose proof (sum_pages_mono _ _ _ (n + seg_pages (seg_at delta ph) (p_memsz ph)) Hl).
  rewrite wrap_small by (unfold MAX_PAGES in *; lia). apply IH; [done|lia|done].
Qed.

Lemma page_capacity_eq data eh delta :
  file_ok data eh -> Forall (seg_ok data delta) (loads data eh) -> sum_pages delta (loads data eh) <= MAX_PAGES ->
  page_capacity data eh delta = Some (sum_pages delta (loads data eh)).
Proof.
  intros Hok Hl Hsum. unfold page_capacity. rewrite (fold_phdrs_run data eh Hok). f_equal.
  by apply (page_capacity_fold data).
Qed.

Lemma seg_pages_le data delta l ph n :
  Forall (seg_ok data delta) l -> ph ∈ l -> 0 <= n ->
  seg_pages (seg_at delta ph) (p_memsz ph) <= foldl (fun n ph => n + seg_pages (seg_at delta ph) (p_memsz ph)) n l.
Proof.
  intros Hl Hin. revert n. induction Hl as [|q l Hq Hl IH]; intros n Hn; [by apply not_elem_of_nil in Hin|]. simpl.
  pose proof (seg_pages_eq _ _ _ Hq). apply elem_of_cons in Hin as [->|Hin].
  - pose proof (sum_pages_mono _ _ _ (n + seg_pages (seg_at delta q) (p_memsz q)) Hl). lia.
  - apply IH; [done|lia].
Qed.

(** How [elf_load] may end on a valid file. *)
Definition load_outcome (arch : Arch) (data : list Z) (load_base : Z) (ld : Loader)
    (code : Z) (out : option ElfLoadResult) (ld' : Loader) : Prop :=
  kept (ld_vm ld) (ld_vm ld') /\
  ((exists im res, elf_image arch data load_base = Some (im, res) /\ code = ELF_OK /\ out = Some res /\
      holds env (ld_vm ld) (ld_vm ld') im) \/
   ((code = ELF_OUT_OF_MEMORY \/ code = ELF_MAP_FAILED) /\ out = None)).

(** The frames a file needs: one per page, shared pages counted more than once. *)
Definition frames_needed (data : list Z) (load_base : Z) : nat :=
  match read_ehdr data with
  | Some eh => Z.to_nat (sum_pages (elf_delta eh (loads data eh) load_base) (loads data eh))
  | None => 0
  end.

Lemma elf_load_spec arch data load_base ld :
  valid_elf arch data load_base -> callbacks_ok env (ld_untyped ld =? 0) -> scratch_ok env ->
  exists code out ld', elf_load env arch data load_base ld = Some (code, out, ld') /\
    load_outcome arch data load_base ld code out ld' /\
    (generous env (new_frame env) supply -> supply (frames_needed data load_base) ld -> code = ELF_OK).
Proof.
  intros (eh & Hok & Hck & Hne & Hsegs & Hsum & Hrel) Hcb Hscr.
  set (l := loads data eh) in *. set (delta := elf_delta eh l load_base) in *.
  pose proof (fok_ehdr _ _ Hok) as Heh. apply view_at_Some in Heh as Hsz. destruct Hsz as (_ & Hsz & _).
  unfold elf_load. destruct (Z.ltb_spec (data_len data) SIZEOF_EHDR); [lia|].
  rewrite Heh. cbn [mbind option_bind]. rewrite Hck. cbn [negb Z.eqb ELF_OK].
  rewrite find_min_vaddr_eq by done. fold l. cbn [mbind option_bind]. rewrite bool_decide_false by done. cbn [negb].
  fold (elf_delta eh l load_base). fold delta. rewrite page_capacity_eq by (done || apply Hsum). fold l. cbn [mbind option_bind].
  set (cap := sum_pages delta l) in *. do 2 (case_if; [lia|]).
  rewrite (for_phdrs_run data eh Hok).
  destruct (run_segments_spec data delta (ld_vm ld) (ld_untyped ld =? 0) Hcb Hscr (fok_len _ _ Hok) cap
    (phdrs data eh) (mkProgress _ ld [] 0) ∅) as (r & -> & Hr); [|by apply sim_init|].
  { apply Forall_forall. intros ph Hph Hl.
    assert (ph ∈ l) as Hin by (apply list_elem_of_In, filter_In; split; [by apply list_elem_of_In|done]).
    split; [by eapply Forall_forall in Hsegs|]. etrans; [|apply Hsum]. by eapply seg_pages_le; [|done|]. }
  fold (loads data eh) in Hr. fold l in Hr. fold (seg_image data delta l) in Hr. cbn [mbind option_bind pr_brk pr_ld pr_pages] in *.
  assert (generous env (new_frame env) supply -> supply (frames_needed data load_base) ld ->
    supplied env (new_frame env) supply cap (mkProgress _ ld [] (brk_of delta 0 l))) as Hsup.
  { intros G HS. split; [done|]. unfold frames_needed in HS. rewrite Heh in HS. cbn. intros _. by rewrite Z.sub_0_r. }
  destruct r as [[ld1 pages b]|[code ld1]].
  2: { destruct Hr as (Hcode & K & L). exists code, None, ld1. split; [done|]. split; [split; [done|by right]|].
    intros G HS. pose proof (seg_image_size data delta l Hsegs). specialize (L (Hsup G HS)). lia. }
  destruct Hr as (S & Hb & _). cbn [pr_brk pr_ld pr_pages] in *.
  destruct (decide (e_type eh = ET_DYN)) as [Hd|Hd].
  - destruct (Hrel Hd) as (rs & Hrs & Ht). rewrite Hd. cbn [Z.eqb ET_DYN Pos.eqb].
    destruct (apply_relocations_spec arch data delta load_base _ _ Hscr eh rs ld1 pages b _ Hok Hrs Ht S) as (s' & -> & S').
    cbn [mbind option_bind negb Z.eqb]. eexists _, _, _. split; [done|]. split; [|done].
    split; [by apply (sim_kept _ _ _ _ _ S')|]. left. unfold elf_image. rewrite Heh.
    cbn [mbind option_bind]. fold l delta. rewrite Hd, Hrs. cbn. eexists _, _. split; [done|]. subst b. split_and!; [done..|]. by apply (sim_holds _ _ _ _ _ S').
  - destruct (Z.eqb_spec (e_type eh) ET_DYN); [done|]. cbn [mbind option_bind negb Z.eqb].
    eexists _, _, _. split; [done|]. split; [|done]. split; [by apply (sim_kept _ _ _ _ _ S)|].
    left. unfold elf_image. rewrite Heh. cbn [mbind option_bind]. fold l delta.
    destruct (Z.eqb_spec (e_type eh) ET_DYN); [done|]. cbn. eexists _, _. split; [done|]. subst b. split_and!; [done..|]. by apply (sim_holds _ _ _ _ _ S).
Qed.
End correct.
