(* ===== verification/ElfDynamic.v ===== *)
(** Inspecting ELF files for dynamic linking ([src/loader/elf_dynamic.rs]):
    library paths in the initrd, the runtime linker a file asks for, the shared
    libraries it needs, and where its program headers end up in memory. *)

From S2P Require Import Prelude Consts Elf.

(** ** Paths *)

Definition INITRD_LIB_PREFIX : list Z := [108; 105; 98; 47].  (* "lib/" *)
Definition DEFAULT_RTLD_SONAME : list Z := [108; 100; 45; 116; 114; 111; 110; 97; 46; 115; 111]. (* "ld-trona.so" *)
Definition SLASH : Z := 47.

(** [dst[..src.len()].copy_from_slice(src)] for a [src] that fits. *)
Definition copy_from_slice (dst src : list Z) : list Z := src ++ drop (length src) dst.

(** The number of bytes written and the buffer. *)
Definition build_initrd_lib_path (soname dst : list Z) : nat * list Z :=
  let total := (length INITRD_LIB_PREFIX + length soname)%nat in
  if (length dst <? total)%nat then (0%nat, dst)
  else (total, copy_from_slice dst (INITRD_LIB_PREFIX ++ soname)).

Definition resolve_interp_to_cpio_path (interp dst : list Z) : nat * list Z :=
  match interp with
  | [] => build_initrd_lib_path DEFAULT_RTLD_SONAME dst
  | c :: stripped =>
      if c =? SLASH then
        if (length dst <? length stripped)%nat then (0%nat, dst)
        else (length stripped, copy_from_slice dst stripped)
      else if existsb (Z.eqb SLASH) interp then
        if (length dst <? length interp)%nat then (0%nat, dst)
        else (length interp, copy_from_slice dst interp)
      else build_initrd_lib_path interp dst
  end.

(** ** The list of needed libraries *)

Definition MAX_NEEDED_LIBS : nat := 12.
Definition MAX_NEEDED_NAME : nat := 24.

Record NeededLibs := mkNeeded { nl_count : nat; nl_names : list (list Z); nl_lens : list nat }.

Definition NeededLibs_new : NeededLibs :=
  mkNeeded 0 (replicate MAX_NEEDED_LIBS (replicate MAX_NEEDED_NAME 0)) (replicate MAX_NEEDED_LIBS 0%nat).

(** The copy of a name into the next entry. *)
Definition push_name (libs : NeededLibs) (name : list Z) : NeededLibs :=
  let copy_len := if (MAX_NEEDED_NAME <? length name)%nat then MAX_NEEDED_NAME else length name in
  let idx := nl_count libs in
  mkNeeded (idx + 1)
    (alter (fun row => copy_from_slice row (take copy_len name)) idx (nl_names libs))
    (<[idx := copy_len]> (nl_lens libs)).

Definition NeededLibs_add (libs : NeededLibs) (name : list Z) : bool * NeededLibs :=
  if (MAX_NEEDED_LIBS <=? nl_count libs)%nat then (false, libs) else (true, push_name libs name).

(** [for j in 0..name.len() { if names[i][j] != name[j] ... }]; [None] if the
    row is indexed out of range. *)
Fixpoint eq_prefix (row name : list Z) : option bool :=
  match name, row with
  | [], _ => Some true
  | b :: name', a :: row' => if negb (a =? b) then Some false else eq_prefix row' name'
  | _ :: _, [] => None
  end.

Fixpoint contains_from (n i : nat) (libs : NeededLibs) (name : list Z) : option bool :=
  match n with
  | O => Some false
  | S n' =>
      len ← nl_lens libs !! i;
      if (len =? length name)%nat then
        row ← nl_names libs !! i;
        eq ← eq_prefix row name;
        if (eq : bool) then Some true else contains_from n' (S i) libs name
      else contains_from n' (S i) libs name
  end.

Definition NeededLibs_contains (libs : NeededLibs) (name : list Z) : option bool :=
  contains_from (nl_count libs) 0 libs name.

(** ** Inspection of a file *)

Section file.
Context (data : list Z).

Definition elf_has_interp : option bool :=
  if data_len data <? SIZEOF_EHDR then Some false else
  eh ← read_ehdr data;
  r ← find_phdr data eh (fun ph => if p_type ph =? PT_INTERP then Some tt else None);
  Some (match r with Some _ => true | None => false end).

(** The inner option: the offset of the string in the file, or null. *)
Definition elf_get_interp : option (option Z) :=
  if data_len data <? SIZEOF_EHDR then Some None else
  eh ← read_ehdr data;
  r ← find_phdr data eh (fun ph =>
        if p_type ph =? PT_INTERP then
          Some (if (p_offset ph + p_filesz ph)%u64 >? data_len data then None else Some (p_offset ph))
        else None);
  Some (match r with Some p => p | None => None end).

Definition elf_va_to_file_offset (eh : Elf64Ehdr) (va : Z) : option (option Z) :=
  find_phdr data eh (fun ph =>
    if is_load ph then
      if (va >=? p_vaddr ph) && (va <? (p_vaddr ph + p_filesz ph)%u64) then
        let offset := ((va - p_vaddr ph)%u64 + p_offset ph)%u64 in
        if offset <? data_len data then Some offset else None
      else None
    else None).

(** A pass over the dynamic section: stops at [DT_NULL] and when the body says so. *)
Fixpoint dyn_loop {S} (n : nat) (pos : Z) (body : S -> Elf64Dyn -> option (S * bool)) (s : S) : option S :=
  match n with
  | O => Some s
  | Datatypes.S n' =>
      d ← read_dyn data pos;
      if d_tag d =? DT_NULL then Some s
      else
        r ← body s d;
        let '(s', stop) := r in
        if (stop : bool) then Some s' else dyn_loop n' (pos + SIZEOF_DYN)%u64 body s'
  end.

(** [while name_off + len < elf_size && *name_ptr.add(len) != 0 { len += 1 }]. *)
Fixpoint name_len (fuel : nat) (off : Z) (len : Z) : option Z :=
  match fuel with
  | O => None
  | S fuel' =>
      if (off + len)%u64 <? data_len data then
        b ← read_byte data (off + len)%u64;
        if b =? 0 then Some len else name_len fuel' off (len + 1)
      else Some len
  end.

Definition read_name (off len : Z) : option (list Z) :=
  mapM (fun j : nat => read_byte data (off + Z.of_nat j)%u64) (seq 0 (Z.to_nat len)).

(** One [DT_NEEDED] entry. *)
Definition take_needed (strtab_file_off : Z) (libs : NeededLibs) (d : Elf64Dyn) : option (NeededLibs * bool) :=
  if negb (d_tag d =? DT_NEEDED) then Some (libs, false)
  else
    let name_off := (strtab_file_off + d_val d)%u64 in
    if name_off >=? data_len data then Some (libs, false)
    else
      len ← name_len (S (length data)) name_off 0;
      if (len >? 0) && (nl_count libs <? MAX_NEEDED_LIBS)%nat then
        name ← read_name name_off (Z.min len (Z.of_nat MAX_NEEDED_NAME));
        Some (push_name libs name, false)
      else Some (libs, false).

Definition elf_get_needed : option NeededLibs :=
  if data_len data <? SIZEOF_EHDR then Some NeededLibs_new else
  eh ← read_ehdr data;
  dyn ← find_phdr data eh (fun ph =>
          if p_type ph =? PT_DYNAMIC then Some (p_offset ph, p_filesz ph) else None);
  let '(dyn_offset, dyn_size) := default (0, 0) dyn in
  if (dyn_offset =? 0) || ((dyn_offset + dyn_size)%u64 >? data_len data) then Some NeededLibs_new
  else
    let dyn_count := Z.to_nat (dyn_size `div` SIZEOF_DYN) in
    strtab_va ← dyn_loop dyn_count dyn_offset
      (fun va d => Some (if d_tag d =? DT_STRTAB then (d_val d, true) else (va, false))) 0;
    if strtab_va =? 0 then Some NeededLibs_new
    else
      off ← elf_va_to_file_offset eh strtab_va;
      match off with
      | None => Some NeededLibs_new
      | Some off => dyn_loop dyn_count dyn_offset (take_needed off) NeededLibs_new
      end.

(** ** The program header table in memory *)


Record PhdrScan := mkScan { ps_min : Z; ps_phdr : option Z; ps_mapped : option Z }.

(** The table is read through its own pointer, [base] bytes into the file.  The
    outer [None] is a fault, the inner one the code's. *)
Fixpoint phdr_scan (n i : nat) (base phentsz phdr_bytes_len e_phoff phdr_file_end : Z) (s : PhdrScan)
    : option (option PhdrScan) :=
  match n with
  | O => Some (Some s)
  | S n' =>
      match checked_mul (Z.of_nat i) phentsz with
      | None => Some None
      | Some off =>
          if (off + SIZEOF_PHDR)%u64 >? phdr_bytes_len then Some (Some s)
          else
            ph ← read_phdr data (base + off)%u64;
            let next := phdr_scan n' (S i) base phentsz phdr_bytes_len e_phoff phdr_file_end in
            if is_load ph then
              let m := if p_vaddr ph <? ps_min s then p_vaddr ph else ps_min s in
              match checked_add (p_offset ph) (p_filesz ph) with
              | None => Some None
              | Some seg_file_end =>
                  next (mkScan m (ps_phdr s)
                    (if (e_phoff >=? p_offset ph) && (phdr_file_end <=? seg_file_end)
                     then Some (p_vaddr ph + (e_phoff - p_offset ph)%u64)%u64 else ps_mapped s))
              end
            else if p_type ph =? PT_PHDR then next (mkScan (ps_min s) (Some (p_vaddr ph)) (ps_mapped s))
            else next s
      end
  end.

Definition elf_compute_phdr_elf_vaddr (base phnum phentsz phdr_bytes_len e_phoff : Z)
    : option (option (Z * Z)) :=
  match checked_mul phnum phentsz with
  | None => Some None
  | Some size =>
      match checked_add e_phoff size with
      | None => Some None
      | Some phdr_file_end =>
          r ← phdr_scan (Z.to_nat phnum) 0 base phentsz phdr_bytes_len e_phoff phdr_file_end
                (mkScan U64_MAX None None);
          Some (s ← r;
                if ps_min s =? U64_MAX then None
                else
                  v ← (match ps_phdr s with Some v => Some v | None => ps_mapped s end);
                  Some (v, ps_min s))
      end
  end.

Definition elf_get_phdr_load_offset (base phnum phentsz phdr_bytes_len e_phoff : Z) : option (option Z) :=
  r ← elf_compute_phdr_elf_vaddr base phnum phentsz phdr_bytes_len e_phoff;
  Some (match r with Some (v, m) => Some (v - m)%u64 | None => None end).

(** [Some (phdr_vaddr, phent, phnum)], or [None] for [-1]. *)
Definition elf_get_phdr_info (load_base : Z) : option (option (Z * Z * Z)) :=
  if data_len data <? SIZEOF_EHDR then Some None else
  eh ← read_ehdr data;
  match checked_mul (e_phnum eh) (e_phentsize eh) with
  | None => Some None
  | Some phdr_bytes_len =>
      if (phdr_bytes_len =? 0) || ((e_phoff eh + phdr_bytes_len)%u64 >? data_len data) then Some None
      else
        r ← elf_get_phdr_load_offset (e_phoff eh) (e_phnum eh) (e_phentsize eh) phdr_bytes_len (e_phoff eh);
        Some (match r with
              | None => None
              | Some load_off => Some ((load_base + load_off)%u64, e_phentsize eh, e_phnum eh)
              end)
  end.

Record ElfLibInfo := mkLibInfo { li_min_vaddr : Z; li_span : Z; li_phnum : Z }.

Definition elf_compute_lib_info : option (option ElfLibInfo) :=
  if data_len data <? SIZEOF_EHDR then Some None else
  eh ← read_ehdr data;
  if negb (has_magic eh) then Some None else
  if negb (e_type eh =? ET_DYN) then Some None else
  r ← fold_phdrs data eh (fun '(min_vaddr, max_seg_end) ph =>
        if is_load ph then
          let se := Z.land ((p_vaddr ph + p_memsz ph)%u64 + 0xFFF)%u64 (bnot 64 0xFFF) in
          (if p_vaddr ph <? min_vaddr then p_vaddr ph else min_vaddr,
           if se >? max_seg_end then se else max_seg_end)
        else (min_vaddr, max_seg_end)) (U64_MAX, 0);
  let '(min_vaddr, max_seg_end) := r in
  if min_vaddr =? U64_MAX then Some None
  else Some (Some (mkLibInfo min_vaddr (max_seg_end - Z.land min_vaddr (bnot 64 0xFFF))%u64 (e_phnum eh))).
End file.

(** ** The list of needed libraries, as a list *)

Definition names_of (libs : NeededLibs) : list (list Z) :=
  zip_with take (take (nl_count libs) (nl_lens libs)) (nl_names libs).

Record needed_wf (libs : NeededLibs) : Prop := {
  nw_count : (nl_count libs <= MAX_NEEDED_LIBS)%nat;
  nw_names : length (nl_names libs) = MAX_NEEDED_LIBS;
  nw_rows : Forall (fun row => length row = MAX_NEEDED_NAME) (nl_names libs);
  nw_lens : length (nl_lens libs) = MAX_NEEDED_LIBS;
  nw_small : Forall (fun n => n <= MAX_NEEDED_NAME)%nat (nl_lens libs);
}.

Lemma needed_new_wf : needed_wf NeededLibs_new.
Proof.
  split; [apply Nat.le_0_l | done | | done |].
  - by apply Forall_replicate.
  - apply Forall_replicate, Nat.le_0_l.
Qed.

Lemma length_copy_from_slice (dst src : list Z) : (length src <= length dst)%nat -> length (copy_from_slice dst src) = length dst.
Proof. intros. unfold copy_from_slice. rewrite length_app, length_drop. lia. Qed.

Lemma push_name_len (name : list Z) :
  (if (MAX_NEEDED_NAME <? length name)%nat then MAX_NEEDED_NAME else length name) = length (take MAX_NEEDED_NAME name).
Proof. rewrite length_take. destruct (Nat.ltb_spec MAX_NEEDED_NAME (length name)); lia. Qed.

Lemma take_length_take (l : list Z) n : take (length (take n l)) l = take n l.
Proof.
  rewrite length_take. destruct (decide (n <= length l)%nat); [f_equal; lia|]. rewrite !take_ge; [done|lia..].
Qed.

(** Only the first [MAX_NEEDED_NAME] bytes of a name are kept. *)
Lemma push_name_take libs name : push_name libs (take MAX_NEEDED_NAME name) = push_name libs name.
Proof.
  unfold push_name. rewrite !push_name_len, !take_length_take. by rewrite !take_take, !Nat.min_id.
Qed.

Lemma push_name_wf libs name :
  needed_wf libs -> (nl_count libs < MAX_NEEDED_LIBS)%nat -> needed_wf (push_name libs name).
Proof.
  intros [Hc Hn Hr Hl Hs] Hlt. unfold push_name. rewrite push_name_len. set (n := length (take MAX_NEEDED_NAME name)).
  assert (n <= MAX_NEEDED_NAME)%nat by (subst n; rewrite length_take; lia).
  split; simpl; [lia | by rewrite length_alter | | by rewrite length_insert | by apply Forall_insert].
  apply Forall_alter; [done|]. intros row _ Hrow. rewrite length_copy_from_slice; [done|]. rewrite length_take. lia.
Qed.

Lemma names_of_push libs name :
  needed_wf libs -> (nl_count libs < MAX_NEEDED_LIBS)%nat ->
  names_of (push_name libs name) = names_of libs ++ [take MAX_NEEDED_NAME name].
Proof.
  intros [Hc Hn Hr Hl Hs] Hlt. apply list_eq. intros i. unfold names_of, push_name. rewrite push_name_len. simpl.
  set (n := length (take MAX_NEEDED_NAME name)).
  rewrite lookup_zip_with, list_lookup_alter.
  assert (length (zip_with take (take (nl_count libs) (nl_lens libs)) (nl_names libs)) = nl_count libs) as Hz.
  { rewrite length_zip_with, length_take. lia. }
  destruct (decide (i < nl_count libs)%nat) as [Hi|Hi].
  - rewrite lookup_app_l by lia. rewrite lookup_zip_with, !lookup_take_lt by lia.
    rewrite list_lookup_insert_ne by lia. rewrite decide_False by lia. done.
  - rewrite lookup_app_r by lia. rewrite Hz. destruct (decide (i = nl_count libs)) as [->|Hne].
    + rewrite lookup_take_lt, list_lookup_insert_eq, decide_True by lia. rewrite Nat.sub_diag. simpl.
      destruct (lookup_lt_is_Some_2 (nl_names libs) (nl_count libs)) as [row Hrow]; [lia|]. rewrite Hrow. simpl. f_equal.
      subst n. unfold copy_from_slice. by rewrite take_length_take, take_app_length.
    + rewrite lookup_take_ge by lia. simpl. symmetry. apply lookup_ge_None. simpl. lia.
Qed.

Lemma eq_prefix_spec row name :
  (length name <= length row)%nat -> eq_prefix row name = Some (bool_decide (take (length name) row = name)).
Proof.
  revert row. induction name as [|b name IH]; intros [|a row] Hl; simpl in *; try done; try lia.
  destruct (Z.eqb_spec a b) as [->|Hne]; simpl.
  - rewrite IH by lia. f_equal. apply bool_decide_ext. split; [congruence|by intros [= ?]].
  - f_equal. symmetry. apply bool_decide_eq_false. by intros [= ? ?].
Qed.

Lemma contains_from_spec libs name n i :
  needed_wf libs -> (i + n = nl_count libs)%nat ->
  contains_from n i libs name = Some (bool_decide (name ∈ drop i (names_of libs))).
Proof.
  intros W. pose proof W as [Hc Hn Hr Hl Hs].
  assert (length (names_of libs) = nl_count libs) as Hz.
  { unfold names_of. rewrite length_zip_with, length_take. lia. }
  revert i. induction n as [|n IH]; intros i Hi; simpl.
  { rewrite drop_ge by lia. done. }
  destruct (lookup_lt_is_Some_2 (nl_lens libs) i) as [len Hlen]; [lia|].
  destruct (lookup_lt_is_Some_2 (nl_names libs) i) as [row Hrow]; [lia|]. rewrite Hlen, Hrow. simpl.
  assert (names_of libs !! i = Some (take len row)) as Hi'.
  { unfold names_of. rewrite lookup_zip_with, lookup_take_lt, Hlen by lia. simpl. by rewrite Hrow. }
  rewrite (drop_S _ _ _ Hi').
  pose proof (Forall_lookup_1 _ _ _ _ Hr Hrow) as Hlr. pose proof (Forall_lookup_1 _ _ _ _ Hs Hlen) as Hls. simpl in Hlr, Hls.
  destruct (Nat.eqb_spec len (length name)) as [->|Hne].
  - rewrite eq_prefix_spec by lia. simpl. case_bool_decide as Ht.
    + rewrite Ht. f_equal. symmetry. apply bool_decide_eq_true. left.
    + rewrite IH by lia. f_equal. apply bool_decide_ext. set_solver.
  - rewrite IH by lia. f_equal. apply bool_decide_ext.
    assert (name <> take len row) by (intros ->; apply Hne; rewrite length_take; lia). set_solver.
Qed.

Lemma needed_fold names libs :
  needed_wf libs ->
  let libs' := foldl (fun l n => (NeededLibs_add l n).2) libs names in
  needed_wf libs' /\ names_of libs' = take MAX_NEEDED_LIBS (names_of libs ++ (take MAX_NEEDED_NAME <$> names)).
Proof.
  intros W. revert libs W. induction names as [|nm names IH]; intros libs W; simpl.
  all: assert (length (names_of libs) = nl_count libs) as Hz
    by (destruct W; unfold names_of; rewrite length_zip_with, length_take; lia).
  { split; [done|]. rewrite app_nil_r, take_ge; [done|]. rewrite Hz. apply W. }
  destruct (decide (MAX_NEEDED_LIBS <= nl_count libs)%nat) as [Hf|Hf].
  - assert (NeededLibs_add libs nm = (false, libs)) as ->
      by (unfold NeededLibs_add; by destruct (Nat.leb_spec MAX_NEEDED_LIBS (nl_count libs)); [|lia]).
    cbn [snd]. destruct (IH libs W) as [W' ->]. split; [done|]. rewrite !take_app_le by lia. done.
  - assert (NeededLibs_add libs nm = (true, push_name libs nm)) as ->
      by (unfold NeededLibs_add; by destruct (Nat.leb_spec MAX_NEEDED_LIBS (nl_count libs)); [lia|]).
    cbn [snd]. destruct (IH (push_name libs nm)) as [W' ->]; [apply push_name_wf; [done|lia]|]. split; [done|].
    rewrite names_of_push by (done || lia). by rewrite <- app_assoc.
Qed.

(** ** The names a file lists *)

(** A string up to its terminator. *)
Fixpoint cstr (l : list Z) : list Z :=
  match l with
  | [] => []
  | b :: l' => if b =? 0 then [] else b :: cstr l'
  end.

Lemma cstr_prefix l : cstr l `prefix_of` l.
Proof.
  induction l as [|b l IH]; simpl; [done|]. destruct (b =? 0); [apply prefix_nil|]. by apply prefix_cons.
Qed.

Section names.
Context (data : list Z).

(** The entries of a dynamic section before its end. *)
Fixpoint dyns (n : nat) (pos : Z) : list Elf64Dyn :=
  match n with
  | O => []
  | S n' =>
      match read_dyn data pos with
      | Some d => if d_tag d =? DT_NULL then [] else d :: dyns n' (pos + SIZEOF_DYN)
      | None => []
      end
  end.

Fixpoint run_dyns {S} (body : S -> Elf64Dyn -> option (S * bool)) (ds : list Elf64Dyn) (s : S) : option S :=
  match ds with
  | [] => Some s
  | d :: ds' => r ← body s d; let '(s', stop) := r in if (stop : bool) then Some s' else run_dyns body ds' s'
  end.

(** The name a [DT_NEEDED] entry refers to; empty if it is outside the file. *)
Definition needed_name (strtab : Z) (d : Elf64Dyn) : list Z :=
  cstr (drop (Z.to_nat (strtab + d_val d)%u64) data).

Definition listed_names (strtab : Z) (ds : list Elf64Dyn) : list (list Z) :=
  List.filter (fun nm => negb (bool_decide (nm = [])))
    (needed_name strtab <$> List.filter (fun d => d_tag d =? DT_NEEDED) ds).

(** The names of a file, in order, as the specification reads them. *)
Definition needed_spec (eh : Elf64Ehdr) : list (list Z) :=
  match List.find (fun ph => p_type ph =? PT_DYNAMIC) (phdrs data eh) with
  | None => []
  | Some ph =>
      if (p_offset ph =? 0) || (p_offset ph + p_filesz ph >? data_len data) then []
      else
        let ds := dyns (Z.to_nat (p_filesz ph `div` SIZEOF_DYN)) (p_offset ph) in
        match List.find (fun d => d_tag d =? DT_STRTAB) ds with
        | None => []
        | Some d =>
            if d_val d =? 0 then []
            else match elf_va_to_file_offset data eh (d_val d) with
                 | Some (Some off) => listed_names off ds
                 | _ => []
                 end
        end
  end.

Context (Hlen : data_len data < 2 ^ 63).

Lemma dyn_loop_run {S} (body : S -> Elf64Dyn -> option (S * bool)) n pos s :
  0 <= pos -> pos + SIZEOF_DYN * Z.of_nat n <= data_len data ->
  dyn_loop data n pos body s = run_dyns body (dyns n pos) s.
Proof.
  revert pos s. unfold SIZEOF_DYN. induction n as [|n IH]; intros pos s H0 Hp; cbn [dyn_loop dyns]; [done|].
  unfold SIZEOF_DYN. rewrite (wrap_small 64) by lia.
  destruct (read_dyn data pos) as [d|] eqn:E.
  - simpl. destruct (d_tag d =? DT_NULL); [done|]. simpl. destruct (body s d) as [[s' []]|]; simpl; try done.
    apply IH; lia.
  - unfold read_dyn, view_at, SIZEOF_DYN in E. case_if; [done|]. apply andb_false_iff in Heqb. lia.
Qed.

Lemma name_len_spec fuel off len :
  0 <= off -> 0 <= len -> data_len data - (off + len) < Z.of_nat fuel ->
  off + len <= data_len data ->
  name_len data fuel off len = Some (len + Z.of_nat (length (cstr (drop (Z.to_nat (off + len)) data)))).
Proof.
  revert len. induction fuel as [|fuel IH]; intros len H0 H1 Hf Hb; cbn [name_len].
  - lia.
  - rewrite (wrap_small 64) by lia. case_if.
    + unfold read_byte, data_len in *. destruct (Z.ltb_spec (off + len) 0); [lia|].
      destruct (lookup_lt_is_Some_2 data (Z.to_nat (off + len))) as [b Hbt]; [lia|]. rewrite Hbt. simpl.
      rewrite (drop_S _ _ _ Hbt). simpl. destruct (b =? 0); [simpl; f_equal; lia|].
      rewrite IH by (unfold data_len; lia). simpl. f_equal.
      replace (Z.to_nat (off + (len + 1))) with (S (Z.to_nat (off + len))) by lia. lia.
    + rewrite drop_ge by (unfold data_len in *; lia). simpl. f_equal. lia.
Qed.

Lemma read_name_spec off n :
  0 <= off -> off + Z.of_nat n <= data_len data ->
  read_name data off (Z.of_nat n) = Some (take n (drop (Z.to_nat off) data)).
Proof.
  intros H0 Hn. unfold read_name. rewrite Nat2Z.id. apply mapM_Some, Forall2_same_length_lookup_2.
  - rewrite length_seq, length_take, length_drop. unfold data_len in *. lia.
  - intros i j b [-> Hi]%lookup_seq Hb. simpl in *. rewrite wrap_small by lia.
    rewrite lookup_take_lt, lookup_drop in Hb by lia. unfold read_byte.
    destruct (Z.ltb_spec (off + Z.of_nat i) 0); [lia|]. rewrite <- Hb. f_equal. lia.
Qed.

Lemma take_needed_spec strtab libs d :
  needed_wf libs ->
  take_needed data strtab libs d =
  Some (if (d_tag d =? DT_NEEDED) && negb (bool_decide (needed_name strtab d = []))
        then (NeededLibs_add libs (needed_name strtab d)).2 else libs, false).
Proof.
  intros W. unfold take_needed. destruct (d_tag d =? DT_NEEDED); [|done]. cbn [negb andb].
  pose proof (wrap_range 64 (strtab + d_val d)) as Hr. set (off := (strtab + d_val d)%u64) in *. case_if.
  { unfold needed_name. fold off. rewrite drop_ge by (unfold data_len in *; lia). by rewrite bool_decide_true. }
  rewrite name_len_spec by (unfold data_len in *; lia). rewrite Z.add_0_r, Z.add_0_l. cbn [mbind option_bind].
  unfold needed_name. fold off. set (nm := cstr (drop (Z.to_nat off) data)).
  assert (nm `prefix_of` drop (Z.to_nat off) data) as [rest Hpre] by apply cstr_prefix.
  assert (length nm + length rest = length data - Z.to_nat off)%nat as Hl
    by (rewrite <- length_drop, Hpre, length_app; done).
  destruct (bool_decide_reflect (nm = [])) as [E|E].
  { rewrite E. done. }
  assert (length nm <> 0)%nat by (destruct nm; [done|simpl; lia]).
  destruct (Z.gtb_spec (Z.of_nat (length nm)) 0); [|lia]. cbn [andb].
  unfold NeededLibs_add. destruct (Nat.ltb_spec (nl_count libs) MAX_NEEDED_LIBS).
  2: { destruct (Nat.leb_spec MAX_NEEDED_LIBS (nl_count libs)); [|lia]. simpl. done. }
  destruct (Nat.leb_spec MAX_NEEDED_LIBS (nl_count libs)); [lia|].
  rewrite <- Nat2Z.inj_min, read_name_spec by (unfold data_len in *; lia). rewrite Hpre. cbn [mbind option_bind negb snd].
  assert (take (length nm `min` MAX_NEEDED_NAME) (nm ++ rest) = take MAX_NEEDED_NAME nm) as ->; [|by rewrite push_name_take].
  rewrite take_app_le by lia.
  destruct (decide (MAX_NEEDED_NAME <= length nm)%nat); [f_equal; lia|]. rewrite !take_ge; [done|lia..].
Qed.

Lemma needed_loop_spec strtab ds libs :
  needed_wf libs ->
  run_dyns (take_needed data strtab) ds libs =
  Some (foldl (fun l n => (NeededLibs_add l n).2) libs (listed_names strtab ds)).
Proof.
  revert libs. induction ds as [|d ds IH]; intros libs W; simpl; [done|]. rewrite take_needed_spec by done.
  cbn [mbind option_bind]. unfold listed_names in *. cbn [List.filter]. destruct (d_tag d =? DT_NEEDED); cbn [andb fmap list_fmap]; [|by apply IH].
  cbn [List.filter fmap list_fmap]. destruct (negb _); [|by apply IH]. cbn [foldl]. apply IH.
  by apply (needed_fold [needed_name strtab d]).
Qed.

Lemma strtab_loop_spec ds va :
  run_dyns (fun va d => Some (if d_tag d =? DT_STRTAB then (d_val d, true) else (va, false))) ds va =
  Some (match List.find (fun d => d_tag d =? DT_STRTAB) ds with Some d => d_val d | None => va end).
Proof. induction ds as [|d ds IH]; simpl; [done|]. by destruct (d_tag d =? DT_STRTAB). Qed.

Lemma list_find_map_find (p : Elf64Phdr -> bool) {R} (f : Elf64Phdr -> R) l :
  list_find_map (fun ph => if p ph then Some (f ph) else None) l = f <$> List.find p l.
Proof. induction l as [|ph l IH]; simpl; [done|]. by destruct (p ph). Qed.
End names.

(** Reading the needed libraries of a file never leaves the file, and gives
    the names its dynamic section lists, in order, cut to 24 bytes each, the
    first twelve of those that are not empty. *)
Theorem elf_get_needed_spec data eh
  (Hok : file_ok data eh)
  (Hdyn : Forall (fun ph => p_type ph = PT_DYNAMIC -> 0 <= p_offset ph /\ 0 <= p_filesz ph /\
                            p_offset ph + p_filesz ph < 2 ^ 64) (phdrs data eh)) :
  exists libs, elf_get_needed data = Some libs /\ needed_wf libs /\
    names_of libs = take MAX_NEEDED_LIBS (take MAX_NEEDED_NAME <$> needed_spec data eh).
Proof.
  pose proof (fok_ehdr _ _ Hok) as Heh. apply view_at_Some in Heh as Hsz. destruct Hsz as (_ & Hsz & _).
  assert (exists libs, Some NeededLibs_new = Some libs /\ needed_wf libs /\ names_of libs = take MAX_NEEDED_LIBS (take MAX_NEEDED_NAME <$> []))
    as Hnone by (exists NeededLibs_new; auto using needed_new_wf).
  unfold elf_get_needed, needed_spec. destruct (Z.ltb_spec (data_len data) SIZEOF_EHDR); [lia|].
  rewrite Heh. cbn [mbind option_bind]. rewrite (find_phdr_run data eh Hok).
  rewrite (list_find_map_find (fun ph => p_type ph =? PT_DYNAMIC) (fun ph => (p_offset ph, p_filesz ph))). cbn [mbind option_bind].
  destruct (List.find _ (phdrs data eh)) as [ph|] eqn:Ef; [|exact Hnone]. simpl.
  apply find_some in Ef as [Hin Ht]. apply Z.eqb_eq in Ht. apply list_elem_of_In in Hin.
  pose proof (proj1 (Forall_forall _ _) Hdyn ph Hin Ht) as (H0 & H1 & H2). rewrite wrap_small by lia.
  destruct ((p_offset ph =? 0) || _) eqn:Eb; [exact Hnone|]. bprop. pose proof (fok_len _ _ Hok).
  pose proof (Z.mul_div_le (p_filesz ph) SIZEOF_DYN). pose proof (Z.div_pos (p_filesz ph) SIZEOF_DYN). unfold SIZEOF_DYN in *.
  rewrite dyn_loop_run, strtab_loop_spec by (try done; unfold SIZEOF_DYN; lia). cbn [mbind option_bind].
  set (ds := dyns data _ _). destruct (List.find _ ds) as [d|]; [|exact Hnone].
  destruct (d_val d =? 0); [exact Hnone|].
  unfold elf_va_to_file_offset at 1. rewrite (find_phdr_run data eh Hok). cbn [mbind option_bind].
  unfold elf_va_to_file_offset. rewrite (find_phdr_run data eh Hok).
  destruct (list_find_map _ _) as [off|]; [|exact Hnone].
  rewrite dyn_loop_run, needed_loop_spec by (done || apply needed_new_wf || (unfold SIZEOF_DYN; lia)). fold ds.
  destruct (needed_fold (listed_names data off ds) NeededLibs_new needed_new_wf) as [W E]. eauto.
Qed.

(** A file that needs [libc.so] and a library whose name is too long. *)
Definition needed_elf : list Z :=
  ehdr_bytes ET_DYN EM_X86_64 0 64 2 ++
  phdr_bytes PT_LOAD PF_R 0 0 0x120 0x120 ++
  phdr_bytes PT_DYNAMIC PF_R 0xB0 0xB0 64 64 ++
  le_bytes 8 DT_NEEDED ++ le_bytes 8 0 ++ le_bytes 8 DT_STRTAB ++ le_bytes 8 0xF0 ++
  le_bytes 8 DT_NEEDED ++ le_bytes 8 8 ++ le_bytes 8 DT_NULL ++ le_bytes 8 0 ++
  [108; 105; 98; 99; 46; 115; 111; 0] ++ replicate 30 120 ++ [0; 0; 0; 0; 0; 0; 0; 0; 0; 0].

Lemma elf_get_needed_spec_witness :
  exists libs, elf_get_needed needed_elf = Some libs /\
    names_of libs = [[108; 105; 98; 99; 46; 115; 111]; replicate 24 120].
Proof.
  destruct (read_ehdr needed_elf) as [eh|] eqn:Eeh; [|exfalso; vm_compute in Eeh; discriminate].
  vm_compute in Eeh. injection Eeh as <-.
  match goal with |- context [elf_get_needed] => idtac end.
  edestruct (elf_get_needed_spec needed_elf) as (libs & E & _ & Hn).
  - split; [|done|vm_compute; reflexivity|done].
    apply (forallb_Forall (fun b => (0 <=? b) && (b <? 256))); [intros; bprop; lia | vm_compute; reflexivity].
  - apply (forallb_Forall (fun ph => (0 <=? p_offset ph) && (0 <=? p_filesz ph) && (p_offset ph + p_filesz ph <? 2 ^ 64)));
      [intros; bprop; lia | vm_compute; reflexivity].
  - exists libs. split; [done|]. rewrite Hn. vm_compute. reflexivity.
Defined.

(** A library list is what was added to it: of any sequence of names the
    first twelve, each cut to 24 bytes, and [contains] finds exactly those; no
    index leaves its array. *)
Theorem needed_libs_spec (names : list (list Z)) (name : list Z) :
  let libs := foldl (fun l n => (NeededLibs_add l n).2) NeededLibs_new names in
  NeededLibs_contains libs name =
  Some (bool_decide (name ∈ take MAX_NEEDED_LIBS (take MAX_NEEDED_NAME <$> names))).
Proof.
  intros libs. destruct (needed_fold names NeededLibs_new needed_new_wf) as [W E]. fold libs in W, E.
  unfold NeededLibs_contains. rewrite contains_from_spec by done. rewrite drop_0. by rewrite E.
Qed.

(** A name longer than 24 bytes is never found, not even after it was added. *)
Lemma needed_long_names (names : list (list Z)) (name : list Z) :
  (MAX_NEEDED_NAME < length name)%nat ->
  NeededLibs_contains (foldl (fun l n => (NeededLibs_add l n).2) NeededLibs_new names) name = Some false.
Proof.
  intros Hl. destruct (needed_fold names NeededLibs_new needed_new_wf) as [W E].
  unfold NeededLibs_contains. rewrite contains_from_spec by done. rewrite drop_0, E. f_equal. apply bool_decide_eq_false.
  intros Hin. apply elem_of_take in Hin as (i & Hi & _).
  apply list_lookup_fmap_Some in Hi as (n & -> & _). rewrite length_take in Hl. lia.
Qed.

(** ** Paths *)

(** The path in the initrd an interpreter name stands for. *)
Definition interp_path (interp : list Z) : list Z :=
  match interp with
  | [] => INITRD_LIB_PREFIX ++ DEFAULT_RTLD_SONAME
  | c :: stripped =>
      if c =? SLASH then stripped
      else if bool_decide (SLASH ∈ interp) then interp else INITRD_LIB_PREFIX ++ interp
  end.

Lemma existsb_slash l : existsb (Z.eqb SLASH) l = bool_decide (SLASH ∈ l).
Proof.
  apply eq_true_iff_eq. rewrite existsb_exists, bool_decide_eq_true. split.
  - intros (x & Hx & ->%Z.eqb_eq). by apply list_elem_of_In.
  - intros H. exists SLASH. split; [by apply list_elem_of_In | apply Z.eqb_refl].
Qed.

(** The path is written to the start of the buffer and its length returned,
    or, if the buffer is too small, 0 is returned and the buffer left alone. *)
Theorem resolve_interp_spec (interp dst : list Z) :
  let p := interp_path interp in
  resolve_interp_to_cpio_path interp dst =
  if decide (length p <= length dst)%nat then (length p, p ++ drop (length p) dst) else (0%nat, dst).
Proof.
  intros p. subst p. unfold interp_path, resolve_interp_to_cpio_path.
  assert (forall s, build_initrd_lib_path s dst =
    if decide (length (INITRD_LIB_PREFIX ++ s) <= length dst)%nat
    then (length (INITRD_LIB_PREFIX ++ s), (INITRD_LIB_PREFIX ++ s) ++ drop (length (INITRD_LIB_PREFIX ++ s)) dst) else (0%nat, dst)) as Hb.
  { intros s. unfold build_initrd_lib_path. rewrite <- length_app.
    destruct (Nat.ltb_spec (length dst) (length (INITRD_LIB_PREFIX ++ s))); case_decide; [lia|done..|lia]. }
  destruct interp as [|c rest]; [apply Hb|]. destruct (c =? SLASH).
  { destruct (Nat.ltb_spec (length dst) (length rest)); case_decide; [lia|done..|lia]. }
  rewrite existsb_slash. case_bool_decide; [|apply Hb].
  destruct (Nat.ltb_spec (length dst) (length (c :: rest))); case_decide; [lia|done..|lia].
Qed.
