(* ===== verification/ElfTheorems.v ===== *)
(** What is proved of the ELF loader, with a sample executable on which every
    hypothesis holds, and of the program headers a child finds. *)

From stdpp Require Import gmap.
From S2P Require Import Prelude Consts Elf Vm ElfLoad ElfImage VmSim ElfRefine ElfCorrect ElfDynamic.

(** ** Deciding validity *)

Definition seg_okb (data : list Z) (delta : Z) (ph : Elf64Phdr) : bool :=
  (0 <=? p_vaddr ph) && (p_vaddr ph <? 2 ^ 64) && (0 <=? p_offset ph) && (p_offset ph <? 2 ^ 64) &&
  (0 <=? p_filesz ph) && (p_filesz ph <=? p_memsz ph) && (p_memsz ph <=? 2 ^ 47) &&
  (p_offset ph + p_filesz ph <=? data_len data) && (seg_at delta ph + p_memsz ph + 4096 <=? 2 ^ 64).

Lemma seg_okb_ok data delta ph : seg_okb data delta ph = true -> seg_ok data delta ph.
Proof. unfold seg_okb. intros. bprop. split; unfold u64, in_u; lia. Qed.

Definition valid_elfb (arch : Arch) (data : list Z) (load_base : Z) : bool :=
  forallb (fun b => (0 <=? b) && (b <? 256)) data && (data_len data <? 2 ^ 63) &&
  match read_ehdr data with
  | None => false
  | Some eh =>
      let l := loads data eh in
      let delta := elf_delta eh l load_base in
      (e_phoff eh <? 2 ^ 63) && (check_ehdr (EM_NATIVE arch) eh =? ELF_OK) &&
      negb (bool_decide (l = [])) && forallb (seg_okb data delta) l &&
      (0 <? sum_pages delta l) && (sum_pages delta l <=? MAX_PAGES) &&
      (negb (e_type eh =? ET_DYN) ||
       match reloc_plan data eh with
       | Some rs => targets_ok (R_RELATIVE arch) delta (seg_image data delta l) rs
       | None => false
       end)
  end.

Lemma valid_elfb_ok arch data load_base : valid_elfb arch data load_base = true -> valid_elf arch data load_base.
Proof.
  unfold valid_elfb. intros H. destruct (read_ehdr data) as [eh|] eqn:E; [|by rewrite andb_false_r in H].
  bprop. exists eh. split; [split; try done|].
  - eapply forallb_Forall; [|done]. simpl. intros. bprop. lia.
  - cbv zeta. split_and!; [done | by eapply bool_decide_eq_false_1 | eapply forallb_Forall; [|done]; apply seg_okb_ok | done | done |].
    intros Hd. rewrite Hd in *. simpl in *. destruct (reloc_plan data eh) as [rs|]; [|done]. by exists rs.
Qed.

(** ** A sample executable

    A position-independent file of two segments that share a page, with one
    relocation. *)

Definition sample_elf : list Z :=
  ehdr_bytes ET_DYN EM_X86_64 0x40 64 3 ++
  phdr_bytes PT_LOAD (Z.lor PF_R PF_X) 0 0 0x140 0x140 ++
  phdr_bytes PT_LOAD (Z.lor PF_R PF_W) 0x140 0x140 16 0x1000 ++
  phdr_bytes PT_DYNAMIC PF_R 0xE8 0xE8 64 64 ++
  le_bytes 8 DT_RELA ++ le_bytes 8 0x128 ++ le_bytes 8 DT_RELASZ ++ le_bytes 8 24 ++
  le_bytes 8 DT_RELAENT ++ le_bytes 8 24 ++ le_bytes 8 DT_NULL ++ le_bytes 8 0 ++
  le_bytes 8 0x148 ++ le_bytes 8 R_X86_64_RELATIVE ++ le_bytes 8 0x10 ++
  [1; 2; 3; 4; 5; 6; 7; 8; 9; 10; 11; 12; 13; 14; 15; 16].

Lemma sample_valid : valid_elf x86_64 sample_elf 0x400000.
Proof. apply valid_elfb_ok. vm_compute. reflexivity. Qed.

(** The loader run on it: code, result, permissions of the two pages and the
    bytes around the relocated word. *)
Example sample_run :
  match elf_load toy_env x86_64 sample_elf 0x400000 toy_loader with
  | Some (code, out, ld) =>
      code = ELF_OK /\ out = Some (mkResult 0x400040 0x400000 0x402000) /\
      tm_maps (ld_vm ld) !! (9, 0x400000) = Some (100, Z.lor VSPACE_FLAG_USER VSPACE_FLAG_WRITABLE) /\
      tm_maps (ld_vm ld) !! (9, 0x401000) = Some (101, Z.lor VSPACE_FLAG_USER VSPACE_FLAG_WRITABLE) /\
      (fun p => take 18 (drop 0x140 p)) <$> tm_frames (ld_vm ld) !! 100 =
        Some [1; 2; 3; 4; 5; 6; 7; 8; 0x10; 0; 0x40; 0; 0; 0; 0; 0; 0; 0]
  | None => False
  end.
Proof. vm_compute. repeat split. Qed.

Definition sample_ehdr : Elf64Ehdr :=
  Eval vm_compute in default (mkEhdr [] 0 0 0 0 0 0 0 0 0 0 0 0 0) (read_ehdr sample_elf).

Lemma sample_loaded :
  exists out ld', elf_load toy_env x86_64 sample_elf 0x400000 toy_loader = Some (ELF_OK, out, ld').
Proof.
  generalize sample_run. generalize (elf_load toy_env x86_64 sample_elf 0x400000 toy_loader).
  intros [[[code out] ld']|]; [|done]. intros [-> _]. eauto.
Qed.

(** ** Loading *)



(** C7: If the kernel maps every frame it is given, recording succeeds and there
    are as many frames as the file has pages, loading succeeds and the child
    holds the image. *)
Theorem elf_load_total `{V : Vm} {VOK : VmOk V} (env : LoaderEnv) (supply : nat -> Loader -> Prop)
  arch data load_base ld
  (Henv : env_ok env) (Hcb : callbacks_ok env (ld_untyped ld =? 0)) (Hgen : generous env (new_frame env) supply)
  (Hsupply : supply (frames_needed data load_base) ld) (Hvalid : valid_elf arch data load_base) :
  exists im res ld', elf_image arch data load_base = Some (im, res) /\
    elf_load env arch data load_base ld = Some (ELF_OK, Some res, ld') /\
    holds env (ld_vm ld) (ld_vm ld') im.
Proof.
  destruct (elf_load_spec env Henv supply arch data load_base ld) as (code & out & ld' & E & [_ Ho] & Hl); try done.
  { intros s f c Hf Hc. by eapply (gen_map _ _ _ Hgen). }
  specialize (Hl Hgen Hsupply). subst code. destruct Ho as [(im & res & ? & _ & -> & ?)|[[|] _]]; try done. eauto 6.
Qed.

Lemma elf_load_total_witness :
  exists im res ld', elf_image x86_64 sample_elf 0x400000 = Some (im, res) /\
    elf_load toy_env x86_64 sample_elf 0x400000 toy_loader = Some (ELF_OK, Some res, ld') /\
    holds toy_env (ld_vm toy_loader) (ld_vm ld') im.
Proof.
  apply (elf_load_total toy_env toy_supply x86_64 sample_elf 0x400000 toy_loader
    toy_env_ok toy_callbacks_ok toy_generous); [|exact sample_valid].
  split; [done|]. split; [done|]. split; [vm_compute; discriminate|]. done.
Defined.

(** *** The loaded pages, pointwise *)

Lemma reloc_flags R delta base im rs va : snd <$> reloc_image R delta base im rs !! va = snd <$> im !! va.
Proof.
  unfold reloc_image. revert im. induction rs as [|r rs IH]; intros im; simpl; [done|]. rewrite IH.
  unfold reloc_step. case_if; [|done]. unfold write64. destruct (decide (va = page_align_down (target delta r))) as [->|].
  - rewrite lookup_alter_eq. by destruct (im !! _) as [[]|].
  - by rewrite lookup_alter_ne.
Qed.

(** Permissions of the image: those of the segments on the page, never both
    writable and executable. *)
Lemma flags_of_wx w x :
  Z.land (flags_of w x) VSPACE_FLAG_WRITABLE = 0 \/ Z.land (flags_of w x) VSPACE_FLAG_EXECUTABLE = 0.
Proof. destruct w, x; by (left + right). Qed.

Lemma elf_image_flags arch data load_base eh im res va :
  valid_elf arch data load_base -> read_ehdr data = Some eh -> elf_image arch data load_base = Some (im, res) ->
  let l := loads data eh in let delta := elf_delta eh l load_base in
  va mod 4096 = 0 -> existsb (fun ph => covers delta ph va) l = true ->
  exists c, im !! va = Some (c, page_flags delta l va) /\
    (e_type eh <> ET_DYN -> c = page_bytes data delta l va).
Proof.
  intros (eh' & Hok & _ & _ & Hsegs & _) Heh Him l delta Hm Hc.
  pose proof (fok_ehdr _ _ Hok) as E. assert (eh' = eh) as -> by congruence.
  pose proof (seg_image_lookup data delta l va Hsegs Hm) as Hl. rewrite Hc in Hl.
  unfold elf_image in Him. rewrite Heh in Him. cbn [mbind option_bind] in Him. fold l delta in Him.
  destruct (Z.eqb_spec (e_type eh) ET_DYN) as [Hd|Hd].
  - destruct (reloc_plan data eh) as [rs|]; [|done]. injection Him as <- <-.
    pose proof (reloc_flags (R_RELATIVE arch) delta load_base (seg_image data delta l) rs va) as Hf. rewrite Hl in Hf.
    destruct (reloc_image _ _ _ _ rs !! va) as [[c fl]|]; [|done]. injection Hf as ->. by exists c.
  - injection Him as <- <-. exists (page_bytes data delta l va). by rewrite <- Hl.
Qed.



(** ** Planning: how much address space a file needs *)

Lemma span_fold l m e :
  let step := fun '(m, e) ph =>
    if negb (is_load ph) then (m, e)
    else (if p_vaddr ph <? m then p_vaddr ph else m,
          if (p_vaddr ph + p_memsz ph)%u64 >? e then (p_vaddr ph + p_memsz ph)%u64 else e) in
  let r := foldl step (m, e) l in
  r.1 <= m /\ e <= r.2 /\
  Forall (fun ph => r.1 <= p_vaddr ph /\ (p_vaddr ph + p_memsz ph)%u64 <= r.2) (List.filter is_load l) /\
  (r.1 = m \/ Exists (fun ph => p_vaddr ph = r.1) (List.filter is_load l)) /\
  (r.2 = e \/ Exists (fun ph => (p_vaddr ph + p_memsz ph)%u64 = r.2) (List.filter is_load l)).
Proof.
  intros step. revert m e. induction l as [|ph l IH]; intros m e; simpl.
  { split_and!; auto; lia. }
  destruct (is_load ph); simpl; [|apply IH].
  set (m' := if p_vaddr ph <? m then p_vaddr ph else m).
  set (e' := if (p_vaddr ph + p_memsz ph)%u64 >? e then (p_vaddr ph + p_memsz ph)%u64 else e).
  assert (m' <= m /\ m' <= p_vaddr ph /\ (m' = m \/ m' = p_vaddr ph)) as (? & ? & Hm) by (subst m'; case_if; lia).
  assert (e <= e' /\ (p_vaddr ph + p_memsz ph)%u64 <= e' /\ (e' = e \/ e' = (p_vaddr ph + p_memsz ph)%u64)) as (? & ? & He)
    by (subst e'; case_if; lia).
  destruct (IH m' e') as (I1 & I2 & I3 & I4 & I5). fold m' e'. split_and!; try lia.
  - constructor; [lia|done].
  - rewrite Exists_cons. destruct I4 as [I4|I4]; [|by auto]. rewrite I4. destruct Hm; auto.
  - rewrite Exists_cons. destruct I5 as [I5|I5]; [|by auto]. rewrite I5. destruct He; auto.
Qed.

(** C34: The span [elf_compute_load_span] returns is a whole number of pages that
    holds every loadable segment when it starts at the page of the lowest one,
    and it is not too large: it ends on the page on which some segment ends. *)
Theorem elf_compute_load_span_spec data eh
  (Hok : file_ok data eh) (Hmagic : has_magic eh = true)
  (Hsegs : Forall (fun ph => 0 <= p_vaddr ph /\ 0 < p_memsz ph /\ p_vaddr ph + p_memsz ph + 4096 <= 2 ^ 64) (loads data eh))
  (Hne : loads data eh <> []) :
  exists lo span, elf_compute_load_span data = Some span /\ span mod 4096 = 0 /\ lo mod 4096 = 0 /\
    Forall (fun ph => lo <= p_vaddr ph /\ p_vaddr ph + p_memsz ph <= lo + span) (loads data eh) /\
    Exists (fun ph => p_vaddr ph < lo + 4096) (loads data eh) /\
    Exists (fun ph => lo + span < p_vaddr ph + p_memsz ph + 4096) (loads data eh).
Proof.
  pose proof (fok_ehdr _ _ Hok) as Heh. apply view_at_Some in Heh as Hsz. destruct Hsz as (_ & Hsz & _).
  unfold elf_compute_load_span. destruct (Z.ltb_spec (data_len data) SIZEOF_EHDR); [lia|].
  rewrite Heh. cbn [mbind option_bind]. rewrite Hmagic. cbn [negb]. rewrite (fold_phdrs_run data eh Hok).
  pose proof (span_fold (phdrs data eh) U64_MAX 0) as Hf. fold (loads data eh) in Hf. cbv zeta in Hf |- *.
  cbn [mbind option_bind]. destruct (foldl _ _ _) as [m e]. simpl in Hf. destruct Hf as (_ & _ & Hf & Hm & He).
  assert (Forall (fun ph => m <= p_vaddr ph /\ p_vaddr ph + p_memsz ph <= e) (loads data eh)) as Hf'.
  { eapply Forall_impl; [apply Forall_and; split; [exact Hf|exact Hsegs]|]. simpl.
    intros ph [[H0 H1] H2]. rewrite wrap_small in H1 by lia. lia. }
  destruct (loads data eh) as [|q l] eqn:El; [done|]. rewrite <- El in *.
  assert (q ∈ loads data eh) as Hq by (rewrite El; left).
  pose proof (proj1 (Forall_forall _ _) Hsegs q Hq) as Hq1. pose proof (proj1 (Forall_forall _ _) Hf' q Hq) as Hq2. simpl in Hq1, Hq2.
  unfold U64_MAX in *. destruct Hm as [->|Hm]; [lia|]. destruct He as [->|He]; [lia|].
  apply Exists_exists in Hm as (pm & Hpm & Em), He as (pe & Hpe & Ee).
  pose proof (proj1 (Forall_forall _ _) Hsegs pm Hpm) as Hpm1. pose proof (proj1 (Forall_forall _ _) Hsegs pe Hpe) as Hpe1.
  simpl in Hpm1, Hpe1. rewrite wrap_small in Ee by lia.
  destruct (Z.eqb_spec m (2 ^ 64 - 1)); [lia|]. destruct (Z.eqb_spec e 0); [lia|]. cbn [orb].
  destruct (page_align_down_spec m) as (D1 & D2 & D3); [unfold u64, in_u; lia|].
  destruct (page_align_up_bounds e) as (U1 & U2); [lia..|].
  exists (page_align_down m), (page_align_up e - page_align_down m). rewrite wrap_small by lia.
  split_and!; [done | rewrite Zminus_mod, U1, D1; done | done | | |].
  - eapply Forall_impl; [exact Hf'|]. simpl. lia.
  - apply Exists_exists. exists pm. split; [done|]. lia.
  - apply Exists_exists. exists pe. split; [done|]. lia.
Qed.

Lemma elf_compute_load_span_spec_witness :
  elf_compute_load_span sample_elf = Some 0x2000 /\
  exists lo span, elf_compute_load_span sample_elf = Some span /\ span mod 4096 = 0 /\ lo mod 4096 = 0 /\
    Forall (fun ph => lo <= p_vaddr ph /\ p_vaddr ph + p_memsz ph <= lo + span) (loads sample_elf sample_ehdr) /\
    Exists (fun ph => p_vaddr ph < lo + 4096) (loads sample_elf sample_ehdr) /\
    Exists (fun ph => lo + span < p_vaddr ph + p_memsz ph + 4096) (loads sample_elf sample_ehdr).
Proof.
  split; [vm_compute; reflexivity|]. apply (elf_compute_load_span_spec sample_elf sample_ehdr).
  - destruct sample_valid as (eh & Hok & _). pose proof (fok_ehdr _ _ Hok) as E. injection E as <-. exact Hok.
  - vm_compute. reflexivity.
  - apply (forallb_Forall (fun ph => (0 <=? p_vaddr ph) && (0 <? p_memsz ph) && (p_vaddr ph + p_memsz ph + 4096 <=? 2 ^ 64))).
    + intros. bprop. lia.
    + vm_compute. reflexivity.
  - vm_compute. discriminate.
Defined.

(** ** A hostile header

    The bounds check [off + 56 > data_len] of the header loops wraps: a table
    that starts in the last bytes of the address space passes it, and the read
    that follows is far outside the file. *)
Definition hostile_elf : list Z := ehdr_bytes ET_EXEC EM_X86_64 0 (2 ^ 64 - 56) 1.

Lemma hostile_header_faults :
  elf_load toy_env x86_64 hostile_elf 0 toy_loader = None /\ elf_compute_load_span hostile_elf = None.
Proof. split; vm_compute; reflexivity. Qed.

(** * The program headers in the loaded image *)

(** A loadable segment [q] that contains the header table, and the address the
    table has in it. *)
Definition holds_table (eh : Elf64Ehdr) (q : Elf64Phdr) : bool :=
  (p_offset q <=? e_phoff eh) && (e_phoff eh + e_phnum eh * e_phentsize eh <=? p_offset q + p_filesz q).
Definition table_vaddr (eh : Elf64Ehdr) (q : Elf64Phdr) : Z := (p_vaddr q + (e_phoff eh - p_offset q)%u64)%u64.

Section table.
Context (data : list Z) (eh : Elf64Ehdr) (delta : Z) (Hok : file_ok data eh).
Context (Hent : SIZEOF_PHDR <= e_phentsize eh).
Context (Hsegs : Forall (seg_ok data delta) (loads data eh)).

Let table_size := e_phnum eh * e_phentsize eh.

(** The scan of the table as a fold over its headers. *)
Definition scan_step (s : PhdrScan) (ph : Elf64Phdr) : PhdrScan :=
  if is_load ph then
    mkScan (if p_vaddr ph <? ps_min s then p_vaddr ph else ps_min s) (ps_phdr s)
      (if (e_phoff eh >=? p_offset ph) && (e_phoff eh + table_size <=? p_offset ph + p_filesz ph)
       then Some (table_vaddr eh ph) else ps_mapped s)
  else if p_type ph =? PT_PHDR then mkScan (ps_min s) (Some (p_vaddr ph)) (ps_mapped s)
  else s.

Lemma phdr_scan_run n i s :
  Z.of_nat (i + n) = e_phnum eh -> e_phoff eh + table_size <= data_len data ->
  Forall (seg_ok data delta) (List.filter is_load (phdrs_from data eh n i)) ->
  phdr_scan data n i (e_phoff eh) (e_phentsize eh) table_size (e_phoff eh) (e_phoff eh + table_size) s =
  Some (Some (foldl scan_step s (phdrs_from data eh n i))).
Proof.
  pose proof (phnum_range _ _ Hok) as (Hn & He & Ho). pose proof (fok_len _ _ Hok) as Hl.
  revert i s. induction n as [|n IH]; intros i s Hi Ht Hs; cbn [phdr_scan phdrs_from]; [done|].
  cbn [phdrs_from] in Hs. unfold checked_mul. unfold SIZEOF_PHDR in *.
  assert (0 <= Z.of_nat i * e_phentsize eh /\ Z.of_nat i * e_phentsize eh + e_phentsize eh <= table_size) as [Hm1 Hm2]
    by (unfold table_size; nia).
  destruct (Z.ltb_spec (Z.of_nat i * e_phentsize eh) (2 ^ 64)); [|lia].
  rewrite !(wrap_small 64 (Z.of_nat i * _)) in * by lia. rewrite !(wrap_small 64 (e_phoff eh + _)) in * by lia.
  rewrite !(wrap_small 64 (_ + 56)) in * by lia.
  destruct (Z.gtb_spec (Z.of_nat i * e_phentsize eh + 56) table_size); [lia|].
  destruct (Z.gtb_spec (e_phoff eh + Z.of_nat i * e_phentsize eh + 56) (data_len data)); [lia|].
  destruct (read_phdr data _) as [ph|] eqn:Er.
  2: { unfold read_phdr, view_at, SIZEOF_PHDR in Er. case_if; [done|]. apply andb_false_iff in Heqb. lia. }
  cbn [mbind option_bind foldl List.filter] in *. unfold scan_step at 2.
  destruct (is_load ph).
  - apply Forall_cons in Hs as [Hph Hs]. destruct Hph as [(? & ? & ?) ? ? ?].
    unfold checked_add. destruct (Z.ltb_spec (p_offset ph + p_filesz ph) (2 ^ 64)); [|lia]. by apply IH; [lia|..].
  - destruct (p_type ph =? PT_PHDR); by apply IH; [lia|..].
Qed.

(** Every address the scan remembers is that of a segment with the table. *)
Definition from_segment (l : list Elf64Phdr) (o : option Z) : Prop :=
  forall v, o = Some v -> exists q, q ∈ l /\ holds_table eh q = true /\ v = table_vaddr eh q.

Lemma scan_step_sound l0 l s :
  Forall (fun ph => p_type ph = PT_PHDR -> from_segment l0 (Some (p_vaddr ph))) l ->
  (forall ph, ph ∈ List.filter is_load l -> ph ∈ l0) ->
  from_segment l0 (ps_phdr s) -> from_segment l0 (ps_mapped s) ->
  let r := foldl scan_step s l in
  from_segment l0 (ps_phdr r) /\ from_segment l0 (ps_mapped r) /\
  ps_min r = foldl (fun m ph => if p_vaddr ph <? m then p_vaddr ph else m) (ps_min s) (List.filter is_load l).
Proof.
  intros Hl. revert s. induction Hl as [|ph l Hph _ IH]; intros s Hin H1 H2; [done|]. cbn [foldl List.filter] in *.
  destruct (is_load ph) eqn:El.
  - cbn [foldl]. destruct (IH (scan_step s ph)) as (R1 & R2 & R3).
    + intros q Hq. apply Hin. by right.
    + unfold scan_step. by rewrite El.
    + unfold scan_step. rewrite El. simpl. case_if; [|done]. intros v [= <-]. exists ph.
      split; [apply Hin; left|]. split; [|done]. unfold holds_table. fold table_size.
      apply andb_true_iff. rewrite !Z.leb_le. lia.
    + split; [done|]. split; [done|]. rewrite R3. unfold scan_step. by rewrite El.
  - destruct (IH (scan_step s ph)) as (R1 & R2 & R3); try done.
    1,2: unfold scan_step; rewrite El; case_if; try done. { simpl. auto. }
    split; [done|]. split; [done|]. rewrite R3. unfold scan_step. rewrite El. by case_if.
Qed.
End table.

Lemma image_byte_unique data delta l q a :
  q ∈ l -> in_file delta q a = true -> (forall ph, ph ∈ l -> in_file delta ph a = true -> ph = q) ->
  image_byte data delta l a = file_byte data delta q a.
Proof.
  intros Hq Hin Hu. induction l as [|ph l IH] using rev_ind; [by apply not_elem_of_nil in Hq|].
  rewrite image_byte_snoc. destruct (in_file delta ph a) eqn:E.
  - by rewrite (Hu ph) by (done || (apply elem_of_app; right; by apply list_elem_of_singleton)).
  - apply elem_of_app in Hq as [Hq|Hq%list_elem_of_singleton]; [|congruence].
    apply IH; [done|]. intros p Hp. apply Hu. apply elem_of_app. by left.
Qed.

(** The address of a position-independent file's table, once it is placed. *)
Lemma table_vaddr_placed data eh q load_base m :
  let delta := (load_base - m)%u64 in
  file_ok data eh -> seg_ok data delta q -> holds_table eh q = true -> 0 <= e_phnum eh * e_phentsize eh ->
  (load_base + (table_vaddr eh q - m)%u64)%u64 = seg_at delta q + (e_phoff eh - p_offset q).
Proof.
  intros delta Hok [(Hv & Ho & Hf) Hsz Hfile Hend] Ht Hsize. unfold holds_table, u64, in_u in *. bprop.
  pose proof (fok_phoff _ _ Hok). pose proof (seg_at_u64 delta q) as Hu. unfold u64, in_u in Hu.
  rewrite <- (wrap_small 64 (seg_at delta q + (e_phoff eh - p_offset q))) by lia.
  subst delta. unfold table_vaddr, seg_at. rewrite (wrap_small 64 (e_phoff eh - p_offset q)) by lia.
  rewrite wrap_sub_l, wrap_add_r, wrap_add_l.
  replace (p_vaddr q + (load_base - m)%u64 + (e_phoff eh - p_offset q))
    with (p_vaddr q + (e_phoff eh - p_offset q) + (load_base - m)%u64) by lia.
  rewrite wrap_add_r. f_equal. lia.
Qed.

(** In a position-independent file whose header table lies in a loadable
    segment (and whose [PT_PHDR] entry, if there is one, says so truly), the
    address [elf_get_phdr_info] reports is that of the table in the loaded image:
    the bytes there are the table's bytes in the file. *)
Theorem phdr_info_in_image data eh load_base a ent num
  (Hok : file_ok data eh) (Hpie : e_type eh = ET_DYN) (Hent : SIZEOF_PHDR <= e_phentsize eh)
  (Hsegs : Forall (seg_ok data (elf_delta eh (loads data eh) load_base)) (loads data eh))
  (Hphdr : Forall (fun ph => p_type ph = PT_PHDR -> from_segment eh (loads data eh) (Some (p_vaddr ph))) (phdrs data eh))
  (Hdisj : forall p q x, p ∈ loads data eh -> q ∈ loads data eh ->
     in_file (elf_delta eh (loads data eh) load_base) p x = true ->
     in_file (elf_delta eh (loads data eh) load_base) q x = true -> p = q)
  (Hinfo : elf_get_phdr_info data load_base = Some (Some (a, ent, num))) :
  ent = e_phentsize eh /\ num = e_phnum eh /\
  forall k, 0 <= k < num * ent ->
    image_byte data (elf_delta eh (loads data eh) load_base) (loads data eh) (a + k) =
    byte_at data (Z.to_nat (e_phoff eh + k)).
Proof.
  pose proof (phnum_range _ _ Hok) as (Hn & He & Ho). pose proof (fok_ehdr _ _ Hok) as Heh. pose proof (fok_phoff _ _ Hok).
  unfold elf_get_phdr_info in Hinfo. apply view_at_Some in Heh as Hsz. destruct Hsz as (_ & Hsz & _).
  destruct (Z.ltb_spec (data_len data) SIZEOF_EHDR); [lia|]. rewrite Heh in Hinfo. cbn [mbind option_bind] in Hinfo.
  unfold checked_mul in Hinfo. assert (0 <= e_phnum eh * e_phentsize eh < 2 ^ 32) as Hsize by nia.
  destruct (Z.ltb_spec (e_phnum eh * e_phentsize eh) (2 ^ 64)); [|lia].
  destruct ((e_phnum eh * e_phentsize eh =? 0) || _) eqn:Eb; [done|]. bprop. rewrite wrap_small in * by lia.
  unfold elf_get_phdr_load_offset, elf_compute_phdr_elf_vaddr, checked_mul, checked_add in Hinfo.
  destruct (Z.ltb_spec (e_phnum eh * e_phentsize eh) (2 ^ 64)); [|lia].
  destruct (Z.ltb_spec (e_phoff eh + e_phnum eh * e_phentsize eh) (2 ^ 64)); [|lia].
  set (l := loads data eh) in *. set (delta := elf_delta eh l load_base) in *.
  rewrite (phdr_scan_run data eh delta) in Hinfo by (try done; lia). fold (phdrs data eh) in Hinfo. cbn [mbind option_bind] in Hinfo.
  destruct (scan_step_sound eh l (phdrs data eh) (mkScan U64_MAX None None)) as (R1 & R2 & R3); try done.
  set (r := foldl (scan_step eh) _ _) in *. cbn [ps_min] in R3. fold (loads data eh) in R3. fold l in R3. fold (min_vaddr l) in R3.
  destruct (ps_min r =? U64_MAX); [done|].
  assert (exists q, q ∈ l /\ holds_table eh q = true /\
    (load_base + (table_vaddr eh q - ps_min r)%u64)%u64 = a /\ e_phentsize eh = ent /\ e_phnum eh = num) as (q & Hq & Ht & Ha & <- & <-).
  { destruct (ps_phdr r) as [v|] eqn:E1; [|destruct (ps_mapped r) as [v|] eqn:E2; [|done]]; cbn [mbind option_bind] in Hinfo;
      injection Hinfo as <- <- <-; [destruct (R1 v eq_refl) as (q & ? & ? & ->) | destruct (R2 v eq_refl) as (q & ? & ? & ->)]; by exists q. }
  pose proof (proj1 (Forall_forall _ _) Hsegs q Hq) as Hsq. split; [done|]. split; [done|]. intros k Hk.
  assert (delta = (load_base - ps_min r)%u64) as Hd by (unfold delta, elf_delta; by rewrite Hpie, R3).
  rewrite Hd in Hsq. rewrite (table_vaddr_placed data) in Ha by (done || lia). rewrite <- Hd in Ha, Hsq. clear Hd. subst a.
  unfold holds_table in Ht. bprop.
  assert (in_file delta q (seg_at delta q + (e_phoff eh - p_offset q) + k) = true) as Hin
    by (unfold in_file; apply andb_true_iff; rewrite Z.leb_le, Z.ltb_lt; lia).
  rewrite (image_byte_unique data delta l q) by (done || (intros p Hp Hip; by eapply Hdisj)).
  unfold file_byte. f_equal. f_equal. lia.
Qed.

Lemma phdr_info_in_image_witness :
  elf_get_phdr_info sample_elf 0x400000 = Some (Some (0x400040, 56, 3)) /\
  forall k, 0 <= k < 3 * 56 ->
    image_byte sample_elf (elf_delta sample_ehdr (loads sample_elf sample_ehdr) 0x400000) (loads sample_elf sample_ehdr) (0x400040 + k) =
    byte_at sample_elf (Z.to_nat (64 + k)).
Proof.
  assert (elf_get_phdr_info sample_elf 0x400000 = Some (Some (0x400040, 56, 3))) as Hinfo by (vm_compute; reflexivity).
  assert (loads sample_elf sample_ehdr =
    [mkPhdr PT_LOAD 5 0 0 0 0x140 0x140 4096; mkPhdr PT_LOAD 6 0x140 0x140 0x140 16 0x1000 4096]) as Hl by (vm_compute; reflexivity).
  split; [exact Hinfo|].
  destruct (phdr_info_in_image sample_elf sample_ehdr 0x400000 0x400040 56 3) as (_ & _ & Hk); [..|exact Hk].
  - destruct sample_valid as (eh & Hok & _). pose proof (fok_ehdr _ _ Hok) as E. injection E as <-. exact Hok.
  - reflexivity.
  - done.
  - destruct sample_valid as (eh & Hok & _ & _ & Hs & _). pose proof (fok_ehdr _ _ Hok) as E. injection E as <-. exact Hs.
  - apply (forallb_Forall (fun ph => negb (p_type ph =? PT_PHDR))); [|vm_compute; reflexivity].
    intros ph Hph Ht. bprop. congruence.
  - rewrite Hl. change (elf_delta _ _ _) with 0x400000. intros p q x Hp Hq.
    assert (seg_at 0x400000 (mkPhdr PT_LOAD 5 0 0 0 0x140 0x140 4096) = 0x400000) as E1 by reflexivity.
    assert (seg_at 0x400000 (mkPhdr PT_LOAD 6 0x140 0x140 0x140 16 0x1000 4096) = 0x400140) as E2 by reflexivity.
    apply elem_of_cons in Hp as [->|Hp%list_elem_of_singleton], Hq as [->|Hq%list_elem_of_singleton]; subst; try done;
      unfold in_file; rewrite E1, E2; cbn [p_filesz]; intros; bprop; lia.
  - exact Hinfo.
Defined.
