(* ===== verification/Pe.v ===== *)
(** PE32+ files: the structures of [src/uapi/types/pe.rs] and the functions of
    [src/loader/pe_loader.rs] that inspect a file: validation, data directories,
    the translation of relative virtual addresses and the list of imported DLLs.

    A file is a list of bytes; a read outside it is a fault ([None]).  [usize]
    arithmetic wraps at 64 bits, [u32] arithmetic at 32.  The two page-rounding
    functions of the file are those of Elf. *)

From S2P Require Import Prelude Consts Elf ElfDynamic.

Definition PE_DOS_MAGIC : Z := 0x5A4D.
Definition PE_SIGNATURE : Z := 0x00004550.
Definition PE_OPT_MAGIC_PE32PLUS : Z := 0x020B.
Definition PE_MACHINE_AMD64 : Z := 0x8664.
Definition PE_MACHINE_ARM64 : Z := 0xAA64.
Definition IMAGE_SCN_MEM_EXECUTE : Z := 0x20000000.
Definition IMAGE_SCN_MEM_READ : Z := 0x40000000.
Definition IMAGE_SCN_MEM_WRITE : Z := 0x80000000.
Definition IMAGE_SCN_MEM_DISCARDABLE : Z := 0x02000000.
Definition IMAGE_DIRECTORY_ENTRY_IMPORT : Z := 1.
Definition IMAGE_DIRECTORY_ENTRY_BASERELOC : Z := 5.
Definition IMAGE_REL_BASED_ABSOLUTE : Z := 0.
Definition IMAGE_REL_BASED_DIR64 : Z := 10.

Definition PE_OK : Z := 0.
Definition PE_NOT_PE : Z := 20.
Definition PE_NOT_64BIT : Z := 21.
Definition PE_BAD_ARCH : Z := 22.
Definition PE_NO_SECTIONS : Z := 23.
Definition PE_RELOC_FAILED : Z := 24.
Definition PE_OUT_OF_MEMORY : Z := 25.
Definition PE_TOO_SMALL : Z := 26.
Definition PE_MAP_FAILED : Z := 27.
Definition PE_BAD_IMPORT : Z := 28.
Definition PE_PAGE_SIZE : Z := 4096.

Definition MAX_PE_PAGES : nat := 512.
Definition MAX_PE_SECTIONS : Z := 32.
Definition MAX_PE_IMPORTS : nat := 16.
Definition MAX_PE_IMPORT_NAME : nat := 32.

(** ** Structures and how they lie in the file *)

Record DosHeader := mkDos {
  e_magic : Z; e_cblp : Z; e_cp : Z; e_crlc : Z; e_cparhdr : Z; e_minalloc : Z; e_maxalloc : Z;
  e_ss : Z; e_sp : Z; e_csum : Z; e_ip : Z; e_cs : Z; e_lfarlc : Z; e_ovno : Z; e_res : list Z;
  e_oemid : Z; e_oeminfo : Z; e_res2 : list Z; e_lfanew : Z;
}.

Record CoffHeader := mkCoff {
  coff_machine : Z; coff_number_of_sections : Z; coff_time_date_stamp : Z;
  coff_pointer_to_symbol_table : Z; coff_number_of_symbols : Z;
  coff_size_of_optional_header : Z; coff_characteristics : Z;
}.

Record DataDirectory := mkDir { dir_virtual_address : Z; dir_size : Z }.

Definition DataDirectory_zeroed : DataDirectory := mkDir 0 0.

Record OptionalHeader64 := mkOpt {
  opt_magic : Z; opt_major_linker_version : Z; opt_minor_linker_version : Z; opt_size_of_code : Z;
  opt_size_of_initialized_data : Z; opt_size_of_uninitialized_data : Z;
  opt_address_of_entry_point : Z; opt_base_of_code : Z; opt_image_base : Z;
  opt_section_alignment : Z; opt_file_alignment : Z;
  opt_major_os_version : Z; opt_minor_os_version : Z; opt_major_image_version : Z;
  opt_minor_image_version : Z; opt_major_subsystem_version : Z; opt_minor_subsystem_version : Z;
  opt_win32_version_value : Z; opt_size_of_image : Z; opt_size_of_headers : Z; opt_checksum : Z;
  opt_subsystem : Z; opt_dll_characteristics : Z; opt_size_of_stack_reserve : Z;
  opt_size_of_stack_commit : Z; opt_size_of_heap_reserve : Z; opt_size_of_heap_commit : Z;
  opt_loader_flags : Z; opt_number_of_rva_and_sizes : Z;
}.

Record SectionHeader := mkSection {
  sec_name : list Z; sec_virtual_size : Z; sec_virtual_address : Z; sec_size_of_raw_data : Z;
  sec_pointer_to_raw_data : Z; sec_pointer_to_relocations : Z; sec_pointer_to_linenumbers : Z;
  sec_number_of_relocations : Z; sec_number_of_linenumbers : Z; sec_characteristics : Z;
}.

Record ImportDescriptor := mkImport {
  original_first_thunk : Z; imp_time_date_stamp : Z; forwarder_chain : Z; name_rva : Z; first_thunk : Z;
}.

Definition is_null (d : ImportDescriptor) : bool :=
  (original_first_thunk d =? 0) && (name_rva d =? 0) && (first_thunk d =? 0).

Record BaseRelocation := mkReloc { rel_virtual_address : Z; rel_size_of_block : Z }.

Definition SIZEOF_DOS : Z := 64.
Definition SIZEOF_COFF : Z := 20.
Definition SIZEOF_DIR : Z := 8.
Definition SIZEOF_OPT : Z := 112.
Definition SIZEOF_SECTION : Z := 40.
Definition SIZEOF_IMPORT : Z := 20.
Definition SIZEOF_RELOC : Z := 8.

Record PeInfo := mkPeInfo {
  coff_offset : Z; machine : Z; number_of_sections : Z; size_of_optional_header : Z;
  characteristics : Z; entry_point_rva : Z; image_base : Z; section_alignment : Z;
  file_alignment : Z; size_of_image : Z; size_of_headers : Z; number_of_rva_and_sizes : Z;
  section_headers_offset : Z; data_dir_offset : Z;
}.

Record PeImports := mkImports { pi_count : nat; pi_names : list (list Z); pi_lens : list nat }.

Definition PeImports_new : PeImports :=
  mkImports 0 (replicate MAX_PE_IMPORTS (replicate MAX_PE_IMPORT_NAME 0)) (replicate MAX_PE_IMPORTS 0%nat).

Section file.
Context (data : list Z).

Local Abbreviation u8_at := (le_read 1 data).
Local Abbreviation u16_at := (le_read 2 data).
Local Abbreviation u32_at := (le_read 4 data).
Local Abbreviation u64_at := (le_read 8 data).

Definition read_dos : option DosHeader :=
  view_at data SIZEOF_DOS 0 (fun o => mkDos (u16_at o) (u16_at (o + 2)) (u16_at (o + 4)) (u16_at (o + 6))
    (u16_at (o + 8)) (u16_at (o + 10)) (u16_at (o + 12)) (u16_at (o + 14)) (u16_at (o + 16))
    (u16_at (o + 18)) (u16_at (o + 20)) (u16_at (o + 22)) (u16_at (o + 24)) (u16_at (o + 26))
    ((fun i => u16_at (o + 28 + 2 * i)) <$> seq 0 4) (u16_at (o + 36)) (u16_at (o + 38))
    ((fun i => u16_at (o + 40 + 2 * i)) <$> seq 0 10) (u32_at (o + 60))).

Definition read_coff (off : Z) : option CoffHeader :=
  view_at data SIZEOF_COFF off (fun o => mkCoff (u16_at o) (u16_at (o + 2)) (u32_at (o + 4))
    (u32_at (o + 8)) (u32_at (o + 12)) (u16_at (o + 16)) (u16_at (o + 18))).

Definition read_dir (off : Z) : option DataDirectory :=
  view_at data SIZEOF_DIR off (fun o => mkDir (u32_at o) (u32_at (o + 4))).

Definition read_opt (off : Z) : option OptionalHeader64 :=
  view_at data SIZEOF_OPT off (fun o => mkOpt (u16_at o) (u8_at (o + 2)) (u8_at (o + 3)) (u32_at (o + 4))
    (u32_at (o + 8)) (u32_at (o + 12)) (u32_at (o + 16)) (u32_at (o + 20)) (u64_at (o + 24))
    (u32_at (o + 32)) (u32_at (o + 36)) (u16_at (o + 40)) (u16_at (o + 42)) (u16_at (o + 44))
    (u16_at (o + 46)) (u16_at (o + 48)) (u16_at (o + 50)) (u32_at (o + 52)) (u32_at (o + 56))
    (u32_at (o + 60)) (u32_at (o + 64)) (u16_at (o + 68)) (u16_at (o + 70)) (u64_at (o + 72))
    (u64_at (o + 80)) (u64_at (o + 88)) (u64_at (o + 96)) (u32_at (o + 104)) (u32_at (o + 108))).

Definition read_section (off : Z) : option SectionHeader :=
  view_at data SIZEOF_SECTION off (fun o => mkSection (take 8 (drop o data)) (u32_at (o + 8))
    (u32_at (o + 12)) (u32_at (o + 16)) (u32_at (o + 20)) (u32_at (o + 24)) (u32_at (o + 28))
    (u16_at (o + 32)) (u16_at (o + 34)) (u32_at (o + 36))).

Definition read_import (off : Z) : option ImportDescriptor :=
  view_at data SIZEOF_IMPORT off (fun o => mkImport (u32_at o) (u32_at (o + 4)) (u32_at (o + 8))
    (u32_at (o + 12)) (u32_at (o + 16))).

Definition read_reloc (off : Z) : option BaseRelocation :=
  view_at data SIZEOF_RELOC off (fun o => mkReloc (u32_at o) (u32_at (o + 4))).

Definition read_u16 (off : Z) : option Z := view_at data 2 off (fun o => u16_at o).
Definition read_u32 (off : Z) : option Z := view_at data 4 off (fun o => u32_at o).
Definition read_u64 (off : Z) : option Z := view_at data 8 off (fun o => u64_at o).

(** ** Validation *)

(** [inl info] is [PE_OK] with [*info] written, [inr code] an error; [MACHINE]
    is the machine number of the architecture the loader is built for. *)
Definition pe_validate (MACHINE : Z) : option (PeInfo + Z) :=
  if data_len data <? SIZEOF_DOS then Some (inr PE_TOO_SMALL) else
  dos ← read_dos;
  if negb (e_magic dos =? PE_DOS_MAGIC) then Some (inr PE_NOT_PE) else
  let pe_offset := e_lfanew dos in
  if ((pe_offset + 4)%u64 + SIZEOF_COFF)%u64 >? data_len data then Some (inr PE_TOO_SMALL) else
  pe_sig ← read_u32 pe_offset;
  if negb (pe_sig =? PE_SIGNATURE) then Some (inr PE_NOT_PE) else
  let coff_offset := (pe_offset + 4)%u64 in
  coff ← read_coff coff_offset;
  if negb (coff_machine coff =? MACHINE) then Some (inr PE_BAD_ARCH) else
  if coff_number_of_sections coff =? 0 then Some (inr PE_NO_SECTIONS) else
  let opt_offset := (coff_offset + SIZEOF_COFF)%u64 in
  if (opt_offset + SIZEOF_OPT)%u64 >? data_len data then Some (inr PE_TOO_SMALL) else
  opt ← read_opt opt_offset;
  if negb (opt_magic opt =? PE_OPT_MAGIC_PE32PLUS) then Some (inr PE_NOT_64BIT) else
  let data_dir_offset := (opt_offset + SIZEOF_OPT)%u64 in
  let section_headers_offset := (opt_offset + coff_size_of_optional_header coff)%u64 in
  let section_headers_end :=
    (section_headers_offset + (coff_number_of_sections coff * SIZEOF_SECTION)%u64)%u64 in
  if section_headers_end >? data_len data then Some (inr PE_TOO_SMALL) else
  Some (inl (mkPeInfo coff_offset (coff_machine coff) (coff_number_of_sections coff)
    (coff_size_of_optional_header coff) (coff_characteristics coff)
    (opt_address_of_entry_point opt) (opt_image_base opt) (opt_section_alignment opt)
    (opt_file_alignment opt) (opt_size_of_image opt) (opt_size_of_headers opt)
    (opt_number_of_rva_and_sizes opt) section_headers_offset data_dir_offset)).

Definition read_data_dir (info : PeInfo) (index : Z) : option DataDirectory :=
  if index >=? number_of_rva_and_sizes info then Some DataDirectory_zeroed
  else
    let entry_offset := (data_dir_offset info + (index * SIZEOF_DIR)%u64)%u64 in
    if (entry_offset + SIZEOF_DIR)%u64 >? data_len data then Some DataDirectory_zeroed
    else read_dir entry_offset.

(** Enforces W^X: writable wins. *)
Definition section_to_vspace_flags (characteristics : Z) : Z :=
  let flags := VSPACE_FLAG_USER in
  let w := negb (Z.land characteristics IMAGE_SCN_MEM_WRITE =? 0) in
  let x := negb (Z.land characteristics IMAGE_SCN_MEM_EXECUTE =? 0) in
  if w then Z.lor flags VSPACE_FLAG_WRITABLE
  else if x then Z.lor flags VSPACE_FLAG_EXECUTABLE
  else flags.

Definition pe_count_load_pages (MACHINE : Z) : option Z :=
  r ← pe_validate MACHINE;
  match r with
  | inr _ => Some 0
  | inl info => Some (page_align_up (size_of_image info) `div` PE_PAGE_SIZE)
  end.

Definition pe_compute_load_span (MACHINE : Z) : option Z :=
  r ← pe_validate MACHINE;
  match r with
  | inr _ => Some 0
  | inl info => Some (page_align_up (size_of_image info))
  end.

Definition pe_is_pe : option bool :=
  if data_len data <? 2 then Some false
  else magic ← read_u16 0; Some (magic =? PE_DOS_MAGIC).

(** ** Sections *)

(** [for i in i..i+n { if section_headers_offset + i * 40 + 40 > data_len { break } ... }];
    the body faults, continues with a state, or returns from the function. *)
Fixpoint section_loop {S R} (info : PeInfo) (body : S -> SectionHeader -> option (S + R)) (n i : nat) (s : S)
    : option (S + R) :=
  match n with
  | O => Some (inl s)
  | Datatypes.S n' =>
      let sec_offset := (Z.of_nat i * SIZEOF_SECTION)%u64 in
      if ((section_headers_offset info + sec_offset)%u64 + SIZEOF_SECTION)%u64 >? data_len data then Some (inl s)
      else
        sec ← read_section (section_headers_offset info + sec_offset)%u64;
        r ← body s sec;
        match r with
        | inl s' => section_loop info body n' (Datatypes.S i) s'
        | inr r => Some (inr r)
        end
  end.

Definition for_sections {S R} (info : PeInfo) (body : S -> SectionHeader -> option (S + R)) (s : S)
    : option (S + R) :=
  section_loop info body (Z.to_nat (number_of_sections info)) 0 s.

Definition sec_vsize (sec : SectionHeader) : Z :=
  if sec_virtual_size sec >? 0 then sec_virtual_size sec else sec_size_of_raw_data sec.

(** One turn of the search; the inner option is what the function returns. *)
Definition section_offset (rva : Z) (sec : SectionHeader) : option (option Z) :=
  let sec_va := sec_virtual_address sec in
  if (rva >=? sec_va) && (rva <? as_u32 (sec_va + sec_vsize sec)) then
    let offset_within := rva - sec_va in
    Some (if offset_within <? sec_size_of_raw_data sec then
            let file_off := (sec_pointer_to_raw_data sec + offset_within)%u64 in
            if file_off <? data_len data then Some file_off else None
          else None)
  else None.

Definition rva_to_file_offset (info : PeInfo) (rva : Z) : option (option Z) :=
  if rva <? size_of_headers info then Some (Some rva)
  else
    r ← for_sections info (fun (_ : unit) sec =>
          Some (match section_offset rva sec with Some r => inr r | None => inl tt end)) tt;
    Some (match r with inl _ => None | inr r => r end).

(** ** Imported DLLs *)

(** [while name_off + len < data_len && *name_ptr.add(len) != 0 && len < MAX]. *)
Fixpoint import_name_len (fuel : nat) (off len : Z) : option Z :=
  match fuel with
  | O => None
  | S fuel' =>
      if (off + len)%u64 <? data_len data then
        b ← read_byte data (off + len)%u64;
        if negb (b =? 0) && (len <? Z.of_nat MAX_PE_IMPORT_NAME) then import_name_len fuel' off (len + 1)
        else Some len
      else Some len
  end.

Definition push_import (imports : PeImports) (name : list Z) : PeImports :=
  let idx := pi_count imports in
  mkImports (idx + 1) (alter (fun row => copy_from_slice row name) idx (pi_names imports))
    (<[idx := length name]> (pi_lens imports)).

(** The [loop] over the descriptors. *)
Fixpoint imports_from (fuel : nat) (info : PeInfo) (pos : Z) (result : PeImports) : option PeImports :=
  match fuel with
  | O => None
  | S fuel' =>
      if (pos + SIZEOF_IMPORT)%u64 >? data_len data then Some result
      else
        desc ← read_import pos;
        if is_null desc then Some result
        else if (MAX_PE_IMPORTS <=? pi_count result)%nat then Some result
        else
          o ← rva_to_file_offset info (name_rva desc);
          result ← (match o with
                    | Some name_off =>
                        len ← import_name_len (S (S MAX_PE_IMPORT_NAME)) name_off 0;
                        if len >? 0 then
                          name ← read_name data name_off len;
                          Some (push_import result name)
                        else Some result
                    | None => Some result
                    end);
          imports_from fuel' info (pos + SIZEOF_IMPORT)%u64 result
  end.

Definition pe_get_imports (info : PeInfo) : option PeImports :=
  import_dir ← read_data_dir info IMAGE_DIRECTORY_ENTRY_IMPORT;
  if (dir_virtual_address import_dir =? 0) || (dir_size import_dir =? 0) then Some PeImports_new
  else
    o ← rva_to_file_offset info (dir_virtual_address import_dir);
    match o with
    | None => Some PeImports_new
    | Some import_file_off => imports_from (S (length data)) info import_file_off PeImports_new
    end.
End file.
