(* ===== verification/PeLoad.v ===== *)
(** The PE loader proper ([src/loader/pe_loader.rs]): headers and sections are
    copied page by page into frames, base relocations are applied to the frames,
    and import tables are filled in.

    It runs over the same machine ([Vm]), context ([LoaderEnv], [Loader]) and
    scratch page as the ELF loader.  [PePageEntry] has the fields of
    [ElfPageEntry]; the context and the table of pages are carried in a
    [Progress], whose break the PE loader does not use.  [None] is a fault, or a
    loop that runs out of fuel. *)

From S2P Require Import Prelude Consts Elf Vm ElfLoad ElfDynamic Pe.

Abbreviation PePageEntry := ElfPageEntry.

Record PeLoadResult := mkPeResult { pe_entry : Z; pe_base : Z; pe_image_end : Z }.

(** A byte load by a thread of [vspace]: a fault if nothing is mapped there. *)
Definition load_byte `{Vm} (s : vm) (vspace : Cap) (a : Z) : option Z :=
  m ← vm_map s vspace (page_align_down a);
  c ← vm_frame s m.1;
  c !! Z.to_nat (a - page_align_down a).

Section loader.
Context `{Vm} (env : LoaderEnv).

(** ** One page *)

(** The page is already there: copy more data and widen its permissions. *)
Definition map_existing_page (data : list Z) (page_vaddr : Z) (w : Z * Z * Z) (flags : Z)
    (j : nat) (e : PePageEntry) (pr : Progress) : option (Progress + Z * Loader) :=
  let '(src_file_off, dst_page_off, copy_len) := w in
  let ld := pr_ld pr in
  s ← (if fits data src_file_off copy_len then
         let '(err, s) := map_scratch env (ld_vm ld) (pg_frame_cap e) in
         if err =? 0 then unmap_scratch env <$> copy_in env data src_file_off dst_page_off copy_len s
         else Some s
       else Some (ld_vm ld));
  let merged := merge_flags (pg_flags e) flags in
  if merged =? pg_flags e then Some (inl (mkProgress _ (set_vm ld s) (pr_pages pr) (pr_brk pr)))
  else
    let '(_, s) := vspace_unmap s (child_vspace env) page_vaddr in
    let '(err, s) := vspace_map s (child_vspace env) (pg_frame_cap e) page_vaddr merged in
    if negb (err =? 0) then Some (inr (PE_MAP_FAILED, set_vm ld s))
    else
      let pages := <[j := mkPage (pg_vaddr e) (pg_frame_cap e) merged]> (pr_pages pr) in
      Some (inl (mkProgress _ (set_vm ld s) pages (pr_brk pr))).

Definition try_retype_frame (ld : Loader) (frame_slot : Cap) : Z * Loader :=
  let '(err, s) := untyped_retype (ld_vm ld) (ld_untyped ld) OBJ_FRAME 0 frame_slot in (err, set_vm ld s).

(** A slot with a frame in it, or the code to return. *)
Definition new_pe_frame (ld : Loader) : (Cap + Z) * Loader :=
  let '(frame_slot, ld) := next_frame_slot env ld in
  if (frame_slot =? U64_MAX) || (frame_slot =? 0) then (inr PE_OUT_OF_MEMORY, ld)
  else if ld_untyped ld =? 0 then (inl frame_slot, ld)
  else
    let '(err, ld) := try_retype_frame ld frame_slot in
    (if err =? 0 then inl frame_slot else inr PE_OUT_OF_MEMORY, ld).

Definition map_new_page (data : list Z) (page_vaddr : Z) (w : Z * Z * Z) (flags : Z) (pr : Progress)
    : option (Progress + Z * Loader) :=
  let '(src_file_off, dst_page_off, copy_len) := w in
  if (MAX_PE_PAGES <=? length (pr_pages pr))%nat then Some (inr (PE_OUT_OF_MEMORY, pr_ld pr))
  else
    match new_pe_frame (pr_ld pr) with
    | (inr code, ld) => Some (inr (code, ld))
    | (inl frame_slot, ld) =>
        let '(err, s) := map_scratch env (ld_vm ld) frame_slot in
        if negb (err =? 0) then Some (inr (PE_MAP_FAILED, set_vm ld s))
        else
          s ← zero_page env s;
          s ← (if fits data src_file_off copy_len then copy_in env data src_file_off dst_page_off copy_len s
               else Some s);
          let s := unmap_scratch env s in
          let '(err, s) := vspace_map s (child_vspace env) frame_slot page_vaddr flags in
          if negb (err =? 0) then Some (inr (PE_MAP_FAILED, set_vm ld s))
          else
            let pages := pr_pages pr ++ [mkPage page_vaddr frame_slot flags] in
            let '(err, s) := record_page_map env s page_vaddr frame_slot flags in
            if negb (err =? 0) then Some (inr (PE_OUT_OF_MEMORY, set_vm ld s))
            else Some (inl (mkProgress _ (set_vm ld s) pages (pr_brk pr)))
    end.

(** [w] is (src_file_off, dst_page_off, copy_len). *)
Definition map_pe_page_raw (data : list Z) (page_vaddr : Z) (w : Z * Z * Z) (flags : Z) (pr : Progress)
    : option (Progress + Z * Loader) :=
  match find_page (pr_pages pr) page_vaddr with
  | Some j => e ← pr_pages pr !! j; map_existing_page data page_vaddr w flags j e pr
  | None => map_new_page data page_vaddr w flags pr
  end.

Definition map_pe_page (data : list Z) (page_vaddr file_offset max_copy flags : Z) (pr : Progress)
    : option (Progress + Z * Loader) :=
  let copy_len :=
    if file_offset <? data_len data then
      let avail := data_len data - file_offset in
      let clamped := if avail <? max_copy then avail else max_copy in
      if clamped >? PE_PAGE_SIZE then PE_PAGE_SIZE else clamped
    else 0 in
  map_pe_page_raw data page_vaddr (file_offset, 0, copy_len) flags pr.

(** ** Headers and sections *)

(** [while page_vaddr < limit { body(page_vaddr)?; page_vaddr += PE_PAGE_SIZE }]. *)
Fixpoint while_pages (body : Z -> Progress -> option (Progress + Z * Loader)) (fuel : nat)
    (limit page_vaddr : Z) (pr : Progress) : option (Progress + Z * Loader) :=
  match fuel with
  | O => None
  | S fuel' =>
      if page_vaddr <? limit then
        r ← body page_vaddr pr;
        match r with
        | inl pr => while_pages body fuel' limit (page_vaddr + PE_PAGE_SIZE)%u64 pr
        | inr ret => Some (inr ret)
        end
      else Some (inl pr)
  end.

Definition page_fuel : nat := S (S MAX_PE_PAGES).

Definition map_headers (data : list Z) (info : PeInfo) (load_base : Z) (pr : Progress)
    : option (Progress + Z * Loader) :=
  let headers_end := page_align_up (size_of_headers info) in
  while_pages (fun page_vaddr =>
      map_pe_page data page_vaddr (page_vaddr - load_base)%u64 PE_PAGE_SIZE VSPACE_FLAG_USER)
    page_fuel (load_base + headers_end)%u64 load_base pr.

(** The part of the file that lands on a page. *)
Definition section_window (load_base : Z) (sec : SectionHeader) (pv : Z) : Z * Z * Z :=
  let sec_rva := sec_virtual_address sec in
  let page_rva := (pv - load_base)%u64 in
  let page_end_rva := (page_rva + PE_PAGE_SIZE)%u64 in
  let file_copy_start_rva := if page_rva >? sec_rva then page_rva else sec_rva in
  let file_data_end_rva := (sec_rva + sec_size_of_raw_data sec)%u64 in
  let file_copy_end_rva := if page_end_rva <? file_data_end_rva then page_end_rva else file_data_end_rva in
  if file_copy_start_rva <? file_copy_end_rva then
    ((sec_pointer_to_raw_data sec + (file_copy_start_rva - sec_rva))%u64,
     file_copy_start_rva - page_rva, file_copy_end_rva - file_copy_start_rva)
  else (0, 0, 0).

Definition discardable (sec : SectionHeader) : bool :=
  negb (Z.land (sec_characteristics sec) IMAGE_SCN_MEM_DISCARDABLE =? 0).

Definition map_section (data : list Z) (load_base : Z) (pr : Progress) (sec : SectionHeader)
    : option (Progress + Z * Loader) :=
  if discardable sec then Some (inl pr)
  else if sec_vsize sec =? 0 then Some (inl pr)
  else
    let sec_vaddr_start := (load_base + sec_virtual_address sec)%u64 in
    let sec_page_start := page_align_down sec_vaddr_start in
    let sec_page_end := page_align_up (sec_vaddr_start + sec_vsize sec)%u64 in
    let flags := section_to_vspace_flags (sec_characteristics sec) in
    while_pages (fun pv => map_pe_page_raw data pv (section_window load_base sec pv) flags)
      page_fuel sec_page_end sec_page_start pr.

(** ** Writing a word through the scratch page *)

Definition write_u64_to_page (s : vm) (frame_cap : Cap) (page_offset value : Z) (additive : bool)
    : option (Z * vm) :=
  let '(err, s) := map_scratch env s frame_cap in
  if negb (err =? 0) then Some (err, s)
  else
    v ← (if additive then
           old ← mapM (fun k => load_byte s (self_vspace env) (scratch_vaddr env + (page_offset + Z.of_nat k)%u64)%u64)
                   (seq 0 8);
           Some (le_value old + value)%u64
         else Some value);
    s ← store_loop env 8 0 page_offset (fun k => le_bytes 8 v !! Z.to_nat k) s;
    Some (0, unmap_scratch env s).

(** ** Base relocations *)

(** [for i in i..i+n] over the entries of a block. *)
Fixpoint reloc_entries (n : nat) (i : Z) (data : list Z) (entries_off block_page_rva delta load_base : Z)
    (pages : list PePageEntry) (s : vm) : option (Z * vm) :=
  match n with
  | O => Some (PE_OK, s)
  | S n' =>
      entry ← read_u16 data (entries_off + 2 * i)%u64;
      let reloc_type := Z.shiftr entry 12 in
      let offset := Z.land entry 0x0FFF in
      let next := reloc_entries n' (i + 1) data entries_off block_page_rva delta load_base pages in
      if reloc_type =? IMAGE_REL_BASED_ABSOLUTE then next s
      else if reloc_type =? IMAGE_REL_BASED_DIR64 then
        let target_rva := (block_page_rva + offset)%u64 in
        let target_vaddr := (load_base + target_rva)%u64 in
        let target_page := page_align_down target_vaddr in
        let page_offset := target_vaddr - target_page in
        match find_page pages target_page ≫= (pages !!.) with
        | Some p =>
            r ← write_u64_to_page s (pg_frame_cap p) page_offset delta true;
            let '(err, s) := r in
            if negb (err =? 0) then Some (PE_RELOC_FAILED, s) else next s
        | None => Some (PE_RELOC_FAILED, s)
        end
      else next s
  end.

(** [while pos + 8 <= reloc_end]. *)
Fixpoint reloc_blocks (fuel : nat) (data : list Z) (reloc_end pos delta load_base : Z)
    (pages : list PePageEntry) (s : vm) : option (Z * vm) :=
  match fuel with
  | O => None
  | S fuel' =>
      if (pos + SIZEOF_RELOC)%u64 <=? reloc_end then
        block ← read_reloc data pos;
        if rel_size_of_block block =? 0 then Some (PE_OK, s)
        else if rel_size_of_block block <? SIZEOF_RELOC then Some (PE_RELOC_FAILED, s)
        else
          let entry_count := (rel_size_of_block block - SIZEOF_RELOC) `div` 2 in
          r ← reloc_entries (Z.to_nat entry_count) 0 data (pos + SIZEOF_RELOC)%u64 (rel_virtual_address block)
                delta load_base pages s;
          let '(err, s) := r in
          if negb (err =? PE_OK) then Some (err, s)
          else
            let pos := (pos + rel_size_of_block block)%u64 in
            let pos := Z.land (pos + 3)%u64 (bnot 64 3) in
            reloc_blocks fuel' data reloc_end pos delta load_base pages s
      else Some (PE_OK, s)
  end.

Definition pe_relocate (data : list Z) (info : PeInfo) (delta load_base : Z) (pages : list PePageEntry) (s : vm)
    : option (Z * vm) :=
  reloc_dir ← read_data_dir data info IMAGE_DIRECTORY_ENTRY_BASERELOC;
  if (dir_virtual_address reloc_dir =? 0) || (dir_size reloc_dir =? 0) then Some (PE_OK, s)
  else
    o ← rva_to_file_offset data info (dir_virtual_address reloc_dir);
    match o with
    | None => Some (PE_RELOC_FAILED, s)
    | Some reloc_file_off =>
        let reloc_end := (reloc_file_off + dir_size reloc_dir)%u64 in
        if reloc_end >? data_len data then Some (PE_RELOC_FAILED, s)
        else reloc_blocks (S (length data)) data reloc_end reloc_file_off delta load_base pages s
    end.

(** ** [pe_load] *)

(** The returned code, [*result] if it was written, and the loader's state. *)
Definition pe_load (MACHINE : Z) (data : list Z) (load_base : Z) (ld : Loader)
    : option (Z * option PeLoadResult * Loader) :=
  v ← pe_validate data MACHINE;
  match v with
  | inr err => Some (err, None, ld)
  | inl info =>
      if number_of_sections info >? MAX_PE_SECTIONS then Some (PE_NO_SECTIONS, None, ld) else
      let delta := (load_base - image_base info)%u64 in
      let image_end := (load_base + page_align_up (size_of_image info))%u64 in
      h ← map_headers data info load_base (mkProgress _ ld [] 0);
      match h with
      | inr (code, ld) => Some (code, None, ld)
      | inl pr =>
          r ← for_sections data info (map_section data load_base) pr;
          match r with
          | inr (code, ld) => Some (code, None, ld)
          | inl pr =>
              r ← (if negb (delta =? 0)
                   then pe_relocate data info delta load_base (pr_pages pr) (ld_vm (pr_ld pr))
                   else Some (PE_OK, ld_vm (pr_ld pr)));
              let '(err, s) := r in
              if negb (err =? PE_OK) then Some (err, None, set_vm (pr_ld pr) s)
              else Some (PE_OK, Some (mkPeResult (load_base + entry_point_rva info)%u64 load_base image_end),
                         set_vm (pr_ld pr) s)
          end
      end
  end.

(** ** Imports *)

(** What an entry of a lookup table asks for: the function's name, if it has
    one, and the ordinal. *)
Definition import_symbol (data : list Z) (info : PeInfo) (ilt_entry : Z) : option (option (list Z) * Z) :=
  if negb (Z.land ilt_entry (Z.shiftl 1 63) =? 0) then Some (None, Z.land ilt_entry 0xFFFF)
  else
    o ← rva_to_file_offset data info (Z.land ilt_entry 0x7FFFFFFF);
    match o with
    | Some hint_off =>
        let name_start := (hint_off + 2)%u64 in
        if name_start <? data_len data then
          fnl ← name_len data (S (length data)) name_start 0;
          name ← read_name data name_start fnl;
          Some (Some name, 0)
        else Some (None, 0)
    | None => Some (None, 0)
    end.

(** [resolve_fn] with its opaque pointer is a function of the machine's state. *)
Context (resolve_fn : vm -> list Z -> option (list Z) -> Z -> Z * vm).

(** The inner [loop], over the entries of one lookup table. *)
Fixpoint resolve_entries (fuel : nat) (data : list Z) (info : PeInfo) (load_base : Z) (dll_name : list Z)
    (ilt_file_off iat_rva entry_idx : Z) (pages : list PePageEntry) (s : vm) : option (Z * vm) :=
  match fuel with
  | O => None
  | S fuel' =>
      let ilt_entry_off := (ilt_file_off + (entry_idx * 8)%u64)%u64 in
      if (ilt_entry_off + 8)%u64 >? data_len data then Some (PE_OK, s)
      else
        ilt_entry ← read_u64 data ilt_entry_off;
        if ilt_entry =? 0 then Some (PE_OK, s)
        else
          sym ← import_symbol data info ilt_entry;
          let '(func_name, ordinal) := sym in
          let '(resolved_addr, s) := resolve_fn s dll_name func_name ordinal in
          let iat_entry_rva := (iat_rva + (entry_idx * 8)%u64)%u64 in
          let iat_vaddr := (load_base + iat_entry_rva)%u64 in
          let iat_page := page_align_down iat_vaddr in
          let iat_page_off := iat_vaddr - iat_page in
          match find_page pages iat_page ≫= (pages !!.) with
          | Some p =>
              r ← write_u64_to_page s (pg_frame_cap p) iat_page_off resolved_addr false;
              let '(err, s) := r in
              if negb (err =? 0) then Some (PE_BAD_IMPORT, s)
              else resolve_entries fuel' data info load_base dll_name ilt_file_off iat_rva (entry_idx + 1) pages s
          | None => Some (PE_BAD_IMPORT, s)
          end
  end.

Definition resolve_dll (data : list Z) (info : PeInfo) (load_base : Z) (desc : ImportDescriptor)
    (pages : list PePageEntry) (s : vm) : option (Z * vm) :=
  o ← rva_to_file_offset data info (name_rva desc);
  match o with
  | None => Some (PE_OK, s)
  | Some name_off =>
      dll_name_len ← name_len data (S (length data)) name_off 0;
      dll_name ← read_name data name_off dll_name_len;
      let ilt_rva := if negb (original_first_thunk desc =? 0) then original_first_thunk desc else first_thunk desc in
      o ← rva_to_file_offset data info ilt_rva;
      match o with
      | None => Some (PE_OK, s)
      | Some ilt_file_off =>
          resolve_entries (S (length data)) data info load_base dll_name ilt_file_off (first_thunk desc) 0 pages s
      end
  end.

(** The outer [loop], over the descriptors. *)
Fixpoint resolve_from (fuel : nat) (data : list Z) (info : PeInfo) (load_base pos : Z)
    (pages : list PePageEntry) (s : vm) : option (Z * vm) :=
  match fuel with
  | O => None
  | S fuel' =>
      if (pos + SIZEOF_IMPORT)%u64 >? data_len data then Some (PE_OK, s)
      else
        desc ← read_import data pos;
        if is_null desc then Some (PE_OK, s)
        else
          r ← resolve_dll data info load_base desc pages s;
          let '(err, s) := r in
          if negb (err =? PE_OK) then Some (err, s)
          else resolve_from fuel' data info load_base (pos + SIZEOF_IMPORT)%u64 pages s
  end.

Definition pe_resolve_imports (data : list Z) (info : PeInfo) (load_base : Z) (pages : list PePageEntry) (s : vm)
    : option (Z * vm) :=
  import_dir ← read_data_dir data info IMAGE_DIRECTORY_ENTRY_IMPORT;
  if (dir_virtual_address import_dir =? 0) || (dir_size import_dir =? 0) then Some (PE_OK, s)
  else
    o ← rva_to_file_offset data info (dir_virtual_address import_dir);
    match o with
    | None => Some (PE_BAD_IMPORT, s)
    | Some import_file_off => resolve_from (S (length data)) data info load_base import_file_off pages s
    end.
End loader.
