(* ===== verification/PeImage.v ===== *)
(** What loading a PE file means: its headers and the sections it keeps are
    segments of an image in the sense of ElfImage, and base relocation adds the
    displacement to the words its tables name.

    A section occupies whole pages; file data beyond its virtual size is visible
    up to the end of its last page. *)

From stdpp Require Import gmap.
From S2P Require Import Prelude Consts Elf Vm ElfLoad ElfImage ElfDynamic Pe PeLoad.

(** ** Segments *)

Definition sec_filesz (sec : SectionHeader) : Z :=
  Z.min (sec_size_of_raw_data sec)
    (page_align_up (sec_virtual_address sec + sec_vsize sec) - sec_virtual_address sec).

Definition sec_pf (sec : SectionHeader) : Z :=
  Z.lor (if Z.land (sec_characteristics sec) IMAGE_SCN_MEM_WRITE =? 0 then 0 else PF_W)
    (if Z.land (sec_characteristics sec) IMAGE_SCN_MEM_EXECUTE =? 0 then 0 else PF_X).

Definition sec_segment (sec : SectionHeader) : Elf64Phdr :=
  mkPhdr PT_LOAD (sec_pf sec) (sec_pointer_to_raw_data sec) (sec_virtual_address sec) 0
    (sec_filesz sec) (Z.max (sec_vsize sec) (sec_filesz sec)) 0.

(** The headers are mapped read-only from the start of the file. *)
Definition hdr_segment (data : list Z) (info : PeInfo) : Elf64Phdr :=
  let headers_end := page_align_up (size_of_headers info) in
  mkPhdr PT_LOAD PF_R 0 0 0 (Z.min (data_len data) headers_end) headers_end 0.

(** The section headers the loops visit, and the sections that are loaded. *)
Fixpoint sections_from (data : list Z) (info : PeInfo) (n i : nat) : list SectionHeader :=
  match n with
  | O => []
  | S n' =>
      match read_section data (section_headers_offset info + Z.of_nat i * SIZEOF_SECTION) with
      | Some sec => sec :: sections_from data info n' (S i)
      | None => []
      end
  end.

Definition sections (data : list Z) (info : PeInfo) : list SectionHeader :=
  sections_from data info (Z.to_nat (number_of_sections info)) 0.

Definition loaded (sec : SectionHeader) : bool := negb (discardable sec) && negb (sec_vsize sec =? 0).

Definition pe_segments (data : list Z) (info : PeInfo) : list Elf64Phdr :=
  hdr_segment data info :: (sec_segment <$> List.filter loaded (sections data info)).

(** ** Relocation *)

(** The blocks of a relocation table: page and entries. *)
Fixpoint blocks_from (fuel : nat) (data : list Z) (reloc_end pos : Z) : option (list (Z * list Z)) :=
  match fuel with
  | O => None
  | S fuel' =>
      if pos + SIZEOF_RELOC <=? reloc_end then
        block ← read_reloc data pos;
        if rel_size_of_block block =? 0 then Some []
        else if rel_size_of_block block <? SIZEOF_RELOC then None
        else
          entries ← mapM (fun i : nat => read_u16 data (pos + SIZEOF_RELOC + 2 * Z.of_nat i))
            (seq 0 (Z.to_nat ((rel_size_of_block block - SIZEOF_RELOC) `div` 2)));
          rest ← blocks_from fuel' data reloc_end ((pos + rel_size_of_block block + 3) `div` 4 * 4);
          Some ((rel_virtual_address block, entries) :: rest)
      else Some []
  end.

(** The words a block names, by relative address. *)
Definition block_targets (b : Z * list Z) : list Z :=
  (fun entry => b.1 + entry mod 4096) <$> List.filter (fun entry => entry `div` 4096 =? IMAGE_REL_BASED_DIR64) b.2.

Definition pe_reloc_targets (data : list Z) (info : PeInfo) : option (list Z) :=
  dir ← read_data_dir data info IMAGE_DIRECTORY_ENTRY_BASERELOC;
  if (dir_virtual_address dir =? 0) || (dir_size dir =? 0) then Some []
  else
    o ← rva_to_file_offset data info (dir_virtual_address dir);
    off ← o;
    if off + dir_size dir <=? data_len data then
      bs ← blocks_from (S (length data)) data (off + dir_size dir) off;
      Some (concat (block_targets <$> bs))
    else None.

Definition get64 (c : list Z) (off : nat) : Z := le_read 8 c off.

(** The word at [a] of the image gains [delta]. *)
Definition adjust64 (delta : Z) (im : image) (a : Z) : image :=
  alter (fun '(c, fl) =>
      let off := Z.to_nat (a - page_align_down a) in (put64 c off (get64 c off + delta)%u64, fl))
    (page_align_down a) im.

Definition rebase (delta load_base : Z) (im : image) (rvas : list Z) : image :=
  foldl (adjust64 delta) im ((fun rva => load_base + rva) <$> rvas).

(** A word at [a] lies inside one page of the image. *)
Definition word_in (im : image) (a : Z) : bool :=
  (a - page_align_down a <=? 4088) &&
  match im !! page_align_down a with Some _ => true | None => false end.

(** ** What a file means *)

Definition pe_info (MACHINE : Z) (data : list Z) : option PeInfo :=
  match pe_validate data MACHINE with Some (inl info) => Some info | _ => None end.

Definition pe_delta (info : PeInfo) (load_base : Z) : Z := (load_base - image_base info)%u64.

Definition pe_result (info : PeInfo) (load_base : Z) : PeLoadResult :=
  mkPeResult (load_base + entry_point_rva info) load_base (load_base + page_align_up (size_of_image info)).

Definition pe_image (MACHINE : Z) (data : list Z) (load_base : Z) : option (image * PeLoadResult) :=
  info ← pe_info MACHINE data;
  let im := seg_image data load_base (pe_segments data info) in
  rvas ← (if pe_delta info load_base =? 0 then Some [] else pe_reloc_targets data info);
  Some (rebase (pe_delta info load_base) load_base im rvas, pe_result info load_base).

(** The file data of a section is in the file. *)
Definition sec_in_file (data : list Z) (sec : SectionHeader) : bool :=
  sec_pointer_to_raw_data sec + sec_filesz sec <=? data_len data.

Definition bytes_ok (data : list Z) : Prop := Forall (fun b => 0 <= b < 256) data.

(** A file the loader must accept, when it is to be placed at [load_base]. *)
Record valid_pe (MACHINE : Z) (data : list Z) (load_base : Z) (info : PeInfo) : Prop := {
  vp_bytes : bytes_ok data;
  vp_len : data_len data < 2 ^ 63;
  vp_info : pe_validate data MACHINE = Some (inl info);
  vp_sections : number_of_sections info <= MAX_PE_SECTIONS;
  vp_base : 0 <= load_base /\ load_base mod 4096 = 0 /\ load_base + 2 ^ 34 <= 2 ^ 64;
  vp_data : forallb (sec_in_file data) (List.filter loaded (sections data info)) = true;
  vp_relocs : pe_delta info load_base <> 0 ->
    exists rvas, pe_reloc_targets data info = Some rvas /\
      forallb (word_in (seg_image data load_base (pe_segments data info)))
        ((fun rva => load_base + rva) <$> rvas) = true;
}.
