(* ===== verification/PeRefine.v ===== *)
(** The PE loader refines the image of PeImage, with the simulation of VmSim. *)

From stdpp Require Import gmap.
From S2P Require Import Prelude Consts Elf Vm ElfLoad ElfImage VmSim ElfDynamic Pe PeLoad PeImage.

(** ** Validation stays inside the file *)

Section validate.
Context (data : list Z) (Hb : bytes_ok data) (Hlen : data_len data < 2 ^ 63).

Lemma u16_range off : 0 <= le_read 2 data off < 2 ^ 16.
Proof. apply (le_read_range 2 data off Hb). Qed.
Lemma u32_range off : 0 <= le_read 4 data off < 2 ^ 32.
Proof. apply (le_read_range 4 data off Hb). Qed.
Lemma u64_range off : 0 <= le_read 8 data off < 2 ^ 64.
Proof. apply (le_read_range 8 data off Hb). Qed.

Lemma view_at_in {T} size off (f : nat -> T) :
  0 <= off -> off + size <= data_len data -> view_at data size off f = Some (f (Z.to_nat off)).
Proof. intros. unfold view_at. destruct ((0 <=? off) && _) eqn:E; [done|]. apply andb_false_iff in E. lia. Qed.

(** What a successful validation tells: the fields have their widths, and the
    section headers lie in the file. *)
Record info_ok (info : PeInfo) : Prop := {
  io_sections : 0 < number_of_sections info < 2 ^ 16;
  io_headers : 0 <= section_headers_offset info /\
    section_headers_offset info + number_of_sections info * SIZEOF_SECTION <= data_len data;
  io_dirs : 0 <= data_dir_offset info < 2 ^ 63 /\ 0 <= number_of_rva_and_sizes info < 2 ^ 32;
  io_size_of_headers : 0 <= size_of_headers info < 2 ^ 32;
  io_size_of_image : 0 <= size_of_image info < 2 ^ 32;
  io_entry : 0 <= entry_point_rva info < 2 ^ 32;
  io_base : u64 (image_base info);
}.

Lemma pe_validate_returns M :
  exists r, pe_validate data M = Some r /\ match r with inl info => info_ok info | inr code => code <> PE_OK end.
Proof.
  unfold pe_validate. case_if; [by eexists|]. unfold read_dos, SIZEOF_DOS in *.
  rewrite view_at_in by lia. cbn [mbind option_bind]. case_if; [by eexists|].
  cbn [e_lfanew]. pose proof (u32_range (Z.to_nat 0 + 60)) as Hl. set (lf := le_read 4 data _) in *. clearbody lf.
  unfold SIZEOF_COFF, SIZEOF_OPT, SIZEOF_SECTION in *.
  rewrite (wrap_small 64 (lf + 4)), (wrap_small 64 (lf + 4 + 20)) by lia. case_if; [by eexists|].
  unfold read_u32, read_coff, SIZEOF_COFF. rewrite !view_at_in by lia. cbn [mbind option_bind].
  do 3 (case_if; [by eexists|]). cbn [coff_number_of_sections coff_size_of_optional_header] in *.
  rewrite (wrap_small 64 (lf + 4 + 20 + 112)) by lia. case_if; [by eexists|].
  unfold read_opt, SIZEOF_OPT. rewrite view_at_in by lia. cbn [mbind option_bind]. case_if; [by eexists|].
  set (o := Z.to_nat (lf + 4)) in *. pose proof (u16_range (o + 2)). pose proof (u16_range (o + 16)).
  rewrite (wrap_small 64 (lf + 4 + 20 + _)), (wrap_small 64 (_ * 40)), (wrap_small 64 (_ + _ * 40)) by lia.
  case_if; [by eexists|]. eexists. split; [done|].
  split; cbn -[le_read]; unfold SIZEOF_SECTION; try lia; try apply u32_range; try apply u64_range.
  split; [lia|apply u32_range].
Qed.

Lemma pe_validate_ok M info : pe_validate data M = Some (inl info) -> info_ok info.
Proof. intros E. destruct (pe_validate_returns M) as (r & Hr & H). rewrite E in Hr. by injection Hr as <-. Qed.

(** ** Sections *)

Context (info : PeInfo) (Hi : info_ok info).

Lemma section_loop_run {S R} (body : S -> SectionHeader -> option (S + R)) n i s :
  Z.of_nat (n + i) <= number_of_sections info ->
  section_loop data info body n i s = run_phdrs body (sections_from data info n i) s.
Proof.
  pose proof (io_sections _ Hi). pose proof (io_headers _ Hi) as [Ho He]. unfold SIZEOF_SECTION in He.
  revert i s. induction n as [|n IH]; intros i s Hn; [done|]. cbn [section_loop sections_from].
  unfold SIZEOF_SECTION. rewrite (wrap_small 64 (Z.of_nat i * 40)) by lia.
  rewrite (wrap_small 64 (section_headers_offset info + _)), (wrap_small 64 (_ + 40)) by lia.
  case_if; [lia|]. unfold read_section, SIZEOF_SECTION. rewrite view_at_in by lia. cbn [mbind option_bind run_phdrs].
  destruct (body _ _) as [[s'|r]|]; simpl; try done. apply IH. lia.
Qed.

Lemma for_sections_run {S R} (body : S -> SectionHeader -> option (S + R)) s :
  for_sections data info body s = run_phdrs body (sections data info) s.
Proof. apply section_loop_run. pose proof (io_sections _ Hi). lia. Qed.

Definition sec_ranges (sec : SectionHeader) : Prop :=
  0 <= sec_virtual_size sec < 2 ^ 32 /\ 0 <= sec_virtual_address sec < 2 ^ 32 /\
  0 <= sec_size_of_raw_data sec < 2 ^ 32 /\ 0 <= sec_pointer_to_raw_data sec < 2 ^ 32 /\
  0 <= sec_characteristics sec < 2 ^ 32.

Lemma sections_ranges : Forall sec_ranges (sections data info).
Proof.
  unfold sections. generalize (Z.to_nat (number_of_sections info)), 0%nat. intros n. induction n as [|n IH]; intros i; simpl; [constructor|].
  destruct (read_section data _) as [sec|] eqn:E; [|constructor]. constructor; [|apply IH].
  apply view_at_Some in E as (_ & _ & ->). split_and!; apply u32_range.
Qed.

Lemma read_data_dir_returns index :
  0 <= index < 16 -> exists dir, read_data_dir data info index = Some dir /\
    0 <= dir_virtual_address dir < 2 ^ 32 /\ 0 <= dir_size dir < 2 ^ 32.
Proof.
  intros Hx. pose proof (io_dirs _ Hi). unfold read_data_dir, SIZEOF_DIR. case_if; [by eexists|].
  rewrite (wrap_small 64 (index * 8)) by lia.
  rewrite (wrap_small 64 (data_dir_offset info + index * 8)), (wrap_small 64 (data_dir_offset info + index * 8 + 8)) by lia.
  case_if; [by eexists|]. unfold read_dir, SIZEOF_DIR. rewrite view_at_in by lia. eexists. split; [done|]. split; apply u32_range.
Qed.

(** [rva_to_file_offset] returns, and the offset is in the file unless the
    address is in the headers. *)
Lemma rva_to_file_offset_returns rva :
  0 <= rva < 2 ^ 32 ->
  exists o, rva_to_file_offset data info rva = Some o /\
    match o with
    | Some off => 0 <= off < 2 ^ 33 /\ (off < data_len data \/ (off = rva /\ rva < size_of_headers info))
    | None => True
    end.
Proof.
  intros Hr. unfold rva_to_file_offset. case_if; [eexists; split; [done|]; cbn; lia|]. rewrite for_sections_run.
  pose proof sections_ranges as Hs. induction Hs as [|sec l Hsec _ IH]; cbn [run_phdrs]; [by eexists|].
  cbn [mbind option_bind]. destruct (section_offset data rva sec) as [o|] eqn:E; [|apply IH].
  eexists. split; [done|]. unfold section_offset in E. case_if; [|done]. injection E as <-.
  destruct Hsec as (? & ? & ? & ? & ?). case_if; [|done]. rewrite wrap_small by lia. case_if; [|done]. lia.
Qed.
End validate.

(** ** Headers and sections as segments *)

Lemma page_align_up_in x e : 0 <= x -> e mod 4096 = 0 -> e - 4096 < x <= e -> e + 4096 <= 2 ^ 64 -> page_align_up x = e.
Proof.
  intros Hx He Hr Hm. destruct (page_align_up_bounds x) as [Ha Hb]; [lia..|].
  pose proof (Z.div_mod e 4096 ltac:(lia)). pose proof (Z.div_mod (page_align_up x) 4096 ltac:(lia)). lia.
Qed.

Lemma sec_flags sec : phdr_to_flags (sec_pf sec) = section_to_vspace_flags (sec_characteristics sec).
Proof.
  unfold sec_pf, section_to_vspace_flags, phdr_to_flags.
  by destruct (Z.land (sec_characteristics sec) IMAGE_SCN_MEM_WRITE =? 0), (Z.land (sec_characteristics sec) IMAGE_SCN_MEM_EXECUTE =? 0).
Qed.

Section segments.
Context (data : list Z) (load_base : Z).
Context (Hbase : 0 <= load_base /\ load_base mod 4096 = 0 /\ load_base + 2 ^ 34 <= 2 ^ 64).

Lemma base_shift x : (load_base + x) mod 4096 = x mod 4096.
Proof. destruct Hbase as (_ & Hm & _). by rewrite <- Zplus_mod_idemp_l, Hm, Z.add_0_l. Qed.

Lemma seg_at_base ph : 0 <= p_vaddr ph < 2 ^ 33 -> seg_at load_base ph = load_base + p_vaddr ph.
Proof. intros. unfold seg_at. rewrite wrap_small; lia. Qed.

Section sec.
Context (sec : SectionHeader) (Hr : sec_ranges sec) (Hl : loaded sec = true) (Hin : sec_in_file data sec = true).

Lemma sec_sizes :
  let rva := sec_virtual_address sec in
  let pend := page_align_up (rva + sec_vsize sec) in
  0 < sec_vsize sec < 2 ^ 32 /\ pend mod 4096 = 0 /\ rva + sec_vsize sec <= pend < rva + sec_vsize sec + 4096 /\
  0 <= sec_filesz sec <= pend - rva /\ sec_filesz sec <= sec_size_of_raw_data sec /\
  (sec_filesz sec < pend - rva -> sec_filesz sec = sec_size_of_raw_data sec).
Proof.
  destruct Hr as (? & ? & ? & ? & ?). unfold loaded in Hl. bprop. unfold sec_filesz.
  assert (0 < sec_vsize sec < 2 ^ 32) by (unfold sec_vsize in *; case_if; lia).
  destruct (page_align_up_bounds (sec_virtual_address sec + sec_vsize sec)) as [Ha Hb]; [lia..|]. cbv zeta. lia.
Qed.

Lemma sec_segment_ok : seg_ok data load_base (sec_segment sec).
Proof.
  pose proof sec_sizes as (? & _ & ? & ? & ? & _). destruct Hr as (? & ? & ? & ? & ?). unfold sec_in_file in Hin. bprop.
  split; cbn [sec_segment p_vaddr p_offset p_filesz p_memsz]; unfold u64, in_u; try lia.
  rewrite seg_at_base; cbn [sec_segment p_vaddr p_memsz]; lia.
Qed.

(** The pages of the section. *)
Lemma sec_bounds :
  seg_start load_base (sec_segment sec) = page_align_down (load_base + sec_virtual_address sec)%u64 /\
  seg_end load_base (sec_segment sec) = page_align_up ((load_base + sec_virtual_address sec)%u64 + sec_vsize sec)%u64 /\
  seg_end load_base (sec_segment sec) = load_base + page_align_up (sec_virtual_address sec + sec_vsize sec) /\
  load_base <= seg_start load_base (sec_segment sec).
Proof.
  pose proof sec_sizes as (? & Hp & ? & ? & _). destruct Hr as (? & ? & ? & ? & ?). unfold seg_start, seg_end.
  rewrite seg_at_base by (cbn; lia). cbn [sec_segment p_vaddr p_memsz].
  rewrite !(wrap_small 64 (load_base + sec_virtual_address sec)) by lia. split; [done|].
  rewrite !wrap_small by lia. rewrite <- base_shift in Hp.
  set (e := load_base + page_align_up (sec_virtual_address sec + sec_vsize sec)) in *.
  rewrite !(page_align_up_in (load_base + _ + _) e) by lia.
  split_and!; [done..|].
  destruct (page_align_down_spec (load_base + sec_virtual_address sec)) as (D1 & D2 & D3); [unfold u64, in_u; lia|].
  destruct Hbase as (_ & Hm & _). pose proof (Z.div_mod load_base 4096 ltac:(lia)).
  pose proof (Z.div_mod (page_align_down (load_base + sec_virtual_address sec)) 4096 ltac:(lia)). lia.
Qed.

Lemma section_window_spec va :
  va mod 4096 = 0 -> covers load_base (sec_segment sec) va = true ->
  window_ok data load_base (sec_segment sec) va (section_window load_base sec va).
Proof.
  intros Hm Hc. pose proof sec_sizes as (Hv & Hp & Hpe & Hf & Hfr & Hfe). pose proof sec_bounds as (_ & _ & He & Hlo).
  destruct Hr as (? & ? & ? & ? & ?). unfold sec_in_file in Hin. unfold covers in Hc. rewrite He in Hc. bprop.
  set (rva := sec_virtual_address sec) in *. set (pend := page_align_up (rva + sec_vsize sec)) in *.
  assert (va + 4096 <= load_base + pend).
  { rewrite <- base_shift in Hp. pose proof (Z.div_mod va 4096 ltac:(lia)). pose proof (Z.div_mod (load_base + pend) 4096 ltac:(lia)). lia. }
  unfold section_window, PE_PAGE_SIZE, window_ok, in_file, fits. rewrite seg_at_base by (cbn; lia).
  cbn [sec_segment p_vaddr p_offset p_filesz]. fold rva.
  rewrite (wrap_small 64 (va - load_base)), (wrap_small 64 (va - load_base + 4096)), (wrap_small 64 (rva + _)) by lia.
  set (cs := if va - load_base >? rva then _ else _).
  set (ce := if va - load_base + 4096 <? _ then _ else _).
  assert (cs = Z.max (va - load_base) rva) as Ecs by (subst cs; case_if; lia).
  assert (ce = Z.min (va - load_base + 4096) (rva + sec_size_of_raw_data sec)) as Ece by (subst ce; case_if; lia).
  clearbody cs ce. unfold data_len in *. case_if; [|split_and!; intros; lia].
  assert (ce <= rva + sec_filesz sec) by lia.
  rewrite (wrap_small 64 (_ + (cs - rva))) by lia. rewrite (wrap_small 64) by lia. split_and!; intros; lia.
Qed.
End sec.

Section headers.
Context (info : PeInfo) (Hi : 0 <= size_of_headers info < 2 ^ 32).

Lemma hdr_sizes :
  let e := page_align_up (size_of_headers info) in
  e mod 4096 = 0 /\ size_of_headers info <= e < size_of_headers info + 4096.
Proof. apply page_align_up_bounds; lia. Qed.

Lemma hdr_segment_ok : seg_ok data load_base (hdr_segment data info).
Proof.
  pose proof hdr_sizes as [_ He]. cbv zeta in He.
  assert (0 <= data_len data) by (unfold data_len; lia).
  split; cbn [hdr_segment p_vaddr p_offset p_filesz p_memsz]; unfold u64, in_u; try lia.
  rewrite seg_at_base; cbn [hdr_segment p_vaddr]; lia.
Qed.

Lemma hdr_bounds :
  seg_start load_base (hdr_segment data info) = load_base /\
  seg_end load_base (hdr_segment data info) = (load_base + page_align_up (size_of_headers info))%u64 /\
  seg_end load_base (hdr_segment data info) = load_base + page_align_up (size_of_headers info).
Proof.
  pose proof hdr_sizes as [Hm He]. cbv zeta in *. unfold seg_start, seg_end. rewrite seg_at_base by (cbn; lia).
  cbn [hdr_segment p_vaddr p_memsz]. rewrite Z.add_0_r, wrap_small by lia.
  rewrite (page_align_down_in load_base) by lia. rewrite <- base_shift in Hm.
  rewrite (page_align_up_in _ (load_base + page_align_up (size_of_headers info))); lia.
Qed.

(** The window of [map_pe_page] on the headers. *)
Lemma header_window_spec va :
  va mod 4096 = 0 -> covers load_base (hdr_segment data info) va = true ->
  window_ok data load_base (hdr_segment data info) va
    ((va - load_base)%u64, 0,
     if (va - load_base)%u64 <? data_len data then
       let avail := data_len data - (va - load_base)%u64 in
       let clamped := if avail <? PE_PAGE_SIZE then avail else PE_PAGE_SIZE in
       if clamped >? PE_PAGE_SIZE then PE_PAGE_SIZE else clamped
     else 0).
Proof.
  intros Hm Hc. pose proof hdr_sizes as [Hp He]. pose proof hdr_bounds as (Hs & _ & Hen). cbv zeta in *.
  unfold covers in Hc. rewrite Hs, Hen in Hc. bprop. set (pend := page_align_up (size_of_headers info)) in *.
  assert (va + 4096 <= load_base + pend).
  { rewrite <- base_shift in Hp. pose proof (Z.div_mod va 4096 ltac:(lia)). pose proof (Z.div_mod (load_base + pend) 4096 ltac:(lia)). lia. }
  rewrite !(wrap_small 64 (va - load_base)) by lia. unfold PE_PAGE_SIZE.
  set (len := if va - load_base <? _ then _ else _).
  assert (len = Z.max 0 (Z.min 4096 (data_len data - (va - load_base)))) as El.
  { subst len. cbv zeta. repeat case_if; lia. }
  clearbody len. unfold window_ok, fits, in_file. rewrite seg_at_base by (cbn; lia).
  cbn [hdr_segment p_vaddr p_offset p_filesz]. fold pend.
  rewrite (wrap_small 64 (va - load_base + len)) by lia. split_and!; intros; lia.
Qed.
End headers.
End segments.

(** ** One page *)

Section refine.
Context `{V : Vm} {VOK : VmOk V} (env : LoaderEnv) (Henv : env_ok env).
Context (supply : nat -> Loader -> Prop).

Abbreviation self := (self_vspace env).
Abbreviation child := (child_vspace env).
Abbreviation scratch := (scratch_vaddr env).
Abbreviation kept := (keeps child self scratch).
Abbreviation sim := (sim env).
Abbreviation callbacks_ok := (callbacks_ok env).
Abbreviation supplied := (supplied env (new_pe_frame env) supply).
Abbreviation outcome := (outcome env (new_pe_frame env) PE_OUT_OF_MEMORY PE_MAP_FAILED supply).

Lemma new_pe_frame_spec ld r ld' :
  callbacks_ok (ld_untyped ld =? 0) -> new_pe_frame env ld = (r, ld') ->
  (ld_untyped ld' =? 0) = (ld_untyped ld =? 0) /\
  match r with
  | inl slot => fresh (ld_vm ld) slot (ld_vm ld')
  | inr code => code = PE_OUT_OF_MEMORY /\ vm_same (ld_vm ld) (ld_vm ld')
  end.
Proof.
  intros Hcb Hn. unfold new_pe_frame in Hn. destruct (next_frame_slot env ld) as [slot ld1] eqn:E.
  apply (next_frame_slot_spec _ _ _ _ Hcb) in E as [Hu Hs].
  destruct ((slot =? U64_MAX) || (slot =? 0)) eqn:Hbad.
  { injection Hn as <- <-. by rewrite Hu. }
  rewrite Hu in Hn. simpl in Hs. destruct (ld_untyped ld =? 0) eqn:Hz; simpl in Hs; bprop.
  { injection Hn as <- <-. rewrite Hu, Hz. done. }
  unfold try_retype_frame in Hn. destruct (untyped_retype (ld_vm ld1) _ _ _ _) as [e s2] eqn:Et.
  injection Hn as <- <-. split; [by rewrite <- Z.eqb_neq, <- Hu in Hz|].
  destruct (Z.eqb_spec e 0) as [->|Hne]; [|split; [done|]]; rewrite Hs.
  - by eapply vm_retype_ok.
  - by eapply vm_retype_err.
Qed.

Section page.
Context (data : list Z) (delta : Z) (ph : Elf64Phdr) (s0 : vm) (rt : bool).
Context (Hcb : callbacks_ok rt) (Hscr : scratch_ok env) (Hlen : data_len data < 2 ^ 63).
Context (cap : Z) (Hcap : cap <= Z.of_nat MAX_PE_PAGES).

Local Abbreviation flags := (phdr_to_flags (p_flags ph)).

Lemma map_existing_page_spec va w j e pr im :
  sim s0 rt pr im -> window_ok data delta ph va w -> pr_pages pr !! j = Some e -> pg_vaddr e = va ->
  exists r, map_existing_page env data va w flags j e pr = Some r /\
    outcome s0 rt cap pr r (touch data delta ph im va).
Proof.
  intros S Hw Hj <-. destruct pr as [ld pages b]. simpl in Hj.
  assert (e ∈ pages) as He by by eapply list_elem_of_lookup_2.
  destruct (sim_page _ _ _ _ _ S e He) as (c & Him & Hl & Hmap & Hf). simpl in Hmap, Hf.
  pose proof (shared_copy_spec env Henv data delta ph Hlen (ld_vm ld) _ _ (pg_vaddr e) w Hscr Hf Hl Hw) as Hcopy.
  unfold map_existing_page. destruct w as [[src dst] len]. cbn [pr_ld pr_pages pr_brk].
  destruct Hcopy as (s1 & -> & Hf1 & O1). cbn [mbind option_bind].
  assert (length (overlay data delta ph (pg_vaddr e) c) = PAGE) as Hl1 by by rewrite overlay_length.
  unfold touch. rewrite Him. cbn [touched]. set (m := merge_flags _ _). case_if.
  { eexists. split; [done|]. split; [|split; [done|]].
    - rewrite Heqb0. by eapply sim_refill.
    - intros [G HS]. split; [done|]. intros Hle. apply (gen_stable _ _ _ G); [by apply HS|]. by eapply only_frame_slots. }
  destruct (vspace_unmap s1 child (pg_vaddr e)) as [e2 s2] eqn:E2.
  destruct (vspace_map s2 child _ _ _) as [e3 s3] eqn:E3.
  destruct (sim_remap env Henv (new_pe_frame env) supply s0 rt ld pages b im j e c _ s1 S Hj Hl1 Hf Hf1 O1 m _ _ _ _ E2 E3)
    as (K3 & SL & G3 & S3). case_if.
  { eexists. split; [done|]. split; [by right|]. split; [done|]. intros [G _]. by specialize (G3 G). }
  eexists. split; [done|]. split; [auto|]. split; [done|].
  intros [G HS]. split; [done|]. cbn [pr_pages pr_ld]. rewrite length_insert. intros Hle. apply (gen_stable _ _ _ G); auto.
Qed.

Lemma map_new_page_spec va w pr im :
  sim s0 rt pr im -> window_ok data delta ph va w -> va ∉ (pg_vaddr <$> pr_pages pr) ->
  exists r, map_new_page env data va w flags pr = Some r /\
    outcome s0 rt cap pr r (touch data delta ph im va).
Proof.
  intros S Hw Hva. destruct pr as [ld pages b]. simpl in Hva. pose proof (sim_kept _ _ _ _ _ S) as K.
  assert (im !! va = None) as Him.
  { destruct (im !! va) eqn:E; [|done]. destruct Hva. eapply (sim_dom _ _ _ _ _ S). congruence. }
  unfold map_new_page, touch. rewrite Him. cbn [touched pr_ld pr_pages pr_brk].
  pose proof (fun s f c Hs => new_copy_spec env Henv data delta ph Hlen s f c va w Hs Hw) as Hcopy.
  destruct w as [[src dst] len]. destruct (Nat.leb_spec MAX_PE_PAGES (length pages)).
  { eexists. split; [done|]. split; [by left|]. split; [done|]. intros _.
    rewrite map_size_insert_None, (sim_size _ _ _ _ _ S) by done. simpl. lia. }
  pose proof (sim_mode _ _ _ _ _ S) as Hmode. simpl in Hmode, K.
  destruct (new_pe_frame env ld) as [r ld1] eqn:E.
  destruct (new_pe_frame_spec ld r ld1) as [Hu Hr]; [by rewrite Hmode | done |].
  set (n := Z.to_nat (cap - Z.of_nat (length (pages ++ [mkPage va 0 0])))).
  assert (supplied cap (mkProgress _ ld pages b) -> Z.of_nat (length pages) < cap ->
    generous env (new_pe_frame env) supply /\ supply n ld1 /\ exists f, r = inl f) as HS.
  { intros [G HS] Hlt. split; [done|]. eapply (gen_frame _ _ _ G); [|done]. cbn [pr_pages pr_ld] in HS.
    replace (Datatypes.S n) with (Z.to_nat (cap - Z.of_nat (length pages))); [apply HS; lia|].
    subst n. rewrite length_app. simpl. lia. }
  assert (forall c fl, cap < Z.of_nat (size (<[va := (c, fl)]> im)) \/ Z.of_nat (length pages) < cap) as Hsz.
  { intros c fl. rewrite map_size_insert_None, (sim_size _ _ _ _ _ S) by done. simpl. lia. }
  destruct r as [f|code].
  2: { destruct Hr as [-> Hr]. eexists. split; [done|]. split; [by left|]. split; [by rewrite <- Hr|].
    intros G. destruct (Hsz (overlay data delta ph va zeros) flags) as [?|Hlt]; [done|].
    by destruct (HS G Hlt) as (_ & _ & f & ?). }
  destruct (kept_fresh _ _ _ _ _ K Hr) as [K1 Hn0]. pose proof Hr as (_ & (p & Hp & Hl) & _).
  destruct (map_scratch env (ld_vm ld1) f) as [e s2] eqn:E2. case_if.
  { pose proof (Hscr _ _ _ Hp Hl) as E0. by rewrite E2 in E0. }
  subst e. destruct (map_scratch_spec _ _ _ _ _ Hp Hl E2) as [Hs2 O2].
  destruct (Hcopy _ _ _ Hs2) as (s3 & s4 & -> & E4 & Hf5 & O5). cbn [mbind option_bind]. rewrite E4.
  cbn [mbind option_bind]. set (s5 := unmap_scratch env s4) in *.
  pose proof (only_frame_trans _ _ _ _ _ O2 O5) as O. destruct (vspace_map s5 child f va _) as [e6 s6] eqn:E6.
  destruct (sim_install env Henv (new_pe_frame env) supply s0 rt ld pages b im ld1 f va (overlay data delta ph va zeros)
    flags s5 e6 s6 S Hva Hr) as (K6 & SL & G6 & S6); try done; [by rewrite Hu|]. case_if.
  { eexists. split; [done|]. split; [by right|]. split; [done|]. intros [G _]. by specialize (G6 G). }
  destruct (record_page_map env s6 _ _ _) as [e7 s7] eqn:E7'. pose proof (record_same _ _ _ _ _ _ _ _ Hcb E7') as E7. case_if.
  { eexists. split; [done|]. split; [by left|]. simpl. split; [by rewrite <- E7|]. intros [G _].
    pose proof (gen_record _ _ _ G s6 va f flags) as G'. by rewrite E7' in G'. }
  eexists. split; [done|]. split; [|split; [done|]].
  - apply (sim_same env s0 rt (set_vm ld1 s6)); [auto|done].
  - intros [G HS']. split; [done|]. cbn [pr_pages pr_ld] in *. intros Hle.
    destruct (HS (conj G HS')) as (_ & HS'' & _); [rewrite length_app in Hle; simpl in Hle; lia|].
    subst n. rewrite length_app in *. apply (gen_stable _ _ _ G); [done|]. intros g. destruct E7 as [_ ->]. apply SL.
Qed.

(** A page of the segment, through whatever window shows its part of the file. *)
Lemma map_pe_page_raw_spec va w pr im :
  sim s0 rt pr im -> window_ok data delta ph va w ->
  exists r, map_pe_page_raw env data va w flags pr = Some r /\
    outcome s0 rt cap pr r (touch data delta ph im va).
Proof.
  intros S Hw. unfold map_pe_page_raw. pose proof (find_page_spec (pr_pages pr) va) as Hf.
  destruct (find_page _ va) as [j|]; [|by apply map_new_page_spec].
  destruct Hf as (e & He & Hva). rewrite He. cbn [mbind option_bind]. by apply map_existing_page_spec.
Qed.

(** ** The pages of a segment *)

Context (Hok : seg_ok data delta ph).

Local Abbreviation page_at i := (seg_start delta ph + 4096 * Z.of_nat i).

Lemma image_pages_bound (im : image) n :
  (forall k, (k < n)%nat -> im !! page_at k <> None) -> (n <= size im)%nat.
Proof.
  intros Hk. rewrite <- size_dom.
  replace n with (size (list_to_set ((fun k => page_at k) <$> seq 0 n) : gset Z)).
  2: { rewrite size_list_to_set; [by rewrite length_fmap, length_seq|].
       apply NoDup_fmap_2; [intros a b; lia|apply NoDup_seq]. }
  apply subseteq_size. intros va Hva. apply elem_of_list_to_set, list_elem_of_fmap in Hva as (k & -> & Hin).
  apply elem_of_seq in Hin. apply elem_of_dom. destruct (im !! page_at k) eqn:E; [by eexists|]. destruct (Hk k); [lia|done].
Qed.

(** A body that maps one page of the segment. *)
Definition maps_page (body : Z -> Progress -> option (Progress + Z * Loader)) : Prop :=
  forall va pr im, sim s0 rt pr im -> va mod 4096 = 0 -> covers delta ph va = true ->
    exists r, body va pr = Some r /\ outcome s0 rt cap pr r (touch data delta ph im va) /\
      (forall pr', r = inl pr' -> (length (pr_pages pr) <= MAX_PE_PAGES)%nat -> (length (pr_pages pr') <= MAX_PE_PAGES)%nat).

(** The table of pages limits the turns: [page_fuel] is enough for any number of
    pages. *)
Lemma while_pages_spec body n i fuel pr im :
  maps_page body -> Z.of_nat (i + n) = seg_pages (seg_at delta ph) (p_memsz ph) -> (page_fuel <= fuel + i)%nat ->
  sim s0 rt pr im -> (length (pr_pages pr) <= MAX_PE_PAGES)%nat ->
  (forall k, (k < i)%nat -> im !! page_at k <> None) ->
  exists r, while_pages body fuel (seg_end delta ph) (page_at i) pr = Some r /\
    outcome s0 rt cap pr r (foldl (touch data delta ph) im ((fun i => page_at i) <$> seq i n)) /\
    (forall pr', r = inl pr' -> (length (pr_pages pr') <= MAX_PE_PAGES)%nat).
Proof.
  intros Hbody. pose proof (seg_pages_eq _ _ _ Hok) as [He Hn]. pose proof (seg_bounds _ _ _ Hok) as (Hs & _ & Hb & Hb2 & _).
  pose proof (so_end _ _ _ Hok).
  revert i fuel pr im. induction n as [|n IH]; intros i fuel pr im Hi Hf S Hlt Hd;
    (destruct fuel as [|fuel];
      [pose proof (image_pages_bound im i Hd); rewrite (sim_size _ _ _ _ _ S) in *; unfold page_fuel in *; lia|]);
    cbn [while_pages].
  - destruct (Z.ltb_spec (page_at i) (seg_end delta ph)); [lia|].
    eexists. split; [done|]. split; [by split|]. by intros pr' [= <-].
  - destruct (Z.ltb_spec (page_at i) (seg_end delta ph)); [|lia]. set (va := page_at i) in *.
    assert (va mod 4096 = 0) as Hm by (subst va; rewrite Z.mul_comm, Z_mod_plus_full; done).
    assert (covers delta ph va = true) as Hc by (unfold covers; apply andb_true_iff; rewrite Z.leb_le, Z.ltb_lt; lia).
    destruct (Hbody va pr im S Hm Hc) as (r & -> & Hr & Hb'). cbn [mbind option_bind seq]. rewrite fmap_cons.
    cbn [foldl]. fold va. pose proof (touch_all_size data delta ph (touch data delta ph im va)) as Hsz.
    destruct r as [pr1|ret].
    + replace (wrap 64 (va + PE_PAGE_SIZE)) with (page_at (Datatypes.S i)) by (rewrite wrap_small; unfold PE_PAGE_SIZE; lia).
      destruct Hr as (S1 & Hr). destruct (IH (Datatypes.S i) fuel pr1 _ ltac:(lia) ltac:(lia) S1) as (r' & -> & Hr' & Hb''); [by eapply Hb'| |].
      { intros k Hk. unfold touch. destruct (decide (page_at k = va)) as [->|Hne]; [by rewrite lookup_insert_eq|].
        rewrite lookup_insert_ne by done. apply Hd. subst va. destruct (decide (k = i)) as [->|]; [done|lia]. }
      eexists. split; [done|]. split; [|done]. eapply (outcome_then _ _ _ _ _ _ _ cap pr (inl pr1)); [by split|apply Hsz|done].
    + eexists. split; [done|]. split; [|done]. eapply (outcome_then _ _ _ _ _ _ _ cap pr (inr ret)); [done|apply Hsz|done].
Qed.

Lemma while_segment_spec body pr im :
  maps_page body -> sim s0 rt pr im -> (length (pr_pages pr) <= MAX_PE_PAGES)%nat ->
  exists r, while_pages body page_fuel (seg_end delta ph) (seg_start delta ph) pr = Some r /\
    outcome s0 rt cap pr r (touch_seg data delta im ph) /\
    (forall pr', r = inl pr' -> (length (pr_pages pr') <= MAX_PE_PAGES)%nat).
Proof.
  intros Hbody S Hlt. pose proof (seg_pages_eq _ _ _ Hok) as [_ Hpos].
  destruct (while_pages_spec body (Z.to_nat (seg_pages (seg_at delta ph) (p_memsz ph))) 0 page_fuel pr im)
    as (r & E & Hr); try done; [lia..|].
  rewrite Z.mul_0_r, Z.add_0_r in E. rewrite E. eauto.
Qed.

Lemma map_pe_page_raw_length va w fl pr pr' :
  map_pe_page_raw env data va w fl pr = Some (inl pr') -> (length (pr_pages pr) <= MAX_PE_PAGES)%nat ->
  (length (pr_pages pr') <= MAX_PE_PAGES)%nat.
Proof.
  unfold map_pe_page_raw, map_existing_page, map_new_page. destruct w as [[src dst] len]. intros E Hl.
  destruct (find_page _ va) as [j|].
  - apply bind_Some in E as (e & _ & (s & _ & E)%bind_Some). case_if; [by injection E as <-|].
    destruct (vspace_unmap s _ _), (vspace_map _ _ _ _ _). case_if; [done|]. injection E as <-. simpl. by rewrite length_insert.
  - destruct (Nat.leb_spec MAX_PE_PAGES (length (pr_pages pr))); [done|]. destruct (new_pe_frame env (pr_ld pr)) as [[f|] ld]; [|done].
    destruct (map_scratch env _ f). case_if; [done|]. apply bind_Some in E as (s1 & _ & (s2 & _ & E)%bind_Some).
    destruct (vspace_map _ _ _ _ _). case_if; [done|]. destruct (record_page_map env _ _ _ _). case_if; [done|].
    injection E as <-. simpl. rewrite length_app. simpl. lia.
Qed.
End page.

(** ** Headers, sections, all segments *)

Section file.
Context (data : list Z) (load_base : Z) (info : PeInfo) (s0 : vm) (rt : bool).
Context (Hcb : callbacks_ok rt) (Hscr : scratch_ok env) (Hlen : data_len data < 2 ^ 63) (Hi : info_ok data info).
Context (Hbase : 0 <= load_base /\ load_base mod 4096 = 0 /\ load_base + 2 ^ 34 <= 2 ^ 64).
Context (cap : Z) (Hcap : cap <= Z.of_nat MAX_PE_PAGES).

Lemma map_headers_spec pr im :
  sim s0 rt pr im -> (length (pr_pages pr) <= MAX_PE_PAGES)%nat ->
  exists r, map_headers env data info load_base pr = Some r /\
    outcome s0 rt cap pr r (touch_seg data load_base im (hdr_segment data info)) /\
    (forall pr', r = inl pr' -> (length (pr_pages pr') <= MAX_PE_PAGES)%nat).
Proof.
  intros S Hl. pose proof (io_size_of_headers _ _ Hi) as Hh.
  destruct (hdr_bounds data load_base Hbase info Hh) as (Es & Ee & _).
  assert (maps_page data load_base (hdr_segment data info) s0 rt cap (fun page_vaddr =>
    map_pe_page env data page_vaddr (page_vaddr - load_base)%u64 PE_PAGE_SIZE VSPACE_FLAG_USER)) as Hbody.
  { clear pr im S Hl. intros va pr im S Hm Hc. unfold map_pe_page. cbv zeta.
    pose proof (header_window_spec data load_base Hbase info Hh va Hm Hc) as Hw. cbv zeta in Hw.
    destruct (map_pe_page_raw_spec data load_base (hdr_segment data info) s0 rt Hcb Hscr Hlen cap Hcap va _ pr im S Hw) as (r & E & Ho).
    exists r. split; [exact E|]. split; [done|]. intros pr' ->. by eapply map_pe_page_raw_length. }
  destruct (while_segment_spec data load_base (hdr_segment data info) s0 rt cap (hdr_segment_ok data load_base Hbase info Hh)
    _ pr im Hbody S Hl) as (r & E & Hr).
  unfold map_headers. cbv zeta. rewrite Es, Ee in E. eauto.
Qed.

Lemma map_section_spec sec pr im :
  sec_ranges sec -> (loaded sec = true -> sec_in_file data sec = true) ->
  sim s0 rt pr im -> (length (pr_pages pr) <= MAX_PE_PAGES)%nat ->
  exists r, map_section env data load_base pr sec = Some r /\
    outcome s0 rt cap pr r (if loaded sec then touch_seg data load_base im (sec_segment sec) else im) /\
    (forall pr', r = inl pr' -> (length (pr_pages pr') <= MAX_PE_PAGES)%nat).
Proof.
  intros Hr Hin S Hl. unfold map_section. destruct (loaded sec) eqn:E.
  2: { exists (inl pr). split_and!; [|done..|by intros pr' [= <-]]. unfold loaded in E.
       destruct (discardable sec), (sec_vsize sec =? 0); done. }
  specialize (Hin eq_refl). unfold loaded in E. apply andb_true_iff in E as E'. destruct E' as [->%negb_true_iff ->%negb_true_iff].
  destruct (sec_bounds load_base Hbase sec Hr E) as (Es & Ee & _). cbv zeta. rewrite <- Es, <- Ee.
  apply while_segment_spec; try done; [by apply sec_segment_ok|].
  clear pr im S Hl. intros va pr im S Hm Hc.
  pose proof (section_window_spec data load_base Hbase sec Hr E Hin va Hm Hc) as Hw.
  destruct (map_pe_page_raw_spec data load_base (sec_segment sec) s0 rt Hcb Hscr Hlen cap Hcap va _ pr im S Hw) as (r & E' & Ho).
  cbn [sec_segment p_flags] in E'. rewrite sec_flags in E'. exists r. split; [exact E'|]. split; [done|].
  intros pr' ->. by eapply map_pe_page_raw_length.
Qed.

Lemma touch_seg_size_mono im l : (size im <= size (foldl (touch_seg data load_base) im l))%nat.
Proof.
  revert im. induction l as [|ph l IH]; intros im; simpl; [lia|].
  etrans; [apply (touch_all_size data load_base ph)|]. apply IH.
Qed.

Lemma run_sections_spec l pr im :
  Forall sec_ranges l -> forallb (sec_in_file data) (List.filter loaded l) = true ->
  sim s0 rt pr im -> (length (pr_pages pr) <= MAX_PE_PAGES)%nat ->
  exists r, run_phdrs (map_section env data load_base) l pr = Some r /\
    outcome s0 rt cap pr r (foldl (touch_seg data load_base) im (sec_segment <$> List.filter loaded l)).
Proof.
  intros Hl. revert pr im. induction Hl as [|sec l Hr _ IH]; intros pr im Hin S Hlt; cbn [run_phdrs List.filter] in *.
  { exists (inl pr). split; [done|]. by split. }
  destruct (map_section_spec sec pr im Hr) as (r & -> & Ho & Hlt'); [|done..|].
  { intros Hs. rewrite Hs in Hin. simpl in Hin. by bprop. }
  assert (forallb (sec_in_file data) (List.filter loaded l) = true) as Hin'.
  { destruct (loaded sec); [simpl in Hin; by bprop|done]. }
  cbn [mbind option_bind]. set (im1 := if loaded sec then touch_seg data load_base im (sec_segment sec) else im) in *.
  replace (foldl _ im _) with (foldl (touch_seg data load_base) im1 (sec_segment <$> List.filter loaded l)).
  2: { subst im1. by destruct (loaded sec). }
  pose proof (touch_seg_size_mono im1 (sec_segment <$> List.filter loaded l)). destruct r as [pr1|ret].
  - destruct Ho as (S1 & Ho). destruct (IH pr1 im1 Hin' S1 ltac:(by eapply Hlt')) as (r' & -> & Hr').
    eexists. split; [done|]. eapply (outcome_then _ _ _ _ _ _ _ cap pr (inl pr1)); [by split|done|done].
  - eexists. split; [done|]. eapply (outcome_then _ _ _ _ _ _ _ cap pr (inr ret)); done.
Qed.
End file.
End refine.
