(* ===== verification/PeCorrect.v ===== *)
(** [pe_load] is correct: on every valid file and every kernel that keeps the
    contract it returns, and what it leaves in the child is the file's image;
    [pe_resolve_imports] writes what the resolver answers into the image.  The
    last part reads the image word by word. *)

From stdpp Require Import gmap.
From S2P Require Import Prelude Consts Elf Vm ElfLoad ElfImage VmSim ElfDynamic Pe PeLoad PeImage PeRefine.

(** ** Words of the image *)

Definition put_word (im : image) (a : Z) (f : Z -> Z) : image :=
  alter (fun '(c, fl) =>
      let off := Z.to_nat (a - page_align_down a) in (put64 c off (f (get64 c off)), fl))
    (page_align_down a) im.

Lemma adjust64_put delta im a : adjust64 delta im a = put_word im a (fun v => (v + delta)%u64).
Proof. done. Qed.

Lemma write64_put im a v : write64 im a v = put_word im a (fun _ => v).
Proof. done. Qed.

Lemma word_in_put im a f b : word_in (put_word im a f) b = word_in im b.
Proof.
  unfold word_in, put_word. f_equal. destruct (decide (page_align_down b = page_align_down a)) as [->|].
  - rewrite lookup_alter_eq. by destruct (im !! _) as [[]|].
  - by rewrite lookup_alter_ne.
Qed.

Section correct.
Context `{V : Vm} {VOK : VmOk V} (env : LoaderEnv) (Henv : env_ok env).

Abbreviation self := (self_vspace env).
Abbreviation child := (child_vspace env).
Abbreviation scratch := (scratch_vaddr env).
Abbreviation kept := (keeps child self scratch).
Abbreviation sim := (sim env).

(** ** A word through the scratch page *)

Lemma load_byte_spec s f c off :
  scratched env s f c -> 0 <= off < 4096 -> load_byte s self (scratch + off)%u64 = c !! Z.to_nat off.
Proof.
  intros (Hm & Hf & _) Hoff. destruct Henv as [Ha Hr _]. unfold load_byte.
  rewrite wrap_small by lia. rewrite (page_align_down_in scratch) by lia. rewrite Hm. cbn [mbind option_bind fst].
  rewrite Hf. cbn [mbind option_bind]. f_equal. lia.
Qed.

Lemma load64_spec s f c off :
  scratched env s f c -> 0 <= off <= 4088 ->
  exists old, mapM (fun k => load_byte s self (scratch + (off + Z.of_nat k)%u64)%u64) (seq 0 8) = Some old /\
    le_value old = get64 c (Z.to_nat off).
Proof.
  intros Hs Hoff. exists (map (fun i => byte_at c (Z.to_nat off + i)) (seq 0 8)). split; [|done].
  apply mapM_Some, Forall2_fmap_r, Forall_Forall2_diag, Forall_forall. intros k Hk%elem_of_seq.
  rewrite (wrap_small 64 (off + _)) by lia. rewrite (load_byte_spec s f c) by (done || lia).
  unfold byte_at. replace (Z.to_nat (off + Z.of_nat k)) with (Z.to_nat off + k)%nat by lia.
  simpl. destruct (lookup_lt_is_Some_2 c (Z.to_nat off + k)) as [x ->]; [|done].
  destruct Hs as (_ & _ & ->). unfold PAGE. lia.
Qed.

Section words.
Context (s0 : vm) (rt : bool) (Hscr : scratch_ok env).

Lemma write_u64_to_page_spec ld pages b im j e a v (additive : bool) :
  sim s0 rt (mkProgress _ ld pages b) im -> pages !! j = Some e -> pg_vaddr e = page_align_down a ->
  0 <= a - page_align_down a <= 4088 ->
  exists s', write_u64_to_page env (ld_vm ld) (pg_frame_cap e) (a - page_align_down a) v additive = Some (0, s') /\
    sim s0 rt (mkProgress _ (set_vm ld s') pages b)
      (put_word im a (fun old => if additive then (old + v)%u64 else v)).
Proof.
  intros S Hj Hva Hoff. assert (e ∈ pages) as He by by eapply list_elem_of_lookup_2.
  destruct (sim_page _ _ _ _ _ S e He) as (c & Him & Hl & Hmap & Hf). simpl in Hmap, Hf.
  unfold write_u64_to_page. pose proof (Hscr _ _ _ Hf Hl) as E0.
  destruct (map_scratch env (ld_vm ld) _) as [err s1] eqn:E. simpl in E0. subst err. cbn [negb Z.eqb].
  destruct (map_scratch_spec _ _ _ _ _ Hf Hl E) as [Hs1 O1]. set (off := a - page_align_down a) in *.
  destruct (load64_spec s1 _ c off Hs1 Hoff) as (old & Eo & Ev).
  set (w := if additive then (get64 c (Z.to_nat off) + v)%u64 else v).
  assert ((if additive then old ← mapM (fun k => load_byte s1 self (scratch + (off + Z.of_nat k)%u64)%u64) (seq 0 8);
             Some (le_value old + v)%u64 else Some v) = Some w) as ->.
  { subst w. destruct additive; [|done]. rewrite Eo. cbn [mbind option_bind]. by rewrite Ev. }
  cbn [mbind option_bind].
  destruct (store64_spec env Henv s1 (pg_frame_cap e) c off w Hs1 Hoff) as (s2 & -> & Hs2 & O2).
  destruct (unmap_scratch_spec _ _ _ _ Hs2) as [Hf3 O3]. cbn [mbind option_bind]. eexists. split; [done|].
  unfold put_word. rewrite Hva in Him. erewrite alter_Some by done. cbv beta iota zeta. fold off. fold w.
  rewrite <- Hva. eapply sim_refill; try done; [by destruct Hs2 as (_ & _ & ?)|]. eauto using only_frame_trans.
Qed.

(** A word that lies in the image is found in the table of pages and written. *)
Lemma write_word_spec ld pages b im a v (additive : bool) :
  sim s0 rt (mkProgress _ ld pages b) im -> u64 a -> word_in im a = true ->
  exists p s', find_page pages (page_align_down a) ≫= (pages !!.) = Some p /\
    write_u64_to_page env (ld_vm ld) (pg_frame_cap p) (a - page_align_down a) v additive = Some (0, s') /\
    sim s0 rt (mkProgress _ (set_vm ld s') pages b)
      (put_word im a (fun old => if additive then (old + v)%u64 else v)).
Proof.
  intros S Ha Hw. unfold word_in in Hw. apply andb_true_iff in Hw as [Ho Hp]. bprop.
  pose proof (find_page_spec pages (page_align_down a)) as Hf. pose proof (page_align_down_spec a Ha).
  destruct (find_page pages _) as [j|].
  - destruct Hf as (e & Hj & He). destruct (write_u64_to_page_spec ld pages b im j e a v additive S Hj He ltac:(lia)) as (s' & E & S').
    exists e, s'. split; [exact Hj|]. done.
  - destruct (im !! _) eqn:Ei; [|done]. destruct Hf. eapply (sim_dom _ _ _ _ _ S). congruence.
Qed.

(** ** Relocation *)

Context (data : list Z) (Hb : bytes_ok data) (Hlen : data_len data < 2 ^ 63).
Context (load_base : Z) (Hbase : 0 <= load_base /\ load_base mod 4096 = 0 /\ load_base + 2 ^ 34 <= 2 ^ 64).
Context (delta : Z).

Lemma rebase_app im l l' : rebase delta load_base im (l ++ l') = rebase delta load_base (rebase delta load_base im l) l'.
Proof. unfold rebase. by rewrite fmap_app, foldl_app. Qed.

Lemma word_in_rebase im l b : word_in (rebase delta load_base im l) b = word_in im b.
Proof.
  unfold rebase. revert im. induction l as [|r l IH]; intros im; simpl; [done|].
  rewrite IH, adjust64_put. apply word_in_put.
Qed.

Local Abbreviation words_in im rvas := (forallb (word_in im) ((fun rva => load_base + rva) <$> rvas) = true).

Lemma words_in_app im l l' : words_in im (l ++ l') -> words_in im l /\ words_in im l'.
Proof. rewrite fmap_app, forallb_app. apply andb_true_iff. Qed.

Lemma words_in_rebase im l l' : words_in im l' -> words_in (rebase delta load_base im l) l'.
Proof.
  induction (_ <$> l') as [|x xs IH]; simpl; [done|]. rewrite word_in_rebase.
  intros [-> H]%andb_true_iff. simpl. auto.
Qed.

Lemma read_u16_Some off e : read_u16 data off = Some e -> 0 <= off /\ off + 2 <= data_len data /\ 0 <= e < 2 ^ 16.
Proof. intros (? & ? & ->)%view_at_Some. split_and!; try done; by apply u16_range. Qed.

(** The entries of one block. *)
Lemma reloc_entries_spec pages b n i entries_off rva es ld im :
  0 <= entries_off -> 0 <= rva < 2 ^ 32 ->
  mapM (fun i : nat => read_u16 data (entries_off + 2 * Z.of_nat i)) (seq i n) = Some es ->
  words_in im (block_targets (rva, es)) -> sim s0 rt (mkProgress _ ld pages b) im ->
  exists s', reloc_entries env n (Z.of_nat i) data entries_off rva delta load_base pages (ld_vm ld) = Some (PE_OK, s') /\
    sim s0 rt (mkProgress _ (set_vm ld s') pages b) (rebase delta load_base im (block_targets (rva, es))).
Proof.
  intros Hoff Hrva. revert i es ld im. induction n as [|n IH]; intros i es ld im Hes Hw S.
  { injection Hes as <-. exists (ld_vm ld). split; [done|]. by destruct ld. }
  cbn [seq mapM] in Hes. destruct (read_u16 data _) as [e|] eqn:Er; [|done].
  destruct (mapM _ (seq _ n)) as [es'|] eqn:Ees; [|done]. injection Hes as <-.
  cbn [reloc_entries]. destruct (read_u16_Some _ _ Er) as (? & ? & He).
  rewrite (wrap_small 64 (entries_off + _)) by lia. rewrite Er. cbn [mbind option_bind].
  replace (Z.of_nat i + 1) with (Z.of_nat (Datatypes.S i)) by lia.
  change (Z.land e 4095) with (Z.land e (Z.ones 12)). rewrite Z.shiftr_div_pow2, Z.land_ones by lia.
  change (2 ^ 12) with 4096. unfold block_targets in *. cbn [List.filter fst snd] in *.
  unfold IMAGE_REL_BASED_ABSOLUTE, IMAGE_REL_BASED_DIR64 in *.
  destruct (Z.eqb_spec (e / 4096) 0) as [Ez|_]; [rewrite Ez in *; cbn [Z.eqb] in *; by apply IH|].
  destruct (e / 4096 =? 10); [|by apply IH].
  rewrite fmap_cons in *. pose proof (Z.mod_pos_bound e 4096 ltac:(lia)).
  rewrite (wrap_small 64 (rva + _)), (wrap_small 64 (load_base + _)) by lia. set (t := rva + e mod 4096) in *.
  rewrite fmap_cons in Hw. cbn [forallb] in Hw. apply andb_true_iff in Hw as [Hw1 Hw].
  destruct (write_word_spec ld pages b im (load_base + t) delta true S ltac:(unfold u64, in_u; lia) Hw1) as (p & s1 & -> & -> & S1).
  cbn [mbind option_bind negb Z.eqb].
  destruct (IH (Datatypes.S i) es' (set_vm ld s1) _ Ees ltac:(by apply (words_in_rebase im [t])) S1) as (s2 & E2 & S2).
  exists s2. split; [exact E2|]. exact S2.
Qed.

(** The blocks of the table. *)
Lemma reloc_blocks_spec pages b reloc_end fuel pos bs ld im :
  reloc_end <= data_len data -> 0 <= pos < 2 ^ 63 + 2 ^ 33 -> blocks_from fuel data reloc_end pos = Some bs ->
  words_in im (concat (block_targets <$> bs)) -> sim s0 rt (mkProgress _ ld pages b) im ->
  exists s', reloc_blocks env fuel data reloc_end pos delta load_base pages (ld_vm ld) = Some (PE_OK, s') /\
    sim s0 rt (mkProgress _ (set_vm ld s') pages b) (rebase delta load_base im (concat (block_targets <$> bs))).
Proof.
  intros Hend. revert pos bs ld im. induction fuel as [|fuel IH]; intros pos bs ld im Hpos Hbs Hw S; [done|].
  assert (exists s', Some (PE_OK, ld_vm ld) = Some (PE_OK, s') /\
    sim s0 rt (mkProgress _ (set_vm ld s') pages b) (rebase delta load_base im [])) as Hdone.
  { exists (ld_vm ld). split; [done|]. by destruct ld. }
  cbn [reloc_blocks blocks_from] in *. unfold SIZEOF_RELOC in *. rewrite (wrap_small 64 (pos + 8)) by lia.
  case_if; [|by injection Hbs as <-]. destruct (read_reloc data pos) as [bl|] eqn:Er; [|done]. cbn [mbind option_bind] in *.
  case_if; [by injection Hbs as <-|]. case_if; [done|].
  apply view_at_Some in Er as (_ & Hsz & ->). cbn [rel_size_of_block rel_virtual_address] in *.
  pose proof (u32_range data Hb (Z.to_nat pos)). pose proof (u32_range data Hb (Z.to_nat pos + 4)).
  set (sz := le_read 4 data (Z.to_nat pos + 4)) in *. set (rva := le_read 4 data (Z.to_nat pos)) in *.
  destruct (mapM _ _) as [es|] eqn:Ees; [|done]. cbn [mbind option_bind] in *.
  destruct (blocks_from fuel data reloc_end _) as [bs'|] eqn:Ebs; [|done]. injection Hbs as <-.
  rewrite fmap_cons in *. cbn [concat] in *. apply words_in_app in Hw as [Hw1 Hw2].
  destruct (reloc_entries_spec pages b _ 0 (pos + 8) rva es ld im ltac:(lia) ltac:(lia) Ees Hw1 S) as (s1 & E1 & S1).
  change (Z.of_nat 0) with 0 in E1. rewrite E1. cbn [mbind option_bind negb Z.eqb PE_OK]. rewrite (wrap_small 64 (pos + sz)), (wrap_small 64 (pos + sz + 3)) by lia.
  assert (Z.land (pos + sz + 3) (bnot 64 3) = (pos + sz + 3) / 4 * 4) as ->.
  { rewrite (land_bnot_align 64 2) by lia. change (2 ^ 2) with 4. pose proof (Z.div_mod (pos + sz + 3) 4 ltac:(lia)). lia. }
  pose proof (Z.div_mod (pos + sz + 3) 4 ltac:(lia)). pose proof (Z.mod_pos_bound (pos + sz + 3) 4 ltac:(lia)).
  destruct (IH ((pos + sz + 3) / 4 * 4) bs' (set_vm ld s1) _ ltac:(lia) Ebs ltac:(by apply words_in_rebase) S1) as (s2 & E2 & S2).
  exists s2. split; [exact E2|]. rewrite rebase_app. exact S2.
Qed.

Lemma pe_relocate_spec pages b info rvas ld im :
  info_ok data info -> pe_reloc_targets data info = Some rvas ->
  words_in im rvas -> sim s0 rt (mkProgress _ ld pages b) im ->
  exists s', pe_relocate env data info delta load_base pages (ld_vm ld) = Some (PE_OK, s') /\
    sim s0 rt (mkProgress _ (set_vm ld s') pages b) (rebase delta load_base im rvas).
Proof.
  intros Hi Hrv Hw S. unfold pe_relocate, pe_reloc_targets in *.
  destruct (read_data_dir data info _) as [dir|] eqn:Ed; [|done]. cbn [mbind option_bind] in *.
  destruct ((dir_virtual_address dir =? 0) || _) eqn:Ez.
  { injection Hrv as <-. exists (ld_vm ld). split; [done|]. by destruct ld. }
  assert (0 <= dir_virtual_address dir < 2 ^ 32 /\ 0 <= dir_size dir < 2 ^ 32) as [Hva Hsz].
  { unfold read_data_dir in Ed. do 2 (case_if; [by injection Ed as <-|]).
    apply view_at_Some in Ed as (_ & _ & ->). split; by apply u32_range. }
  destruct (rva_to_file_offset_returns data Hb Hlen info Hi _ Hva) as (o & Eo & Ho).
  rewrite Eo in *. cbn [mbind option_bind] in *. destruct o as [off|]; [|done]. cbn [mbind option_bind] in *.
  rewrite (wrap_small 64 (off + _)) by lia. destruct (Z.leb_spec (off + dir_size dir) (data_len data)); [|done].
  destruct (Z.gtb_spec (off + dir_size dir) (data_len data)); [lia|].
  destruct (blocks_from _ data _ off) as [bs|] eqn:Ebs; [|done]. injection Hrv as <-.
  eapply reloc_blocks_spec; try done; lia.
Qed.
End words.

(** ** The whole function *)

Context (supply : nat -> Loader -> Prop).

Definition pe_load_outcome (MACHINE : Z) (data : list Z) (load_base : Z) (ld : Loader)
    (code : Z) (out : option PeLoadResult) (ld' : Loader) : Prop :=
  kept (ld_vm ld) (ld_vm ld') /\
  ((exists im res, pe_image MACHINE data load_base = Some (im, res) /\ code = PE_OK /\ out = Some res /\
      holds env (ld_vm ld) (ld_vm ld') im) \/
   ((code = PE_OUT_OF_MEMORY \/ code = PE_MAP_FAILED) /\ out = None)).

(** The frames a file needs: one per page of its image. *)
Definition pe_frames_needed (MACHINE : Z) (data : list Z) (load_base : Z) : nat :=
  match pe_info MACHINE data with
  | Some info => size (seg_image data load_base (pe_segments data info))
  | None => 0
  end.

Lemma pe_load_spec M data load_base info ld :
  valid_pe M data load_base info -> callbacks_ok env (ld_untyped ld =? 0) -> scratch_ok env ->
  exists code out ld', pe_load env M data load_base ld = Some (code, out, ld') /\
    pe_load_outcome M data load_base ld code out ld' /\
    (generous env (new_pe_frame env) supply -> supply (pe_frames_needed M data load_base) ld ->
     (pe_frames_needed M data load_base <= MAX_PE_PAGES)%nat -> code = PE_OK).
Proof.
  intros [Hb Hlen Hv Hn Hbase Hdata Hrel] Hcb Hscr. pose proof (pe_validate_ok data Hb M info Hv) as Hi.
  assert (pe_info M data = Some info) as Hinfo by (unfold pe_info; by rewrite Hv).
  unfold pe_load. rewrite Hv. cbn [mbind option_bind]. destruct (Z.gtb_spec (number_of_sections info) MAX_PE_SECTIONS); [lia|].
  fold (pe_delta info load_base). unfold pe_load_outcome, pe_image, pe_frames_needed. rewrite Hinfo. cbn [mbind option_bind].
  set (delta := pe_delta info load_base) in *. set (cap := Z.min (Z.of_nat MAX_PE_PAGES) (Z.of_nat (size (seg_image data load_base (pe_segments data info))))).
  destruct (map_headers_spec env Henv supply data load_base info (ld_vm ld) (ld_untyped ld =? 0) Hcb Hscr Hlen Hi Hbase cap
    ltac:(lia) (mkProgress _ ld [] 0) ∅) as (h & -> & Hh & Hl); [by apply sim_init | simpl; lia |]. cbn [mbind option_bind].
  assert (forall im' : image, (size im' <= size (seg_image data load_base (pe_segments data info)))%nat ->
    generous env (new_pe_frame env) supply -> supply (size (seg_image data load_base (pe_segments data info))) ld ->
    (size (seg_image data load_base (pe_segments data info)) <= MAX_PE_PAGES)%nat ->
    supplied env (new_pe_frame env) supply cap (mkProgress _ ld [] 0) /\ ~ cap < Z.of_nat (size im')) as Hsup.
  { intros im' Him' G HS Hle. subst cap. rewrite Z.min_r by lia. split; [|lia]. split; [done|]. cbn. by rewrite Z.sub_0_r, Nat2Z.id. }
  destruct h as [pr1|[code ld1]].
  2: { destruct Hh as (Hc & K & L). exists code, None, ld1. split; [done|]. split; [split; [done|by right]|].
    intros G HS Hle. destruct (Hsup (touch_seg data load_base ∅ (hdr_segment data info))) as [Hs1 Hs2]; try done; [|by destruct Hs2; apply L].
    apply (touch_seg_size_mono data load_base (touch_seg data load_base ∅ (hdr_segment data info))). }
  rewrite (for_sections_run data Hlen info Hi). pose proof Hh as (S1 & _).
  destruct (run_sections_spec env Henv supply data load_base (ld_vm ld) (ld_untyped ld =? 0) Hcb Hscr Hlen Hbase cap
    ltac:(lia) (sections data info) pr1 _ (sections_ranges data Hb info) Hdata S1 ltac:(by apply Hl)) as (r & -> & Hr).
  cbn [mbind option_bind].
  set (im := foldl (touch_seg data load_base) _ _) in Hr.
  assert (im = seg_image data load_base (pe_segments data info)) as Eim by done. clearbody im. subst im.
  destruct r as [[ld2 pages b]|[code ld2]].
  2: { destruct Hr as (Hc & K & L). exists code, None, ld2. split; [done|]. split; [split; [done|by right]|].
    intros G HS Hle. destruct (Hsup (seg_image data load_base (pe_segments data info))) as [Hs1 Hs2]; try done.
    destruct Hs2. by apply L, Hh. }
  destruct Hr as (S & _). cbn [pr_ld pr_pages].
  assert (pe_result info load_base = mkPeResult (load_base + entry_point_rva info)%u64 load_base
    (load_base + page_align_up (size_of_image info))%u64) as Eres.
  { pose proof (io_entry _ _ Hi). pose proof (io_size_of_image _ _ Hi).
    destruct (page_align_up_bounds (size_of_image info)) as [_ ?]; [lia..|]. unfold pe_result. by rewrite !wrap_small by lia. }
  rewrite <- Eres. destruct (decide (delta = 0)) as [Hd|Hd].
  - rewrite Hd. cbn [negb Z.eqb mbind option_bind PE_OK]. eexists _, _, _. split; [done|]. split; [|done].
    split; [by apply (sim_kept _ _ _ _ _ S)|]. left. eexists _, _. split; [done|]. split_and!; [done..|]. by apply (sim_holds _ _ _ _ _ S).
  - destruct (Hrel Hd) as (rvas & Hrv & Hw). destruct (Z.eqb_spec delta 0); [done|]. cbn [negb].
    destruct (pe_relocate_spec (ld_vm ld) _ Hscr data Hb Hlen load_base Hbase delta pages b info rvas ld2 _ Hi Hrv Hw S) as (s' & -> & S').
    rewrite Hrv. cbn [mbind option_bind negb Z.eqb PE_OK]. eexists _, _, _. split; [done|]. split; [|done].
    split; [by apply (sim_kept _ _ _ _ _ S')|]. left. eexists _, _. split; [done|]. split_and!; [done..|]. by apply (sim_holds _ _ _ _ _ S').
Qed.
End correct.

(** * Words of the loaded image *)

(** The word at an address, if its page is in the image. *)
Definition image_word (im : image) (a : Z) : option Z :=
  (fun p : list Z * Z => get64 p.1 (Z.to_nat (a - page_align_down a))) <$> im !! page_align_down a.

(** Two words do not overlap. *)
Definition apart (a b : Z) : Prop := a + 8 <= b \/ b + 8 <= a.

#[export] Instance apart_dec a b : Decision (apart a b).
Proof. unfold apart. apply _. Defined.

Lemma apart_sym a b : apart a b -> apart b a.
Proof. unfold apart. lia. Qed.

Lemma get64_put64_eq c off v : (off + 8 <= length c)%nat -> u64 v -> get64 (put64 c off v) off = v.
Proof.
  intros Hl Hv. unfold get64, put64.
  pose proof (le_read_app 8 (take off c) v (drop (off + 8) c) Hv) as E. rewrite length_take, Nat.min_l in E by lia. exact E.
Qed.

Lemma get64_put64_ne c off off' v :
  (off + 8 <= length c)%nat -> (off + 8 <= off' \/ off' + 8 <= off)%nat -> get64 (put64 c off v) off' = get64 c off'.
Proof. intros Hl Hne. apply le_read_ext. intros i Hi. rewrite put64_lookup by done. rewrite decide_False by lia. done. Qed.

(** Every page of the image has the size of a page. *)
Definition sized (im : image) : Prop := forall va c fl, im !! va = Some (c, fl) -> length c = PAGE.

Lemma word_in_page im a :
  word_in im a = true -> exists c fl, im !! page_align_down a = Some (c, fl) /\ a - page_align_down a <= 4088.
Proof. unfold word_in. intros [? Hp]%andb_true_iff. destruct (im !! _) as [[c fl]|]; [|done]. bprop. eauto. Qed.

Lemma sized_put im a f : sized im -> u64 a -> word_in im a = true -> sized (put_word im a f).
Proof.
  intros Hs Ha (c & fl & Hc & Ho)%word_in_page va c' fl'. unfold put_word.
  pose proof (page_align_down_spec a Ha). specialize (Hs _ _ _ Hc) as Hl. unfold PAGE in Hl.
  destruct (decide (va = page_align_down a)) as [->|Hne].
  - rewrite lookup_alter_eq, Hc. intros [= <- <-]. rewrite put64_length; unfold PAGE; lia.
  - rewrite lookup_alter_ne by done. apply Hs.
Qed.

Lemma image_word_put im a b f :
  sized im -> u64 a -> u64 b -> word_in im a = true -> word_in im b = true -> (forall v, u64 (f v)) ->
  (b = a -> image_word (put_word im a f) b = f <$> image_word im b) /\
  (apart a b -> image_word (put_word im a f) b = image_word im b).
Proof.
  intros Hs Ha Hb Hwa Hwb Hf. destruct (word_in_page im a Hwa) as (c & fl & Hc & Ho), (word_in_page im b Hwb) as (c' & fl' & Hc' & Ho').
  pose proof (page_align_down_spec a Ha) as (_ & ? & _). pose proof (page_align_down_spec b Hb) as (_ & ? & _).
  pose proof (Hs _ _ _ Hc) as Hl. unfold PAGE in Hl. unfold image_word, put_word. split.
  - intros ->. rewrite lookup_alter_eq, Hc. cbn [fmap option_fmap option_map]. simpl. rewrite get64_put64_eq by (done || lia). done.
  - intros Hap. destruct (decide (page_align_down b = page_align_down a)) as [Heq|Hne].
    + rewrite Heq, lookup_alter_eq, Hc. simpl. rewrite get64_put64_ne; [done|lia|]. unfold apart in Hap. lia.
    + by rewrite lookup_alter_ne.
Qed.

(** ** A sequence of updates *)

Definition put_words (im : image) (l : list (Z * (Z -> Z))) : image := foldl (fun im p => put_word im p.1 p.2) im l.

Lemma word_in_puts im l b : word_in (put_words im l) b = word_in im b.
Proof.
  unfold put_words. revert im. induction l as [|[a f] l IH]; intros im; [done|]. cbn [foldl fst snd].
  rewrite IH. apply word_in_put.
Qed.

(** The updates stay in the image and in [u64]. *)
Definition puts_ok (im : image) (l : list (Z * (Z -> Z))) : Prop :=
  Forall (fun p => u64 p.1 /\ word_in im p.1 = true /\ forall v, u64 (p.2 v)) l.

Lemma put_words_keeps im l b :
  sized im -> puts_ok im l -> u64 b -> word_in im b = true -> Forall (fun p => apart p.1 b) l ->
  image_word (put_words im l) b = image_word im b.
Proof.
  intros Hs Hl Hb Hw. revert im Hs Hl Hw. induction l as [|[a f] l IH]; intros im Hs Hl Hw Hap; [done|].
  apply Forall_cons in Hl as [(Ha & Hwa & Hf) Hl], Hap as [Hap Hap']. simpl in *. unfold put_words in *. cbn [foldl fst snd]. rewrite IH.
  - by apply image_word_put.
  - by apply sized_put.
  - eapply Forall_impl; [apply Hl|]. intros p. by rewrite word_in_put.
  - by rewrite word_in_put.
  - done.
Qed.

Lemma put_words_spec im l :
  sized im -> puts_ok im l -> ForallOrdPairs (fun p q => apart p.1 q.1) l ->
  Forall (fun p => image_word (put_words im l) p.1 = p.2 <$> image_word im p.1) l.
Proof.
  intros Hs Hl Hap. revert im Hs Hl. induction Hap as [|[a f] l Hap _ IH]; intros im Hs Hl; constructor.
  - apply Forall_cons in Hl as [(Ha & Hwa & Hf) Hl]. simpl in *. unfold put_words. cbn [foldl fst snd].
    fold (put_words (put_word im a f) l). rewrite put_words_keeps; [by apply image_word_put| by apply sized_put | | done | by rewrite word_in_put |].
    + eapply Forall_impl; [apply Hl|]. intros p. by rewrite word_in_put.
    + eapply Forall_impl; [apply Hap|]. intros p. apply apart_sym.
  - apply Forall_cons in Hl as [(Ha & Hwa & Hf) Hl]. simpl in *. unfold put_words. cbn [foldl fst snd].
    fold (put_words (put_word im a f) l).
    assert (Forall (fun p => image_word (put_words (put_word im a f) l) p.1 = p.2 <$> image_word (put_word im a f) p.1) l) as H.
    { apply IH; [by apply sized_put|]. eapply Forall_impl; [apply Hl|]. intros p. by rewrite word_in_put. }
    apply Forall_forall. intros p Hp. eapply Forall_forall in H as ->; [|done]. f_equal.
    eapply Forall_forall in Hl as (? & ? & ?); [|done]. eapply Forall_forall in Hap; [|done]. by apply image_word_put.
Qed.

(** Permissions and the set of pages do not change. *)
Lemma put_words_flags im l va : snd <$> put_words im l !! va = snd <$> im !! va.
Proof.
  unfold put_words. revert im. induction l as [|[a f] l IH]; intros im; [done|]. cbn [foldl fst snd]. rewrite IH.
  unfold put_word. destruct (decide (va = page_align_down a)) as [->|].
  - rewrite lookup_alter_eq. by destruct (im !! _) as [[]|].
  - by rewrite lookup_alter_ne.
Qed.

(** ** Relocation and segments *)

Lemma rebase_put delta load_base im rvas :
  rebase delta load_base im rvas = put_words im ((fun rva => (load_base + rva, fun v => (v + delta)%u64)) <$> rvas).
Proof.
  unfold rebase, put_words. revert im. induction rvas as [|r rvas IH]; intros im; simpl; [done|]. by rewrite IH.
Qed.

Lemma touch_sized data delta ph im vs : sized im -> sized (foldl (touch data delta ph) im vs).
Proof.
  revert im. induction vs as [|v vs IH]; intros im Hs; simpl; [done|]. apply IH. intros va c fl. unfold touch.
  destruct (decide (va = v)) as [->|]; [|rewrite lookup_insert_ne by done; apply Hs].
  rewrite lookup_insert_eq. unfold touched. destruct (im !! v) as [[c0 fl0]|] eqn:E; intros [= <- <-]; rewrite overlay_length; [by eapply Hs|done].
Qed.

Lemma seg_image_sized data delta l : sized (seg_image data delta l).
Proof.
  unfold seg_image. assert (sized ∅) as H by done. revert H. generalize (∅ : image). induction l as [|ph l IH]; intros im Hs; simpl; [done|].
  apply IH. by apply touch_sized.
Qed.
