(* ===== verification/PeImports.v ===== *)
(** Import resolution of a loaded PE image: the import tables of the file as a
    list of symbols with their slots, and that [pe_resolve_imports] fills each
    slot with the resolver's answer; and the names of the imported libraries. *)

From stdpp Require Import gmap.
From S2P Require Import Prelude Consts Elf Vm ElfLoad ElfImage VmSim ElfDynamic Pe PeLoad PeImage PeRefine PeCorrect.

(** A symbol, and the relative address of the slot that receives it. *)
Record Import := mkImp { imp_dll : list Z; imp_func : option (list Z); imp_ordinal : Z; imp_slot : Z }.

(** ** The symbols a file imports *)

Section tables.
Context (data : list Z) (info : PeInfo).

(** The place of a relative address in the file, if it has one. *)
Definition file_offset (rva : Z) : option Z :=
  match rva_to_file_offset data info rva with Some o => o | None => None end.

(** The name in the file at an offset: up to a zero byte or the end. *)
Definition name_at (off : Z) : list Z := cstr (drop (Z.to_nat off) data).

(** By ordinal, or by name, which follows a hint of two bytes. *)
Definition symbol_of (e : Z) : option (list Z) * Z :=
  if Z.testbit e 63 then (None, e mod 2 ^ 16)
  else match file_offset (e mod 2 ^ 31) with
       | Some hint => if hint + 2 <? data_len data then (Some (name_at (hint + 2)), 0) else (None, 0)
       | None => (None, 0)
       end.

(** The entries of a lookup table, up to a zero or the end of the file. *)
Fixpoint table_imports (fuel : nat) (dll : list Z) (ilt iat idx : Z) : list Import :=
  match fuel with
  | O => []
  | S fuel' =>
      let e := le_read 8 data (Z.to_nat (ilt + idx * 8)) in
      if (ilt + idx * 8 + 8 >? data_len data) || (e =? 0) then []
      else mkImp dll (symbol_of e).1 (symbol_of e).2 (iat + idx * 8) :: table_imports fuel' dll ilt iat (idx + 1)
  end.

Definition lookup_table (desc : ImportDescriptor) : Z :=
  if original_first_thunk desc =? 0 then first_thunk desc else original_first_thunk desc.

Definition dll_imports (desc : ImportDescriptor) : list Import :=
  match file_offset (name_rva desc), file_offset (lookup_table desc) with
  | Some name_off, Some ilt => table_imports (S (length data)) (name_at name_off) ilt (first_thunk desc) 0
  | _, _ => []
  end.

(** The descriptors, up to a null one or the end of the file. *)
Fixpoint descriptors (fuel : nat) (pos : Z) : list ImportDescriptor :=
  match fuel with
  | O => []
  | S fuel' =>
      match read_import data pos with
      | Some desc => if is_null desc then [] else desc :: descriptors fuel' (pos + SIZEOF_IMPORT)
      | None => []
      end
  end.

(** The imports of a file; [None] if it has a directory that is at no place of
    the file. *)
Definition pe_imports : option (list Import) :=
  let dir := default DataDirectory_zeroed (read_data_dir data info IMAGE_DIRECTORY_ENTRY_IMPORT) in
  if (dir_virtual_address dir =? 0) || (dir_size dir =? 0) then Some []
  else
    off ← file_offset (dir_virtual_address dir);
    Some (concat (dll_imports <$> descriptors (S (length data)) off)).

(** ** Reading the tables never leaves the file *)

Context (Hb : bytes_ok data) (Hlen : data_len data < 2 ^ 63) (Hi : info_ok data info).

Lemma file_offset_spec rva :
  0 <= rva < 2 ^ 32 -> rva_to_file_offset data info rva = Some (file_offset rva) /\
  forall off, file_offset rva = Some off -> 0 <= off < 2 ^ 33 \/ 0 <= off < data_len data.
Proof.
  intros Hr. destruct (rva_to_file_offset_returns data Hb Hlen info Hi rva Hr) as (o & E & Ho).
  unfold file_offset. rewrite E. split; [done|]. intros off ->. lia.
Qed.

Lemma name_at_spec off :
  0 <= off < 2 ^ 63 + 2 ^ 34 ->
  (len ← name_len data (S (length data)) off 0; read_name data off len) = Some (name_at off).
Proof.
  intros Hoff. unfold name_at. destruct (decide (off <= data_len data)) as [Hle|Hgt].
  - rewrite name_len_spec by (unfold data_len in *; lia). rewrite Z.add_0_l, Z.add_0_r. cbn [mbind option_bind].
    destruct (cstr_prefix (drop (Z.to_nat off) data)) as [rest Hrest].
    pose proof (f_equal length Hrest) as Hl. rewrite length_app, length_drop in Hl.
    rewrite read_name_spec by (unfold data_len in *; lia). rewrite Hrest at 2. by rewrite take_app_length.
  - cbn [name_len]. rewrite Z.add_0_r, wrap_small by lia. destruct (Z.ltb_spec off (data_len data)); [lia|].
    rewrite drop_ge by (unfold data_len in *; lia). done.
Qed.

Lemma import_symbol_spec e : 0 <= e < 2 ^ 64 -> import_symbol data info e = Some (symbol_of e).
Proof.
  intros He. unfold import_symbol, symbol_of. rewrite land_shiftl1_nonzero by lia.
  change 0xFFFF with (Z.ones 16). change 0x7FFFFFFF with (Z.ones 31). rewrite !Z.land_ones by lia.
  destruct (Z.testbit e 63); [done|]. pose proof (Z.mod_pos_bound e (2 ^ 31) ltac:(lia)).
  destruct (file_offset_spec (e mod 2 ^ 31)) as [-> Ho]; [lia|]. cbn [mbind option_bind].
  destruct (file_offset _) as [h|]; [|done]. specialize (Ho h eq_refl). rewrite (wrap_small 64 (h + 2)) by lia.
  destruct (h + 2 <? data_len data); [|done].
  pose proof (name_at_spec (h + 2) ltac:(lia)) as E. apply bind_Some in E as (len & -> & E2). cbn [mbind option_bind].
  by rewrite E2.
Qed.
End tables.

(** ** Filling the slots *)

Section resolve.
Context `{V : Vm} {VOK : VmOk V} (env : LoaderEnv) (Henv : env_ok env) (Hscr : scratch_ok env).
Context (data : list Z) (info : PeInfo) (Hb : bytes_ok data) (Hlen : data_len data < 2 ^ 63) (Hi : info_ok data info).
Context (load_base : Z) (Hbase : 0 <= load_base /\ load_base mod 4096 = 0 /\ load_base + 2 ^ 34 <= 2 ^ 64).
Context (resolve_fn : vm -> list Z -> option (list Z) -> Z -> Z * vm) (addr : list Z -> option (list Z) -> Z -> Z).

(** The resolver answers from the symbol alone and leaves memory as it is. *)
Definition resolver_ok : Prop :=
  forall s d f o, exists s', resolve_fn s d f o = (addr d f o, s') /\ vm_same s s' .

Context (Hres : resolver_ok) (s0 : vm) (rt : bool).

(** The word a symbol's slot receives. *)
Definition slot_update (i : Import) : Z * (Z -> Z) :=
  (load_base + imp_slot i, fun _ => addr (imp_dll i) (imp_func i) (imp_ordinal i)).

Definition slot_in (im : image) (i : Import) : bool :=
  (imp_slot i <? 2 ^ 34) && word_in im (load_base + imp_slot i).

Lemma slots_in_put im l l' : forallb (slot_in im) l' = true -> forallb (slot_in (put_words im l)) l' = true.
Proof.
  intros H. rewrite <- H. clear H. induction l' as [|x xs IH]; simpl; [done|]. rewrite IH.
  unfold slot_in. by rewrite word_in_puts.
Qed.

Lemma put_words_app im l l' : put_words im (l ++ l') = put_words (put_words im l) l'.
Proof. apply foldl_app. Qed.

(** The entries of one table. *)
Lemma resolve_entries_spec pages b dll ilt iat fuel idx ld im :
  0 <= ilt < 2 ^ 63 + 2 ^ 33 -> 0 <= iat < 2 ^ 32 -> 0 <= idx -> (0 < fuel)%nat ->
  (idx = 0 \/ ilt + idx * 8 <= data_len data) -> data_len data - (ilt + idx * 8) < Z.of_nat fuel ->
  let l := table_imports data info fuel dll ilt iat idx in
  forallb (slot_in im) l = true -> sim env s0 rt (mkProgress _ ld pages b) im ->
  exists s', resolve_entries env resolve_fn fuel data info load_base dll ilt iat idx pages (ld_vm ld) = Some (PE_OK, s') /\
    sim env s0 rt (mkProgress _ (set_vm ld s') pages b) (put_words im (slot_update <$> l)).
Proof.
  intros Hilt Hiat. revert idx ld im. induction fuel as [|fuel IH]; intros idx ld im Hidx Hf Hpos Hfuel; [lia|].
  cbn [resolve_entries table_imports]. cbv zeta. intros Hs S.
  assert (exists s', Some (PE_OK, ld_vm ld) = Some (PE_OK, s') /\
    sim env s0 rt (mkProgress _ (set_vm ld s') pages b) (put_words im (slot_update <$> []))) as Hdone.
  { exists (ld_vm ld). split; [done|]. by destruct ld. }
  rewrite (wrap_small 64 (idx * 8)), (wrap_small 64 (ilt + _)), (wrap_small 64 (_ + 8)) by lia.
  destruct (Z.gtb_spec (ilt + idx * 8 + 8) (data_len data)); [done|]. cbn [orb] in *.
  unfold read_u64. rewrite view_at_in by lia. cbn [mbind option_bind].
  set (e := le_read 8 data _) in *. pose proof (u64_range data Hb (Z.to_nat (ilt + idx * 8)) : 0 <= e < 2 ^ 64) as He.
  destruct (e =? 0); [done|]. rewrite import_symbol_spec by done. cbn [mbind option_bind].
  destruct (symbol_of data info e) as [fn ord]. cbn [fst snd forallb] in Hs. apply andb_true_iff in Hs as [Hs1 Hs].
  unfold slot_in in Hs1. cbn [imp_slot] in Hs1. bprop.
  destruct (Hres (ld_vm ld) dll fn ord) as (s1 & -> & Hsame).
  rewrite (wrap_small 64 (iat + _)), (wrap_small 64 (load_base + _)) by lia.
  pose proof (sim_same env s0 rt ld pages b im s1 S Hsame) as S1.
  destruct (write_word_spec env Henv s0 rt Hscr (set_vm ld s1) pages b im (load_base + (iat + idx * 8)) (addr dll fn ord) false S1)
    as (p & s2 & -> & E2 & S2); [unfold u64, in_u; lia | done |].
  cbn [set_vm ld_vm] in E2. rewrite E2. cbn [mbind option_bind negb Z.eqb].
  destruct (IH (idx + 1) (set_vm ld s2) (put_word im (load_base + (iat + idx * 8)) (fun _ => addr dll fn ord)) ltac:(lia) ltac:(lia)
    ltac:(lia) ltac:(lia)) as (s3 & E3 & S3); [|exact S2|].
  { by apply (slots_in_put im [(load_base + (iat + idx * 8), fun _ => addr dll fn ord)]). }
  exists s3. split; [exact E3|]. exact S3.
Qed.

Lemma resolve_dll_spec pages b desc ld im :
  0 <= name_rva desc < 2 ^ 32 -> 0 <= original_first_thunk desc < 2 ^ 32 -> 0 <= first_thunk desc < 2 ^ 32 ->
  forallb (slot_in im) (dll_imports data info desc) = true -> sim env s0 rt (mkProgress _ ld pages b) im ->
  exists s', resolve_dll env resolve_fn data info load_base desc pages (ld_vm ld) = Some (PE_OK, s') /\
    sim env s0 rt (mkProgress _ (set_vm ld s') pages b) (put_words im (slot_update <$> dll_imports data info desc)).
Proof.
  intros Hn Ho Hf Hs S. unfold resolve_dll, dll_imports in *.
  assert (exists s', Some (PE_OK, ld_vm ld) = Some (PE_OK, s') /\
    sim env s0 rt (mkProgress _ (set_vm ld s') pages b) (put_words im (slot_update <$> []))) as Hdone.
  { exists (ld_vm ld). split; [done|]. by destruct ld. }
  destruct (file_offset_spec data info Hb Hlen Hi (name_rva desc) Hn) as [-> Hno]. cbn [mbind option_bind].
  destruct (file_offset data info (name_rva desc)) as [noff|]; [|done]. specialize (Hno _ eq_refl).
  pose proof (name_at_spec data Hlen noff ltac:(lia)) as E. apply bind_Some in E as (len & -> & E2). cbn [mbind option_bind].
  rewrite E2. cbn [mbind option_bind].
  replace (if negb (original_first_thunk desc =? 0) then _ else _) with (lookup_table desc) by (unfold lookup_table; by destruct (_ =? 0)).
  assert (0 <= lookup_table desc < 2 ^ 32) as Hlt by (unfold lookup_table; by case_if).
  destruct (file_offset_spec data info Hb Hlen Hi (lookup_table desc) Hlt) as [-> Hlo]. cbn [mbind option_bind].
  destruct (file_offset data info (lookup_table desc)) as [ilt|]; [|done]. specialize (Hlo _ eq_refl).
  apply resolve_entries_spec; try done; unfold data_len in *; lia.
Qed.

Lemma resolve_from_spec pages b fuel pos ld im :
  0 <= pos < 2 ^ 63 + 2 ^ 34 -> (0 < fuel)%nat -> data_len data - pos < Z.of_nat fuel ->
  let l := concat (dll_imports data info <$> descriptors data fuel pos) in
  forallb (slot_in im) l = true -> sim env s0 rt (mkProgress _ ld pages b) im ->
  exists s', resolve_from env resolve_fn fuel data info load_base pos pages (ld_vm ld) = Some (PE_OK, s') /\
    sim env s0 rt (mkProgress _ (set_vm ld s') pages b) (put_words im (slot_update <$> l)).
Proof.
  revert pos ld im. induction fuel as [|fuel IH]; intros pos ld im Hpos Hf Hfuel; [lia|]. cbn [resolve_from descriptors]. cbv zeta. intros Hs S.
  assert (exists s', Some (PE_OK, ld_vm ld) = Some (PE_OK, s') /\
    sim env s0 rt (mkProgress _ (set_vm ld s') pages b) (put_words im (slot_update <$> []))) as Hdone.
  { exists (ld_vm ld). split; [done|]. by destruct ld. }
  unfold read_import, SIZEOF_IMPORT in *. rewrite (wrap_small 64 (pos + 20)) by lia.
  destruct (Z.gtb_spec (pos + 20) (data_len data)).
  { assert (forall T (f : nat -> T), view_at data 20 pos f = None) as E.
    { intros. unfold view_at. destruct ((0 <=? pos) && _) eqn:E; [bprop; lia|done]. }
    rewrite E in *. exact Hdone. }
  rewrite view_at_in in * by lia. cbn [mbind option_bind] in *. set (desc := mkImport _ _ _ _ _) in *.
  destruct (is_null desc); [exact Hdone|]. rewrite fmap_cons in *. cbn [concat] in *. rewrite forallb_app in Hs. apply andb_true_iff in Hs as [Hs1 Hs2].
  destruct (resolve_dll_spec pages b desc ld im) as (s1 & -> & S1); try done; [by apply u32_range..|].
  cbn [mbind option_bind negb Z.eqb PE_OK].
  destruct (IH (pos + 20) (set_vm ld s1) _ ltac:(lia) ltac:(lia) ltac:(lia) ltac:(by apply slots_in_put) S1) as (s2 & E2 & S2).
  exists s2. split; [exact E2|]. rewrite fmap_app, put_words_app. exact S2.
Qed.

(** [pe_resolve_imports] returns, and the image it leaves has every symbol's
    address in its slot. *)
Lemma pe_resolve_imports_sim pages b l ld im :
  pe_imports data info = Some l -> forallb (slot_in im) l = true -> sim env s0 rt (mkProgress _ ld pages b) im ->
  exists s', pe_resolve_imports env resolve_fn data info load_base pages (ld_vm ld) = Some (PE_OK, s') /\
    sim env s0 rt (mkProgress _ (set_vm ld s') pages b) (put_words im (slot_update <$> l)).
Proof.
  intros Hl Hs S. unfold pe_resolve_imports, pe_imports in *.
  destruct (read_data_dir_returns data Hb info Hi IMAGE_DIRECTORY_ENTRY_IMPORT) as (dir & Ed & Hdir & _); [done|].
  rewrite Ed in *. cbn [mbind option_bind default from_option id] in *. case_if.
  { injection Hl as <-. exists (ld_vm ld). split; [done|]. by destruct ld. }
  destruct (file_offset_spec data info Hb Hlen Hi _ Hdir) as [-> Ho]. cbn [mbind option_bind].
  destruct (file_offset data info _) as [off|]; [|done]. injection Hl as <-. specialize (Ho _ eq_refl).
  apply resolve_from_spec; try done; unfold data_len in *; lia.
Qed.
End resolve.

(** * Names of imported libraries *)

(** The names the structure holds. *)
Definition imports_of (r : PeImports) : list (list Z) := zip_with take (take (pi_count r) (pi_lens r)) (pi_names r).

Record imports_wf (r : PeImports) : Prop := {
  iw_count : (pi_count r <= MAX_PE_IMPORTS)%nat;
  iw_names : length (pi_names r) = MAX_PE_IMPORTS;
  iw_rows : Forall (fun row => length row = MAX_PE_IMPORT_NAME) (pi_names r);
  iw_lens : length (pi_lens r) = MAX_PE_IMPORTS;
}.

Lemma imports_new_wf : imports_wf PeImports_new.
Proof. split; [apply Nat.le_0_l | done | by apply Forall_replicate | done]. Qed.

Lemma length_imports_of r : imports_wf r -> length (imports_of r) = pi_count r.
Proof. intros [? ? ? ?]. unfold imports_of. rewrite length_zip_with, length_take. lia. Qed.

Lemma push_import_spec r name :
  imports_wf r -> (pi_count r < MAX_PE_IMPORTS)%nat -> (length name <= MAX_PE_IMPORT_NAME)%nat ->
  imports_wf (push_import r name) /\ imports_of (push_import r name) = imports_of r ++ [name].
Proof.
  intros W Hlt Hl. pose proof (length_imports_of r W) as Hz. destruct W as [Hc Hn Hr Hlen]. unfold push_import. split.
  - split; simpl; [lia | by rewrite length_alter | | by rewrite length_insert].
    apply Forall_alter; [done|]. intros row _ Hrow. rewrite length_copy_from_slice; lia.
  - apply list_eq. intros i. unfold imports_of at 1. simpl. rewrite lookup_zip_with, list_lookup_alter.
    destruct (decide (i < pi_count r)%nat) as [Hi|Hi].
    + rewrite lookup_app_l by lia. unfold imports_of. rewrite lookup_zip_with, !lookup_take_lt by lia.
      rewrite list_lookup_insert_ne by lia. rewrite decide_False by lia. done.
    + rewrite lookup_app_r by lia. rewrite Hz. destruct (decide (i = pi_count r)) as [->|Hne].
      * rewrite lookup_take_lt, list_lookup_insert_eq, decide_True by lia. rewrite Nat.sub_diag. simpl.
        destruct (lookup_lt_is_Some_2 (pi_names r) (pi_count r)) as [row Hrow]; [lia|]. rewrite Hrow. simpl. f_equal.
        unfold copy_from_slice. by rewrite take_app_length.
      * rewrite lookup_take_ge by lia. simpl. symmetry. apply lookup_ge_None. simpl. lia.
Qed.

Section names.
Context (data : list Z) (info : PeInfo).

(** The name of a descriptor as it is listed; empty if it is not. *)
Definition listed_name (d : ImportDescriptor) : list Z :=
  match file_offset data info (name_rva d) with
  | Some off => take MAX_PE_IMPORT_NAME (name_at data off)
  | None => []
  end.

Definition listed_imports : list (list Z) :=
  let dir := default DataDirectory_zeroed (read_data_dir data info IMAGE_DIRECTORY_ENTRY_IMPORT) in
  if (dir_virtual_address dir =? 0) || (dir_size dir =? 0) then []
  else match file_offset data info (dir_virtual_address dir) with
       | Some off => take MAX_PE_IMPORTS (List.filter (fun n => negb (bool_decide (n = [])))
                       (listed_name <$> descriptors data (S (length data)) off))
       | None => []
       end.

Context (Hb : bytes_ok data) (Hlen : data_len data < 2 ^ 63) (Hi : info_ok data info).

Lemma import_name_len_spec fuel off len :
  0 <= off < 2 ^ 63 + 2 ^ 33 -> 0 <= len <= Z.of_nat MAX_PE_IMPORT_NAME -> off + len <= data_len data \/ len = 0 ->
  Z.of_nat MAX_PE_IMPORT_NAME - len < Z.of_nat fuel ->
  import_name_len data fuel off len =
  Some (len + Z.of_nat (length (take (MAX_PE_IMPORT_NAME - Z.to_nat len) (cstr (drop (Z.to_nat (off + len)) data))))).
Proof.
  intros Hoff. revert len. unfold MAX_PE_IMPORT_NAME. induction fuel as [|fuel IH]; intros len Hl Hc Hf; [lia|].
  cbn [import_name_len]. rewrite (wrap_small 64) by lia. case_if.
  - unfold read_byte. destruct (Z.ltb_spec (off + len) 0); [lia|].
    destruct (lookup_lt_is_Some_2 data (Z.to_nat (off + len))) as [b Hbt]; [unfold data_len in *; lia|]. rewrite Hbt. simpl mbind.
    rewrite (drop_S _ _ _ Hbt). unfold MAX_PE_IMPORT_NAME. simpl cstr. destruct (b =? 0); cbn [negb andb].
    { rewrite take_nil. simpl. f_equal. lia. }
    destruct (Z.ltb_spec len (Z.of_nat 32)).
    + rewrite IH by lia. replace (Z.to_nat (off + (len + 1))) with (S (Z.to_nat (off + len))) by lia.
      replace (32 - Z.to_nat len)%nat with (S (32 - Z.to_nat (len + 1))) by lia. cbn [take length]. f_equal. lia.
    + replace (32 - Z.to_nat len)%nat with 0%nat by lia. simpl. f_equal. lia.
  - rewrite drop_ge by (unfold data_len in *; lia). cbn [cstr]. rewrite take_nil. simpl. f_equal. lia.
Qed.

(** The part of the loop that reads one name. *)
Lemma listed_name_spec d r :
  0 <= name_rva d < 2 ^ 32 ->
  (o ← rva_to_file_offset data info (name_rva d);
   match o with
   | Some name_off =>
       len ← import_name_len data (S (S MAX_PE_IMPORT_NAME)) name_off 0;
       if len >? 0 then name ← read_name data name_off len; Some (push_import r name) else Some r
   | None => Some r
   end) = Some (if bool_decide (listed_name d = []) then r else push_import r (listed_name d)).
Proof.
  intros Hr. destruct (file_offset_spec data info Hb Hlen Hi _ Hr) as [-> Ho]. cbn [mbind option_bind]. unfold listed_name.
  destruct (file_offset data info (name_rva d)) as [off|]; [|by rewrite bool_decide_true]. specialize (Ho off eq_refl).
  rewrite import_name_len_spec by (unfold MAX_PE_IMPORT_NAME; lia). rewrite Z.add_0_r, Z.add_0_l, Nat.sub_0_r. cbn [mbind option_bind].
  fold (name_at data off). set (nm := take MAX_PE_IMPORT_NAME (name_at data off)).
  destruct (bool_decide_reflect (nm = [])) as [->|E]; [done|].
  assert (length nm <> 0)%nat by (destruct nm; [done|simpl; lia]). destruct (Z.gtb_spec (Z.of_nat (length nm)) 0); [|lia].
  destruct (cstr_prefix (drop (Z.to_nat off) data)) as [rest Hrest]. fold (name_at data off) in Hrest.
  pose proof (f_equal length Hrest) as Hl. rewrite length_app, length_drop in Hl.
  assert (length nm <= length (name_at data off))%nat by (subst nm; rewrite length_take; lia).
  rewrite read_name_spec by (unfold data_len in *; lia). cbn [mbind option_bind].
  assert (take (length nm) (drop (Z.to_nat off) data) = nm) as ->; [|done].
  rewrite Hrest, take_app_le by lia. subst nm. apply take_length_take.
Qed.

Lemma imports_from_spec fuel pos r :
  0 <= pos < 2 ^ 63 + 2 ^ 34 -> (0 < fuel)%nat -> data_len data - pos < Z.of_nat fuel -> imports_wf r ->
  exists r', imports_from data fuel info pos r = Some r' /\ imports_wf r' /\
    imports_of r' = take MAX_PE_IMPORTS (imports_of r ++
      List.filter (fun n => negb (bool_decide (n = []))) (listed_name <$> descriptors data fuel pos)).
Proof.
  revert pos r. induction fuel as [|fuel IH]; intros pos r Hpos Hf Hfuel W; [lia|]. cbn [imports_from descriptors].
  pose proof (length_imports_of r W) as Hlr. pose proof (iw_count _ W) as Hcr.
  assert (exists r', Some r = Some r' /\ imports_wf r' /\ imports_of r' = take MAX_PE_IMPORTS (imports_of r ++ [])) as Hdone.
  { exists r. split; [done|]. split; [done|]. rewrite app_nil_r, take_ge; [done|lia]. }
  unfold read_import, SIZEOF_IMPORT. rewrite (wrap_small 64 (pos + 20)) by lia.
  destruct (Z.gtb_spec (pos + 20) (data_len data)).
  { assert (forall T (f : nat -> T), view_at data 20 pos f = None) as E.
    { intros. unfold view_at. destruct ((0 <=? pos) && _) eqn:E; [bprop; lia|done]. }
    rewrite E. exact Hdone. }
  rewrite view_at_in by lia. cbn [mbind option_bind]. set (desc := mkImport _ _ _ _ _).
  destruct (is_null desc); [exact Hdone|]. destruct (Nat.leb_spec MAX_PE_IMPORTS (pi_count r)) as [Hfull|Hroom].
  { exists r. split; [done|]. split; [done|]. rewrite take_app_le, take_ge; [done|lia..]. }
  rewrite fmap_cons. cbn [List.filter].
  pose proof (listed_name_spec desc r ltac:(by apply u32_range)) as Hn.
  set (r1 := if bool_decide (listed_name desc = []) then r else push_import r (listed_name desc)) in Hn.
  assert (imports_wf r1 /\ imports_of r1 = imports_of r ++ (if negb (bool_decide (listed_name desc = [])) then [listed_name desc] else []))
    as [W1 E1].
  { subst r1. destruct (bool_decide (listed_name desc = [])); simpl; [by rewrite app_nil_r|].
    apply push_import_spec; [done..|]. unfold listed_name. destruct (file_offset data info _); [rewrite length_take; lia|simpl; lia]. }
  destruct (IH (pos + 20) r1 ltac:(lia) ltac:(lia) ltac:(lia) W1) as (r2 & E2 & W2 & N2).
  exists r2. split.
  - destruct (rva_to_file_offset data info (name_rva desc)) as [o|]; [|done]. cbn [mbind option_bind] in *. rewrite Hn.
    cbn [mbind option_bind]. exact E2.
  - split; [done|]. rewrite N2, E1. f_equal. destruct (bool_decide _); simpl; by rewrite <- app_assoc.
Qed.

(** [pe_get_imports] returns on every validated file, and lists what the
    descriptors name. *)
Lemma pe_get_imports_returns :
  exists r, pe_get_imports data info = Some r /\ imports_wf r /\ imports_of r = listed_imports.
Proof.
  unfold pe_get_imports, listed_imports.
  destruct (read_data_dir_returns data Hb info Hi IMAGE_DIRECTORY_ENTRY_IMPORT) as (dir & Ed & Hdir & _); [done|].
  rewrite Ed. cbn [mbind option_bind default from_option id]. pose proof imports_new_wf as W0. case_if; [by exists PeImports_new|].
  destruct (file_offset_spec data info Hb Hlen Hi _ Hdir) as [-> Ho]. cbn [mbind option_bind].
  destruct (file_offset data info _) as [off|]; [|by exists PeImports_new]. specialize (Ho _ eq_refl).
  destruct (imports_from_spec (S (length data)) off PeImports_new) as (r & E & W & N); try done; [unfold data_len in *; lia..|]. eauto.
Qed.
End names.
