(* ===== verification/PeTheorems.v ===== *)
(** What is proved of the PE loader, with a sample file on which every
    hypothesis holds. *)

From stdpp Require Import gmap.
From S2P Require Import Prelude Consts Elf Vm ElfLoad ElfImage VmSim ElfDynamic.
From S2P Require Import Pe PeLoad PeImage PeRefine PeCorrect PeImports.

(** ** A sample file *)

(** The headers of a file with [n] sections, whose six data directories and
    section headers follow. *)
Definition pe_header_bytes (n entry base headers : Z) : list Z :=
  le_bytes 2 PE_DOS_MAGIC ++ replicate 58 0 ++ le_bytes 4 64 ++
  le_bytes 4 PE_SIGNATURE ++
  le_bytes 2 PE_MACHINE_AMD64 ++ le_bytes 2 n ++ replicate 12 0 ++ le_bytes 2 160 ++ le_bytes 2 2 ++
  le_bytes 2 PE_OPT_MAGIC_PE32PLUS ++ replicate 14 0 ++ le_bytes 4 entry ++ le_bytes 4 0 ++ le_bytes 8 base ++
  le_bytes 4 4096 ++ le_bytes 4 16 ++ replicate 16 0 ++ le_bytes 4 0x4000 ++ le_bytes 4 headers ++
  replicate 44 0 ++ le_bytes 4 6.

Definition dir_bytes (va size : Z) : list Z := le_bytes 4 va ++ le_bytes 4 size.

Definition section_bytes (vsize va rawsize raw chars : Z) : list Z :=
  replicate 8 0 ++ le_bytes 4 vsize ++ le_bytes 4 va ++ le_bytes 4 rawsize ++ le_bytes 4 raw ++
  replicate 12 0 ++ le_bytes 4 chars.

(** Code, data with a pointer and an import table, and relocations. *)
Definition sample_pe : list Z :=
  pe_header_bytes 3 0x1004 0x140000000 368 ++
  dir_bytes 0 0 ++ dir_bytes 0x2008 40 ++ dir_bytes 0 0 ++ dir_bytes 0 0 ++ dir_bytes 0 0 ++ dir_bytes 0x3000 12 ++
  section_bytes 16 0x1000 16 368 (Z.lor IMAGE_SCN_MEM_EXECUTE IMAGE_SCN_MEM_READ) ++
  section_bytes 0x100 0x2000 96 384 (Z.lor IMAGE_SCN_MEM_WRITE IMAGE_SCN_MEM_READ) ++
  section_bytes 12 0x3000 12 480 IMAGE_SCN_MEM_DISCARDABLE ++
  [1; 2; 3; 4; 5; 6; 7; 8; 9; 10; 11; 12; 13; 14; 15; 16] ++
  le_bytes 8 0x140001000 ++
  le_bytes 4 0x2030 ++ le_bytes 8 0 ++ le_bytes 4 0x2050 ++ le_bytes 4 0x2040 ++ replicate 20 0 ++
  le_bytes 8 0x2058 ++ le_bytes 8 0 ++ le_bytes 8 0x2058 ++ le_bytes 8 0 ++
  [97; 46; 100; 108; 108; 0; 0; 0] ++ [0; 0; 102; 117; 110; 0; 0; 0] ++
  le_bytes 4 0x2000 ++ le_bytes 4 12 ++ le_bytes 2 0xA000 ++ le_bytes 2 0.

Definition sample_info : PeInfo :=
  Eval vm_compute in default (mkPeInfo 0 0 0 0 0 0 0 0 0 0 0 0 0 0) (pe_info PE_MACHINE_AMD64 sample_pe).

(** ** Deciding validity *)

Definition bytes_okb (data : list Z) : bool := forallb (fun b => (0 <=? b) && (b <? 256)) data.

Lemma bytes_okb_ok data : bytes_okb data = true -> bytes_ok data.
Proof. intros H. eapply forallb_Forall; [|exact H]. simpl. intros. bprop. lia. Qed.

Definition valid_peb (MACHINE : Z) (data : list Z) (load_base : Z) (info : PeInfo) : bool :=
  bytes_okb data && (data_len data <? 2 ^ 63) &&
  (number_of_sections info <=? MAX_PE_SECTIONS) &&
  (0 <=? load_base) && (load_base mod 4096 =? 0) && (load_base + 2 ^ 34 <=? 2 ^ 64) &&
  forallb (sec_in_file data) (List.filter loaded (sections data info)) &&
  match pe_reloc_targets data info with
  | Some rvas => forallb (word_in (seg_image data load_base (pe_segments data info))) ((fun rva => load_base + rva) <$> rvas)
  | None => false
  end.

Lemma valid_peb_ok M data load_base info :
  pe_validate data M = Some (inl info) -> valid_peb M data load_base info = true -> valid_pe M data load_base info.
Proof.
  intros Hv H. unfold valid_peb in H. bprop. split; try done; [by apply bytes_okb_ok|].
  intros _. destruct (pe_reloc_targets data info) as [rvas|]; [|done]. eauto.
Qed.

Lemma sample_pe_valid : valid_pe PE_MACHINE_AMD64 sample_pe 0x400000 sample_info.
Proof. apply valid_peb_ok; vm_compute; reflexivity. Qed.

Example sample_pe_targets : pe_reloc_targets sample_pe sample_info = Some [0x2000].
Proof. vm_compute. reflexivity. Qed.

Example sample_pe_imports :
  pe_imports sample_pe sample_info =
  Some [mkImp [97; 46; 100; 108; 108] (Some [102; 117; 110]) 0 0x2040].
Proof. vm_compute. reflexivity. Qed.

(** The names as the loader lists them. *)
Example sample_pe_get_imports :
  match pe_get_imports sample_pe sample_info with
  | Some r => pi_count r = 1%nat /\ take 5 (default [] (pi_names r !! 0%nat)) = [97; 46; 100; 108; 108]
  | None => False
  end.
Proof. vm_compute. auto. Qed.

(** The loader run on it. *)
Example sample_pe_run :
  match pe_load toy_env PE_MACHINE_AMD64 sample_pe 0x400000 toy_loader with
  | Some (code, out, ld) =>
      code = PE_OK /\ out = Some (mkPeResult 0x401004 0x400000 0x404000) /\
      tm_maps (ld_vm ld) !! (9, 0x400000) = Some (100, VSPACE_FLAG_USER) /\
      tm_maps (ld_vm ld) !! (9, 0x401000) = Some (101, Z.lor VSPACE_FLAG_USER VSPACE_FLAG_EXECUTABLE) /\
      tm_maps (ld_vm ld) !! (9, 0x402000) = Some (102, Z.lor VSPACE_FLAG_USER VSPACE_FLAG_WRITABLE) /\
      tm_maps (ld_vm ld) !! (9, 0x403000) = None /\
      take 9 <$> tm_frames (ld_vm ld) !! 102 = Some [0; 0x10; 0x40; 0; 0; 0; 0; 0; 0x30]
  | None => False
  end.
Proof. vm_compute. repeat split. Qed.

Lemma sample_pe_loaded :
  exists out ld', pe_load toy_env PE_MACHINE_AMD64 sample_pe 0x400000 toy_loader = Some (PE_OK, out, ld').
Proof.
  generalize sample_pe_run. generalize (pe_load toy_env PE_MACHINE_AMD64 sample_pe 0x400000 toy_loader).
  intros [[[code out] ld']|]; [|done]. intros [-> _]. eauto.
Qed.

Lemma toy_pe_generous : generous toy_env (new_pe_frame toy_env) toy_supply.
Proof.
  destruct toy_generous as [Gm Gr _ Gs]. split; [exact Gm | exact Gr | | exact Gs].
  intros n ld r ld' (Hu & Hp & Hm & He). unfold new_pe_frame, next_frame_slot, try_retype_frame.
  cbn [alloc_frame_slot toy_env ld_next_frame_slot ld_untyped ld_vm]. rewrite toy_retype. unfold U64_MAX in *.
  destruct (Z.eqb_spec (ld_next_frame_slot ld) (2 ^ 64 - 1)); [lia|].
  destruct (Z.eqb_spec (ld_next_frame_slot ld) 0); [lia|].
  destruct (Z.eqb_spec (ld_untyped ld) 0); [done|]. cbn [orb].
  pose proof (He 0 ltac:(lia)) as E0. rewrite Z.add_0_r in E0. rewrite E0. simpl. intros [= <- <-].
  split; [|by eexists]. unfold toy_supply, U64_MAX. simpl ld_untyped. simpl ld_next_frame_slot. simpl ld_vm. rewrite wrap_small by lia.
  split_and!; try lia; try done. intros i Hi. etrans; [apply lookup_insert_ne; lia|].
  rewrite <- Z.add_assoc. apply He. lia.
Qed.

(** ** Loading *)



(** If the kernel maps every frame it is given, recording succeeds, the image
    has at most [MAX_PE_PAGES] pages and there is a frame for each, loading
    succeeds and the child holds the image. *)
Theorem pe_load_total `{V : Vm} {VOK : VmOk V} (env : LoaderEnv) (supply : nat -> Loader -> Prop)
  M data load_base info ld
  (Henv : env_ok env) (Hcb : callbacks_ok env (ld_untyped ld =? 0)) (Hgen : generous env (new_pe_frame env) supply)
  (Hsupply : supply (pe_frames_needed M data load_base) ld)
  (Hpages : (pe_frames_needed M data load_base <= MAX_PE_PAGES)%nat)
  (Hvalid : valid_pe M data load_base info) :
  exists im res ld', pe_image M data load_base = Some (im, res) /\
    pe_load env M data load_base ld = Some (PE_OK, Some res, ld') /\
    holds env (ld_vm ld) (ld_vm ld') im.
Proof.
  destruct (pe_load_spec env Henv supply M data load_base info ld) as (code & out & ld' & E & [_ Ho] & Hl); try done.
  { intros s f c Hf Hc. by eapply (gen_map _ _ _ Hgen). }
  specialize (Hl Hgen Hsupply Hpages). subst code. destruct Ho as [(im & res & ? & _ & -> & ?)|[[|] _]]; try done. eauto 6.
Qed.

Lemma pe_load_total_witness :
  exists im res ld', pe_image PE_MACHINE_AMD64 sample_pe 0x400000 = Some (im, res) /\
    pe_load toy_env PE_MACHINE_AMD64 sample_pe 0x400000 toy_loader = Some (PE_OK, Some res, ld') /\
    holds toy_env (ld_vm toy_loader) (ld_vm ld') im.
Proof.
  assert (pe_frames_needed PE_MACHINE_AMD64 sample_pe 0x400000 = 3%nat) as En by (vm_compute; reflexivity).
  apply (pe_load_total toy_env toy_supply PE_MACHINE_AMD64 sample_pe 0x400000 sample_info toy_loader
    toy_env_ok toy_callbacks_ok toy_pe_generous); rewrite ?En; [|unfold MAX_PE_PAGES; lia|exact sample_pe_valid].
  split; [done|]. split; [done|]. split; [vm_compute; discriminate|]. done.
Defined.

(** *** Word by word *)

(** The word a thread of the VSpace reads at an address. *)
Definition vm_word `{Vm} (s : vm) (vs : Cap) (a : Z) : option Z :=
  m ← vm_map s vs (page_align_down a);
  (fun c => get64 c (Z.to_nat (a - page_align_down a))) <$> vm_frame s m.1.

Lemma holds_word `{V : Vm} (env : LoaderEnv) s0 s im a :
  holds env s0 s im -> word_in im a = true -> vm_word s (child_vspace env) a = image_word im a.
Proof.
  intros [Hh _] (c & fl & Hc & _)%word_in_page. specialize (Hh (page_align_down a)). rewrite Hc in Hh.
  destruct Hh as (f & Hm & Hf & _). unfold vm_word, image_word. rewrite Hm. cbn [mbind option_bind fst]. by rewrite Hf, Hc.
Qed.

(** The addresses that relocation changes, in order. *)
Definition relocated (M : Z) (data : list Z) (info : PeInfo) (load_base : Z) : list Z :=
  if pe_delta info load_base =? 0 then []
  else (fun rva => load_base + rva) <$> default [] (pe_reloc_targets data info).

Lemma pe_image_put M data load_base info im res :
  valid_pe M data load_base info -> pe_image M data load_base = Some (im, res) ->
  im = put_words (seg_image data load_base (pe_segments data info))
         ((fun a => (a, fun v => (v + pe_delta info load_base)%u64)) <$> relocated M data info load_base) /\
  forallb (word_in (seg_image data load_base (pe_segments data info))) (relocated M data info load_base) = true.
Proof.
  intros [_ _ Hv _ _ _ Hrel] Him. unfold pe_image, pe_info in Him. rewrite Hv in Him. cbn [mbind option_bind] in Him.
  unfold relocated. revert Him. destruct (Z.eqb_spec (pe_delta info load_base) 0) as [E|E]; intros Him.
  - injection Him as <- _. done.
  - destruct (Hrel E) as (rvas & Hr & Hw). rewrite Hr in *. injection Him as <- _. cbn [default from_option id].
    rewrite rebase_put, <- list_fmap_compose. done.
Qed.

Lemma pe_segments_ok M data load_base info :
  valid_pe M data load_base info -> Forall (seg_ok data load_base) (pe_segments data info).
Proof.
  intros [Hb Hlen Hv _ Hbase Hdata _]. pose proof (pe_validate_ok data Hb M info Hv) as Hi. constructor.
  - apply hdr_segment_ok; [done|]. apply Hi.
  - apply Forall_fmap, Forall_forall. intros sec Hsec. pose proof Hsec as Hin.
    apply list_elem_of_In, filter_In in Hsec as [Hs Hl]. apply list_elem_of_In in Hs.
    apply sec_segment_ok; try done.
    + pose proof (sections_ranges data Hb info) as Hr. by eapply Forall_forall in Hr.
    + apply list_elem_of_In in Hin. by eapply forallb_forall in Hdata.
Qed.

Lemma ForallOrdPairs_fmap {A B} (R : B -> B -> Prop) (f : A -> B) l :
  ForallOrdPairs (fun x y => R (f x) (f y)) l -> ForallOrdPairs R (f <$> l).
Proof. induction 1 as [|x l H _ IH]; constructor; [|done]. by apply Forall_fmap. Qed.

Lemma blocks_from_rvas data reloc_end fuel pos bs :
  bytes_ok data -> blocks_from fuel data reloc_end pos = Some bs -> Forall (fun b : Z * list Z => 0 <= b.1 < 2 ^ 32) bs.
Proof.
  intros Hb. revert pos bs. induction fuel as [|fuel IH]; intros pos bs; cbn [blocks_from]; [done|].
  case_if; [|intros [= <-]; constructor]. destruct (read_reloc data pos) as [bl|] eqn:Er; [|done]. cbn [mbind option_bind].
  case_if; [intros [= <-]; constructor|]. case_if; [done|]. destruct (mapM _ _) as [es|]; [|done]. cbn [mbind option_bind].
  destruct (blocks_from fuel data reloc_end _) as [bs'|] eqn:E; [|done]. intros [= <-]. constructor; [|by eapply IH].
  apply view_at_Some in Er as (_ & _ & ->). by apply u32_range.
Qed.

Lemma reloc_targets_range data info rvas :
  bytes_ok data -> pe_reloc_targets data info = Some rvas -> Forall (fun rva => 0 <= rva < 2 ^ 33) rvas.
Proof.
  intros Hb. unfold pe_reloc_targets. destruct (read_data_dir _ _ _) as [dir|]; [|done]. cbn [mbind option_bind].
  case_if; [intros [= <-]; constructor|]. destruct (rva_to_file_offset _ _ _) as [[off|]|]; try done. cbn [mbind option_bind].
  case_if; [|done]. destruct (blocks_from _ _ _ _) as [bs|] eqn:E; [|done]. intros [= <-].
  apply Forall_concat, Forall_fmap. eapply Forall_impl; [by eapply blocks_from_rvas|]. intros [rva es] Hr. simpl in *.
  apply Forall_fmap, Forall_forall. intros e _. simpl. pose proof (Z.mod_pos_bound e 4096 ltac:(lia)). lia.
Qed.

Lemma relocated_u64 M data info load_base a :
  valid_pe M data load_base info -> a ∈ relocated M data info load_base -> u64 a.
Proof.
  intros [Hb _ _ _ Hbase _ Hrel]. unfold relocated. destruct (Z.eqb_spec (pe_delta info load_base) 0) as [|E]; [by intros ?%not_elem_of_nil|].
  destruct (Hrel E) as (rvas & Hr & _). rewrite Hr. intros (rva & -> & Hin)%list_elem_of_fmap.
  pose proof (reloc_targets_range data info rvas Hb Hr) as H. eapply Forall_forall in H; [|exact Hin]. simpl in H. unfold u64, in_u. lia.
Qed.



(** ** Imports *)

Lemma sim_word `{V : Vm} {VOK : VmOk V} (env : LoaderEnv) s0 rt ld pages b im a :
  sim env s0 rt (mkProgress _ ld pages b) im -> word_in im a = true -> vm_word (ld_vm ld) (child_vspace env) a = image_word im a.
Proof. intros S. apply (holds_word env s0). by apply (sim_holds _ _ _ _ _ S). Qed.

Lemma holds_sized `{V : Vm} (env : LoaderEnv) s0 rt pr im : sim env s0 rt pr im -> sized im.
Proof.
  intros S va c fl Hva. pose proof (sim_dom _ _ _ _ _ S va ltac:(congruence)) as (e & -> & He)%list_elem_of_fmap.
  destruct (sim_page _ _ _ _ _ S e He) as (c' & Hc & Hl & _). congruence.
Qed.

Lemma table_slots data info fuel dll ilt iat idx :
  0 <= iat -> 0 <= idx -> Forall (fun i => 0 <= imp_slot i) (table_imports data info fuel dll ilt iat idx).
Proof.
  intros Ha. revert idx. induction fuel as [|fuel IH]; intros idx Hi; cbn [table_imports]; [constructor|]. cbv zeta.
  case_if; constructor; [simpl; lia|]. apply IH. lia.
Qed.

Lemma descriptor_slots data info fuel pos :
  bytes_ok data -> Forall (fun d => Forall (fun i => 0 <= imp_slot i) (dll_imports data info d)) (descriptors data fuel pos).
Proof.
  intros Hb. revert pos. induction fuel as [|n IH]; intros off; cbn [descriptors]; [constructor|].
  destruct (read_import data off) as [d|] eqn:E; [|constructor]. case_if; constructor; [|apply IH]. unfold dll_imports.
  destruct (file_offset data info (name_rva d)); [|constructor]. destruct (file_offset data info (lookup_table d)); [|constructor].
  apply table_slots; [|lia]. apply view_at_Some in E as (_ & _ & ->). by apply u32_range.
Qed.

Lemma pe_imports_slots data info l :
  bytes_ok data -> pe_imports data info = Some l -> Forall (fun i => 0 <= imp_slot i) l.
Proof.
  intros Hb. unfold pe_imports. cbv zeta. case_if; [intros [= <-]; constructor|].
  destruct (file_offset data info _) as [off|]; [|done]. cbn [mbind option_bind]. intros E. apply (inj Some) in E as <-.
  apply Forall_concat, Forall_fmap. by apply descriptor_slots.
Qed.


(** One page of the sample's data section, loaded. *)
Definition data_page : ElfPageEntry := mkPage 0x402000 102 (Z.lor VSPACE_FLAG_USER VSPACE_FLAG_WRITABLE).
Definition page_state : toy_state :=
  mkToy {[ (9, 0x402000) := (102, Z.lor VSPACE_FLAG_USER VSPACE_FLAG_WRITABLE) ]} {[ 102 := zeros ]}.
Definition page_loader : @Loader toy := mkLoader toy page_state 16 103 16.
Definition page_image : image := {[ 0x402000 := (zeros, Z.lor VSPACE_FLAG_USER VSPACE_FLAG_WRITABLE) ]}.

Lemma page_sim : sim toy_env (mkToy ∅ ∅) false (mkProgress toy page_loader [data_page] 0) page_image.
Proof.
  split; try done.
  - apply NoDup_singleton.
  - apply NoDup_singleton.
  - intros e ->%list_elem_of_singleton. exists zeros. split_and!; try done; apply lookup_singleton_eq.
  - intros va Hva. apply list_elem_of_singleton. destruct (decide (va = 0x402000)) as [->|Hne]; [done|].
    destruct Hva. by apply lookup_singleton_ne.
  - intros va Hva. simpl. etrans; [apply lookup_singleton_ne|done]. intros [= <-]. apply Hva. by apply list_elem_of_singleton.
  - intros vs va Hvs _. simpl. etrans; [apply lookup_singleton_ne|done]. by intros [= <- _].
  - intros f Hf. simpl. etrans; [apply lookup_singleton_ne|done]. intros <-. apply Hf. by apply list_elem_of_singleton.
Qed.

Definition fixed_resolver (s : toy_state) (d : list Z) (f : option (list Z)) (o : Z) : Z * toy_state := (0x7F001000, s).


(** ** Arbitrary files *)

(** C35: On any bytes at all, [pe_validate] reads only inside the buffer and
    returns.  If it accepts, the section headers lie in the file and every field it
    reports has its width; the span to reserve is the whole number of pages that
    holds the image; and [pe_get_imports] returns the names of the import
    descriptors, cut to 32 bytes, empty ones left out, the first sixteen. *)
Theorem pe_inspect_safe M data (Hb : bytes_ok data) (Hlen : data_len data < 2 ^ 63) :
  exists r, pe_validate data M = Some r /\
    match r with
    | inr code => code <> PE_OK /\ pe_compute_load_span data M = Some 0 /\ pe_count_load_pages data M = Some 0
    | inl info =>
        info_ok data info /\ Forall sec_ranges (sections data info) /\
        (exists span pages, pe_compute_load_span data M = Some span /\ pe_count_load_pages data M = Some pages /\
          span = pages * PE_PAGE_SIZE /\ size_of_image info <= span < size_of_image info + PE_PAGE_SIZE) /\
        exists r, pe_get_imports data info = Some r /\ imports_wf r /\ imports_of r = listed_imports data info
    end.
Proof.
  destruct (pe_validate_returns data Hb M) as (r & E & H). exists r. split; [done|].
  unfold pe_compute_load_span, pe_count_load_pages. rewrite E. cbn [mbind option_bind]. destruct r as [info|code]; [|done].
  split; [done|]. split; [by apply sections_ranges|]. split; [|by apply pe_get_imports_returns].
  eexists _, _. split; [done|]. split; [done|].
  pose proof (io_size_of_image _ _ H). destruct (page_align_up_bounds (size_of_image info)) as [Ha Hu]; [lia..|].
  unfold PE_PAGE_SIZE. pose proof (Z.div_mod (page_align_up (size_of_image info)) 4096 ltac:(lia)). lia.
Qed.

Lemma pe_inspect_safe_witness :
  exists info r, pe_validate sample_pe PE_MACHINE_AMD64 = Some (inl info) /\
    pe_get_imports sample_pe info = Some r /\ imports_of r = listed_imports sample_pe info /\
    listed_imports sample_pe info = [[97; 46; 100; 108; 108]].
Proof.
  destruct (pe_inspect_safe PE_MACHINE_AMD64 sample_pe) as (r & E & H).
  - apply bytes_okb_ok. vm_compute. reflexivity.
  - vm_compute. reflexivity.
  - assert (pe_validate sample_pe PE_MACHINE_AMD64 = Some (inl sample_info)) as E' by (vm_compute; reflexivity).
    rewrite E' in E. injection E as <-. destruct H as (_ & _ & _ & r & Er & _ & Hr). exists sample_info, r.
    split; [done|]. split; [done|]. split; [done|]. vm_compute. reflexivity.
Defined.

(** ** Hostile relocation tables

    The entries of a block are read up to its own [size_of_block], which is not
    compared with the end of the table or of the file. *)
Definition long_block_pe : list Z := take 484 sample_pe ++ le_bytes 4 4096 ++ drop 488 sample_pe.

Lemma long_block_faults :
  pe_validate long_block_pe PE_MACHINE_AMD64 = Some (inl sample_info) /\
  pe_load toy_env PE_MACHINE_AMD64 long_block_pe 0x400000 toy_loader = None.
Proof. split; vm_compute; reflexivity. Qed.

(** A relocation in the last seven bytes of a page is written through the single
    scratch page and runs over its end. *)
Definition straddling_pe : list Z := take 488 sample_pe ++ le_bytes 2 0xAFFC ++ drop 490 sample_pe.

Lemma straddling_relocation_faults :
  pe_validate straddling_pe PE_MACHINE_AMD64 = Some (inl sample_info) /\
  pe_reloc_targets straddling_pe sample_info = Some [0x2FFC] /\
  pe_load toy_env PE_MACHINE_AMD64 straddling_pe 0x400000 toy_loader = None.
Proof. split; [|split]; vm_compute; reflexivity. Qed.
