(* ===== verification/Casefold.v ===== *)
(** Case folding ([src/substrate/casefold.rs]): codepoint folding by binary
    search, folding of UTF-8 strings, case-insensitive comparison.  The parts
    of the Rust standard library the code uses (UTF-8 validation, decoding and
    encoding of [char]s) are written out as in the Unicode standard. *)

From S2P Require Import Prelude CasefoldTable.

Definition FOLD_BUF_MAX : nat := 256.

(** The [while lo < hi] loop; [table[mid]] is always in range (see below), the
    [None] branch stands for the panic. *)
Fixpoint bsearch (fuel : nat) (table : list (Z * Z)) (lo hi : nat) (cp : Z) : option Z :=
  match fuel with
  | O => None
  | S fuel' =>
      if (lo <? hi)%nat then
        let mid := (lo + (hi - lo) / 2)%nat in
        match table !! mid with
        | None => None
        | Some (k, v) =>
            if k =? cp then Some v
            else if k <? cp then bsearch fuel' table (S mid) hi cp
            else bsearch fuel' table lo mid cp
        end
      else Some cp
  end.

(** [None]: out of fuel or out of range, which never happens. *)
Definition fold_codepoint_opt (cp : Z) : option Z :=
  if cp <? 0x80 then
    if (cp >=? 65) && (cp <=? 90) then Some (cp + 32) else Some cp
  else bsearch (S (length CASEFOLD_TABLE)) CASEFOLD_TABLE 0 (length CASEFOLD_TABLE) cp.

Definition fold_codepoint (cp : Z) : Z := default cp (fold_codepoint_opt cp).

(** ** UTF-8 *)

(** [char::from_u32] accepts exactly the Unicode scalar values. *)
Definition is_scalar (cp : Z) : bool :=
  ((0 <=? cp) && (cp <? 0xD800)) || ((0xE000 <=? cp) && (cp <? 0x110000)).

Definition cont (b : Z) : bool := (0x80 <=? b) && (b <? 0xC0).

(** [str::from_utf8] followed by [chars]: the codepoints, or [None] when the
    bytes are not UTF-8 (overlong forms, surrogates, out of range, truncated). *)
Fixpoint utf8_decode (l : list Z) : option (list Z) :=
  match l with
  | [] => Some []
  | b0 :: r0 =>
      if (0 <=? b0) && (b0 <? 0x80) then cons b0 <$> utf8_decode r0
      else match r0 with
      | [] => None
      | b1 :: r1 =>
          if (0xC2 <=? b0) && (b0 <? 0xE0) && cont b1
          then cons ((b0 - 0xC0) * 64 + (b1 - 0x80)) <$> utf8_decode r1
          else match r1 with
          | [] => None
          | b2 :: r2 =>
              let cp3 := (b0 - 0xE0) * 4096 + (b1 - 0x80) * 64 + (b2 - 0x80) in
              if (0xE0 <=? b0) && (b0 <? 0xF0) && cont b1 && cont b2
                 && (0x800 <=? cp3) && is_scalar cp3
              then cons cp3 <$> utf8_decode r2
              else match r2 with
              | [] => None
              | b3 :: r3 =>
                  let cp4 := (b0 - 0xF0) * 262144 + (b1 - 0x80) * 4096 + (b2 - 0x80) * 64
                             + (b3 - 0x80) in
                  if (0xF0 <=? b0) && (b0 <? 0xF8) && cont b1 && cont b2 && cont b3
                     && (0x10000 <=? cp4) && is_scalar cp4
                  then cons cp4 <$> utf8_decode r3
                  else None
              end
          end
      end
  end.

(** [char::encode_utf8] *)
Definition utf8_encode (cp : Z) : list Z :=
  if cp <? 0x80 then [cp]
  else if cp <? 0x800 then [0xC0 + cp `div` 64; 0x80 + cp `mod` 64]
  else if cp <? 0x10000 then
    [0xE0 + cp `div` 4096; 0x80 + (cp `div` 64) `mod` 64; 0x80 + cp `mod` 64]
  else
    [0xF0 + cp `div` 262144; 0x80 + (cp `div` 4096) `mod` 64; 0x80 + (cp `div` 64) `mod` 64;
     0x80 + cp `mod` 64].

(** The [for c in s.chars()] loop: [written] is [dst[..pos]], [cap] is [dst.len()]. *)
Fixpoint fold_chars (cs : list Z) (cap : nat) (written : list Z) : option (list Z) :=
  match cs with
  | [] => Some written
  | c :: rest =>
      let folded_cp := fold_codepoint c in
      if negb (is_scalar folded_cp) then None else
      let buf := utf8_encode folded_cp in
      if (cap <? length written + length buf)%nat then None
      else fold_chars rest cap (written ++ buf)
  end.

(** [Some w]: [Some(w.len())] was returned and [dst] starts with [w]. *)
Definition fold_utf8 (src : list Z) (cap : nat) : option (list Z) :=
  cs ← utf8_decode src; fold_chars cs cap [].

Definition casefold_equal (a b : list Z) : bool :=
  match fold_utf8 a FOLD_BUF_MAX, fold_utf8 b FOLD_BUF_MAX with
  | Some ba, Some bb =>
      if negb (Nat.eqb (length ba) (length bb)) then false else bool_decide (ba = bb)
  | _, _ => bool_decide (a = b)
  end.

(** ** The table is sorted, so binary search is lookup *)

Fixpoint keys_increasing (t : list (Z * Z)) : bool :=
  match t with
  | (k, _) :: (((k', _) :: _) as rest) => (k <? k') && keys_increasing rest
  | _ => true
  end.

Lemma CASEFOLD_TABLE_sorted : keys_increasing CASEFOLD_TABLE = true.
Proof. vm_compute. reflexivity. Qed.

Lemma keys_increasing_lookup t i j ki vi kj vj :
  keys_increasing t = true -> (i < j)%nat ->
  t !! i = Some (ki, vi) -> t !! j = Some (kj, vj) -> ki < kj.
Proof.
  revert i j ki vi. induction t as [|[k v] t IH]; intros i j ki vi Ht Hij Hi Hj; [done|].
  destruct t as [|[k' v'] t]; [destruct j as [|[|j]]; try done; lia|].
  cbn [keys_increasing] in Ht. bprop. destruct j as [|j]; [lia|]. cbn [lookup list_lookup] in Hj.
  destruct i as [|i].
  - injection Hi as [= <- <-]. destruct j as [|j]; [injection Hj as [= <- <-]; done|].
    assert (k' < kj); [|lia]. apply (IH 0%nat (S j) k' v'); try done. lia.
  - apply (IH i j ki vi); try done. lia.
Qed.

(** Linear lookup, the reference. *)
Fixpoint assoc (t : list (Z * Z)) (cp : Z) : option Z :=
  match t with
  | [] => None
  | (k, v) :: rest => if k =? cp then Some v else assoc rest cp
  end.

Lemma assoc_None t cp : (forall i k v, t !! i = Some (k, v) -> k <> cp) -> assoc t cp = None.
Proof.
  induction t as [|[k v] t IH]; intros H; cbn [assoc]; [done|].
  destruct (Z.eqb_spec k cp) as [E|]; [by destruct (H 0%nat k v eq_refl)|].
  apply IH. intros i k' v' Hi. by apply (H (S i) k' v').
Qed.

Lemma assoc_Some t cp i v :
  keys_increasing t = true -> t !! i = Some (cp, v) -> assoc t cp = Some v.
Proof.
  intros Ht Hi. destruct (assoc t cp) as [w|] eqn:E.
  - revert i Hi Ht E. induction t as [|[k u] t IH]; intros i Hi Ht E; [done|]. cbn [assoc] in E.
    destruct (Z.eqb_spec k cp) as [->|Hne].
    + injection E as [= ->]. destruct i as [|i]; [by injection Hi as [= ->]|].
      assert (cp < cp); [|lia]. by eapply (keys_increasing_lookup _ 0 (S i)); [done|lia|done|done].
    + destruct i as [|i]; [by injection Hi as [= -> _]|]. apply (IH i); try done.
      destruct t as [|[k' u'] t]; [done|]. cbn [keys_increasing] in Ht. by bprop.
  - exfalso. clear Ht. revert i Hi E. induction t as [|[k u] t IH]; intros [|i] Hi E; try done;
      cbn [assoc] in E; destruct (Z.eqb_spec k cp); try done.
    + by injection Hi as [= -> _].
    + by eapply IH.
Qed.

Lemma bsearch_spec fuel t lo hi cp :
  keys_increasing t = true -> (hi <= length t)%nat -> (hi - lo < fuel)%nat ->
  (forall i k v, t !! i = Some (k, v) -> (i < lo)%nat -> k < cp) ->
  (forall i k v, t !! i = Some (k, v) -> (hi <= i)%nat -> cp < k) ->
  bsearch fuel t lo hi cp = Some (default cp (assoc t cp)).
Proof.
  intros Ht. revert lo hi. induction fuel as [|fuel IH]; intros lo hi Hhi Hf Hlo Hge; [lia|].
  cbn [bsearch]. destruct (Nat.ltb_spec lo hi) as [Hlt|Hle].
  - set (mid := (lo + (hi - lo) / 2)%nat).
    assert ((hi - lo) / 2 < hi - lo)%nat by (apply Nat.div_lt; lia).
    assert (lo <= mid < hi)%nat as Hmid by (unfold mid; lia).
    destruct (lookup_lt_is_Some_2 t mid ltac:(lia)) as [[k v] Hk]. rewrite Hk.
    destruct (Z.eqb_spec k cp) as [->|Hne]; [by rewrite (assoc_Some t cp mid v)|].
    destruct (Z.ltb_spec k cp); apply IH; try lia; try done.
    + intros i k' v' Hi Hil. destruct (decide (i = mid)) as [->|]; [congruence|].
      assert (k' < k); [|lia]. eapply (keys_increasing_lookup t i mid); eauto. lia.
    + intros i k' v' Hi Hil. destruct (decide (i = mid)) as [->|].
      { rewrite Hk in Hi. injection Hi as [= <- <-]. lia. }
      assert (k < k'); [|lia]. eapply (keys_increasing_lookup t mid i); eauto. lia.
  - rewrite assoc_None; [done|]. intros i k v Hi ->.
    destruct (decide (i < lo)%nat).
    + by pose proof (Hlo i cp v Hi ltac:(done)); lia.
    + pose proof (Hge i cp v Hi ltac:(lia)). lia.
Qed.

(** ASCII letters are in the table too, so the fast path agrees with it. *)
Lemma ascii_fold_table :
  forallb (fun cp => Z.eqb (default cp (assoc CASEFOLD_TABLE cp))
                       (if (cp >=? 65) && (cp <=? 90) then cp + 32 else cp))
    (map Z.of_nat (seq 0 128)) = true.
Proof. vm_compute. reflexivity. Qed.

Lemma fold_codepoint_opt_table cp :
  0 <= cp -> fold_codepoint_opt cp = Some (default cp (assoc CASEFOLD_TABLE cp)).
Proof.
  intros Hcp. unfold fold_codepoint_opt. destruct (Z.ltb_spec cp 0x80).
  - pose proof ascii_fold_table as Hall. rewrite forallb_forall in Hall.
    specialize (Hall cp). rewrite Z.eqb_eq in Hall. rewrite Hall; [by case_if|].
    apply in_map_iff. exists (Z.to_nat cp). split; [lia|]. apply in_seq. lia.
  - apply bsearch_spec; [apply CASEFOLD_TABLE_sorted|done|lia| |].
    + intros. lia.
    + intros i k v Hi Hge. apply lookup_lt_Some in Hi. lia.
Qed.

Lemma fold_codepoint_table cp :
  0 <= cp -> fold_codepoint cp = default cp (assoc CASEFOLD_TABLE cp).
Proof. intros Hcp. unfold fold_codepoint. by rewrite fold_codepoint_opt_table. Qed.

(** codepoint folding never leaves the table or runs forever, and is exactly
    lookup in the case-folding table (unmapped codepoints fold to themselves);
    the ASCII fast path and the binary search agree with the table. *)
Theorem fold_codepoint_spec cp :
  0 <= cp ->
  fold_codepoint_opt cp = Some (fold_codepoint cp) /\
  fold_codepoint cp = default cp (assoc CASEFOLD_TABLE cp).
Proof.
  intros Hcp. rewrite fold_codepoint_table by done. by rewrite fold_codepoint_opt_table.
Qed.

Lemma fold_codepoint_spec_witness :
  fold_codepoint 0x1E9E = 0xDF /\
  fold_codepoint_opt 0x1E9E = Some (fold_codepoint 0x1E9E) /\
  fold_codepoint 0x1E9E = default 0x1E9E (assoc CASEFOLD_TABLE 0x1E9E).
Proof. split; [vm_compute; reflexivity|]. apply (fold_codepoint_spec 0x1E9E). lia. Defined.

(** ** Folding maps scalar values to scalar values and is idempotent *)

Lemma CASEFOLD_TABLE_values :
  forallb (fun '(k, v) => is_scalar v &&
    match assoc CASEFOLD_TABLE v with None => true | Some w => w =? v end) CASEFOLD_TABLE = true.
Proof. vm_compute. reflexivity. Qed.

Lemma assoc_in t cp v : assoc t cp = Some v -> exists k, In (k, v) t.
Proof.
  induction t as [|[k w] t IH]; cbn [assoc]; [done|]. case_if.
  - intros [= ->]. exists k. by left.
  - intros H. destruct (IH H) as [k' ?]. exists k'. by right.
Qed.

Lemma is_scalar_nonneg cp : is_scalar cp = true -> 0 <= cp < 0x110000.
Proof. unfold is_scalar. intros [H|H]%orb_true_iff; bprop; lia. Qed.

Lemma fold_codepoint_value cp :
  is_scalar cp = true ->
  is_scalar (fold_codepoint cp) = true /\ fold_codepoint (fold_codepoint cp) = fold_codepoint cp.
Proof.
  intros Hs. pose proof (is_scalar_nonneg cp Hs). rewrite (fold_codepoint_table cp) by lia.
  destruct (assoc CASEFOLD_TABLE cp) as [v|] eqn:E; cbn [from_option].
  - destruct (assoc_in _ _ _ E) as [k Hin]. pose proof CASEFOLD_TABLE_values as Hall.
    rewrite forallb_forall in Hall. specialize (Hall _ Hin). cbv beta iota in Hall. bprop.
    split; [done|]. pose proof (is_scalar_nonneg v ltac:(done)).
    unfold id. rewrite fold_codepoint_table by lia.
    destruct (assoc CASEFOLD_TABLE v); [by bprop | done].
  - split; [done|]. rewrite fold_codepoint_table by (unfold id; lia). unfold id. by rewrite E.
Qed.

(** ** UTF-8 round trip *)

Lemma utf8_decode_encode cp rest :
  is_scalar cp = true -> utf8_decode (utf8_encode cp ++ rest) = cons cp <$> utf8_decode rest.
Proof.
  intros Hs. pose proof (is_scalar_nonneg cp Hs) as Hr. unfold utf8_encode.
  pose proof (Z.mod_pos_bound cp 64 ltac:(lia)).
  pose proof (Z.mod_pos_bound (cp / 64) 64 ltac:(lia)).
  pose proof (Z.mod_pos_bound (cp / 4096) 64 ltac:(lia)).
  assert (cp = 64 * (cp / 64) + cp mod 64) as E1 by (apply Z.div_mod; lia).
  assert (cp / 64 = 64 * (cp / 4096) + (cp / 64) mod 64) as E2
    by (change 4096 with (64 * 64); rewrite <- Zdiv_Zdiv by lia; apply Z.div_mod; lia).
  assert (cp / 4096 = 64 * (cp / 262144) + (cp / 4096) mod 64) as E3
    by (change 262144 with (4096 * 64); rewrite <- Zdiv_Zdiv by lia; apply Z.div_mod; lia).
  assert (forall a b, a = true -> b = true -> a && b = true) as Hand by (by intros ? ? -> ->).
  destruct (Z.ltb_spec cp 0x80); [|destruct (Z.ltb_spec cp 0x800); [|destruct (Z.ltb_spec cp 0x10000)]];
    cbn [app utf8_decode].
  - rewrite (proj2 (Z.leb_le 0 cp)), (proj2 (Z.ltb_lt cp 0x80)) by lia. done.
  - rewrite (proj2 (Z.ltb_ge (0xC0 + cp / 64) 0x80)), andb_false_r by lia.
    unfold cont. rewrite !(proj2 (Z.leb_le _ _)), !(proj2 (Z.ltb_lt _ _)) by lia. cbn [andb].
    f_equal. f_equal. lia.
  - rewrite (proj2 (Z.ltb_ge (0xE0 + cp / 4096) 0x80)), andb_false_r by lia.
    rewrite (proj2 (Z.ltb_ge (0xE0 + cp / 4096) 0xE0)), andb_false_r by lia. cbn [andb].
    replace ((0xE0 + cp / 4096 - 0xE0) * 4096 + (0x80 + (cp / 64) mod 64 - 0x80) * 64 +
      (0x80 + cp mod 64 - 0x80)) with cp by lia.
    rewrite Hs. unfold cont. rewrite !(proj2 (Z.leb_le _ _)), !(proj2 (Z.ltb_lt _ _)) by lia. done.
  - rewrite (proj2 (Z.ltb_ge (0xF0 + cp / 262144) 0x80)), andb_false_r by lia.
    rewrite (proj2 (Z.ltb_ge (0xF0 + cp / 262144) 0xE0)), andb_false_r by lia. cbn [andb].
    rewrite (proj2 (Z.ltb_ge (0xF0 + cp / 262144) 0xF0)), andb_false_r by lia. cbn [andb].
    replace ((0xF0 + cp / 262144 - 0xF0) * 262144 + (0x80 + (cp / 4096) mod 64 - 0x80) * 4096 +
      (0x80 + (cp / 64) mod 64 - 0x80) * 64 + (0x80 + cp mod 64 - 0x80)) with cp by lia.
    rewrite Hs. unfold cont. rewrite !(proj2 (Z.leb_le _ _)), !(proj2 (Z.ltb_lt _ _)) by lia. done.
Qed.

Lemma utf8_decode_scalar n l cs :
  (length l <= n)%nat -> utf8_decode l = Some cs -> Forall (fun c => is_scalar c = true) cs.
Proof.
  revert l cs. induction n as [|n IH]; intros l cs Hl Hd.
  { destruct l; [by injection Hd as [= <-] | cbn in Hl; lia]. }
  assert (forall c r cs, (length r <= n)%nat -> is_scalar c = true ->
    cons c <$> utf8_decode r = Some cs -> Forall (fun c => is_scalar c = true) cs) as Hstep.
  { intros c r cs' Hr Hc (cs0 & Hcs0 & ->)%fmap_Some. constructor; [done|]. by apply (IH r). }
  destruct l as [|b0 r0]; [by injection Hd as [= <-]|]. cbn [utf8_decode length] in *.
  destruct ((0 <=? b0) && (b0 <? 0x80)) eqn:E0.
  { bprop. apply (Hstep b0 r0); try done; [lia|]. unfold is_scalar.
    by rewrite (proj2 (Z.leb_le 0 b0)), (proj2 (Z.ltb_lt b0 0xD800)) by lia. }
  destruct r0 as [|b1 r1]; [done|]. cbn [length] in *.
  destruct ((0xC2 <=? b0) && (b0 <? 0xE0) && cont b1) eqn:E1.
  { unfold cont in E1. bprop. eapply (Hstep _ r1); [lia| |exact Hd]. unfold is_scalar.
    by rewrite (proj2 (Z.leb_le 0 _)), (proj2 (Z.ltb_lt _ 0xD800)) by lia. }
  destruct r1 as [|b2 r2]; [done|]. cbn [length] in *.
  match goal with H : (if ?c then _ else _) = _ |- _ => destruct c eqn:E2 end.
  { bprop. eapply (Hstep _ r2); [lia|done|exact Hd]. }
  destruct r2 as [|b3 r3]; [done|]. cbn [length] in *.
  match goal with H : (if ?c then _ else _) = _ |- _ => destruct c eqn:E3 end; [|done].
  bprop. eapply (Hstep _ r3); [lia|done|exact Hd].
Qed.

(** ** Strings *)

Definition utf8_string (cs : list Z) : list Z := concat (map utf8_encode cs).

Lemma utf8_decode_string cs :
  Forall (fun c => is_scalar c = true) cs -> utf8_decode (utf8_string cs) = Some cs.
Proof.
  induction 1 as [|c cs Hc Hcs IH]; [done|]. unfold utf8_string in *. cbn [map concat].
  by rewrite utf8_decode_encode, IH.
Qed.

Lemma utf8_string_inj cs cs' :
  Forall (fun c => is_scalar c = true) cs -> Forall (fun c => is_scalar c = true) cs' ->
  utf8_string cs = utf8_string cs' -> cs = cs'.
Proof.
  intros H H' E. apply utf8_decode_string in H, H'. rewrite E, H' in H. by injection H.
Qed.

Lemma fold_scalars cs :
  Forall (fun c => is_scalar c = true) cs ->
  Forall (fun c => is_scalar c = true) (map fold_codepoint cs) /\
  map fold_codepoint (map fold_codepoint cs) = map fold_codepoint cs.
Proof.
  induction 1 as [|c cs Hc Hcs [IH1 IH2]]; [done|]. cbn [map].
  destruct (fold_codepoint_value c Hc) as [H1 H2]. split; [by constructor|]. by rewrite H2, IH2.
Qed.

Lemma fold_chars_spec cs cap w :
  Forall (fun c => is_scalar c = true) cs ->
  (length w <= cap)%nat ->
  fold_chars cs cap w =
    let out := w ++ utf8_string (map fold_codepoint cs) in
    if (length out <=? cap)%nat then Some out else None.
Proof.
  intros Hcs. revert w. induction Hcs as [|c cs Hc Hcs IH]; intros w Hw; cbn [fold_chars].
  - unfold utf8_string. cbn. rewrite app_nil_r. by destruct (Nat.leb_spec (length w) cap); [|lia].
  - destruct (fold_codepoint_value c Hc) as [-> _]. cbn [negb].
    unfold utf8_string in *. cbn [map concat].
    destruct (Nat.ltb_spec cap (length w + length (utf8_encode (fold_codepoint c)))).
    + rewrite !length_app. destruct (Nat.leb_spec
        (length w + (length (utf8_encode (fold_codepoint c)) +
          length (concat (map utf8_encode (map fold_codepoint cs))))) cap); [lia|done].
    + rewrite IH by (rewrite length_app; lia). by rewrite app_assoc.
Qed.

Lemma fold_utf8_eq src cap :
  fold_utf8 src cap =
    cs ← utf8_decode src;
    let out := utf8_string (map fold_codepoint cs) in
    if (length out <=? cap)%nat then Some out else None.
Proof.
  unfold fold_utf8. destruct (utf8_decode src) as [cs|] eqn:E; [|done]. cbn [mbind option_bind].
  rewrite fold_chars_spec; [done| |cbn; lia]. by eapply utf8_decode_scalar.
Qed.

(** folding a UTF-8 string yields the UTF-8 encoding of its folded
    codepoints, and fails exactly when the input is not UTF-8 or the result
    does not fit; folding the result again changes nothing. *)
Theorem fold_utf8_spec src cap :
  (fold_utf8 src cap = None <->
     utf8_decode src = None \/
     exists cs, utf8_decode src = Some cs /\
       (cap < length (utf8_string (map fold_codepoint cs)))%nat) /\
  (forall w, fold_utf8 src cap = Some w ->
     (exists cs, utf8_decode src = Some cs /\ utf8_decode w = Some (map fold_codepoint cs)) /\
     (length w <= cap)%nat /\ fold_utf8 w cap = Some w).
Proof.
  rewrite !fold_utf8_eq. destruct (utf8_decode src) as [cs|] eqn:E; cbn [mbind option_bind].
  - pose proof (utf8_decode_scalar _ src cs (le_n _) E) as Hcs.
    destruct (fold_scalars cs Hcs) as [Hf Hi].
    destruct (Nat.leb_spec (length (utf8_string (map fold_codepoint cs))) cap) as [Hle|Hlt].
    + split; [split; [done|]; intros [?|(cs' & [= <-] & ?)]; [done|lia]|].
      intros w [= <-]. split; [exists cs; split; [done|by apply utf8_decode_string]|].
      split; [done|]. rewrite fold_utf8_eq, utf8_decode_string by done. cbn [mbind option_bind].
      rewrite Hi. by rewrite (proj2 (Nat.leb_le _ _) Hle).
    + split; [|done]. split; [|done]. intros _. right. by exists cs.
  - split; [|done]. split; [by left|done].
Qed.

Lemma fold_utf8_spec_witness :
  fold_utf8 [0xC3; 0x84; 0x42] 256 = Some [0xC3; 0xA4; 0x62] /\
  fold_utf8 [0xC3; 0xA4; 0x62] 256 = Some [0xC3; 0xA4; 0x62].
Proof.
  split; [vm_compute; reflexivity|].
  apply (fold_utf8_spec [0xC3; 0x84; 0x42] 256). vm_compute. reflexivity.
Defined.

(** What [casefold_equal] compares: the folded name, or the raw bytes of a name
    that does not fold. *)
Definition fold_key (a : list Z) : list Z + list Z :=
  match fold_utf8 a FOLD_BUF_MAX with Some w => inl w | None => inr a end.

Lemma casefold_equal_key a b : casefold_equal a b = bool_decide (fold_key a = fold_key b).
Proof.
  unfold casefold_equal, fold_key.
  destruct (fold_utf8 a FOLD_BUF_MAX) as [wa|] eqn:Ea, (fold_utf8 b FOLD_BUF_MAX) as [wb|] eqn:Eb.
  - destruct (Nat.eqb_spec (length wa) (length wb)); cbn [negb].
    + apply bool_decide_ext. split; congruence.
    + symmetry. apply bool_decide_eq_false. congruence.
  - rewrite !bool_decide_false; [done|done|]. intros ->. congruence.
  - rewrite !bool_decide_false; [done|done|]. intros ->. congruence.
  - apply bool_decide_ext. split; congruence.
Qed.

(** [casefold_equal] is an equivalence relation on byte strings, and on
    names whose folded form fits the buffer it holds exactly when the two
    codepoint sequences fold to the same sequence. *)
Theorem casefold_equal_spec :
  Equivalence (fun a b => casefold_equal a b = true) /\
  forall a b wa wb,
    fold_utf8 a FOLD_BUF_MAX = Some wa -> fold_utf8 b FOLD_BUF_MAX = Some wb ->
    (casefold_equal a b = true <->
     map fold_codepoint <$> utf8_decode a = map fold_codepoint <$> utf8_decode b).
Proof.
  split.
  - split; repeat intro; rewrite !casefold_equal_key, !bool_decide_eq_true in *; congruence.
  - intros a b wa wb Ha Hb. rewrite casefold_equal_key, bool_decide_eq_true. unfold fold_key.
    rewrite Ha, Hb. rewrite fold_utf8_eq in Ha, Hb.
    destruct (utf8_decode a) as [ca|] eqn:Ea; [|done]. destruct (utf8_decode b) as [cb|] eqn:Eb; [|done].
    cbn [mbind option_bind fmap option_fmap option_map] in *.
    pose proof (fold_scalars ca (utf8_decode_scalar _ a ca (le_n _) Ea)) as [Sa _].
    pose proof (fold_scalars cb (utf8_decode_scalar _ b cb (le_n _) Eb)) as [Sb _].
    destruct (_ <=? _)%nat; [|done]. destruct (_ <=? _)%nat; [|done].
    injection Ha as [= <-]. injection Hb as [= <-]. split.
    + intros [= E]. f_equal. by apply utf8_string_inj.
    + intros [= E]. by rewrite E.
Qed.

(** The buffer is too small for names whose folding needs more bytes: U+023A
    takes two bytes and folds to the three-byte U+2C65, so two names of 172 and
    173 bytes that fold alike compare as different. *)
Lemma casefold_equal_long_names :
  let a := concat (replicate 86 [0xC8; 0xBA]) in
  let b := concat (replicate 85 [0xC8; 0xBA]) ++ [0xE2; 0xB1; 0xA5] in
  length a = 172%nat /\ length b = 173%nat /\
  map fold_codepoint <$> utf8_decode a = map fold_codepoint <$> utf8_decode b /\
  is_Some (utf8_decode a) /\ casefold_equal a b = false.
Proof. vm_compute. repeat split; eexists; reflexivity. Qed.

Lemma casefold_equal_spec_witness :
  casefold_equal [0xC3; 0x84; 0x42] [0xC3; 0xA4; 0x62] = true.
Proof.
  destruct casefold_equal_spec as [_ H].
  apply (H [0xC3; 0x84; 0x42] [0xC3; 0xA4; 0x62] [0xC3; 0xA4; 0x62] [0xC3; 0xA4; 0x62]);
    vm_compute; reflexivity.
Defined.
