(* ===== verification/PosixCall.v ===== *)
(** What every POSIX wrapper of [src/posix] is built from ([src/posix/lib.rs]):
    the IPC call with retry, the packing of paths into message registers, and
    the translation of status codes to errno values. *)

From S2P Require Import Prelude Consts Kernel Ipc.

(** ** Errno *)

(** The arms of the match, in order. *)
Definition errno_arms : list (Z * Z) :=
  [(TRONA_OK, 0); (TRONA_NOT_FOUND, -2); (TRONA_ALREADY_EXISTS, -17); (TRONA_SLOT_OCCUPIED, -17);
   (TRONA_ALREADY_MAPPED, -17); (TRONA_INVALID_ARGUMENT, -22); (TRONA_OUT_OF_MEMORY, -12);
   (TRONA_BUSY, -16); (TRONA_ALREADY_BOUND, -16); (TRONA_WOULD_BLOCK, -11);
   (TRONA_IN_PROGRESS, -115); (TRONA_BAD_ADDRESS, -14); (TRONA_INSUFFICIENT_RIGHTS, -13);
   (TRONA_INVALID_CAPABILITY, -9); (TRONA_INTERRUPTED, -4); (TRONA_DEADLOCK, -35);
   (TRONA_INVALID_OPERATION, -1); (TRONA_OUT_OF_RANGE, -34); (TRONA_CANCELLED, -125);
   (TRONA_CONN_REFUSED, -111); (TRONA_TIMED_OUT, -110); (TRONA_PROTO_NOT_SUPPORTED, -93);
   (TRONA_HOST_UNREACHABLE, -113); (TRONA_NET_UNREACHABLE, -101); (TRONA_NO_BUFS, -105);
   (TRONA_CONN_RESET, -104); (TRONA_NOT_CONNECTED, -107); (TRONA_IS_CONNECTED, -106);
   (TRONA_ADDR_IN_USE, -98); (TRONA_DNS_NXDOMAIN, -2); (TRONA_DNS_SERVER_FAIL, -5)].

(** The first arm that matches; [EIO] otherwise. *)
Fixpoint first_arm (arms : list (Z * Z)) (label : Z) : Z :=
  match arms with
  | [] => -5
  | (pat, e) :: rest => if label =? pat then e else first_arm rest label
  end.

Definition trona_err_to_posix (label : Z) : Z := first_arm errno_arms label.

(** [err as u64] of an [i32] sign-extends. *)
Definition call_err_to_posix (err : Z) : Z := trona_err_to_posix (as_u64 err).

(** ** Calls with retry *)

Section calls.
Context `{Kernel}.

(** The loop of both functions: call again while the status asks for it.
    [fuel] bounds the number of attempts; [None] is running out of it. *)
Fixpoint call_loop (again : Z -> bool) (fuel : nat) (w : World) (ep : Z) (m : TronaMsg)
    (reply : option TronaMsg) : option (Z * option TronaMsg * World) :=
  match fuel with
  | O => None
  | S fuel' =>
      let '(err, reply, w) := call_ctx w ep m reply in
      if again err then call_loop again fuel' w ep m reply else Some (err, reply, w)
  end.

Definition restarted (err : Z) : bool := err =? as_i32 TRONA_RESTART.
Definition ipc_call_retry := call_loop restarted.

Definition restarted_or_interrupted (err : Z) : bool :=
  (err =? as_i32 TRONA_RESTART) || (err =? as_i32 TRONA_INTERRUPTED).
Definition ipc_call_retry_idempotent := call_loop restarted_or_interrupted.
End calls.

(** ** Paths in message registers *)

(** A byte store into the register array, byte [i] from [&regs[r]]. *)
Definition set_byte (word : Z) (k : nat) (v : Z) : Z := le_value (<[k := v]> (le_bytes 8 word)).

Definition store_byte (rs : list Z) (r i : nat) (v : Z) : list Z :=
  let w := (r + i `div` 8)%nat in
  <[w := set_byte (default 0 (rs !! w)) (i `mod` 8) v]> rs.

(** [while len < limit && path[len] != 0 { len += 1 }]; [None] is a read past
    the end of the memory [path].  (The limit is at most 128, so the [u8]
    counter does not overflow.) *)
Fixpoint path_scan (limit : nat) (path : list Z) : option nat :=
  match limit with
  | O => Some O
  | S limit' =>
      match path with
      | [] => None
      | b :: rest => if b =? 0 then Some O else S <$> path_scan limit' rest
      end
  end.

(** [for i in lo..20 { regs[i] = 0 }] *)
Fixpoint zero_regs (n lo : nat) (rs : list Z) : list Z :=
  match n with
  | O => rs
  | S n' => zero_regs n' (S lo) (<[lo := 0]> rs)
  end.

(** [for i in 0..path_len { *dst.add(i) = *path.add(i) }] *)
Fixpoint copy_path (r i : nat) (bytes : list Z) (rs : list Z) : list Z :=
  match bytes with
  | [] => rs
  | b :: rest => copy_path r (S i) rest (store_byte rs r i b)
  end.

(** [None]: an index out of the register array, or a read past [path]. *)
Definition pack_path (m : TronaMsg) (offset : nat) (path : list Z) (max_len : nat)
    : option (nat * TronaMsg) :=
  let avail := ((20 - (offset + 1)) * 8)%nat in
  let cap := if (max_len <? 128)%nat then max_len else 128%nat in
  let limit := if (cap <? avail)%nat then cap else avail in
  len ← path_scan limit path;
  if (length (regs m) <=? offset + 1)%nat then None else
  let rs := <[offset := Z.of_nat len]> (regs m) in
  let rs := zero_regs (20 - (offset + 1)) (offset + 1) rs in
  let rs := copy_path (offset + 1) 0 (take len path) rs in
  Some (len, mkMsg (label m) (msg_length m) rs).

(** ** Theorems: errno *)

Lemma first_arm_range arms label :
  Forall (fun a => -125 <= a.2 <= 0) arms -> -125 <= first_arm arms label <= 0.
Proof.
  induction 1 as [|[p e] arms He _ IH]; cbn [first_arm]; [lia|]. case_if; [done|apply IH].
Qed.

(** Every status becomes a valid negative errno, and only success becomes 0. *)
Lemma trona_err_to_posix_range label :
  -125 <= trona_err_to_posix label <= 0 /\ (trona_err_to_posix label = 0 <-> label = TRONA_OK).
Proof.
  split.
  - apply first_arm_range. apply Forall_fold_right. vm_compute. repeat split; discriminate.
  - unfold trona_err_to_posix, errno_arms. cbn [first_arm].
    destruct (Z.eqb_spec label TRONA_OK); [done|]. split; [|done]. intros E. exfalso.
    repeat match type of E with (if ?b then _ else _) = _ => destruct b; [discriminate E|] end.
    discriminate E.
Qed.

(** Kernel and network status codes overlap, so arms shadow each other: the
    network errors HOST_UNREACHABLE, PROTO_NOT_SUPPORTED and DNS_SERVER_FAIL
    become EBUSY, EEXIST and EEXIST instead of the values their arms name, and
    the file errors IS_DIRECTORY, LOOP and IO_ERROR become ECONNREFUSED,
    ETIMEDOUT and ENOENT. *)
Lemma errno_collisions :
  trona_err_to_posix TRONA_HOST_UNREACHABLE = -16 /\
  trona_err_to_posix TRONA_PROTO_NOT_SUPPORTED = -17 /\
  trona_err_to_posix TRONA_DNS_SERVER_FAIL = -17 /\
  trona_err_to_posix TRONA_IS_DIRECTORY = -111 /\
  trona_err_to_posix TRONA_LOOP = -110 /\
  trona_err_to_posix TRONA_IO_ERROR = -2.
Proof. done. Qed.

(** ** Theorems: calls with retry *)

Section retry.
Context `{K : Kernel} `{!KernelWf K}.
Context (ep : Z) (m : TronaMsg).

(** The world after [k] attempts, and the status the next one gets. *)
Fixpoint after (k : nat) (w : World) : World :=
  match k with
  | O => w
  | S k' => after k' (snd (transmit w SYS_CALL ep m))
  end.

Definition answer (k : nat) (w : World) : TronaResult := fst (transmit (after k w) SYS_CALL ep m).
Definition status (k : nat) (w : World) : Z := as_i32 (error (answer k w)).

Lemma after_ready k w b :
  ctx_ready (ctx w) b 0 ->
  (exists b', ctx_ready (ctx (after k w)) b' 0) /\
  trace (after k w) = trace w ++ replicate k (wire_call SYS_CALL ep 0 m).
Proof.
  revert w b. induction k as [|k IH]; intros w b Hr; cbn [after].
  - split; [by exists b|]. by rewrite app_nil_r.
  - pose proof (transmit_ready w SYS_CALL ep m b 0 Hr) as HT. cbv zeta in HT.
    rewrite HT. cbn [snd]. set (w1 := mkWorld _ _).
    destruct Hr as [_ Hb _].
    assert (ctx_ready (ctx w1) (k_buffer (trace w) (wire_call SYS_CALL ep 0 m) (overflowed m b)) 0) as Hr1.
    { split; [done| |lia]. by apply k_buffer_wf, overflowed_wf. }
    destruct (IH _ _ Hr1) as [He Ht]. split; [done|]. rewrite Ht. cbn [trace w1].
    by rewrite <- app_assoc.
Qed.

(** The loop runs until the first status that does not ask for another try. *)
Lemma call_loop_runs again k w reply fuel :
  (forall j, (j < k)%nat -> again (status j w) = true) ->
  (forall j, (j < k)%nat -> error (answer j w) <> 0) ->
  again (status k w) = false -> (k < fuel)%nat ->
  call_loop again fuel w ep m reply =
    Some (status k w,
          (if error (answer k w) =? 0 then store_msg reply (ctx (after (S k) w)) else reply),
          after (S k) w).
Proof.
  revert w fuel. induction k as [|k IH]; intros w fuel Hag Herr Hst Hf;
    (destruct fuel as [|fuel]; [lia|]); cbn [call_loop]; unfold call_ctx.
  - unfold status, answer in *. cbn [after] in *.
    destruct (transmit w SYS_CALL ep m) as [r w1]. cbn [fst snd] in *. by rewrite Hst.
  - pose proof (Hag 0%nat ltac:(lia)) as H0. pose proof (Herr 0%nat ltac:(lia)) as E0.
    specialize (IH (snd (transmit w SYS_CALL ep m)) fuel).
    unfold status, answer in H0, E0. cbn [after] in H0, E0 |- *.
    destruct (transmit w SYS_CALL ep m) as [r w1] eqn:HT. cbn [fst snd] in *.
    rewrite H0. destruct (Z.eqb_spec (error r) 0); [done|].
    assert (forall j, status (S j) w = status j w1 /\ answer (S j) w = answer j w1) as HS.
    { intros j. unfold status, answer. cbn [after]. by rewrite HT. }
    rewrite (proj1 (HS k)) in Hst |- *. rewrite (proj2 (HS k)). apply IH; [| |done|lia].
    + intros j Hj. rewrite <- (proj1 (HS j)). apply Hag. lia.
    + intros j Hj. rewrite <- (proj2 (HS j)). apply Herr. lia.
Qed.

Lemma retry_error e again :
  again 0 = false -> again (as_i32 e) = true -> e <> 0.
Proof. intros H0 H1 ->. change (as_i32 0) with 0 in H1. congruence. Qed.
End retry.

(** C40: calls with retry.  With no capability staged, if the kernel answers the
    first [k] attempts with RESTART (for the idempotent variant: RESTART or
    INTERRUPTED) and the next one otherwise, then with fuel beyond [k] the call
    returns exactly that status after exactly [k + 1] system calls, all the
    same one; at each of them the buffer completes the caller's message,
    whatever the kernel left in it before; the reply is written only on
    success. *)
Theorem ipc_call_retry_spec `{K : Kernel} `{!KernelWf K} (idempotent : bool) w b ep m reply k fuel :
  let again := if idempotent then restarted_or_interrupted else restarted in
  let retry := if idempotent then ipc_call_retry_idempotent else ipc_call_retry in
  let c := wire_call SYS_CALL ep 0 m in
  msg_wf m -> ctx_ready (ctx w) b 0 ->
  (forall j, (j < k)%nat -> again (status ep m j w) = true) ->
  again (status ep m k w) = false -> (k < fuel)%nat ->
  (exists reply' w', retry fuel w ep m reply = Some (status ep m k w, reply', w') /\
    trace w' = trace w ++ replicate (S k) c /\
    (error (answer ep m k w) <> 0 -> reply' = reply)) /\
  (forall j, (j <= k)%nat -> exists bj, ctx_ready (ctx (after ep m j w)) bj 0 /\
    same_message m (wire_message c (overflowed m bj))).
Proof.
  intros again retry c Hm Hr Hag Hst Hf.
  assert (retry = call_loop again) as -> by (by destruct idempotent).
  assert (again 0 = false) as H0 by (by destruct idempotent).
  split.
  - eexists _, _. split; [apply (call_loop_runs ep m again k w reply fuel); [done| |done|done]|].
    { intros j Hj. by apply (retry_error _ again); [|apply Hag]. }
    split; [apply (after_ready ep m (S k) w b Hr)|].
    intros He. by destruct (Z.eqb_spec (error (answer ep m k w)) 0).
  - intros j _. destruct (after_ready ep m j w b Hr) as [[bj Hj] _]. exists bj. split; [done|].
    apply wire_message_same; [done|by destruct Hj|lia].
Qed.

(** A kernel that interrupts the first call and answers the second. *)
Definition RestartingKernel : Kernel := {|
  k_result tr _ _ := mkResult (if Nat.eqb (length tr) 0 then TRONA_RESTART else TRONA_OK) 0;
  k_buffer _ _ b := b;
|}.

#[export] Instance RestartingKernel_wf : KernelWf RestartingKernel.
Proof. by intros tr c b Hb. Qed.

Definition quiet_world : World := mkWorld [] (Some (mkCtx (Some empty_buffer) 0)).

Lemma ipc_call_retry_spec_witness :
  exists reply' w', ipc_call_retry (H := RestartingKernel) 2 quiet_world 5 sample_msg None = Some (0, reply', w') /\
    trace w' = replicate 2 (wire_call SYS_CALL 5 0 sample_msg).
Proof.
  assert (ctx_ready (ctx quiet_world) empty_buffer 0) as Hr by (split; [done|apply empty_buffer_wf|lia]).
  destruct (ipc_call_retry_spec (K := RestartingKernel) false quiet_world empty_buffer 5 sample_msg None 1 2
    sample_msg_wf Hr) as [(reply' & w' & H1 & H2 & _) _].
  - intros j Hj. assert (j = 0%nat) as -> by lia. vm_compute. reflexivity.
  - vm_compute. reflexivity.
  - lia.
  - exists reply', w'. split; [exact H1|exact H2].
Defined.

(** ** Theorems: paths *)

Definition regs_bytes (rs : list Z) : list Z := rs ≫= le_bytes 8.

Definition byte (b : Z) : Prop := 0 <= b < 256.

Lemma length_regs_bytes rs : length (regs_bytes rs) = (8 * length rs)%nat.
Proof.
  induction rs as [|r rs IH]; [done|].
  change (regs_bytes (r :: rs)) with (le_bytes 8 r ++ regs_bytes rs).
  rewrite length_app, length_le_bytes, IH. cbn [length]. lia.
Qed.

Lemma regs_bytes_app a b : regs_bytes (a ++ b) = regs_bytes a ++ regs_bytes b.
Proof. apply bind_app. Qed.

Lemma le_bytes_value l : Forall byte l -> le_bytes (length l) (le_value l) = l.
Proof.
  induction 1 as [|b l Hb _ IH]; cbn [length le_bytes le_value]; [done|]. unfold byte in Hb.
  rewrite (Z.mul_comm 256). rewrite Z_mod_plus_full, Z.mod_small by lia.
  rewrite Z_div_plus_full, Z.div_small, Z.add_0_l by lia. by rewrite IH.
Qed.

Lemma le_bytes_set_byte w k v :
  byte v -> le_bytes 8 (set_byte w k v) = <[k := v]> (le_bytes 8 w).
Proof.
  intros Hv. unfold set_byte.
  assert (length (<[k := v]> (le_bytes 8 w)) = 8%nat) as Hl by (by rewrite length_insert, length_le_bytes).
  rewrite <- Hl at 1. apply le_bytes_value. apply Forall_insert; [|done].
  apply Forall_lookup. intros i b. apply le_bytes_byte.
Qed.

Lemma regs_bytes_insert rs w x :
  (w < length rs)%nat ->
  regs_bytes (<[w := x]> rs) = take (8 * w) (regs_bytes rs) ++ le_bytes 8 x ++ drop (8 * S w) (regs_bytes rs).
Proof.
  intros Hw. destruct (lookup_lt_is_Some_2 rs w Hw) as [y Hy].
  rewrite <- (take_drop_middle rs w y Hy). rewrite insert_app_r_alt by (rewrite length_take; lia).
  rewrite length_take, Nat.min_l, Nat.sub_diag by lia. cbn [insert list_insert].
  rewrite !regs_bytes_app. change (regs_bytes (?a :: ?l)) with (le_bytes 8 a ++ regs_bytes l).
  assert (length (regs_bytes (take w rs)) = (8 * w)%nat) as Hl
    by (rewrite length_regs_bytes, length_take; lia).
  rewrite take_app_length' by done. f_equal. f_equal.
  rewrite drop_app_ge by lia. rewrite Hl. replace (8 * S w - 8 * w)%nat with 8%nat by lia.
  by rewrite drop_app_length' by (by rewrite length_le_bytes).
Qed.

Lemma regs_bytes_block rs w y :
  rs !! w = Some y -> forall k, (k < 8)%nat -> regs_bytes rs !! (8 * w + k)%nat = le_bytes 8 y !! k.
Proof.
  intros Hy k Hk. rewrite <- (take_drop_middle rs w y Hy), regs_bytes_app.
  pose proof (lookup_lt_Some _ _ _ Hy).
  rewrite lookup_app_r; rewrite length_regs_bytes, length_take, Nat.min_l by lia; [|lia].
  replace (8 * w + k - 8 * w)%nat with k by lia.
  change (regs_bytes (?a :: ?l)) with (le_bytes 8 a ++ regs_bytes l).
  apply lookup_app_l. by rewrite length_le_bytes.
Qed.

Lemma regs_bytes_store rs r i v :
  byte v -> (8 * r + i < 8 * length rs)%nat ->
  regs_bytes (store_byte rs r i v) = <[(8 * r + i)%nat := v]> (regs_bytes rs).
Proof.
  intros Hv Hi. unfold store_byte. set (w := (r + i `div` 8)%nat).
  pose proof (Nat.div_mod_eq i 8) as Hd. pose proof (Nat.mod_upper_bound i 8 ltac:(lia)) as Hm.
  assert (w < length rs)%nat as Hw by lia.
  destruct (lookup_lt_is_Some_2 rs w Hw) as [y Hy]. rewrite Hy. cbn [default from_option id].
  rewrite regs_bytes_insert, le_bytes_set_byte by done.
  replace (8 * r + i)%nat with (8 * w + i `mod` 8)%nat by lia.
  apply list_eq. intros j. pose proof (length_regs_bytes rs) as HL.
  assert (length (take (8 * w) (regs_bytes rs)) = (8 * w)%nat) as Ht by (rewrite length_take; lia).
  destruct (decide (j < 8 * w)%nat).
  { rewrite lookup_app_l, lookup_take_lt, list_lookup_insert_ne by lia. done. }
  rewrite lookup_app_r, Ht by lia. destruct (decide (j - 8 * w < 8)%nat) as [Hj|Hj].
  - rewrite lookup_app_l by (rewrite length_insert, length_le_bytes; lia).
    destruct (decide (j - 8 * w = i `mod` 8)%nat) as [E|E].
    + rewrite E, list_lookup_insert_eq by (rewrite length_le_bytes; lia).
      replace j with (8 * w + i `mod` 8)%nat by lia. rewrite list_lookup_insert_eq by lia. done.
    + rewrite !list_lookup_insert_ne by lia. rewrite <- (regs_bytes_block rs w y Hy) by done.
      f_equal. lia.
  - rewrite lookup_app_r; rewrite length_insert, length_le_bytes; [|lia].
    rewrite lookup_drop, list_lookup_insert_ne by lia. f_equal. lia.
Qed.

Lemma length_store_byte rs r i v : length (store_byte rs r i v) = length rs.
Proof. apply length_insert. Qed.

Lemma copy_path_bytes r bytes : forall i rs,
  Forall byte bytes -> (8 * r + i + length bytes <= 8 * length rs)%nat ->
  regs_bytes (copy_path r i bytes rs) =
    take (8 * r + i) (regs_bytes rs) ++ bytes ++ drop (8 * r + i + length bytes) (regs_bytes rs).
Proof.
  induction bytes as [|b bytes IH]; intros i rs Hb Hl; cbn [copy_path length app] in *.
  - by rewrite Nat.add_0_r, take_drop.
  - apply Forall_cons in Hb as [Hb Hbs]. pose proof (length_regs_bytes rs) as HL.
    rewrite IH by (rewrite ?length_store_byte; done || lia).
    rewrite regs_bytes_store, insert_take_drop by (done || lia).
    assert (length (take (8 * r + i) (regs_bytes rs)) = (8 * r + i)%nat) as Ht by (rewrite length_take; lia).
    replace (8 * r + S i)%nat with (length (take (8 * r + i) (regs_bytes rs)) + 1)%nat at 1 by lia.
    rewrite take_app_add. cbn [take]. rewrite take_0, <- app_assoc. cbn [app]. do 3 f_equal.
    replace (8 * r + S i + length bytes)%nat
      with (length (take (8 * r + i) (regs_bytes rs)) + S (length bytes))%nat by lia.
    rewrite drop_app_add. cbn [drop]. rewrite drop_drop. f_equal. lia.
Qed.

Lemma zero_regs_spec n : forall lo rs,
  (lo + n <= length rs)%nat -> zero_regs n lo rs = take lo rs ++ replicate n 0 ++ drop (lo + n) rs.
Proof.
  induction n as [|n IH]; intros lo rs Hl; cbn [zero_regs replicate app].
  - by rewrite Nat.add_0_r, take_drop.
  - rewrite IH by (rewrite length_insert; lia). rewrite insert_take_drop by lia.
    assert (length (take lo rs) = lo) as Ht by (rewrite length_take; lia).
    replace (S lo) with (length (take lo rs) + 1)%nat at 1 by lia.
    rewrite take_app_add. cbn [take]. rewrite take_0, <- app_assoc. cbn [app]. do 3 f_equal.
    replace (S lo + n)%nat with (length (take lo rs) + S n)%nat by lia.
    rewrite drop_app_add. cbn [drop]. rewrite drop_drop. f_equal. lia.
Qed.

Lemma regs_bytes_zero n : regs_bytes (replicate n 0) = replicate (8 * n) 0.
Proof.
  induction n as [|n IH]; [done|]. rewrite Nat.mul_succ_r, Nat.add_comm, replicate_add, <- IH. done.
Qed.

Lemma regs_bytes_take n rs : regs_bytes (take n rs) = take (8 * n) (regs_bytes rs).
Proof.
  revert rs. induction n as [|n IH]; intros [|r rs]; [done|done|done|].
  replace (8 * S n)%nat with (8 + 8 * n)%nat by lia. cbn [take].
  change (regs_bytes (r :: ?l)) with (le_bytes 8 r ++ regs_bytes l).
  rewrite IH. rewrite <- (length_le_bytes 8 r) at 3. by rewrite take_app_add.
Qed.

Lemma regs_bytes_drop n rs : regs_bytes (drop n rs) = drop (8 * n) (regs_bytes rs).
Proof.
  revert rs. induction n as [|n IH]; intros [|r rs]; [done|done|by rewrite drop_nil|].
  replace (8 * S n)%nat with (8 + 8 * n)%nat by lia. cbn [drop].
  change (regs_bytes (r :: ?l)) with (le_bytes 8 r ++ regs_bytes l).
  rewrite IH. rewrite <- (length_le_bytes 8 r) at 2. by rewrite drop_app_add.
Qed.

Lemma path_scan_spec s rest : forall limit,
  Forall (fun b => b <> 0) s -> path_scan limit (s ++ 0 :: rest) = Some (Nat.min (length s) limit).
Proof.
  induction s as [|b s IH]; intros [|limit] Hs; cbn [path_scan app length]; try done.
  apply Forall_cons in Hs as [Hb Hs]. destruct (Z.eqb_spec b 0); [done|]. by rewrite IH.
Qed.

(** What the register block looks like after the packing. *)
Lemma pack_regs offset len p rs :
  (offset <= 18)%nat -> length rs = 32%nat -> Forall byte p -> (length p <= 8 * (19 - offset))%nat ->
  regs_bytes (copy_path (offset + 1) 0 p (zero_regs (20 - (offset + 1)) (offset + 1) (<[offset := len]> rs)))
  = take (8 * offset) (regs_bytes rs) ++ le_bytes 8 len ++ p ++
    replicate (8 * (19 - offset) - length p) 0 ++ drop 160 (regs_bytes rs).
Proof.
  intros Ho Hl Hp Hlen. rewrite zero_regs_spec by (rewrite length_insert; lia).
  replace (20 - (offset + 1))%nat with (19 - offset)%nat by lia.
  replace (offset + 1 + (19 - offset))%nat with 20%nat by lia.
  rewrite copy_path_bytes; [|done|rewrite !length_app, length_take, length_drop, length_replicate, length_insert; lia].
  rewrite !regs_bytes_app, regs_bytes_zero, regs_bytes_take, regs_bytes_drop, Nat.add_0_r.
  rewrite regs_bytes_insert by lia. pose proof (length_regs_bytes rs) as HL. rewrite Hl in HL.
  set (A := take (8 * offset) (regs_bytes rs)).
  assert (length A = (8 * offset)%nat) as HA by (unfold A; rewrite length_take; lia).
  assert (length (A ++ le_bytes 8 len) = (8 * (offset + 1))%nat) as HB
    by (rewrite length_app, length_le_bytes; lia).
  rewrite (app_assoc A), (app_assoc A _ (p ++ _)). set (B := A ++ le_bytes 8 len) in *.
  assert (forall l, take (8 * (offset + 1)) (B ++ l) = B) as HT by (intros l; by apply take_app_length').
  assert (forall k l, drop (8 * (offset + 1) + k) (B ++ l) = drop k l) as HD
    by (intros k l; rewrite <- HB; apply drop_app_add).
  rewrite !HT, HD. do 2 f_equal.
  rewrite drop_app_le by (rewrite length_replicate; lia). rewrite drop_replicate. f_equal.
  replace (8 * 20)%nat with (8 * (offset + 1) + (160 - 8 * (offset + 1)))%nat at 1 by lia.
  rewrite HD, drop_drop. f_equal. lia.
Qed.

(** paths in messages.  For a NUL-terminated path and a register offset up
    to 18, packing succeeds; it writes the length [n], the path cut to [n]
    bytes (at most [max_len], 128, and the room up to register 19) and zeros up
    to register 19, as the message's bytes show, and changes nothing else. *)
Theorem pack_path_spec m offset s rest max_len :
  (offset <= 18)%nat -> length (regs m) = 32%nat -> Forall (fun b => 0 < b < 256) s ->
  let n := Nat.min (length s) (Nat.min (Nat.min max_len 128) (8 * (19 - offset))) in
  exists m', pack_path m offset (s ++ 0 :: rest) max_len = Some (n, m') /\
    label m' = label m /\ msg_length m' = msg_length m /\
    regs_bytes (regs m') =
      take (8 * offset) (regs_bytes (regs m)) ++ le_bytes 8 (Z.of_nat n) ++ take n s ++
      replicate (8 * (19 - offset) - n) 0 ++ drop 160 (regs_bytes (regs m)).
Proof.
  intros Ho Hl Hs n. unfold pack_path.
  rewrite path_scan_spec by (eapply Forall_impl; [exact Hs|]; cbn; lia).
  cbn [mbind option_bind].
  match goal with |- context [Nat.min (length s) ?l] =>
    replace l with (Nat.min (Nat.min max_len 128) (8 * (19 - offset)))
      by (destruct (Nat.ltb_spec max_len 128);
          match goal with |- context [Nat.ltb ?a ?b] => destruct (Nat.ltb_spec a b) end; lia) end.
  fold n. assert (length (take n (s ++ 0 :: rest)) = n) as Hn by (rewrite length_take, length_app; lia).
  destruct (Nat.leb_spec (length (regs m)) (offset + 1)); [lia|].
  eexists. split; [done|]. split; [done|]. split; [done|]. cbn [regs].
  rewrite pack_regs; [|done|done| |lia].
  - rewrite Hn. rewrite take_app_le by lia. done.
  - rewrite take_app_le by lia. apply Forall_take. eapply Forall_impl; [exact Hs|]. unfold byte. cbn. lia.
Qed.

Lemma pack_path_spec_witness :
  exists m', pack_path TronaMsg_zeroed 2 [47; 98; 105; 110; 0; 99] 128 = Some (4%nat, m') /\
    regs_bytes (regs m') = replicate 16 0 ++ le_bytes 8 4 ++ [47; 98; 105; 110] ++ replicate 132 0 ++ replicate 96 0.
Proof.
  destruct (pack_path_spec TronaMsg_zeroed 2 [47; 98; 105; 110] [99] 128) as (m' & H1 & _ & _ & H2).
  - lia.
  - reflexivity.
  - repeat constructor; lia.
  - exists m'. split; [exact H1|exact H2].
Defined.
