(* ===== verification/Protocol.v ===== *)
(** The labels of the servers' IPC protocols ([src/uapi/protocol/*.rs]), and that
    a label stands for one request only within each server's protocol. *)

From S2P Require Import Prelude.


(** *** [src/uapi/protocol/win32.rs] *)

Definition W32_RESOLVE_IMPORT : Z := 0x100.
Definition ENABLE_PROCESSED_INPUT : Z := 0x0001.
Definition ENABLE_LINE_INPUT : Z := 0x0002.
Definition ENABLE_ECHO_INPUT : Z := 0x0004.
Definition ENABLE_PROCESSED_OUTPUT : Z := 0x0001.
Definition ENABLE_WRAP_AT_EOL_OUTPUT : Z := 0x0002.
Definition DEFAULT_INPUT_MODE : Z := Z.lor (Z.lor ENABLE_PROCESSED_INPUT ENABLE_LINE_INPUT) ENABLE_ECHO_INPUT.
Definition DEFAULT_OUTPUT_MODE : Z := Z.lor ENABLE_PROCESSED_OUTPUT ENABLE_WRAP_AT_EOL_OUTPUT.

(** *** [src/uapi/protocol/vfs.rs] *)

Definition VFS_POSIX_OPEN : Z := 1.
Definition VFS_READ : Z := 2.
Definition VFS_WRITE : Z := 3.
Definition VFS_CLOSE : Z := 4.
Definition VFS_POSIX_STAT : Z := 5.
Definition VFS_LSEEK : Z := 6.
Definition VFS_POSIX_FSTAT : Z := 7.
Definition VFS_POSIX_ACCESS : Z := 8.
Definition VFS_POSIX_UNLINK : Z := 9.
Definition VFS_POSIX_RENAME : Z := 10.
Definition VFS_POSIX_MKDIR : Z := 11.
Definition VFS_POSIX_RMDIR : Z := 12.
Definition VFS_POSIX_OPENDIR : Z := 13.
Definition VFS_POSIX_READDIR : Z := 14.
Definition VFS_POSIX_LSTAT : Z := 15.
Definition VFS_POSIX_POLL : Z := 16.
Definition VFS_POSIX_SHM_OPEN : Z := 17.
Definition VFS_POSIX_SHM_UNLINK : Z := 18.
Definition VFS_POSIX_FTRUNCATE : Z := 19.
Definition VFS_POSIX_SOCKET : Z := 20.
Definition VFS_POSIX_BIND : Z := 21.
Definition VFS_POSIX_LISTEN : Z := 22.
Definition VFS_POSIX_ACCEPT : Z := 23.
Definition VFS_POSIX_CONNECT : Z := 24.
Definition VFS_POSIX_SENDMSG : Z := 25.
Definition VFS_POSIX_RECVMSG : Z := 26.
Definition VFS_POSIX_SOCKPAIR : Z := 27.
Definition VFS_POSIX_SHUTDOWN : Z := 28.
Definition VFS_POSIX_PIPE : Z := 29.
Definition VFS_POSIX_DUP : Z := 30.
Definition VFS_POSIX_DUP2 : Z := 31.
Definition VFS_POSIX_CLONE_FDS : Z := 32.
Definition VFS_POSIX_IOCTL : Z := 33.
Definition VFS_POSIX_CHDIR : Z := 36.
Definition VFS_POSIX_GETCWD : Z := 37.
Definition VFS_POSIX_TCGETATTR : Z := 38.
Definition VFS_POSIX_TCSETATTR : Z := 39.
Definition VFS_POSIX_EPOLL_CREATE : Z := 40.
Definition VFS_POSIX_EPOLL_CTL : Z := 41.
Definition VFS_POSIX_EPOLL_WAIT : Z := 42.
Definition VFS_POSIX_DUP3 : Z := 43.
Definition VFS_POSIX_MKFIFO : Z := 44.
Definition VFS_POSIX_OPENAT : Z := 47.
Definition VFS_POSIX_FSTATAT : Z := 48.
Definition VFS_POSIX_UNLINKAT : Z := 49.
Definition VFS_POSIX_RENAMEAT : Z := 50.
Definition VFS_POSIX_MKDIRAT : Z := 51.
Definition VFS_POSIX_FACCESSAT : Z := 52.
Definition VFS_POSIX_FCHMODAT : Z := 53.
Definition VFS_POSIX_FCHOWNAT : Z := 54.
Definition VFS_POSIX_LINKAT : Z := 55.
Definition VFS_POSIX_SYMLINKAT : Z := 56.
Definition VFS_POSIX_READLINKAT : Z := 57.
Definition VFS_POSIX_UTIMENSAT : Z := 58.
Definition VFS_POSIX_FCHMOD : Z := 59.
Definition VFS_POSIX_FCHOWN : Z := 60.
Definition VFS_CLIENT_EXIT : Z := 61.
Definition VFS_PREAD : Z := 62.
Definition VFS_PWRITE : Z := 63.
Definition VFS_BULK_SETUP : Z := 64.
Definition VFS_BULK_READ : Z := 65.
Definition VFS_POSIX_GETSOCKNAME : Z := 66.
Definition VFS_POSIX_GETPEERNAME : Z := 67.
Definition VFS_POSIX_SETSOCKOPT : Z := 68.
Definition VFS_POSIX_GETSOCKOPT : Z := 69.
Definition VFS_BACKEND_PAGER_READ : Z := 70.
Definition VFS_BACKEND_PAGER_WRITE : Z := 71.
Definition VFS_BULK_PWRITE : Z := 72.
Definition VFS_BACKEND_RESOLVE_BACKING : Z := 73.
Definition VFS_DUMP_PENDING : Z := 75.
Definition VFS_POSIX_STAT_FOR_EXEC : Z := 76.
Definition VFS_FSYNC : Z := 77.
Definition VFS_GETXATTR : Z := 78.
Definition VFS_SETXATTR : Z := 79.
Definition VFS_REMOVEXATTR : Z := 80.
Definition VFS_LISTXATTR : Z := 81.
Definition VFS_MOUNT : Z := 82.
Definition VFS_UMOUNT : Z := 83.
Definition VFS_PIVOT_ROOT : Z := 84.
Definition VFS_CLIENT_REGISTER : Z := 85.
Definition VFS_SYSCTL : Z := 86.
Definition VFS_POSIX_CANON_PATH : Z := 87.
Definition VFS_WIN32_OPEN : Z := 88.
Definition VFS_POSIX_UNSHARE : Z := 89.
Definition VFS_CLIENT_EXEC : Z := 90.

(** *** [src/uapi/protocol/posix.rs] *)

Definition POSIX_TTYSRV_GET_FG_PGRP : Z := 1.
Definition POSIX_TTYSRV_SET_FG_PGRP : Z := 2.
Definition POSIX_TTYSRV_SET_CTTY : Z := 3.
Definition POSIX_TTYSRV_DROP_CTTY : Z := 4.
Definition POSIX_TTYSRV_PTY_ALLOC : Z := 10.
Definition POSIX_TTYSRV_PTY_READ : Z := 11.
Definition POSIX_TTYSRV_PTY_WRITE : Z := 12.
Definition POSIX_TTYSRV_PTY_CLOSE : Z := 13.
Definition POSIX_TTYSRV_PTY_TCGETATTR : Z := 14.
Definition POSIX_TTYSRV_PTY_TCSETATTR : Z := 15.
Definition POSIX_TTYSRV_PTY_IOCTL : Z := 16.
Definition POSIX_TTYSRV_PTY_POLL : Z := 17.
Definition POSIX_TTYSRV_INPUT_EVENT : Z := 18.
Definition POSIX_TTYSRV_PTY_COLLECT : Z := 19.
Definition POSIX_TTYSRV_PTY_MASTER_WRITE : Z := 20.
Definition POSIX_TTYSRV_CLIENT_EXIT : Z := 21.
Definition VFS_POSIX_ISATTY : Z := 34.
Definition VFS_POSIX_FCNTL : Z := 35.

(** *** [src/uapi/protocol/procmgr.rs] *)

Definition PM_SPAWN : Z := 1.
Definition PM_EXIT : Z := 2.
Definition PM_WAIT : Z := 3.
Definition PM_GETPID : Z := 4.
Definition PM_FORK : Z := 5.
Definition PM_EXEC : Z := 6.
Definition PM_GETPPID : Z := 7.
Definition PM_KILL : Z := 8.
Definition PM_SIGACTION : Z := 9.
Definition PM_GETUID : Z := 10.
Definition PM_GETGID : Z := 11.
Definition PM_SETPGID : Z := 12.
Definition PM_GETPGID : Z := 13.
Definition PM_SETSID : Z := 14.
Definition PM_GETEUID : Z := 15.
Definition PM_GETEGID : Z := 16.
Definition PM_GETGROUPS : Z := 17.
Definition PM_REGISTER : Z := 21.
Definition PM_GETSID : Z := 22.
Definition PM_GETPGID_BADGE : Z := 23.
Definition PM_GETSID_BADGE : Z := 24.
Definition PM_KILL_PGID : Z := 25.
Definition PM_INJECT_CAP : Z := 26.
Definition PM_LIST_PIDS : Z := 27.
Definition PM_GET_PROC_INFO : Z := 28.
Definition PM_RESUME : Z := 29.
Definition PM_UMASK : Z := 30.
Definition PM_SETITIMER : Z := 32.
Definition PM_GETITIMER : Z := 33.
Definition PM_GET_EXE_PATH : Z := 34.
Definition PM_DUMP_PENDING : Z := 35.
Definition PM_GET_THREAD_CAPS : Z := 36.
Definition PM_SETUID : Z := 37.
Definition PM_SETGID : Z := 38.
Definition PM_SETEUID : Z := 39.
Definition PM_SETEGID : Z := 40.
Definition PM_SETREUID : Z := 41.
Definition PM_SETREGID : Z := 42.
Definition PM_SETGROUPS : Z := 43.
Definition PM_GET_CREDS_BY_BADGE : Z := 44.
Definition PM_GETRESUID : Z := 45.
Definition PM_GETRESGID : Z := 46.
Definition PM_SETRESUID : Z := 47.
Definition PM_SETRESGID : Z := 48.
Definition PM_GETRLIMIT : Z := 49.
Definition PM_SETRLIMIT : Z := 50.
Definition PM_SET_SESSION_TTY : Z := 51.
Definition PM_CLEAR_SESSION_TTY : Z := 52.
Definition PM_SET_SESSION_TTY_PGRP : Z := 53.
Definition PM_REGISTER_PERSONALITY_PROVIDER : Z := 54.
Definition PM_THREAD_CREATE : Z := 55.
Definition PM_THREAD_EXIT : Z := 56.
Definition PM_THREAD_JOIN : Z := 57.
Definition PM_THREAD_DETACH : Z := 58.
Definition PM_THREAD_LIST : Z := 59.
Definition PM_REGISTER_SERVICE_DEFS : Z := 60.
Definition PM_REGISTER_PROVIDER : Z := 61.
Definition PM_GET_SESSION_TTY_BADGE : Z := 62.

(** *** [src/uapi/protocol/mmsrv.rs] *)

Definition MM_REGISTER : Z := 0x80.
Definition MM_DEREGISTER : Z := 0x81.
Definition MM_BRK : Z := 0x82.
Definition MM_SBRK : Z := 0x83.
Definition MM_MMAP : Z := 0x84.
Definition MM_MUNMAP : Z := 0x85.
Definition MM_MPROTECT : Z := 0x86.
Definition MM_MAP_BATCH : Z := 0x87.
Definition MM_MAP_WINDOW : Z := 0x88.
Definition MM_UNMAP_WINDOW : Z := 0x89.
Definition MM_SHM_CREATE : Z := 0x8A.
Definition MM_SHM_MAP : Z := 0x8B.
Definition MM_SHM_UNMAP : Z := 0x8C.
Definition MM_FORK_REGIONS : Z := 0x8D.
Definition MM_SHM_DESTROY : Z := 0x8E.
Definition MM_SHM_RESIZE : Z := 0x8F.
Definition MM_GET_CLIENT_STATS : Z := 0x90.
Definition MM_REGISTER_SHARED_REGION : Z := 0x92.
Definition MM_MAP_OBJECT_REGION : Z := 0x93.
Definition MM_SYNC_FILE_BACKING : Z := 0x94.
Definition MM_FILE_MMAP : Z := 0x95.
Definition MM_SYNC_MMAP_WRITE : Z := 0x97.
Definition MM_PAGER_REQUEST : Z := 0x9A.
Definition MM_PAGER_WRITE_REQUEST : Z := 0x9B.
Definition MM_DUMP_PENDING : Z := 0x9C.
Definition MM_REGISTER_PAGER_EP : Z := 0x9D.
Definition MM_ALLOC_PRIVATE_REGION : Z := 0x9E.
Definition MM_ALLOC_PRIVATE_WINDOW : Z := 0x9F.
Definition MM_ALLOC_INITRD_COPY : Z := 0xA0.
Definition MM_ALLOC_BOOTINFO_COPY : Z := 0xA1.
Definition MM_COPY_FROM_CLIENT_REGION : Z := 0xA2.
Definition MM_ALLOC_PRIVATE_COPY_FROM_CLIENT_REGION : Z := 0xA3.
Definition MM_PREFAULT_RANGE : Z := 0xA4.
Definition MM_MPROTECT_TARGET : Z := 0xA5.
Definition MM_ALLOC_TYPED_COPY_FROM_CLIENT_REGION : Z := 0xA6.

(** *** [src/uapi/protocol/namesrv.rs] *)

Definition NS_REGISTER : Z := 1.
Definition NS_LOOKUP : Z := 2.

(** *** [src/uapi/protocol/rsrcsrv.rs] *)

Definition RES_ALLOC_OBJECT : Z := 0xE0.
Definition RES_ALLOC_BATCH : Z := 0xE1.
Definition RES_FREE_HANDLE : Z := 0xE2.
Definition RES_RECLAIM_OWNER : Z := 0xE3.
Definition RES_QUERY_USAGE : Z := 0xE4.
Definition RES_SET_QUOTA : Z := 0xE5.
Definition RES_ADOPT_UNTYPED : Z := 0xE6.
Definition RES_QUOTA_FLAG_PROMOTE_PRIVILEGED : Z := 2 ^ 63.

(** *** [src/uapi/protocol/server.rs] *)

Definition CONSOLE_WRITE : Z := 1.
Definition CONSOLE_READ : Z := 2.
Definition CONSOLE_TCGETATTR : Z := 3.
Definition CONSOLE_TCSETATTR : Z := 4.
Definition DISPLAY_GET_INFO : Z := 1.
Definition DISPLAY_PRESENT : Z := 2.
Definition DISPLAY_FILL_RECT : Z := 6.
Definition DISPLAY_WRITE_TEXT : Z := 7.
Definition DISPLAY_TERMINAL_WRITE : Z := 8.
Definition DISPLAY_SETUP_RING : Z := 9.
Definition PCI_FIND_DEVICE : Z := 1.
Definition PCI_GET_CAPS : Z := 2.
Definition PCI_LIST : Z := 3.
Definition PCI_READ_CONFIG32 : Z := 4.
Definition PCI_GET_BAR_CAP : Z := 5.
Definition PCI_WRITE_CONFIG32 : Z := 6.
Definition BLK_READ : Z := 1.
Definition BLK_WRITE : Z := 2.
Definition BLK_GET_INFO : Z := 3.
Definition BLK_FLUSH : Z := 4.
Definition BLK_GET_SHM_ID : Z := 5.
Definition SALTYFS_MOUNT : Z := 1.
Definition SALTYFS_LOOKUP : Z := 2.
Definition SALTYFS_READ : Z := 3.
Definition SALTYFS_READDIR : Z := 4.
Definition SALTYFS_STAT : Z := 5.
Definition SALTYFS_GETINFO : Z := 6.
Definition SALTYFS_READ_INLINE : Z := 7.
Definition SALTYFS_WRITE_INLINE : Z := 8.
Definition SALTYFS_CREATE : Z := 9.
Definition SALTYFS_MKDIR : Z := 10.
Definition SALTYFS_UNLINK : Z := 11.
Definition SALTYFS_RMDIR : Z := 12.
Definition SALTYFS_RENAME : Z := 13.
Definition SALTYFS_TRUNCATE : Z := 14.
Definition SALTYFS_SHM_SETUP : Z := 15.
Definition SALTYFS_WRITE : Z := 16.
Definition SALTYFS_SYMLINK : Z := 17.
Definition SALTYFS_READLINK : Z := 18.
Definition SALTYFS_LINK : Z := 19.
Definition SALTYFS_GETPARENT : Z := 20.
Definition SALTYFS_CHMOD : Z := 21.
Definition SALTYFS_CHOWN : Z := 22.
Definition SALTYFS_GETXATTR : Z := 23.
Definition SALTYFS_SETXATTR : Z := 24.
Definition SALTYFS_REMOVEXATTR : Z := 25.
Definition SALTYFS_LISTXATTR : Z := 26.
Definition NET_SOCKET : Z := 0xA0.
Definition NET_CONNECT : Z := 0xA1.
Definition NET_SEND : Z := 0xA2.
Definition NET_RECV : Z := 0xA3.
Definition NET_CLOSE : Z := 0xA4.
Definition NET_BIND : Z := 0xA5.
Definition NET_LISTEN : Z := 0xA6.
Definition NET_ACCEPT : Z := 0xA7.
Definition NET_SENDTO : Z := 0xA8.
Definition NET_RECVFROM : Z := 0xA9.
Definition NET_SHUTDOWN : Z := 0xAA.
Definition NET_GETSOCKNAME : Z := 0xAB.
Definition NET_GETPEERNAME : Z := 0xAC.
Definition NET_SETSOCKOPT : Z := 0xAD.
Definition NET_GETSOCKOPT : Z := 0xAE.
Definition NET_POLL_STATUS : Z := 0xAF.
Definition NET_REGISTER_VFS : Z := 0xB0.
Definition NET_COMPLETE : Z := 0xB1.
Definition NET_DNS_RESOLVE : Z := 0xB2.
Definition NET_DNS_RESOLVE_PTR : Z := 0xB3.
Definition NET_GET_CONFIG : Z := 0xB4.
Definition NET_GET_ARP_ENTRY : Z := 0xB5.
Definition NET_RECV_WAIT : Z := 0xB6.
Definition NET_ACCEPT_WAIT : Z := 0xB7.
Definition NET_RECVFROM_WAIT : Z := 0xB8.
Definition NET_SEND_WAIT : Z := 0xB9.
Definition NET_SENDTO_WAIT : Z := 0xBA.
Definition DNS_RESOLVE : Z := 1.
Definition DNS_CACHE_FLUSH : Z := 2.
Definition DNS_REVERSE_LOOKUP : Z := 3.
Definition DRIVER_REGISTER : Z := 0xC0.
Definition DRIVER_GET_INFO : Z := 0xC1.

(** ** The labels of each server *)

Definition vfs_labels : list Z :=
  [VFS_POSIX_OPEN; VFS_READ; VFS_WRITE; VFS_CLOSE; VFS_POSIX_STAT; VFS_LSEEK; VFS_POSIX_FSTAT;
   VFS_POSIX_ACCESS; VFS_POSIX_UNLINK; VFS_POSIX_RENAME; VFS_POSIX_MKDIR; VFS_POSIX_RMDIR;
   VFS_POSIX_OPENDIR; VFS_POSIX_READDIR; VFS_POSIX_LSTAT; VFS_POSIX_POLL; VFS_POSIX_SHM_OPEN;
   VFS_POSIX_SHM_UNLINK; VFS_POSIX_FTRUNCATE; VFS_POSIX_SOCKET; VFS_POSIX_BIND;
   VFS_POSIX_LISTEN; VFS_POSIX_ACCEPT; VFS_POSIX_CONNECT; VFS_POSIX_SENDMSG; VFS_POSIX_RECVMSG;
   VFS_POSIX_SOCKPAIR; VFS_POSIX_SHUTDOWN; VFS_POSIX_PIPE; VFS_POSIX_DUP; VFS_POSIX_DUP2;
   VFS_POSIX_CLONE_FDS; VFS_POSIX_IOCTL; VFS_POSIX_CHDIR; VFS_POSIX_GETCWD; VFS_POSIX_TCGETATTR;
   VFS_POSIX_TCSETATTR; VFS_POSIX_EPOLL_CREATE; VFS_POSIX_EPOLL_CTL; VFS_POSIX_EPOLL_WAIT;
   VFS_POSIX_DUP3; VFS_POSIX_MKFIFO; VFS_POSIX_OPENAT; VFS_POSIX_FSTATAT; VFS_POSIX_UNLINKAT;
   VFS_POSIX_RENAMEAT; VFS_POSIX_MKDIRAT; VFS_POSIX_FACCESSAT; VFS_POSIX_FCHMODAT;
   VFS_POSIX_FCHOWNAT; VFS_POSIX_LINKAT; VFS_POSIX_SYMLINKAT; VFS_POSIX_READLINKAT;
   VFS_POSIX_UTIMENSAT; VFS_POSIX_FCHMOD; VFS_POSIX_FCHOWN; VFS_CLIENT_EXIT; VFS_PREAD;
   VFS_PWRITE; VFS_BULK_SETUP; VFS_BULK_READ; VFS_POSIX_GETSOCKNAME; VFS_POSIX_GETPEERNAME;
   VFS_POSIX_SETSOCKOPT; VFS_POSIX_GETSOCKOPT; VFS_BACKEND_PAGER_READ; VFS_BACKEND_PAGER_WRITE;
   VFS_BULK_PWRITE; VFS_BACKEND_RESOLVE_BACKING; VFS_DUMP_PENDING; VFS_POSIX_STAT_FOR_EXEC;
   VFS_FSYNC; VFS_GETXATTR; VFS_SETXATTR; VFS_REMOVEXATTR; VFS_LISTXATTR; VFS_MOUNT; VFS_UMOUNT;
   VFS_PIVOT_ROOT; VFS_CLIENT_REGISTER; VFS_SYSCTL; VFS_POSIX_CANON_PATH; VFS_WIN32_OPEN;
   VFS_POSIX_UNSHARE; VFS_CLIENT_EXEC; VFS_POSIX_ISATTY; VFS_POSIX_FCNTL].
Definition ttysrv_labels : list Z :=
  [POSIX_TTYSRV_GET_FG_PGRP; POSIX_TTYSRV_SET_FG_PGRP; POSIX_TTYSRV_SET_CTTY;
   POSIX_TTYSRV_DROP_CTTY; POSIX_TTYSRV_PTY_ALLOC; POSIX_TTYSRV_PTY_READ;
   POSIX_TTYSRV_PTY_WRITE; POSIX_TTYSRV_PTY_CLOSE; POSIX_TTYSRV_PTY_TCGETATTR;
   POSIX_TTYSRV_PTY_TCSETATTR; POSIX_TTYSRV_PTY_IOCTL; POSIX_TTYSRV_PTY_POLL;
   POSIX_TTYSRV_INPUT_EVENT; POSIX_TTYSRV_PTY_COLLECT; POSIX_TTYSRV_PTY_MASTER_WRITE;
   POSIX_TTYSRV_CLIENT_EXIT].
Definition procmgr_labels : list Z :=
  [PM_SPAWN; PM_EXIT; PM_WAIT; PM_GETPID; PM_FORK; PM_EXEC; PM_GETPPID; PM_KILL; PM_SIGACTION;
   PM_GETUID; PM_GETGID; PM_SETPGID; PM_GETPGID; PM_SETSID; PM_GETEUID; PM_GETEGID;
   PM_GETGROUPS; PM_REGISTER; PM_GETSID; PM_GETPGID_BADGE; PM_GETSID_BADGE; PM_KILL_PGID;
   PM_INJECT_CAP; PM_LIST_PIDS; PM_GET_PROC_INFO; PM_RESUME; PM_UMASK; PM_SETITIMER;
   PM_GETITIMER; PM_GET_EXE_PATH; PM_DUMP_PENDING; PM_GET_THREAD_CAPS; PM_SETUID; PM_SETGID;
   PM_SETEUID; PM_SETEGID; PM_SETREUID; PM_SETREGID; PM_SETGROUPS; PM_GET_CREDS_BY_BADGE;
   PM_GETRESUID; PM_GETRESGID; PM_SETRESUID; PM_SETRESGID; PM_GETRLIMIT; PM_SETRLIMIT;
   PM_SET_SESSION_TTY; PM_CLEAR_SESSION_TTY; PM_SET_SESSION_TTY_PGRP;
   PM_REGISTER_PERSONALITY_PROVIDER; PM_THREAD_CREATE; PM_THREAD_EXIT; PM_THREAD_JOIN;
   PM_THREAD_DETACH; PM_THREAD_LIST; PM_REGISTER_SERVICE_DEFS; PM_REGISTER_PROVIDER;
   PM_GET_SESSION_TTY_BADGE].
Definition mmsrv_labels : list Z :=
  [MM_REGISTER; MM_DEREGISTER; MM_BRK; MM_SBRK; MM_MMAP; MM_MUNMAP; MM_MPROTECT; MM_MAP_BATCH;
   MM_MAP_WINDOW; MM_UNMAP_WINDOW; MM_SHM_CREATE; MM_SHM_MAP; MM_SHM_UNMAP; MM_FORK_REGIONS;
   MM_SHM_DESTROY; MM_SHM_RESIZE; MM_GET_CLIENT_STATS; MM_REGISTER_SHARED_REGION;
   MM_MAP_OBJECT_REGION; MM_SYNC_FILE_BACKING; MM_FILE_MMAP; MM_SYNC_MMAP_WRITE;
   MM_PAGER_REQUEST; MM_PAGER_WRITE_REQUEST; MM_DUMP_PENDING; MM_REGISTER_PAGER_EP;
   MM_ALLOC_PRIVATE_REGION; MM_ALLOC_PRIVATE_WINDOW; MM_ALLOC_INITRD_COPY;
   MM_ALLOC_BOOTINFO_COPY; MM_COPY_FROM_CLIENT_REGION; MM_ALLOC_PRIVATE_COPY_FROM_CLIENT_REGION;
   MM_PREFAULT_RANGE; MM_MPROTECT_TARGET; MM_ALLOC_TYPED_COPY_FROM_CLIENT_REGION].
Definition namesrv_labels : list Z :=
  [NS_REGISTER; NS_LOOKUP].
Definition rsrcsrv_labels : list Z :=
  [RES_ALLOC_OBJECT; RES_ALLOC_BATCH; RES_FREE_HANDLE; RES_RECLAIM_OWNER; RES_QUERY_USAGE;
   RES_SET_QUOTA; RES_ADOPT_UNTYPED].
Definition console_labels : list Z :=
  [CONSOLE_WRITE; CONSOLE_READ; CONSOLE_TCGETATTR; CONSOLE_TCSETATTR].
Definition display_labels : list Z :=
  [DISPLAY_GET_INFO; DISPLAY_PRESENT; DISPLAY_FILL_RECT; DISPLAY_WRITE_TEXT;
   DISPLAY_TERMINAL_WRITE; DISPLAY_SETUP_RING].
Definition pci_labels : list Z :=
  [PCI_FIND_DEVICE; PCI_GET_CAPS; PCI_LIST; PCI_READ_CONFIG32; PCI_GET_BAR_CAP;
   PCI_WRITE_CONFIG32].
Definition blk_labels : list Z :=
  [BLK_READ; BLK_WRITE; BLK_GET_INFO; BLK_FLUSH; BLK_GET_SHM_ID].
Definition saltyfs_labels : list Z :=
  [SALTYFS_MOUNT; SALTYFS_LOOKUP; SALTYFS_READ; SALTYFS_READDIR; SALTYFS_STAT; SALTYFS_GETINFO;
   SALTYFS_READ_INLINE; SALTYFS_WRITE_INLINE; SALTYFS_CREATE; SALTYFS_MKDIR; SALTYFS_UNLINK;
   SALTYFS_RMDIR; SALTYFS_RENAME; SALTYFS_TRUNCATE; SALTYFS_SHM_SETUP; SALTYFS_WRITE;
   SALTYFS_SYMLINK; SALTYFS_READLINK; SALTYFS_LINK; SALTYFS_GETPARENT; SALTYFS_CHMOD;
   SALTYFS_CHOWN; SALTYFS_GETXATTR; SALTYFS_SETXATTR; SALTYFS_REMOVEXATTR; SALTYFS_LISTXATTR].
Definition netsrv_labels : list Z :=
  [NET_SOCKET; NET_CONNECT; NET_SEND; NET_RECV; NET_CLOSE; NET_BIND; NET_LISTEN; NET_ACCEPT;
   NET_SENDTO; NET_RECVFROM; NET_SHUTDOWN; NET_GETSOCKNAME; NET_GETPEERNAME; NET_SETSOCKOPT;
   NET_GETSOCKOPT; NET_POLL_STATUS; NET_REGISTER_VFS; NET_COMPLETE; NET_DNS_RESOLVE;
   NET_DNS_RESOLVE_PTR; NET_GET_CONFIG; NET_GET_ARP_ENTRY; NET_RECV_WAIT; NET_ACCEPT_WAIT;
   NET_RECVFROM_WAIT; NET_SEND_WAIT; NET_SENDTO_WAIT].
Definition dnssrv_labels : list Z :=
  [DNS_RESOLVE; DNS_CACHE_FLUSH; DNS_REVERSE_LOOKUP].
Definition driver_labels : list Z :=
  [DRIVER_REGISTER; DRIVER_GET_INFO].

Definition protocols : list (list Z) :=
  [vfs_labels; ttysrv_labels; procmgr_labels; mmsrv_labels; namesrv_labels; rsrcsrv_labels; console_labels; display_labels; pci_labels; blk_labels; saltyfs_labels; netsrv_labels; dnssrv_labels; driver_labels].

(** Within every server's protocol no two requests share a label, and every
    label fits the 40-bit label field of the message-info word. *)
Theorem protocol_labels_distinct :
  Forall (fun labels => NoDup labels /\ Forall (fun l => 0 < l < 2 ^ 40) labels) protocols.
Proof.
  apply Forall_forall. intros labels Hl.
  assert (forallb (fun ls => bool_decide (NoDup ls) && forallb (fun l => (0 <? l) && (l <? 2 ^ 40)) ls) protocols = true)
    as H by (vm_compute; reflexivity).
  rewrite forallb_forall in H. specialize (H labels (proj1 (list_elem_of_In _ _) Hl)). apply andb_true_iff in H as [H1 H2].
  split; [by apply bool_decide_eq_true in H1|]. apply Forall_forall. intros l Hin.
  rewrite forallb_forall in H2. specialize (H2 l (proj1 (list_elem_of_In _ _) Hin)). bprop. lia.
Qed.
