(* ===== verification/PosixClient.v ===== *)
(** The environment of a POSIX wrapper: a monad over the process's state.

    Every wrapper of [src/posix] sends requests through the two calls with retry
    of PosixCall.  [Transport] is what they see of it: a call returns a status
    and a reply and changes the outside world; [None] means that it never
    returns.  [ipc_transport] is the transport the process really has, the calls
    of PosixCall over a kernel. *)

From S2P Require Import Prelude Consts Kernel Ipc PosixCall.

Class Transport := {
  tw : Type;
  (** [ipc_call_retry] ([false]) or [ipc_call_retry_idempotent] ([true]). *)
  t_call : bool -> tw -> Cap -> TronaMsg -> option (Z * TronaMsg * tw);
  (** [ipc::call_ctx], without retry. *)
  t_call_once : tw -> Cap -> TronaMsg -> option (Z * TronaMsg * tw);
  (** A system call with two arguments. *)
  t_syscall : tw -> Z -> Z -> Z -> TronaResult * tw;
  (** Bytes into the extended payload area of the thread's IPC buffer; [None]
      when it has no buffer. *)
  t_stage : tw -> list Z -> option tw;
  (** The flag [__sig_last_restart] that signal delivery leaves. *)
  t_restart : tw -> bool;
  (** Memory shared with a server, by address. *)
  t_read : tw -> Z -> nat -> option (list Z);
  t_write : tw -> Z -> list Z -> option tw;
}.

Definition ipc_transport `{Kernel} (fuel : nat) (restart : World -> bool) : Transport := {|
  tw := World;
  t_call idem w ep m :=
    match (if idem then ipc_call_retry_idempotent else ipc_call_retry) fuel w ep m (Some TronaMsg_zeroed) with
    | Some (err, Some reply, w) => Some (err, reply, w)
    | _ => None
    end;
  t_call_once w ep m :=
    match call_ctx w ep m (Some TronaMsg_zeroed) with
    | (err, Some reply, w) => Some (err, reply, w)
    | _ => None
    end;
  t_syscall w nr x0 x1 := syscall w nr x0 x1 0 0 0 0;
  t_stage w bytes :=
    b ← buffer_of (ctx w);
    Some (mkWorld (trace w) (map_buffer (fun b => set_reserved b (copy_path 0 0 bytes (reserved b))) (ctx w)));
  t_restart := restart;
  t_read _ _ _ := None;
  t_write _ _ _ := None;
|}.

(** [static mut UMASK_CACHE], [BULK_SHM_ADDR], [BULK_SHM_STATE]. *)
Record Proc `{Transport} := mkProc {
  pr_w : tw;
  pr_umask : Z;
  pr_bulk_addr : Z;
  pr_bulk_state : Z;
}.

(** The endpoints of the servers. *)
Record Endpoints := mkEps { vfs_ep : Cap; procmgr_ep : Cap; mmsrv_ep : Cap }.

Section monad.
Context `{Transport}.

Definition M (A : Type) : Type := Proc -> option (A * Proc).

#[global] Instance M_ret : MRet M := fun A a p => Some (a, p).
#[global] Instance M_bind : MBind M := fun A B f m p => '(a, p') ← m p; f a p'.

(** A fault, or a loop that does not end. *)
Definition stuck {A} : M A := fun _ => None.
Definition lift {A} (o : option A) : M A := fun p => a ← o; Some (a, p).

Definition call (idem : bool) (ep : Cap) (m : TronaMsg) : M (Z * TronaMsg) := fun p =>
  r ← t_call idem (pr_w p) ep m;
  let '(err, reply, w) := r in
  Some (err, reply, mkProc _ w (pr_umask p) (pr_bulk_addr p) (pr_bulk_state p)).

Definition call_once (ep : Cap) (m : TronaMsg) : M (Z * TronaMsg) := fun p =>
  r ← t_call_once (pr_w p) ep m;
  let '(err, reply, w) := r in
  Some (err, reply, mkProc _ w (pr_umask p) (pr_bulk_addr p) (pr_bulk_state p)).

Definition sys (nr x0 x1 : Z) : M TronaResult := fun p =>
  let '(r, w) := t_syscall (pr_w p) nr x0 x1 in
  Some (r, mkProc _ w (pr_umask p) (pr_bulk_addr p) (pr_bulk_state p)).

(** Whether there is a buffer to put the bytes in. *)
Definition stage (bytes : list Z) : M bool := fun p =>
  match t_stage (pr_w p) bytes with
  | None => Some (false, p)
  | Some w => Some (true, mkProc _ w (pr_umask p) (pr_bulk_addr p) (pr_bulk_state p))
  end.

Definition sig_last_restart : M bool := fun p => Some (t_restart (pr_w p), p).
Definition get_umask : M Z := fun p => Some (pr_umask p, p).
Definition set_umask (v : Z) : M unit := fun p =>
  Some (tt, mkProc _ (pr_w p) v (pr_bulk_addr p) (pr_bulk_state p)).

(** [label], [length] and the registers from 0 on; the others are zero. *)
Definition mk (lbl len : Z) (rs : list Z) : TronaMsg := mkMsg lbl len (rs ++ replicate (32 - length rs) 0).

Definition words (n : nat) : Z := (Z.of_nat n + 7) / 8.

(** A request with a path: its length goes into the register after [head], its
    bytes into the registers behind it. *)
Definition path_msg (lbl : Z) (head : list Z) (path : list Z) : M TronaMsg :=
  r ← lift (pack_path (mk lbl 0 head) (length head) path 128);
  let '(len, m) := r in
  mret (mkMsg lbl (Z.of_nat (length head) + 1 + words len) (regs m)).

(** [while *path.add(len) != 0 && len < 64 { len += 1 }]: the byte is read
    before the limit is looked at. *)
Fixpoint scan64 (limit : nat) (path : list Z) : option nat :=
  match path with
  | [] => None
  | b :: rest =>
      if b =? 0 then Some O
      else match limit with O => Some O | S limit' => S <$> scan64 limit' rest end
  end.

(** Two byte strings behind [head], the second starting at a register. *)
Definition two_path_msg (lbl : Z) (head a b : list Z) : TronaMsg :=
  let base := length head in
  let rs := regs (mk lbl 0 head) in
  let rs := copy_path base 0 a rs in
  let rs := copy_path (base + Z.to_nat (words (length a))) 0 b rs in
  mkMsg lbl (Z.of_nat base + words (length a) + words (length b)) rs.

(** The common end of a wrapper. *)
Definition io_error (err : Z) (reply : TronaMsg) : Z :=
  if negb (err =? 0) then call_err_to_posix err else trona_err_to_posix (label reply).

Definition failed (err : Z) (reply : TronaMsg) : bool := negb (err =? 0) || negb (label reply =? TRONA_OK).

Definition request (idem : bool) (ep : Cap) (m : TronaMsg) (ok : TronaMsg -> Z) : M Z :=
  r ← call idem ep m;
  let '(err, reply) := r in
  mret (if failed err reply then io_error err reply else ok reply).

Definition ok_zero (_ : TronaMsg) : Z := 0.
Definition ok_i32 (reply : TronaMsg) : Z := as_i32 (reg reply 0).

(** A request whose success also stores into the caller's memory. *)
Definition request_out {O} (idem : bool) (ep : Cap) (m : TronaMsg) (out : O) (ok : TronaMsg -> O -> option O) : M (Z * O) :=
  r ← call idem ep m;
  let '(err, reply) := r in
  if failed err reply then mret (io_error err reply, out)
  else out ← lift (ok reply out); mret (0, out).

(** [buf[off..off + bytes.len()] = bytes]; a fault outside the buffer. *)
Definition put (buf : list Z) (off : Z) (bytes : list Z) : option (list Z) :=
  if (0 <=? off) && (off + Z.of_nat (length bytes) <=? Z.of_nat (length buf)) then
    Some (take (Z.to_nat off) buf ++ bytes ++ drop (Z.to_nat off + length bytes) buf)
  else None.

(** [n] bytes of a message from register [r] on; a fault beyond the registers. *)
Definition msg_bytes (m : TronaMsg) (r : nat) (n : Z) : option (list Z) :=
  let src := regs_bytes (drop r (regs m)) in
  if (0 <=? n) && (n <=? Z.of_nat (length src)) then Some (take (Z.to_nat n) src) else None.

(** [n] bytes of the caller's buffer from [off] on. *)
Definition buf_bytes (buf : list Z) (off n : Z) : option (list Z) :=
  if (0 <=? off) && (0 <=? n) && (off + n <=? Z.of_nat (length buf))
  then Some (take (Z.to_nat n) (drop (Z.to_nat off) buf)) else None.
End monad.

Arguments M {_} _.
