(* ===== verification/PosixProc.v ===== *)
(** POSIX process operations ([src/posix/proc.rs]): requests to the process
    manager, and the clock and sleep system calls. *)

From S2P Require Import Prelude Consts Kernel Ipc PosixCall Protocol PosixClient.

Definition SYS_NANOSLEEP : Z := 13.
Definition IPC_BUFFER_RESERVED_BYTES : Z := Z.of_nat IPC_BUFFER_RESERVED_WORDS * 8.
Definition EXEC_MSG_MIN_SLOWPATH_LEN : Z := 5.

Record Timespec := mkTimespec { ts_sec : Z; ts_nsec : Z }.
Record Timeval := mkTimeval { tv_sec : Z; tv_usec : Z }.
Record Itimerval := mkItimerval { it_interval : Timeval; it_value : Timeval }.

Section proc.
Context `{Transport} (eps : Endpoints).
Local Abbreviation procmgr := (procmgr_ep eps).

(** The process manager does not answer; if it did, the process would yield for
    ever. *)
Definition posix_exit (status : Z) : M Empty_set :=
  _ ← call false procmgr (mk PM_EXIT 1 [as_u64 status]);
  stuck.

Definition posix_getpid : M Z := request true procmgr (mk PM_GETPID 0 []) ok_i32.
Definition posix_getppid : M Z := request true procmgr (mk PM_GETPPID 0 []) ok_i32.

(** [status] is [None] for a null pointer. *)
Fixpoint posix_waitpid3 (fuel : nat) (pid : Z) (status : option Z) (options : Z) : M (Z * option Z) :=
  match fuel with
  | O => stuck
  | S fuel' =>
      r ← call_once procmgr (mk PM_WAIT 2 [as_u32 pid; as_u64 options]);
      let '(err, reply) := r in
      if err =? as_i32 TRONA_RESTART then posix_waitpid3 fuel' pid status options
      else if err =? as_i32 TRONA_INTERRUPTED then
        restart ← sig_last_restart;
        if (restart : bool) then posix_waitpid3 fuel' pid status options else mret (-4, status)
      else if failed err reply then mret (io_error err reply, status)
      else mret (as_i32 (reg reply 1), (fun _ => as_i32 (reg reply 0)) <$> status)
  end.

Definition posix_waitpid (fuel : nat) (pid : Z) (status : option Z) : M (Z * option Z) := posix_waitpid3 fuel pid status 0.

(** The bytes before the NUL; a fault when there is none. *)
Fixpoint c_string (mem : list Z) : option (list Z) :=
  match mem with
  | [] => None
  | b :: rest => if b =? 0 then Some [] else cons b <$> c_string rest
  end.

(** The strings of [argv] or [envp]; a null array is empty. *)
Definition c_strings (v : option (list (list Z))) : option (list (list Z)) :=
  match v with None => Some [] | Some l => mapM c_string l end.

Definition with_nul (s : list Z) : list Z := s ++ [0].
Definition E2BIG : Z := -7.
Definition EIO : Z := -5.

(** The request: path, number of strings, size of the payload. *)
Definition exec_msg (path : list Z) (argc envc total : Z) : TronaMsg :=
  let path_len := Z.of_nat (length path) in
  let rs := copy_path 1 0 path (regs (mk PM_EXEC 0 [path_len])) in
  let next := (1 + Z.to_nat (words (length path)))%nat in
  let rs := <[next := Z.lor (Z.shiftl (as_u32 argc) 32) (as_u32 envc)]> rs in
  let rs := <[S next := total]> rs in
  mkMsg PM_EXEC (Z.max (Z.of_nat next + 2) EXEC_MSG_MIN_SLOWPATH_LEN) rs.

Definition posix_execve (path : list Z) (argv envp : option (list (list Z))) : M Z :=
  path_len ← lift (scan64 64 path);
  args ← lift (c_strings argv);
  envs ← lift (c_strings envp);
  let payload := (args ++ envs) ≫= with_nul in
  let total := Z.of_nat (length payload) in
  if total >? IPC_BUFFER_RESERVED_BYTES then mret E2BIG
  else
    staged ← stage payload;
    if negb staged then mret EIO
    else
      r ← call false procmgr
            (exec_msg (take path_len path) (Z.of_nat (length args)) (Z.of_nat (length envs)) total);
      let '(err, reply) := r in
      mret (if negb (err =? 0) then call_err_to_posix err
            else if label reply =? TRONA_OUT_OF_RANGE then E2BIG
            else if failed err reply then io_error err reply else 0).

Fixpoint posix_kill (fuel : nat) (pid sig : Z) : M Z :=
  match fuel with
  | O => stuck
  | S fuel' =>
      r ← call_once procmgr (mk PM_KILL 2 [as_u32 pid; as_u64 sig]);
      let '(err, reply) := r in
      if err =? as_i32 TRONA_RESTART then posix_kill fuel' pid sig
      else if err =? as_i32 TRONA_INTERRUPTED then mret 0
      else mret (if failed err reply then io_error err reply else 0)
  end.

(** ** Identity *)

Definition posix_setpgid (pid pgid : Z) : M Z := request false procmgr (mk PM_SETPGID 2 [as_u32 pid; as_u32 pgid]) ok_zero.
Definition posix_getpgid (pid : Z) : M Z := request true procmgr (mk PM_GETPGID 1 [as_u32 pid]) ok_i32.
Definition posix_setsid : M Z := request false procmgr (mk PM_SETSID 0 []) ok_i32.
Definition posix_getsid (pid : Z) : M Z := request true procmgr (mk PM_GETSID 1 [as_u32 pid]) ok_i32.
Definition posix_getuid : M Z := request true procmgr (mk PM_GETUID 0 []) ok_i32.
Definition posix_geteuid : M Z := request true procmgr (mk PM_GETEUID 0 []) ok_i32.
Definition posix_getgid : M Z := request true procmgr (mk PM_GETGID 0 []) ok_i32.
Definition posix_getegid : M Z := request true procmgr (mk PM_GETEGID 0 []) ok_i32.
Definition posix_getgroups (size : Z) : M Z := request true procmgr (mk PM_GETGROUPS 1 [as_u64 size]) ok_i32.
Definition posix_setuid (uid : Z) : M Z := request false procmgr (mk PM_SETUID 1 [uid]) ok_zero.
Definition posix_setgid (gid : Z) : M Z := request false procmgr (mk PM_SETGID 1 [gid]) ok_zero.
Definition posix_seteuid (euid : Z) : M Z := request false procmgr (mk PM_SETEUID 1 [euid]) ok_zero.
Definition posix_setegid (egid : Z) : M Z := request false procmgr (mk PM_SETEGID 1 [egid]) ok_zero.
Definition posix_setreuid (ruid euid : Z) : M Z := request false procmgr (mk PM_SETREUID 2 [ruid; euid]) ok_zero.
Definition posix_setregid (rgid egid : Z) : M Z := request false procmgr (mk PM_SETREGID 2 [rgid; egid]) ok_zero.

(** Two groups per register. *)
Fixpoint pack_groups (gs : list Z) : list Z :=
  match gs with
  | [] => []
  | [lo] => [Z.lor lo (0 << 32)%u64]
  | lo :: hi :: rest => Z.lor lo (hi << 32)%u64 :: pack_groups rest
  end.

Definition posix_setgroups (ngroups : Z) (groups : list Z) : M Z :=
  if ngroups >? 32 then mret (-22)
  else
    gs ← lift (if ngroups <=? Z.of_nat (length groups) then Some (take (Z.to_nat ngroups) groups) else None);
    let packed := pack_groups gs in
    request false procmgr (mk PM_SETGROUPS (1 + Z.of_nat (length packed)) (ngroups :: packed)) ok_zero.

(** Out-parameters; [None] is a null pointer. *)
Definition store (v : Z) (out : option Z) : option Z := (fun _ => v) <$> out.
Definition store3 (r : TronaMsg) (out : option Z * option Z * option Z) : option (option Z * option Z * option Z) :=
  let '(a, b, c) := out in
  Some (store (as_u32 (reg r 0)) a, store (as_u32 (reg r 1)) b, store (as_u32 (reg r 2)) c).

Definition posix_getresuid (out : option Z * option Z * option Z) : M (Z * _) :=
  request_out true procmgr (mk PM_GETRESUID 0 []) out store3.
Definition posix_getresgid (out : option Z * option Z * option Z) : M (Z * _) :=
  request_out true procmgr (mk PM_GETRESGID 0 []) out store3.
Definition posix_setresuid (ruid euid suid : Z) : M Z := request false procmgr (mk PM_SETRESUID 3 [ruid; euid; suid]) ok_zero.
Definition posix_setresgid (rgid egid sgid : Z) : M Z := request false procmgr (mk PM_SETRESGID 3 [rgid; egid; sgid]) ok_zero.

Definition posix_getrlimit (resource : Z) (out : option Z * option Z) : M (Z * (option Z * option Z)) :=
  request_out true procmgr (mk PM_GETRLIMIT 1 [resource]) out
    (fun r out => Some (store (reg r 0) (fst out), store (reg r 1) (snd out))).
Definition posix_setrlimit (resource rlim_cur rlim_max : Z) : M Z :=
  request false procmgr (mk PM_SETRLIMIT 3 [resource; rlim_cur; rlim_max]) ok_zero.

(** ** Timers and clocks *)

Definition reply_itimer (r : TronaMsg) : Itimerval :=
  mkItimerval (mkTimeval (reg r 2) (reg r 3)) (mkTimeval (reg r 0) (reg r 1)).

Definition posix_setitimer (which : Z) (new_value old_value : option Itimerval) : M (Z * option Itimerval) :=
  match new_value with
  | None => mret (-14, old_value)
  | Some v =>
      request_out false procmgr
        (mk PM_SETITIMER 5 [as_u64 which; tv_sec (it_value v); tv_usec (it_value v); tv_sec (it_interval v); tv_usec (it_interval v)])
        old_value (fun r old => Some ((fun _ => reply_itimer r) <$> old))
  end.

Definition posix_getitimer (which : Z) (curr_value : option Itimerval) : M (Z * option Itimerval) :=
  match curr_value with
  | None => mret (-14, None)
  | Some _ =>
      request_out true procmgr (mk PM_GETITIMER 1 [as_u64 which]) curr_value (fun r _ => Some (Some (reply_itimer r)))
  end.

Definition NSEC_PER_SEC : Z := 1000000000.

Definition posix_clock_gettime (clock_id : Z) (ts : Timespec) : M (Z * Timespec) :=
  r ← sys SYS_CLOCK_GETTIME (as_u64 clock_id) 0;
  mret (if negb (error r =? 0) then (-1, ts)
        else (0, mkTimespec (value r / NSEC_PER_SEC) (value r mod NSEC_PER_SEC))).

Definition posix_gettimeofday (tv : Timeval) : M (Z * Timeval) :=
  r ← sys SYS_CLOCK_GETTIME 0 0;
  mret (if negb (error r =? 0) then (-1, tv)
        else (0, mkTimeval (value r / NSEC_PER_SEC) (value r mod NSEC_PER_SEC / 1000))).

Definition posix_nanosleep (req : Timespec) (rem : option Timespec) : M (Z * option Timespec) :=
  r ← sys SYS_NANOSLEEP (ts_sec req) (ts_nsec req);
  mret (if negb (error r =? 0) then -1 else 0, (fun _ => mkTimespec 0 0) <$> rem).

Definition posix_usleep (usec : Z) : M Z :=
  let seconds := usec / 1000000 in
  let nanos := usec mod 1000000 * 1000 in
  r ← sys SYS_NANOSLEEP seconds nanos;
  mret (if negb (error r =? 0) then -1 else 0).

Definition posix_sleep (seconds : Z) : M Z :=
  r ← sys SYS_NANOSLEEP seconds 0;
  mret (if negb (error r =? 0) then seconds else 0).
End proc.

(** * Memory requests ([src/posix/mm.rs]) *)

Definition MAP_ANONYMOUS : Z := 0x20.

Section mm.
Context `{Transport} (eps : Endpoints).
Local Abbreviation mmsrv := (mmsrv_ep eps).

(** Any failure is -1. *)
Definition request_m1 (m : TronaMsg) : M Z :=
  r ← call false mmsrv m;
  let '(err, reply) := r in
  mret (if failed err reply then -1 else 0).

(** Any failure is [u64::MAX], which is [MAP_FAILED]. *)
Definition request_addr (m : TronaMsg) : M Z :=
  r ← call false mmsrv m;
  let '(err, reply) := r in
  mret (if failed err reply then U64_MAX else reg reply 0).

Definition posix_brk (addr : Z) : M Z :=
  if mmsrv =? 0 then mret (-1) else request_m1 (mk MM_BRK 1 [addr]).

Definition posix_sbrk (increment : Z) : M Z :=
  if mmsrv =? 0 then mret U64_MAX else request_addr (mk MM_SBRK 1 [as_u64 increment]).

Definition posix_mmap (addr length prot flags fd offset : Z) : M Z :=
  if (mmsrv =? 0) || (length =? 0) then mret U64_MAX
  else if (fd >=? 0) && (Z.land flags MAP_ANONYMOUS =? 0) then
    if offset <? 0 then mret U64_MAX
    else request_addr (mk MM_FILE_MMAP 6 [as_u64 fd; as_u64 offset; length; as_u64 prot; as_u64 flags; addr])
  else if Z.land flags MAP_ANONYMOUS =? 0 then mret U64_MAX
  else request_addr (mk MM_MMAP 4 [addr; length; as_u64 prot; as_u64 flags]).

(** The pages a range touches: [None] when its end overflows. *)
Definition page_range (addr length : Z) : option (Z * Z) :=
  let start := Z.land addr (bnot 64 0xFFF) in
  if addr + length <=? U64_MAX then
    if addr + length + 4095 <=? U64_MAX then
      let end_ := Z.land (addr + length + 4095) (bnot 64 0xFFF) in
      if end_ <=? start then None else Some (start, (end_ - start)%u64 / 4096)
    else None
  else None.

Definition posix_prefault (addr length prot : Z) : M Z :=
  if (mmsrv =? 0) || (length =? 0) then mret (-1)
  else
    pid ← posix_getpid eps;
    if pid <=? 0 then mret (-1)
    else match page_range addr length with
    | None => mret (-1)
    | Some (start, pages) => request_m1 (mk MM_PREFAULT_RANGE 4 [as_u64 pid; start; pages; as_u64 prot])
    end.

Definition posix_munmap (addr length : Z) : M Z :=
  if mmsrv =? 0 then mret (-1) else request_m1 (mk MM_MUNMAP 2 [addr; length]).

Definition posix_mprotect (addr length prot : Z) : M Z :=
  if mmsrv =? 0 then mret (-1) else request_m1 (mk MM_MPROTECT 3 [addr; length; as_u64 prot]).
End mm.

Lemma page_down v : u64 v -> Z.land v (bnot 64 0xFFF) = 4096 * (v / 4096).
Proof.
  intros Hv. change 0xFFF with (2 ^ 12 - 1). rewrite land_bnot_align by (unfold u64, in_u in Hv; lia).
  change (2 ^ 12) with 4096. pose proof (Z.div_mod v 4096). lia.
Qed.

(** A non-empty range has pages exactly when rounding up its end does not
    overflow; they cover the range, and no page is too many. *)
Lemma page_range_spec addr length :
  u64 addr -> 0 < length ->
  (addr + length + 4095 <= U64_MAX /\ exists pages,
     page_range addr length = Some (4096 * (addr / 4096), pages) /\
     addr + length <= 4096 * (addr / 4096) + 4096 * pages < addr + length + 4096) \/
  (U64_MAX < addr + length + 4095 /\ page_range addr length = None).
Proof.
  intros Ha Hl. unfold page_range. rewrite (page_down addr Ha).
  destruct (Z.leb_spec (addr + length) U64_MAX); [|right; split; [lia|done]].
  destruct (Z.leb_spec (addr + length + 4095) U64_MAX); [left; split; [done|]|right; by split].
  rewrite page_down by (unfold u64, in_u, U64_MAX in *; lia).
  set (e := addr + length + 4095) in *. unfold u64, in_u, U64_MAX in *.
  pose proof (Z.div_mod e 4096). pose proof (Z.mod_pos_bound e 4096).
  pose proof (Z.div_mod addr 4096). pose proof (Z.mod_pos_bound addr 4096).
  destruct (Z.leb_spec (4096 * (e / 4096)) (4096 * (addr / 4096))); [lia|].
  exists (e / 4096 - addr / 4096). split; [|lia].
  do 2 f_equal. rewrite <- Z.mul_sub_distr_l, wrap_small, Z.mul_comm, Z.div_mul by lia. done.
Qed.
