(* ===== verification/PosixFile.v ===== *)
(** POSIX file operations ([src/posix/file.rs], [at.rs], [pipe.rs], [bulk.rs],
    and the wrappers of [misc.rs] that change files): requests to the VFS server.
    Reads and writes are chunked, because a message carries few bytes. *)

From S2P Require Import Prelude Consts Kernel Ipc PosixCall Protocol PosixClient PosixProc.

Definition BULK_SHM_PAGES : Z := 256.
Definition BULK_SHM_UNINIT : Z := 0.
Definition BULK_SHM_INITING : Z := 1.
Definition BULK_SHM_READY : Z := 2.

Record TronaStat := mkStat {
  st_ino : Z; st_mode : Z; st_nlink : Z; st_size : Z; st_uid : Z; st_gid : Z; st_mtime : Z; st_type : Z;
}.

Record TronaDirent := mkDirent { d_ino : Z; d_type : Z; d_namlen : Z; d_name : list Z (* [u8; 128] *) }.

Section file.
Context `{Transport} (eps : Endpoints).
Local Abbreviation vfs := (vfs_ep eps).

(** ** Names *)

Definition posix_open (path : list Z) (flags mode : Z) : M Z :=
  umask ← get_umask;
  let mode := Z.land mode (bnot 32 umask) in
  m ← path_msg VFS_POSIX_OPEN [mode; as_u32 flags] path;
  request false vfs m ok_i32.

Definition posix_access (path : list Z) (mode : Z) : M Z :=
  m ← path_msg VFS_POSIX_ACCESS [as_u64 mode] path;
  request true vfs m ok_zero.

Definition posix_unlink (path : list Z) : M Z :=
  m ← path_msg VFS_POSIX_UNLINK [] path;
  request false vfs m ok_zero.

Definition posix_rename (old_path new_path : list Z) : M Z :=
  old_len ← lift (scan64 64 old_path);
  new_len ← lift (scan64 64 new_path);
  request false vfs
    (two_path_msg VFS_POSIX_RENAME [Z.of_nat old_len; Z.of_nat new_len] (take old_len old_path) (take new_len new_path))
    ok_zero.

Definition posix_mkdir (path : list Z) (mode : Z) : M Z :=
  umask ← get_umask;
  let mode := Z.land (as_u32 mode) (bnot 32 umask) in
  m ← path_msg VFS_POSIX_MKDIR [mode] path;
  request false vfs m ok_zero.

Definition posix_rmdir (path : list Z) : M Z :=
  m ← path_msg VFS_POSIX_RMDIR [] path;
  request false vfs m ok_zero.

Definition posix_opendir (path : list Z) : M Z :=
  m ← path_msg VFS_POSIX_OPENDIR [] path;
  request false vfs m ok_i32.

(** ** Status *)

(** [st] is [None] for a null pointer. *)
Definition read_stat (reply : TronaMsg) (st : option TronaStat) : option (option TronaStat) :=
  Some ((fun _ => mkStat (reg reply 0) (reg reply 1) (reg reply 2) (reg reply 3)
                    (reg reply 4) (reg reply 5) (reg reply 6) (reg reply 7)) <$> st).

Definition posix_stat (path : list Z) (st : option TronaStat) : M (Z * option TronaStat) :=
  m ← path_msg VFS_POSIX_STAT [] path;
  request_out true vfs m st read_stat.

Definition posix_lstat (path : list Z) (st : option TronaStat) : M (Z * option TronaStat) :=
  m ← path_msg VFS_POSIX_LSTAT [] path;
  request_out true vfs m st read_stat.

Definition posix_fstat (fd : Z) (st : option TronaStat) : M (Z * option TronaStat) :=
  request_out true vfs (mk VFS_POSIX_FSTAT 1 [as_u64 fd]) st read_stat.

(** ** Descriptors *)

Definition posix_close (fd : Z) : M Z := request false vfs (mk VFS_CLOSE 1 [as_u64 fd]) ok_zero.
Definition posix_closedir (dir_fd : Z) : M Z := posix_close dir_fd.

Definition posix_lseek (fd offset whence : Z) : M Z :=
  request true vfs (mk VFS_LSEEK 3 [as_u64 fd; as_u64 offset; as_u64 whence]) (fun r => as_i64 (reg r 0)).

Definition posix_ftruncate (fd length : Z) : M Z :=
  request false vfs (mk VFS_POSIX_FTRUNCATE 2 [as_u64 fd; length]) ok_zero.

Definition posix_fsync (fd : Z) : M Z := request false vfs (mk VFS_FSYNC 1 [as_u64 fd]) ok_zero.

Definition posix_fchmod (fd mode : Z) : M Z :=
  request false vfs (mk VFS_POSIX_FCHMOD 2 [as_u64 fd; mode]) ok_zero.

Definition posix_fchown (fd uid gid : Z) : M Z :=
  request false vfs (mk VFS_POSIX_FCHOWN 3 [as_u64 fd; uid; gid]) ok_zero.

Definition posix_umask (mask : Z) : M Z :=
  r ← call false (procmgr_ep eps) (mk PM_UMASK 1 [mask]);
  let '(err, reply) := r in
  prev ← get_umask;
  _ ← set_umask (Z.land mask 511);
  mret (if failed err reply then prev else as_u32 (reg reply 0)).

(** [entry] is [None] for a null pointer. *)
Definition posix_readdir (dir_fd : Z) (entry : option TronaDirent) : M (Z * option TronaDirent) :=
  r ← call true vfs (mk VFS_POSIX_READDIR 1 [as_u64 dir_fd]);
  let '(err, reply) := r in
  if failed err reply then mret (0, entry)
  else
    let name_len := as_u8 (reg reply 0) in
    if name_len =? 0 then mret (0, entry)
    else match entry with
    | None => mret (1, None)
    | Some e =>
        let max_copy := if name_len <? 127 then name_len else 127 in
        name ← lift (msg_bytes reply 4 max_copy);
        d_name ← lift (put (d_name e) 0 name);
        d_name ← lift (put d_name max_copy [0]);
        mret (1, Some (mkDirent (reg reply 2) (as_u8 (reg reply 3)) name_len d_name))
    end.

(** ** Pipes and duplication ([pipe.rs]) *)

(** [fds] is the caller's array of two. *)
Definition posix_pipe2 (fds : Z * Z) (flags : Z) : M (Z * (Z * Z)) :=
  request_out false vfs (mk VFS_POSIX_PIPE 1 [as_u64 flags]) fds
    (fun r _ => Some (as_i32 (reg r 0), as_i32 (reg r 1))).
Definition posix_pipe (fds : Z * Z) : M (Z * (Z * Z)) := posix_pipe2 fds 0.

Definition posix_dup (oldfd : Z) : M Z := request false vfs (mk VFS_POSIX_DUP 1 [as_u64 oldfd]) ok_i32.
Definition posix_dup2 (oldfd newfd : Z) : M Z :=
  request false vfs (mk VFS_POSIX_DUP2 2 [as_u64 oldfd; as_u64 newfd]) ok_i32.
Definition posix_dup3 (oldfd newfd flags : Z) : M Z :=
  request false vfs (mk VFS_POSIX_DUP3 3 [as_u64 oldfd; as_u64 newfd; as_u64 flags]) ok_i32.

Definition posix_mkfifo (path : list Z) (mode : Z) : M Z :=
  umask ← get_umask;
  m ← path_msg VFS_POSIX_MKFIFO [Z.land mode (bnot 32 umask)] path;
  request false vfs m ok_zero.

(** ** Names relative to a directory ([at.rs]) *)

Definition posix_openat (dirfd : Z) (path : list Z) (flags mode : Z) : M Z :=
  umask ← get_umask;
  m ← path_msg VFS_POSIX_OPENAT [as_u32 dirfd; as_u32 flags; Z.land mode (bnot 32 umask)] path;
  request false vfs m ok_i32.

Definition posix_fstatat (dirfd : Z) (path : list Z) (st : option TronaStat) (at_flags : Z) : M (Z * option TronaStat) :=
  m ← path_msg VFS_POSIX_FSTATAT [as_u32 dirfd; as_u32 at_flags] path;
  request_out true vfs m st read_stat.

Definition posix_unlinkat (dirfd : Z) (path : list Z) (at_flags : Z) : M Z :=
  m ← path_msg VFS_POSIX_UNLINKAT [as_u32 dirfd; as_u32 at_flags] path;
  request false vfs m ok_zero.

Definition ENAMETOOLONG : Z := -36.

Definition posix_renameat (old_dirfd : Z) (old_path : list Z) (new_dirfd : Z) (new_path : list Z) : M Z :=
  old_len ← lift (scan64 64 old_path);
  new_len ← lift (scan64 64 new_path);
  if 4 + words old_len + words new_len >? 20 then mret ENAMETOOLONG
  else
    request false vfs
      (two_path_msg VFS_POSIX_RENAMEAT [as_u32 old_dirfd; as_u32 new_dirfd; Z.of_nat old_len; Z.of_nat new_len]
         (take old_len old_path) (take new_len new_path))
      ok_zero.

Definition posix_mkdirat (dirfd : Z) (path : list Z) (mode : Z) : M Z :=
  umask ← get_umask;
  m ← path_msg VFS_POSIX_MKDIRAT [as_u32 dirfd; Z.land (as_u32 mode) (bnot 32 umask)] path;
  request false vfs m ok_zero.

Definition posix_faccessat (dirfd : Z) (path : list Z) (mode at_flags : Z) : M Z :=
  m ← path_msg VFS_POSIX_FACCESSAT [as_u32 dirfd; as_u64 mode; as_u32 at_flags] path;
  request true vfs m ok_zero.

Definition posix_fchmodat (dirfd : Z) (path : list Z) (mode at_flags : Z) : M Z :=
  m ← path_msg VFS_POSIX_FCHMODAT [as_u32 dirfd; mode; as_u32 at_flags] path;
  request false vfs m ok_zero.

Definition posix_fchownat (dirfd : Z) (path : list Z) (uid gid at_flags : Z) : M Z :=
  m ← path_msg VFS_POSIX_FCHOWNAT [as_u32 dirfd; uid; gid; as_u32 at_flags] path;
  request false vfs m ok_zero.

Definition posix_utimensat (dirfd : Z) (path : list Z)
    (atime_sec atime_nsec mtime_sec mtime_nsec at_flags : Z) : M Z :=
  m ← path_msg VFS_POSIX_UTIMENSAT
        [as_u32 dirfd; as_u32 at_flags; as_u64 atime_sec; as_u64 atime_nsec; as_u64 mtime_sec; as_u64 mtime_nsec] path;
  request false vfs m ok_zero.

Definition posix_symlinkat (target : list Z) (newdirfd : Z) (linkpath : list Z) : M Z :=
  target_len ← lift (scan64 64 target);
  link_len ← lift (scan64 64 linkpath);
  if 3 + words link_len + words target_len >? 20 then mret ENAMETOOLONG
  else
    request false vfs
      (two_path_msg VFS_POSIX_SYMLINKAT [Z.of_nat target_len; as_u32 newdirfd; Z.of_nat link_len]
         (take link_len linkpath) (take target_len target))
      ok_zero.

Definition posix_readlinkat (dirfd : Z) (path buf : list Z) (bufsiz : Z) : M (Z * list Z) :=
  m ← path_msg VFS_POSIX_READLINKAT [as_u32 dirfd] path;
  r ← call true vfs m;
  let '(err, reply) := r in
  if failed err reply then mret (io_error err reply, buf)
  else
    let target_len := reg reply 0 in
    let copy_len := if target_len <? bufsiz then target_len else bufsiz in
    bytes ← lift (msg_bytes reply 1 copy_len);
    buf ← lift (put buf 0 bytes);
    mret (as_i64 copy_len, buf).

Definition posix_linkat (olddirfd : Z) (oldpath : list Z) (newdirfd : Z) (newpath : list Z) (flags : Z) : M Z :=
  old_len ← lift (scan64 64 oldpath);
  new_len ← lift (scan64 64 newpath);
  if 5 + words old_len + words new_len >? 20 then mret ENAMETOOLONG
  else
    request false vfs
      (two_path_msg VFS_POSIX_LINKAT
         [as_u32 olddirfd; as_u32 newdirfd; as_u32 flags; Z.of_nat old_len; Z.of_nat new_len]
         (take old_len oldpath) (take new_len newpath))
      ok_zero.

Definition AT_FDCWD : Z := -100.
Definition posix_symlink (target linkpath : list Z) : M Z := posix_symlinkat target AT_FDCWD linkpath.
Definition posix_readlink (path buf : list Z) (bufsiz : Z) : M (Z * list Z) := posix_readlinkat AT_FDCWD path buf bufsiz.
Definition posix_link (oldpath newpath : list Z) : M Z := posix_linkat AT_FDCWD oldpath AT_FDCWD newpath 0.

(** ** Reading and writing *)

Definition EINTR : Z := -4.
Definition EINVAL : Z := -22.

(** The data of a successful read: as many bytes as still fit the request go to
    the buffer. *)
Definition take_data (reply : TronaMsg) (actual count total : Z) (buf : list Z) : option (list Z) :=
  bytes ← msg_bytes reply 1 (Z.min actual (count - total));
  put buf total bytes.

(** A chunk of data behind [head]. *)
Definition data_msg (lbl : Z) (head : list Z) (data : list Z) : TronaMsg :=
  mkMsg lbl (Z.of_nat (length head) + words (length data)) (copy_path (length head) 0 data (regs (mk lbl 0 head))).

(** [while total < count] of [posix_read]; the buffer and the result. *)
Fixpoint read_loop (fuel : nat) (fd count total : Z) (buf : list Z) : M (Z * list Z) :=
  match fuel with
  | O => stuck
  | S fuel' =>
      if total <? count then
        let chunk := if count - total >? 152 then 152 else count - total in
        r ← call false vfs (mk VFS_READ 2 [as_u64 fd; chunk]);
        let '(err, reply) := r in
        if failed err reply then
          if err =? as_i32 TRONA_INTERRUPTED then
            if total >? 0 then mret (as_i64 total, buf)
            else
              restart ← sig_last_restart;
              if (restart : bool) then read_loop fuel' fd count total buf else mret (EINTR, buf)
          else if total >? 0 then mret (as_i64 total, buf)
          else mret (io_error err reply, buf)
        else
          let actual := reg reply 0 in
          if actual =? 0 then mret (as_i64 total, buf)
          else
            buf ← lift (take_data reply actual count total buf);
            let total := (total + actual)%u64 in
            if actual <? chunk then mret (as_i64 total, buf) else read_loop fuel' fd count total buf
      else mret (as_i64 total, buf)
  end.

Fixpoint write_loop (fuel : nat) (fd : Z) (buf : list Z) (count total : Z) : M Z :=
  match fuel with
  | O => stuck
  | S fuel' =>
      if total <? count then
        let chunk := if count - total >? 144 then 144 else count - total in
        data ← lift (buf_bytes buf total chunk);
        r ← call false vfs (data_msg VFS_WRITE [as_u64 fd; chunk] data);
        let '(err, reply) := r in
        if failed err reply then
          if err =? as_i32 TRONA_INTERRUPTED then
            if total >? 0 then mret (as_i64 total)
            else
              restart ← sig_last_restart;
              if (restart : bool) then write_loop fuel' fd buf count total else mret EINTR
          else if total >? 0 then mret (as_i64 total)
          else mret (io_error err reply)
        else
          let actual := reg reply 0 in
          let total := (total + actual)%u64 in
          if actual <? chunk then mret (as_i64 total) else write_loop fuel' fd buf count total
      else mret (as_i64 total)
  end.

Definition posix_write (fuel : nat) (fd : Z) (buf : list Z) (count : Z) : M Z := write_loop fuel fd buf count 0.

(** [offset.checked_add(total)] *)
Definition checked_off (offset total : Z) : option Z :=
  if offset + total <=? U64_MAX then Some (offset + total) else None.

Fixpoint pread_loop (fuel : nat) (fd count offset total : Z) (buf : list Z) : M (Z * list Z) :=
  match fuel with
  | O => stuck
  | S fuel' =>
      if total <? count then
        let chunk := if count - total >? 152 then 152 else count - total in
        match checked_off offset total with
        | None => mret (if total >? 0 then as_i64 total else EINVAL, buf)
        | Some cur_off =>
            r ← call true vfs (mk VFS_PREAD 3 [as_u64 fd; chunk; cur_off]);
            let '(err, reply) := r in
            if failed err reply then mret (if total >? 0 then as_i64 total else io_error err reply, buf)
            else
              let actual := reg reply 0 in
              if actual =? 0 then mret (as_i64 total, buf)
              else
                buf ← lift (take_data reply actual count total buf);
                let total := (total + actual)%u64 in
                if actual <? chunk then mret (as_i64 total, buf) else pread_loop fuel' fd count offset total buf
        end
      else mret (as_i64 total, buf)
  end.

Definition posix_pread (fuel : nat) (fd : Z) (buf : list Z) (count offset : Z) : M (Z * list Z) :=
  if offset <? 0 then mret (EINVAL, buf) else pread_loop fuel fd count offset 0 buf.

Fixpoint pwrite_loop (fuel : nat) (fd : Z) (buf : list Z) (count offset total : Z) : M Z :=
  match fuel with
  | O => stuck
  | S fuel' =>
      if total <? count then
        let chunk := if count - total >? 136 then 136 else count - total in
        match checked_off offset total with
        | None => mret (if total >? 0 then as_i64 total else EINVAL)
        | Some cur_off =>
            data ← lift (buf_bytes buf total chunk);
            r ← call true vfs (data_msg VFS_PWRITE [as_u64 fd; chunk; cur_off] data);
            let '(err, reply) := r in
            if failed err reply then mret (if total >? 0 then as_i64 total else io_error err reply)
            else
              let actual := reg reply 0 in
              let total := (total + actual)%u64 in
              if actual <? chunk then mret (as_i64 total) else pwrite_loop fuel' fd buf count offset total
        end
      else mret (as_i64 total)
  end.

(** ** Bulk transfers through shared memory ([bulk.rs]) *)

Definition bulk_state : M Z := fun p => Some (pr_bulk_state p, p).
Definition bulk_addr : M Z := fun p => Some (pr_bulk_addr p, p).
Definition set_bulk_state (v : Z) : M unit := fun p =>
  Some (tt, mkProc _ (pr_w p) (pr_umask p) (pr_bulk_addr p) v).
Definition set_bulk_addr (v : Z) : M unit := fun p =>
  Some (tt, mkProc _ (pr_w p) (pr_umask p) v (pr_bulk_state p)).
Definition shm_read (addr : Z) (n : nat) : M (list Z) := fun p =>
  l ← t_read (pr_w p) addr n; Some (l, p).
Definition shm_write (addr : Z) (l : list Z) : M unit := fun p =>
  w ← t_write (pr_w p) addr l;
  Some (tt, mkProc _ w (pr_umask p) (pr_bulk_addr p) (pr_bulk_state p)).

(** The futex wake that follows reaches threads that wait in [ensure_bulk_shm];
    the model has one thread. *)
Definition finish_bulk_shm_setup (success : bool) : M bool :=
  _ ← set_bulk_state (if success then BULK_SHM_READY else BULK_SHM_UNINIT);
  mret success.

(** The first two steps, done once: create the region and map it. *)
Definition map_bulk_shm (shm_id : Z) : M bool :=
  r ← call false (mmsrv_ep eps) (mk MM_SHM_CREATE 2 [shm_id; BULK_SHM_PAGES]);
  let '(_, reply) := r in
  if negb (label reply =? TRONA_OK) && negb (label reply =? TRONA_ALREADY_EXISTS) then mret false
  else
    r ← call false (mmsrv_ep eps) (mk MM_SHM_MAP 4 [shm_id; 0; 0; 3]);
    let '(_, reply) := r in
    if negb (label reply =? TRONA_OK) then mret false
    else _ ← set_bulk_addr (reg reply 0); mret true.

(** Another thread in the middle of the set-up is waited for; alone, that is
    forever. *)
Definition ensure_bulk_shm : M bool :=
  st ← bulk_state;
  if st =? BULK_SHM_READY then mret true
  else if st =? BULK_SHM_INITING then stuck
  else
    _ ← set_bulk_state BULK_SHM_INITING;
    if (vfs_ep eps =? 0) || (mmsrv_ep eps =? 0) then finish_bulk_shm_setup false
    else
      pid ← posix_getpid eps;
      let shm_id := Z.lor (as_u64 pid) 0x4200000000 in
      addr ← bulk_addr;
      mapped ← (if addr =? 0 then map_bulk_shm shm_id else mret true);
      if negb mapped then finish_bulk_shm_setup false
      else
        r ← call false vfs (mk VFS_BULK_SETUP 2 [shm_id; BULK_SHM_PAGES]);
        let '(_, reply) := r in
        if negb (label reply =? TRONA_OK) then finish_bulk_shm_setup false
        else finish_bulk_shm_setup true.

(** [None] among the results: the bulk path is not available. *)
Fixpoint bulk_read_loop (fuel : nat) (fd count total : Z) (buf : list Z) : M (option Z * list Z) :=
  match fuel with
  | O => stuck
  | S fuel' =>
      if total <? count then
        let chunk := Z.min (count - total) (BULK_SHM_PAGES * 4096) in
        r ← call false vfs (mk VFS_BULK_READ 3 [as_u64 fd; chunk; 0]);
        let '(err, reply) := r in
        if err =? as_i32 TRONA_INTERRUPTED then mret (None, buf)
        else if failed err reply then mret (if total >? 0 then Some total else None, buf)
        else
          let got := reg reply 0 in
          if got =? 0 then mret (Some total, buf)
          else
            addr ← bulk_addr;
            bytes ← shm_read addr (Z.to_nat got);
            buf ← lift (put buf total bytes);
            let total := (total + got)%u64 in
            if got <? chunk then mret (Some total, buf) else bulk_read_loop fuel' fd count total buf
      else mret (Some total, buf)
  end.

Definition bulk_read (fuel : nat) (fd : Z) (buf : list Z) (count : Z) : M (option Z * list Z) :=
  ready ← ensure_bulk_shm;
  if negb ready then mret (None, buf) else bulk_read_loop fuel fd count 0 buf.

Fixpoint bulk_pwrite_loop (fuel : nat) (fd : Z) (buf : list Z) (count offset total : Z) : M (option Z) :=
  match fuel with
  | O => stuck
  | S fuel' =>
      if total <? count then
        let chunk := Z.min (count - total) (BULK_SHM_PAGES * 4096) in
        data ← lift (buf_bytes buf total chunk);
        addr ← bulk_addr;
        _ ← shm_write addr data;
        match checked_off offset total with
        | None => mret (if total >? 0 then Some total else None)
        | Some cur_off =>
            r ← call false vfs (mk VFS_BULK_PWRITE 4 [as_u64 fd; chunk; cur_off; 0]);
            let '(err, reply) := r in
            if err =? as_i32 TRONA_INTERRUPTED then mret None
            else if failed err reply then mret (if total >? 0 then Some total else None)
            else
              let wrote := reg reply 0 in
              if wrote =? 0 then mret (Some total)
              else
                let total := (total + wrote)%u64 in
                if wrote <? chunk then mret (Some total) else bulk_pwrite_loop fuel' fd buf count offset total
        end
      else mret (Some total)
  end.

Definition bulk_pwrite (fuel : nat) (fd : Z) (buf : list Z) (count offset : Z) : M (option Z) :=
  ready ← ensure_bulk_shm;
  if negb ready then mret None else bulk_pwrite_loop fuel fd buf count offset 0.

Definition posix_read (fuel : nat) (fd : Z) (buf : list Z) (count : Z) : M (Z * list Z) :=
  if count >? 4096 then
    r ← bulk_read fuel fd buf count;
    match r with
    | (Some n, buf) => mret (as_i64 n, buf)
    | (None, buf) => read_loop fuel fd count 0 buf
    end
  else read_loop fuel fd count 0 buf.

Definition posix_pwrite (fuel : nat) (fd : Z) (buf : list Z) (count offset : Z) : M Z :=
  if offset <? 0 then mret EINVAL
  else if count >? 4096 then
    r ← bulk_pwrite fuel fd buf count offset;
    match r with
    | Some n => mret (as_i64 n)
    | None => pwrite_loop fuel fd buf count offset 0
    end
  else pwrite_loop fuel fd buf count offset 0.
End file.
