(* ===== verification/FileSpec.v ===== *)
(** Reading and writing files against an abstract file server.

    [FileServer] is what the file operations rely on: an open file is its bytes
    and a cursor; a request to read or write may fail, may be interrupted and
    may do less than asked, but what it says it did is what happened to the
    file.  The operations, which cut a transfer into messages, are proved to do
    the same at any length.  The last part is a server that meets the contract. *)

From stdpp Require Import gmap.
From S2P Require Import Prelude Consts Kernel Ipc PosixCall Protocol PosixClient PosixProc PosixFile.

(** ** Writing into the middle of a list *)

Definition splice (l : list Z) (off : nat) (bytes : list Z) : list Z :=
  take off l ++ bytes ++ drop (off + length bytes) l.

Lemma length_splice l off bytes :
  (off + length bytes <= length l)%nat -> length (splice l off bytes) = length l.
Proof. intros. unfold splice. rewrite !length_app, length_take, length_drop. lia. Qed.

Lemma splice_nil l off : splice l off [] = l.
Proof. unfold splice. cbn [length app]. by rewrite Nat.add_0_r, take_drop. Qed.

(** Two adjacent writes are one. *)
Lemma splice_splice l off a b :
  (off <= length l)%nat -> splice (splice l off a) (off + length a) b = splice l off (a ++ b).
Proof.
  intros H. unfold splice at 1. unfold splice at 1 2.
  assert (length (take off l) = off) as Ht by (rewrite length_take; lia).
  replace (off + length a)%nat with (length (take off l) + length a)%nat at 1 by lia.
  rewrite take_app_add, take_app_length.
  replace (off + length a + length b)%nat with (length (take off l) + (length a + length b))%nat by lia.
  rewrite drop_app_add, drop_app_add, drop_drop. unfold splice.
  rewrite length_app, <- !app_assoc, Nat.add_assoc. done.
Qed.

Lemma put_splice buf off bytes :
  0 <= off -> off + Z.of_nat (length bytes) <= Z.of_nat (length buf) ->
  put buf off bytes = Some (splice buf (Z.to_nat off) bytes).
Proof.
  intros H1 H2. unfold put. rewrite (proj2 (Z.leb_le _ _) H1), (proj2 (Z.leb_le _ _) H2). done.
Qed.

Lemma take_take_drop {A} (l : list A) k n : take (k + n) l = take k l ++ take n (drop k l).
Proof. by rewrite take_take_drop. Qed.

(** ** Messages *)

Lemma length_mk lbl len rs : (length rs <= 32)%nat -> length (regs (mk lbl len rs)) = 32%nat.
Proof. intros. cbn. rewrite length_app, length_replicate. lia. Qed.

Lemma reg_mk lbl len rs i : reg (mk lbl len rs) i = default 0 (rs !! i).
Proof.
  unfold reg, mk. cbn [regs]. destruct (decide (i < length rs)%nat).
  - by rewrite lookup_app_l.
  - rewrite lookup_app_r, (lookup_ge_None_2 rs) by lia. cbn.
    destruct (_ !! _) as [x|] eqn:E; [|done]. by apply lookup_replicate in E as [-> _].
Qed.

Lemma length_copy_path r bytes : forall i rs, length (copy_path r i bytes rs) = length rs.
Proof. induction bytes as [|b bytes IH]; intros; cbn [copy_path]; [done|]. by rewrite IH, length_store_byte. Qed.

Lemma store_byte_low rs r i b j : (j < r)%nat -> store_byte rs r i b !! j = rs !! j.
Proof. intros. apply list_lookup_insert_ne. lia. Qed.

Lemma copy_path_low r bytes : forall i rs j, (j < r)%nat -> copy_path r i bytes rs !! j = rs !! j.
Proof.
  induction bytes as [|b bytes IH]; intros i rs j Hj; cbn [copy_path]; [done|].
  by rewrite IH, store_byte_low.
Qed.

(** The head of a data message is unchanged and the data is where the server
    looks for it. *)
Lemma reg_data_msg lbl head data i :
  (i < length head)%nat -> reg (data_msg lbl head data) i = default 0 (head !! i).
Proof. intros. unfold reg, data_msg. cbn [regs]. rewrite copy_path_low by done. apply reg_mk. Qed.

Lemma data_msg_bytes lbl head data :
  Forall byte data -> (8 * length head + length data <= 256)%nat ->
  msg_bytes (data_msg lbl head data) (length head) (Z.of_nat (length data)) = Some data.
Proof.
  intros Hb Hl. unfold msg_bytes, data_msg. cbn [regs].
  assert (length (regs (mk lbl 0 head)) = 32%nat) as H32 by (apply length_mk; lia).
  rewrite regs_bytes_drop, copy_path_bytes by (done || lia).
  rewrite Nat.add_0_r, Nat2Z.id. pose proof (length_regs_bytes (regs (mk lbl 0 head))) as HL.
  assert (length (take (8 * length head) (regs_bytes (regs (mk lbl 0 head)))) = 8 * length head)%nat as Ht
    by (rewrite length_take; lia).
  rewrite drop_app_length' by done.
  rewrite (proj2 (Z.leb_le 0 _)), (proj2 (Z.leb_le _ _)) by (rewrite ?length_app; lia).
  cbn [andb]. by rewrite take_app_length.
Qed.

(** ** The file server *)

Record file := mkFile { f_data : list Z; f_pos : nat }.

(** What is left to read. *)
Definition rest (f : file) : list Z := drop (f_pos f) (f_data f).
Definition advance (f : file) (k : nat) : file := mkFile (f_data f) (f_pos f + k).
Definition overwrite (f : file) (bytes : list Z) : file :=
  mkFile (splice (f_data f) (f_pos f) bytes) (f_pos f + length bytes).

Lemma rest_advance f k : rest (advance f k) = drop k (rest f).
Proof. unfold rest. cbn. by rewrite drop_drop. Qed.

Lemma advance_0 f : advance f 0 = f.
Proof. destruct f. unfold advance. cbn. by rewrite Nat.add_0_r. Qed.

Lemma advance_advance f k n : advance (advance f k) n = advance f (k + n).
Proof. unfold advance. cbn. by rewrite Nat.add_assoc. Qed.

Lemma overwrite_overwrite f a b :
  (f_pos f <= length (f_data f))%nat -> overwrite (overwrite f a) b = overwrite f (a ++ b).
Proof. intros. unfold overwrite. cbn [f_data f_pos]. by rewrite splice_splice, length_app, Nat.add_assoc. Qed.

Lemma overwrite_nil f : overwrite f [] = f.
Proof. destruct f. unfold overwrite. cbn [length f_data f_pos]. by rewrite splice_nil, Nat.add_0_r. Qed.

Lemma overwrite_pos f bytes :
  (f_pos f <= length (f_data f))%nat -> (f_pos (overwrite f bytes) <= length (f_data (overwrite f bytes)))%nat.
Proof. intros. unfold overwrite, splice. cbn [f_data f_pos]. rewrite !length_app, length_take. lia. Qed.

(** A status is an [i32]. *)
Definition status (err : Z) : Prop := - 2 ^ 31 <= err < 2 ^ 31.

Section spec.
Context `{T : Transport} (vfs : Cap).

Section effects.
Context (files : tw -> Z -> option file) (budget : tw -> nat).

(** The file [fd] is now [f'], the other files are as before; no more restarts
    are to come than before. *)
Definition updated (w w' : tw) (fd : Z) (f' : file) : Prop :=
  files w' fd = Some f' /\ (forall fd', fd' <> fd -> files w' fd' = files w fd') /\ (budget w' <= budget w)%nat.

(** What a call to read or write at most [n] bytes may answer: a failure that
    leaves the file alone, or [k] bytes done, with [eff k] what became of the
    file and [data k] what the caller gets. *)
Definition answers (w : tw) (fd n : Z) (f : file) (call : option (Z * TronaMsg * tw))
    (possible : nat -> Prop) (eff : nat -> file) (data : TronaMsg -> tw -> nat -> Prop) : Prop :=
  exists err reply w', call = Some (err, reply, w') /\ status err /\
    if failed err reply then
      updated w w' fd f /\ (t_restart w' = true -> (budget w' < budget w)%nat)
    else exists k, reg reply 0 = Z.of_nat k /\ Z.of_nat k <= n /\ possible k /\
      updated w w' fd (eff k) /\ data reply w' k.
End effects.

Class FileServer := {
  fs_file : tw -> Z -> option file;
  (** Signals restart a call only so often. *)
  fs_budget : tw -> nat;
  fs_read w m f :
    label m = VFS_READ -> fs_file w (reg m 0) = Some f -> 0 <= reg m 1 <= 152 ->
    answers fs_file fs_budget w (reg m 0) (reg m 1) f (t_call false w vfs m)
      (fun k => (k <= length (rest f))%nat /\ (k = O -> reg m 1 = 0 \/ rest f = []))
      (advance f)
      (fun reply _ k => msg_bytes reply 1 (Z.of_nat k) = Some (take k (rest f)));
  fs_write w m f bytes :
    label m = VFS_WRITE -> fs_file w (reg m 0) = Some f -> (f_pos f <= length (f_data f))%nat ->
    msg_bytes m 2 (reg m 1) = Some bytes ->
    answers fs_file fs_budget w (reg m 0) (reg m 1) f (t_call false w vfs m)
      (fun k => (k <= length bytes)%nat) (fun k => overwrite f (take k bytes)) (fun _ _ _ => True);
  fs_seek w m f :
    label m = VFS_LSEEK -> fs_file w (reg m 0) = Some f -> reg m 1 <= Z.of_nat (length (f_data f)) -> reg m 2 = 0 ->
    exists reply w', t_call true w vfs m = Some (0, reply, w') /\ label reply = TRONA_OK /\ reg reply 0 = reg m 1 /\
      updated fs_file fs_budget w w' (reg m 0) (mkFile (f_data f) (Z.to_nat (reg m 1)));
}.

(** A server that never fails and does as much as there is to do. *)
Class FullService `{FileServer} := {
  full_read w m f err reply w' :
    label m = VFS_READ -> fs_file w (reg m 0) = Some f -> 0 <= reg m 1 <= 152 ->
    t_call false w vfs m = Some (err, reply, w') ->
    failed err reply = false /\ reg reply 0 = Z.min (reg m 1) (Z.of_nat (length (rest f)));
  full_write w m f bytes err reply w' :
    label m = VFS_WRITE -> fs_file w (reg m 0) = Some f -> msg_bytes m 2 (reg m 1) = Some bytes ->
    t_call false w vfs m = Some (err, reply, w') ->
    failed err reply = false /\ reg reply 0 = reg m 1;
}.
End spec.

Arguments fs_file {_ _ _} _ _.
Arguments fs_budget {_ _ _} _.
Arguments fs_read {_ _ _} _ _ _ _ _ _.
Arguments fs_write {_ _ _} _ _ _ _ _ _ _ _.
Arguments fs_seek {_ _ _} _ _ _ _ _ _ _.
Arguments FullService {_} _ {_}.
Arguments full_read {_ _ _ _} _ _ _ _ _ _ _ _ _ _.
Arguments full_write {_ _ _ _} _ _ _ _ _ _ _ _ _ _ _.

(** The size of the shared region. *)
Definition BULK_BYTES : Z := BULK_SHM_PAGES * 4096.

(** Reads through shared memory: the data is in the region, which the process
    has mapped at an address. *)
Class BulkServer `{T : Transport} (vfs : Cap) `{!FileServer vfs} := {
  bulk_at : tw -> Z -> Prop;
  bulk_read_ok w m f addr :
    label m = VFS_BULK_READ -> fs_file w (reg m 0) = Some f -> 0 <= reg m 1 <= BULK_BYTES -> bulk_at w addr ->
    answers fs_file fs_budget w (reg m 0) (reg m 1) f (t_call false w vfs m)
      (fun k => (k <= length (rest f))%nat /\ (k = O -> reg m 1 = 0 \/ rest f = []))
      (advance f)
      (fun _ w' k => t_read w' addr k = Some (take k (rest f)));
}.

(** ** Running the monad *)

Section run.
Context `{T : Transport}.

(** The process after a call: only the world has changed. *)
Definition set_w (p : Proc) (w : tw) : Proc := mkProc _ w (pr_umask p) (pr_bulk_addr p) (pr_bulk_state p).

Lemma set_w_self p : set_w p (pr_w p) = p.
Proof. by destruct p. Qed.

Lemma set_w_set_w p w w' : set_w (set_w p w) w' = set_w p w'.
Proof. done. Qed.

Lemma bind_call {A} idem ep m (k : Z * TronaMsg -> M A) p err reply w :
  t_call idem (pr_w p) ep m = Some (err, reply, w) -> (call idem ep m ≫= k) p = k (err, reply) (set_w p w).
Proof. intros E. unfold mbind, M_bind, call. by rewrite E. Qed.

Lemma bind_lift {A B} (o : option A) (k : A -> M B) p a : o = Some a -> (lift o ≫= k) p = k a p.
Proof. by intros ->. Qed.

Lemma bind_restart {A} (k : bool -> M A) p : (sig_last_restart ≫= k) p = k (t_restart (pr_w p)) p.
Proof. done. Qed.

Lemma bind_run {A B} (m : M A) (k : A -> M B) p a p' : m p = Some (a, p') -> (m ≫= k) p = k a p'.
Proof. intros E. unfold mbind, M_bind. by rewrite E. Qed.

(** A failed request becomes a negative errno. *)
Lemma io_error_neg err reply : status err -> failed err reply = true -> -125 <= io_error err reply < 0.
Proof.
  unfold status, failed, io_error, call_err_to_posix. intros Hs Hf.
  destruct (Z.eqb_spec err 0) as [->|Hne]; cbn [negb orb] in *.
  - destruct (trona_err_to_posix_range (label reply)) as [? ?]. apply negb_true_iff, Z.eqb_neq in Hf. lia.
  - destruct (trona_err_to_posix_range (as_u64 err)) as [Hr Hz].
    enough (as_u64 err <> TRONA_OK) by (pose proof (proj1 Hz); lia).
    unfold as_u64, wrap, TRONA_OK. intros E. apply Z.mod_divide in E as [q E]; lia.
Qed.

Lemma as_i64_small z : 0 <= z < 2 ^ 63 -> as_i64 z = z.
Proof.
  intros. unfold as_i64, signed. rewrite wrap_small by lia. rewrite (proj2 (Z.ltb_lt _ _)) by lia. done.
Qed.
End run.

(** ** The loops *)

Section loops.
Context `{T : Transport} (eps : Endpoints) `{S : !FileServer (vfs_ep eps)}.

Local Abbreviation changed := (updated fs_file fs_budget).

Lemma updated_refl w fd f : fs_file w fd = Some f -> changed w w fd f.
Proof. intros; split_and!; done. Qed.

Lemma updated_trans w w1 w2 fd f1 f2 : changed w w1 fd f1 -> changed w1 w2 fd f2 -> changed w w2 fd f2.
Proof. intros (_ & H1 & ?) (H2 & H3 & ?). split_and!; [done| |lia]. intros fd' Hne. by rewrite H3, H1. Qed.

Lemma updated_budget w w' fd f : changed w w' fd f -> (fs_budget w' <= fs_budget w)%nat.
Proof. by intros (_ & _ & ?). Qed.

(** What a transfer of at most [count] bytes comes to: an errno and nothing
    done, or [n] more bytes done, [eff n] being what became of the file. *)
Definition outcome (p : Proc) (w' : tw) (fd : Z) (f : file) (count total r : Z) (avail : nat)
    (eff : nat -> file) (done : nat -> Prop) : Prop :=
  (-125 <= r < 0 /\ total = 0 /\ changed (pr_w p) w' fd f /\ done O) \/
  exists n, r = total + Z.of_nat n /\ r <= count /\ (n <= avail)%nat /\ changed (pr_w p) w' fd (eff n) /\ done n.

(** How both loops leave after a failed call. *)
Lemma failure_tail {A} (ret : Z -> A) (again : M A) total err reply p (body : M A) :
  status err -> failed err reply = true -> 0 <= total < 2 ^ 63 ->
  body = (if err =? as_i32 TRONA_INTERRUPTED then
            if total >? 0 then mret (ret (as_i64 total))
            else sig_last_restart ≫= fun restart : bool => if restart then again else mret (ret EINTR)
          else if total >? 0 then mret (ret (as_i64 total))
          else mret (ret (io_error err reply))) ->
  (0 < total /\ body p = Some (ret total, p)) \/
  (total = 0 /\ exists r, -125 <= r < 0 /\ body p = Some (ret r, p)) \/
  (total = 0 /\ t_restart (pr_w p) = true /\ body p = again p).
Proof.
  intros Hst Hfail Ht ->. pose proof (io_error_neg err reply Hst Hfail).
  rewrite as_i64_small, Z.gtb_ltb by lia. destruct (Z.ltb_spec 0 total); [left; by destruct (_ =? _)|right].
  destruct (_ =? _).
  - rewrite bind_restart. destruct (t_restart (pr_w p)); [right; split_and!; done || lia|left].
    split; [lia|]. by exists EINTR.
  - left. split; [lia|]. by exists (io_error err reply).
Qed.

Lemma outcome_again p w1 w2 fd f count r avail eff done :
  changed (pr_w p) w1 fd f -> outcome (set_w p w1) w2 fd f count 0 r avail eff done ->
  outcome p w2 fd f count 0 r avail eff done.
Proof.
  intros Hc [(? & ? & ? & ?)|(n & ? & ? & ? & ? & ?)]; [left|right; exists n];
    split_and!; try (done || lia); by eapply updated_trans.
Qed.

Lemma outcome_stop p w fd f count total k avail eff (done : nat -> Prop) :
  changed (pr_w p) w fd (eff k) -> done k -> total + Z.of_nat k <= count -> (k <= avail)%nat ->
  outcome p w fd f count total (total + Z.of_nat k) avail eff done.
Proof. intros. right. by exists k. Qed.

Lemma outcome_none p w fd f count total avail eff (done : nat -> Prop) :
  changed (pr_w p) w fd f -> eff O = f -> done O -> total <= count ->
  outcome p w fd f count total total avail eff done.
Proof. intros Hu He Hd Ht. right. exists O. rewrite He. split_and!; try (done || lia). Qed.

Lemma outcome_step p w1 w2 fd f f1 k count total r avail avail' eff eff' (done done' : nat -> Prop) :
  changed (pr_w p) w1 fd f1 -> 0 < total + Z.of_nat k -> (k + avail' <= avail)%nat ->
  (forall n, eff' n = eff (k + n)%nat) -> (forall n, done' n -> done (k + n)%nat) ->
  outcome (set_w p w1) w2 fd f1 count (total + Z.of_nat k) r avail' eff' done' ->
  outcome p w2 fd f count total r avail eff done.
Proof.
  intros Hc Hk Ha He Hd [(? & ? & ? & ?)|(n & -> & ? & ? & Hu & ?)]; [lia|].
  right. exists (k + n)%nat. rewrite <- He. split_and!; [lia|lia|lia|by eapply updated_trans|by apply Hd].
Qed.

Lemma read_loop_spec fuel : forall p fd count total buf f,
  fs_file (pr_w p) (as_u64 fd) = Some f ->
  0 <= total <= count -> count <= Z.of_nat (length buf) -> count < 2 ^ 63 ->
  count - total <= 152 * (Z.of_nat fuel - 1 - Z.of_nat (fs_budget (pr_w p))) ->
  exists r buf' w', read_loop eps fuel fd count total buf p = Some ((r, buf'), set_w p w') /\
    outcome p w' (as_u64 fd) f count total r (length (rest f)) (advance f)
      (fun n => buf' = splice buf (Z.to_nat total) (take n (rest f))) /\
    (r = 0 -> count = 0 \/ rest f = []) /\
    (FullService (vfs_ep eps) -> r = total + Z.min (count - total) (Z.of_nat (length (rest f)))).
Proof.
  induction fuel as [|fuel IH]; intros p fd count total buf f Hf Ht Hb Hc Hfuel; [lia|].
  cbn [read_loop]. destruct (Z.ltb_spec total count) as [Hlt|Hge].
  2:{ exists total, buf, (pr_w p). rewrite as_i64_small, set_w_self by lia. split; [done|].
      split_and!; [|lia|intros _; lia].
      apply outcome_none; [by apply updated_refl|apply advance_0|by rewrite take_0, splice_nil|lia]. }
  set (chunk := if count - total >? 152 then 152 else count - total).
  assert (0 < chunk <= 152 /\ chunk <= count - total /\ (chunk = 152 \/ chunk = count - total)) as Hchunk by (unfold chunk; case_if; lia).
  pose (m := mk VFS_READ 2 [as_u64 fd; chunk]).
  destruct (fs_read (pr_w p) m f eq_refl Hf ltac:(cbn; lia)) as (err & reply & w' & Hcall & Hst & Hans).
  rewrite (bind_call _ _ _ _ _ _ _ _ Hcall).
  assert (FullService (vfs_ep eps) -> failed err reply = false /\
            reg reply 0 = Z.min chunk (Z.of_nat (length (rest f)))) as Hfull.
  { intros Hs. exact (full_read (pr_w p) m f err reply w' eq_refl Hf ltac:(cbn; lia) Hcall). }
  destruct (failed err reply) eqn:Hfail.
  - destruct Hans as [Hupd Hrst].
    destruct (failure_tail (fun r => (r, buf)) (read_loop eps fuel fd count total buf) total err reply (set_w p w') _
                Hst Hfail ltac:(lia) eq_refl) as [[Htot ->]|[(-> & r & Hr & ->)|(-> & Hagain & ->)]].
    + exists total, buf, w'. split; [done|]. split_and!; [|lia|by intros [[=] _]%Hfull].
      apply outcome_none; [done|apply advance_0|by rewrite take_0, splice_nil|lia].
    + exists r, buf, w'. split; [done|]. split; [left|split; [lia|by intros [[=] _]%Hfull]].
      rewrite take_0, splice_nil. split_and!; done || lia.
    + destruct (IH (set_w p w') fd count 0 buf f) as (r & buf' & w'' & Hrun & Hout & H0 & Hfl);
        [apply Hupd|lia|lia|lia|cbn; specialize (Hrst Hagain); lia|].
      exists r, buf', w''. split; [done|]. split_and!; [by eapply outcome_again|done|by intros [[=] _]%Hfull].
  - destruct Hans as (k & Hk & Hkn & [Hka Hk0] & Hupd & Hdata). pose proof (updated_budget _ _ _ _ Hupd) as Hbud.
    change (reg m 0) with (as_u64 fd) in *. change (reg m 1) with chunk in *. rewrite Hk.
    destruct (Z.eqb_spec (Z.of_nat k) 0) as [E|E].
    { exists total, buf, w'. rewrite as_i64_small by lia. split; [done|].
      destruct Hk0 as [?|Hrest]; [lia|lia|]. rewrite Hrest. split_and!; [|by right|cbn; lia].
      replace k with O in Hupd by lia. rewrite advance_0 in Hupd.
      apply outcome_none; [done|apply advance_0|by rewrite splice_nil|lia]. }
    assert (length (take k (rest f)) = k) as Hlk by (rewrite length_take; lia).
    erewrite bind_lift; [|unfold take_data; rewrite Z.min_l, Hdata by lia; apply put_splice; lia].
    rewrite wrap_small by lia. destruct (Z.ltb_spec (Z.of_nat k) chunk) as [Hshort|Hfullk].
    + eexists _, _, w'. rewrite as_i64_small by lia. split; [done|]. split_and!; [|lia|].
      * apply outcome_stop; done || lia.
      * intros [_ Hm]%Hfull. lia.
    + destruct (IH (set_w p w') fd count (total + Z.of_nat k) (splice buf (Z.to_nat total) (take k (rest f))) (advance f k))
        as (r & buf' & w'' & Hrun & Hout & H0 & Hfl); [apply Hupd|lia|rewrite length_splice; lia|lia|cbn; lia|].
      exists r, buf', w''. split; [done|]. rewrite rest_advance, length_drop in *. split_and!.
      * eapply (outcome_step _ w' _ _ _ _ k); [done|lia| | | |done]; [lia|intros; apply advance_advance|].
        intros n ->. rewrite take_take_drop, Z2Nat.inj_add, Nat2Z.id by lia.
        rewrite <- Hlk at 2. rewrite splice_splice by lia. done.
      * intros ->. destruct Hout as [?|(n & ? & _)]; lia.
      * intros Hs. rewrite (Hfl Hs). lia.
Qed.
Lemma buf_bytes_spec buf off n :
  0 <= off -> 0 <= n -> off + n <= Z.of_nat (length buf) ->
  buf_bytes buf off n = Some (take (Z.to_nat n) (drop (Z.to_nat off) buf)).
Proof.
  intros H1 H2 H3. unfold buf_bytes.
  by rewrite (proj2 (Z.leb_le _ _) H1), (proj2 (Z.leb_le _ _) H2), (proj2 (Z.leb_le _ _) H3).
Qed.

Lemma write_loop_spec fuel : forall p fd buf count total f,
  fs_file (pr_w p) (as_u64 fd) = Some f -> (f_pos f <= length (f_data f))%nat -> Forall byte buf ->
  0 <= total <= count -> count <= Z.of_nat (length buf) -> count < 2 ^ 63 ->
  count - total <= 144 * (Z.of_nat fuel - 1 - Z.of_nat (fs_budget (pr_w p))) ->
  exists r w', write_loop eps fuel fd buf count total p = Some (r, set_w p w') /\
    outcome p w' (as_u64 fd) f count total r (Z.to_nat (count - total))
      (fun n => overwrite f (take n (drop (Z.to_nat total) buf))) (fun _ => True) /\
    (FullService (vfs_ep eps) -> r = count).
Proof.
  induction fuel as [|fuel IH]; intros p fd buf count total f Hf Hpos Hby Ht Hb Hc Hfuel; [lia|].
  cbn [write_loop]. destruct (Z.ltb_spec total count) as [Hlt|Hge].
  2:{ exists total, (pr_w p). rewrite as_i64_small, set_w_self by lia. split; [done|].
      split_and!; [|intros _; lia].
      apply outcome_none; [by apply updated_refl|by rewrite take_0, overwrite_nil|done|lia]. }
  set (chunk := if count - total >? 144 then 144 else count - total).
  assert (0 < chunk <= 144 /\ chunk <= count - total /\ (chunk = 144 \/ chunk = count - total)) as Hchunk
    by (unfold chunk; case_if; lia).
  set (data := take (Z.to_nat chunk) (drop (Z.to_nat total) buf)).
  assert (length data = Z.to_nat chunk) as Hlen by (unfold data; rewrite length_take, length_drop; lia).
  erewrite bind_lift; [|apply buf_bytes_spec; lia]. fold data.
  pose (m := data_msg VFS_WRITE [as_u64 fd; chunk] data).
  assert (reg m 0 = as_u64 fd /\ reg m 1 = chunk) as [Hm0 Hm1] by (split; apply reg_data_msg; cbn; lia).
  assert (msg_bytes m 2 (reg m 1) = Some data) as Hbytes.
  { rewrite Hm1, <- (Z2Nat.id chunk), <- Hlen by lia. apply data_msg_bytes; [|cbn; lia].
    unfold data. by apply Forall_take, Forall_drop. }
  destruct (fs_write (pr_w p) m f data eq_refl ltac:(by rewrite Hm0) Hpos Hbytes) as (err & reply & w' & Hcall & Hst & Hans).
  rewrite (bind_call _ _ _ _ _ _ _ _ Hcall). rewrite Hm0, Hm1 in Hans.
  assert (FullService (vfs_ep eps) -> failed err reply = false /\ reg reply 0 = chunk) as Hfull.
  { intros Hs. rewrite <- Hm1. refine (full_write (pr_w p) m f data err reply w' eq_refl _ Hbytes Hcall). by rewrite Hm0. }
  destruct (failed err reply) eqn:Hfail.
  - destruct Hans as [Hupd Hrst].
    destruct (failure_tail (fun r => r) (write_loop eps fuel fd buf count total) total err reply (set_w p w') _
                Hst Hfail ltac:(lia) eq_refl) as [[Htot ->]|[(-> & r & Hr & ->)|(-> & Hagain & ->)]].
    + exists total, w'. split; [done|]. split; [|by intros [[=] _]%Hfull].
      apply outcome_none; [done|by rewrite take_0, overwrite_nil|done|lia].
    + exists r, w'. split; [done|]. split; [left|by intros [[=] _]%Hfull]. split_and!; done || lia.
    + destruct (IH (set_w p w') fd buf count 0 f) as (r & w'' & Hrun & Hout & Hfl);
        [apply Hupd|done|done|lia|lia|lia|cbn; specialize (Hrst Hagain); lia|].
      exists r, w''. split; [done|]. split; [by eapply outcome_again|done].
  - destruct Hans as (k & Hk & Hkn & Hkl & Hupd & _). pose proof (updated_budget _ _ _ _ Hupd) as Hbud. rewrite Hk, wrap_small by lia.
    assert (take k data = take k (drop (Z.to_nat total) buf)) as Hdk
      by (unfold data; rewrite take_take; f_equal; lia).
    destruct (Z.ltb_spec (Z.of_nat k) chunk) as [Hshort|Hfullk].
    + exists (total + Z.of_nat k), w'. rewrite as_i64_small by lia. split; [done|]. split.
      * apply outcome_stop; try (done || lia). by rewrite <- Hdk.
      * intros [_ Hm]%Hfull. lia.
    + destruct (IH (set_w p w') fd buf count (total + Z.of_nat k) (overwrite f (take k data)))
        as (r & w'' & Hrun & Hout & Hfl); [apply Hupd|by apply overwrite_pos|done|lia|lia|lia|cbn; lia|].
      exists r, w''. split; [done|]. split; [|done].
      eapply (outcome_step _ w' _ _ _ _ k); [done|lia| | | |exact Hout]; [lia| |done].
      intros n. cbn beta. rewrite overwrite_overwrite by done. f_equal.
      rewrite take_take_drop, drop_drop, Hdk. do 3 f_equal. lia.
Qed.
End loops.

(** * A file server that meets the contract: files in memory, no failures *)

Record memfs := mkMemFs { mf_files : gmap Z file; mf_shm : list Z }.

Definition SHM_AT : Z := 0x7000.

Definition set_file (w : memfs) (fd : Z) (f : file) : memfs := mkMemFs (<[fd := f]> (mf_files w)) (mf_shm w).

(** How many of [n] bytes there are. *)
Definition readable (n : Z) (f : file) : nat := Z.to_nat (Z.min n (Z.of_nat (length (rest f)))).

Definition serve (w : memfs) (m : TronaMsg) (fd : Z) (f : file) : TronaMsg * memfs :=
  let n := reg m 1 in
  if label m =? VFS_READ then
    let k := readable n f in
    (data_msg TRONA_OK [Z.of_nat k] (take k (rest f)), set_file w fd (advance f k))
  else if label m =? VFS_WRITE then
    match msg_bytes m 2 n with
    | Some bytes => (mk TRONA_OK 1 [n], set_file w fd (overwrite f bytes))
    | None => (mk TRONA_INVALID_ARGUMENT 0 [], w)
    end
  else if label m =? VFS_LSEEK then (mk TRONA_OK 1 [n], set_file w fd (mkFile (f_data f) (Z.to_nat n)))
  else if label m =? VFS_BULK_READ then
    let k := readable n f in
    (mk TRONA_OK 1 [Z.of_nat k], mkMemFs (<[fd := advance f k]> (mf_files w)) (take k (rest f)))
  else (mk TRONA_INVALID_OPERATION 0 [], w).

Definition answer (w : memfs) (m : TronaMsg) : option (Z * TronaMsg * memfs) :=
  match mf_files w !! reg m 0 with
  | Some f => let '(reply, w) := serve w m (reg m 0) f in Some (0, reply, w)
  | None => Some (0, mk TRONA_NOT_FOUND 0 [], w)
  end.

#[global] Instance memfs_transport : Transport := {|
  tw := memfs;
  t_call _ w _ m := answer w m;
  t_call_once w _ m := answer w m;
  t_syscall w _ _ _ := (mkResult 0 0, w);
  t_stage w _ := Some w;
  t_restart _ := false;
  t_read w addr n := if addr =? SHM_AT then Some (take n (mf_shm w)) else None;
  t_write _ _ _ := None;
|}.

(** The files whose contents are bytes. *)
Definition mem_file (w : memfs) (fd : Z) : option file :=
  f ← mf_files w !! fd; if decide (Forall byte (f_data f)) then Some f else None.

Lemma mem_file_Some w fd f : mem_file w fd = Some f <-> mf_files w !! fd = Some f /\ Forall byte (f_data f).
Proof.
  unfold mem_file. destruct (mf_files w !! fd) as [g|]; cbn; [|naive_solver].
  destruct (decide _); naive_solver.
Qed.

Lemma mem_updated w fd f shm :
  Forall byte (f_data f) ->
  updated (T := memfs_transport) mem_file (fun _ => O) w (mkMemFs (<[fd := f]> (mf_files w)) shm) fd f.
Proof.
  intros Hb. split_and!; [|intros fd' Hne|done].
  - apply mem_file_Some. cbn. by rewrite lookup_insert_eq.
  - unfold mem_file. cbn. by rewrite lookup_insert_ne.
Qed.

Lemma readable_spec n f : 0 <= n ->
  Z.of_nat (readable n f) <= n /\ (readable n f <= length (rest f))%nat /\
  (readable n f = O -> n = 0 \/ rest f = []) /\
  Z.of_nat (readable n f) = Z.min n (Z.of_nat (length (rest f))).
Proof.
  intros Hn. unfold readable. split_and!; [lia|lia| |lia].
  intros E. destruct (rest f) eqn:?; [by right|left]. cbn [length] in E. lia.
Qed.

Lemma rest_bytes f k : Forall byte (f_data f) -> Forall byte (take k (rest f)).
Proof. intros. by apply Forall_take, Forall_drop. Qed.

Lemma msg_bytes_byte m r n bytes : msg_bytes m r n = Some bytes -> Forall byte bytes /\ length bytes = Z.to_nat n /\ 0 <= n.
Proof.
  unfold msg_bytes. case_if; [|done]. intros [= <-]. split_and!; [|rewrite length_take; lia|lia].
  apply Forall_take, Forall_bind. apply Forall_forall. intros x _. apply Forall_lookup. intros i b. apply le_bytes_byte.
Qed.

Lemma serve_call idem w ep m f :
  mem_file w (reg m 0) = Some f ->
  t_call (Transport := memfs_transport) idem w ep m = let '(reply, w') := serve w m (reg m 0) f in Some (0, reply, w').
Proof. intros [Hf _]%mem_file_Some. cbn. unfold answer. by rewrite Hf. Qed.

(** What the server does with each request. *)
Lemma serve_read w m fd f : label m = VFS_READ -> serve w m fd f =
  (data_msg TRONA_OK [Z.of_nat (readable (reg m 1) f)] (take (readable (reg m 1) f) (rest f)),
   set_file w fd (advance f (readable (reg m 1) f))).
Proof. intros E. unfold serve. by rewrite E. Qed.

Lemma serve_write w m fd f bytes : label m = VFS_WRITE -> msg_bytes m 2 (reg m 1) = Some bytes ->
  serve w m fd f = (mk TRONA_OK 1 [reg m 1], set_file w fd (overwrite f bytes)).
Proof. intros E Hb. unfold serve. rewrite E, Hb. done. Qed.

Lemma serve_seek w m fd f : label m = VFS_LSEEK ->
  serve w m fd f = (mk TRONA_OK 1 [reg m 1], set_file w fd (mkFile (f_data f) (Z.to_nat (reg m 1)))).
Proof. intros E. unfold serve. by rewrite E. Qed.

Lemma serve_bulk_read w m fd f : label m = VFS_BULK_READ -> serve w m fd f =
  (mk TRONA_OK 1 [Z.of_nat (readable (reg m 1) f)],
   mkMemFs (<[fd := advance f (readable (reg m 1) f)]> (mf_files w)) (take (readable (reg m 1) f) (rest f))).
Proof. intros E. unfold serve. by rewrite E. Qed.

Lemma overwrite_bytes f bytes : Forall byte (f_data f) -> Forall byte bytes -> Forall byte (f_data (overwrite f bytes)).
Proof. intros. unfold overwrite, splice. cbn [f_data]. by repeat (apply Forall_app_2 || apply Forall_take || apply Forall_drop). Qed.

#[global] Program Instance memfs_server vfs : FileServer (T := memfs_transport) vfs := {|
  fs_file := mem_file;
  fs_budget _ := O;
|}.
Next Obligation.
  intros vfs w m f Hl Hf Hn. pose proof (proj1 (mem_file_Some _ _ _) Hf) as [_ Hb].
  destruct (readable_spec (reg m 1) f) as (? & ? & ? & ?); [lia|].
  unfold answers. rewrite (serve_call _ _ _ _ _ Hf), serve_read by done.
  eexists 0, _, _. split; [done|]. split; [done|]. cbn [failed data_msg label].
  exists (readable (reg m 1) f). split_and!; try done.
  - by apply reg_data_msg; cbn; lia.
  - by apply mem_updated.
  - assert (length (take (readable (reg m 1) f) (rest f)) = readable (reg m 1) f) as Hl' by (rewrite length_take; lia).
    rewrite <- Hl' at 3. apply (data_msg_bytes _ [_]); [by apply rest_bytes|cbn; lia].
Qed.
Next Obligation.
  intros vfs w m f bytes Hl Hf Hpos Hm. pose proof (proj1 (mem_file_Some _ _ _) Hf) as [_ Hb].
  destruct (msg_bytes_byte _ _ _ _ Hm) as (? & ? & ?).
  unfold answers. rewrite (serve_call _ _ _ _ _ Hf), (serve_write _ _ _ _ _ Hl Hm).
  eexists 0, _, _. split; [done|]. split; [done|]. cbn [failed mk label].
  exists (length bytes). split_and!; try done.
  - rewrite reg_mk. cbn. lia.
  - lia.
  - rewrite firstn_all. apply mem_updated. by apply overwrite_bytes.
Qed.
Next Obligation.
  intros vfs w m f Hl Hf Hn Hw. pose proof (proj1 (mem_file_Some _ _ _) Hf) as [_ Hb].
  rewrite (serve_call _ _ _ _ _ Hf), serve_seek by done. eexists _, _. split; [done|].
  split_and!; try done. by apply mem_updated.
Qed.

#[global] Instance memfs_full vfs : FullService (T := memfs_transport) vfs.
Proof.
  split.
  - intros w m f err reply w' Hl Hf Hn. rewrite (serve_call _ _ _ _ _ Hf), serve_read by done.
    intros [= <- <- _]. split; [done|]. rewrite reg_data_msg by (cbn; lia). cbn.
    by destruct (readable_spec (reg m 1) f) as (_ & _ & _ & ->); [lia|].
  - intros w m f bytes err reply w' Hl Hf Hm. rewrite (serve_call _ _ _ _ _ Hf), (serve_write _ _ _ _ _ Hl Hm).
    by intros [= <- <- _].
Qed.

#[global] Program Instance memfs_bulk vfs : BulkServer (T := memfs_transport) vfs := {|
  bulk_at _ addr := addr = SHM_AT;
|}.
Next Obligation.
  intros vfs w m f addr Hl Hf Hn ->. pose proof (proj1 (mem_file_Some _ _ _) Hf) as [_ Hb].
  destruct (readable_spec (reg m 1) f) as (? & ? & ? & ?); [lia|].
  unfold answers. rewrite (serve_call _ _ _ _ _ Hf), serve_bulk_read by done.
  eexists 0, _, _. split; [done|]. split; [done|]. cbn [failed mk label].
  exists (readable (reg m 1) f). split_and!; try done; [by apply mem_updated|].
  unfold t_read, memfs_transport. cbn [mf_shm]. rewrite Z.eqb_refl, take_take. do 2 f_equal. lia.
Qed.
