(* ===== verification/FileTheorems.v ===== *)
(** The file operations refine the abstract file server: what reads and writes
    of any length do to the caller's buffer and to the file, through messages
    and through shared memory. *)

From S2P Require Import Prelude Consts Kernel Ipc PosixCall Protocol PosixClient PosixProc PosixFile FileSpec.

Section theorems.
Context `{T : Transport} (eps : Endpoints) `{S : !FileServer (vfs_ep eps)}.

Local Abbreviation changed := (updated fs_file fs_budget).

(** The result of a read of [count] bytes: an errno, with the buffer and the file
    as before; or the number of bytes, which are at the start of the buffer and
    behind the cursor.  No bytes are read only at the end of the file. *)
Definition read_result (w w' : tw) (fd : Z) (f : file) (count r : Z) (buf buf' : list Z) : Prop :=
  ((-125 <= r < 0 /\ changed w w' fd f /\ buf' = buf) \/
   exists n, r = Z.of_nat n /\ r <= count /\ (n <= length (rest f))%nat /\
     changed w w' fd (advance f n) /\ buf' = take n (rest f) ++ drop n buf) /\
  (r = 0 -> count = 0 \/ rest f = []).

Lemma bind_bulk_addr {A} (k : Z -> M A) p : (bulk_addr ≫= k) p = k (pr_bulk_addr p) p.
Proof. done. Qed.

Lemma bind_shm_read {A} addr n (k : list Z -> M A) p bytes :
  t_read (pr_w p) addr n = Some bytes -> (shm_read addr n ≫= k) p = k bytes p.
Proof. intros E. unfold mbind, M_bind, shm_read. by rewrite E. Qed.

(** When the region is set up, a bulk read starts at once. *)
Lemma bulk_read_ready fuel fd buf count p :
  pr_bulk_state p = BULK_SHM_READY ->
  bulk_read eps fuel fd buf count p = bulk_read_loop eps fuel fd count 0 buf p.
Proof.
  intros E. unfold bulk_read. rewrite (bind_run _ _ p true p); [done|].
  unfold ensure_bulk_shm, mbind at 1, M_bind at 1. cbn. by rewrite E.
Qed.

(** A read that fits the region is one request: either it is not answered and
    nothing has changed, or its answer is the result. *)
Lemma bulk_read_one `{!BulkServer (vfs_ep eps)} fuel fd count buf p f :
  fs_file (pr_w p) (as_u64 fd) = Some f -> bulk_at (pr_w p) (pr_bulk_addr p) ->
  0 < count <= BULK_BYTES -> count <= Z.of_nat (length buf) -> (2 <= fuel)%nat ->
  exists w',
    ((changed (pr_w p) w' (as_u64 fd) f /\
      bulk_read_loop eps fuel fd count 0 buf p = Some ((None, buf), set_w p w')) \/
     exists n, Z.of_nat n <= count /\ (n <= length (rest f))%nat /\ (n = O -> rest f = []) /\
       changed (pr_w p) w' (as_u64 fd) (advance f n) /\
       bulk_read_loop eps fuel fd count 0 buf p =
         Some ((Some (Z.of_nat n), splice buf 0 (take n (rest f))), set_w p w')).
Proof.
  intros Hf Hat Hc Hb Hfuel. destruct fuel as [|[|fuel]]; [lia..|].
  cbn [bulk_read_loop]. rewrite (proj2 (Z.ltb_lt 0 count)), Z.sub_0_r, Z.min_l by (unfold BULK_BYTES in *; lia).
  pose (m := mk VFS_BULK_READ 3 [as_u64 fd; count; 0]).
  destruct (bulk_read_ok (pr_w p) m f _ eq_refl Hf ltac:(cbn; lia) Hat) as (err & reply & w' & Hcall & Hst & Hans).
  rewrite (bind_call _ _ _ _ _ _ _ _ Hcall). exists w'.
  destruct (failed err reply) eqn:Hfail.
  - destruct Hans as [Hupd _]. left. split; [done|]. by destruct (_ =? _).
  - destruct Hans as (k & Hk & Hkn & [Hka Hk0] & Hupd & Hdata). right.
    change (reg m 1) with count in *. rewrite Hk.
    destruct (Z.eqb_spec err (as_i32 TRONA_INTERRUPTED)) as [->|_]; [discriminate Hfail|].
    exists k. split_and!; [done|done| |done|].
    { intros ->. destruct Hk0; [done|lia|done]. }
    destruct (Z.eqb_spec (Z.of_nat k) 0) as [E|E].
    { replace k with O by lia. by rewrite take_0, splice_nil. }
    rewrite bind_bulk_addr. rewrite (bind_shm_read _ _ _ _ (take k (rest f))) by (rewrite Nat2Z.id; exact Hdata).
    erewrite bind_lift; [|apply put_splice; rewrite ?length_take; lia].
    unfold BULK_BYTES, BULK_SHM_PAGES in Hc. rewrite wrap_small, Z.add_0_l by lia.
    by destruct (Z.of_nat k <? count).
Qed.



(** Seeking from the start of the file. *)
Lemma posix_lseek_spec fd pos p f :
  fs_file (pr_w p) (as_u64 fd) = Some f -> Z.of_nat pos <= Z.of_nat (length (f_data f)) < 2 ^ 63 ->
  exists w', posix_lseek eps fd (Z.of_nat pos) 0 p = Some (Z.of_nat pos, set_w p w') /\
    changed (pr_w p) w' (as_u64 fd) (mkFile (f_data f) pos).
Proof.
  intros Hf Hpos. assert (as_u64 (Z.of_nat pos) = Z.of_nat pos) as Hu by (apply wrap_small; lia).
  pose (m := mk VFS_LSEEK 3 [as_u64 fd; as_u64 (Z.of_nat pos); as_u64 0]).
  destruct (fs_seek (pr_w p) m f eq_refl Hf) as (reply & w' & Hcall & Hok & Hr & Hupd);
    [cbn; lia|done|]. change (reg m 0) with (as_u64 fd) in *. change (reg m 1) with (as_u64 (Z.of_nat pos)) in *.
  exists w'. unfold posix_lseek, request. rewrite (bind_call _ _ _ _ _ _ _ _ Hcall).
  unfold failed. rewrite Hok. cbn [Z.eqb negb orb]. rewrite Hr, Hu, as_i64_small by lia.
  rewrite Hu, Nat2Z.id in Hupd. done.
Qed.

(** Write at the cursor, go back, read as much. *)
Definition write_seek_read (fuel : nat) (fd : Z) (pos : nat) (bytes buf : list Z) : M (Z * list Z) :=
  _ ← posix_write eps fuel fd bytes (Z.of_nat (length bytes));
  _ ← posix_lseek eps fd (Z.of_nat pos) 0;
  posix_read eps fuel fd buf (Z.of_nat (length bytes)).

(** The cursor is where the written bytes are. *)
Lemma rest_overwrite f bytes :
  (f_pos f <= length (f_data f))%nat ->
  take (length bytes) (rest (mkFile (f_data (overwrite f bytes)) (f_pos f))) = bytes.
Proof.
  intros H. unfold rest, overwrite, splice. cbn [f_data f_pos].
  rewrite drop_app_length' by (rewrite length_take; lia). apply take_app_length.
Qed.

(** what is written is read back.  With a server that does all it is asked,
    writing [bytes] at the cursor, seeking back to where it was and reading as
    many bytes returns their number and exactly [bytes], whatever the file held
    before; the read leaves the rest of the buffer alone and the file has
    [bytes] in place of what was there. *)
Theorem file_roundtrip `{!FullService (vfs_ep eps)} fuel fd bytes buf p f :
  fs_file (pr_w p) (as_u64 fd) = Some f -> (f_pos f <= length (f_data f))%nat -> Forall byte bytes ->
  (length bytes <= 4096)%nat -> (length bytes <= length buf)%nat -> Z.of_nat (length (f_data f)) < 2 ^ 62 ->
  Z.of_nat (length bytes) <= 144 * (Z.of_nat fuel - 1 - Z.of_nat (fs_budget (pr_w p))) ->
  exists w', write_seek_read fuel fd (f_pos f) bytes buf p =
      Some ((Z.of_nat (length bytes), bytes ++ drop (length bytes) buf), set_w p w') /\
    changed (pr_w p) w' (as_u64 fd) (overwrite f bytes).
Proof.
  intros Hf Hpos Hby Hmax Hbuf Hlen Hfuel. unfold write_seek_read, posix_write.
  destruct (write_loop_spec eps fuel p fd bytes (Z.of_nat (length bytes)) 0 f) as (r & w1 & Hrun & Hout & Hfull); [done|done|done|lia..|].
  specialize (Hfull _). subst r. destruct Hout as [?|(n & Hn & _ & _ & Hu1 & _)]; [lia|].
  rewrite drop_0, take_ge in Hu1 by lia. rewrite (bind_run _ _ _ _ _ Hrun).
  pose proof (overwrite_pos f bytes Hpos). pose proof (updated_budget eps _ _ _ _ Hu1).
  assert (length (f_data (overwrite f bytes)) <= length (f_data f) + length bytes)%nat as Hlo
    by (unfold overwrite, splice; cbn [f_data]; rewrite !length_app, length_take, length_drop; lia).
  destruct (posix_lseek_spec fd (f_pos f) (set_w p w1) (overwrite f bytes)) as (w2 & Hseek & Hu2);
    [apply Hu1|cbn [overwrite f_pos] in *; lia|].
  rewrite (bind_run _ _ _ _ _ Hseek). pose proof (updated_budget eps _ _ _ _ Hu2).
  set (f2 := mkFile _ _) in Hu2. pose proof (rest_overwrite f bytes Hpos : take _ (rest f2) = bytes) as Hrest.
  assert (length bytes <= length (rest f2))%nat by (rewrite <- Hrest, length_take; lia).
  unfold posix_read. rewrite Z.gtb_ltb, (proj2 (Z.ltb_ge _ _)) by lia.
  destruct (read_loop_spec eps fuel (set_w (set_w p w1) w2) fd (Z.of_nat (length bytes)) 0 buf f2)
    as (r & buf' & w3 & Hread & Hout & _ & Hfull); [apply Hu2|lia|lia|lia|cbn in *; lia|].
  rewrite (Hfull _) in Hread, Hout. exists w3. rewrite Hread.
  destruct Hout as [?|(k & Hk & _ & _ & Hu3 & ->)]; [lia|].
  replace k with (length bytes) in * by lia. rewrite Hrest. unfold splice. cbn [take app Z.to_nat]. split.
  - rewrite Z.min_l by lia. repeat f_equal; lia.
  - eapply updated_trans; [done|]. eapply updated_trans; [done|]. exact Hu3.
Qed.

(** A bulk read that is interrupted after its first region-full starts again at
    the beginning of the buffer, but the file's cursor stays where it is: the
    caller gets the bytes that follow, and those already consumed are lost. *)
Lemma bulk_read_interrupted fuel fd buf count p f bytes r1 w1 r2 w2 :
  fs_file w2 (as_u64 fd) = Some (advance f (Z.to_nat BULK_BYTES)) ->
  BULK_BYTES < count < 2 ^ 63 -> count <= Z.of_nat (length buf) ->
  pr_bulk_state p = BULK_SHM_READY ->
  t_call false (pr_w p) (vfs_ep eps) (mk VFS_BULK_READ 3 [as_u64 fd; BULK_BYTES; 0]) = Some (0, r1, w1) ->
  label r1 = TRONA_OK -> reg r1 0 = BULK_BYTES ->
  t_read w1 (pr_bulk_addr p) (Z.to_nat BULK_BYTES) = Some bytes -> length bytes = Z.to_nat BULK_BYTES ->
  t_call false w1 (vfs_ep eps) (mk VFS_BULK_READ 3 [as_u64 fd; Z.min (count - BULK_BYTES) BULK_BYTES; 0]) =
    Some (as_i32 TRONA_INTERRUPTED, r2, w2) ->
  (2 <= fuel)%nat -> count <= 152 * (Z.of_nat fuel - 1 - Z.of_nat (fs_budget w2)) ->
  exists r buf' w', posix_read eps fuel fd buf count p = Some ((r, buf'), set_w p w') /\
    (0 <= r -> exists n, r = Z.of_nat n /\
       changed w2 w' (as_u64 fd) (advance f (Z.to_nat BULK_BYTES + n)) /\
       take n buf' = take n (drop (Z.to_nat BULK_BYTES) (rest f))).
Proof.
  intros Hf Hc Hb Hready Hcall1 Hok Hr1 Hmem Hlb Hcall2 Hfuel Hfuel2. assert (BULK_BYTES = 1048576) as HB by done.
  assert (posix_read eps fuel fd buf count p =
    read_loop eps fuel fd count 0 (splice buf 0 bytes) (set_w p w2)) as ->.
  { unfold posix_read. rewrite Z.gtb_ltb, (proj2 (Z.ltb_lt _ _)) by lia.
    rewrite (bind_run _ _ _ (None, splice buf 0 bytes) (set_w p w2)); [done|].
    rewrite bulk_read_ready by done. destruct fuel as [|[|fuel]]; [lia..|]. cbn [bulk_read_loop].
    change (BULK_SHM_PAGES * 4096) with BULK_BYTES. rewrite (proj2 (Z.ltb_lt 0 count)), Z.sub_0_r, Z.min_r by lia.
    rewrite (bind_call _ _ _ _ _ _ _ _ Hcall1). cbn beta iota. unfold failed at 1. rewrite Hok, Hr1.
    change (0 =? as_i32 TRONA_INTERRUPTED) with false. change (negb (0 =? 0) || negb (TRONA_OK =? TRONA_OK)) with false.
    change (BULK_BYTES =? 0) with false. cbn beta iota.
    rewrite bind_bulk_addr, (bind_shm_read _ _ _ _ bytes) by exact Hmem.
    erewrite bind_lift; [|apply put_splice; lia].
    rewrite wrap_small by lia.
    rewrite Z.add_0_l, Z.ltb_irrefl, (proj2 (Z.ltb_lt _ _)) by lia.
    by rewrite (bind_call _ _ _ _ (set_w p w1) _ _ _ Hcall2). }
  destruct (read_loop_spec eps fuel (set_w p w2) fd count 0 (splice buf 0 bytes) _ Hf) as (r & buf' & w' & Hrun & Hout & _);
    [lia|rewrite length_splice; lia|lia|cbn; lia|].
  exists r, buf', w'. split; [exact Hrun|]. intros Hr. destruct Hout as [?|(n & -> & _ & Hn & Hu & ->)]; [lia|].
  exists n. rewrite advance_advance in Hu. split_and!; [lia|exact Hu|].
  rewrite rest_advance in *. change (Z.to_nat 0) with O. unfold splice at 1. rewrite take_0. cbn [app].
  by rewrite take_app_length' by (rewrite length_take; lia).
Qed.
End theorems.

(** ** The theorems at work *)

Definition demo_eps : Endpoints := mkEps 1 2 3.
Definition demo_file : file := mkFile [104; 101; 108; 108; 111] 1.
Definition demo_proc : Proc := mkProc memfs_transport (mkMemFs {[ 4 := demo_file ]} []) 0 SHM_AT BULK_SHM_READY.



Lemma file_roundtrip_witness :
  exists w', write_seek_read demo_eps 3 4 1 [7; 8; 9] [0; 0; 0; 0; 5] demo_proc =
      Some ((3, [7; 8; 9; 0; 5]), set_w demo_proc w') /\
    updated mem_file (fun _ => O) (pr_w demo_proc) w' 4 (mkFile [104; 7; 8; 9; 111] 4).
Proof.
  destruct (file_roundtrip demo_eps 3 4 [7; 8; 9] [0; 0; 0; 0; 5] demo_proc demo_file) as (w' & Hrun & Hupd).
  - vm_compute. reflexivity.
  - cbn. lia.
  - repeat constructor; unfold byte; lia.
  - cbn. lia.
  - cbn. lia.
  - cbn. lia.
  - cbn. lia.
  - exists w'. split; [exact Hrun|exact Hupd].
Defined.
