(* ===== verification/FileMessages.v ===== *)
(** Every request the file operations send is a well-formed message.

    [logged] is a transport that also records what is sent; [sends] is a small
    program logic on the monad of PosixClient: a program sends only messages
    that satisfy [Q], and returns what satisfies [Post]. *)

From stdpp Require Import gmap.
From S2P Require Import Prelude Consts Kernel Ipc PosixCall Protocol PosixClient PosixProc PosixFile FileSpec.

Definition logged (T : Transport) : Transport := {|
  tw := tw * list (Cap * TronaMsg);
  t_call idem w ep m := r ← t_call idem w.1 ep m; let '(err, reply, w') := r in Some (err, reply, (w', w.2 ++ [(ep, m)]));
  t_call_once w ep m := r ← t_call_once w.1 ep m; let '(err, reply, w') := r in Some (err, reply, (w', w.2 ++ [(ep, m)]));
  t_syscall w nr x0 x1 := let '(r, w') := t_syscall w.1 nr x0 x1 in (r, (w', w.2));
  t_stage w bytes := w' ← t_stage w.1 bytes; Some (w', w.2);
  t_restart w := t_restart w.1;
  t_read w := t_read w.1;
  t_write w addr l := w' ← t_write w.1 addr l; Some (w', w.2);
|}.

Section logic.
Context {T : Transport} (Q : Cap -> TronaMsg -> Prop).

Definition log_ok (p : Proc (H := logged T)) : Prop := Forall (fun s => Q s.1 s.2) (pr_w p).2.

Definition sends {A} (m : M (H := logged T) A) (Post : A -> Prop) : Prop :=
  forall p a p', m p = Some (a, p') -> log_ok p -> log_ok p' /\ Post a.

Lemma sends_ret {A} (a : A) (Post : A -> Prop) : Post a -> sends (mret a) Post.
Proof. by intros ? p ? ? [= <- <-]. Qed.

Lemma sends_bind {A B} (m : @M (logged T) A) (k : A -> @M (logged T) B) Mid Post :
  sends m Mid -> (forall a, Mid a -> sends (k a) Post) -> sends (m ≫= k) Post.
Proof.
  intros Hm Hk p b p'' E Hp. unfold mbind, M_bind in E. destruct (m p) as [[a p']|] eqn:Em; [|done].
  destruct (Hm p a p' Em Hp). by eapply Hk.
Qed.

Lemma sends_call idem ep m : Q ep m -> sends (call idem ep m) (fun _ => True).
Proof.
  intros HQ p a p' E Hp. unfold call in E. cbn in E. destruct (t_call _ _ _ _) as [[[err reply] w]|]; [|done].
  cbn in E. injection E as <- <-. split; [|done]. unfold log_ok. cbn. by apply Forall_app_2; [|apply Forall_singleton].
Qed.

Lemma sends_lift {A} (o : option A) (Post : A -> Prop) : (forall a, o = Some a -> Post a) -> sends (lift o) Post.
Proof. intros Ho p a p' E Hp. unfold lift in E. destruct o; [|done]. injection E as -> ->. auto. Qed.

Lemma sends_stuck {A} (Post : A -> Prop) : sends stuck Post.
Proof. done. Qed.

Lemma sends_weaken {A} (m : @M (logged T) A) (Post Post' : A -> Prop) : sends m Post -> (forall a, Post a -> Post' a) -> sends m Post'.
Proof. intros Hm Hi p a p' E Hp. destruct (Hm p a p' E Hp). auto. Qed.

(** Programs that leave the log alone. *)
Lemma sends_quiet {A} (m : @M (logged T) A) : (forall p a p', m p = Some (a, p') -> (pr_w p').2 = (pr_w p).2) -> sends m (fun _ => True).
Proof. intros Hm p a p' E Hp. unfold log_ok. by rewrite (Hm p a p' E). Qed.

Lemma sends_shm_write addr l : sends (shm_write addr l) (fun _ => True).
Proof.
  apply sends_quiet. intros p a p' E. unfold shm_write in E. cbn in E.
  by destruct (t_write _ _ _); [injection E as _ <-|].
Qed.

Lemma sends_shm_read addr n : sends (shm_read addr n) (fun _ => True).
Proof.
  apply sends_quiet. intros p a p' E. unfold shm_read in E. cbn in E.
  by destruct (t_read _ _ _); [injection E as _ <-|].
Qed.

Lemma sends_request idem ep m ok : Q ep m -> sends (request idem ep m ok) (fun _ => True).
Proof. intros. eapply sends_bind; [by apply sends_call|]. intros [err reply] _. by apply sends_ret. Qed.

Lemma sends_request_out {O} idem ep m (out : O) ok : Q ep m -> sends (request_out idem ep m out ok) (fun _ => True).
Proof.
  intros. eapply sends_bind; [by apply sends_call|]. intros [err reply] _. destruct (failed _ _); [by apply sends_ret|].
  eapply sends_bind; [by apply (sends_lift _ (fun _ => True))|]. intros ? _. by apply sends_ret.
Qed.
End logic.

(** ** The messages *)

(** A message the IPC layer takes, of at most 20 registers, to one of the
    process's servers. *)
Definition request_ok (eps : Endpoints) (ep : Cap) (m : TronaMsg) : Prop :=
  msg_wf m /\ msg_length m <= 20 /\ (ep = vfs_ep eps \/ ep = procmgr_ep eps \/ ep = mmsrv_ep eps).

Lemma mk_wf lbl len rs :
  0 <= lbl < 2 ^ 40 -> 0 <= len <= 20 -> (length rs <= 32)%nat -> msg_wf (mk lbl len rs) /\ msg_length (mk lbl len rs) <= 20.
Proof. intros. split; [|cbn; lia]. split; [done|cbn; lia|by apply length_mk]. Qed.

Lemma words_bound n k : Z.of_nat n <= 8 * k -> 0 <= words n <= k.
Proof. intros. unfold words. split; [apply Z.div_pos; lia|]. apply Z.lt_succ_r, Z.div_lt_upper_bound; lia. Qed.

Lemma data_msg_wf lbl head data :
  0 <= lbl < 2 ^ 40 -> (length head <= 19)%nat -> (length data <= 8 * (20 - length head))%nat ->
  msg_wf (data_msg lbl head data) /\ msg_length (data_msg lbl head data) <= 20.
Proof.
  intros Hl Hh Hd. pose proof (words_bound (length data) (20 - Z.of_nat (length head)) ltac:(lia)).
  split; [|cbn; lia]. split; [done|cbn; lia|]. cbn [regs data_msg]. rewrite length_copy_path. apply length_mk. lia.
Qed.

Lemma two_path_msg_wf lbl head a b :
  0 <= lbl < 2 ^ 40 -> (length head <= 19)%nat -> Z.of_nat (length head) + words (length a) + words (length b) <= 20 ->
  msg_wf (two_path_msg lbl head a b) /\ msg_length (two_path_msg lbl head a b) <= 20.
Proof.
  intros Hl Hh Hw. assert (forall n, 0 <= words n) as H by (intros; unfold words; apply Z.div_pos; lia).
  split; [|done]. split; [done|cbn; pose proof (H (length a)); pose proof (H (length b)); lia|].
  cbn [regs two_path_msg]. rewrite !length_copy_path. apply length_mk. lia.
Qed.

Lemma length_zero_regs n : forall lo rs, length (zero_regs n lo rs) = length rs.
Proof. induction n as [|n IH]; intros; cbn [zero_regs]; [done|]. by rewrite IH, length_insert. Qed.

Lemma path_scan_limit path : forall limit n, path_scan limit path = Some n -> (n <= limit)%nat.
Proof.
  induction path as [|b path IH]; intros [|limit] n; cbn [path_scan]; try (intros [= <-]; lia); try done.
  destruct (b =? 0); [intros [= <-]; lia|]. intros (k & Hk & ->)%fmap_Some. specialize (IH _ _ Hk). lia.
Qed.

Lemma scan64_limit path : forall limit n, scan64 limit path = Some n -> (n <= limit)%nat.
Proof.
  induction path as [|b path IH]; intros [|limit] n; cbn [scan64]; try done; destruct (b =? 0);
    try (intros [= <-]; lia).
  intros (k & Hk & ->)%fmap_Some. specialize (IH _ _ Hk). lia.
Qed.

(** Packing a path leaves it inside the first 20 registers. *)
Lemma pack_path_room lbl head path max len m :
  (length head <= 18)%nat -> pack_path (mk lbl 0 head) (length head) path max = Some (len, m) ->
  (len <= 8 * (19 - length head))%nat /\ length (regs m) = 32%nat.
Proof.
  intros Hh E. unfold pack_path in E. destruct (path_scan _ path) as [n|] eqn:Hn; [|done]. cbn [mbind option_bind] in E.
  destruct (_ <=? _)%nat; [done|]. injection E as <- <-. apply path_scan_limit in Hn. split.
  - match type of Hn with (_ <= if ?c then _ else _)%nat => destruct c eqn:E; [apply Nat.ltb_lt in E|] end; lia.
  - cbn [regs]. rewrite length_copy_path, length_zero_regs, length_insert. exact (length_mk lbl 0 head ltac:(lia)).
Qed.

Section first.
Context {T : Transport} (eps : Endpoints).

Local Abbreviation ok := (sends (T := T) (request_ok eps)).

Lemma path_msg_wf lbl head path :
  0 <= lbl < 2 ^ 40 -> (length head <= 18)%nat ->
  ok (path_msg lbl head path) (fun m => msg_wf m /\ msg_length m <= 20).
Proof.
  intros Hl Hh. eapply sends_bind.
  - apply (sends_lift _ _ (fun r => (r.1 <= 8 * (19 - length head))%nat /\ length (regs r.2) = 32%nat)).
    intros [len m]. by apply pack_path_room.
  - intros [len m] [Hn Hr]. cbn in Hn, Hr. apply sends_ret.
    pose proof (words_bound len (19 - Z.of_nat (length head)) ltac:(lia)).
    split; [|cbn; lia]. split; [done|cbn; lia|done].
Qed.

Lemma to_vfs m : msg_wf m /\ msg_length m <= 20 -> request_ok eps (vfs_ep eps) m.
Proof. intros []. split_and!; auto. Qed.

End first.

(** Well-formedness of a message whose registers are written out. *)
Ltac wf := first [apply to_vfs | idtac]; first [done | apply mk_wf | apply data_msg_wf]; first [done | cbn; lia].

(** One step of a wrapper. *)
Ltac step :=
  lazymatch goal with
  | |- sends _ (mret _) _ => by apply sends_ret
  | |- sends _ stuck _ => done
  | |- sends _ (path_msg _ _ _ ≫= _) _ => eapply sends_bind; [apply path_msg_wf; [done|cbn; lia]|intros ? ?]
  | |- sends _ (lift (scan64 64 ?p) ≫= _) _ =>
      eapply sends_bind; [apply (sends_lift _ _ (fun n => (n <= 64)%nat)); apply scan64_limit|intros ? ?]
  | |- sends _ (lift _ ≫= _) _ => eapply sends_bind; [by apply (sends_lift _ _ (fun _ => True))|intros ? _]
  | |- sends _ (call _ _ _ ≫= _) _ => eapply sends_bind; [apply sends_call|intros [? ?] _]
  | |- sends _ (shm_read _ _ ≫= _) _ => eapply sends_bind; [apply sends_shm_read|intros ? _]
  | |- sends _ (shm_write _ _ ≫= _) _ => eapply sends_bind; [apply sends_shm_write|intros ? _]
  | |- sends _ (request _ _ _ _) _ => apply sends_request
  | |- sends _ (request_out _ _ _ _ _) _ => apply sends_request_out
  | |- sends _ (if ?b then _ else _) _ => destruct b eqn:?
  | |- sends _ (_ ≫= _) _ => eapply sends_bind; [by apply sends_quiet; intros ? ? ? [= _ <-]|intros ? _]
  end.

Section wrappers.
Context {T : Transport} (eps : Endpoints).

Local Abbreviation ok := (sends (T := T) (request_ok eps)).

Lemma buf_bytes_length buf off n data : buf_bytes buf off n = Some data -> Z.of_nat (length data) <= n.
Proof. unfold buf_bytes. case_if; [|done]. intros [= <-]. rewrite length_take. lia. Qed.

(** The data of a chunk is no longer than the chunk. *)
Lemma sends_data buf off n : ok (lift (buf_bytes buf off n)) (fun data => Z.of_nat (length data) <= n).
Proof. apply sends_lift. intros ?. apply buf_bytes_length. Qed.

Local Ltac data := eapply sends_bind; [apply sends_data|intros ? ?; cbn beta in *].
Local Ltac chunk := repeat match goal with |- context [if ?a >? ?b then _ else _] => destruct (Z.gtb_spec a b) end.

Lemma read_loop_wf fuel : forall fd count total buf, ok (read_loop eps fuel fd count total buf) (fun _ => True).
Proof. induction fuel as [|fuel IH]; intros; cbn [read_loop]; [done|]. repeat step; try done; wf. Qed.

Lemma pread_loop_wf fuel : forall fd count offset total buf, ok (pread_loop eps fuel fd count offset total buf) (fun _ => True).
Proof.
  induction fuel as [|fuel IH]; intros; cbn [pread_loop]; [done|].
  destruct (checked_off offset total); repeat step; try done; wf.
Qed.

Lemma bulk_read_loop_wf fuel : forall fd count total buf, ok (bulk_read_loop eps fuel fd count total buf) (fun _ => True).
Proof. induction fuel as [|fuel IH]; intros; cbn [bulk_read_loop]; [done|]. repeat step; try done; wf. Qed.

Lemma write_loop_wf fuel : forall fd buf count total, ok (write_loop eps fuel fd buf count total) (fun _ => True).
Proof.
  induction fuel as [|fuel IH]; intros; cbn [write_loop]; [done|]. step; [|by step].
  chunk; data; repeat step; try done; wf.
Qed.

Lemma pwrite_loop_wf fuel : forall fd buf count offset total, ok (pwrite_loop eps fuel fd buf count offset total) (fun _ => True).
Proof.
  induction fuel as [|fuel IH]; intros; cbn [pwrite_loop]; [done|]. step; [|by step].
  destruct (checked_off offset total); [|by step]. chunk; data; repeat step; try done; wf.
Qed.

Lemma bulk_pwrite_loop_wf fuel : forall fd buf count offset total,
  ok (bulk_pwrite_loop eps fuel fd buf count offset total) (fun _ => True).
Proof.
  induction fuel as [|fuel IH]; intros; cbn [bulk_pwrite_loop]; [done|]. step; [|by step].
  destruct (checked_off offset total); repeat step; try done; wf.
Qed.

Lemma to_mmsrv m : msg_wf m /\ msg_length m <= 20 -> request_ok eps (mmsrv_ep eps) m.
Proof. intros []. split_and!; auto. Qed.

Lemma to_procmgr m : msg_wf m /\ msg_length m <= 20 -> request_ok eps (procmgr_ep eps) m.
Proof. intros []. split_and!; auto. Qed.

Lemma getpid_wf : ok (posix_getpid eps) (fun _ => True).
Proof. unfold posix_getpid. step. apply to_procmgr. wf. Qed.

Lemma ensure_bulk_shm_wf : ok (ensure_bulk_shm eps) (fun _ => True).
Proof.
  unfold ensure_bulk_shm. step. step; [by step|]. step; [done|]. step.
  assert (forall b, ok (finish_bulk_shm_setup b) (fun _ => True)) as Hend by (intros; unfold finish_bulk_shm_setup; by repeat step).
  step; [done|]. eapply sends_bind; [apply getpid_wf|]. intros pid _. step.
  eapply sends_bind; [|intros b _; step; [done|]; repeat step; try done; wf].
  instantiate (1 := fun _ => True). step; [|by step].
  unfold map_bulk_shm. repeat step; apply to_mmsrv; wf.
Qed.

Lemma bulk_read_wf fuel fd buf count :
  ok (bulk_read eps fuel fd buf count) (fun _ => True).
Proof.
  intros. eapply sends_bind; [by apply ensure_bulk_shm_wf|]. intros ready _. step; [by step|]. apply bulk_read_loop_wf.
Qed.

Lemma bulk_pwrite_wf fuel fd buf count offset :
  ok (bulk_pwrite eps fuel fd buf count offset) (fun _ => True).
Proof.
  intros. eapply sends_bind; [by apply ensure_bulk_shm_wf|]. intros ready _. step; [by step|]. apply bulk_pwrite_loop_wf.
Qed.

(** Two paths of at most 64 bytes fit behind four registers. *)
Lemma two_paths_ok lbl head a b n k :
  0 <= lbl < 2 ^ 40 -> (length head <= 19)%nat -> (n <= 64)%nat -> (k <= 64)%nat ->
  Z.of_nat (length head) + words n + words k <= 20 ->
  request_ok eps (vfs_ep eps) (two_path_msg lbl head (take n a) (take k b)).
Proof.
  intros Hl Hh Hn Hk Hw. apply to_vfs, two_path_msg_wf; [done|done|].
  assert (forall i j, (i <= j)%nat -> words i <= words j) as Hmono by (intros; unfold words; apply Z.div_le_mono; lia).
  pose proof (Hmono (length (take n a)) n ltac:(rewrite length_take; lia)).
  pose proof (Hmono (length (take k b)) k ltac:(rewrite length_take; lia)). lia.
Qed.

Lemma words64 n : (n <= 64)%nat -> 0 <= words n <= 8.
Proof. intros. apply words_bound. lia. Qed.
End wrappers.

(** ** All operations *)

(** The file operations with their arguments (buffers and out-parameters
    included). *)
Inductive file_op :=
  | OpOpen (path : list Z) (flags mode : Z) | OpAccess (path : list Z) (mode : Z) | OpUnlink (path : list Z)
  | OpRename (old_path new_path : list Z) | OpMkdir (path : list Z) (mode : Z) | OpRmdir (path : list Z)
  | OpOpendir (path : list Z) | OpStat (path : list Z) (st : option TronaStat)
  | OpLstat (path : list Z) (st : option TronaStat) | OpFstat (fd : Z) (st : option TronaStat)
  | OpClose (fd : Z) | OpClosedir (fd : Z) | OpLseek (fd offset whence : Z) | OpFtruncate (fd length : Z)
  | OpFsync (fd : Z) | OpFchmod (fd mode : Z) | OpFchown (fd uid gid : Z) | OpUmask (mask : Z)
  | OpReaddir (fd : Z) (entry : option TronaDirent) | OpPipe2 (fds : Z * Z) (flags : Z) | OpPipe (fds : Z * Z)
  | OpDup (fd : Z) | OpDup2 (fd newfd : Z) | OpDup3 (fd newfd flags : Z) | OpMkfifo (path : list Z) (mode : Z)
  | OpOpenat (dirfd : Z) (path : list Z) (flags mode : Z)
  | OpFstatat (dirfd : Z) (path : list Z) (st : option TronaStat) (flags : Z)
  | OpUnlinkat (dirfd : Z) (path : list Z) (flags : Z)
  | OpRenameat (old_dirfd : Z) (old_path : list Z) (new_dirfd : Z) (new_path : list Z)
  | OpMkdirat (dirfd : Z) (path : list Z) (mode : Z) | OpFaccessat (dirfd : Z) (path : list Z) (mode flags : Z)
  | OpFchmodat (dirfd : Z) (path : list Z) (mode flags : Z)
  | OpFchownat (dirfd : Z) (path : list Z) (uid gid flags : Z)
  | OpUtimensat (dirfd : Z) (path : list Z) (atime_sec atime_nsec mtime_sec mtime_nsec flags : Z)
  | OpSymlinkat (target : list Z) (newdirfd : Z) (linkpath : list Z)
  | OpReadlinkat (dirfd : Z) (path buf : list Z) (bufsiz : Z)
  | OpLinkat (olddirfd : Z) (oldpath : list Z) (newdirfd : Z) (newpath : list Z) (flags : Z)
  | OpSymlink (target linkpath : list Z) | OpReadlink (path buf : list Z) (bufsiz : Z) | OpLink (oldpath newpath : list Z)
  | OpRead (fd : Z) (buf : list Z) (count : Z) | OpWrite (fd : Z) (buf : list Z) (count : Z)
  | OpPread (fd : Z) (buf : list Z) (count offset : Z) | OpPwrite (fd : Z) (buf : list Z) (count offset : Z).

Section run.
Context {T : Transport} (eps : Endpoints) (fuel : nat).

Definition void {A} (m : M A) : M unit := _ ← m; mret tt.

Definition run_op (op : file_op) : M unit :=
  match op with
  | OpOpen p f m => void (posix_open eps p f m) | OpAccess p m => void (posix_access eps p m)
  | OpUnlink p => void (posix_unlink eps p) | OpRename o n => void (posix_rename eps o n)
  | OpMkdir p m => void (posix_mkdir eps p m) | OpRmdir p => void (posix_rmdir eps p)
  | OpOpendir p => void (posix_opendir eps p) | OpStat p st => void (posix_stat eps p st)
  | OpLstat p st => void (posix_lstat eps p st) | OpFstat fd st => void (posix_fstat eps fd st)
  | OpClose fd => void (posix_close eps fd) | OpClosedir fd => void (posix_closedir eps fd)
  | OpLseek fd o w => void (posix_lseek eps fd o w) | OpFtruncate fd l => void (posix_ftruncate eps fd l)
  | OpFsync fd => void (posix_fsync eps fd) | OpFchmod fd m => void (posix_fchmod eps fd m)
  | OpFchown fd u g => void (posix_fchown eps fd u g) | OpUmask m => void (posix_umask eps m)
  | OpReaddir fd e => void (posix_readdir eps fd e) | OpPipe2 fds f => void (posix_pipe2 eps fds f)
  | OpPipe fds => void (posix_pipe eps fds) | OpDup fd => void (posix_dup eps fd)
  | OpDup2 fd n => void (posix_dup2 eps fd n) | OpDup3 fd n f => void (posix_dup3 eps fd n f)
  | OpMkfifo p m => void (posix_mkfifo eps p m) | OpOpenat d p f m => void (posix_openat eps d p f m)
  | OpFstatat d p st f => void (posix_fstatat eps d p st f) | OpUnlinkat d p f => void (posix_unlinkat eps d p f)
  | OpRenameat od op nd np => void (posix_renameat eps od op nd np)
  | OpMkdirat d p m => void (posix_mkdirat eps d p m) | OpFaccessat d p m f => void (posix_faccessat eps d p m f)
  | OpFchmodat d p m f => void (posix_fchmodat eps d p m f) | OpFchownat d p u g f => void (posix_fchownat eps d p u g f)
  | OpUtimensat d p a an m mn f => void (posix_utimensat eps d p a an m mn f)
  | OpSymlinkat t d l => void (posix_symlinkat eps t d l) | OpReadlinkat d p b n => void (posix_readlinkat eps d p b n)
  | OpLinkat od op nd np f => void (posix_linkat eps od op nd np f)
  | OpSymlink t l => void (posix_symlink eps t l) | OpReadlink p b n => void (posix_readlink eps p b n)
  | OpLink o n => void (posix_link eps o n)
  | OpRead fd b c => void (posix_read eps fuel fd b c) | OpWrite fd b c => void (posix_write eps fuel fd b c)
  | OpPread fd b c o => void (posix_pread eps fuel fd b c o) | OpPwrite fd b c o => void (posix_pwrite eps fuel fd b c o)
  end.
End run.

Section claim.
Context {T : Transport} (eps : Endpoints).

Local Abbreviation ok := (sends (T := T) (request_ok eps)).

Lemma void_wf {A} (m : @M (logged T) A) : ok m (fun _ => True) -> ok (void m) (fun _ => True).
Proof. intros. eapply sends_bind; [done|]. intros ? _. by step. Qed.

Lemma renameat_wf od op nd np : ok (posix_renameat eps od op nd np) (fun _ => True).
Proof. unfold posix_renameat. repeat step. apply two_paths_ok; done || (bprop; cbn; lia). Qed.

Lemma symlinkat_wf t d l : ok (posix_symlinkat eps t d l) (fun _ => True).
Proof. unfold posix_symlinkat. repeat step. apply two_paths_ok; done || (bprop; cbn; lia). Qed.

Lemma linkat_wf od op nd np f : ok (posix_linkat eps od op nd np f) (fun _ => True).
Proof. unfold posix_linkat. repeat step. apply two_paths_ok; done || (bprop; cbn; lia). Qed.

Lemma rename_wf o n : ok (posix_rename eps o n) (fun _ => True).
Proof.
  unfold posix_rename. repeat step. pose proof (words64 a). pose proof (words64 a0).
  apply two_paths_ok; done || (cbn in *; lia).
Qed.

Lemma umask_wf m : ok (posix_umask eps m) (fun _ => True).
Proof. unfold posix_umask. repeat step. split_and!; [apply mk_wf; done || (cbn; lia)|cbn; lia|auto]. Qed.

Lemma readdir_wf fd e : ok (posix_readdir eps fd e) (fun _ => True).
Proof. unfold posix_readdir. step; [wf|]. step; [by step|]. step; [by step|]. destruct e; repeat step. Qed.

Lemma readlinkat_wf d p b n : ok (posix_readlinkat eps d p b n) (fun _ => True).
Proof. unfold posix_readlinkat. repeat step. wf. Qed.

Lemma read_wf fuel fd b c : ok (posix_read eps fuel fd b c) (fun _ => True).
Proof.
  intros. unfold posix_read. step; [|apply read_loop_wf].
  eapply sends_bind; [by apply bulk_read_wf|]. intros [[n|] ?] _; [by step|apply read_loop_wf].
Qed.

Lemma pwrite_wf fuel fd b c o : ok (posix_pwrite eps fuel fd b c o) (fun _ => True).
Proof.
  intros. unfold posix_pwrite. step; [by step|]. step; [|apply pwrite_loop_wf].
  eapply sends_bind; [by apply bulk_pwrite_wf|]. intros [n|] _; [by step|apply pwrite_loop_wf].
Qed.

(** Every file operation sends only well-formed requests. *)
Lemma file_op_wf fuel op : ok (run_op eps fuel op) (fun _ => True).
Proof.
  destruct op; apply void_wf; auto using renameat_wf, symlinkat_wf, linkat_wf, rename_wf, umask_wf, readdir_wf, readlinkat_wf,
    read_wf, pwrite_wf, write_loop_wf.
  all: try (unfold posix_open, posix_access, posix_unlink, posix_mkdir, posix_rmdir, posix_opendir, posix_stat, posix_lstat,
    posix_fstat, posix_closedir, posix_close, posix_lseek, posix_ftruncate, posix_fsync, posix_fchmod, posix_fchown,
    posix_pipe, posix_pipe2, posix_dup, posix_dup2, posix_dup3, posix_mkfifo, posix_openat, posix_fstatat, posix_unlinkat,
    posix_mkdirat, posix_faccessat, posix_fchmodat, posix_fchownat, posix_utimensat; by (repeat step; wf)).
  - apply symlinkat_wf.
  - apply readlinkat_wf.
  - apply linkat_wf.
  - apply write_loop_wf.
  - unfold posix_pread. step; [by step|apply pread_loop_wf].
Qed.
End claim.
