(* ===== verification/PosixPoll.v ===== *)
(** Waiting for descriptors ([src/posix/poll.rs]): poll, select and epoll over
    requests to the VFS server. *)

From S2P Require Import Prelude Consts Kernel Ipc PosixCall Protocol PosixClient FileSpec.

Definition POLLIN : Z := 0x001.
Definition POLLOUT : Z := 0x004.
Definition POLLERR : Z := 0x008.
Definition POLLHUP : Z := 0x010.

Record PollFd := mkPollFd { pfd : Z; events : Z; revents : Z }.
Definition PollFd_zeroed : PollFd := mkPollFd (-1) 0 0.

Record EpollEvent := mkEpoll { ep_events : Z; ep_data : Z }.

Definition as_i16 (z : Z) : Z := signed 16 z.

Section poll.
Context `{Transport} (eps : Endpoints).
Local Abbreviation vfs := (vfs_ep eps).

(** [for i in 0..n { regs[2 + i*2] = fd; regs[2 + i*2 + 1] = events }] *)
Definition poll_pairs (fds : list PollFd) : list Z := fds ≫= fun f => [as_u64 (pfd f); as_u64 (events f)].

(** [for i in 0..n { fds[i].revents = regs[1 + i] as i16 }] *)
Definition set_revents (reply : TronaMsg) (fds : list PollFd) : list PollFd :=
  imap (fun i f => mkPollFd (pfd f) (events f) (as_i16 (reg reply (1 + i)))) fds.

Definition posix_poll (fds : list PollFd) (nfds timeout : Z) : M (Z * list PollFd) :=
  let actual_nfds := if nfds >? 8 then 8 else nfds in
  let n := Z.to_nat actual_nfds in
  polled ← lift (if (n <=? length fds)%nat then Some (take n fds) else None);
  r ← call false vfs (mk VFS_POSIX_POLL (2 + actual_nfds * 2) (actual_nfds :: as_u64 timeout :: poll_pairs polled));
  let '(err, reply) := r in
  if err =? as_i32 TRONA_INTERRUPTED then mret (-4, fds)
  else if failed err reply then mret (io_error err reply, fds)
  else mret (as_i32 (reg reply 0), set_revents reply polled ++ drop n fds).

(** Whether the set is given and holds [fd]. *)
Definition in_set (set : option Z) (fd : Z) : bool :=
  match set with None => false | Some s => negb (Z.land s (1 << fd)%u64 =? 0) end.

Definition wanted (readfds writefds : option Z) (fd : Z) : Z :=
  Z.lor (if in_set readfds fd then POLLIN else 0) (if in_set writefds fd then POLLOUT else 0).

(** [for fd in 0..max_fd]: at most eight descriptors go into the array. *)
Fixpoint collect (n : nat) (fd : Z) (readfds writefds : option Z) (acc : list PollFd) : list PollFd :=
  match n with
  | O => acc
  | S n' =>
      let ev := wanted readfds writefds fd in
      let acc := if negb (ev =? 0) && (length acc <? 8)%nat then acc ++ [mkPollFd fd ev 0] else acc in
      collect n' (fd + 1) readfds writefds acc
  end.

Definition given (set : option Z) : bool := match set with Some _ => true | None => false end.
Definition add_fd (set : option Z) (fd : Z) : option Z := (fun s => Z.lor s (1 << fd)%u64) <$> set.

(** The loop that rebuilds the sets. *)
Fixpoint rebuild (fds : list PollFd) (readfds writefds : option Z) (ready : Z) : Z * option Z * option Z :=
  match fds with
  | [] => (ready, readfds, writefds)
  | f :: rest =>
      if revents f =? 0 then rebuild rest readfds writefds ready
      else
        let r := given readfds && negb (Z.land (revents f) (Z.lor (Z.lor POLLIN POLLHUP) POLLERR) =? 0) in
        let w := given writefds && negb (Z.land (revents f) POLLOUT =? 0) in
        rebuild rest (if r then add_fd readfds (pfd f) else readfds) (if w then add_fd writefds (pfd f) else writefds)
          (if r || w then ready + 1 else ready)
  end.

Definition posix_select (nfds : Z) (readfds writefds : option Z) (timeout : Z) : M (Z * option Z * option Z) :=
  let max_fd := if nfds >? 64 then 64 else nfds in
  let poll_fds := collect (Z.to_nat max_fd) 0 readfds writefds [] in
  let count := length poll_fds in
  if (count =? 0)%nat then mret (0, readfds, writefds)
  else
    r ← posix_poll (poll_fds ++ replicate (8 - count) PollFd_zeroed) (Z.of_nat count) timeout;
    let '(ret, poll_fds) := r in
    if ret <? 0 then mret (ret, readfds, writefds)
    else mret (rebuild (take count poll_fds) ((fun _ => 0) <$> readfds) ((fun _ => 0) <$> writefds) 0).

Definition posix_epoll_create : M Z := request false vfs (mk VFS_POSIX_EPOLL_CREATE 0 []) ok_i32.

Definition posix_epoll_ctl (epfd op fd events data : Z) : M Z :=
  request false vfs (mk VFS_POSIX_EPOLL_CTL 5 [as_u64 epfd; as_u64 op; as_u64 fd; events; data]) ok_zero.

(** The events of a reply; the array index panics beyond the registers, and the
    caller's array is written without a check against its size. *)
Definition unpack_events (reply : TronaMsg) (count : Z) (evs : list EpollEvent) : option (list EpollEvent) :=
  if (count <=? 15) && (count <=? Z.of_nat (length evs)) then
    let count := Z.to_nat count in
    Some (map (fun i => mkEpoll (as_u32 (reg reply (1 + i * 2))) (reg reply (2 + i * 2))) (seq 0 count) ++ drop count evs)
  else None.

(** [evs] is [None] for a null pointer. *)
Definition posix_epoll_wait (epfd : Z) (evs : option (list EpollEvent)) (maxevents timeout : Z)
    : M (Z * option (list EpollEvent)) :=
  r ← call false vfs (mk VFS_POSIX_EPOLL_WAIT 3 [as_u64 epfd; as_u64 maxevents; as_u64 timeout]);
  let '(err, reply) := r in
  if err =? as_i32 TRONA_INTERRUPTED then mret (-4, evs)
  else if failed err reply then mret (io_error err reply, evs)
  else
    let count := as_i32 (reg reply 0) in
    match evs with
    | None => mret (count, None)
    | Some evs =>
        evs ← lift (unpack_events reply (as_u64 count) evs);
        mret (count, Some evs)
    end.
End poll.

(** ** What select does *)

(** The descriptors asked about, lowest first. *)
Definition asked (nfds : Z) (readfds writefds : option Z) : list Z :=
  List.filter (fun fd => negb (wanted readfds writefds fd =? 0)) (seqZ 0 (Z.min nfds 64)).

Definition readable_event (ev : Z) : bool := negb (Z.land ev (Z.lor (Z.lor POLLIN POLLHUP) POLLERR) =? 0).
Definition writable_event (ev : Z) : bool := negb (Z.land ev POLLOUT =? 0).

Lemma collect_spec readfds writefds n : forall fd acc, (length acc <= 8)%nat ->
  collect n fd readfds writefds acc =
    acc ++ take (8 - length acc)
      (map (fun fd => mkPollFd fd (wanted readfds writefds fd) 0)
         (List.filter (fun fd => negb (wanted readfds writefds fd =? 0)) (seqZ fd (Z.of_nat n)))).
Proof.
  induction n as [|n IH]; intros fd acc Hl; cbn [collect].
  - rewrite firstn_nil. by rewrite app_nil_r.
  - rewrite seqZ_cons by lia. replace (Z.pred (Z.of_nat (S n))) with (Z.of_nat n) by lia.
    change (Z.succ fd) with (fd + 1). cbn [List.filter]. destruct (negb _) eqn:E; cbn [andb].
    + destruct (Nat.ltb_spec (length acc) 8).
      * rewrite IH by (rewrite length_app; cbn; lia). rewrite length_app. cbn [length map].
        replace (8 - length acc)%nat with (S (8 - (length acc + 1)))%nat by lia.
        cbn [take]. by rewrite <- app_assoc.
      * rewrite IH by done. by replace (8 - length acc)%nat with O by lia.
    + by apply IH.
Qed.

Lemma testbit_add_fd s fd b : 0 <= fd < 64 ->
  Z.testbit (Z.lor s (1 << fd)%u64) b = Z.testbit s b || (b =? fd).
Proof.
  intros. rewrite wrap_small; [by apply testbit_set; lia|]. rewrite Z.shiftl_1_l. by apply pow2_range.
Qed.

Definition add_if (ev : Z -> bool) (set : option Z) (f : PollFd) : option Z :=
  if ev (revents f) then add_fd set (pfd f) else set.

Definition hit (r w : bool) (f : PollFd) : bool := (r && readable_event (revents f)) || (w && writable_event (revents f)).

(** The loop is a fold over each set and a count. *)
Lemma rebuild_fold fds : forall readfds writefds ready,
  rebuild fds readfds writefds ready =
    (ready + Z.of_nat (length (List.filter (hit (given readfds) (given writefds)) fds)),
     foldl (add_if readable_event) readfds fds, foldl (add_if writable_event) writefds fds).
Proof.
  induction fds as [|f fds IH]; intros readfds writefds ready; cbn [rebuild foldl List.filter].
  - by rewrite Z.add_0_r.
  - assert (forall ev set, given (add_if ev set f) = given set) as Hg
      by (intros ev []; unfold add_if; by destruct (ev _)).
    assert (forall ev (set : option Z), (if given set && ev (revents f) then add_fd set (pfd f) else set) = add_if ev set f) as Ha
      by (intros ev []; unfold add_if; by destruct (ev _)).
    unfold hit at 1. destruct (Z.eqb_spec (revents f) 0) as [E|E].
    + assert (forall ev : Z -> bool, ev 0 = false -> ev (revents f) = false) as H0 by (by intros ev; rewrite E).
      unfold add_if at 2 4. rewrite (H0 readable_event), (H0 writable_event) by done. by rewrite IH, !andb_false_r.
    + fold (readable_event (revents f)) (writable_event (revents f)). rewrite IH, !Ha, !Hg.
      f_equal. f_equal. destruct (_ || _); cbn [length]; lia.
Qed.

Lemma fold_bits ev fds : forall s, Forall (fun f => 0 <= pfd f < 64) fds ->
  exists s', foldl (add_if ev) (Some s) fds = Some s' /\ forall b,
    Z.testbit s' b = Z.testbit s b || existsb (fun f => (b =? pfd f) && ev (revents f)) fds.
Proof.
  induction fds as [|f fds IH]; intros s Hf; cbn [foldl existsb].
  - exists s. split; [done|]. intros. by rewrite orb_false_r.
  - apply Forall_cons in Hf as [Hfd Hf]. unfold add_if at 2. destruct (ev (revents f)).
    + change (add_fd (Some s) (pfd f)) with (Some (Z.lor s (1 << pfd f)%u64)).
      destruct (IH (Z.lor s (1 << pfd f)%u64) Hf) as (s' & -> & Hb). exists s'. split; [done|].
      intros b. by rewrite Hb, testbit_add_fd, andb_true_r, orb_assoc.
    + destruct (IH s Hf) as (s' & -> & Hb). exists s'. split; [done|]. intros b. by rewrite Hb, andb_false_r.
Qed.

Lemma fold_null ev fds : foldl (add_if ev) None fds = None.
Proof. induction fds as [|f fds IH]; [done|]. cbn [foldl]. unfold add_if at 2. by destruct (ev _). Qed.

(** The reply's events for the descriptors polled. *)
Definition reported (fds : list Z) (reply : TronaMsg) : list (Z * Z) :=
  imap (fun i fd => (fd, as_i16 (reg reply (1 + i)))) fds.

(** Which bits of a set a call leaves: those of the descriptors with an event. *)
Definition set_bits (set set' : option Z) (ev : Z -> bool) (rep : list (Z * Z)) : Prop :=
  match set with
  | None => set' = None
  | Some _ => exists s', set' = Some s' /\ forall b, Z.testbit s' b = existsb (fun r => (b =? r.1) && ev r.2) rep
  end.

Section select.
Context `{T : Transport} (eps : Endpoints).

Lemma asked_range nfds readfds writefds : Forall (fun fd => 0 <= fd < 64) (asked nfds readfds writefds).
Proof.
  apply Forall_forall. intros fd Hfd%list_elem_of_In%List.filter_In. destruct Hfd as [Hfd%list_elem_of_In%elem_of_seqZ _]. lia.
Qed.

Lemma polled_fds nfds readfds writefds :
  collect (Z.to_nat (if nfds >? 64 then 64 else nfds)) 0 readfds writefds [] =
  map (fun fd => mkPollFd fd (wanted readfds writefds fd) 0) (take 8 (asked nfds readfds writefds)).
Proof.
  rewrite collect_spec by (cbn; lia). cbn [length app Nat.sub]. rewrite firstn_map. unfold asked.
  enough (seqZ 0 (Z.of_nat (Z.to_nat (if nfds >? 64 then 64 else nfds))) = seqZ 0 (Z.min nfds 64)) as -> by done.
  destruct (Z.gtb_spec nfds 64); [by rewrite Z.min_r by lia|].
  destruct (decide (0 <= nfds)); [by rewrite Z2Nat.id, Z.min_l by lia|].
  rewrite Z2Nat.nonpos by lia. by rewrite !seqZ_nil by lia.
Qed.

Lemma set_bits_fold ev (set : option Z) fds rep :
  Forall (fun f => 0 <= pfd f < 64) fds -> rep = map (fun f => (pfd f, revents f)) fds ->
  set_bits set (foldl (add_if ev) ((fun _ => 0) <$> set) fds) ev rep.
Proof.
  intros Hf ->. destruct set as [s|]; cbn [fmap option_fmap option_map set_bits]; [|apply fold_null].
  destruct (fold_bits ev fds 0 Hf) as (s' & -> & Hb). exists s'. split; [done|]. intros b. rewrite Hb, Z.bits_0. cbn [orb].
  clear. induction fds as [|f fds IH]; [done|]. cbn. by rewrite IH.
Qed.

Lemma set_revents_reported nfds readfds writefds reply :
  let fds := take 8 (asked nfds readfds writefds) in
  map (fun f => (pfd f, revents f)) (set_revents reply (map (fun fd => mkPollFd fd (wanted readfds writefds fd) 0) fds)) =
  reported fds reply.
Proof.
  intros fds. unfold set_revents, reported. change @map with (@fmap list list_fmap). cbn beta.
  rewrite imap_fmap, fmap_imap. done.
Qed.

Lemma set_revents_pfd reply fds P : Forall (fun f => P (pfd f)) fds -> Forall (fun f => P (pfd f)) (set_revents reply fds).
Proof. intros Hf. apply Forall_lookup. intros i f' (f & Hi & ->)%list_lookup_imap_Some. exact (Forall_lookup_1 _ _ _ _ Hf Hi). Qed.

(** A poll of all entries of an array with room behind them. *)
Lemma posix_poll_run fds extra timeout p err reply w :
  (length fds <= 8)%nat ->
  t_call false (pr_w p) (vfs_ep eps)
    (mk VFS_POSIX_POLL (2 + Z.of_nat (length fds) * 2) (Z.of_nat (length fds) :: as_u64 timeout :: poll_pairs fds)) =
    Some (err, reply, w) -> status err ->
  if failed err reply then
    exists r, -125 <= r < 0 /\ posix_poll eps (fds ++ extra) (Z.of_nat (length fds)) timeout p = Some ((r, fds ++ extra), set_w p w)
  else posix_poll eps (fds ++ extra) (Z.of_nat (length fds)) timeout p =
    Some ((as_i32 (reg reply 0), set_revents reply fds ++ extra), set_w p w).
Proof.
  intros Hl Hcall Hst. unfold posix_poll. rewrite Z.gtb_ltb, (proj2 (Z.ltb_ge _ _)), Nat2Z.id by lia.
  rewrite (bind_lift _ _ _ fds).
  2:{ rewrite length_app, (proj2 (Nat.leb_le _ _)) by lia. by rewrite take_app_length. }
  rewrite (bind_call _ _ _ _ _ _ _ _ Hcall). destruct (failed err reply) eqn:Hf.
  - destruct (_ =? _); [by exists (-4)|]. pose proof (io_error_neg err reply Hst Hf). by exists (io_error err reply).
  - destruct (Z.eqb_spec err (as_i32 TRONA_INTERRUPTED)) as [->|_]; [discriminate Hf|]. by rewrite drop_app_length.
Qed.

Lemma poll_pairs_map (ev : Z -> Z) fds :
  poll_pairs (map (fun fd => mkPollFd fd (ev fd) 0) fds) = fds ≫= fun fd => [as_u64 fd; as_u64 (ev fd)].
Proof. induction fds as [|fd fds IH]; [done|]. unfold poll_pairs in *. cbn [map]. rewrite !bind_cons. by rewrite IH. Qed.

Lemma length_filter_map {A B} (f : A -> B) (P : B -> bool) (Q : A -> bool) l :
  (forall a, P (f a) = Q a) -> length (List.filter P (map f l)) = length (List.filter Q l).
Proof. intros H. induction l as [|a l IH]; [done|]. cbn. rewrite H. destruct (Q a); cbn; by rewrite IH. Qed.

(** select.  Of the descriptors below [nfds] that are in one of the sets,
    the first eight are polled.  When the server answers with a non-negative
    count, each set that was given holds afterwards exactly the descriptors
    polled that the server reports as readable (data, hang-up or error), or as
    writable, and the result is the number of descriptors in at least one of
    them.  When it fails, the sets are unchanged and the result is an errno; when
    no descriptor is asked about, nothing is sent. *)
Theorem posix_select_spec nfds readfds writefds timeout p err reply w :
  let fds := take 8 (asked nfds readfds writefds) in
  let m := mk VFS_POSIX_POLL (2 + Z.of_nat (length fds) * 2)
             (Z.of_nat (length fds) :: as_u64 timeout :: (fds ≫= fun fd => [as_u64 fd; as_u64 (wanted readfds writefds fd)])) in
  t_call false (pr_w p) (vfs_ep eps) m = Some (err, reply, w) -> status err ->
  match fds with
  | [] => posix_select eps nfds readfds writefds timeout p = Some ((0, readfds, writefds), p)
  | _ =>
      let rep := reported fds reply in
      if failed err reply then
        exists r, -125 <= r < 0 /\ posix_select eps nfds readfds writefds timeout p = Some ((r, readfds, writefds), set_w p w)
      else if as_i32 (reg reply 0) <? 0 then
        posix_select eps nfds readfds writefds timeout p = Some ((as_i32 (reg reply 0), readfds, writefds), set_w p w)
      else exists readfds' writefds',
        posix_select eps nfds readfds writefds timeout p =
          Some ((Z.of_nat (length (List.filter (fun r => (given readfds && readable_event r.2) || (given writefds && writable_event r.2)) rep)),
                 readfds', writefds'), set_w p w) /\
        set_bits readfds readfds' readable_event rep /\ set_bits writefds writefds' writable_event rep
  end.
Proof.
  intros fds m Hcall Hst. subst m. unfold posix_select. rewrite polled_fds. fold fds. rewrite length_map.
  assert (length fds <= 8)%nat as Hl by (unfold fds; rewrite length_take; lia).
  assert (Forall (fun fd => 0 <= fd < 64) fds) as Hrange by apply Forall_take, asked_range.
  assert (forall fds', fds' = fds -> map (fun f => (pfd f, revents f))
    (set_revents reply (map (fun fd => mkPollFd fd (wanted readfds writefds fd) 0) fds')) = reported fds' reply) as Hrep
    by (intros ? ->; apply set_revents_reported).
  destruct fds as [|fd0 rest0] eqn:Efds; [done|]. rewrite <- Efds in *. specialize (Hrep _ eq_refl).
  rewrite (proj2 (Nat.eqb_neq (length fds) 0)) by (by rewrite Efds). clear Efds.
  set (ps := map _ fds). assert (length ps = length fds) as Hps by apply length_map.
  pose proof (posix_poll_run ps (replicate (8 - length fds) PollFd_zeroed) timeout p err reply w) as Hpoll.
  rewrite Hps, (poll_pairs_map (wanted readfds writefds) fds : poll_pairs ps = _) in Hpoll. specialize (Hpoll Hl Hcall Hst).
  destruct (failed err reply).
  { destruct Hpoll as (r & Hr & Hrun). exists r. split; [done|]. rewrite (bind_run _ _ _ _ _ Hrun).
    by rewrite (proj2 (Z.ltb_lt _ _)) by lia. }
  rewrite (bind_run _ _ _ _ _ Hpoll). destruct (_ <? 0); [done|].
  assert (length (set_revents reply ps) = length fds) as Hlr by (unfold set_revents; by rewrite length_imap).
  rewrite take_app_length' by done. rewrite rebuild_fold, Z.add_0_l. eexists _, _. split; [|split].
  - unfold mret, M_ret. rewrite <- Hrep. do 5 f_equal. rewrite (length_filter_map _ _ (hit (given readfds) (given writefds))) by done.
    by destruct readfds, writefds.
  - apply set_bits_fold; [|done]. by apply (set_revents_pfd _ _ (fun z => 0 <= z < 64)), Forall_map.
  - apply set_bits_fold; [|done]. by apply (set_revents_pfd _ _ (fun z => 0 <= z < 64)), Forall_map.
Qed.
End select.

(** A server that reports the events [evs] and as many descriptors. *)
Definition poll_server (evs : list Z) : Transport := {|
  tw := unit;
  t_call _ w _ _ := Some (0, mk TRONA_OK (1 + Z.of_nat (length evs)) (Z.of_nat (length evs) :: evs), w);
  t_call_once w _ _ := Some (0, mk TRONA_OK 0 [], w);
  t_syscall w _ _ _ := (mkResult 0 0, w);
  t_stage w _ := Some w;
  t_restart _ := false;
  t_read _ _ _ := None;
  t_write _ _ _ := None;
|}.

Definition poll_proc (evs : list Z) : @Proc (poll_server evs) := mkProc (poll_server evs) tt 0 0 0.

Lemma posix_select_spec_witness :
  exists readfds' writefds',
    posix_select (mkEps 1 2 3) 5 (Some 10) (Some 8) 0 (poll_proc [1; 20]) = Some ((2, readfds', writefds'), poll_proc [1; 20]) /\
    set_bits (Some 10) readfds' readable_event [(1, 1); (3, 20)] /\ set_bits (Some 8) writefds' writable_event [(1, 1); (3, 20)].
Proof.
  exact (posix_select_spec (T := poll_server [1; 20]) (mkEps 1 2 3) 5 (Some 10) (Some 8) 0 (poll_proc [1; 20]) 0
    (mk TRONA_OK 3 [2; 1; 20]) tt eq_refl ltac:(unfold status; lia)).
Defined.

(** A descriptor that is only waited on for writing shows up in the read set
    when it hangs up. *)
Lemma select_reports_unasked :
  posix_select (mkEps 1 2 3) 5 (Some 0) (Some 8) 0 (poll_proc [16]) = Some ((1, Some 8, Some 0), poll_proc [16]).
Proof. reflexivity. Qed.

(** The ninth descriptor is dropped from the sets without being polled. *)
Lemma select_drops_ninth :
  posix_select (mkEps 1 2 3) 9 (Some 511) None 0 (poll_proc (replicate 8 1)) =
    Some ((8, Some 255, None), poll_proc (replicate 8 1)).
Proof. reflexivity. Qed.
