(* ===== verification/ProcTheorems.v ===== *)
(** Process operations: what the process manager can recover from a request to
    execute a program or to set the groups, and the arithmetic of the clocks. *)

From S2P Require Import Prelude Consts Kernel Ipc PosixCall Protocol PosixClient PosixProc PosixFile FileSpec PosixPoll.

(** ** Strings *)

Definition nul_free (s : list Z) : Prop := Forall (fun b => 0 < b < 256) s.

(** The strings of a payload, each ended by a NUL. *)
Fixpoint split_nul (cur payload : list Z) : option (list (list Z)) :=
  match payload with
  | [] => match cur with [] => Some [] | _ => None end
  | b :: rest => if b =? 0 then cons cur <$> split_nul [] rest else split_nul (cur ++ [b]) rest
  end.

Lemma split_nul_one s rest : forall cur, nul_free s ->
  split_nul cur (s ++ 0 :: rest) = cons (cur ++ s) <$> split_nul [] rest.
Proof.
  induction s as [|b s IH]; intros cur Hs; cbn [app split_nul].
  - by rewrite app_nil_r.
  - apply Forall_cons in Hs as [Hb Hs]. rewrite (proj2 (Z.eqb_neq b 0)) by lia.
    rewrite IH by done. by rewrite <- app_assoc.
Qed.

Lemma split_nul_strings strs : Forall nul_free strs -> split_nul [] (strs ≫= with_nul) = Some strs.
Proof.
  induction 1 as [|s strs Hs _ IH]; [done|]. rewrite bind_cons. unfold with_nul at 1. rewrite <- app_assoc. cbn [app].
  by rewrite split_nul_one, IH.
Qed.

Lemma c_string_spec s junk : nul_free s -> c_string (s ++ 0 :: junk) = Some s.
Proof.
  induction 1 as [|b s Hb _ IH]; cbn [app c_string]; [done|]. rewrite (proj2 (Z.eqb_neq b 0)) by lia. by rewrite IH.
Qed.

(** The memory behind a pointer to a string. *)
Definition holds (mem s : list Z) : Prop := exists junk, mem = s ++ 0 :: junk.

(** [v] is null and there are no strings, or points to them. *)
Definition vector (v : option (list (list Z))) (strs : list (list Z)) : Prop :=
  match v with None => strs = [] | Some mems => Forall2 holds mems strs end.

Lemma c_strings_spec v strs : vector v strs -> Forall nul_free strs -> c_strings v = Some strs.
Proof.
  destruct v as [mems|]; cbn [vector c_strings]; [|by intros ->].
  induction 1 as [|mem s mems strs [junk ->] _ IH]; intros Hs; [done|].
  apply Forall_cons in Hs as [Hs Hss]. cbn [mapM]. rewrite c_string_spec by done. cbn. by rewrite IH.
Qed.

Lemma scan64_spec s junk : forall limit, nul_free s -> (length s <= limit)%nat -> scan64 limit (s ++ 0 :: junk) = Some (length s).
Proof.
  induction s as [|b s IH]; intros [|limit] Hs Hl; cbn [app scan64 length] in *; try (done || lia).
  apply Forall_cons in Hs as [Hb Hs]. rewrite (proj2 (Z.eqb_neq b 0)) by lia. rewrite IH by (done || lia). done.
Qed.

(** ** The request to execute a program *)

(** What the receiver reads: the path, then the arguments and the environment
    from the payload. *)
Definition exec_request (m : TronaMsg) (payload : list Z) : option (list Z * list (list Z) * list (list Z)) :=
  path ← msg_bytes m 1 (reg m 0);
  let next := (1 + Z.to_nat (words (Z.to_nat (reg m 0))))%nat in
  let argc := Z.shiftr (reg m next) 32 in
  let envc := reg m next mod 2 ^ 32 in
  strs ← split_nul [] (take (Z.to_nat (reg m (S next))) payload);
  if Z.of_nat (length strs) =? argc + envc
  then Some (path, take (Z.to_nat argc) strs, drop (Z.to_nat argc) strs) else None.

Lemma nul_free_bytes s : nul_free s -> Forall byte s.
Proof. intros Hs. eapply Forall_impl; [exact Hs|]. unfold byte. cbn. lia. Qed.

(** Bytes of registers below [n] do not depend on later ones. *)
Lemma msg_bytes_prefix m m' r n len :
  take n (drop r (regs m)) = take n (drop r (regs m')) -> length (regs m) = length (regs m') -> len <= Z.of_nat (8 * n) ->
  msg_bytes m r len = msg_bytes m' r len.
Proof.
  intros Ht Hl Hn. unfold msg_bytes. rewrite !length_regs_bytes, !length_drop, Hl. case_if; [|done]. f_equal.
  apply (f_equal regs_bytes) in Ht. rewrite !regs_bytes_take in Ht.
  rewrite <- (Nat.min_l (Z.to_nat len) (8 * n)), <- !take_take by lia. by rewrite Ht.
Qed.

Lemma words_room n : Z.of_nat n <= 8 * words n.
Proof. unfold words. pose proof (Z.div_mod (Z.of_nat n + 7) 8). pose proof (Z.mod_pos_bound (Z.of_nat n + 7) 8). lia. Qed.

(** Two halves of a word. *)
Lemma lor_halves k a b : 0 <= k -> 0 <= b < 2 ^ k -> Z.lor (Z.shiftl a k) b = a * 2 ^ k + b.
Proof.
  intros Hk Hb. rewrite <- Z.shiftl_mul_pow2 by done.
  assert (Z.land (Z.shiftl a k) b = 0) as Hz.
  { apply Z.bits_inj'. intros i Hi. rewrite Z.land_spec, Z.bits_0. destruct (Z_lt_dec i k).
    - by rewrite Z.shiftl_spec_low.
    - by rewrite (testbit_high k b), andb_false_r by lia. }
  by rewrite (Z.add_nocarry_lxor _ _ Hz), Z.lxor_lor.
Qed.

Lemma exec_msg_spec path argc envc total :
  Forall byte path -> (length path <= 64)%nat -> 0 <= argc < 2 ^ 32 -> 0 <= envc < 2 ^ 32 ->
  let m := exec_msg path argc envc total in
  let next := (1 + Z.to_nat (words (length path)))%nat in
  reg m 0 = Z.of_nat (length path) /\ msg_bytes m 1 (reg m 0) = Some path /\
  Z.shiftr (reg m next) 32 = argc /\ reg m next mod 2 ^ 32 = envc /\ reg m (S next) = total.
Proof.
  intros Hb Hl Ha He m next.
  assert (0 <= words (length path) <= 8) as Hw
    by (unfold words; split; [apply Z.div_pos; lia|apply Z.lt_succ_r, Z.div_lt_upper_bound; lia]).
  pose proof (words_room (length path)) as Hroom.
  set (m0 := data_msg PM_EXEC [Z.of_nat (length path)] path).
  set (v := Z.lor (Z.shiftl (as_u32 argc) 32) (as_u32 envc)).
  assert (regs m = <[S next := total]> (<[next := v]> (regs m0))) as Hregs by done.
  assert (length (regs m0) = 32%nat) as Hlen by (cbn [m0 data_msg regs]; rewrite length_copy_path; apply length_mk; cbn; lia).
  assert (reg m 0 = Z.of_nat (length path)) as H0.
  { unfold reg. rewrite Hregs, !list_lookup_insert_ne by lia. change (reg m0 0 = Z.of_nat (length path)).
    unfold m0. by rewrite reg_data_msg by (cbn; lia). }
  assert (reg m next = v) as Hnext.
  { unfold reg. rewrite Hregs, list_lookup_insert_ne, list_lookup_insert_eq by lia. done. }
  assert (v = argc * 2 ^ 32 + envc) as Hv.
  { unfold v, as_u32. rewrite !wrap_small by lia. apply lor_halves; lia. }
  split_and!.
  - done.
  - rewrite H0, (msg_bytes_prefix m m0 1 (Z.to_nat (words (length path)))).
    + apply (data_msg_bytes PM_EXEC [_]); [done|cbn; lia].
    + rewrite Hregs, !drop_insert_ge by lia. by rewrite !take_insert_ge by lia.
    + by rewrite Hregs, !length_insert.
    + lia.
  - rewrite Hnext, Hv, Z.shiftr_div_pow2, Z.div_add_l, Z.div_small by lia. lia.
  - rewrite Hnext, Hv, Z.add_comm, Z.mod_add, Z.mod_small by lia. done.
  - unfold reg. rewrite Hregs, list_lookup_insert_eq; [done|]. rewrite length_insert. lia.
Qed.

Lemma payload_length strs : (length strs <= length (strs ≫= with_nul))%nat.
Proof.
  induction strs as [|s strs IH]; [done|]. rewrite bind_cons, length_app. unfold with_nul at 1.
  rewrite length_app. cbn [length]. lia.
Qed.

(** The decoded request, for strings that fit the payload area. *)
Lemma exec_request_spec path args envs :
  nul_free path -> (length path <= 64)%nat -> Forall nul_free args -> Forall nul_free envs ->
  let payload := (args ++ envs) ≫= with_nul in
  Z.of_nat (length payload) <= IPC_BUFFER_RESERVED_BYTES ->
  exec_request (exec_msg path (Z.of_nat (length args)) (Z.of_nat (length envs)) (Z.of_nat (length payload))) payload =
    Some (path, args, envs).
Proof.
  intros Hp Hl Ha He payload Hfit. pose proof (payload_length (args ++ envs)) as Hn. rewrite length_app in Hn.
  change IPC_BUFFER_RESERVED_BYTES with 3720 in Hfit. fold payload in Hn.
  destruct (exec_msg_spec path (Z.of_nat (length args)) (Z.of_nat (length envs)) (Z.of_nat (length payload)))
    as (H0 & Hbytes & Hargc & Henvc & Htot); [by apply nul_free_bytes|done|lia|lia|].
  unfold exec_request. rewrite Hbytes. cbn [mbind option_bind]. rewrite H0, Nat2Z.id, Htot, Hargc, Henvc, !Nat2Z.id, firstn_all.
  unfold payload at 1. rewrite split_nul_strings by (by apply Forall_app_2). cbn [mbind option_bind].
  rewrite length_app, (proj2 (Z.eqb_eq _ _)) by lia. by rewrite take_app_length, drop_app_length.
Qed.

Section exec.
Context `{T : Transport} (eps : Endpoints).

(** The errno of an answer to the request. *)
Definition exec_result (err : Z) (reply : TronaMsg) : Z :=
  if negb (err =? 0) then call_err_to_posix err
  else if label reply =? TRONA_OUT_OF_RANGE then E2BIG
  else if failed err reply then io_error err reply else 0.

End exec.

(** ** Groups *)

(** What the receiver unpacks. *)
Fixpoint unpack_groups (n : nat) (regs : list Z) : list Z :=
  match n, regs with
  | S (S n'), r :: rest => r mod 2 ^ 32 :: Z.shiftr r 32 :: unpack_groups n' rest
  | S O, r :: _ => [r mod 2 ^ 32]
  | _, _ => []
  end.

Lemma group_word lo hi : u32 lo -> u32 hi ->
  Z.lor lo (hi << 32)%u64 mod 2 ^ 32 = lo /\ Z.shiftr (Z.lor lo (hi << 32)%u64) 32 = hi.
Proof.
  unfold u32, in_u. intros Hlo Hhi. rewrite wrap_small by (rewrite Z.shiftl_mul_pow2; lia).
  rewrite Z.lor_comm, lor_halves by lia. split.
  - rewrite Z.add_comm, Z.mod_add, Z.mod_small by lia. done.
  - rewrite Z.shiftr_div_pow2, Z.div_add_l, Z.div_small by lia. lia.
Qed.

Lemma groups_roundtrip gs : Forall u32 gs -> unpack_groups (length gs) (pack_groups gs) = gs.
Proof.
  revert gs. fix IH 1. intros [|lo [|hi rest]] Hg; [done| |].
  - apply Forall_cons in Hg as [Hlo _]. cbn [length pack_groups unpack_groups].
    by rewrite (proj1 (group_word lo 0 Hlo ltac:(unfold u32, in_u; lia))).
  - apply Forall_cons in Hg as [Hlo Hg]. apply Forall_cons in Hg as [Hhi Hg]. cbn [length pack_groups unpack_groups].
    destruct (group_word lo hi Hlo Hhi) as [-> ->]. by rewrite IH.
Qed.

(** ** Clocks *)

(** The seconds and the fraction add up to the kernel's nanoseconds, and the
    fraction is less than a second. *)
Lemma clock_gettime_spec `{T : Transport} clock ts p r w :
  t_syscall (pr_w p) SYS_CLOCK_GETTIME (as_u64 clock) 0 = (r, w) -> error r = 0 -> u64 (value r) ->
  exists t, posix_clock_gettime clock ts p = Some ((0, t), set_w p w) /\
    ts_sec t * NSEC_PER_SEC + ts_nsec t = value r /\ 0 <= ts_nsec t < NSEC_PER_SEC.
Proof.
  intros Hs Hok Hv. unfold posix_clock_gettime, mbind, M_bind, sys. rewrite Hs. cbn. rewrite Hok. cbn.
  eexists. split; [reflexivity|]. cbn. pose proof (Z.div_mod (value r) NSEC_PER_SEC ltac:(done)).
  pose proof (Z.mod_pos_bound (value r) NSEC_PER_SEC ltac:(done)). lia.
Qed.

(** [usleep] asks for exactly its microseconds, with a normal fraction. *)
Lemma usleep_spec `{T : Transport} usec p :
  u64 usec -> exists sec nsec r w,
    t_syscall (pr_w p) SYS_NANOSLEEP sec nsec = (r, w) /\ sec * NSEC_PER_SEC + nsec = usec * 1000 /\ 0 <= nsec < NSEC_PER_SEC /\
    posix_usleep usec p = Some (if error r =? 0 then 0 else -1, set_w p w).
Proof.
  intros Hu. pose proof (Z.div_mod usec 1000000). pose proof (Z.mod_pos_bound usec 1000000). unfold NSEC_PER_SEC.
  destruct (t_syscall (pr_w p) SYS_NANOSLEEP (usec / 1000000) (usec mod 1000000 * 1000)) as [r w] eqn:E.
  exists (usec / 1000000), (usec mod 1000000 * 1000), r, w. split; [done|]. split_and!; try lia.
  unfold posix_usleep, mbind, M_bind, sys. rewrite E. cbn. by destruct (error r =? 0).
Qed.

(** ** The theorem at work *)

