(* ===== verification/Dns.v ===== *)
(** The DNS client ([src/posix/dns.rs]): numeric addresses, and name resolution
    through the DNS server, whose endpoint is looked up once and kept. *)

From S2P Require Import Prelude Consts Kernel Ipc PosixCall Protocol PosixClient PosixProc PosixFile FileSpec PosixPoll ProcTheorems.

(** ** Numeric addresses *)

Definition DOT : Z := 46.
Definition DIGIT0 : Z := 48.

(** The value of four octets. *)
Definition ipv4 (os : list Z) : option Z :=
  match os with
  | [a; b; c; d] => Some (Z.lor (Z.lor (Z.lor (wrap 32 (Z.shiftl a 24)) (wrap 32 (Z.shiftl b 16))) (wrap 32 (Z.shiftl c 8))) d)
  | _ => None
  end.

(** The loop over the bytes; [octets] are those already complete. *)
Fixpoint parse_ipv4_loop (s : list Z) (octets : list Z) (cur digits : Z) : option Z :=
  match s with
  | [] =>
      if (digits =? 0) || negb (length octets =? 3)%nat || (cur >? 255) then None
      else ipv4 (octets ++ [cur])
  | b :: rest =>
      if b =? DOT then
        if (digits =? 0) || (3 <=? length octets)%nat then None
        else if cur >? 255 then None
        else parse_ipv4_loop rest (octets ++ [cur]) 0 0
      else if (DIGIT0 <=? b) && (b <=? 57) then
        let cur := as_u32 (cur * 10 + (b - DIGIT0)) in
        let digits := digits + 1 in
        if digits >? 3 then None else parse_ipv4_loop rest octets cur digits
      else None
  end.

Definition parse_ipv4_numeric (s : list Z) : option Z := parse_ipv4_loop s [] 0 0.

(** ** Resolution *)

Definition DNS_MAX_RESULTS : nat := 4.
Definition AF_INET : Z := 2.
Definition SOCK_STREAM : Z := 1.
Definition IPPROTO_TCP : Z := 6.

Record DnsResult := mkDns { dns_count : Z; dns_ttl : Z; dns_addrs : list Z }.
Definition DnsResult_zeroed : DnsResult := mkDns 0 0 (replicate DNS_MAX_RESULTS 0).

Record SockAddrIn := mkSockAddr { sa_family : Z; sa_port : Z; sa_addr : Z }.
Record DnsAddrInfo := mkAddrInfo { ai_family : Z; ai_socktype : Z; ai_protocol : Z; ai_addr : SockAddrIn }.

(** [static mut DNSSRV_EP], [DNSSRV_LOOKUP_SLOT]. *)
Record DnsState := mkDnsState { dnssrv_ep : Cap; lookup_slot : Cap }.

(** [Result<A, u64>] *)
Inductive result (A : Type) := Ok (a : A) | Err (e : Z).
Arguments Ok {A} a.
Arguments Err {A} e.

Definition is_ok {A} (r : result A) : bool := match r with Ok _ => true | Err _ => false end.

Section dns.
Context `{Transport} (namesrv : Cap).
(** A capability slot from the allocator; a slot emptied and made the receive
    slot of the next call. *)
Context (slot_alloc : M (option Cap)) (receive_into : Cap -> M unit).

(** "dnssrv" *)
Definition DNSSRV_NAME : list Z := [100; 110; 115; 115; 114; 118].

Definition resolve_dnssrv_ep (d : DnsState) : M (result Cap * DnsState) :=
  if negb (dnssrv_ep d =? 0) then mret (Ok (dnssrv_ep d), d)
  else
    slot ← (if negb (lookup_slot d =? 0) then mret (Some (lookup_slot d)) else slot_alloc);
    match slot with
    | None => mret (Err TRONA_OUT_OF_MEMORY, d)
    | Some ep_slot =>
        let d := mkDnsState (dnssrv_ep d) ep_slot in
        _ ← receive_into ep_slot;
        r ← call true namesrv (data_msg NS_LOOKUP [Z.of_nat (length DNSSRV_NAME)] DNSSRV_NAME);
        let '(err, reply) := r in
        mret (if negb (err =? 0) then (Err (as_u64 err), d)
              else if negb (label reply =? TRONA_OK) then (Err (label reply), d)
              else (Ok ep_slot, mkDnsState ep_slot ep_slot))
    end.

(** The addresses of a reply: [count] of them, the rest of the array zero. *)
Definition reply_addrs (reply : TronaMsg) (count : Z) : list Z :=
  map (fun i => if Z.of_nat i <? count then as_u32 (reg reply (2 + i)) else 0) (seq 0 DNS_MAX_RESULTS).

Definition dns_resolve_multi_result_with_ep (hostname : list Z) (ep : Cap) : M (result DnsResult) :=
  if (length hostname =? 0)%nat || (120 <? length hostname)%nat then mret (Err TRONA_INVALID_ARGUMENT)
  else
    r ← call true ep (data_msg DNS_RESOLVE [Z.of_nat (length hostname)] hostname);
    let '(err, reply) := r in
    mret (if negb (err =? 0) then Err (as_u64 err)
          else if negb (label reply =? TRONA_OK) then Err (label reply)
          else
            let ip_count := as_u32 (reg reply 0) in
            if ip_count =? 0 then Err TRONA_NOT_FOUND
            else
              let count := if ip_count >? Z.of_nat DNS_MAX_RESULTS then Z.of_nat DNS_MAX_RESULTS else ip_count in
              Ok (mkDns count (as_u32 (reg reply 1)) (reply_addrs reply count))).

Definition dns_resolve_multi_result (hostname : list Z) (d : DnsState) : M (result DnsResult * DnsState) :=
  r ← resolve_dnssrv_ep d;
  match r with
  | (Err e, d) => mret (Err e, d)
  | (Ok ep, d) => r ← dns_resolve_multi_result_with_ep hostname ep; mret (r, d)
  end.

Definition first_addr (r : DnsResult) : Z := default 0 (dns_addrs r !! 0%nat).

Definition dns_resolve_with_ep (hostname : list Z) (ep : Cap) : M Z :=
  r ← dns_resolve_multi_result_with_ep hostname ep;
  mret (match r with
        | Ok res => if dns_count res >? 0 then first_addr res else 0
        | Err _ => 0
        end).

Definition dns_resolve (hostname : list Z) (d : DnsState) : M (Z * DnsState) :=
  r ← resolve_dnssrv_ep d;
  match r with
  | (Ok ep, d) => ip ← dns_resolve_with_ep hostname ep; mret (ip, d)
  | (Err _, d) => mret (0, d)
  end.

Definition dns_resolve_multi_with_ep (hostname : list Z) (ep : Cap) : M DnsResult :=
  r ← dns_resolve_multi_result_with_ep hostname ep;
  mret (match r with Ok res => res | Err _ => DnsResult_zeroed end).

Definition dns_resolve_multi (hostname : list Z) (d : DnsState) : M (DnsResult * DnsState) :=
  r ← resolve_dnssrv_ep d;
  match r with
  | (Ok ep, d) => res ← dns_resolve_multi_with_ep hostname ep; mret (res, d)
  | (Err _, d) => mret (DnsResult_zeroed, d)
  end.

(** [while *name.add(len) != 0 && len < limit]: a fault past the memory; [None]
    among the results: a null pointer, an empty or a too long name. *)
Definition hostname_from_cstr (name : option (list Z)) : option (option (list Z)) :=
  match name with
  | None => Some None
  | Some mem =>
      len ← scan64 120 mem;
      Some (if (len =? 0)%nat || (120 <=? len)%nat then None else Some (take len mem))
  end.

(** [result] is [None] for a null pointer. *)
Definition posix_getaddrinfo (node : option (list Z)) (res : option DnsAddrInfo) (d : DnsState)
    : M (Z * option DnsAddrInfo * DnsState) :=
  match node, res with
  | Some mem, Some _ =>
      h ← lift (hostname_from_cstr (Some mem));
      match h with
      | None => mret (-1, res, d)
      | Some hostname =>
          r ← dns_resolve hostname d;
          let '(ip, d) := r in
          mret (if ip =? 0 then (-1, res, d)
                else (0, Some (mkAddrInfo AF_INET SOCK_STREAM IPPROTO_TCP (mkSockAddr AF_INET 0 ip)), d))
      end
  | _, _ => mret (-1, res, d)
  end.

Definition posix_gethostbyname_result (name : option (list Z)) (d : DnsState) : M (result Z * DnsState) :=
  h ← lift (hostname_from_cstr name);
  match h with
  | None => mret (Err TRONA_INVALID_ARGUMENT, d)
  | Some hostname =>
      r ← dns_resolve_multi_result hostname d;
      mret (match r with
            | (Err e, d) => (Err e, d)
            | (Ok res, d) => if dns_count res =? 0 then (Err TRONA_NOT_FOUND, d) else (Ok (first_addr res), d)
            end)
  end.

Definition posix_gethostbyname (name : option (list Z)) (d : DnsState) : M (Z * DnsState) :=
  r ← posix_gethostbyname_result name d;
  mret (match r with (Ok ip, d) => (ip, d) | (Err _, d) => (0, d) end).

(** [out] is [None] for a null pointer. *)
Definition dns_reverse_lookup (ip : Z) (out : option (list Z)) (hostname_max : Z) (d : DnsState)
    : M (Z * option (list Z) * DnsState) :=
  r ← resolve_dnssrv_ep d;
  match r with
  | (Err _, d) => mret (0, out, d)
  | (Ok ep, d) =>
      r ← call true ep (mk DNS_REVERSE_LOOKUP 1 [ip]);
      let '(err, reply) := r in
      if failed err reply then mret (0, out, d)
      else
        let copy_len := Z.min (reg reply 0) hostname_max in
        if copy_len >? 0 then
          match out with
          | None => mret (0, None, d)
          | Some buf =>
              bytes ← lift (msg_bytes reply 1 copy_len);
              buf ← lift (put buf 0 bytes);
              mret (copy_len, Some buf, d)
          end
        else mret (copy_len, out, d)
  end.

Definition dns_cache_flush (d : DnsState) : M DnsState :=
  r ← resolve_dnssrv_ep d;
  match r with
  | (Err _, d) => mret d
  | (Ok ep, d) => _ ← call_once ep (mk DNS_CACHE_FLUSH 0 []); mret d
  end.
End dns.

(** * Addresses and replies: the theorems *)

(** ** Numeric addresses *)

Definition digit (b : Z) : Prop := 48 <= b <= 57.

(** The number a string of digits stands for, after the number [n]. *)
Definition dec_from (n : Z) (l : list Z) : Z := foldl (fun acc b => acc * 10 + (b - 48)) n l.
Definition dec (l : list Z) : Z := dec_from 0 l.

(** One to three digits, at most 255. *)
Definition octet (l : list Z) (v : Z) : Prop :=
  (1 <= length l <= 3)%nat /\ Forall digit l /\ dec l = v /\ v <= 255.

(** [s] is the dotted form of [ip]. *)
Definition dotted (s : list Z) (ip : Z) : Prop :=
  exists a b c d va vb vc vd,
    octet a va /\ octet b vb /\ octet c vc /\ octet d vd /\
    s = a ++ DOT :: b ++ DOT :: c ++ DOT :: d /\ ip = va * 2 ^ 24 + vb * 2 ^ 16 + vc * 2 ^ 8 + vd.

Lemma dec_from_bound n l : 0 <= n -> Forall digit l -> n * 10 ^ Z.of_nat (length l) <= dec_from n l < (n + 1) * 10 ^ Z.of_nat (length l).
Proof.
  revert n. induction l as [|b l IH]; intros n Hn Hl; [cbn; lia|].
  apply Forall_cons in Hl as [Hb Hl]. unfold digit in Hb. cbn [dec_from foldl length].
  specialize (IH (n * 10 + (b - 48)) ltac:(lia) Hl). rewrite Nat2Z.inj_succ, Z.pow_succ_r by lia. unfold dec_from in *. nia.
Qed.

Lemma octet_bound l v : octet l v -> 0 <= v <= 255.
Proof. intros (_ & Hd & <- & ?). split; [|done]. pose proof (dec_from_bound 0 l ltac:(lia) Hd). unfold dec. lia. Qed.

(** A run of digits. *)
Lemma loop_digits l rest : forall os cur dg, Forall digit l -> 0 <= cur -> cur < 10 ^ dg -> 0 <= dg -> dg + Z.of_nat (length l) <= 3 ->
  parse_ipv4_loop (l ++ rest) os cur dg = parse_ipv4_loop rest os (dec_from cur l) (dg + Z.of_nat (length l)).
Proof.
  induction l as [|b l IH]; intros os cur dg Hl Hc Hc' Hdg Hlen; cbn [app dec_from foldl length].
  - by rewrite Z.add_0_r.
  - apply Forall_cons in Hl as [Hb Hl]. unfold digit in Hb. cbn [length] in Hlen. cbn [parse_ipv4_loop].
    assert (10 ^ dg <= 10 ^ 2) by (apply Z.pow_le_mono_r; lia).
    rewrite (proj2 (Z.eqb_neq b DOT)) by (unfold DOT; lia).
    rewrite (proj2 (Z.leb_le DIGIT0 b)), (proj2 (Z.leb_le b 57)) by (unfold DIGIT0; lia). cbn [andb].
    rewrite Z.gtb_ltb, (proj2 (Z.ltb_ge _ _)) by lia. unfold as_u32, DIGIT0. rewrite wrap_small by lia.
    rewrite IH; [f_equal; lia|done|lia| |lia|lia]. rewrite Z.pow_add_r by lia. lia.
Qed.

Local Ltac natb := repeat match goal with
  | H : (_ =? _)%nat = true |- _ => apply Nat.eqb_eq in H
  | H : (_ <=? _)%nat = false |- _ => apply Nat.leb_gt in H
  end.

(** What the loop accepts from any state: digits up to a dot or the end. *)
Lemma loop_inv s : forall os cur dg ip, 0 <= cur < 10 ^ dg -> 0 <= dg <= 3 ->
  parse_ipv4_loop s os cur dg = Some ip ->
  exists l tail, s = l ++ tail /\ Forall digit l /\ 1 <= dg + Z.of_nat (length l) <= 3 /\ dec_from cur l <= 255 /\
    ((tail = [] /\ length os = 3%nat /\ ipv4 (os ++ [dec_from cur l]) = Some ip) \/
     exists s', tail = DOT :: s' /\ (length os < 3)%nat /\ parse_ipv4_loop s' (os ++ [dec_from cur l]) 0 0 = Some ip).
Proof.
  induction s as [|b s IH]; intros os cur dg ip Hc Hdg; cbn [parse_ipv4_loop].
  - case_if; [done|]. intros Hip. exists [], []. cbn. bprop.
    natb. split_and!; try done; try lia. left. done.
  - destruct (Z.eqb_spec b DOT) as [->|Hb].
    + case_if; [done|]. case_if; [done|]. intros Hip. exists [], (DOT :: s). cbn. bprop. natb.
      split_and!; try done; try lia. right. by exists s.
    + case_if; [|done]. case_if; [done|]. unfold as_u32, DIGIT0 in *. bprop. intros Hip.
      assert (10 ^ dg <= 10 ^ 2) by (apply Z.pow_le_mono_r; lia).
      rewrite wrap_small in Hip by lia.
      destruct (IH os (cur * 10 + (b - 48)) (dg + 1) ip ltac:(rewrite Z.pow_add_r; lia) ltac:(lia) Hip) as (l & tail & -> & Hl & Hlen & Hv & Ht).
      exists (b :: l), tail. split_and!; try done; try (cbn [length]; lia).
      constructor; [unfold digit; lia|done].
Qed.

(** The bits of the four octets do not overlap. *)
Lemma ipv4_value a b c d : 0 <= a <= 255 -> 0 <= b <= 255 -> 0 <= c <= 255 -> 0 <= d <= 255 ->
  ipv4 [a; b; c; d] = Some (a * 2 ^ 24 + b * 2 ^ 16 + c * 2 ^ 8 + d).
Proof.
  intros Ha Hb Hc Hd. unfold ipv4. rewrite !wrap_small by (rewrite Z.shiftl_mul_pow2; lia).
  rewrite <- !Z.lor_assoc, (lor_halves 8 c d), (lor_halves 16 b), (lor_halves 24 a) by lia. f_equal. lia.
Qed.

Lemma parse_ipv4_sound s ip : parse_ipv4_numeric s = Some ip -> dotted s ip.
Proof.
  intros H. unfold parse_ipv4_numeric in H.
  destruct (loop_inv s [] 0 0 ip ltac:(lia) ltac:(lia) H) as (a & t & -> & Ha & Hla & Hva & [(_ & [=] & _)|(s1 & -> & _ & H1)]).
  destruct (loop_inv s1 _ 0 0 ip ltac:(lia) ltac:(lia) H1) as (b & t & -> & Hb & Hlb & Hvb & [(_ & [=] & _)|(s2 & -> & _ & H2)]).
  destruct (loop_inv s2 _ 0 0 ip ltac:(lia) ltac:(lia) H2) as (c & t & -> & Hc & Hlc & Hvc & [(_ & [=] & _)|(s3 & -> & _ & H3)]).
  destruct (loop_inv s3 _ 0 0 ip ltac:(lia) ltac:(lia) H3) as (d & t & -> & Hd & Hld & Hvd & [(-> & _ & Hip)|(s4 & _ & Hl & _)]).
  2:{ cbn in Hl. lia. }
  assert (octet a (dec a) /\ octet b (dec b) /\ octet c (dec c) /\ octet d (dec d)) as (Oa & Ob & Oc & Od)
    by (unfold octet, dec; split_and!; done || lia).
  exists a, b, c, d, (dec a), (dec b), (dec c), (dec d). rewrite app_nil_r. split_and!; try done.
  cbn [app] in Hip. rewrite ipv4_value in Hip by (eapply octet_bound; done). by injection Hip as <-.
Qed.

Lemma parse_ipv4_complete s ip : dotted s ip -> parse_ipv4_numeric s = Some ip.
Proof.
  intros (a & b & c & d & va & vb & vc & vd & Oa & Ob & Oc & Od & -> & ->).
  assert (forall l v rest os, octet l v ->
    parse_ipv4_loop (l ++ rest) os 0 0 = parse_ipv4_loop rest os v (Z.of_nat (length l))) as Hstep.
  { intros l v rest os ((? & ?) & Hl & <- & ?). rewrite loop_digits by (done || lia). done. }
  assert (forall l v rest os, octet l v -> (length os < 3)%nat ->
    parse_ipv4_loop (DOT :: rest) os v (Z.of_nat (length l)) = parse_ipv4_loop rest (os ++ [v]) 0 0) as Hdot.
  { intros l v rest os ((? & ?) & _ & _ & ?) Hos. cbn [parse_ipv4_loop].
    rewrite Z.eqb_refl, (proj2 (Z.eqb_neq _ 0)), (proj2 (Nat.leb_gt _ _) Hos), Z.gtb_ltb, (proj2 (Z.ltb_ge _ _)) by lia. done. }
  unfold parse_ipv4_numeric. rewrite (Hstep a va), (Hdot a va), (Hstep b vb), (Hdot b vb), (Hstep c vc), (Hdot c vc) by (done || (cbn; lia)).
  rewrite <- (app_nil_r d), (Hstep d vd) by done. destruct Od as ((? & ?) & ? & <- & ?). cbn [parse_ipv4_loop app].
  rewrite (proj2 (Z.eqb_neq _ 0)), Z.gtb_ltb, (proj2 (Z.ltb_ge _ _)) by lia. cbn [length Nat.eqb negb orb].
  apply ipv4_value; by eapply octet_bound.
Qed.

(** C32: the parser of numeric addresses is exact.  [parse_ipv4_numeric] accepts a
    string of bytes if and only if it consists of four decimal numbers of one to
    three digits, each at most 255, separated by dots, and then returns the
    address with the first number in the highest byte. *)
Theorem parse_ipv4_exact s ip : parse_ipv4_numeric s = Some ip <-> dotted s ip.
Proof. split; [apply parse_ipv4_sound|apply parse_ipv4_complete]. Qed.

(** Decimal without leading zeros. *)
Definition show_octet (n : Z) : list Z :=
  if n <? 10 then [48 + n]
  else if n <? 100 then [48 + n / 10; 48 + n mod 10]
  else [48 + n / 100; 48 + n / 10 mod 10; 48 + n mod 10].

Definition show_ipv4 (ip : Z) : list Z :=
  show_octet (ip / 2 ^ 24) ++ DOT :: show_octet (ip / 2 ^ 16 mod 256) ++ DOT ::
  show_octet (ip / 2 ^ 8 mod 256) ++ DOT :: show_octet (ip mod 256).

Lemma show_octet_spec n : 0 <= n <= 255 -> octet (show_octet n) n.
Proof.
  intros Hn.
  assert (forallb (fun n => bool_decide (Forall (fun b => 48 <= b <= 57) (show_octet n)) && (dec (show_octet n) =? n)
    && (1 <=? length (show_octet n))%nat && (length (show_octet n) <=? 3)%nat) (seqZ 0 256) = true) as H by (vm_compute; reflexivity).
  rewrite forallb_forall in H. specialize (H n (proj1 (list_elem_of_In _ _) (proj2 (elem_of_seqZ 0 256 n) ltac:(lia)))).
  apply andb_true_iff in H as [H H3]. apply andb_true_iff in H as [H H2]. apply andb_true_iff in H as [H0 H1].
  apply bool_decide_eq_true in H0. apply Nat.leb_le in H2, H3. apply Z.eqb_eq in H1. split_and!; done || lia.
Qed.

(** Every address is read back from its dotted form. *)
Lemma ipv4_roundtrip ip : u32 ip -> parse_ipv4_numeric (show_ipv4 ip) = Some ip.
Proof.
  unfold u32, in_u. intros Hip. apply parse_ipv4_complete.
  pose proof (Z.mod_pos_bound ip 256). pose proof (Z.mod_pos_bound (ip / 2 ^ 8) 256). pose proof (Z.mod_pos_bound (ip / 2 ^ 16) 256).
  assert (0 <= ip / 2 ^ 24 < 256) by (split; [apply Z.div_pos; lia|apply Z.div_lt_upper_bound; lia]).
  exists (show_octet (ip / 2 ^ 24)), (show_octet (ip / 2 ^ 16 mod 256)), (show_octet (ip / 2 ^ 8 mod 256)), (show_octet (ip mod 256)),
    (ip / 2 ^ 24), (ip / 2 ^ 16 mod 256), (ip / 2 ^ 8 mod 256), (ip mod 256). do 4 (split; [apply show_octet_spec; lia|]). split; [done|].
  pose proof (Z.div_mod ip 256). pose proof (Z.div_mod (ip / 2 ^ 8) 256). pose proof (Z.div_mod (ip / 2 ^ 16) 256).
  assert (ip / 2 ^ 8 / 256 = ip / 2 ^ 16) by (rewrite Z.div_div; [done|lia|lia]).
  assert (ip / 2 ^ 16 / 256 = ip / 2 ^ 24) by (rewrite Z.div_div; [done|lia|lia]).
  change (2 ^ 8) with 256 in *. change (2 ^ 16) with 65536 in *. change (2 ^ 24) with 16777216 in *. lia.
Qed.

(** ** Resolution *)

Section resolve.
Context `{T : Transport} (namesrv : Cap) (slot_alloc : M (option Cap)) (receive_into : Cap -> M unit).

Local Abbreviation resolve := (resolve_dnssrv_ep namesrv slot_alloc receive_into).

(** Once the server is known nothing is sent to find it. *)
Lemma resolve_cached d p : dnssrv_ep d <> 0 -> resolve d p = Some ((Ok (dnssrv_ep d), d), p).
Proof. intros Hd. unfold resolve_dnssrv_ep. by rewrite (proj2 (Z.eqb_neq _ _) Hd). Qed.

(** A successful look-up is kept, whatever else happened; a failed one keeps the
    slot, so that at most one slot is ever taken from the allocator. *)
Lemma resolve_kept d p r d' p' :
  resolve d p = Some ((r, d'), p') ->
  match r with
  | Ok ep => dnssrv_ep d' = ep
  | Err _ => dnssrv_ep d' = 0
  end /\ (lookup_slot d <> 0 -> lookup_slot d' = lookup_slot d).
Proof.
  unfold resolve_dnssrv_ep. destruct (Z.eqb_spec (dnssrv_ep d) 0) as [E|E]; cbn [negb]; [|by intros [= <- <- _]].
  unfold mbind, M_bind, mret, M_ret. destruct (Z.eqb_spec (lookup_slot d) 0) as [E'|E']; cbn [negb].
  - destruct (slot_alloc p) as [[[slot|] p1]|]; cbn; [|by intros [= <- <- _]|done].
    destruct (receive_into slot p1) as [[[] p2]|]; cbn; [|done]. destruct (call _ _ _ p2) as [[[err reply] p3]|]; cbn; [|done].
    destruct (err =? 0), (label reply =? TRONA_OK); cbn; by intros [= <- <- _].
  - cbn. destruct (receive_into (lookup_slot d) p) as [[[] p2]|]; cbn; [|done].
    destruct (call _ _ _ p2) as [[[err reply] p3]|]; cbn; [|done].
    destruct (err =? 0), (label reply =? TRONA_OK); cbn; by intros [= <- <- _].
Qed.
End resolve.
