(* ===== verification/PosixSocket.v ===== *)
(** POSIX sockets ([src/posix/socket.rs]): the codec of internet addresses, and
    requests to the VFS server. *)

From S2P Require Import Prelude Consts Kernel Ipc PosixCall Protocol PosixClient PosixProc PosixFile Dns.

Definition POSIX_MSG_PEEK : Z := 0x02.
Definition INET_RECV_FLAG_WANT_ADDR : Z := 1.
Definition INET_RECV_FLAG_WANT_TIMESTAMP : Z := 2.
Definition INET_RECV_FLAG_PEEK : Z := 4.

Definition inet_recv_wire_flags (flags : Z) : Z :=
  if negb (Z.land flags POSIX_MSG_PEEK =? 0) then INET_RECV_FLAG_PEEK else 0.

(** ** Addresses in memory

    A [SockAddrIn] is eight bytes: family, port, address; port and address are
    in network order where the functions convert. *)

Definition be_value (l : list Z) : Z := le_value (rev l).
Definition be_bytes (n : nat) (z : Z) : list Z := rev (le_bytes n z).

(** [n] bytes at [off]; a fault outside the memory. *)
Definition load (mem : list Z) (off n : nat) : option (list Z) :=
  if (off + n <=? length mem)%nat then Some (take n (drop off mem)) else None.

Definition load_family (mem : list Z) : option Z := le_value <$> load mem 0 2.

Definition sockaddr_in_to_host (mem : list Z) : option (Z * Z) :=
  port ← load mem 2 2;
  addr ← load mem 4 4;
  Some (be_value addr, be_value port).

Definition sockaddr_in_from_host (mem : list Z) (ip port : Z) : option (list Z) :=
  put mem 0 (le_bytes 2 AF_INET ++ be_bytes 2 port ++ be_bytes 4 ip).

(** The same without conversion ([getsockname], [getpeername]). *)
Definition store_sockaddr (mem : list Z) (ip port : Z) : option (list Z) :=
  put mem 0 (le_bytes 2 AF_INET ++ le_bytes 2 port ++ le_bytes 4 ip).

Definition EFAULT : Z := -14.

Definition pack_sockopt_value (optval : option (list Z)) (optlen : Z) : option (result Z) :=
  match optval with
  | None => Some (Err EFAULT)
  | Some mem =>
      if (optlen =? 0) || (optlen >? 8) then Some (Err EINVAL)
      else bytes ← load mem 0 (Z.to_nat optlen); Some (Ok (le_value bytes))
  end.

Section socket.
Context `{Transport} (eps : Endpoints).
Local Abbreviation vfs := (vfs_ep eps).

Definition posix_socket (domain sock_type protocol : Z) : M Z :=
  request false vfs (mk VFS_POSIX_SOCKET 3 [as_u64 domain; as_u64 sock_type; as_u64 protocol]) ok_i32.

(** A path of at most [max] bytes behind [head]. *)
Definition path_msg_max (lbl : Z) (head path : list Z) (max : nat) : M TronaMsg :=
  r ← lift (pack_path (mk lbl 0 head) (length head) path max);
  let '(len, m) := r in
  mret (mkMsg lbl (Z.of_nat (length head) + 1 + words len) (regs m)).

(** The request for an address: [inet ip port] for an internet address, a path
    otherwise; an errno for an address that is too short. *)
Definition address_msg (lbl fd : Z) (mem : list Z) (addr_len : Z) (inet : Z -> Z -> TronaMsg) : M (result TronaMsg) :=
  family ← lift (load_family mem);
  if family =? AF_INET then
    if addr_len <? 8 then mret (Err EINVAL)
    else
      r ← lift (sockaddr_in_to_host mem);
      let '(ip, port) := r in
      mret (Ok (inet ip port))
  else
    m ← path_msg_max lbl [as_u64 fd] (drop 2 mem) (Z.to_nat (addr_len - 2));
    mret (Ok m).

(** A request that a signal can interrupt. *)
Definition request_intr {A} (m : TronaMsg) (ret : Z -> A) (ok : TronaMsg -> M A) : M A :=
  r ← call false vfs m;
  let '(err, reply) := r in
  if err =? as_i32 TRONA_INTERRUPTED then mret (ret EINTR)
  else if failed err reply then mret (ret (io_error err reply))
  else ok reply.

(** [addr] is [None] for a null pointer. *)
Definition posix_bind (fd : Z) (addr : option (list Z)) (addr_len : Z) : M Z :=
  match addr with
  | None => mret EFAULT
  | Some mem =>
      if addr_len <? 2 then mret EINVAL
      else
        r ← address_msg VFS_POSIX_BIND fd mem addr_len (fun ip port => mk VFS_POSIX_BIND 4 [as_u64 fd; AF_INET; ip; port]);
        match r with
        | Err e => mret e
        | Ok m => request false vfs m ok_zero
        end
  end.

Definition posix_listen (fd backlog : Z) : M Z :=
  request false vfs (mk VFS_POSIX_LISTEN 2 [as_u64 fd; as_u64 backlog]) ok_zero.

Definition posix_accept (fd : Z) : M Z :=
  request_intr (mk VFS_POSIX_ACCEPT 1 [as_u64 fd]) (fun r => r) (fun reply => mret (as_i32 (reg reply 0))).

Definition posix_connect (fd : Z) (addr : option (list Z)) (addr_len : Z) : M Z :=
  match addr with
  | None => mret EFAULT
  | Some mem =>
      if addr_len <? 2 then mret EINVAL
      else
        r ← address_msg VFS_POSIX_CONNECT fd mem addr_len (fun ip port => mk VFS_POSIX_CONNECT 3 [as_u64 fd; ip; port]);
        match r with
        | Err e => mret e
        | Ok m => request_intr m (fun r => r) (fun _ => mret 0)
        end
  end.

Definition posix_shutdown (fd how : Z) : M Z :=
  request false vfs (mk VFS_POSIX_SHUTDOWN 2 [as_u64 fd; as_u64 how]) ok_zero.

(** [addr] and [addr_len] are [None] for null pointers. *)
Definition sockname (lbl fd : Z) (addr : option (list Z)) (addr_len : option Z) : M (Z * option (list Z) * option Z) :=
  match addr, addr_len with
  | Some mem, Some n =>
      if n <? 8 then mret (EINVAL, addr, addr_len)
      else
        r ← call true vfs (mk lbl 1 [as_u64 fd]);
        let '(err, reply) := r in
        if failed err reply then mret (io_error err reply, addr, addr_len)
        else
          mem ← lift (store_sockaddr mem (as_u32 (reg reply 0)) (as_u16 (reg reply 1)));
          mret (0, Some mem, Some 8)
  | _, _ => mret (EFAULT, addr, addr_len)
  end.

Definition posix_getsockname (fd : Z) := sockname VFS_POSIX_GETSOCKNAME fd.
Definition posix_getpeername (fd : Z) := sockname VFS_POSIX_GETPEERNAME fd.

Definition posix_setsockopt (fd level optname : Z) (optval : option (list Z)) (optlen : Z) : M Z :=
  v ← lift (pack_sockopt_value optval optlen);
  match v with
  | Err e => mret e
  | Ok value =>
      request false vfs
        (mk VFS_POSIX_SETSOCKOPT 5 [as_u64 fd; as_u64 level; as_u64 optname; value; optlen]) ok_zero
  end.

(** The option's value is a [u64]: copying more than its eight bytes reads past
    it. *)
Definition posix_getsockopt (fd level optname : Z) (optval : option (list Z)) (optlen : option Z)
    : M (Z * option (list Z) * option Z) :=
  match optval, optlen with
  | Some mem, Some n =>
      r ← call true vfs (mk VFS_POSIX_GETSOCKOPT 3 [as_u64 fd; as_u64 level; as_u64 optname]);
      let '(err, reply) := r in
      if failed err reply then mret (io_error err reply, optval, optlen)
      else
        let actual_len := as_u32 (reg reply 1) in
        bytes ← lift (load (le_bytes 8 (reg reply 0)) 0 (Z.to_nat (Z.min n actual_len)));
        mem ← lift (put mem 0 bytes);
        mret (0, Some mem, Some actual_len)
  | _, _ => mret (EFAULT, optval, optlen)
  end.

(** [fds] is [None] for a null pointer. *)
Definition posix_socketpair (fds : option (Z * Z)) : M (Z * option (Z * Z)) :=
  request_out false vfs (mk VFS_POSIX_SOCKPAIR 0 []) fds
    (fun r fds => Some ((fun _ => (as_i32 (reg r 0), as_i32 (reg r 1))) <$> fds)).

(** Descriptors in memory, four bytes each. *)
Definition fd_bytes (fds : list Z) : list Z := fds ≫= le_bytes 4.

Definition posix_sendmsg (fd : Z) (data : list Z) (data_len : Z) (fds : list Z) (fd_count : Z) : M Z :=
  let actual_data := if data_len >? 120 then 120 else data_len in
  let actual_fds := if fd_count >? 4 then 4 else fd_count in
  bytes ← lift (buf_bytes data 0 actual_data);
  passed ← lift (if (Z.to_nat actual_fds <=? length fds)%nat then Some (take (Z.to_nat actual_fds) fds) else None);
  let data_regs := (actual_data + 7) / 8 in
  let rs := copy_path 3 0 bytes (regs (mk VFS_POSIX_SENDMSG 0 [as_u64 fd; data_len; fd_count])) in
  let rs := copy_path (3 + Z.to_nat data_regs) 0 (fd_bytes passed) rs in
  request_intr (mkMsg VFS_POSIX_SENDMSG (3 + data_regs + (actual_fds * 4 + 7) / 8) rs)
    (fun r => r) (fun reply => mret (as_i64 (reg reply 0))).

(** The first bytes of a reply's data, as many as fit the caller's buffer. *)
Definition copy_reply (reply : TronaMsg) (r : nat) (actual data_len : Z) (data : list Z) : option (list Z) :=
  bytes ← msg_bytes reply r (Z.min actual data_len);
  put data 0 bytes.

(** The descriptors behind the data. *)
Definition reply_fds (reply : TronaMsg) (r : nat) (n : Z) : option (list Z) :=
  bytes ← msg_bytes reply r (4 * n);
  Some (map (fun i => as_i32 (le_value (take 4 (drop (4 * i) bytes)))) (seq 0 (Z.to_nat n))).

(** Taking the address of a register beyond the last one panics. *)
Definition posix_recvmsg (fd : Z) (data : list Z) (data_len : Z) (fds_out : option (list Z)) (fd_count : option Z)
    : M (Z * list Z * option (list Z) * option Z) :=
  request_intr (mk VFS_POSIX_RECVMSG 2 [as_u64 fd; data_len]) (fun r => (r, data, fds_out, fd_count)) (fun reply =>
    let actual_data := reg reply 0 in
    let actual_fds := as_u32 (reg reply 1) in
    data ← lift (copy_reply reply 2 actual_data data_len data);
    let at_ := 2 + (actual_data + 7)%u64 / 8 in
    _ ← lift (if at_ <? 32 then Some tt else None);
    match fds_out, fd_count with
    | Some out, Some max_fds =>
        fds ← lift (reply_fds reply (Z.to_nat at_) (Z.min actual_fds max_fds));
        out ← lift (put out 0 fds);
        mret (as_i64 actual_data, data, Some out, Some actual_fds)
    | _, _ => mret (as_i64 actual_data, data, fds_out, fd_count)
    end).

Definition posix_sendto (fd : Z) (data : list Z) (data_len : Z) (addr : option (list Z)) (addr_len : Z) : M Z :=
  let actual := if data_len >? 120 then 120 else data_len in
  bytes ← lift (buf_bytes data 0 actual);
  let plain := data_msg VFS_POSIX_SENDMSG [as_u64 fd; actual; 0] bytes in
  m ← match addr with
      | Some mem =>
          if addr_len <? 8 then mret plain
          else
            family ← lift (load_family mem);
            if family =? AF_INET then
              r ← lift (sockaddr_in_to_host mem);
              let '(ip, port) := r in
              mret (data_msg VFS_POSIX_SENDMSG [as_u64 fd; actual; 0; ip; port] bytes)
            else mret plain
      | None => mret plain
      end;
  request_intr m (fun r => r) (fun reply => mret (as_i64 (reg reply 0))).

(** The sender's address, when the caller asks for it. *)
Definition store_sender (reply : TronaMsg) (addr : option (list Z)) (addr_len : option Z)
    : option (option (list Z) * option Z) :=
  match addr, addr_len with
  | Some mem, Some n =>
      if n >=? 8 then
        mem ← sockaddr_in_from_host mem (as_u32 (reg reply 1)) (as_u16 (reg reply 2));
        Some (Some mem, Some 8)
      else Some (addr, addr_len)
  | _, _ => Some (addr, addr_len)
  end.

Definition want_addr (addr : option (list Z)) : Z := match addr with Some _ => INET_RECV_FLAG_WANT_ADDR | None => 0 end.

Definition posix_recvfrom (fd : Z) (data : list Z) (data_len flags : Z) (addr : option (list Z)) (addr_len : option Z)
    : M (Z * list Z * option (list Z) * option Z) :=
  request_intr (mk VFS_POSIX_RECVMSG 3 [as_u64 fd; data_len; Z.lor (want_addr addr) (inet_recv_wire_flags flags)])
    (fun r => (r, data, addr, addr_len)) (fun reply =>
    data ← lift (copy_reply reply 4 (reg reply 0) data_len data);
    a ← lift (store_sender reply addr addr_len);
    mret (as_i64 (reg reply 0), data, fst a, snd a)).

Definition posix_recv_inet (fd : Z) (data : list Z) (data_len flags : Z) : M (Z * list Z) :=
  request_intr (mk VFS_POSIX_RECVMSG 3 [as_u64 fd; data_len; inet_recv_wire_flags flags]) (fun r => (r, data)) (fun reply =>
    data ← lift (copy_reply reply 1 (reg reply 0) data_len data);
    mret (as_i64 (reg reply 0), data)).

(** [timestamp_ns] is [None] for a null pointer. *)
Definition posix_recvmsg_inet (fd : Z) (data : list Z) (data_len : Z) (addr : option (list Z)) (addr_len timestamp_ns : option Z)
    (extra_flags : Z) : M (Z * list Z * option (list Z) * option Z * option Z) :=
  let flags := Z.lor extra_flags (want_addr addr) in
  let flags := match timestamp_ns with Some _ => Z.lor flags INET_RECV_FLAG_WANT_TIMESTAMP | None => flags end in
  request_intr (mk VFS_POSIX_RECVMSG 3 [as_u64 fd; data_len; flags]) (fun r => (r, data, addr, addr_len, timestamp_ns)) (fun reply =>
    data ← lift (copy_reply reply 4 (reg reply 0) data_len data);
    a ← lift (store_sender reply addr addr_len);
    mret (as_i64 (reg reply 0), data, fst a, snd a, store (reg reply 3) timestamp_ns)).
End socket.

(** ** Addresses *)

Lemma be_roundtrip n z : 0 <= z < 256 ^ Z.of_nat n -> be_value (be_bytes n z) = z.
Proof. intros. unfold be_value, be_bytes. rewrite rev_involutive. by apply le_value_bytes. Qed.

Lemma length_be_bytes n z : length (be_bytes n z) = n.
Proof. unfold be_bytes. by rewrite length_rev, length_le_bytes. Qed.

(** Writing an address into memory and reading it back: the address and the port
    are the same, the family is the internet's, and the rest of the memory is
    untouched. *)
Lemma sockaddr_roundtrip mem ip port :
  (8 <= length mem)%nat -> u32 ip -> in_u 16 port ->
  exists mem', sockaddr_in_from_host mem ip port = Some mem' /\ length mem' = length mem /\
    load_family mem' = Some AF_INET /\ sockaddr_in_to_host mem' = Some (ip, port) /\ drop 8 mem' = drop 8 mem.
Proof.
  intros Hl Hip Hport. unfold sockaddr_in_from_host, put.
  set (bs := le_bytes 2 AF_INET ++ be_bytes 2 port ++ be_bytes 4 ip).
  assert (length bs = 8%nat) as Hbs by (unfold bs; by rewrite !length_app, !length_be_bytes, length_le_bytes).
  rewrite Hbs, (proj2 (Z.leb_le 0 0)), (proj2 (Z.leb_le _ _)) by lia. cbn [andb].
  change (Z.to_nat 0) with O. rewrite take_0. cbn [app]. change (0 + 8)%nat with 8%nat.
  eexists. split; [done|]. split; [rewrite length_app, length_drop; lia|].
  unfold load_family, sockaddr_in_to_host, load.
  rewrite !(proj2 (Nat.leb_le _ _)) by (rewrite length_app, length_drop; lia). cbn [mbind option_bind fmap option_fmap option_map].
  split_and!.
  - unfold bs. rewrite <- !app_assoc, drop_0, take_app_length' by (by rewrite length_le_bytes). by rewrite le_value_bytes.
  - unfold bs. rewrite <- !app_assoc. rewrite (drop_app_length' _ _ 2) by (by rewrite length_le_bytes).
    rewrite (take_app_length' _ _ 2) by (by rewrite length_be_bytes).
    rewrite (app_assoc (le_bytes 2 AF_INET)), (drop_app_length' _ _ 4) by (by rewrite length_app, length_be_bytes, length_le_bytes).
    rewrite take_app_length' by (by rewrite length_be_bytes). by rewrite !be_roundtrip.
  - by rewrite drop_app_length'.
Qed.

(** [getsockname] leaves port and address unconverted, so what it returns means
    another address to [connect]: 10.0.2.15 port 80 becomes 15.2.0.10 port 20480. *)
Lemma getsockname_order :
  (store_sockaddr (replicate 8 0) 0x0A00020F 80 ≫= sockaddr_in_to_host) = Some (0x0F02000A, 20480).
Proof. reflexivity. Qed.
