(* ===== verification/PosixMisc.v ===== *)
(** The other wrappers of [src/posix/misc.rs]: control of descriptors and
    devices, the working directory, terminals, shared memory objects. *)

From S2P Require Import Prelude Consts Kernel Ipc PosixCall Protocol PosixClient PosixProc PosixFile FileSpec Dns PosixSocket.

Definition SIOCGIFNAME : Z := 0x8910.
Definition SIOCGIFCONF : Z := 0x8912.
Definition SIOCGIFFLAGS : Z := 0x8913.
Definition SIOCGIFADDR : Z := 0x8915.
Definition SIOCGIFBRDADDR : Z := 0x8919.
Definition SIOCGIFNETMASK : Z := 0x891B.
Definition SIOCGIFINDEX : Z := 0x8933.
Definition TIOCGPGRP : Z := 0x540F.
Definition TIOCGWINSZ : Z := 0x5413.
Definition TIOCSWINSZ : Z := 0x5414.
Definition TIOCGSID : Z := 0x5429.
Definition TIOCGPTN : Z := 0x80045430.

Record Termios := mkTermios {
  c_iflag : Z; c_oflag : Z; c_cflag : Z; c_lflag : Z; c_line : Z; c_cc : list Z (* [u8; 32] *); c_ispeed : Z; c_ospeed : Z;
}.

(** "eth0" *)
Definition ETH0 : list Z := [101; 116; 104; 48].
Definition ENODEV : Z := -19.

(** ** Interface requests in memory

    An [IoctlIfreq] is a name of 16 bytes and a union of 16 bytes. *)

(** The bytes up to a NUL or to 16; the rest stays zero. *)
Fixpoint ifreq_name (n : nat) (mem : list Z) : option (list Z) :=
  match n with
  | O => Some []
  | S n' =>
      match mem with
      | [] => None
      | b :: rest => if b =? 0 then Some (replicate n 0) else cons b <$> ifreq_name n' rest
      end
  end.

(** [None] for a null pointer. *)
Definition read_ifreq_name (arg : option (list Z)) : option (option (list Z)) :=
  match arg with None => Some None | Some mem => Some <$> ifreq_name 16 mem end.

Definition ifreq_name_is_eth0 (name : list Z) : bool := bool_decide (take 4 name = ETH0).

(** The address part: family, two bytes of port, the address in network order,
    zeros. *)
Definition sockaddr_bytes (ip : Z) : list Z := le_bytes 2 AF_INET ++ [0; 0] ++ be_bytes 4 ip ++ replicate 8 0.

Definition write_sockaddr_in (mem : list Z) (off ip : Z) : option (list Z) := put mem off (sockaddr_bytes ip).

Definition eth0_name : list Z := ETH0 ++ replicate 12 0.

(** What an [ioctl] may write: the memory behind its argument ([None]: null) and,
    for [SIOCGIFCONF], the memory that the argument points to. *)
Record IoMem := mkIoMem { io_arg : option (list Z); io_req : option (list Z) }.

Definition set_arg (m : IoMem) (mem : list Z) : IoMem := mkIoMem (Some mem) (io_req m).

Section misc.
Context `{Transport} (eps : Endpoints).
Local Abbreviation vfs := (vfs_ep eps).

(** [result] is [None] for a null pointer. *)
Definition posix_net_get_config (res : option (list Z)) : M (Z * option (list Z)) :=
  match res with
  | None => mret (EINVAL, None)
  | Some _ => request_out true vfs (mk NET_GET_CONFIG 0 []) res (fun r _ => Some (Some (take 9 (regs r))))
  end.

Definition posix_fcntl (fd cmd arg : Z) : M Z :=
  request true vfs (mk VFS_POSIX_FCNTL 3 [as_u64 fd; as_u64 cmd; as_u64 arg]) ok_i32.

Definition posix_isatty (fd : Z) : M Z :=
  r ← call true vfs (mk VFS_POSIX_ISATTY 1 [as_u64 fd]);
  let '(err, reply) := r in
  mret (if negb (err =? 0) then call_err_to_posix err
        else if negb (label reply =? TRONA_OK) then 0 else as_i32 (reg reply 0)).

(** The [match] on the request, after a successful call. *)
Definition ioctl_result (request_ : Z) (m : IoMem) (reply : TronaMsg) : option (Z * IoMem) :=
  let value := reg reply 0 in
  if request_ =? SIOCGIFNAME then
    match io_arg m with
    | None => Some (EINVAL, m)
    | Some mem =>
        index ← load mem 16 4;
        if negb (as_i32 (le_value index) =? 1) then Some (ENODEV, m)
        else mem ← put mem 0 eth0_name; Some (0, set_arg m mem)
    end
  else if request_ =? SIOCGIFCONF then
    match io_arg m with
    | None => Some (EINVAL, m)
    | Some mem =>
        len ← load mem 0 4;
        if as_i32 (le_value len) <? 32 then mem ← put mem 0 (le_bytes 4 32); Some (0, set_arg m mem)
        else match io_req m with
        | None => mem ← put mem 0 (le_bytes 4 32); Some (0, set_arg m mem)
        | Some req =>
            req ← put req 0 eth0_name;
            req ← write_sockaddr_in req 16 (as_u32 value);
            mem ← put mem 0 (le_bytes 4 32);
            Some (0, mkIoMem (Some mem) (Some req))
        end
    end
  else if bool_decide (request_ ∈ [SIOCGIFFLAGS; SIOCGIFADDR; SIOCGIFBRDADDR; SIOCGIFNETMASK; SIOCGIFINDEX]) then
    name ← read_ifreq_name (io_arg m);
    match name, io_arg m with
    | Some name, Some mem =>
        if negb (ifreq_name_is_eth0 name) then Some (ENODEV, m)
        else
          mem ← (if request_ =? SIOCGIFFLAGS then put mem 16 (le_bytes 2 (as_u16 value))
                 else if request_ =? SIOCGIFINDEX then put mem 16 (le_bytes 4 (as_u32 value))
                 else write_sockaddr_in mem 16 (as_u32 value));
          Some (0, set_arg m mem)
    | _, _ => Some (EINVAL, m)
    end
  else if bool_decide (request_ ∈ [TIOCGPGRP; TIOCGSID; TIOCGPTN]) then
    match io_arg m with
    | Some mem => mem ← put mem 0 (le_bytes 4 (as_u32 value)); Some (0, set_arg m mem)
    | None => Some (as_i32 value, m)
    end
  else if request_ =? TIOCGWINSZ then
    match io_arg m with
    | Some mem =>
        let rows := if msg_length reply >=? 1 then reg reply 0 else 0 in
        let cols := if msg_length reply >=? 2 then reg reply 1 else 0 in
        mem ← put mem 0 (le_bytes 2 (as_u16 rows) ++ le_bytes 2 (as_u16 cols) ++ [0; 0; 0; 0]);
        Some (0, set_arg m mem)
    | None => Some (as_i32 value, m)
    end
  else if request_ =? TIOCSWINSZ then Some (0, m)
  else Some (as_i32 value, m).

(** [arg] is the address of [io_arg m]. *)
Definition posix_ioctl (fd request_ arg : Z) (m : IoMem) : M (Z * IoMem) :=
  r ← call false vfs (mk VFS_POSIX_IOCTL 3 [as_u64 fd; request_; arg]);
  let '(err, reply) := r in
  if failed err reply then mret (io_error err reply, m)
  else lift (ioctl_result request_ m reply).

Definition posix_chdir (path : list Z) : M Z :=
  m ← path_msg VFS_POSIX_CHDIR [] path;
  request false vfs m ok_zero.

Definition posix_getcwd (buf : option (list Z)) (size : Z) : M (Z * option (list Z)) :=
  match buf with
  | None => mret (-1, None)
  | Some mem =>
      if size =? 0 then mret (-1, buf)
      else
        r ← call true vfs (mk VFS_POSIX_GETCWD 1 [size]);
        let '(err, reply) := r in
        if failed err reply then mret (io_error err reply, buf)
        else
          let path_len := reg reply 0 in
          if (path_len + 1)%u64 >? size then mret (-1, buf)
          else
            let reply_data_bytes := (sat_sub (msg_length reply) 1 * 8)%u64 in
            if path_len >? reply_data_bytes then mret (-1, buf)
            else
              bytes ← lift (msg_bytes reply 1 path_len);
              mem ← lift (put mem 0 bytes);
              mem ← lift (put mem path_len [0]);
              mret (0, Some mem)
  end.

Definition read_termios (reply : TronaMsg) (_ : Termios) : option Termios :=
  cc ← msg_bytes reply 6 32;
  Some (mkTermios (as_u32 (reg reply 0)) (as_u32 (reg reply 1)) (as_u32 (reg reply 2)) (as_u32 (reg reply 3)) 0 cc
          (as_u32 (reg reply 4)) (as_u32 (reg reply 5))).

Definition posix_tcgetattr (fd : Z) (t : Termios) : M (Z * Termios) :=
  request_out true vfs (mk VFS_POSIX_TCGETATTR 1 [as_u64 fd]) t read_termios.

(** The length is 11 registers, although the characters reach into the twelfth. *)
Definition tcsetattr_msg (fd action : Z) (t : Termios) : TronaMsg :=
  let m := data_msg VFS_POSIX_TCSETATTR
             [as_u64 fd; as_u64 action; c_iflag t; c_oflag t; c_cflag t; c_lflag t; c_ispeed t; c_ospeed t] (c_cc t) in
  mkMsg (label m) 11 (regs m).

Definition posix_tcsetattr (fd action : Z) (t : Termios) : M Z :=
  request false vfs (tcsetattr_msg fd action t) ok_zero.

Definition posix_shm_open (name : list Z) (flags : Z) : M Z :=
  m ← path_msg VFS_POSIX_SHM_OPEN [as_u64 flags] name;
  request false vfs m ok_i32.

Definition posix_shm_unlink (name : list Z) : M Z :=
  m ← path_msg VFS_POSIX_SHM_UNLINK [] name;
  request false vfs m ok_zero.

Definition posix_fb_ioctl (fd cmd : Z) (res : option (list Z)) : M (Z * option (list Z)) :=
  request_out false vfs (mk VFS_POSIX_IOCTL 3 [as_u64 fd; cmd; 0]) res
    (fun r res => Some ((fun _ => take 5 (regs r)) <$> res)).
End misc.

(** ** What the wrappers promise *)

(** The last eight control characters are not sent: two settings that differ
    only there are the same message. *)
Lemma tcsetattr_drops_cc :
  let t cc := mkTermios 1 2 3 4 0 cc 5 6 in
  same_message (tcsetattr_msg 3 0 (t (replicate 24 1 ++ replicate 8 7))) (tcsetattr_msg 3 0 (t (replicate 24 1 ++ replicate 8 9))).
Proof. split_and!; vm_compute; reflexivity. Qed.

(** [getcwd] stays inside the caller's buffer and the reply, whatever length the
    server claims: it writes a NUL-terminated path of the server's bytes, or
    nothing. *)
Lemma getcwd_bounds `{T : Transport} eps mem size p err reply w :
  t_call true (pr_w p) (vfs_ep eps) (mk VFS_POSIX_GETCWD 1 [size]) = Some (err, reply, w) ->
  status err -> length (regs reply) = 32%nat -> 0 <= msg_length reply <= 32 -> u64 (reg reply 0) ->
  0 < size <= Z.of_nat (length mem) -> size < 2 ^ 64 ->
  exists r mem', posix_getcwd eps (Some mem) size p = Some ((r, Some mem'), set_w p w) /\ length mem' = length mem /\
    (r = 0 -> exists path, msg_bytes reply 1 (reg reply 0) = Some path /\ mem' = path ++ 0 :: drop (S (length path)) mem) /\
    (r <> 0 -> mem' = mem).
Proof.
  intros Hcall Hst Hl Hm Hu Hs Hs'. unfold posix_getcwd. rewrite (proj2 (Z.eqb_neq size 0)) by lia.
  rewrite (bind_call _ _ _ _ _ _ _ _ Hcall). unfold u64, in_u in Hu.
  destruct (failed err reply) eqn:Hf.
  { pose proof (io_error_neg err reply Hst Hf). exists (io_error err reply), mem. split_and!; try done; lia. }
  case_if; [exists (-1), mem; split_and!; try done; lia|].
  case_if; [exists (-1), mem; split_and!; try done; lia|].
  rewrite sat_sub_spec in Heqb0. rewrite (wrap_small 64 (_ * 8)) in Heqb0 by lia. rewrite wrap_small in Heqb by lia.
  assert (Z.of_nat (length (regs_bytes (drop 1 (regs reply)))) = 248) as Hlr
    by (rewrite length_regs_bytes, length_drop, Hl; done).
  set (path := take (Z.to_nat (reg reply 0)) (regs_bytes (drop 1 (regs reply)))).
  assert (length path = Z.to_nat (reg reply 0)) as Hlp by (unfold path; rewrite length_take; lia).
  assert (msg_bytes reply 1 (reg reply 0) = Some path) as Hbytes.
  { unfold msg_bytes. by rewrite (proj2 (Z.leb_le 0 _)), (proj2 (Z.leb_le _ _)) by lia. }
  rewrite (bind_lift _ _ _ path Hbytes). erewrite bind_lift by (apply put_splice; lia).
  erewrite bind_lift by (apply put_splice; [|rewrite length_splice]; cbn [length]; lia).
  eexists 0, _. split; [done|]. split; [rewrite !length_splice; cbn [length]; try rewrite length_splice; lia|].
  split; [|done]. intros _. exists path. split; [done|]. rewrite <- Hlp. change (Z.to_nat 0) with O.
  etrans; [apply (splice_splice mem 0 path [0]); lia|]. unfold splice. cbn [take app]. rewrite <- app_assoc, length_app.
  cbn [length app]. by rewrite Nat.add_0_l, Nat.add_comm.
Qed.
