(* ===== verification/PosixMessages.v ===== *)
(** Every request of the POSIX layer is a well-formed message: the operations on
    files of FileMessages, and those on processes, memory, readiness, sockets,
    devices and terminals. *)

From stdpp Require Import gmap.
From S2P Require Import Prelude Consts Kernel Ipc PosixCall Protocol PosixClient PosixProc PosixFile FileSpec FileMessages.
From S2P Require Import PosixProc PosixPoll Dns PosixSocket PosixMisc.

Section rules.
Context {T : Transport} (eps : Endpoints).

Local Abbreviation ok := (sends (T := T) (request_ok eps)).

Lemma sends_call_once ep m : request_ok eps ep m -> ok (call_once ep m) (fun _ => True).
Proof.
  intros HQ p a p' E Hp. unfold call_once in E. cbn in E. destruct (t_call_once _ _ _) as [[[err reply] w]|]; [|done].
  cbn in E. injection E as <- <-. split; [|done]. unfold log_ok. cbn. by apply Forall_app_2; [|apply Forall_singleton].
Qed.

Lemma sends_sys nr a b : ok (sys nr a b) (fun _ => True).
Proof.
  apply sends_quiet. intros p x p' E. unfold sys in E. cbn in E.
  destruct (t_syscall _ _ _ _) as [r w]. by injection E as _ <-.
Qed.

Lemma sends_stage bytes : ok (stage bytes) (fun _ => True).
Proof.
  apply sends_quiet. intros p x p' E. unfold stage in E. cbn in E.
  destruct (t_stage _ _) as [w|]; by injection E as _ <-.
Qed.

Lemma sends_request_intr {A} m (ret : Z -> A) (k : TronaMsg -> @M (logged T) A) :
  request_ok eps (vfs_ep eps) m -> (forall reply, ok (k reply) (fun _ => True)) -> ok (request_intr eps m ret k) (fun _ => True).
Proof.
  intros Hm Hk. eapply sends_bind; [by apply sends_call|]. intros [err reply] _.
  destruct (_ =? _); [by apply sends_ret|]. destruct (failed _ _); [by apply sends_ret|]. apply Hk.
Qed.

(** A path of any limit. *)
Lemma path_msg_max_wf lbl head path max :
  0 <= lbl < 2 ^ 40 -> (length head <= 18)%nat ->
  ok (path_msg_max lbl head path max) (fun m => msg_wf m /\ msg_length m <= 20).
Proof.
  intros Hl Hh. eapply sends_bind.
  - apply (sends_lift _ _ (fun r => (r.1 <= 8 * (19 - length head))%nat /\ length (regs r.2) = 32%nat)).
    intros [len m]. by apply pack_path_room.
  - intros [len m] [Hn Hr]. cbn in Hn, Hr. apply sends_ret.
    pose proof (words_bound len (19 - Z.of_nat (length head)) ltac:(lia)).
    split; [|cbn; lia]. split; [done|cbn; lia|done].
Qed.
End rules.

(** One step of a wrapper, with the rules above. *)
Ltac pstep :=
  lazymatch goal with
  | |- sends _ (call_once _ _ ≫= _) _ => eapply sends_bind; [apply sends_call_once|intros [? ?] _]
  | |- sends _ (sys _ _ _ ≫= _) _ => eapply sends_bind; [apply sends_sys|intros ? _]
  | |- sends _ (stage _ ≫= _) _ => eapply sends_bind; [apply sends_stage|intros ? _]
  | |- sends _ (request_intr _ _ _ _) _ => apply sends_request_intr; [|intros ?]
  | |- sends _ (match ?o with Some _ => _ | None => _ end) _ => destruct o
  | |- sends _ (lift _) _ => by apply (sends_lift _ _ (fun _ => True))
  | _ => step
  end.

(** To whichever server. *)
Ltac pwf := first [apply to_vfs | apply to_procmgr | apply to_mmsrv]; wf.

(** ** All operations *)

(** Counts are natural numbers. *)
Inductive posix_op :=
  | OpFile (op : file_op)
  (* processes *)
  | OpExit (status : Z) | OpGetpid | OpGetppid | OpWaitpid3 (pid : Z) (status : option Z) (options : Z)
  | OpExecve (path : list Z) (argv envp : option (list (list Z))) | OpKill (pid sig : Z)
  | OpSetpgid (pid pgid : Z) | OpGetpgid (pid : Z) | OpSetsid | OpGetsid (pid : Z)
  | OpGetuid | OpGeteuid | OpGetgid | OpGetegid | OpGetgroups (size : Z)
  | OpSetuid (uid : Z) | OpSetgid (gid : Z) | OpSeteuid (uid : Z) | OpSetegid (gid : Z)
  | OpSetreuid (ruid euid : Z) | OpSetregid (rgid egid : Z) | OpSetgroups (n : nat) (groups : list Z)
  | OpGetresuid (out : option Z * option Z * option Z) | OpGetresgid (out : option Z * option Z * option Z)
  | OpSetresuid (r e s : Z) | OpSetresgid (r e s : Z)
  | OpGetrlimit (res : Z) (out : option Z * option Z) | OpSetrlimit (res cur max : Z)
  | OpSetitimer (which : Z) (v old : option Itimerval) | OpGetitimer (which : Z) (v : option Itimerval)
  | OpClock (id : Z) (ts : Timespec) | OpGettimeofday (tv : Timeval) | OpNanosleep (req : Timespec) (rem : option Timespec)
  | OpUsleep (usec : Z) | OpSleep (sec : Z)
  (* memory *)
  | OpBrk (addr : Z) | OpSbrk (inc : Z) | OpMmap (addr len prot flags fd offset : Z) | OpPrefault (addr len prot : Z)
  | OpMunmap (addr len : Z) | OpMprotect (addr len prot : Z)
  (* readiness *)
  | OpPoll (fds : list PollFd) (nfds : nat) (timeout : Z) | OpSelect (nfds : Z) (r w : option Z) (timeout : Z)
  | OpEpollCreate | OpEpollCtl (epfd op fd evs data : Z) | OpEpollWait (epfd : Z) (evs : option (list EpollEvent)) (maxevents timeout : Z)
  (* sockets *)
  | OpSocket (domain type protocol : Z) | OpBind (fd : Z) (addr : option (list Z)) (len : Z) | OpListen (fd backlog : Z)
  | OpAccept (fd : Z) | OpConnect (fd : Z) (addr : option (list Z)) (len : Z) | OpShutdown (fd how : Z)
  | OpGetsockname (fd : Z) (addr : option (list Z)) (len : option Z) | OpGetpeername (fd : Z) (addr : option (list Z)) (len : option Z)
  | OpSetsockopt (fd level name : Z) (val : option (list Z)) (len : Z)
  | OpGetsockopt (fd level name : Z) (val : option (list Z)) (len : option Z) | OpSocketpair (fds : option (Z * Z))
  | OpSendmsg (fd : Z) (data : list Z) (len : Z) (fds : list Z) (n : nat)
  | OpRecvmsg (fd : Z) (data : list Z) (len : Z) (fds : option (list Z)) (n : option Z)
  | OpSendto (fd : Z) (data : list Z) (len : Z) (addr : option (list Z)) (addr_len : Z)
  | OpRecvfrom (fd : Z) (data : list Z) (len flags : Z) (addr : option (list Z)) (addr_len : option Z)
  | OpRecvInet (fd : Z) (data : list Z) (len flags : Z)
  | OpRecvmsgInet (fd : Z) (data : list Z) (len : Z) (addr : option (list Z)) (addr_len ts : option Z) (flags : Z)
  (* devices and terminals *)
  | OpNetGetConfig (res : option (list Z)) | OpFcntl (fd cmd arg : Z) | OpIsatty (fd : Z)
  | OpIoctl (fd request_ arg : Z) (m : IoMem) | OpChdir (path : list Z) | OpGetcwd (buf : option (list Z)) (size : Z)
  | OpTcgetattr (fd : Z) (t : Termios) | OpTcsetattr (fd action : Z) (t : Termios)
  | OpShmOpen (name : list Z) (flags : Z) | OpShmUnlink (name : list Z) | OpFbIoctl (fd cmd : Z) (res : option (list Z)).

Section run.
Context {T : Transport} (eps : Endpoints) (fuel : nat).

Definition run_posix (op : posix_op) : M unit :=
  match op with
  | OpFile op => run_op eps fuel op
  | OpExit s => void (posix_exit eps s) | OpGetpid => void (posix_getpid eps) | OpGetppid => void (posix_getppid eps)
  | OpWaitpid3 p s o => void (posix_waitpid3 eps fuel p s o) | OpExecve p a e => void (posix_execve eps p a e)
  | OpKill p s => void (posix_kill eps fuel p s) | OpSetpgid p g => void (posix_setpgid eps p g)
  | OpGetpgid p => void (posix_getpgid eps p) | OpSetsid => void (posix_setsid eps) | OpGetsid p => void (posix_getsid eps p)
  | OpGetuid => void (posix_getuid eps) | OpGeteuid => void (posix_geteuid eps) | OpGetgid => void (posix_getgid eps)
  | OpGetegid => void (posix_getegid eps) | OpGetgroups n => void (posix_getgroups eps n)
  | OpSetuid u => void (posix_setuid eps u) | OpSetgid g => void (posix_setgid eps g)
  | OpSeteuid u => void (posix_seteuid eps u) | OpSetegid g => void (posix_setegid eps g)
  | OpSetreuid r e => void (posix_setreuid eps r e) | OpSetregid r e => void (posix_setregid eps r e)
  | OpSetgroups n gs => void (posix_setgroups eps (Z.of_nat n) gs)
  | OpGetresuid o => void (posix_getresuid eps o) | OpGetresgid o => void (posix_getresgid eps o)
  | OpSetresuid r e s => void (posix_setresuid eps r e s) | OpSetresgid r e s => void (posix_setresgid eps r e s)
  | OpGetrlimit r o => void (posix_getrlimit eps r o) | OpSetrlimit r c m => void (posix_setrlimit eps r c m)
  | OpSetitimer w v o => void (posix_setitimer eps w v o) | OpGetitimer w v => void (posix_getitimer eps w v)
  | OpClock i t => void (posix_clock_gettime i t) | OpGettimeofday t => void (posix_gettimeofday t)
  | OpNanosleep r m => void (posix_nanosleep r m) | OpUsleep u => void (posix_usleep u) | OpSleep s => void (posix_sleep s)
  | OpBrk a => void (posix_brk eps a) | OpSbrk i => void (posix_sbrk eps i)
  | OpMmap a l p f fd o => void (posix_mmap eps a l p f fd o) | OpPrefault a l p => void (posix_prefault eps a l p)
  | OpMunmap a l => void (posix_munmap eps a l) | OpMprotect a l p => void (posix_mprotect eps a l p)
  | OpPoll fds n t => void (posix_poll eps fds (Z.of_nat n) t) | OpSelect n r w t => void (posix_select eps n r w t)
  | OpEpollCreate => void (posix_epoll_create eps) | OpEpollCtl e o f ev d => void (posix_epoll_ctl eps e o f ev d)
  | OpEpollWait e evs m t => void (posix_epoll_wait eps e evs m t)
  | OpSocket d t p => void (posix_socket eps d t p) | OpBind fd a l => void (posix_bind eps fd a l)
  | OpListen fd b => void (posix_listen eps fd b) | OpAccept fd => void (posix_accept eps fd)
  | OpConnect fd a l => void (posix_connect eps fd a l) | OpShutdown fd h => void (posix_shutdown eps fd h)
  | OpGetsockname fd a l => void (posix_getsockname eps fd a l) | OpGetpeername fd a l => void (posix_getpeername eps fd a l)
  | OpSetsockopt fd l n v s => void (posix_setsockopt eps fd l n v s) | OpGetsockopt fd l n v s => void (posix_getsockopt eps fd l n v s)
  | OpSocketpair fds => void (posix_socketpair eps fds) | OpSendmsg fd d l fds n => void (posix_sendmsg eps fd d l fds (Z.of_nat n))
  | OpRecvmsg fd d l fds n => void (posix_recvmsg eps fd d l fds n) | OpSendto fd d l a n => void (posix_sendto eps fd d l a n)
  | OpRecvfrom fd d l f a n => void (posix_recvfrom eps fd d l f a n) | OpRecvInet fd d l f => void (posix_recv_inet eps fd d l f)
  | OpRecvmsgInet fd d l a n t f => void (posix_recvmsg_inet eps fd d l a n t f)
  | OpNetGetConfig r => void (posix_net_get_config eps r) | OpFcntl fd c a => void (posix_fcntl eps fd c a)
  | OpIsatty fd => void (posix_isatty eps fd) | OpIoctl fd r a m => void (posix_ioctl eps fd r a m)
  | OpChdir p => void (posix_chdir eps p) | OpGetcwd b s => void (posix_getcwd eps b s)
  | OpTcgetattr fd t => void (posix_tcgetattr eps fd t) | OpTcsetattr fd a t => void (posix_tcsetattr eps fd a t)
  | OpShmOpen n f => void (posix_shm_open eps n f) | OpShmUnlink n => void (posix_shm_unlink eps n)
  | OpFbIoctl fd c r => void (posix_fb_ioctl eps fd c r)
  end.
End run.

Section claim.
Context {T : Transport} (eps : Endpoints).

Local Abbreviation ok := (sends (T := T) (request_ok eps)).

Lemma waitpid3_wf fuel : forall pid st o, ok (posix_waitpid3 eps fuel pid st o) (fun _ => True).
Proof. induction fuel as [|fuel IH]; intros; cbn [posix_waitpid3]; [done|]. repeat pstep; try done; pwf. Qed.

Lemma kill_wf fuel : forall pid sig, ok (posix_kill eps fuel pid sig) (fun _ => True).
Proof. induction fuel as [|fuel IH]; intros; cbn [posix_kill]; [done|]. repeat pstep; try done; pwf. Qed.

Lemma exec_msg_wf path argc envc total : (length path <= 64)%nat ->
  msg_wf (exec_msg path argc envc total) /\ msg_length (exec_msg path argc envc total) <= 20.
Proof.
  intros Hl. pose proof (words_bound (length path) 8 ltac:(lia)). cbn. split; [|unfold EXEC_MSG_MIN_SLOWPATH_LEN; lia].
  split; [done|cbn; unfold EXEC_MSG_MIN_SLOWPATH_LEN; lia|]. cbn [regs exec_msg]. rewrite !length_insert, length_copy_path.
  apply length_mk. cbn. lia.
Qed.

Lemma execve_wf path argv envp : ok (posix_execve eps path argv envp) (fun _ => True).
Proof. unfold posix_execve. repeat pstep. apply to_procmgr, exec_msg_wf. rewrite length_take. cbn in *. lia. Qed.

Lemma pack_groups_length gs : (2 * length (pack_groups gs) <= length gs + 1)%nat.
Proof. revert gs. fix IH 1. intros [|lo [|hi rest]]; cbn [length pack_groups]; [lia..|]. specialize (IH rest). lia. Qed.

Lemma setgroups_wf n gs : ok (posix_setgroups eps (Z.of_nat n) gs) (fun _ => True).
Proof.
  unfold posix_setgroups. pstep; [by pstep|]. bprop.
  eapply sends_bind; [apply (sends_lift _ _ (fun l => (length l <= 32)%nat))|intros l Hl].
  { intros l. case_if; [|done]. intros [= <-]. rewrite length_take. lia. }
  pose proof (pack_groups_length l). pstep. apply to_procmgr, mk_wf; [done|cbn in *; lia|cbn in *; lia].
Qed.

Lemma poll_wf fds n timeout : ok (posix_poll eps fds (Z.of_nat n) timeout) (fun _ => True).
Proof.
  unfold posix_poll. set (a := if Z.of_nat n >? 8 then 8 else Z.of_nat n). assert (0 <= a <= 8) as Ha by (unfold a; destruct (Z.gtb_spec (Z.of_nat n) 8); lia).
  eapply sends_bind; [apply (sends_lift _ _ (fun l => (length l <= 8)%nat))|intros l Hl].
  { intros l. destruct (_ <=? _)%nat; [|done]. intros [= <-]. rewrite length_take. lia. }
  assert (length (poll_pairs l) = 2 * length l)%nat as Hp
    by (clear; induction l as [|x l IH]; [done|]; unfold poll_pairs in *; rewrite bind_cons, length_app, IH; cbn; lia).
  repeat pstep. apply to_vfs, mk_wf; [done|lia|cbn in *; lia].
Qed.

Lemma select_wf nfds r w timeout : ok (posix_select eps nfds r w timeout) (fun _ => True).
Proof.
  unfold posix_select. pstep; [by pstep|]. eapply sends_bind; [apply poll_wf|]. intros [ret fds] _. repeat pstep.
Qed.

Lemma address_msg_wf lbl fd mem len inet :
  0 <= lbl < 2 ^ 40 -> (forall ip port, msg_wf (inet ip port) /\ msg_length (inet ip port) <= 20) ->
  ok (address_msg lbl fd mem len inet) (fun r => match r with Ok m => msg_wf m /\ msg_length m <= 20 | Err _ => True end).
Proof.
  intros Hl Hi. unfold address_msg. pstep. pstep.
  - pstep; [by pstep|]. pstep. destruct a0. by apply sends_ret.
  - eapply sends_bind; [apply path_msg_max_wf; [done|cbn; lia]|]. intros m Hm. by apply sends_ret.
Qed.

Lemma bind_wf fd addr len : ok (posix_bind eps fd addr len) (fun _ => True).
Proof.
  unfold posix_bind. destruct addr; [|by pstep]. pstep; [by pstep|].
  eapply sends_bind; [apply address_msg_wf; [done|intros; wf]|]. intros [m|e] Hm; [|by pstep]. pstep. by apply to_vfs.
Qed.

Lemma connect_wf fd addr len : ok (posix_connect eps fd addr len) (fun _ => True).
Proof.
  unfold posix_connect. destruct addr; [|by pstep]. pstep; [by pstep|].
  eapply sends_bind; [apply address_msg_wf; [done|intros; wf]|]. intros [m|e] Hm; [|by pstep]. pstep; [by apply to_vfs|by pstep].
Qed.

Lemma sockname_wf lbl fd addr len : 0 <= lbl < 2 ^ 40 -> ok (sockname eps lbl fd addr len) (fun _ => True).
Proof.
  intros Hl. unfold sockname. destruct addr, len; try (by pstep). repeat pstep. apply to_vfs, mk_wf; done || (cbn; lia).
Qed.

Lemma sendmsg_wf fd data len fds n : ok (posix_sendmsg eps fd data len fds (Z.of_nat n)) (fun _ => True).
Proof.
  unfold posix_sendmsg. set (d := if len >? 120 then 120 else len). set (k := if Z.of_nat n >? 4 then 4 else Z.of_nat n).
  assert (d <= 120) by (unfold d; destruct (Z.gtb_spec len 120); lia).
  assert (0 <= k <= 4) by (unfold k; destruct (Z.gtb_spec (Z.of_nat n) 4); lia).
  eapply sends_bind; [apply (sends_lift _ _ (fun _ => 0 <= d))|intros bytes Hd].
  { unfold buf_bytes. intros l. case_if; [intros _; lia|done]. }
  cbn beta in Hd. pstep. pstep; [|by pstep]. apply to_vfs.
  assert (0 <= (d + 7) / 8 <= 15) by (split; [apply Z.div_pos; lia|apply Z.lt_succ_r, Z.div_lt_upper_bound; lia]).
  assert (0 <= (k * 4 + 7) / 8 <= 2) by (split; [apply Z.div_pos; lia|apply Z.lt_succ_r, Z.div_lt_upper_bound; lia]).
  split; [|cbn; lia]. split; [done|cbn; lia|]. cbn [regs]. rewrite !length_copy_path. apply length_mk. cbn. lia.
Qed.

Lemma sendto_wf fd data len addr alen : ok (posix_sendto eps fd data len addr alen) (fun _ => True).
Proof.
  unfold posix_sendto. set (d := if len >? 120 then 120 else len).
  assert (d <= 120) by (unfold d; destruct (Z.gtb_spec len 120); lia).
  eapply sends_bind; [apply (sends_lift _ _ (fun l => (length l <= 120)%nat))|intros bytes Hb].
  { intros l Hl%buf_bytes_length. lia. }
  eapply sends_bind; [|intros m Hm; pstep; [apply to_vfs; exact Hm|by pstep]].
  destruct addr as [mem|]; [|apply sends_ret, data_msg_wf; [done|cbn; lia|cbn in *; lia]].
  pstep; [apply sends_ret, data_msg_wf; [done|cbn; lia|cbn in *; lia]|]. pstep.
  pstep; [|apply sends_ret, data_msg_wf; [done|cbn; lia|cbn in *; lia]]. pstep. destruct a0.
  apply sends_ret, data_msg_wf; [done|cbn; lia|cbn in *; lia].
Qed.

Lemma tcsetattr_msg_wf fd action t : msg_wf (tcsetattr_msg fd action t) /\ msg_length (tcsetattr_msg fd action t) <= 20.
Proof. split; [|cbn; lia]. split; [done|cbn; lia|]. cbn [regs tcsetattr_msg data_msg]. rewrite length_copy_path. apply length_mk. cbn. lia. Qed.

Lemma posix_op_wf fuel op : ok (run_posix eps fuel op) (fun _ => True).
Proof.
  destruct op; try (apply file_op_wf); apply void_wf;
    auto using waitpid3_wf, kill_wf, execve_wf, getpid_wf, setgroups_wf, poll_wf, select_wf, bind_wf, connect_wf, sendmsg_wf, sendto_wf.
  all: try (unfold posix_exit, posix_getppid, posix_setpgid, posix_getpgid, posix_setsid, posix_getsid, posix_getuid, posix_geteuid,
    posix_getgid, posix_getegid, posix_getgroups, posix_setuid, posix_setgid, posix_seteuid, posix_setegid, posix_setreuid,
    posix_setregid, posix_getresuid, posix_getresgid, posix_setresuid, posix_setresgid, posix_getrlimit, posix_setrlimit,
    posix_setitimer, posix_getitimer, posix_clock_gettime, posix_gettimeofday, posix_nanosleep, posix_usleep, posix_sleep,
    posix_brk, posix_sbrk, posix_mmap, posix_munmap, posix_mprotect, request_m1, request_addr; repeat pstep; pwf).
  all: try (unfold posix_epoll_create, posix_epoll_ctl, posix_epoll_wait, posix_socket, posix_listen, posix_accept, posix_shutdown,
    posix_getsockopt, posix_socketpair, posix_recvfrom, posix_recv_inet, posix_net_get_config,
    posix_fcntl, posix_isatty, posix_ioctl, posix_chdir, posix_getcwd, posix_tcgetattr, posix_shm_open, posix_shm_unlink,
    posix_fb_ioctl; repeat pstep; try done; pwf).
  - unfold posix_prefault, request_m1. pstep; [by pstep|]. eapply sends_bind; [apply getpid_wf|]. intros pid _.
    pstep; [by pstep|]. destruct (page_range addr len) as [[start pages]|]; repeat pstep; pwf.
  - by apply sockname_wf.
  - by apply sockname_wf.
  - unfold posix_setsockopt. pstep. destruct a; repeat pstep; pwf.
  - unfold posix_recvmsg. pstep; [pwf|]. repeat pstep; destruct fds, n; repeat pstep.
  - unfold posix_recvmsg_inet. pstep; [pwf|]. repeat pstep.
  - unfold posix_tcsetattr. pstep. apply to_vfs, tcsetattr_msg_wf.
Qed.

End claim.

Definition logged_proc : @Proc (logged memfs_transport) :=
  mkProc (logged memfs_transport) (mkMemFs {[ 4 := mkFile [1; 2; 3] 0 ]} [], []) 0 0 0.

