(* ===== verification/Handle.v ===== *)
(** The Win32 handle table ([src/win32/handle.rs]): HANDLE encoding, standard
    handles, allocation, lookup and closing. *)

From S2P Require Import Prelude.

Definition INVALID_HANDLE_VALUE : Z := -1.
Definition STD_INPUT_HANDLE : Z := 0xFFFFFFF6.
Definition STD_OUTPUT_HANDLE : Z := 0xFFFFFFF5.
Definition STD_ERROR_HANDLE : Z := 0xFFFFFFF4.
Definition MAX_HANDLES : nat := 64.

Inductive HandleKind := Free | VfsFd | CapSlot | ServerObject.

#[global] Instance HandleKind_eq_dec : EqDecision HandleKind.
Proof. solve_decision. Defined.

Record HandleEntry := mkHandle { kind : HandleKind; vfs_fd : Z; cap_slot : Z }.

Definition HandleEntry_zeroed : HandleEntry := mkHandle Free (-1) 0.

Definition is_free (e : HandleEntry) : bool := match kind e with Free => true | _ => false end.

(** [HANDLE_TABLE] and [HANDLE_TABLE_INIT] *)
Record HandleState := mkHandles { table : list HandleEntry; inited : bool }.

Definition HandleState_static : HandleState :=
  mkHandles (replicate MAX_HANDLES HandleEntry_zeroed) false.

Definition seed_std_handles (s : HandleState) : HandleState :=
  let t := replicate MAX_HANDLES HandleEntry_zeroed in
  let t := <[0%nat := mkHandle VfsFd 0 0]> t in
  let t := <[1%nat := mkHandle VfsFd 1 0]> t in
  let t := <[2%nat := mkHandle VfsFd 2 0]> t in
  mkHandles t (inited s).

Definition init_handle_table (s : HandleState) : HandleState :=
  if inited s then s else mkHandles (table (seed_std_handles s)) true.

Definition reset_handle_table (s : HandleState) : HandleState :=
  mkHandles (table (seed_std_handles s)) true.

(** [isize] division and remainder truncate; both operands are non-negative here. *)
Definition handle_to_slot (h : Z) : option nat :=
  if (h <? 4) || negb (Z.rem (h - 4) 4 =? 0) then None else
  let slot := as_u64 (Z.quot (h - 4) 4) in
  if slot >=? Z.of_nat MAX_HANDLES then None else Some (Z.to_nat slot).

Definition slot_to_handle (slot : nat) : Z :=
  as_i64 ((Z.of_nat slot * 4)%u64 + 4)%u64.

Definition std_handle_to_handle (n_std_handle : Z) : Z :=
  if n_std_handle =? STD_INPUT_HANDLE then slot_to_handle 0
  else if n_std_handle =? STD_OUTPUT_HANDLE then slot_to_handle 1
  else if n_std_handle =? STD_ERROR_HANDLE then slot_to_handle 2
  else INVALID_HANDLE_VALUE.

Definition lookup_handle (s : HandleState) (h : Z) : option HandleEntry :=
  slot ← handle_to_slot h;
  entry ← table s !! slot;
  if is_free entry then None else Some entry.

(** The [for i in 3..MAX_HANDLES] scan: the first free index from [i] on. *)
Fixpoint find_free (n i : nat) (t : list HandleEntry) : option nat :=
  match n with
  | O => None
  | S n' => match t !! i with
            | Some e => if is_free e then Some i else find_free n' (S i) t
            | None => None
            end
  end.

Definition alloc_vfs_fd (s : HandleState) (fd : Z) : Z * HandleState :=
  match find_free (MAX_HANDLES - 3) 3 (table s) with
  | Some i => (slot_to_handle i, mkHandles (<[i := mkHandle VfsFd fd 0]> (table s)) (inited s))
  | None => (INVALID_HANDLE_VALUE, s)
  end.

Definition close_handle (s : HandleState) (h : Z) : bool * HandleState :=
  match handle_to_slot h with
  | None => (false, s)
  | Some slot =>
      match table s !! slot with
      | None => (false, s)
      | Some e => if is_free e then (false, s)
                  else (true, mkHandles (<[slot := HandleEntry_zeroed]> (table s)) (inited s))
      end
  end.

(** ** The encoding *)

Definition handle_range (h : Z) : Prop := - 2 ^ 63 <= h < 2 ^ 63.

Lemma slot_to_handle_eq i : (i < MAX_HANDLES)%nat -> slot_to_handle i = Z.of_nat i * 4 + 4.
Proof.
  intros Hi. unfold MAX_HANDLES in Hi. unfold slot_to_handle, as_i64, signed.
  rewrite (wrap_small 64 (Z.of_nat i * 4)) by lia. rewrite wrap_wrap, wrap_small by lia.
  case_if; lia.
Qed.

Lemma handle_to_slot_iff h i :
  handle_range h ->
  handle_to_slot h = Some i <-> (i < MAX_HANDLES)%nat /\ h = slot_to_handle i.
Proof.
  intros Hr. transitivity ((i < MAX_HANDLES)%nat /\ h = Z.of_nat i * 4 + 4).
  2: { split; intros [Hi ->]; (split; [done|]); by rewrite slot_to_handle_eq. }
  unfold handle_range, handle_to_slot, MAX_HANDLES, as_u64 in *.
  destruct (Z.ltb_spec h 4); cbn [orb]; [split; [done|lia]|].
  rewrite Z.rem_mod_nonneg, Z.quot_div_nonneg by lia.
  pose proof (Z.div_mod (h - 4) 4). pose proof (Z.mod_pos_bound (h - 4) 4).
  destruct (Z.eqb_spec ((h - 4) mod 4) 0); cbn [negb].
  - rewrite wrap_small by lia. rewrite Z.geb_leb.
    destruct (Z.leb_spec (Z.of_nat 64) ((h - 4) / 4)); split; try done; try lia.
    + intros [= <-]. lia.
    + intros [? E]. f_equal. lia.
  - split; [done|]. intros [? E]. subst h.
    replace (Z.of_nat i * 4 + 4 - 4) with (Z.of_nat i * 4) in * by lia.
    by rewrite Z_mod_mult in *.
Qed.

Lemma slot_to_handle_range i : (i < MAX_HANDLES)%nat -> handle_range (slot_to_handle i).
Proof.
  intros Hi. rewrite slot_to_handle_eq by done. unfold handle_range, MAX_HANDLES in *. lia.
Qed.

Lemma slot_to_handle_inj i j :
  (i < MAX_HANDLES)%nat -> (j < MAX_HANDLES)%nat -> slot_to_handle i = slot_to_handle j -> i = j.
Proof. intros. rewrite !slot_to_handle_eq in * by done. lia. Qed.

Lemma handle_to_slot_handle i :
  (i < MAX_HANDLES)%nat -> handle_to_slot (slot_to_handle i) = Some i.
Proof. intros Hi. apply handle_to_slot_iff; [by apply slot_to_handle_range|done]. Qed.

(** The HANDLE encoding: slots and the handles 4, 8, ..., 256 correspond one
    to one, every other [isize] (0, negative, unaligned or too large) is
    rejected, and the standard handle constants name slots 0, 1 and 2. *)
Theorem handle_encoding :
  (forall i, (i < MAX_HANDLES)%nat -> handle_to_slot (slot_to_handle i) = Some i) /\
  (forall h i, handle_range h -> handle_to_slot h = Some i -> slot_to_handle i = h) /\
  (forall h, handle_range h ->
     handle_to_slot h = None <-> ~ exists i, (i < MAX_HANDLES)%nat /\ h = Z.of_nat i * 4 + 4) /\
  handle_to_slot (std_handle_to_handle STD_INPUT_HANDLE) = Some 0%nat /\
  handle_to_slot (std_handle_to_handle STD_OUTPUT_HANDLE) = Some 1%nat /\
  handle_to_slot (std_handle_to_handle STD_ERROR_HANDLE) = Some 2%nat /\
  handle_to_slot INVALID_HANDLE_VALUE = None.
Proof.
  split_and!; try done.
  - apply handle_to_slot_handle.
  - intros h i Hr [_ ->]%handle_to_slot_iff; done.
  - intros h Hr. split.
    + intros Hn (i & Hi & E). rewrite <- slot_to_handle_eq in E by done. subst h.
      rewrite handle_to_slot_handle in Hn; done.
    + intros Hn. destruct (handle_to_slot h) as [i|] eqn:E; [|done]. exfalso. apply Hn.
      apply handle_to_slot_iff in E as [Hi ->]; [|done]. exists i. by rewrite slot_to_handle_eq.
Qed.

(** ** Operations against the map of open handles *)

Definition table_wf (s : HandleState) : Prop := length (table s) = MAX_HANDLES.

Lemma seed_wf s : table_wf (seed_std_handles s).
Proof. done. Qed.

Lemma lookup_handle_slot s i :
  (i < MAX_HANDLES)%nat ->
  lookup_handle s (slot_to_handle i) =
    entry ← table s !! i; if is_free entry then None else Some entry.
Proof. intros Hi. unfold lookup_handle. by rewrite handle_to_slot_handle. Qed.

(** Replacing the entry of slot [i] changes the lookup of its handle only. *)
Lemma lookup_handle_insert s i e h :
  table_wf s -> (i < MAX_HANDLES)%nat -> handle_range h ->
  lookup_handle (mkHandles (<[i := e]> (table s)) (inited s)) h =
    if decide (h = slot_to_handle i) then (if is_free e then None else Some e)
    else lookup_handle s h.
Proof.
  intros Hw Hi Hr. destruct (decide (h = slot_to_handle i)) as [->|Hne].
  - rewrite lookup_handle_slot by done. cbn [table].
    by rewrite list_lookup_insert_eq by (rewrite Hw; done).
  - unfold lookup_handle. destruct (handle_to_slot h) as [j|] eqn:E; [|done]. cbn [mbind option_bind table].
    apply handle_to_slot_iff in E as [Hj ->]; [|done].
    rewrite list_lookup_insert_ne; [done|]. intros ->. done.
Qed.

Lemma find_free_spec n i t :
  match find_free n i t with
  | Some k => (i <= k < i + n)%nat /\ (exists e, t !! k = Some e /\ is_free e = true)
  | None => forall k, (i <= k < i + n)%nat -> (k < length t)%nat ->
              exists e, t !! k = Some e /\ is_free e = false
  end.
Proof.
  revert i. induction n as [|n IH]; intros i; cbn [find_free]; [lia|].
  destruct (t !! i) as [e|] eqn:E.
  - destruct (is_free e) eqn:Hf; [split; [lia|by exists e]|].
    specialize (IH (S i)). destruct (find_free n (S i) t) as [k|].
    + destruct IH as [? ?]. split; [lia|done].
    + intros k Hk Hl. destruct (decide (k = i)) as [->|]; [by exists e|]. apply IH; lia.
  - intros k Hk Hl. apply lookup_ge_None in E. lia.
Qed.

(** allocating a handle either returns a handle that was not open and is not
    one of the standard ones, and opens exactly that handle on the given
    descriptor, or returns INVALID_HANDLE_VALUE and changes nothing, which
    happens only when all 61 allocatable handles are open. *)
Theorem alloc_vfs_fd_spec s fd :
  table_wf s ->
  let '(h, s') := alloc_vfs_fd s fd in
  table_wf s' /\
  (h = INVALID_HANDLE_VALUE /\ s' = s /\
   (forall i, (3 <= i < MAX_HANDLES)%nat -> is_Some (lookup_handle s (slot_to_handle i))) \/
   (16 <= h <= 256 /\ lookup_handle s h = None /\
    forall h', handle_range h' ->
      lookup_handle s' h' =
        if decide (h' = h) then Some (mkHandle VfsFd fd 0) else lookup_handle s h')).
Proof.
  intros Hw. unfold alloc_vfs_fd. pose proof (find_free_spec (MAX_HANDLES - 3) 3 (table s)) as Hf.
  destruct (find_free (MAX_HANDLES - 3) 3 (table s)) as [i|].
  - destruct Hf as [Hi (e & He & Hfree)]. change (3 + (MAX_HANDLES - 3))%nat with MAX_HANDLES in Hi.
    split; [unfold table_wf; cbn [table]; by rewrite length_insert|].
    right. split; [rewrite slot_to_handle_eq by lia; unfold MAX_HANDLES in Hi; lia|].
    split; [rewrite lookup_handle_slot, He by lia; cbn; by rewrite Hfree|].
    intros h' Hr. by rewrite lookup_handle_insert by (done || lia).
  - split; [done|]. left. split; [done|]. split; [done|]. intros i Hi.
    destruct (Hf i) as (e & He & Hfree);
      [unfold MAX_HANDLES in *; lia | rewrite Hw; lia |].
    rewrite lookup_handle_slot, He by lia. cbn. rewrite Hfree. by eexists.
Qed.

Lemma std_wf : table_wf (init_handle_table HandleState_static).
Proof. done. Qed.

Lemma alloc_vfs_fd_spec_witness :
  let '(h, s') := alloc_vfs_fd (init_handle_table HandleState_static) 9 in
  h = 16 /\ table_wf s' /\ lookup_handle s' 16 = Some (mkHandle VfsFd 9 0).
Proof.
  pose proof (alloc_vfs_fd_spec (init_handle_table HandleState_static) 9 std_wf) as H.
  cbv beta iota zeta in H |- *. split; [vm_compute; reflexivity|]. split; [apply H|].
  vm_compute. reflexivity.
Defined.

(** closing succeeds exactly on open handles and then closes exactly the
    given one; closing it a second time fails. *)
Theorem close_handle_spec s h :
  table_wf s -> handle_range h ->
  let '(ok, s') := close_handle s h in
  table_wf s' /\
  (ok = true <-> is_Some (lookup_handle s h)) /\
  (forall h', handle_range h' ->
     lookup_handle s' h' = if decide (h' = h) then None else lookup_handle s h') /\
  fst (close_handle s' h) = false.
Proof.
  intros Hw Hr. unfold close_handle.
  assert (forall b, lookup_handle s h = None -> b = false ->
    table_wf s /\ (b = true <-> is_Some (lookup_handle s h)) /\
    (forall h', handle_range h' ->
       lookup_handle s h' = if decide (h' = h) then None else lookup_handle s h')) as Hno.
  { intros b Hn ->. split; [done|]. rewrite Hn. split; [by split; [|intros [? ?]]|].
    intros h' _. by destruct (decide (h' = h)) as [->|]. }
  destruct (handle_to_slot h) as [i|] eqn:E.
  - apply handle_to_slot_iff in E as [Hi ->]; [|done].
    pose proof (lookup_handle_slot s i Hi) as Hl.
    destruct (table s !! i) as [e|] eqn:He.
    2: { apply lookup_ge_None in He. unfold table_wf in Hw. lia. }
    cbn [mbind option_bind] in Hl. destruct (is_free e) eqn:Hfree.
    + destruct (Hno false Hl eq_refl) as (? & ? & ?). split_and!; try done.
      by rewrite ?handle_to_slot_handle, ?He, ?Hfree by done.
    + split; [unfold table_wf; cbn [table]; by rewrite length_insert|].
      split; [rewrite Hl; split; [by eexists|done]|].
      split; [intros h' Hr'; by rewrite lookup_handle_insert|].
      rewrite ?handle_to_slot_handle by done. cbn [table].
      by rewrite list_lookup_insert_eq by (rewrite Hw; done).
  - assert (lookup_handle s h = None) as Hn by (unfold lookup_handle; by rewrite E).
    destruct (Hno false Hn eq_refl) as (? & ? & ?). split_and!; done.
Qed.

Lemma close_handle_spec_witness :
  let s := init_handle_table HandleState_static in
  is_Some (lookup_handle s 8) /\ fst (close_handle (snd (close_handle s 8)) 8) = false.
Proof.
  intros s. split; [vm_compute; eexists; reflexivity|].
  pose proof (close_handle_spec s 8 std_wf ltac:(unfold handle_range; lia)) as H.
  destruct (close_handle s 8) as [ok s']. apply H.
Defined.
