(* ===== verification/Futex.v ===== *)
(** Threads that share atomic 32-bit words and sleep on futexes: the machine the
    synchronisation primitives of [src/substrate/sync.rs] run on.

    A primitive is a [code] function from program points to the atomic action
    performed there; a configuration holds the words and one state per thread;
    [step] executes one event, so that a schedule (a list of events) can be run.
    Memory is sequentially consistent.  The futex follows the contract stated in
    [src/substrate/syscall.rs]: a wait sleeps iff the word has the expected value
    and otherwise returns TRONA_WOULD_BLOCK; a wake releases up to [n] sleepers,
    fewer only if there are fewer; a timed wait may end with TRONA_CANCELLED.
    Spurious wake-ups and spurious failures of weak compare-exchange may happen
    at any time. *)

From S2P Require Import Prelude Consts.

Section syntax.
Context {P : Type}.

Inductive act :=
| ALoad (a : nat) (k : Z -> P)
| AStore (a : nat) (v : Z) (p : P)
| ASwap (a : nat) (v : Z) (k : Z -> P)
| ACas (weak : bool) (a : nat) (old new : Z) (k : bool -> P)
| AFetch (a : nat) (f : Z -> Z) (k : Z -> P)           (* fetch_add, fetch_sub, fetch_and *)
| AWait (a : nat) (expected : Z) (timed : bool) (k : Z -> P)
| AWake (a : nat) (count : Z) (p : P)
| ANow (k : Z -> P)                                    (* the monotonic clock *)
| AChoice (l : list P)                                 (* the client decides *)
.

Inductive tstate := Run (p : P) | Sleep (a : nat) (timed : bool) (k : Z -> P).
End syntax.
Arguments act : clear implicits.
Arguments tstate : clear implicits.

(** Embedding the code of one function into a larger program. *)
Definition act_map {P Q} (f : P -> Q) (x : act P) : act Q :=
  match x with
  | ALoad a k => ALoad a (fun v => f (k v))
  | AStore a v p => AStore a v (f p)
  | ASwap a v k => ASwap a v (fun v => f (k v))
  | ACas w a o n k => ACas w a o n (fun b => f (k b))
  | AFetch a g k => AFetch a g (fun v => f (k v))
  | AWait a e t k => AWait a e t (fun v => f (k v))
  | AWake a n p => AWake a n (f p)
  | ANow k => ANow (fun v => f (k v))
  | AChoice l => AChoice (map f l)
  end.

Record cfg (P : Type) := mkCfg { words : nat -> Z; thr : list (tstate P) }.
Arguments mkCfg {P} _ _.
Arguments words {P} _ _.
Arguments thr {P} _.

Definition set_word (m : nat -> Z) (a : nat) (v : Z) : nat -> Z :=
  fun x => if Nat.eqb x a then v else m x.

Lemma set_word_eq m a v : set_word m a v a = v.
Proof. unfold set_word. by rewrite Nat.eqb_refl. Qed.

Lemma set_word_ne m a v x : x <> a -> set_word m a v x = m x.
Proof. unfold set_word. by destruct (Nat.eqb_spec x a). Qed.

(** What the environment decides in a step. *)
Inductive event :=
| Go (i : nat)                     (* thread [i] performs its action *)
| GoWeakFail (i : nat)             (* a weak compare-exchange fails spuriously *)
| GoWake (i : nat) (js : list nat) (* a wake releases the sleepers [js] *)
| GoNow (i : nat) (t : Z)          (* the clock reads [t] *)
| GoPick (i : nat) (n : nat)       (* the client picks alternative [n] *)
| Timeout (i : nat)
| Spurious (i : nat).

Section machine.
Context {P : Type} (code : P -> act P).

Definition sleeps_on (a : nat) (t : tstate P) : bool :=
  match t with Sleep b _ _ => Nat.eqb b a | Run _ => false end.

Definition wake (t : tstate P) : tstate P :=
  match t with Sleep _ _ k => Run (k TRONA_OK) | Run p => Run p end.

Fixpoint wake_all (js : list nat) (ts : list (tstate P)) : list (tstate P) :=
  match js with
  | [] => ts
  | j :: rest => wake_all rest (alter wake j ts)
  end.

(** [js] are distinct sleepers on [a], at most [n], and all of them if fewer. *)
Definition wake_ok (a : nat) (n : Z) (js : list nat) (ts : list (tstate P)) : bool :=
  bool_decide (NoDup js) &&
  forallb (fun j => match ts !! j with Some t => sleeps_on a t | None => false end) js &&
  (Z.of_nat (length js) <=? n) &&
  ((Z.of_nat (length js) =? n) ||
   Nat.eqb (length (List.filter (sleeps_on a) ts)) (length js)).

Definition goto (c : cfg P) (i : nat) (p : P) : cfg P := mkCfg (words c) (<[i := Run p]> (thr c)).
Definition goto_with (c : cfg P) (m : nat -> Z) (i : nat) (p : P) : cfg P :=
  mkCfg m (<[i := Run p]> (thr c)).

Definition step (e : event) (c : cfg P) : option (cfg P) :=
  match e with
  | Go i =>
      match thr c !! i with
      | Some (Run p) =>
          match code p with
          | ALoad a k => Some (goto c i (k (words c a)))
          | AStore a v p' => Some (goto_with c (set_word (words c) a v) i p')
          | ASwap a v k => Some (goto_with c (set_word (words c) a v) i (k (words c a)))
          | ACas _ a old new k =>
              if words c a =? old
              then Some (goto_with c (set_word (words c) a new) i (k true))
              else Some (goto c i (k false))
          | AFetch a f k =>
              Some (goto_with c (set_word (words c) a (f (words c a))) i (k (words c a)))
          | AWait a v timed k =>
              if words c a =? v
              then Some (mkCfg (words c) (<[i := Sleep a timed k]> (thr c)))
              else Some (goto c i (k TRONA_WOULD_BLOCK))
          | AWake _ _ _ | ANow _ | AChoice _ => None
          end
      | _ => None
      end
  | GoWeakFail i =>
      match thr c !! i with
      | Some (Run p) => match code p with
                        | ACas true _ _ _ k => Some (goto c i (k false))
                        | _ => None
                        end
      | _ => None
      end
  | GoWake i js =>
      match thr c !! i with
      | Some (Run p) =>
          match code p with
          | AWake a n p' =>
              if wake_ok a n js (thr c)
              then Some (mkCfg (words c) (<[i := Run p']> (wake_all js (thr c))))
              else None
          | _ => None
          end
      | _ => None
      end
  | GoNow i t =>
      match thr c !! i with
      | Some (Run p) => match code p with ANow k => Some (goto c i (k t)) | _ => None end
      | _ => None
      end
  | GoPick i n =>
      match thr c !! i with
      | Some (Run p) => match code p with
                        | AChoice l => p' ← l !! n; Some (goto c i p')
                        | _ => None
                        end
      | _ => None
      end
  | Timeout i =>
      match thr c !! i with
      | Some (Sleep a true k) => Some (goto c i (k TRONA_CANCELLED))
      | _ => None
      end
  | Spurious i =>
      match thr c !! i with
      | Some (Sleep a _ k) => Some (goto c i (k TRONA_OK))
      | _ => None
      end
  end.

Fixpoint run (es : list event) (c : cfg P) : option (cfg P) :=
  match es with
  | [] => Some c
  | e :: rest => c' ← step e c; run rest c'
  end.

Definition reachable (c0 c : cfg P) : Prop := exists es, run es c0 = Some c.

(** ** The steps, by what they do *)

(** A step of one thread that neither sleeps nor wakes anyone. *)
Inductive local (m : nat -> Z) (p : P) : (nat -> Z) -> P -> Prop :=
| L_load a k : code p = ALoad a k -> local m p m (k (m a))
| L_store a v p' : code p = AStore a v p' -> local m p (set_word m a v) p'
| L_swap a v k : code p = ASwap a v k -> local m p (set_word m a v) (k (m a))
| L_cas_ok w a old new k :
    code p = ACas w a old new k -> m a = old -> local m p (set_word m a new) (k true)
| L_cas_fail w a old new k :
    code p = ACas w a old new k -> m a <> old \/ w = true -> local m p m (k false)
| L_fetch a f k : code p = AFetch a f k -> local m p (set_word m a (f (m a))) (k (m a))
| L_mismatch a v timed k :
    code p = AWait a v timed k -> m a <> v -> local m p m (k TRONA_WOULD_BLOCK)
| L_now t k : code p = ANow k -> local m p m (k t)
| L_pick l n p' : code p = AChoice l -> l !! n = Some p' -> local m p m p'.

(** The same by the action, for case analysis on the program point. *)
Definition local_post (m : nat -> Z) (x : act P) (m' : nat -> Z) (p' : P) : Prop :=
  match x with
  | ALoad a k => m' = m /\ p' = k (m a)
  | AStore a v q => m' = set_word m a v /\ p' = q
  | ASwap a v k => m' = set_word m a v /\ p' = k (m a)
  | ACas w a old new k =>
      (m a = old /\ m' = set_word m a new /\ p' = k true) \/
      ((m a <> old \/ w = true) /\ m' = m /\ p' = k false)
  | AFetch a f k => m' = set_word m a (f (m a)) /\ p' = k (m a)
  | AWait a v _ k => m a <> v /\ m' = m /\ p' = k TRONA_WOULD_BLOCK
  | AWake _ _ _ => False
  | ANow k => m' = m /\ exists t, p' = k t
  | AChoice l => m' = m /\ p' ∈ l
  end.

Lemma local_inv m p m' p' : local m p m' p' -> local_post m (code p) m' p'.
Proof.
  intros [a k E|a v q E|a v k E|w a o nw k E Hm|w a o nw k E Hm|a f k E|a v tm k E Hm|t k E|l j q E Hj];
    rewrite E; cbn [local_post]; try done; try (by left); try (by right); try (split; [done|]; by eexists).
  split; [done|]. by eapply list_elem_of_lookup_2.
Qed.

Inductive moves (c : cfg P) : cfg P -> Prop :=
| M_local i p m p' :
    thr c !! i = Some (Run p) -> local (words c) p m p' ->
    moves c (mkCfg m (<[i := Run p']> (thr c)))
| M_sleep i p a v timed k :
    thr c !! i = Some (Run p) -> code p = AWait a v timed k -> words c a = v ->
    moves c (mkCfg (words c) (<[i := Sleep a timed k]> (thr c)))
| M_wake i p a n p' js :
    thr c !! i = Some (Run p) -> code p = AWake a n p' -> wake_ok a n js (thr c) = true ->
    moves c (mkCfg (words c) (<[i := Run p']> (wake_all js (thr c))))
| M_resume i a timed k r :
    thr c !! i = Some (Sleep a timed k) -> r = TRONA_OK \/ (timed = true /\ r = TRONA_CANCELLED) ->
    moves c (mkCfg (words c) (<[i := Run (k r)]> (thr c))).

Lemma step_moves e c c' : step e c = Some c' -> moves c c'.
Proof.
  destruct e as [i|i|i js|i t|i n|i|i]; cbn [step];
    destruct (thr c !! i) as [[p|a timed k]|] eqn:Hi; try done.
  - destruct (code p) as [a k|a v p'|a v k|w a o n k|a f k|a v tm k|a n p'|k|l] eqn:Hc; try done.
    + intros [= <-]. eapply M_local; [done|]. by eapply L_load.
    + intros [= <-]. eapply M_local; [done|]. by eapply L_store.
    + intros [= <-]. eapply M_local; [done|]. by eapply L_swap.
    + destruct (Z.eqb_spec (words c a) o); intros [= <-]; (eapply M_local; [done|]).
      * by eapply L_cas_ok.
      * eapply L_cas_fail; [done|by left].
    + intros [= <-]. eapply M_local; [done|]. by eapply L_fetch.
    + destruct (Z.eqb_spec (words c a) v); intros [= <-].
      * by eapply M_sleep.
      * eapply M_local; [done|]. by eapply L_mismatch.
  - destruct (code p) as [| | |[] a o n k| | | | |] eqn:Hc; try done. intros [= <-].
    eapply M_local; [done|]. eapply L_cas_fail; [done|by right].
  - destruct (code p) as [| | | | | |a n p'| |] eqn:Hc; try done.
    destruct (wake_ok a n js (thr c)) eqn:Hw; [|done]. intros [= <-]. by eapply M_wake.
  - destruct (code p) as [| | | | | | |k|] eqn:Hc; try done. intros [= <-].
    eapply M_local; [done|]. by apply L_now.
  - destruct (code p) as [| | | | | | | |l] eqn:Hc; try done.
    destruct (l !! n) as [p'|] eqn:Hl; [|done]. intros [= <-].
    eapply M_local; [done|]. by eapply L_pick.
  - destruct timed; [|done]. intros [= <-]. eapply M_resume; [done|by right].
  - intros [= <-]. eapply M_resume; [done|by left].
Qed.

(** Rule induction over reachable configurations. *)
Lemma reachable_inv (I : cfg P -> Prop) c0 c :
  I c0 -> (forall c c', I c -> moves c c' -> I c') -> reachable c0 c -> I c.
Proof.
  intros H0 Hs [es Hes]. revert c0 H0 Hes. induction es as [|e es IH]; intros c0 H0 Hes; cbn [run] in Hes.
  - by injection Hes as [= <-].
  - destruct (step e c0) as [c1|] eqn:E; [|done]. apply (IH c1); [|done].
    apply (Hs c0); [done|]. by apply (step_moves e).
Qed.

Lemma reachable_trans c0 c1 c2 : reachable c0 c1 -> reachable c1 c2 -> reachable c0 c2.
Proof.
  intros [es1 H1] [es2 H2]. exists (es1 ++ es2). revert c0 H1.
  induction es1 as [|e es1 IH]; intros c0 H1; cbn [run app] in *; [by injection H1 as [= ->]|].
  destruct (step e c0) as [c'|]; [|done]. by apply IH.
Qed.

(** ** Waking *)

Lemma wake_Sleep a b k : wake (Sleep a b k) = Run (k TRONA_OK).
Proof. done. Qed.

Lemma length_wake_all js ts : length (wake_all js ts) = length ts.
Proof.
  revert ts. induction js as [|j js IH]; intros ts; cbn [wake_all]; [done|].
  by rewrite IH, length_alter.
Qed.

Lemma wake_idem t : wake (wake t) = wake t.
Proof. by destruct t. Qed.

Lemma lookup_wake_all js ts i :
  wake_all js ts !! i = if bool_decide (i ∈ js) then wake <$> ts !! i else ts !! i.
Proof.
  revert ts. induction js as [|j js IH]; intros ts; cbn [wake_all].
  - by rewrite bool_decide_false by (apply not_elem_of_nil).
  - rewrite IH. destruct (decide (i = j)) as [->|Hne].
    + rewrite list_lookup_alter_eq. rewrite (bool_decide_true (j ∈ j :: js)) by (left).
      case_bool_decide; [|done]. destruct (ts !! j); cbn; [by rewrite wake_idem|done].
    + rewrite list_lookup_alter_ne by done.
      destruct (decide (i ∈ js)).
      * rewrite !bool_decide_true; [done|by right|done].
      * rewrite !bool_decide_false; [done| |done]. intros [?|?]%elem_of_cons; done.
Qed.

(** After a wake every thread is as before, or was asleep on the word and now
    runs with result 0. *)
Lemma wake_ok_cases a n js ts i t :
  wake_ok a n js ts = true -> wake_all js ts !! i = Some t ->
  ts !! i = Some t \/
  exists timed k, (i ∈ js) /\ ts !! i = Some (Sleep a timed k) /\ t = Run (k TRONA_OK).
Proof.
  intros Hw Hi. rewrite lookup_wake_all in Hi. case_bool_decide as Hin; [|by left].
  unfold wake_ok in Hw. bprop.
  match goal with H : forallb _ _ = true |- _ => rewrite forallb_forall in H;
    specialize (H i (proj1 (list_elem_of_In _ _) Hin)); rename H into Hs end.
  destruct (ts !! i) as [[p|b timed k]|] eqn:E; cbn in Hi, Hs; try done.
  apply Nat.eqb_eq in Hs as ->. injection Hi as [= <-]. right. by exists timed, k.
Qed.

(** A wake of at least one thread releases somebody if anybody sleeps. *)
Lemma wake_ok_some a n js ts i timed k :
  wake_ok a n js ts = true -> 0 < n -> ts !! i = Some (Sleep a timed k) ->
  exists j timed' k', (j ∈ js) /\ ts !! j = Some (Sleep a timed' k') /\
    wake_all js ts !! j = Some (Run (k' TRONA_OK)).
Proof.
  intros Hw Hn Hi. assert (js <> []) as Hne.
  { intros ->. unfold wake_ok in Hw. apply andb_true_iff in Hw as [_ Hw].
    apply orb_true_iff in Hw as [Hw|Hw]; cbn [length] in Hw; [bprop; lia|].
    apply Nat.eqb_eq in Hw.
    assert (In (Sleep a timed k) (List.filter (sleeps_on a) ts)) as Hf.
    { apply filter_In. split; [apply list_elem_of_In; by eapply list_elem_of_lookup_2|].
      cbn. apply Nat.eqb_refl. }
    destruct (List.filter (sleeps_on a) ts); [done|cbn in Hw; lia]. }
  destruct js as [|j js]; [done|]. exists j.
  assert (exists t, ts !! j = Some t /\ sleeps_on a t = true) as (t & Hj & Ht).
  { unfold wake_ok in Hw. bprop. match goal with H : forallb _ _ = true |- _ => cbn in H; bprop end.
    destruct (ts !! j) as [t|]; [by exists t|done]. }
  destruct t as [|b timed' k']; [done|]. cbn in Ht. apply Nat.eqb_eq in Ht as ->.
  exists timed', k'. split; [left|]. split; [done|].
  rewrite lookup_wake_all, bool_decide_true by left. by rewrite Hj.
Qed.

Lemma not_sleeping_wake a n js ts i p :
  wake_ok a n js ts = true -> ts !! i = Some (Run p) -> (i ∉ js) /\ wake_all js ts !! i = Some (Run p).
Proof.
  intros Hw Hi. assert (i ∉ js) as Hn.
  { intros Hin. unfold wake_ok in Hw. bprop.
    match goal with H : forallb _ _ = true |- _ => rewrite forallb_forall in H;
      specialize (H i (proj1 (list_elem_of_In _ _) Hin)) end. by rewrite Hi in *. }
  split; [done|]. by rewrite lookup_wake_all, bool_decide_false.
Qed.
End machine.

Lemma insert_cases {A} (l : list A) i j x t :
  <[i := x]> l !! j = Some t -> (j = i /\ t = x) \/ (j <> i /\ l !! j = Some t).
Proof.
  intros H. destruct (decide (j = i)) as [->|Hne].
  - left. split; [done|]. apply list_lookup_insert_Some in H as [(_ & -> & _)|[? _]]; done.
  - right. by rewrite list_lookup_insert_ne in H by done.
Qed.

Lemma insert_here {A} (l : list A) i x t : l !! i = Some t -> <[i := x]> l !! i = Some x.
Proof. intros H. apply list_lookup_insert_eq. by apply lookup_lt_Some in H. Qed.

Lemma list_alter_insert {A} (g : A -> A) (l : list A) i x : l !! i = Some x -> alter g i l = <[i := g x]> l.
Proof.
  intros H. apply list_eq. intros j. destruct (decide (j = i)) as [->|].
  - rewrite list_lookup_alter_eq, H, list_lookup_insert_eq; [done|]. by eapply lookup_lt_Some.
  - by rewrite list_lookup_alter_ne, list_lookup_insert_ne.
Qed.

Lemma list_alter_None {A} (g : A -> A) (l : list A) i : l !! i = None -> alter g i l = l.
Proof.
  intros H. apply list_eq. intros j. destruct (decide (j = i)) as [->|].
  - by rewrite list_lookup_alter_eq, H.
  - by rewrite list_lookup_alter_ne.
Qed.

(** ** Counting threads *)

Section counting.
Context {A : Type}.

Definition count (f : A -> bool) (ts : list A) : nat := length (List.filter f ts).

Lemma count_insert f ts i t t' :
  ts !! i = Some t ->
  (count f (<[i := t']> ts) + (if f t then 1 else 0) = count f ts + (if f t' then 1 else 0))%nat.
Proof.
  unfold count. revert i. induction ts as [|x ts IH]; intros [|i] H; try done; cbn [List.filter].
  - injection H as [= ->]. change (<[0%nat := t']> (t :: ts)) with (t' :: ts). cbn [List.filter].
    destruct (f t), (f t'); cbn [length]; lia.
  - specialize (IH i H). change (<[S i := t']> (x :: ts)) with (x :: <[i := t']> ts).
    cbn [List.filter]. destruct (f x); cbn [length]; lia.
Qed.

Lemma count_insert_same f ts i t t' :
  ts !! i = Some t -> f t' = f t -> count f (<[i := t']> ts) = count f ts.
Proof. intros Hi He. pose proof (count_insert f ts i t t' Hi). rewrite He in *. lia. Qed.

Lemma count_pos f ts i t : ts !! i = Some t -> f t = true -> (1 <= count f ts)%nat.
Proof.
  intros Hi Hf. unfold count. revert i Hi. induction ts as [|x ts IH]; intros [|i] Hi; try done; cbn.
  - injection Hi as [= ->]. rewrite Hf. cbn. lia.
  - specialize (IH i Hi). destruct (f x); cbn; lia.
Qed.

Lemma count_zero f ts : count f ts = 0%nat -> forall i t, ts !! i = Some t -> f t = false.
Proof.
  intros H0 i t Hi. destruct (f t) eqn:E; [|done]. pose proof (count_pos f ts i t Hi E). lia.
Qed.

Lemma count_le f ts : (count f ts <= length ts)%nat.
Proof. apply List.filter_length_le. Qed.

(** Monotone predicates, and predicates that hold everywhere. *)
Lemma count_mono f g ts :
  (forall i t, ts !! i = Some t -> f t = true -> g t = true) -> (count f ts <= count g ts)%nat.
Proof.
  unfold count. induction ts as [|x ts IH]; intros H; cbn; [done|].
  specialize (IH (fun i t Hi => H (S i) t Hi)). pose proof (H 0%nat x eq_refl) as Hx.
  destruct (f x), (g x); cbn; try lia.
Qed.

Lemma count_full f ts i t : count f ts = length ts -> ts !! i = Some t -> f t = true.
Proof.
  intros H Hi. destruct (f t) eqn:E; [done|]. exfalso.
  assert (count f ts + count (fun t => negb (f t)) ts = length ts)%nat as Hs.
  { unfold count. clear. induction ts as [|x ts IH]; cbn; [done|]. destruct (f x); cbn; lia. }
  pose proof (count_pos (fun t => negb (f t)) ts i t Hi ltac:(cbn; by rewrite E)) as Hp. lia.
Qed.

Lemma count_exists f ts : (0 < count f ts)%nat -> exists i t, ts !! i = Some t /\ f t = true.
Proof.
  unfold count. intros H. destruct (List.filter f ts) as [|t l] eqn:Ef; [cbn in H; lia|].
  assert (In t (List.filter f ts)) as Hin by (rewrite Ef; by left).
  apply filter_In in Hin as [Hin Ht]. apply list_elem_of_In, list_elem_of_lookup in Hin as [i Hi]. eauto.
Qed.

Lemma count_lt f ts : (count f ts < length ts)%nat -> exists i t, ts !! i = Some t /\ f t = false.
Proof.
  unfold count. induction ts as [|x ts IH]; cbn; [lia|]. intros H. destruct (f x) eqn:E.
  - destruct IH as (i & t & Hi & Ht); [cbn in H; lia|]. by exists (S i), t.
  - by exists 0%nat, x.
Qed.

Lemma count_none f ts : (forall i t, ts !! i = Some t -> f t = false) -> count f ts = 0%nat.
Proof.
  intros H. unfold count. induction ts as [|x ts IH]; cbn; [done|].
  rewrite (H 0%nat x eq_refl). apply IH. intros i t Hi. by apply (H (S i)).
Qed.

Lemma count_replicate f n t : f t = false -> count f (replicate n t) = 0%nat.
Proof. intros Hf. unfold count. induction n; cbn; [done|]. by rewrite Hf. Qed.

Lemma count_alter f g ts i :
  (forall t, ts !! i = Some t -> f (g t) = f t) -> count f (alter g i ts) = count f ts.
Proof.
  unfold count. revert i. induction ts as [|x ts IH]; intros i Hf; [done|]. destruct i as [|i].
  - change (alter g 0%nat (x :: ts)) with (g x :: ts). cbn [List.filter]. rewrite (Hf x eq_refl). by destruct (f x).
  - change (alter g (S i) (x :: ts)) with (x :: alter g i ts). cbn [List.filter].
    specialize (IH i Hf). destruct (f x); cbn [length]; lia.
Qed.

(** Two different threads with [f] make the count at least two. *)
Lemma count_two f ts i j t u :
  i <> j -> ts !! i = Some t -> ts !! j = Some u -> f t = true -> f u = true ->
  (2 <= count f ts)%nat.
Proof.
  intros Hne Hi Hj Ht Hu. unfold count. revert i j Hne Hi Hj.
  induction ts as [|x ts IH]; intros [|i] [|j] Hne Hi Hj; try done; cbn.
  - injection Hi as [= ->]. rewrite Ht. cbn. pose proof (count_pos f ts j u Hj Hu). unfold count in *. lia.
  - injection Hj as [= ->]. rewrite Hu. cbn. pose proof (count_pos f ts i t Hi Ht). unfold count in *. lia.
  - specialize (IH i j ltac:(lia) Hi Hj). destruct (f x); cbn; lia.
Qed.
End counting.

(** Waking threads keeps a count that does not look at who sleeps. *)
Lemma count_wake_all {P} (f : tstate P -> bool) js ts :
  (forall i t, ts !! i = Some t -> f (wake t) = f t) -> count f (wake_all js ts) = count f ts.
Proof.
  revert ts. induction js as [|j js IH]; intros ts Hf; cbn [wake_all]; [done|].
  rewrite IH; [apply count_alter; intros; by eapply Hf|].
  intros i t Hi. destruct (decide (i = j)) as [->|Hne].
  - rewrite list_lookup_alter_eq in Hi. apply fmap_Some in Hi as (u & Hu & ->). by rewrite wake_idem.
  - rewrite list_lookup_alter_ne in Hi by done. by eapply Hf.
Qed.

(** ** Waking everybody *)

Section wake_everybody.
Context {P : Type}.

Definition indices (f : tstate P -> bool) (ts : list (tstate P)) : list nat :=
  List.filter (fun j => match ts !! j with Some t => f t | None => false end) (seq 0 (length ts)).

Lemma length_indices f ts : length (indices f ts) = count f ts.
Proof.
  unfold indices, count. induction ts as [|t ts IH] using rev_ind; [done|].
  rewrite length_app, Nat.add_1_r, seq_S, !List.filter_app, !length_app. cbn [List.filter Nat.add].
  rewrite lookup_app_r, Nat.sub_diag by lia. cbn [lookup list_lookup].
  rewrite <- IH. f_equal.
  - f_equal. apply List.filter_ext_in. intros j Hj%in_seq. by rewrite lookup_app_l by lia.
  - by destruct (f t).
Qed.

(** A wake with a count no smaller than the number of threads leaves no sleeper. *)
Lemma wake_ok_all a n js (ts : list (tstate P)) j timed k :
  wake_ok a n js ts = true -> Z.of_nat (length ts) < n ->
  wake_all js ts !! j <> Some (Sleep a timed k).
Proof.
  intros Hok Hn Hj.
  destruct (wake_ok_cases _ _ _ _ _ _ Hok Hj) as [Hs|(? & ? & _ & _ & ?)]; [|done].
  unfold wake_ok in Hok. bprop.
  match goal with H : bool_decide _ = true |- _ => apply bool_decide_eq_true in H; rename H into Hnd end.
  match goal with H : forallb _ _ = true |- _ => rewrite forallb_forall in H; rename H into Hall end.
  match goal with H : _ || _ = true |- _ => rename H into Hcnt end.
  set (S := indices (sleeps_on a) ts).
  assert (incl js S) as Hincl.
  { intros i Hi. apply filter_In. specialize (Hall i Hi). split; [|done].
    destruct (ts !! i) eqn:E; [|done]. apply in_seq. apply lookup_lt_Some in E. lia. }
  assert (length js <= length ts)%nat as Hle.
  { transitivity (length S); [apply NoDup_incl_length; [by apply NoDup_ListNoDup|done]|].
    unfold S. rewrite length_indices. apply count_le. }
  apply orb_true_iff in Hcnt as [Hcnt|Hcnt%Nat.eqb_eq]; [bprop; lia|].
  assert (incl S js) as Hincl'.
  { apply NoDup_length_incl; [by apply NoDup_ListNoDup| |done].
    unfold S. rewrite length_indices. unfold count. lia. }
  assert (In j S) as HjS.
  { apply filter_In. split; [|rewrite Hs; cbn; apply Nat.eqb_refl].
    apply in_seq. apply lookup_lt_Some in Hs. lia. }
  apply Hincl' in HjS. rewrite lookup_wake_all, bool_decide_true in Hj by (by apply list_elem_of_In).
  by rewrite Hs in Hj.
Qed.
End wake_everybody.

Lemma length_moves {P} (code : P -> act P) c c' : moves code c c' -> length (thr c') = length (thr c).
Proof. destruct 1; cbn [thr]; by rewrite length_insert, ?length_wake_all. Qed.

(** ** Embedded code *)

Lemma local_post_map {P Q} (f : P -> Q) m x m' u :
  local_post m (act_map f x) m' u <-> exists q, local_post m x m' q /\ u = f q.
Proof.
  destruct x as [a k|a v p|a v k|w a old new k|a g k|a v t k|a c p|k|l]; cbn; split.
  - intros [-> ->]. eauto.
  - intros (q & [-> ->] & ->). done.
  - intros [-> ->]. eauto.
  - intros (q & [-> ->] & ->). done.
  - intros [-> ->]. eauto.
  - intros (q & [-> ->] & ->). done.
  - intros [(H & -> & ->)|(H & -> & ->)]; eauto 8.
  - intros (q & [(H & -> & ->)|(H & -> & ->)] & ->); auto.
  - intros [-> ->]. eauto.
  - intros (q & [-> ->] & ->). done.
  - intros (H & -> & ->). eauto.
  - intros (q & (H & -> & ->) & ->). done.
  - done.
  - by intros (q & ? & _).
  - intros [-> [t ->]]. eauto.
  - intros (q & [-> [t ->]] & ->). eauto.
  - intros [-> (q & -> & Hq)%list_elem_of_fmap]. eauto.
  - intros (q & [-> Hq] & ->). split; [done|]. apply list_elem_of_fmap. eauto.
Qed.

Lemma act_map_wait {P Q} (f : P -> Q) x a v t k :
  act_map f x = AWait a v t k -> exists k', x = AWait a v t k' /\ k = fun r => f (k' r).
Proof. destruct x; cbn; try discriminate. intros [= <- <- <- <-]. eauto. Qed.

Lemma act_map_wake {P Q} (f : P -> Q) x a n p :
  act_map f x = AWake a n p -> exists p', x = AWake a n p' /\ p = f p'.
Proof. destruct x; cbn; try discriminate. intros [= <- <- <-]. eauto. Qed.
