(* ===== verification/Mutex.v ===== *)
(** The futex mutex ([Mutex] of [src/substrate/sync.rs]): mutual exclusion and
    absence of lost wake-ups for any number of threads, any interleaving, any
    mix of [lock], [try_lock], [lock_timeout] and [unlock].

    Word 0 is the mutex state: 0 unlocked, 1 locked, 2 locked with waiters.  The
    statistics counters of the module are not modelled. *)

From S2P Require Import Prelude Consts Futex.

(** ** The code *)

Inductive lock_pc := Lk_fast | Lk_spin (rounds : nat) | Lk_spin_cas (rounds : nat) | Lk_swap | Lk_wait | Lk_done.

(** After one of the 40 rounds of the spin phase. *)
Definition spin_next (rounds : nat) : lock_pc :=
  match rounds with O => Lk_swap | S n => Lk_spin n end.

Definition lock (p : lock_pc) : act lock_pc :=
  match p with
  | Lk_fast => ACas false 0 0 1 (fun ok => if ok then Lk_done else Lk_spin 39)
  | Lk_spin n => ALoad 0 (fun s => if s =? 0 then Lk_spin_cas n else spin_next n)
  | Lk_spin_cas n => ACas true 0 0 2 (fun ok => if ok then Lk_done else spin_next n)
  | Lk_swap => ASwap 0 2 (fun prev => if prev =? 0 then Lk_done else Lk_wait)
  | Lk_wait => AWait 0 2 false (fun _ => Lk_swap)
  | Lk_done => AChoice []
  end.

Definition remaining_timeout_ns (deadline_ns now : Z) : Z := sat_sub deadline_ns now.

Inductive lock_timeout_pc :=
| Lt_fast (timeout_ns : Z) | Lt_clock (timeout_ns : Z) | Lt_swap (deadline_ns : Z)
| Lt_remaining (deadline_ns : Z) | Lt_wait (deadline_ns : Z) | Lt_last | Lt_done (ok : bool).

Definition lock_timeout (p : lock_timeout_pc) : act lock_timeout_pc :=
  match p with
  | Lt_fast t => ACas false 0 0 1 (fun ok => if ok then Lt_done true else Lt_clock t)
  | Lt_clock t => ANow (fun now => Lt_swap (sat_add now t))
  | Lt_swap d => ASwap 0 2 (fun prev => if prev =? 0 then Lt_done true else Lt_remaining d)
  | Lt_remaining d => ANow (fun now => if remaining_timeout_ns d now =? 0 then Lt_last else Lt_wait d)
  | Lt_wait d => AWait 0 2 true (fun err => if err =? TRONA_CANCELLED then Lt_last else Lt_swap d)
  | Lt_last => ASwap 0 2 (fun prev => Lt_done (prev =? 0))
  | Lt_done _ => AChoice []
  end.

Inductive try_lock_pc := Tr_cas | Tr_done (ok : bool).

Definition try_lock (p : try_lock_pc) : act try_lock_pc :=
  match p with
  | Tr_cas => ACas false 0 0 1 Tr_done
  | Tr_done _ => AChoice []
  end.

Inductive unlock_pc := Ul_swap | Ul_wake | Ul_done.

Definition unlock (p : unlock_pc) : act unlock_pc :=
  match p with
  | Ul_swap => ASwap 0 0 (fun prev => if prev =? 2 then Ul_wake else Ul_done)
  | Ul_wake => AWake 0 1 Ul_done
  | Ul_done => AChoice []
  end.

(** ** Threads that use the mutex *)

Inductive user :=
| Outside
| Locking (p : lock_pc)
| Trying (p : try_lock_pc)
| LockingTimed (p : lock_timeout_pc)
| Inside                                   (* holds the mutex *)
| Unlocking (p : unlock_pc).

Definition after_lock (p : lock_pc) : user :=
  match p with Lk_done => Inside | _ => Locking p end.
Definition after_try (p : try_lock_pc) : user :=
  match p with Tr_done true => Inside | Tr_done false => Outside | _ => Trying p end.
Definition after_timed (p : lock_timeout_pc) : user :=
  match p with Lt_done true => Inside | Lt_done false => Outside | _ => LockingTimed p end.
Definition after_unlock (p : unlock_pc) : user :=
  match p with Ul_done => Outside | _ => Unlocking p end.

Section mutex.
Context (timeouts : list Z).

Definition user_code (u : user) : act user :=
  match u with
  | Outside => AChoice (Locking Lk_fast :: Trying Tr_cas ::
                        map (fun t => LockingTimed (Lt_fast t)) timeouts)
  | Locking p => act_map after_lock (lock p)
  | Trying p => act_map after_try (try_lock p)
  | LockingTimed p => act_map after_timed (lock_timeout p)
  | Inside => AChoice [Unlocking Ul_swap]
  | Unlocking p => act_map after_unlock (unlock p)
  end.

(** [n] threads, the mutex unlocked ([Mutex::new]). *)
Definition Mutex_new (n : nat) : cfg user := mkCfg (fun _ => 0) (replicate n (Run Outside)).

(** The thread has the mutex: it is inside, or has not released it yet. *)
Definition owns (u : user) : bool :=
  match u with Inside | Unlocking Ul_swap => true | _ => false end.

(** The thread is about to wake a sleeper or to set the waiter flag. *)
Definition urgent (u : user) : bool :=
  match u with
  | Unlocking Ul_wake | Locking Lk_swap | LockingTimed (Lt_swap _) | LockingTimed Lt_last => true
  | _ => false
  end.

(** Program points threads are never found at (their function has returned). *)
Definition valid (u : user) : bool :=
  match u with
  | Locking Lk_done | Trying (Tr_done _) | LockingTimed (Lt_done _) | Unlocking Ul_done => false
  | _ => true
  end.

(** ** What a step does to the mutex word *)

Inductive effect (s s' : Z) (p p' : user) : Prop :=
| E_stay : s' = s -> owns p' = owns p -> urgent p = false -> effect s s' p p'
| E_acquire : s = 0 -> s' = 1 \/ s' = 2 -> owns p = false -> owns p' = true ->
    (urgent p = true -> s' = 2) -> effect s s' p p'
| E_mark : s <> 0 -> s' = 2 -> owns p = false -> owns p' = false -> effect s s' p p'
| E_release : owns p = true -> owns p' = false -> s' = 0 -> (s = 2 -> urgent p' = true) ->
    effect s s' p p'.

Lemma owns_spin_next n : owns (after_lock (spin_next n)) = false /\ valid (after_lock (spin_next n)) = true.
Proof. by destruct n. Qed.

Lemma post_effect m p m' p' :
  valid p = true -> local_post m (user_code p) m' p' ->
  effect (m 0%nat) (m' 0%nat) p p' /\ valid p' = true.
Proof.
  intros Hv Hl.
  destruct p as [|[|n|n| | |]|[|ok]|[t|t|d|d|d| |ok]| |[| |]]; try done; cbn in Hl.
  - destruct Hl as [-> Hin]. assert (owns p' = false /\ valid p' = true) as [Ho ?].
    { apply elem_of_cons in Hin as [->|Hin]; [done|]. apply elem_of_cons in Hin as [->|Hin]; [done|].
      apply list_elem_of_fmap in Hin as (t & -> & _). done. }
    split; [by apply E_stay|done].
  - destruct Hl as [(Hm & -> & ->)|(Hm & -> & ->)]; (split; [|done]).
    + apply E_acquire; try done. by left.
    + by apply E_stay.
  - destruct Hl as [-> ->]. case_if; [split; [by apply E_stay|done]|].
    destruct (owns_spin_next n) as [? ?]. split; [by apply E_stay|done].
  - destruct Hl as [(Hm & -> & ->)|(Hm & -> & ->)].
    + split; [|done]. apply E_acquire; try done. by right.
    + destruct (owns_spin_next n) as [? ?]. split; [by apply E_stay|done].
  - destruct Hl as [-> ->]. rewrite set_word_eq. case_if; (split; [|done]).
    + apply E_acquire; try done. by right.
    + by apply E_mark.
  - destruct Hl as (Hm & -> & ->). split; [by apply E_stay|done].
  - destruct Hl as [(Hm & -> & ->)|(Hm & -> & ->)]; (split; [|done]).
    + apply E_acquire; try done. by left.
    + by apply E_stay.
  - destruct Hl as [(Hm & -> & ->)|(Hm & -> & ->)]; (split; [|done]).
    + apply E_acquire; try done. by left.
    + by apply E_stay.
  - destruct Hl as [-> [now ->]]. split; [by apply E_stay|done].
  - destruct Hl as [-> ->]. rewrite set_word_eq. case_if; (split; [|done]).
    + apply E_acquire; try done. by right.
    + by apply E_mark.
  - destruct Hl as [-> [now ->]]. case_if; (split; [by apply E_stay|done]).
  - destruct Hl as (Hm & -> & ->). split; [by apply E_stay|done].
  - destruct Hl as [-> ->]. rewrite set_word_eq.
    destruct (Z.eqb_spec (m 0%nat) 0); (split; [|done]).
    + apply E_acquire; try done. by right.
    + by apply E_mark.
  - destruct Hl as [-> Hin]. apply list_elem_of_singleton in Hin as ->. split; [by apply E_stay|done].
  - destruct Hl as [-> ->]. rewrite set_word_eq. case_if; (split; [|done]).
    + by apply E_release.
    + apply E_release; try done.
Qed.

(** ** The invariant *)

Definition at_run (c : cfg user) (i : nat) (u : user) : Prop := thr c !! i = Some (Run u).
Definition asleep (c : cfg user) (i : nat) : Prop := exists a timed k, thr c !! i = Some (Sleep a timed k).
Definition state (c : cfg user) : Z := words c 0%nat.

Record mutex_inv (c : cfg user) : Prop := {
  mi_valid i p : at_run c i p -> valid p = true;
  mi_state : state c = 0 \/ state c = 1 \/ state c = 2;
  mi_excl i j p q : at_run c i p -> at_run c j q -> owns p = true -> owns q = true -> i = j;
  mi_free i p : at_run c i p -> owns p = true -> state c <> 0;
  mi_held : state c <> 0 -> exists i p, at_run c i p /\ owns p = true;
  mi_sleep i a timed k r : thr c !! i = Some (Sleep a timed k) ->
    a = 0%nat /\ urgent (k r) = true /\ owns (k r) = false /\ valid (k r) = true;
  mi_wake i : asleep c i -> state c = 2 \/ exists j q, at_run c j q /\ urgent q = true;
}.

Lemma urgent_not_owns p : urgent p = true -> owns p = false.
Proof. by destruct p as [|[]|[]|[]| |[]]. Qed.

(** A local step that follows one of the four effects keeps the invariant. *)
Lemma inv_local c i p m p' :
  mutex_inv c -> at_run c i p -> effect (state c) (m 0%nat) p p' -> valid p' = true ->
  mutex_inv (mkCfg m (<[i := Run p']> (thr c))).
Proof.
  intros [Hv Hst Hex Hfr Hhe Hsl Hwk] Hi He Hv'. unfold at_run, asleep, state in *.
  assert (forall j u, thr c !! j = Some (Run u) -> owns u = true ->
    words c 0%nat = 0 -> False) as Hno by (intros; by eapply Hfr).
  split; unfold at_run, asleep, state; cbn [thr words].
  - intros j q [[-> [= ->]]|[_ Hj]]%insert_cases; [done|by apply (Hv j)].
  - destruct He; try lia.
  - intros j1 j2 q1 q2 [[-> [= ->]]|[N1 H1]]%insert_cases [[-> [= ->]]|[N2 H2]]%insert_cases O1 O2;
      try done.
    + destruct He as [_ E _|E _ _ _ _|_ _ _ E|_ E _ _]; try congruence.
      * by apply (Hex i j2 p q2); congruence.
      * exfalso. by apply (Hno j2 q2).
    + destruct He as [_ E _|E _ _ _ _|_ _ _ E|_ E _ _]; try congruence.
      * by apply (Hex j1 i q1 p); congruence.
      * exfalso. by apply (Hno j1 q1).
    + by apply (Hex j1 j2 q1 q2).
  - intros j q [[-> [= ->]]|[N H1]]%insert_cases O; destruct He as [E E' _|E E' _ _ _|? E' _ _|O' Of E _];
      try lia; try congruence.
    + rewrite E. apply (Hfr i p); congruence.
    + rewrite E. by apply (Hfr j q).
    + exfalso. apply N. by apply (Hex j i q p).
  - intros Hs. destruct He as [E E' _|E E' _ Op' _|E E' Op Op'|O' _ E _]; try congruence.
    + destruct Hhe as (j & q & Hj & Hq); [congruence|]. destruct (decide (j = i)) as [->|].
      * exists i, p'. split; [by eapply insert_here|]. congruence.
      * exists j, q. by rewrite list_lookup_insert_ne.
    + exists i, p'. split; [by eapply insert_here|done].
    + destruct Hhe as (j & q & Hj & Hq); [done|]. destruct (decide (j = i)) as [->|]; [congruence|].
      exists j, q. by rewrite list_lookup_insert_ne.
  - intros j a timed k r [[_ ?]|[_ Hj]]%insert_cases; [done|by eapply Hsl].
  - intros j (a & timed & k & [[_ ?]|[_ Hj]]%insert_cases); [done|].
    destruct (Hwk j) as [H2|(j' & q & Hj' & Hq)]; [by exists a, timed, k| |].
    + destruct He as [E _ _|? _ _ _ _|? E _ _|? _ E Hu]; [left; congruence|lia|by left|].
      right. exists i, p'. split; [by eapply insert_here|by apply Hu].
    + destruct (decide (j' = i)) as [->|].
      * assert (q = p) as -> by congruence.
        destruct He as [_ _ E|_ _ _ _ E|? E _ _|E _ _ _]; [congruence|left; by apply E|by left|].
        apply urgent_not_owns in Hq. congruence.
      * right. exists j', q. by rewrite list_lookup_insert_ne.
Qed.

(** Going to sleep needs the waiter flag, so the flag is set while it sleeps. *)
Lemma inv_sleep_gen c i p timed k :
  mutex_inv c -> at_run c i p -> owns p = false -> state c = 2 ->
  (forall r, urgent (k r) = true /\ owns (k r) = false /\ valid (k r) = true) ->
  mutex_inv (mkCfg (words c) (<[i := Sleep 0 timed k]> (thr c))).
Proof.
  intros [Hv Hst Hex Hfr Hhe Hsl Hwk] Hi Hp Hw Hk. unfold at_run, asleep, state in *.
  split; unfold at_run, asleep, state; cbn [thr words].
  - intros j q [[_ ?]|[_ Hj]]%insert_cases; [done|by apply (Hv j)].
  - done.
  - intros j1 j2 q1 q2 [[_ ?]|[_ H1]]%insert_cases [[_ ?]|[_ H2]]%insert_cases; try done.
    by apply Hex.
  - intros j q [[_ ?]|[_ Hj]]%insert_cases; [done|by apply (Hfr j q)].
  - intros Hs. destruct (Hhe Hs) as (j & q & Hj & Hq). exists j, q.
    rewrite list_lookup_insert_ne; [done|]. intros ->. congruence.
  - intros j b tm k' r [[-> [= -> -> ->]]|[_ Hj]]%insert_cases; [|by eapply Hsl].
    split; [done|]. apply Hk.
  - by left.
Qed.

Lemma inv_sleep c i p a v timed k :
  mutex_inv c -> at_run c i p -> user_code p = AWait a v timed k -> words c a = v ->
  mutex_inv (mkCfg (words c) (<[i := Sleep a timed k]> (thr c))).
Proof.
  intros HI Hi Hc Hw.
  assert (a = 0%nat /\ v = 2 /\ owns p = false /\
    forall r, urgent (k r) = true /\ owns (k r) = false /\ valid (k r) = true) as (-> & -> & Hp & Hk).
  { destruct p as [|[]|[]|[]| |[]]; cbn in Hc; try discriminate Hc;
      injection Hc as [= <- <- <- <-]; (split; [done|]); (split; [done|]); (split; [done|]); intros r; [done|].
    by destruct (r =? TRONA_CANCELLED). }
  by eapply inv_sleep_gen.
Qed.

Lemma inv_wake_gen c i p p' js :
  mutex_inv c -> at_run c i p -> owns p = false -> owns p' = false -> valid p' = true ->
  wake_ok 0 1 js (thr c) = true ->
  mutex_inv (mkCfg (words c) (<[i := Run p']> (wake_all js (thr c)))).
Proof.
  intros [Hv Hst Hex Hfr Hhe Hsl Hwk] Hi Hp Hp' Hval Hok. unfold at_run, asleep, state in *.
  destruct (not_sleeping_wake _ _ _ _ _ _ Hok Hi) as [_ Hi'].
  assert (forall j u, wake_all js (thr c) !! j = Some (Run u) -> owns u = true ->
    thr c !! j = Some (Run u)) as Hown.
  { intros j u Hj Ho. destruct (wake_ok_cases _ _ _ _ _ _ Hok Hj) as [?|(tm & k & _ & Hs & [= ->])];
      [done|]. destruct (Hsl _ _ _ _ TRONA_OK Hs) as (_ & _ & ? & _). congruence. }
  split; unfold at_run, asleep, state; cbn [thr words].
  - intros j q [[-> [= ->]]|[_ Hj]]%insert_cases; [done|].
    destruct (wake_ok_cases _ _ _ _ _ _ Hok Hj) as [?|(tm & k & _ & Hs & [= ->])]; [by apply (Hv j)|].
    by destruct (Hsl _ _ _ _ TRONA_OK Hs) as (_ & _ & _ & ?).
  - done.
  - intros j1 j2 q1 q2 [[_ [= ->]]|[_ H1]]%insert_cases [[_ [= ->]]|[_ H2]]%insert_cases O1 O2;
      try congruence. apply (Hex j1 j2 q1 q2); auto.
  - intros j q [[_ [= ->]]|[_ Hj]]%insert_cases O; [congruence|]. apply (Hfr j q); auto.
  - intros Hs. destruct (Hhe Hs) as (j & q & Hj & Hq). exists j, q. split; [|done].
    rewrite list_lookup_insert_ne by (intros ->; congruence).
    by destruct (not_sleeping_wake _ _ _ _ _ _ Hok Hj).
  - intros j b tm k r [[_ ?]|[_ Hj]]%insert_cases; [done|].
    destruct (wake_ok_cases _ _ _ _ _ _ Hok Hj) as [Hs|(? & ? & _ & _ & ?)]; [|done].
    apply (Hsl _ _ _ _ r Hs).
  - intros j (b & tm & k & [[_ ?]|[_ Hj]]%insert_cases); [done|].
    destruct (wake_ok_cases _ _ _ _ _ _ Hok Hj) as [Hs|(? & ? & _ & _ & ?)]; [|done].
    destruct (Hsl _ _ _ _ TRONA_OK Hs) as (-> & _).
    destruct (wake_ok_some _ _ _ _ _ _ _ Hok ltac:(lia) Hs) as (j' & tm' & k' & _ & Hj' & Hw').
    destruct (Hsl _ _ _ _ TRONA_OK Hj') as (_ & Hu & _ & _).
    right. exists j', (k' TRONA_OK). split; [|done].
    rewrite list_lookup_insert_ne; [done|]. intros ->. congruence.
Qed.

Lemma inv_wake c i p a n p' js :
  mutex_inv c -> at_run c i p -> user_code p = AWake a n p' -> wake_ok a n js (thr c) = true ->
  mutex_inv (mkCfg (words c) (<[i := Run p']> (wake_all js (thr c)))).
Proof.
  intros HI Hi Hc Hok.
  assert (a = 0%nat /\ n = 1 /\ p' = Outside /\ owns p = false) as (-> & -> & -> & Hp).
  { destruct p as [|[]|[]|[]| |[]]; cbn in Hc; try discriminate Hc. by injection Hc as [= <- <- <-]. }
  by eapply inv_wake_gen.
Qed.

Lemma inv_resume c i a timed k r :
  mutex_inv c -> thr c !! i = Some (Sleep a timed k) ->
  mutex_inv (mkCfg (words c) (<[i := Run (k r)]> (thr c))).
Proof.
  intros [Hv Hst Hex Hfr Hhe Hsl Hwk] Hi. unfold at_run, asleep, state in *.
  destruct (Hsl _ _ _ _ r Hi) as (_ & Hu & Ho & Hval).
  split; unfold at_run, asleep, state; cbn [thr words].
  - intros j q [[-> [= ->]]|[_ Hj]]%insert_cases; [done|by apply (Hv j)].
  - done.
  - intros j1 j2 q1 q2 [[_ [= ->]]|[_ H1]]%insert_cases [[_ [= ->]]|[_ H2]]%insert_cases O1 O2;
      try congruence. by apply (Hex j1 j2 q1 q2).
  - intros j q [[_ [= ->]]|[_ Hj]]%insert_cases O; [congruence|]. by apply (Hfr j q).
  - intros Hs. destruct (Hhe Hs) as (j & q & Hj & Hq). exists j, q. split; [|done].
    rewrite list_lookup_insert_ne; [done|]. intros ->. congruence.
  - intros j b tm k' r' [[_ ?]|[_ Hj]]%insert_cases; [done|by eapply Hsl].
  - intros j Hj. right. exists i, (k r). split; [by eapply insert_here|done].
Qed.

Lemma mutex_inv_moves c c' : mutex_inv c -> moves user_code c c' -> mutex_inv c'.
Proof.
  intros HI Hm. destruct Hm as [i p m p' Hi Hl|i p a v tm k Hi Hc Hw|i p a m p' js Hi Hc Hok|i a tm k r Hi _].
  - destruct (post_effect _ _ _ _ (mi_valid _ HI _ _ Hi) (local_inv _ _ _ _ _ Hl)) as [He Hv]. by eapply inv_local.
  - by eapply inv_sleep.
  - by eapply inv_wake.
  - by eapply inv_resume.
Qed.

Lemma mutex_inv_new n : mutex_inv (Mutex_new n).
Proof.
  split; unfold at_run, asleep, state, Mutex_new; cbn [thr words]; try lia.
  - intros i p [[= ->] _]%lookup_replicate. done.
  - intros i j p q [[= ->] _]%lookup_replicate _. done.
  - intros i p [[= ->] _]%lookup_replicate. done.
  - intros i a t k r [? _]%lookup_replicate. done.
  - intros i (a & t & k & [? _]%lookup_replicate). done.
Qed.

Lemma mutex_inv_reachable n c : reachable user_code (Mutex_new n) c -> mutex_inv c.
Proof. apply reachable_inv; [apply mutex_inv_new | apply mutex_inv_moves]. Qed.
End mutex.

(** ** Programs that use the mutex among other things

    A larger program's thread state [u] is seen by the mutex as [pr u]; a thread
    that sleeps on another word is outside. *)

Section projection.
Context {U : Type} (pr : U -> user).

Definition project_t (t : tstate U) : tstate user :=
  match t with
  | Run u => Run (pr u)
  | Sleep a tm k => if Nat.eqb a 0 then Sleep a tm (fun r => pr (k r)) else Run Outside
  end.

Definition project (c : cfg U) : cfg user := mkCfg (words c) (map project_t (thr c)).

Lemma project_insert m ts i t :
  project (mkCfg m (<[i := t]> ts)) = mkCfg m (<[i := project_t t]> (map project_t ts)).
Proof. unfold project. cbn. f_equal. apply (list_fmap_insert project_t). Qed.

Lemma project_lookup c i t : thr c !! i = Some t -> thr (project c) !! i = Some (project_t t).
Proof.
  intros Hi. unfold project. cbn. change (map project_t (thr c)) with (project_t <$> thr c).
  by rewrite list_lookup_fmap, Hi.
Qed.

(** A running thread below is a running thread above, or a sleeper elsewhere. *)
Lemma project_run c i p : at_run (project c) i p ->
  (exists u, thr c !! i = Some (Run u) /\ pr u = p) \/ p = Outside.
Proof.
  unfold at_run, project. cbn. change (map project_t (thr c)) with (project_t <$> thr c).
  rewrite list_lookup_fmap. intros (t & Ht & E)%fmap_Some. destruct t as [u|a tm k]; cbn in E.
  - injection E as ->. left. by exists u.
  - destruct (Nat.eqb a 0); [done|]. injection E as ->. by right.
Qed.

Lemma sleeps_on_project t : sleeps_on 0 (project_t t) = sleeps_on 0 t.
Proof. destruct t as [u|a tm k]; [done|]. cbn. by destruct (Nat.eqb_spec a 0) as [->|]. Qed.

Lemma wake_ok_project n js ts : wake_ok 0 n js (map project_t ts) = wake_ok 0 n js ts.
Proof.
  unfold wake_ok.
  assert (length (List.filter (sleeps_on 0) (map project_t ts)) = length (List.filter (sleeps_on 0) ts)) as ->.
  { induction ts as [|t ts IH]; cbn; [done|]. rewrite sleeps_on_project. destruct (sleeps_on 0 t); cbn; congruence. }
  do 3 f_equal. change (map project_t ts) with (project_t <$> ts).
  induction js as [|j js IH]; [done|]. cbn [forallb]. rewrite IH. f_equal. rewrite list_lookup_fmap.
  destruct (ts !! j); cbn; [apply sleeps_on_project|done].
Qed.

(** Waking sleepers of the mutex is the same above and below. *)
Lemma project_wake_all js : forall ts,
  (forall j t, j ∈ js -> ts !! j = Some t -> project_t (wake t) = wake (project_t t)) ->
  map project_t (wake_all js ts) = wake_all js (map project_t ts).
Proof.
  induction js as [|j js IH]; intros ts Hj; cbn [wake_all]; [done|]. rewrite IH.
  - f_equal. change (map project_t) with (fmap (M := list) project_t). apply list_eq. intros i.
    destruct (decide (i = j)) as [->|Hne].
    + rewrite list_lookup_fmap, !list_lookup_alter_eq, list_lookup_fmap.
      destruct (ts !! j) as [t|] eqn:E; [|done]. cbn. f_equal. apply (Hj j t); [left|done].
    + by rewrite list_lookup_fmap, !list_lookup_alter_ne, list_lookup_fmap.
  - intros i t Hi Ht. destruct (decide (i = j)) as [->|Hne].
    + rewrite list_lookup_alter_eq in Ht. apply fmap_Some in Ht as (u & Hu & ->). by destruct u.
    + rewrite list_lookup_alter_ne in Ht by done. apply (Hj i t); [by right|done].
Qed.

(** Waking threads that are outside and stay outside the mutex. *)
Definition sleeps_outside (t : tstate U) : Prop :=
  exists a tm k, t = Sleep a tm k /\ a <> 0%nat /\
    forall r, owns (pr (k r)) = false /\ valid (pr (k r)) = true.

Lemma wake_outside_inv js : forall m ts,
  (forall j t, j ∈ js -> ts !! j = Some t -> (exists u, t = Run u) \/ sleeps_outside t) ->
  mutex_inv (mkCfg m (map project_t ts)) -> mutex_inv (mkCfg m (map project_t (wake_all js ts))).
Proof.
  induction js as [|j js IH]; intros m ts Hj HI; cbn [wake_all]; [done|]. apply IH.
  - intros i t Hi Ht. destruct (decide (i = j)) as [->|Hne].
    + rewrite list_lookup_alter_eq in Ht. apply fmap_Some in Ht as (u & Hu & ->). left. destruct u; by eexists.
    + rewrite list_lookup_alter_ne in Ht by done. apply (Hj i t); [by right|done].
  - destruct (ts !! j) as [t|] eqn:E; [rewrite (list_alter_insert _ _ _ _ E)|by rewrite list_alter_None].
    change (map project_t (<[j := wake t]> ts)) with (project_t <$> <[j := wake t]> ts). rewrite list_fmap_insert.
    assert (Ht : (map project_t ts) !! j = Some (project_t t)).
    { change (map project_t ts) with (project_t <$> ts). by rewrite list_lookup_fmap, E. }
    destruct (Hj j t ltac:(left) E) as [[u ->]|(a & tm & k & -> & Ha & Hk)].
    + cbn [wake]. by rewrite list_insert_id.
    + cbn [wake project_t] in *. destruct (Nat.eqb_spec a 0); [done|]. destruct (Hk TRONA_OK) as [Ho Hv].
      apply (inv_local (mkCfg m (map project_t ts)) j Outside m (pr (k TRONA_OK))); [done|exact Ht|by apply E_stay|done].
Qed.

(** The steps of a larger program, one lemma per kind of step. *)
Lemma project_local c i u m u' :
  mutex_inv (project c) -> thr c !! i = Some (Run u) -> effect (words c 0%nat) (m 0%nat) (pr u) (pr u') ->
  valid (pr u') = true -> mutex_inv (project (mkCfg m (<[i := Run u']> (thr c)))).
Proof.
  intros HM Hi He Hv. rewrite project_insert.
  apply (inv_local (project c) i (pr u)); [done|by apply (project_lookup _ _ (Run u))|done|done].
Qed.

Lemma project_sleep c i u a tm k :
  mutex_inv (project c) -> thr c !! i = Some (Run u) ->
  (a = 0%nat /\ words c 0%nat = 2 /\ owns (pr u) = false /\
   forall r, urgent (pr (k r)) = true /\ owns (pr (k r)) = false /\ valid (pr (k r)) = true) \/
  (a <> 0%nat /\ pr u = Outside) ->
  mutex_inv (project (mkCfg (words c) (<[i := Sleep a tm k]> (thr c)))).
Proof.
  intros HM Hi Hc. pose proof (project_lookup c i _ Hi) as Hu. cbn in Hu. rewrite project_insert. cbn [project_t].
  destruct Hc as [(-> & Hw & Ho & Hk)|[Ha Ho]].
  - by eapply (inv_sleep_gen (project c)).
  - destruct (Nat.eqb_spec a 0); [done|]. rewrite list_insert_id; [exact HM|]. by rewrite Ho in Hu.
Qed.

Lemma project_resume c i a tm k r :
  mutex_inv (project c) -> thr c !! i = Some (Sleep a tm k) ->
  (a <> 0%nat -> owns (pr (k r)) = false /\ valid (pr (k r)) = true) ->
  mutex_inv (project (mkCfg (words c) (<[i := Run (k r)]> (thr c)))).
Proof.
  intros HM Hi Hk. pose proof (project_lookup c i _ Hi) as Hu. cbn in Hu. rewrite project_insert. cbn [project_t].
  destruct (Nat.eqb_spec a 0) as [->|Ha].
  - exact (inv_resume (project c) _ _ _ _ r HM Hu).
  - destruct (Hk Ha) as [Ho Hv]. apply (inv_local (project c) i Outside (words c)); [done|exact Hu|by apply E_stay|done].
Qed.

Lemma wake_ok_sleeps a n js (ts : list (tstate U)) j t :
  wake_ok a n js ts = true -> j ∈ js -> ts !! j = Some t -> exists tm k, t = Sleep a tm k.
Proof.
  intros Hok Hj Ht. unfold wake_ok in Hok. bprop.
  match goal with H : forallb _ _ = true |- _ => rewrite forallb_forall in H;
    specialize (H j (proj1 (list_elem_of_In _ _) Hj)); rewrite Ht in H; rename H into Hs end.
  destruct t as [|b tm k]; [done|]. cbn in Hs. apply Nat.eqb_eq in Hs as ->. by exists tm, k.
Qed.

Lemma project_wake c i u a n u' js :
  mutex_inv (project c) -> thr c !! i = Some (Run u) -> wake_ok a n js (thr c) = true ->
  (a = 0%nat /\ n = 1 /\ owns (pr u) = false /\ owns (pr u') = false /\ valid (pr u') = true) \/
  (a <> 0%nat /\ pr u' = pr u /\ forall j tm k, thr c !! j = Some (Sleep a tm k) -> sleeps_outside (Sleep a tm k)) ->
  mutex_inv (project (mkCfg (words c) (<[i := Run u']> (wake_all js (thr c))))).
Proof.
  intros HM Hi Hok Hk. pose proof (project_lookup c i _ Hi) as Hu. cbn in Hu. rewrite project_insert. cbn [project_t].
  destruct Hk as [(-> & -> & Ho & Ho' & Hv)|(Ha & Ep & Hs)].
  - rewrite project_wake_all.
    + eapply (inv_wake_gen (project c)); try done. cbn. by rewrite wake_ok_project.
    + intros j t Hj Ht. destruct (wake_ok_sleeps _ _ _ _ _ _ Hok Hj Ht) as (tm & k & ->). done.
  - pose proof (wake_outside_inv js (words c) (thr c)) as Hwc. rewrite list_insert_id.
    + apply Hwc; [|exact HM]. intros j t Hj Ht. right.
      destruct (wake_ok_sleeps _ _ _ _ _ _ Hok Hj Ht) as (tm & k & ->). by eapply Hs.
    + change (map project_t (wake_all js (thr c))) with (project_t <$> wake_all js (thr c)).
      destruct (not_sleeping_wake _ _ _ _ _ _ Hok Hi) as [_ Hi']. by rewrite list_lookup_fmap, Hi', Ep.
Qed.
End projection.

(** C1: mutual exclusion.  With any number of threads using the mutex through
    [lock], [try_lock], [lock_timeout] and [unlock], in every interleaving, at
    most one thread is inside the critical section, and while one is inside the
    mutex word says locked. *)
Theorem mutex_exclusion timeouts n c i j :
  reachable (user_code timeouts) (Mutex_new n) c ->
  at_run c i Inside -> at_run c j Inside -> i = j /\ state c <> 0.
Proof.
  intros Hr Hi Hj. pose proof (mutex_inv_reachable _ _ _ Hr) as HI. split.
  - by apply (mi_excl c HI i j Inside Inside).
  - by apply (mi_free c HI i Inside).
Qed.

(** C2: no lost wake-up.  Whenever a thread sleeps in [lock] or [lock_timeout],
    some running thread is responsible for it: the mutex is held and its owner
    is running, and moreover either the waiter flag is set (so the owner's
    unlock will wake somebody) or a running thread is about to wake a sleeper
    or to set the flag; if the mutex is free, such a thread exists. *)
Theorem mutex_no_lost_wakeup timeouts n c i :
  reachable (user_code timeouts) (Mutex_new n) c -> asleep c i ->
  (state c = 2 \/ exists j u, at_run c j u /\ urgent u = true) /\
  (state c <> 0 -> exists j u, at_run c j u /\ owns u = true) /\
  (state c = 0 -> exists j u, at_run c j u /\ urgent u = true).
Proof.
  intros Hr Hi. pose proof (mutex_inv_reachable _ _ _ Hr) as HI.
  destruct (mi_wake c HI i Hi) as [H2|Hu].
  - split; [by left|]. split; [apply (mi_held c HI)|]. lia.
  - split; [by right|]. split; [apply (mi_held c HI)|done].
Qed.

(** Thread 0 takes the mutex; thread 1 spins in vain and goes to sleep. *)
Definition contended : list event :=
  [GoPick 0 0; Go 0; GoPick 1 0] ++ replicate 43 (Go 1).

Definition contended_cfg : cfg user :=
  default (Mutex_new 2) (run (user_code []) contended (Mutex_new 2)).

Lemma contended_reachable : reachable (user_code []) (Mutex_new 2) contended_cfg.
Proof. exists contended. vm_compute. reflexivity. Qed.

Lemma mutex_exclusion_witness :
  at_run contended_cfg 0 Inside /\ (0%nat = 0%nat /\ state contended_cfg <> 0).
Proof.
  split; [vm_compute; reflexivity|].
  apply (mutex_exclusion [] 2 contended_cfg 0 0 contended_reachable); vm_compute; reflexivity.
Defined.

Lemma mutex_no_lost_wakeup_witness :
  asleep contended_cfg 1 /\
  (state contended_cfg = 2 \/ exists j u, at_run contended_cfg j u /\ urgent u = true).
Proof.
  assert (asleep contended_cfg 1) as H by (eexists _, _, _; vm_compute; reflexivity).
  split; [exact H|]. apply (mutex_no_lost_wakeup [] 2 contended_cfg 1 contended_reachable H).
Defined.
