(* ===== verification/TypedMutex.v ===== *)
(** Typed mutexes ([TypedMutex] of [src/substrate/sync.rs]): NORMAL, RECURSIVE
    and ERRORCHECK.  Word 0 is the futex word, word 1 the owner, word 2 the
    recursion count.  [lock_inner], [lock_inner_timeout] and [unlock_inner] are
    the algorithms of the plain mutex (file Mutex).

    Threads have distinct ids below [u64::MAX], as [current_thread_id] reads
    them from each thread's TLS block. *)

From S2P Require Import Prelude Consts Futex Mutex.

Definition MUTEX_NORMAL : Z := 0.
Definition MUTEX_RECURSIVE : Z := 1.
Definition MUTEX_ERRORCHECK : Z := 2.

(** The bodies of the inner functions are those of the plain mutex, on the
    [state] word of the typed one. *)
Definition lock_inner : lock_pc -> act lock_pc := lock.
Definition lock_inner_timeout : lock_timeout_pc -> act lock_timeout_pc := lock_timeout.
Definition unlock_inner : unlock_pc -> act unlock_pc := unlock.

(** The owner word when nobody owns the mutex. *)
Definition NO_OWNER : Z := U64_MAX.

(** Closes goals saying that a step left a word alone. *)
Ltac naive_frame H :=
  repeat match type of H with
  | _ /\ _ => let H' := fresh in destruct H as [H' H]; try subst
  | _ \/ _ => destruct H as [H|H]; [naive_frame H|naive_frame H]
  end; subst; rewrite ?set_word_ne by done; done.

Section typed.
Context (mutex_type : Z).

Definition recursive : bool := mutex_type =? MUTEX_RECURSIVE.
Definition errorcheck : bool := mutex_type =? MUTEX_ERRORCHECK.
(** The types that check ownership. *)
Definition checked : bool := recursive || errorcheck.
Arguments recursive : simpl never.
Arguments checked : simpl never.

(** ** The code; [tid] is [current_thread_id()] *)

Inductive tlock_pc :=
| Tl_enter | Tl_recount | Tl_inner (p : lock_pc) | Tl_owner | Tl_count | Tl_ret (r : Z).

Definition typed_lock_entry : tlock_pc := if checked then Tl_enter else Tl_inner Lk_fast.

Definition typed_lock (tid : Z) (p : tlock_pc) : act tlock_pc :=
  match p with
  | Tl_enter => ALoad 1 (fun owner =>
      if owner =? tid then (if recursive then Tl_recount else Tl_ret TRONA_DEADLOCK)
      else Tl_inner Lk_fast)
  | Tl_recount => AFetch 2 (fun c => as_u32 (c + 1)) (fun _ => Tl_ret TRONA_OK)
  | Tl_inner q => act_map (fun q' => match q' with
                                     | Lk_done => if checked then Tl_owner else Tl_ret TRONA_OK
                                     | _ => Tl_inner q' end) (lock_inner q)
  | Tl_owner => AStore 1 tid (if recursive then Tl_count else Tl_ret TRONA_OK)
  | Tl_count => AStore 2 1 (Tl_ret TRONA_OK)
  | Tl_ret _ => AChoice []
  end.

Inductive ttry_pc := Ty_enter | Ty_recount | Ty_cas | Ty_owner | Ty_count | Ty_ret (r : Z).

Definition typed_try_entry : ttry_pc := if checked then Ty_enter else Ty_cas.

Definition typed_try_lock (tid : Z) (p : ttry_pc) : act ttry_pc :=
  match p with
  | Ty_enter => ALoad 1 (fun owner =>
      if owner =? tid then (if recursive then Ty_recount else Ty_ret TRONA_BUSY) else Ty_cas)
  | Ty_recount => AFetch 2 (fun c => as_u32 (c + 1)) (fun _ => Ty_ret TRONA_OK)
  | Ty_cas => ACas false 0 0 1 (fun ok =>
      if ok then (if checked then Ty_owner else Ty_ret TRONA_OK) else Ty_ret TRONA_BUSY)
  | Ty_owner => AStore 1 tid (if recursive then Ty_count else Ty_ret TRONA_OK)
  | Ty_count => AStore 2 1 (Ty_ret TRONA_OK)
  | Ty_ret _ => AChoice []
  end.

Inductive ttimed_pc :=
| Tt_enter (t : Z) | Tt_recount | Tt_inner (p : lock_timeout_pc) | Tt_owner | Tt_count | Tt_ret (r : Z).

Definition typed_timed_entry (t : Z) : ttimed_pc := if checked then Tt_enter t else Tt_inner (Lt_fast t).

Definition typed_lock_timeout (tid : Z) (p : ttimed_pc) : act ttimed_pc :=
  match p with
  | Tt_enter t => ALoad 1 (fun owner =>
      if owner =? tid then (if recursive then Tt_recount else Tt_ret TRONA_DEADLOCK)
      else Tt_inner (Lt_fast t))
  | Tt_recount => AFetch 2 (fun c => as_u32 (c + 1)) (fun _ => Tt_ret TRONA_OK)
  | Tt_inner q => act_map (fun q' => match q' with
                                     | Lt_done true => if checked then Tt_owner else Tt_ret TRONA_OK
                                     | Lt_done false => Tt_ret TRONA_TIMED_OUT
                                     | _ => Tt_inner q' end) (lock_inner_timeout q)
  | Tt_owner => AStore 1 tid (if recursive then Tt_count else Tt_ret TRONA_OK)
  | Tt_count => AStore 2 1 (Tt_ret TRONA_OK)
  | Tt_ret _ => AChoice []
  end.

Inductive tunlock_pc :=
| Tu_enter | Tu_dec | Tu_clear | Tu_zero | Tu_inner (p : unlock_pc) | Tu_ret (r : Z).

Definition typed_unlock_entry : tunlock_pc := if checked then Tu_enter else Tu_inner Ul_swap.

Definition typed_unlock (tid : Z) (p : tunlock_pc) : act tunlock_pc :=
  match p with
  | Tu_enter => ALoad 1 (fun owner =>
      if negb (owner =? tid) then Tu_ret TRONA_INVALID_OPERATION
      else if recursive then Tu_dec else Tu_clear)
  | Tu_dec => AFetch 2 (fun c => as_u32 (c - 1))
                (fun prev => if prev <=? 1 then Tu_clear else Tu_ret TRONA_OK)
  | Tu_clear => AStore 1 NO_OWNER (if recursive then Tu_zero else Tu_inner Ul_swap)
  | Tu_zero => AStore 2 0 (Tu_inner Ul_swap)
  | Tu_inner q => act_map (fun q' => match q' with
                                     | Ul_done => Tu_ret TRONA_OK
                                     | _ => Tu_inner q' end) (unlock_inner q)
  | Tu_ret _ => AChoice []
  end.

(** ** Threads that use the mutex, also wrongly *)

Inductive op_kind := KLock | KTry | KTimed | KUnlock.

Inductive tpc := PLock (p : tlock_pc) | PTry (p : ttry_pc) | PTimed (p : ttimed_pc) | PUnlock (p : tunlock_pc).

(** [depth]: how often the thread has locked and not yet unlocked the mutex;
    [last]: its last operation, the depth it was called at, and the result. *)
Inductive tst :=
| TIdle (depth : nat) (last : option (op_kind * nat * Z))
| TOp (depth : nat) (p : tpc).

Record tuser := mkT { tid : Z; st : tst }.

Definition locked_by (k : op_kind) (d : nat) (r : Z) : tst :=
  TIdle (if r =? TRONA_OK then S d else d) (Some (k, d, r)).

(** A function that has returned leaves the thread idle. *)
Definition settle (d : nat) (p : tpc) : tst :=
  match p with
  | PLock (Tl_ret r) => locked_by KLock d r
  | PTry (Ty_ret r) => locked_by KTry d r
  | PTimed (Tt_ret r) => locked_by KTimed d r
  | PUnlock (Tu_ret r) => TIdle (if r =? TRONA_OK then pred d else d) (Some (KUnlock, d, r))
  | _ => TOp d p
  end.

Context (timeouts : list Z).

(** What a thread may start: with a checked mutex anything at any time (up to a
    depth of [2^32 - 1], beyond which the count word would wrap); with a NORMAL
    mutex only lock when it does not hold it and unlock when it does. *)
Definition starts (d : nat) : list tpc :=
  let locks := PLock typed_lock_entry :: PTry typed_try_entry ::
               map (fun t => PTimed (typed_timed_entry t)) timeouts in
  if checked then
    (if Z.of_nat d <? U32_MAX then PUnlock typed_unlock_entry :: locks else [PUnlock typed_unlock_entry])
  else match d with O => locks | S _ => [PUnlock typed_unlock_entry] end.

Definition tcode (u : tuser) : act tuser :=
  let go d p := mkT (tid u) (settle d p) in
  match st u with
  | TIdle d _ => AChoice (map (fun p => mkT (tid u) (TOp d p)) (starts d))
  | TOp d (PLock p) => act_map (fun q => go d (PLock q)) (typed_lock (tid u) p)
  | TOp d (PTry p) => act_map (fun q => go d (PTry q)) (typed_try_lock (tid u) p)
  | TOp d (PTimed p) => act_map (fun q => go d (PTimed q)) (typed_lock_timeout (tid u) p)
  | TOp d (PUnlock p) => act_map (fun q => go d (PUnlock q)) (typed_unlock (tid u) p)
  end.

(** [n] threads with ids 0, 1, ...; the mutex is new. *)
Definition TypedMutex_new (n : nat) : cfg tuser :=
  mkCfg (fun a => if Nat.eqb a 1 then NO_OWNER else 0)
    (map (fun i => Run (mkT (Z.of_nat i) (TIdle 0 None))) (seq 0 n)).

(** ** The plain mutex underneath *)

Definition proj (s : tst) : user :=
  match s with
  | TIdle O _ => Outside
  | TIdle (S _) _ => Inside
  | TOp O (PLock p) =>
      match p with
      | Tl_enter => Locking Lk_fast | Tl_inner q => Locking q
      | Tl_owner | Tl_count => Inside | Tl_recount | Tl_ret _ => Outside
      end
  | TOp O (PTry p) =>
      match p with
      | Ty_enter | Ty_cas => Trying Tr_cas | Ty_owner | Ty_count => Inside
      | Ty_recount | Ty_ret _ => Outside
      end
  | TOp O (PTimed p) =>
      match p with
      | Tt_enter t => LockingTimed (Lt_fast t) | Tt_inner q => LockingTimed q
      | Tt_owner | Tt_count => Inside | Tt_recount | Tt_ret _ => Outside
      end
  | TOp O (PUnlock _) => Outside
  | TOp (S _) (PUnlock (Tu_inner q)) => Unlocking q
  | TOp (S _) _ => Inside
  end.

(** The owner word names this thread. *)
Definition is_owner (s : tst) : bool :=
  checked &&
  match s with
  | TIdle d _ => negb (Nat.eqb d 0)
  | TOp O (PLock Tl_count) | TOp O (PTry Ty_count) | TOp O (PTimed Tt_count) => true
  | TOp O _ => false
  | TOp (S _) (PUnlock (Tu_zero | Tu_inner _ | Tu_ret _)) => false
  | TOp (S _) _ => true
  end.

(** The recursion count the count word must show, where it is meaningful. *)
Definition expected_count (s : tst) : option Z :=
  if negb recursive then None else
  match s with
  | TIdle d _ => if Nat.eqb d 0 then None else Some (Z.of_nat d)
  | TOp (S d) (PLock _) | TOp (S d) (PTry _) | TOp (S d) (PTimed _)
  | TOp (S d) (PUnlock (Tu_enter | Tu_dec)) => Some (Z.of_nat (S d))
  | _ => None
  end.

(** ** The results each operation may have, by type and depth *)

Definition allowed (last : op_kind * nat * Z) : Prop :=
  let '(k, d, r) := last in
  match k, d with
  | KLock, O => r = TRONA_OK
  | KTry, O => r = TRONA_OK \/ r = TRONA_BUSY
  | KTimed, O => r = TRONA_OK \/ r = TRONA_TIMED_OUT
  | KUnlock, O => r = TRONA_INVALID_OPERATION
  | KLock, S _ | KTimed, S _ => r = if recursive then TRONA_OK else TRONA_DEADLOCK
  | KTry, S _ => r = if recursive then TRONA_OK else TRONA_BUSY
  | KUnlock, S _ => r = TRONA_OK
  end.

Definition depth_ok (d : nat) : Prop := if recursive then Z.of_nat d <= U32_MAX else (d <= 1)%nat.

(** The program points a thread can be at, by depth. *)
Definition pc_ok (s : tst) : Prop :=
  match s with
  | TIdle d last => depth_ok d /\ match last with None => True | Some x => allowed x end
  | TOp O (PLock p) =>
      match p with
      | Tl_enter | Tl_owner => checked = true
      | Tl_inner q => valid (Locking q) = true
      | Tl_count => recursive = true
      | _ => False
      end
  | TOp O (PTry p) =>
      match p with
      | Ty_enter | Ty_owner => checked = true | Ty_cas => True | Ty_count => recursive = true
      | _ => False
      end
  | TOp O (PTimed p) =>
      match p with
      | Tt_enter _ | Tt_owner => checked = true
      | Tt_inner q => valid (LockingTimed q) = true
      | Tt_count => recursive = true
      | _ => False
      end
  | TOp O (PUnlock p) => checked = true /\ p = Tu_enter
  | TOp (S d) (PLock p) => depth_ok (S d) /\ Z.of_nat (S d) < U32_MAX /\ checked = true /\
                           (p = Tl_enter \/ p = Tl_recount /\ recursive = true)
  | TOp (S d) (PTry p) => depth_ok (S d) /\ Z.of_nat (S d) < U32_MAX /\ checked = true /\
                          (p = Ty_enter \/ p = Ty_recount /\ recursive = true)
  | TOp (S d) (PTimed p) => depth_ok (S d) /\ Z.of_nat (S d) < U32_MAX /\ checked = true /\
                            ((exists t, p = Tt_enter t) \/ p = Tt_recount /\ recursive = true)
  | TOp (S d) (PUnlock p) =>
      depth_ok (S d) /\
      match p with
      | Tu_enter => checked = true
      | Tu_dec => recursive = true
      | Tu_clear => checked = true /\ d = 0%nat
      | Tu_zero => recursive = true /\ d = 0%nat
      | Tu_inner q => d = 0%nat /\ valid (Unlocking q) = true
      | Tu_ret _ => False
      end
  end.

Definition own_ok (m : nat -> Z) (i : nat) (s : tst) : Prop :=
  checked = true -> if is_owner s then m 1%nat = Z.of_nat i else m 1%nat <> Z.of_nat i.
Definition count_ok (m : nat -> Z) (s : tst) : Prop :=
  match expected_count s with Some c => m 2%nat = c | None => True end.

(** What a step of thread [i] from [s] to [s'] does. *)
Record tstep_ok (m m' : nat -> Z) (i : nat) (s s' : tst) : Prop := {
  ts_effect : effect (m 0%nat) (m' 0%nat) (proj s) (proj s');
  ts_valid : valid (proj s') = true;
  ts_pc : pc_ok s';
  ts_own : own_ok m' i s';
  ts_count : count_ok m' s';
  ts_frame : owns (proj s) = false -> m' 1%nat = m 1%nat /\ m' 2%nat = m 2%nat;
  ts_owner : m' 1%nat = m 1%nat \/ m' 1%nat = Z.of_nat i \/ m' 1%nat = NO_OWNER;
}.

Lemma checked_recursive : recursive = true -> checked = true.
Proof. unfold checked. by intros ->. Qed.

Lemma unchecked : checked = false -> recursive = false.
Proof. unfold checked. by intros [-> _]%orb_false_iff. Qed.

(** The inner algorithms take steps of the plain mutex, on word 0 only. *)
Lemma inner_lock m q m' q' :
  valid (Locking q) = true -> local_post m (lock q) m' q' ->
  effect (m 0%nat) (m' 0%nat) (Locking q) (after_lock q') /\ valid (after_lock q') = true /\
  m' 1%nat = m 1%nat /\ m' 2%nat = m 2%nat.
Proof.
  intros Hv Hl. destruct (post_effect [] m (Locking q) m' (after_lock q') Hv) as [He Hv'].
  { cbn [user_code]. apply local_post_map. eauto. }
  split; [done|]. split; [done|].
  destruct q; try done; cbn in Hl; naive_frame Hl.
Qed.

Lemma inner_timed m q m' q' :
  valid (LockingTimed q) = true -> local_post m (lock_timeout q) m' q' ->
  effect (m 0%nat) (m' 0%nat) (LockingTimed q) (after_timed q') /\ valid (after_timed q') = true /\
  m' 1%nat = m 1%nat /\ m' 2%nat = m 2%nat.
Proof.
  intros Hv Hl. destruct (post_effect [] m (LockingTimed q) m' (after_timed q') Hv) as [He Hv'].
  { cbn [user_code]. apply local_post_map. eauto. }
  split; [done|]. split; [done|].
  destruct q; try done; cbn in Hl; naive_frame Hl.
Qed.

Lemma inner_unlock m q m' q' :
  valid (Unlocking q) = true -> local_post m (unlock q) m' q' ->
  effect (m 0%nat) (m' 0%nat) (Unlocking q) (after_unlock q') /\ valid (after_unlock q') = true /\
  m' 1%nat = m 1%nat /\ m' 2%nat = m 2%nat.
Proof.
  intros Hv Hl. destruct (post_effect [] m (Unlocking q) m' (after_unlock q') Hv) as [He Hv'].
  { cbn [user_code]. apply local_post_map. eauto. }
  split; [done|]. split; [done|].
  destruct q; try done; cbn in Hl; naive_frame Hl.
Qed.

(** A step that leaves all words alone and stays on one side of the mutex. *)
Lemma tstep_quiet m i s s' :
  owns (proj s') = owns (proj s) -> urgent (proj s) = false -> valid (proj s') = true ->
  pc_ok s' -> own_ok m i s' -> count_ok m s' -> tstep_ok m m i s s'.
Proof. intros Ho Hu Hv Hpc Hown Hc. split; auto. by apply E_stay. Qed.

(** A step of the holder of the mutex on its owner and count words. *)
Lemma tstep_holder m m' i s s' :
  m' 0%nat = m 0%nat -> owns (proj s) = true -> owns (proj s') = true -> valid (proj s') = true ->
  pc_ok s' -> own_ok m' i s' -> count_ok m' s' ->
  m' 1%nat = m 1%nat \/ m' 1%nat = Z.of_nat i \/ m' 1%nat = NO_OWNER -> tstep_ok m m' i s s'.
Proof.
  intros H0 Ho Ho' Hv Hpc Hown Hc H1. split; auto; [|congruence].
  apply E_stay; [done|congruence|]. by destruct (proj s) as [|[]|[]|[]| |[]].
Qed.

(** A step of an inner algorithm. *)
Lemma tstep_inner m m' i s s' :
  effect (m 0%nat) (m' 0%nat) (proj s) (proj s') -> valid (proj s') = true ->
  m' 1%nat = m 1%nat -> m' 2%nat = m 2%nat ->
  pc_ok s' -> own_ok m i s' -> count_ok m s' -> tstep_ok m m' i s s'.
Proof.
  intros He Hv H1 H2 Hpc Hown Hc. split; auto.
  - unfold own_ok in *. by rewrite H1.
  - unfold count_ok in *. by rewrite H2.
Qed.

(** Computes the ownership and count conditions of concrete program points. *)
Ltac tfin :=
  unfold own_ok, count_ok, is_owner, expected_count, pc_ok, locked_by in *; cbn in *; unfold depth_ok in *;
  repeat match goal with
  | H : recursive = _ |- context [recursive] => rewrite H
  | H : checked = _ |- context [checked] => rewrite H
  | H : recursive = _, H' : context [recursive] |- _ => lazymatch H' with H => fail | _ => rewrite H in H' end
  | H : checked = _, H' : context [checked] |- _ => lazymatch H' with H => fail | _ => rewrite H in H' end
  end; cbn in *; unfold U32_MAX in *; rewrite ?andb_false_r in *; rewrite ?andb_true_r in *;
  rewrite ?set_word_eq, ?set_word_ne by done; try done; try lia; auto 8 with lia.

Lemma starts_ok d p :
  p ∈ starts d -> depth_ok d ->
  owns (proj (TOp d p)) = negb (Nat.eqb d 0) /\ valid (proj (TOp d p)) = true /\ pc_ok (TOp d p) /\
  is_owner (TOp d p) = is_owner (TIdle d None) /\ expected_count (TOp d p) = expected_count (TIdle d None).
Proof.
  unfold starts, typed_lock_entry, typed_try_entry, typed_timed_entry, typed_unlock_entry.
  intros Hin Hd. pose proof checked_recursive as Hcr. pose proof unchecked as Huc.
  unfold is_owner, expected_count.
  destruct checked eqn:Hc.
  - assert (p = PUnlock Tu_enter \/ Z.of_nat d < U32_MAX /\
      (p = PLock Tl_enter \/ p = PTry Ty_enter \/ exists t, p = PTimed (Tt_enter t))) as Hp.
    { destruct (Z.ltb_spec (Z.of_nat d) U32_MAX).
      - rewrite !elem_of_cons in Hin. destruct Hin as [->|[->|[->|Hin]]]; auto 6.
        apply list_elem_of_fmap in Hin as (t & -> & _). right. eauto 6.
      - rewrite list_elem_of_singleton in Hin. auto. }
    destruct Hp as [->|[Hlt [->|[->|[t ->]]]]]; destruct d; cbn; rewrite ?Hc; cbn;
      split_and!; eauto; by destruct recursive.
  - rewrite Huc by done. cbn [negb].
    destruct d as [|d].
    + rewrite !elem_of_cons in Hin. destruct Hin as [->|[->|Hin]]; [done|done|].
      apply list_elem_of_fmap in Hin as (t & -> & _). done.
    + rewrite list_elem_of_singleton in Hin. subst p. unfold depth_ok in *. rewrite Huc in * by done.
      cbn. unfold depth_ok. rewrite Huc by done. split_and!; try done; lia.
Qed.

(** The thread's own view of the owner word. *)
Lemma owner_seen m i s : checked = true -> own_ok m i s -> (m 1%nat =? Z.of_nat i) = is_owner s.
Proof.
  unfold own_ok. intros Hc H. specialize (H Hc).
  destruct (is_owner s); [by apply Z.eqb_eq|by apply Z.eqb_neq].
Qed.

Lemma not_owner_seen m i d x :
  checked = true -> own_ok m i (TOp d x) -> is_owner (TOp d x) = false -> (m 1%nat =? Z.of_nat i) = false.
Proof. intros Hc Ho H. by rewrite (owner_seen _ _ _ Hc Ho). Qed.

Lemma typed_lock_step m m' i d p q :
  pc_ok (TOp d (PLock p)) ->
  own_ok m i (TOp d (PLock p)) -> count_ok m (TOp d (PLock p)) ->
  local_post m (typed_lock (Z.of_nat i) p) m' q ->
  tstep_ok m m' i (TOp d (PLock p)) (settle d (PLock q)).
Proof.
  intros Hpc Hown Hcnt Hq. pose proof checked_recursive as Hcr. pose proof unchecked as Huc.
  destruct d as [|d].
  - destruct p as [| |p| | |r]; cbn [pc_ok] in Hpc; try done.
    + destruct Hq as [-> ->].
      rewrite (not_owner_seen m i _ _ Hpc Hown) by (unfold is_owner; apply andb_false_r).
      apply tstep_quiet; tfin.
    + cbn [typed_lock] in Hq. apply local_post_map in Hq as (q' & Hq & ->).
      destruct (inner_lock _ _ _ _ Hpc Hq) as (He & Hv & H1 & H2).
      unfold own_ok, is_owner in Hown. cbn in Hown. rewrite andb_false_r in Hown.
      destruct q'; try (apply tstep_inner; tfin; by rewrite andb_false_r).
      destruct checked eqn:Hc; [apply tstep_inner; tfin|].
      specialize (Huc eq_refl). apply tstep_inner; tfin.
    + destruct Hq as [-> ->]. destruct recursive eqn:Hr; apply tstep_holder; tfin.
    + destruct Hq as [-> ->]. specialize (Hcr Hpc). apply tstep_holder; tfin.
  - cbn [pc_ok] in Hpc. destruct Hpc as (Hd & Hlt & Hc & [->|[-> Hr]]).
    + destruct Hq as [-> ->]. rewrite (owner_seen _ _ _ Hc Hown). unfold is_owner at 1. rewrite Hc. cbn [andb].
      destruct recursive eqn:Hr; apply tstep_quiet; tfin.
    + destruct Hq as [-> ->]. apply tstep_holder; tfin.
      rewrite Hcnt. unfold as_u32. rewrite wrap_small; lia.
Qed.

Lemma typed_try_step m m' i d p q :
  pc_ok (TOp d (PTry p)) ->
  own_ok m i (TOp d (PTry p)) -> count_ok m (TOp d (PTry p)) ->
  local_post m (typed_try_lock (Z.of_nat i) p) m' q ->
  tstep_ok m m' i (TOp d (PTry p)) (settle d (PTry q)).
Proof.
  intros Hpc Hown Hcnt Hq. pose proof checked_recursive as Hcr. pose proof unchecked as Huc.
  destruct d as [|d].
  - destruct p as [| | | | |r]; cbn [pc_ok] in Hpc; try done.
    + destruct Hq as [-> ->].
      rewrite (not_owner_seen m i _ _ Hpc Hown) by (unfold is_owner; apply andb_false_r).
      apply tstep_quiet; tfin.
    + unfold own_ok, is_owner in Hown. cbn in Hown. rewrite andb_false_r in Hown.
      destruct Hq as [(Hm & -> & ->)|(Hm & -> & ->)].
      * destruct checked eqn:Hc; [|specialize (Huc eq_refl)]; (apply tstep_inner; [apply E_acquire; tfin| | | | | |]; tfin).
      * apply tstep_quiet; tfin. destruct recursive; lia.
    + destruct Hq as [-> ->]. destruct recursive eqn:Hr; apply tstep_holder; tfin.
    + destruct Hq as [-> ->]. specialize (Hcr Hpc). apply tstep_holder; tfin.
  - cbn [pc_ok] in Hpc. destruct Hpc as (Hd & Hlt & Hc & [->|[-> Hr]]).
    + destruct Hq as [-> ->]. rewrite (owner_seen _ _ _ Hc Hown). unfold is_owner at 1. rewrite Hc. cbn [andb].
      destruct recursive eqn:Hr; apply tstep_quiet; tfin.
    + destruct Hq as [-> ->]. apply tstep_holder; tfin.
      rewrite Hcnt. unfold as_u32. rewrite wrap_small; lia.
Qed.

Lemma typed_timed_step m m' i d p q :
  pc_ok (TOp d (PTimed p)) ->
  own_ok m i (TOp d (PTimed p)) -> count_ok m (TOp d (PTimed p)) ->
  local_post m (typed_lock_timeout (Z.of_nat i) p) m' q ->
  tstep_ok m m' i (TOp d (PTimed p)) (settle d (PTimed q)).
Proof.
  intros Hpc Hown Hcnt Hq. pose proof checked_recursive as Hcr. pose proof unchecked as Huc.
  destruct d as [|d].
  - destruct p as [t| |p| | |r]; cbn [pc_ok] in Hpc; try done.
    + destruct Hq as [-> ->].
      rewrite (not_owner_seen m i _ _ Hpc Hown) by (unfold is_owner; apply andb_false_r).
      apply tstep_quiet; tfin.
    + cbn [typed_lock_timeout] in Hq. apply local_post_map in Hq as (q' & Hq & ->).
      destruct (inner_timed _ _ _ _ Hpc Hq) as (He & Hv & H1 & H2).
      unfold own_ok, is_owner in Hown. cbn in Hown. rewrite andb_false_r in Hown.
      destruct q' as [| | | | | |[]]; try (apply tstep_inner; tfin; by rewrite andb_false_r).
      * destruct checked eqn:Hc; [|specialize (Huc eq_refl)]; apply tstep_inner; tfin.
      * apply tstep_inner; tfin. destruct recursive; lia.
    + destruct Hq as [-> ->]. destruct recursive eqn:Hr; apply tstep_holder; tfin.
    + destruct Hq as [-> ->]. specialize (Hcr Hpc). apply tstep_holder; tfin.
  - cbn [pc_ok] in Hpc. destruct Hpc as (Hd & Hlt & Hc & [[t ->]|[-> Hr]]).
    + destruct Hq as [-> ->]. rewrite (owner_seen _ _ _ Hc Hown). unfold is_owner at 1. rewrite Hc. cbn [andb].
      destruct recursive eqn:Hr; apply tstep_quiet; tfin.
    + destruct Hq as [-> ->]. apply tstep_holder; tfin.
      rewrite Hcnt. unfold as_u32. rewrite wrap_small; lia.
Qed.

Lemma typed_unlock_step m m' i d p q :
  Z.of_nat i < NO_OWNER -> pc_ok (TOp d (PUnlock p)) ->
  own_ok m i (TOp d (PUnlock p)) -> count_ok m (TOp d (PUnlock p)) ->
  local_post m (typed_unlock (Z.of_nat i) p) m' q ->
  tstep_ok m m' i (TOp d (PUnlock p)) (settle d (PUnlock q)).
Proof.
  intros Hi Hpc Hown Hcnt Hq. pose proof checked_recursive as Hcr. pose proof unchecked as Huc.
  destruct d as [|d].
  - destruct Hpc as [Hc ->]. destruct Hq as [-> ->].
    rewrite (not_owner_seen m i _ _ Hc Hown) by (unfold is_owner; apply andb_false_r).
    apply tstep_quiet; tfin. destruct recursive; lia.
  - destruct Hpc as [Hd Hpc]. destruct p as [| | | |p|r]; cbn in Hpc; try done.
    + destruct Hq as [-> ->]. rewrite (owner_seen _ _ _ Hpc Hown). unfold is_owner at 1. rewrite Hpc. cbn [andb negb].
      destruct recursive eqn:Hr; apply tstep_quiet; tfin.
    + destruct Hq as [-> ->]. pose proof (Hcr Hpc) as Hc.
      unfold count_ok, expected_count in Hcnt. rewrite Hpc in Hcnt. cbn [negb] in Hcnt.
      unfold own_ok, is_owner in Hown. rewrite Hc in Hown. cbn [andb] in Hown.
      unfold depth_ok in Hd. rewrite Hpc in Hd. rewrite Hcnt.
      destruct (Z.leb_spec (Z.of_nat (S d)) 1).
      * assert (d = 0)%nat as -> by lia. apply tstep_holder; tfin.
      * destruct d as [|d]; [lia|]. apply tstep_holder; tfin. unfold as_u32. rewrite wrap_small; lia.
    + destruct Hq as [-> ->]. destruct Hpc as [Hc ->].
      destruct recursive eqn:Hr; apply tstep_holder; tfin.
    + destruct Hq as [-> ->]. destruct Hpc as [Hr ->]. pose proof (Hcr Hr). apply tstep_holder; tfin.
    + destruct Hpc as [-> Hpc]. cbn [typed_unlock] in Hq. apply local_post_map in Hq as (q' & Hq & ->).
      destruct (inner_unlock _ _ _ _ Hpc Hq) as (He & Hv & H1 & H2).
      unfold own_ok, is_owner in Hown. cbn in Hown. rewrite andb_false_r in Hown.
      destruct q'; apply tstep_inner; tfin. destruct recursive; lia.
Qed.

(** ** The invariant of the whole system *)

Definition user_ok (m : nat -> Z) (i : nat) (u : tuser) : Prop :=
  tid u = Z.of_nat i /\ pc_ok (st u) /\ own_ok m i (st u) /\ count_ok m (st u).

Definition thread_ok (m : nat -> Z) (i : nat) (t : tstate tuser) : Prop :=
  match t with Run u => user_ok m i u | Sleep _ _ k => forall r, user_ok m i (k r) end.

Definition tproj (t : tstate tuser) : tstate user :=
  match t with
  | Run u => Run (proj (st u))
  | Sleep a timed k => Sleep a timed (fun r => proj (st (k r)))
  end.

(** The plain mutex seen through the typed one. *)
Definition inner (c : cfg tuser) : cfg user := mkCfg (words c) (map tproj (thr c)).

Record typed_inv (c : cfg tuser) : Prop := {
  ti_mutex : mutex_inv (inner c);
  ti_thread i t : thr c !! i = Some t -> thread_ok (words c) i t;
  ti_ids : Z.of_nat (length (thr c)) < NO_OWNER;
}.

(** Any step of a user keeps its part of the invariant. *)
Lemma typed_step m m' i u u' :
  Z.of_nat i < NO_OWNER -> user_ok m i u -> local_post m (tcode u) m' u' ->
  tstep_ok m m' i (st u) (st u') /\ tid u' = Z.of_nat i.
Proof.
  intros Hi (Ht & Hpc & Hown & Hcnt) Hl. destruct u as [x [d l|d [p|p|p|p]]]; cbn in *; subst x.
  - destruct Hl as [-> (p & -> & Hin)%list_elem_of_fmap]. cbn.
    destruct Hpc as [Hd _]. destruct (starts_ok d p Hin Hd) as (Ho & Hv & Hp & HO & HC).
    split; [|done]. apply tstep_quiet; [rewrite Ho; by destruct d|by destruct d|done|done| |].
    + unfold own_ok. by rewrite HO.
    + unfold count_ok. by rewrite HC.
  - apply local_post_map in Hl as (q & Hl & ->). split; [|done]. by apply typed_lock_step.
  - apply local_post_map in Hl as (q & Hl & ->). split; [|done]. by apply typed_try_step.
  - apply local_post_map in Hl as (q & Hl & ->). split; [|done]. by apply typed_timed_step.
  - apply local_post_map in Hl as (q & Hl & ->). split; [|done]. by apply typed_unlock_step.
Qed.

Lemma tstep_user_ok m m' i s u' : tstep_ok m m' i s (st u') -> tid u' = Z.of_nat i -> user_ok m' i u'.
Proof. intros [] Ht. by split_and!. Qed.

(** Owners and counting threads hold the mutex underneath. *)
Lemma owner_owns s : is_owner s = true -> pc_ok s -> owns (proj s) = true.
Proof.
  unfold is_owner. destruct checked; [|done]. destruct s as [[|d] l|[|d] [[]|[]|[]|[]]]; done.
Qed.

Lemma count_owns s c : expected_count s = Some c -> owns (proj s) = true.
Proof.
  unfold expected_count. destruct recursive; [|done].
  destruct s as [[|d] l|[|d] [[]|[]|[]|[]]]; done.
Qed.

(** A step of one thread keeps the others' parts of the invariant. *)
Lemma user_ok_frame m m' i s s' j u :
  tstep_ok m m' i s s' -> Z.of_nat j < NO_OWNER -> j <> i ->
  (owns (proj (st u)) = true -> owns (proj s) = false) -> user_ok m j u -> user_ok m' j u.
Proof.
  intros [_ _ _ _ _ Hf Ho] Hj Hne Hex (Ht & Hpc & Hown & Hcnt). split; [done|]. split; [done|]. split.
  - unfold own_ok in *. destruct (is_owner (st u)) eqn:E.
    + destruct (Hf (Hex (owner_owns _ E Hpc))) as [-> _]. done.
    + destruct Ho as [-> |[-> | ->]]; [done|lia|lia].
  - unfold count_ok in *. destruct (expected_count (st u)) as [c|] eqn:E; [|done].
    destruct (Hf (Hex (count_owns _ _ E))) as [_ ->]. done.
Qed.

(** Only threads that do not hold the mutex run the inner lock algorithms. *)
Lemma inner_depth d p :
  pc_ok (TOp d p) -> (exists q, p = PLock (Tl_inner q)) \/ (exists q, p = PTimed (Tt_inner q)) -> d = 0%nat.
Proof.
  destruct d as [|d]; [done|]. intros H [[q ->]|[q ->]]; exfalso.
  - by destruct H as (_ & _ & _ & [H|[H _]]).
  - by destruct H as (_ & _ & _ & [[t H]|[H _]]).
Qed.

Lemma typed_sleep m i u a v timed k :
  user_ok m i u -> tcode u = AWait a v timed k ->
  a = 0%nat /\ v = 2 /\ owns (proj (st u)) = false /\
  forall r, (urgent (proj (st (k r))) = true /\ owns (proj (st (k r))) = false /\
             valid (proj (st (k r))) = true) /\ user_ok m i (k r).
Proof.
  intros (Ht & Hpc & Hown & Hcnt) Hc. destruct u as [x [d l|d [p|p|p|p]]]; cbn [tid st] in *; subst x; cbn in Hc; [done|..].
  - destruct p as [| |[]| | |]; try discriminate Hc. assert (d = 0%nat) as -> by (eapply inner_depth; eauto).
    injection Hc as <- <- <- <-. split_and!; done.
  - destruct p as [| | | | |]; discriminate Hc.
  - destruct p as [| |[]| | |]; try discriminate Hc. assert (d = 0%nat) as -> by (eapply inner_depth; eauto).
    injection Hc as <- <- <- <-. split_and!; try done. intros r.
    destruct (r =? TRONA_CANCELLED); (split; [done|]; by split_and!).
  - destruct p as [| | | |[]|]; discriminate Hc.
Qed.

Lemma typed_wake m i u a n u' :
  user_ok m i u -> tcode u = AWake a n u' ->
  a = 0%nat /\ n = 1 /\ owns (proj (st u)) = false /\ owns (proj (st u')) = false /\
  valid (proj (st u')) = true /\ user_ok m i u'.
Proof.
  intros (Ht & Hpc & Hown & Hcnt) Hc. destruct u as [x [d l|d [p|p|p|p]]]; cbn in *; subst x; [done|..].
  - destruct p as [| |[]| | |]; discriminate Hc.
  - destruct p as [| | | | |]; discriminate Hc.
  - destruct p as [| |[]| | |]; discriminate Hc.
  - destruct p as [| | | |[]|]; try discriminate Hc. destruct d as [|d]; [by destruct Hpc|].
    destruct Hpc as (_ & -> & _). injection Hc as <- <- <-. split_and!; try done.
    split; [done|]. split; [tfin; destruct recursive; lia|].
    unfold own_ok, count_ok, is_owner, expected_count in *. cbn in *. rewrite andb_false_r in *.
    split; [done|]. by destruct recursive.
Qed.

(** ** The projection to the plain mutex *)

Lemma inner_insert m ts i t :
  inner (mkCfg m (<[i := t]> ts)) = mkCfg m (<[i := tproj t]> (map tproj ts)).
Proof. unfold inner. cbn. f_equal. apply (list_fmap_insert tproj). Qed.

Lemma tproj_wake t : tproj (wake t) = wake (tproj t).
Proof. by destruct t. Qed.

Lemma tproj_wake_all js ts : map tproj (wake_all js ts) = wake_all js (map tproj ts).
Proof.
  revert ts. induction js as [|j js IH]; intros ts; cbn [wake_all]; [done|]. rewrite IH. f_equal.
  apply (list_fmap_alter tproj). apply Forall_forall. intros t _. apply tproj_wake.
Qed.

Lemma sleeps_on_tproj a t : sleeps_on a (tproj t) = sleeps_on a t.
Proof. by destruct t. Qed.

Lemma filter_tproj a ts :
  length (List.filter (sleeps_on a) (map tproj ts)) = length (List.filter (sleeps_on a) ts).
Proof.
  induction ts as [|t ts IH]; cbn; [done|]. rewrite sleeps_on_tproj.
  destruct (sleeps_on a t); cbn; congruence.
Qed.

Lemma wake_ok_tproj a n js ts : wake_ok a n js (map tproj ts) = wake_ok a n js ts.
Proof.
  unfold wake_ok. rewrite filter_tproj. do 3 f_equal. change (map tproj ts) with (tproj <$> ts).
  induction js as [|j js IH]; [done|]. cbn [forallb]. rewrite IH. f_equal. rewrite list_lookup_fmap.
  destruct (ts !! j); cbn; [apply sleeps_on_tproj|done].
Qed.

Lemma inner_run c i u : thr c !! i = Some (Run u) -> at_run (inner c) i (proj (st u)).
Proof.
  intros H. unfold at_run, inner. cbn. change (map tproj (thr c)) with (tproj <$> thr c).
  by rewrite list_lookup_fmap, H.
Qed.

Lemma inner_sleep c i a timed k :
  thr c !! i = Some (Sleep a timed k) -> thr (inner c) !! i = Some (Sleep a timed (fun r => proj (st (k r)))).
Proof.
  intros H. unfold inner. cbn. change (map tproj (thr c)) with (tproj <$> thr c).
  by rewrite list_lookup_fmap, H.
Qed.

(** Threads other than the one that steps keep their part of the invariant. *)
Lemma thread_ok_frame c i u m' s' j t :
  typed_inv c -> thr c !! i = Some (Run u) -> tstep_ok (words c) m' i (st u) s' ->
  j <> i -> thr c !! j = Some t -> thread_ok m' j t.
Proof.
  intros [HM HT HL] Hi Hs Hne Hj. pose proof (HT _ _ Hj) as Hok.
  assert (Z.of_nat j < NO_OWNER) by (apply lookup_lt_Some in Hj; lia).
  destruct t as [w|a timed k].
  - eapply user_ok_frame; eauto. intros Ho. destruct (owns (proj (st u))) eqn:E; [|done].
    exfalso. apply Hne. exact (mi_excl _ HM _ _ _ _ (inner_run _ _ _ Hj) (inner_run _ _ _ Hi) Ho E).
  - intros r. eapply user_ok_frame; eauto. intros Ho.
    destruct (mi_sleep _ HM _ _ _ _ r (inner_sleep _ _ _ _ _ Hj)) as (_ & _ & ? & _). congruence.
Qed.

Lemma typed_inv_moves c c' : typed_inv c -> moves tcode c c' -> typed_inv c'.
Proof.
  intros HI Hm. pose proof HI as [HM HT HL].
  destruct Hm as [i u m u' Hi Hl|i u a v tm k Hi Hc Hw|i u a n u' js Hi Hc Hok|i a tm k r Hi _];
    pose proof (HT _ _ Hi) as Hu.
  - assert (Z.of_nat i < NO_OWNER) as Hlt by (apply lookup_lt_Some in Hi; lia).
    destruct (typed_step _ _ _ _ _ Hlt Hu (local_inv _ _ _ _ _ Hl)) as [Hs Ht].
    split; cbn [words thr]; [|intros j t [[-> ->]|[Hne Hj]]%insert_cases|by rewrite length_insert].
    + rewrite inner_insert. apply (inv_local (inner c) i (proj (st u)));
        [done|by apply inner_run|apply Hs|apply Hs].
    + by eapply tstep_user_ok.
    + by eapply thread_ok_frame.
  - destruct (typed_sleep _ _ _ _ _ _ _ Hu Hc) as (-> & -> & Ho & Hk).
    split; cbn [words thr]; [|intros j t [[-> ->]|[_ Hj]]%insert_cases; [|by apply HT]|by rewrite length_insert].
    + rewrite inner_insert. eapply (inv_sleep_gen (inner c)); [done|by apply inner_run|done|done|].
      intros r. apply Hk.
    + intros r. apply Hk.
  - destruct (typed_wake _ _ _ _ _ _ Hu Hc) as (-> & -> & Ho & Ho' & Hv & Hu').
    split; cbn [words thr]; [|intros j t [[-> ->]|[_ Hj]]%insert_cases; [done|]|
                              by rewrite length_insert, length_wake_all].
    + rewrite inner_insert, tproj_wake_all.
      eapply (inv_wake_gen (inner c)); [done|by apply inner_run|done|done|done|].
      cbn. by rewrite wake_ok_tproj.
    + destruct (wake_ok_cases _ _ _ _ _ _ Hok Hj) as [Hj'|(tm & k & _ & Hj' & ->)]; [by apply HT|].
      apply (HT _ _ Hj').
  - split; cbn [words thr]; [|intros j t [[-> ->]|[_ Hj]]%insert_cases; [|by apply HT]|by rewrite length_insert].
    + rewrite inner_insert. exact (inv_resume (inner c) _ _ _ _ r HM (inner_sleep _ _ _ _ _ Hi)).
    + apply Hu.
Qed.

Lemma new_lookup n i t :
  thr (TypedMutex_new n) !! i = Some t -> t = Run (mkT (Z.of_nat i) (TIdle 0 None)) /\ (i < n)%nat.
Proof.
  unfold TypedMutex_new. cbn. intros H.
  apply (list_lookup_fmap_Some_1 _ _ _ _) in H as (x & -> & [-> ?]%lookup_seq). done.
Qed.

Lemma typed_inv_new n : Z.of_nat n < NO_OWNER -> typed_inv (TypedMutex_new n).
Proof.
  intros Hn. split.
  - replace (inner (TypedMutex_new n)) with (mkCfg (words (TypedMutex_new n)) (thr (Mutex_new n))).
    { pose proof (mutex_inv_new n) as [? ? ? ? ? ? ?]. by split. }
    unfold inner, TypedMutex_new, Mutex_new. cbn. f_equal. rewrite List.map_map. cbn.
    generalize 0%nat. induction n as [|n IH]; intros k; cbn; [done|]. f_equal. apply IH. lia.
  - intros i t [-> Hi]%new_lookup. cbn. unfold user_ok, own_ok, count_ok, is_owner, expected_count. cbn.
    rewrite andb_false_r. split_and!; [done| |done|lia|by destruct recursive].
    unfold depth_ok, U32_MAX. destruct recursive; lia.
  - unfold TypedMutex_new. cbn. by rewrite length_map, length_seq.
Qed.

Lemma typed_inv_reachable n c :
  Z.of_nat n < NO_OWNER -> reachable tcode (TypedMutex_new n) c -> typed_inv c.
Proof. intros Hn. apply reachable_inv; [by apply typed_inv_new|apply typed_inv_moves]. Qed.
End typed.

(** ownership of typed mutexes.  In every reachable state, whatever the
    threads do (for RECURSIVE and ERRORCHECK also locking again, or unlocking a
    mutex they do not own), a thread whose locks outnumber its unlocks by
    [S d] is the only such thread; the futex word says locked; for the checked
    types the owner word is its id; for RECURSIVE the count word is [S d], for
    the other types [d] is 0. *)
Theorem typed_mutex_ownership ty timeouts n c i u d l :
  Z.of_nat n < NO_OWNER -> reachable (tcode ty timeouts) (TypedMutex_new n) c ->
  thr c !! i = Some (Run u) -> st u = TIdle (S d) l ->
  words c 0%nat <> 0 /\
  (checked ty = true -> words c 1%nat = Z.of_nat i) /\
  (if recursive ty then words c 2%nat = Z.of_nat (S d) else d = 0%nat) /\
  (forall j v e l', thr c !! j = Some (Run v) -> st v = TIdle (S e) l' -> j = i).
Proof.
  intros Hn Hr Hi Hu. destruct (typed_inv_reachable _ _ _ _ Hn Hr) as [HM HT HL].
  pose proof (HT _ _ Hi) as (_ & Hpc & Hown & Hcnt).
  pose proof (inner_run _ _ _ Hi) as Hri. rewrite Hu in *. split; [|split; [|split]].
  - exact (mi_free _ HM _ _ Hri eq_refl).
  - intros Hc. specialize (Hown Hc). unfold is_owner in Hown. by rewrite Hc in Hown.
  - destruct Hpc as [Hd _]. unfold depth_ok in Hd. unfold count_ok, expected_count in Hcnt.
    destruct (recursive ty); [done|lia].
  - intros j v e l' Hj Hv. pose proof (inner_run _ _ _ Hj) as Hrj. rewrite Hv in Hrj.
    exact (mi_excl _ HM _ _ _ _ Hrj Hri eq_refl eq_refl).
Qed.

(** results of typed mutexes.  Every completed operation returned a result
    its type and the caller's depth allow: a lock of a mutex the caller does
    not hold succeeds (a try-lock may say BUSY, a timed lock TIMED_OUT);
    locking again succeeds for RECURSIVE, and is DEADLOCK (BUSY for try-lock)
    otherwise; unlock succeeds exactly for the owner and is INVALID_OPERATION
    for everybody else. *)
Theorem typed_mutex_results ty timeouts n c i u d x :
  Z.of_nat n < NO_OWNER -> reachable (tcode ty timeouts) (TypedMutex_new n) c ->
  thr c !! i = Some (Run u) -> st u = TIdle d (Some x) -> allowed ty x.
Proof.
  intros Hn Hr Hi Hu. destruct (typed_inv_reachable _ _ _ _ Hn Hr) as [HM HT HL].
  pose proof (HT _ _ Hi) as (_ & Hpc & _). rewrite Hu in Hpc. apply Hpc.
Qed.

(** Thread 0 locks a RECURSIVE mutex twice; thread 1 fails to unlock it. *)
Definition nested : list event :=
  [GoPick 0 1; Go 0; Go 0; Go 0; Go 0; GoPick 0 1; Go 0; Go 0; GoPick 1 0; Go 1].

Definition nested_cfg : cfg tuser :=
  default (TypedMutex_new 2) (run (tcode MUTEX_RECURSIVE []) nested (TypedMutex_new 2)).

Lemma nested_reachable : reachable (tcode MUTEX_RECURSIVE []) (TypedMutex_new 2) nested_cfg.
Proof. exists nested. vm_compute. reflexivity. Qed.

Lemma typed_mutex_ownership_witness :
  words nested_cfg 1%nat = 0 /\ words nested_cfg 2%nat = 2.
Proof.
  destruct (typed_mutex_ownership MUTEX_RECURSIVE [] 2 nested_cfg 0
    (mkT 0 (TIdle 2 (Some (KLock, 1%nat, TRONA_OK)))) 1 _ eq_refl nested_reachable eq_refl eq_refl)
    as (_ & H1 & H2 & _).
  split; [exact (H1 eq_refl)|exact H2].
Defined.

Lemma typed_mutex_results_witness :
  allowed MUTEX_RECURSIVE (KUnlock, 0%nat, TRONA_INVALID_OPERATION).
Proof.
  apply (typed_mutex_results MUTEX_RECURSIVE [] 2 nested_cfg 1
    (mkT 1 (TIdle 0 (Some (KUnlock, 0%nat, TRONA_INVALID_OPERATION)))) 0 _ eq_refl nested_reachable eq_refl eq_refl).
Defined.
