(* ===== verification/Once.v ===== *)
(** Run-exactly-once initialisation ([Once] of [src/substrate/sync.rs]).

    Word 0 is the state of the [Once]; the closure [f] is represented by its
    effect of incrementing word 1, so that word 1 counts its executions. *)

From S2P Require Import Prelude Consts Futex.

Definition ONCE_UNINIT : Z := 0.
Definition ONCE_RUNNING : Z := 1.
Definition ONCE_COMPLETE : Z := 2.

Inductive once_pc :=
| On_load | On_cas | On_call | On_store | On_wake | On_recheck | On_wait | On_return.

Definition call_once (p : once_pc) : act once_pc :=
  match p with
  | On_load => ALoad 0 (fun s => if s =? ONCE_COMPLETE then On_return
                                 else if s =? ONCE_UNINIT then On_cas else On_recheck)
  | On_cas => ACas false 0 ONCE_UNINIT ONCE_RUNNING (fun ok => if ok then On_call else On_recheck)
  | On_call => AFetch 1 (fun n => n + 1) (fun _ => On_store)               (* f() *)
  | On_store => AStore 0 ONCE_COMPLETE On_wake
  | On_wake => AWake 0 U32_MAX On_return
  | On_recheck => ALoad 0 (fun s => if s =? ONCE_COMPLETE then On_return else On_wait)
  | On_wait => AWait 0 ONCE_RUNNING false (fun _ => On_recheck)
  | On_return => AChoice [On_load]                                         (* may call again *)
  end.

(** [n] threads about to call [call_once] on a new [Once]. *)
Definition Once_new (n : nat) : cfg once_pc := mkCfg (fun _ => 0) (replicate n (Run On_load)).

Definition once_state (c : cfg once_pc) : Z := words c 0%nat.
Definition runs (c : cfg once_pc) : Z := words c 1%nat.

(** The thread that won the race, before it completes the [Once]. *)
Definition is_runner (t : tstate once_pc) : bool :=
  match t with Run On_call | Run On_store => true | _ => false end.
Definition is_calling (t : tstate once_pc) : bool :=
  match t with Run On_call => true | _ => false end.

Definition before_race (p : once_pc) : bool :=
  match p with On_load | On_cas => true | _ => false end.

Record once_inv (c : cfg once_pc) : Prop := {
  oi_state : once_state c = ONCE_UNINIT \/ once_state c = ONCE_RUNNING \/ once_state c = ONCE_COMPLETE;
  oi_runner : count is_runner (thr c) = if once_state c =? ONCE_RUNNING then 1%nat else 0%nat;
  oi_runs : runs c + Z.of_nat (count is_calling (thr c)) =
              (if once_state c =? ONCE_UNINIT then 0 else 1);
  oi_early i p : once_state c = ONCE_UNINIT -> thr c !! i = Some (Run p) -> before_race p = true;
  oi_done i p : thr c !! i = Some (Run p) -> p = On_wake \/ p = On_return ->
                once_state c = ONCE_COMPLETE;
  oi_sleep i a timed k : thr c !! i = Some (Sleep a timed k) ->
    a = 0%nat /\ (forall r, k r = On_recheck) /\
    (once_state c = ONCE_RUNNING \/
     once_state c = ONCE_COMPLETE /\ exists j, thr c !! j = Some (Run On_wake));
}.

Lemma once_early_sleep c i a timed k :
  once_inv c -> thr c !! i = Some (Sleep a timed k) -> once_state c <> ONCE_UNINIT.
Proof.
  intros HI Hi. destruct (oi_sleep c HI _ _ _ _ Hi) as (_ & _ & [->|[-> _]]); done.
Qed.

(** A step of thread [i] from [p] to [p'] that leaves the state word alone and
    neither enters nor leaves the closure. *)
Lemma once_stay c i p p' :
  once_inv c -> thr c !! i = Some (Run p) ->
  is_runner (Run p') = is_runner (Run p) -> is_calling (Run p') = is_calling (Run p) ->
  p <> On_wake -> (once_state c = ONCE_UNINIT -> before_race p' = true) ->
  (p' = On_wake \/ p' = On_return -> once_state c = ONCE_COMPLETE) ->
  once_inv (mkCfg (words c) (<[i := Run p']> (thr c))).
Proof.
  intros [Hst Hrun Hcnt He Hd Hsl] Hi Hr Hc Hw Hearly Hdone.
  split; unfold once_state, runs in *; cbn [thr words].
  - done.
  - by rewrite (count_insert_same _ _ _ _ _ Hi Hr).
  - by rewrite (count_insert_same _ _ _ _ _ Hi Hc).
  - intros j q H0 [[-> [= ->]]|[_ Hj]]%insert_cases; [by apply Hearly|by eapply He].
  - intros j q [[-> [= ->]]|[_ Hj]]%insert_cases Hq; [by apply Hdone|by eapply Hd].
  - intros j a tm k [[_ ?]|[_ Hj]]%insert_cases; [done|].
    destruct (Hsl _ _ _ _ Hj) as (Ha & Hk & Hs). split; [done|]. split; [done|].
    destruct Hs as [?|[? (j' & Hj')]]; [by left|]. right. split; [done|]. exists j'.
    rewrite list_lookup_insert_ne; [done|]. intros ->. congruence.
Qed.

(** Winning the race. *)
Lemma once_win c i :
  once_inv c -> thr c !! i = Some (Run On_cas) -> once_state c = ONCE_UNINIT ->
  once_inv (mkCfg (set_word (words c) 0 ONCE_RUNNING) (<[i := Run On_call]> (thr c))).
Proof.
  intros HI Hi Hm. pose proof HI as [Hst Hrun Hcnt He Hd Hsl]. unfold once_state, runs in *.
  rewrite Hm in *. cbn in Hrun, Hcnt.
  pose proof (count_insert is_runner _ _ _ (Run On_call) Hi) as C1.
  pose proof (count_insert is_calling _ _ _ (Run On_call) Hi) as C2. cbn in C1, C2.
  split; unfold once_state, runs; cbn [thr words]; rewrite ?set_word_eq, ?set_word_ne by done; try done.
  - by right; left.
  - cbn. lia.
  - cbn. lia.
  - intros j q [[-> [= ->]]|[_ Hj]]%insert_cases Hq; [by destruct Hq|].
    apply (He j q eq_refl) in Hj. by destruct Hq as [-> | ->].
  - intros j a tm k [[_ ?]|[_ Hj]]%insert_cases; [done|].
    exfalso. by eapply (once_early_sleep c).
Qed.

(** The winner runs only while the state says so. *)
Lemma once_running c i p :
  once_inv c -> thr c !! i = Some (Run p) -> is_runner (Run p) = true -> once_state c = ONCE_RUNNING.
Proof.
  intros HI Hi Hp. pose proof (count_pos is_runner _ _ _ Hi Hp) as H. rewrite (oi_runner c HI) in H.
  destruct (Z.eqb_spec (once_state c) ONCE_RUNNING); [done|lia].
Qed.

(** The closure runs. *)
Lemma once_run c i :
  once_inv c -> thr c !! i = Some (Run On_call) ->
  once_inv (mkCfg (set_word (words c) 1 (words c 1%nat + 1)) (<[i := Run On_store]> (thr c))).
Proof.
  intros HI Hi. pose proof (once_running _ _ _ HI Hi eq_refl) as E.
  pose proof HI as [Hst Hrun Hcnt He Hd Hsl]. unfold once_state, runs in *. rewrite E in *. cbn in Hcnt, Hrun.
  pose proof (count_insert is_runner _ _ _ (Run On_store) Hi) as C1.
  pose proof (count_insert is_calling _ _ _ (Run On_store) Hi) as C2. cbn in C1, C2.
  split; unfold once_state, runs; cbn [thr words]; rewrite ?set_word_eq, ?set_word_ne by done; rewrite ?E;
    try done.
  - cbn. lia.
  - cbn. lia.
  - intros j q [[-> [= ->]]|[_ Hj]]%insert_cases Hq; [by destruct Hq|by eapply Hd].
  - intros j a tm k [[_ ?]|[_ Hj]]%insert_cases; [done|].
    destruct (Hsl _ _ _ _ Hj) as (? & ? & _). split; [done|]. split; [done|]. by left.
Qed.

(** The winner publishes completion. *)
Lemma once_complete c i :
  once_inv c -> thr c !! i = Some (Run On_store) ->
  once_inv (mkCfg (set_word (words c) 0 ONCE_COMPLETE) (<[i := Run On_wake]> (thr c))).
Proof.
  intros HI Hi. pose proof (once_running _ _ _ HI Hi eq_refl) as E.
  pose proof HI as [Hst Hrun Hcnt He Hd Hsl]. unfold once_state, runs in *. rewrite E in *. cbn in Hcnt, Hrun.
  pose proof (count_insert is_runner _ _ _ (Run On_wake) Hi) as C1.
  pose proof (count_insert is_calling _ _ _ (Run On_wake) Hi) as C2. cbn in C1, C2.
  split; unfold once_state, runs; cbn [thr words]; rewrite ?set_word_eq, ?set_word_ne by done; try done.
  - by right; right.
  - cbn. lia.
  - cbn. lia.
  - intros j a tm k [[_ ?]|[_ Hj]]%insert_cases; [done|].
    destruct (Hsl _ _ _ _ Hj) as (? & ? & _). split; [done|]. split; [done|]. right. split; [done|].
    exists i. by eapply insert_here.
Qed.

Lemma once_local c i p m p' :
  once_inv c -> thr c !! i = Some (Run p) -> local call_once (words c) p m p' ->
  once_inv (mkCfg m (<[i := Run p']> (thr c))).
Proof.
  intros HI Hi Hl%local_inv. pose proof HI as [_ _ _ He _ _].
  unfold once_state in *. destruct p; cbn in Hl.
  - destruct Hl as [-> ->]. apply (once_stay c i On_load); try done; unfold once_state;
      repeat case_if; try done; intros; unfold ONCE_UNINIT, ONCE_COMPLETE in *;
      try lia; by destruct H.
  - destruct Hl as [(Hm & -> & ->)|([Hm|?] & -> & ->)]; [by apply once_win| |done].
    apply (once_stay c i On_cas); try done. by intros [?|?].
  - destruct Hl as [-> ->]. by apply once_run.
  - destruct Hl as [-> ->]. by apply once_complete.
  - done.
  - destruct Hl as [-> ->]. apply (once_stay c i On_recheck); try done; unfold once_state; case_if; try done.
    all: try (intros H0; exfalso; by specialize (He i _ H0 Hi)).
    by intros [?|?].
  - destruct Hl as (Hm & -> & ->). apply (once_stay c i On_wait); try done; [|by intros [?|?]].
    intros H0. by specialize (He i _ H0 Hi).
  - destruct Hl as [-> Hin]. apply list_elem_of_singleton in Hin as ->.
    apply (once_stay c i On_return); try done. by intros [?|?].
Qed.

Lemma once_sleep c i p a v timed k :
  once_inv c -> thr c !! i = Some (Run p) -> call_once p = AWait a v timed k -> words c a = v ->
  once_inv (mkCfg (words c) (<[i := Sleep a timed k]> (thr c))).
Proof.
  intros [Hst Hrun Hcnt He Hd Hsl] Hi Hc Hw. destruct p; cbn in Hc; try discriminate Hc.
  injection Hc as [= <- <- <- <-]. split; unfold once_state, runs in *; cbn [thr words].
  - done.
  - by rewrite (count_insert_same _ _ _ _ _ Hi).
  - by rewrite (count_insert_same _ _ _ _ _ Hi).
  - intros j q H0 [[_ ?]|[_ Hj]]%insert_cases; [done|by eapply He].
  - intros j q [[_ ?]|[_ Hj]]%insert_cases; [done|by eapply Hd].
  - intros j a tm k [[-> [= -> -> ->]]|[_ Hj]]%insert_cases.
    + split; [done|]. split; [done|]. by left.
    + rewrite Hw in *. destruct (Hsl _ _ _ _ Hj) as (? & ? & _). split; [done|]. split; [done|]. by left.
Qed.

Lemma once_wake c i p a n p' js :
  once_inv c -> thr c !! i = Some (Run p) -> call_once p = AWake a n p' ->
  wake_ok a n js (thr c) = true -> Z.of_nat (length (thr c)) < U32_MAX ->
  once_inv (mkCfg (words c) (<[i := Run p']> (wake_all js (thr c)))).
Proof.
  intros HI Hi Hc Hok Hlen. pose proof HI as [Hst Hrun Hcnt He Hd Hsl].
  destruct p; cbn in Hc; try discriminate Hc. injection Hc as [= <- <- <-].
  assert (once_state c = ONCE_COMPLETE) as E by (eapply Hd; [done|by left]).
  destruct (not_sleeping_wake _ _ _ _ _ _ Hok Hi) as [_ Hi'].
  assert (forall f, (f = is_runner \/ f = is_calling) ->
    count f (<[i := Run On_return]> (wake_all js (thr c))) = count f (thr c)) as Hcount.
  { intros f Hf. rewrite (count_insert_same f _ _ _ _ Hi') by (by destruct Hf as [->| ->]).
    apply count_wake_all. intros j [q|b tm k] Hj; [done|].
    destruct (Hsl _ _ _ _ Hj) as (_ & Hk & _). cbn [wake]. rewrite Hk. by destruct Hf as [->| ->]. }
  split; unfold once_state, runs in *; cbn [thr words].
  - done.
  - rewrite Hcount; auto.
  - rewrite Hcount; auto.
  - intros j q H0. rewrite E in H0. discriminate.
  - done.
  - intros j b tm k [[_ ?]|[_ Hj]]%insert_cases; [done|].
    destruct (wake_ok_cases _ _ _ _ _ _ Hok Hj) as [Hs|(? & ? & _ & _ & ?)]; [|done].
    destruct (Hsl _ _ _ _ Hs) as (-> & Hk & _). exfalso.
    eapply (wake_ok_all _ _ _ _ j tm k Hok); [|exact Hj]. done.
Qed.

Lemma once_resume c i a timed k r :
  once_inv c -> thr c !! i = Some (Sleep a timed k) ->
  once_inv (mkCfg (words c) (<[i := Run (k r)]> (thr c))).
Proof.
  intros HI Hi. pose proof HI as [Hst Hrun Hcnt He Hd Hsl].
  destruct (Hsl _ _ _ _ Hi) as (_ & Hk & _). rewrite Hk.
  pose proof (once_early_sleep _ _ _ _ _ HI Hi) as Hne.
  split; unfold once_state, runs in *; cbn [thr words].
  - done.
  - by rewrite (count_insert_same _ _ _ _ _ Hi).
  - by rewrite (count_insert_same _ _ _ _ _ Hi).
  - done.
  - intros j q [[-> [= ->]]|[_ Hj]]%insert_cases Hq; [by destruct Hq|by eapply Hd].
  - intros j b tm k' [[_ ?]|[_ Hj]]%insert_cases; [done|].
    destruct (Hsl _ _ _ _ Hj) as (? & ? & Hs). split; [done|]. split; [done|].
    destruct Hs as [?|[? (j' & Hj')]]; [by left|]. right. split; [done|]. exists j'.
    rewrite list_lookup_insert_ne; [done|]. intros ->. congruence.
Qed.

Lemma once_inv_reachable n c :
  Z.of_nat n < U32_MAX -> reachable call_once (Once_new n) c -> once_inv c /\ length (thr c) = n.
Proof.
  intros Hn. apply (reachable_inv _ (fun c => once_inv c /\ length (thr c) = n)).
  - split; [|apply length_replicate].
    split; unfold once_state, runs, Once_new; cbn [thr words]; try by left.
    + by rewrite count_replicate.
    + by rewrite count_replicate.
    + intros i p _ [[= ->] _]%lookup_replicate. done.
    + intros i p [[= ->] _]%lookup_replicate [?|?]; done.
    + intros i a t k [? _]%lookup_replicate. done.
  - intros c1 c2 [HI Hl] Hm. split; [|by rewrite (length_moves _ _ _ Hm)].
    destruct Hm as [i p m p' Hi Hlo|i p a v tm k Hi Hc Hw|i p a m p' js Hi Hc Hok|i a tm k r Hi _].
    + by eapply once_local.
    + by eapply once_sleep.
    + eapply once_wake; try done. by rewrite Hl.
    + by eapply once_resume.
Qed.

(** C38: with any number of threads calling [call_once] (repeatedly) in any
    interleaving, the closure runs at most once; a thread returns only after
    the closure has completed; and no caller is left asleep: whenever a thread
    sleeps, the closure is still running in some running thread, or the thread
    that ran it is about to wake all sleepers. *)
Theorem call_once_spec n c :
  Z.of_nat n < U32_MAX -> reachable call_once (Once_new n) c ->
  0 <= runs c <= 1 /\
  (forall i, thr c !! i = Some (Run On_return) -> runs c = 1 /\ once_state c = ONCE_COMPLETE) /\
  (forall i a timed k, thr c !! i = Some (Sleep a timed k) ->
     exists j p, thr c !! j = Some (Run p) /\ (p = On_call \/ p = On_store \/ p = On_wake)).
Proof.
  intros Hn Hr. destruct (once_inv_reachable n c Hn Hr) as [HI _].
  pose proof HI as [Hst Hrun Hcnt He Hd Hsl].
  assert (count is_calling (thr c) <= count is_runner (thr c))%nat as Hle.
  { unfold count. clear. induction (thr c) as [|t ts IH]; [done|]. cbn.
    destruct t as [[]|]; cbn; lia. }
  assert (once_state c <> ONCE_RUNNING -> runs c = if once_state c =? ONCE_UNINIT then 0 else 1) as Hnr.
  { intros Hne. rewrite (proj2 (Z.eqb_neq _ _) Hne) in Hrun. lia. }
  split; [|split].
  - destruct (Z.eqb_spec (once_state c) ONCE_RUNNING) as [E|E].
    + rewrite E in Hcnt. cbn in Hcnt. lia.
    + rewrite Hnr by done. case_if; lia.
  - intros i Hi. assert (once_state c = ONCE_COMPLETE) as E by (eapply Hd; [done|by right]).
    split; [|done]. rewrite Hnr by (rewrite E; done). by rewrite E.
  - intros i a tm k Hi. destruct (Hsl _ _ _ _ Hi) as (_ & _ & [E|[_ [j Hj]]]).
    + rewrite E in Hrun. cbn in Hrun.
      destruct (count_exists is_runner (thr c) ltac:(lia)) as (j & t & Hj & Ht).
      destruct t as [[]|]; try done; eauto 6.
    + exists j, On_wake. auto.
Qed.

(** Thread 0 runs the closure; thread 1 sleeps meanwhile and then returns. *)
Definition once_race : list event :=
  [Go 0; Go 0; Go 1; Go 1; Go 1; Go 0; Go 0; GoWake 0 [1%nat]; Go 1].

Definition once_race_cfg : cfg once_pc :=
  default (Once_new 2) (run call_once once_race (Once_new 2)).

Lemma once_race_reachable : reachable call_once (Once_new 2) once_race_cfg.
Proof. exists once_race. vm_compute. reflexivity. Qed.

Lemma call_once_spec_witness :
  thr once_race_cfg !! 1%nat = Some (Run On_return) /\
  (runs once_race_cfg = 1 /\ once_state once_race_cfg = ONCE_COMPLETE).
Proof.
  split; [vm_compute; reflexivity|].
  destruct (call_once_spec 2 once_race_cfg) as (_ & H & _);
    [reflexivity | apply once_race_reachable |].
  apply (H 1%nat). vm_compute. reflexivity.
Defined.
