(* ===== verification/Semaphore.v ===== *)
(** The counting semaphore ([Semaphore] of [src/substrate/sync.rs]).  Word 0 is
    the count. *)

From S2P Require Import Prelude Consts Futex.

Definition SEM_VALUE_MAX : Z := 2 ^ 31 - 1.

(** [init]: [None] is the early [-1] return, before anything is stored. *)
Inductive init_pc := Si_store (value : Z) | Si_wake | Si_done (r : Z).
Definition sem_init (value : Z) : init_pc :=
  if value >? SEM_VALUE_MAX then Si_done (-1) else Si_store value.
Definition init (p : init_pc) : act init_pc :=
  match p with
  | Si_store v => AStore 0 v (if v >? 0 then Si_wake else Si_done 0)
  | Si_wake => AWake 0 U32_MAX (Si_done 0)
  | Si_done _ => AChoice []
  end.

Inductive wait_pc := Sw_load | Sw_cas (c : Z) | Sw_wait | Sw_done.

Definition wait (p : wait_pc) : act wait_pc :=
  match p with
  | Sw_load => ALoad 0 (fun c => if c >? 0 then Sw_cas c else Sw_wait)
  | Sw_cas c => ACas true 0 c (as_u32 (c - 1)) (fun ok => if ok then Sw_done else Sw_load)
  | Sw_wait => AWait 0 0 false (fun _ => Sw_load)
  | Sw_done => AChoice []
  end.

Inductive try_wait_pc := St_load | St_cas (c : Z) | St_done (ok : bool).

Definition try_wait (p : try_wait_pc) : act try_wait_pc :=
  match p with
  | St_load => ALoad 0 (fun c => if c =? 0 then St_done false else St_cas c)
  | St_cas c => ACas true 0 c (as_u32 (c - 1)) (fun ok => if ok then St_done true else St_load)
  | St_done _ => AChoice []
  end.

Inductive wait_timeout_pc :=
| Sx_fast (timeout_ns : Z) | Sx_fast_cas (timeout_ns c : Z) | Sx_clock (timeout_ns : Z)
| Sx_load (deadline_ns : Z) | Sx_cas (deadline_ns c : Z) | Sx_remaining (deadline_ns : Z)
| Sx_wait (deadline_ns : Z) | Sx_last | Sx_last_cas (c : Z) | Sx_done (r : Z).

Definition wait_timeout (p : wait_timeout_pc) : act wait_timeout_pc :=
  match p with
  | Sx_fast t => ALoad 0 (fun c => if c >? 0 then Sx_fast_cas t c else Sx_clock t)
  | Sx_fast_cas t c =>
      ACas true 0 c (as_u32 (c - 1)) (fun ok => if ok then Sx_done TRONA_OK else Sx_clock t)
  | Sx_clock t => ANow (fun now => Sx_load (sat_add now t))
  | Sx_load d => ALoad 0 (fun c => if c >? 0 then Sx_cas d c else Sx_remaining d)
  | Sx_cas d c =>
      ACas true 0 c (as_u32 (c - 1)) (fun ok => if ok then Sx_done TRONA_OK else Sx_load d)
  | Sx_remaining d => ANow (fun now => if sat_sub d now =? 0 then Sx_last else Sx_wait d)
  | Sx_wait d => AWait 0 0 true (fun err => if err =? TRONA_CANCELLED then Sx_last else Sx_load d)
  | Sx_last => ALoad 0 (fun c => if c >? 0 then Sx_last_cas c else Sx_done TRONA_TIMED_OUT)
  | Sx_last_cas c =>
      ACas false 0 c (as_u32 (c - 1))
        (fun ok => if ok then Sx_done TRONA_OK else Sx_done TRONA_TIMED_OUT)
  | Sx_done _ => AChoice []
  end.

Inductive post_pc := Sp_load | Sp_cas (c : Z) | Sp_wake | Sp_done (r : Z).

Definition post (p : post_pc) : act post_pc :=
  match p with
  | Sp_load => ALoad 0 (fun c => if c >=? SEM_VALUE_MAX then Sp_done (-1) else Sp_cas c)
  | Sp_cas c => ACas true 0 c (as_u32 (c + 1))
                  (fun ok => if ok then (if c =? 0 then Sp_wake else Sp_done 0) else Sp_load)
  | Sp_wake => AWake 0 1 (Sp_done 0)
  | Sp_done _ => AChoice []
  end.

Definition get_value (c : Z) : Z := as_i32 c.

(** ** Threads that take and give back permits *)

Inductive suser :=
| Free
| Waiting (p : wait_pc)
| Trying (p : try_wait_pc)
| WaitingTimed (p : wait_timeout_pc)
| Holding
| Posting (p : post_pc)
| Refused.                       (* [post] returned -1 *)

Definition after_wait (p : wait_pc) : suser :=
  match p with Sw_done => Holding | _ => Waiting p end.
Definition after_try (p : try_wait_pc) : suser :=
  match p with St_done true => Holding | St_done false => Free | _ => Trying p end.
Definition after_timed (p : wait_timeout_pc) : suser :=
  match p with Sx_done r => if r =? TRONA_OK then Holding else Free | _ => WaitingTimed p end.
Definition after_post (p : post_pc) : suser :=
  match p with Sp_done r => if r =? 0 then Free else Refused | _ => Posting p end.

Section semaphore.
Context (timeouts : list Z).

Definition suser_code (u : suser) : act suser :=
  match u with
  | Free => AChoice (Waiting Sw_load :: Trying St_load ::
                     map (fun t => WaitingTimed (Sx_fast t)) timeouts)
  | Waiting p => act_map after_wait (wait p)
  | Trying p => act_map after_try (try_wait p)
  | WaitingTimed p => act_map after_timed (wait_timeout p)
  | Holding => AChoice [Posting Sp_load]
  | Posting p => act_map after_post (post p)
  | Refused => AChoice []
  end.

Definition Semaphore_new (initial : Z) (n : nat) : cfg suser :=
  mkCfg (fun a => if Nat.eqb a 0 then initial else 0) (replicate n (Run Free)).

(** A thread has a permit from the moment its decrement succeeds until its
    increment succeeds. *)
Definition has_permit (t : tstate suser) : bool :=
  match t with
  | Run Holding | Run (Posting Sp_load) | Run (Posting (Sp_cas _)) | Run Refused => true
  | _ => false
  end.

(** What the program points remember about the count they read. *)
Definition pc_ok (u : suser) : Prop :=
  match u with
  | Waiting (Sw_cas c) | Trying (St_cas c) | WaitingTimed (Sx_fast_cas _ c)
  | WaitingTimed (Sx_cas _ c) | WaitingTimed (Sx_last_cas c) => 0 < c
  | Posting (Sp_cas c) => c < SEM_VALUE_MAX
  | Waiting Sw_done | Trying (St_done _) | WaitingTimed (Sx_done _) | Posting (Sp_done _)
  | Refused => False
  | _ => True
  end.

Inductive sem_effect (s s' : Z) (u u' : suser) : Prop :=
| SE_stay : s' = s -> has_permit (Run u') = has_permit (Run u) -> sem_effect s s' u u'
| SE_take : s' = s - 1 -> 0 < s -> has_permit (Run u) = false -> has_permit (Run u') = true ->
    sem_effect s s' u u'
| SE_give : s' = s + 1 -> has_permit (Run u) = true -> has_permit (Run u') = false ->
    sem_effect s s' u u'.

Lemma sem_local m u m' u' :
  0 <= m 0%nat <= SEM_VALUE_MAX -> (has_permit (Run u) = true -> m 0%nat < SEM_VALUE_MAX) ->
  pc_ok u -> local suser_code m u m' u' ->
  sem_effect (m 0%nat) (m' 0%nat) u u' /\ pc_ok u'.
Proof.
  intros Hm Hp Hpc Hl%local_inv. unfold SEM_VALUE_MAX in *.
  assert (forall c, 0 < c -> m 0%nat = c -> as_u32 (c - 1) = m 0%nat - 1) as Hdec
    by (intros c ? E; rewrite E; apply wrap_small; lia).
  destruct u as [|[|c| |]|[|c|ok]|[t|t c|t|d|d c|d|d| |c|r]| |[|c| |r]|]; try done; cbn in Hl, Hpc, Hp.
  - destruct Hl as [-> Hin]. apply elem_of_cons in Hin as [->|Hin]; [split; [by apply SE_stay|done]|].
    apply elem_of_cons in Hin as [->|Hin]; [split; [by apply SE_stay|done]|].
    apply list_elem_of_fmap in Hin as (t & -> & _). split; [by apply SE_stay|done].
  - destruct Hl as [-> ->]. case_if; (split; [by apply SE_stay|done]).
  - destruct Hl as [(Hc & -> & ->)|(_ & -> & ->)]; [|split; [by apply SE_stay|done]].
    rewrite set_word_eq, Hdec by done. split; [apply SE_take; done || lia|done].
  - destruct Hl as (_ & -> & ->). split; [by apply SE_stay|done].
  - destruct Hl as [-> ->]. case_if; (split; [by apply SE_stay|]); [done|cbn; lia].
  - destruct Hl as [(Hc & -> & ->)|(_ & -> & ->)]; [|split; [by apply SE_stay|done]].
    rewrite set_word_eq, Hdec by done. split; [apply SE_take; done || lia|done].
  - destruct Hl as [-> ->]. case_if; (split; [by apply SE_stay|done]).
  - destruct Hl as [(Hc & -> & ->)|(_ & -> & ->)]; [|split; [by apply SE_stay|done]].
    rewrite set_word_eq, Hdec by done. split; [apply SE_take; done || lia|done].
  - destruct Hl as [-> [now ->]]. split; [by apply SE_stay|done].
  - destruct Hl as [-> ->]. case_if; (split; [by apply SE_stay|done]).
  - destruct Hl as [(Hc & -> & ->)|(_ & -> & ->)]; [|split; [by apply SE_stay|done]].
    rewrite set_word_eq, Hdec by done. split; [apply SE_take; done || lia|done].
  - destruct Hl as [-> [now ->]]. case_if; (split; [by apply SE_stay|done]).
  - destruct Hl as (_ & -> & ->). split; [by apply SE_stay|done].
  - destruct Hl as [-> ->]. case_if; (split; [by apply SE_stay|done]).
  - destruct Hl as [(Hc & -> & ->)|(_ & -> & ->)]; [|split; [by apply SE_stay|done]].
    rewrite set_word_eq, Hdec by done. split; [apply SE_take; done || lia|done].
  - destruct Hl as [-> Hin]. apply list_elem_of_singleton in Hin as ->. split; [by apply SE_stay|done].
  - destruct Hl as [-> ->]. specialize (Hp eq_refl). rewrite Z.geb_leb.
    destruct (Z.leb_spec SEM_VALUE_MAX (m 0%nat)); [unfold SEM_VALUE_MAX in *; lia|].
    split; [by apply SE_stay|done].
  - destruct Hl as [(Hc & -> & ->)|(_ & -> & ->)]; [|split; [by apply SE_stay|done]].
    rewrite set_word_eq. assert (as_u32 (c + 1) = m 0%nat + 1) as -> by (rewrite Hc; apply wrap_small; lia).
    case_if; (split; [by apply SE_give|done]).
Qed.

(** ** Conservation of permits *)

Record sem_inv (initial : Z) (c : cfg suser) : Prop := {
  si_count : words c 0%nat + Z.of_nat (count has_permit (thr c)) = initial;
  si_nonneg : 0 <= words c 0%nat;
  si_pc i u : thr c !! i = Some (Run u) -> pc_ok u;
  si_sleep i a timed k r : thr c !! i = Some (Sleep a timed k) ->
    has_permit (Run (k r)) = false /\ pc_ok (k r);
}.

Lemma sem_inv_new initial n : 0 <= initial <= SEM_VALUE_MAX -> sem_inv initial (Semaphore_new initial n).
Proof.
  intros Hinit. split; unfold Semaphore_new; cbn [thr words Nat.eqb]; try lia.
  - rewrite count_replicate by done. lia.
  - intros i u [[= ->] _]%lookup_replicate. done.
  - intros i a t k r [? _]%lookup_replicate. done.
Qed.

Lemma sem_inv_local initial c1 i p m p' :
  0 <= initial <= SEM_VALUE_MAX -> sem_inv initial c1 -> thr c1 !! i = Some (Run p) ->
  local suser_code (words c1) p m p' -> sem_inv initial (mkCfg m (<[i := Run p']> (thr c1))).
Proof.
  intros Hinit [Hc Hn Hpc Hsl] Hi Hl.
  apply sem_local in Hl as [He Hp'].
  * pose proof (count_insert has_permit _ _ _ (Run p') Hi) as C.
    split; cbn [thr words].
    -- destruct He as [E Eh|E _ E1 E2|E E1 E2]; rewrite ?Eh, ?E1, ?E2 in C;
         [destruct (has_permit (Run p))|..]; lia.
    -- destruct He; lia.
    -- intros j q [[-> [= ->]]|[_ Hj]]%insert_cases; [done|by eapply Hpc].
    -- intros j a tm k r [[_ ?]|[_ Hj]]%insert_cases; [done|by eapply Hsl].
  * lia.
  * intros Hh. pose proof (count_pos has_permit _ _ _ Hi Hh). lia.
  * by eapply Hpc.
Qed.

Lemma sem_inv_sleep initial c1 i p a v tm k :
  sem_inv initial c1 -> thr c1 !! i = Some (Run p) -> suser_code p = AWait a v tm k ->
  sem_inv initial (mkCfg (words c1) (<[i := Sleep a tm k]> (thr c1))).
Proof.
  intros [Hc Hn Hpc Hsl] Hi Hco.
  assert (has_permit (Run p) = false /\
    forall r, has_permit (Run (k r)) = false /\ pc_ok (k r)) as [Hh Hk].
  { destruct p as [|[]|[]|[]| |[]|]; cbn in Hco; try discriminate Hco;
      injection Hco as [= <- <- <- <-]; (split; [done|]); intros r; [done|].
    by destruct (r =? TRONA_CANCELLED). }
  pose proof (count_insert has_permit _ _ _ (Sleep a tm k) Hi) as C. rewrite Hh in C. cbn in C.
  split; cbn [thr words]; try lia.
  * intros j q [[_ ?]|[_ Hj]]%insert_cases; [done|by eapply Hpc].
  * intros j b tm' k' r [[-> [= -> -> ->]]|[_ Hj]]%insert_cases; [done|by eapply Hsl].
Qed.

Lemma sem_inv_wake initial c1 i p a m p' js :
  sem_inv initial c1 -> thr c1 !! i = Some (Run p) -> suser_code p = AWake a m p' ->
  wake_ok a m js (thr c1) = true ->
  sem_inv initial (mkCfg (words c1) (<[i := Run p']> (wake_all js (thr c1)))).
Proof.
  intros [Hc Hn Hpc Hsl] Hi Hco Hok.
  assert (has_permit (Run p) = false /\ has_permit (Run p') = false /\ pc_ok p') as (Hh & Hh' & Hp').
  { destruct p as [|[]|[]|[]| |[]|]; cbn in Hco; try discriminate Hco.
    injection Hco as [= <- <- <-]. done. }
  destruct (not_sleeping_wake _ _ _ _ _ _ Hok Hi) as [_ Hi'].
  split; cbn [thr words].
  * rewrite (count_insert_same has_permit _ _ _ _ Hi') by congruence.
    rewrite count_wake_all; [done|]. intros j [q|b tm k] Hj; [done|].
    by destruct (Hsl _ _ _ _ TRONA_OK Hj) as [? _].
  * done.
  * intros j q [[-> [= ->]]|[_ Hj]]%insert_cases; [done|].
    destruct (wake_ok_cases _ _ _ _ _ _ Hok Hj) as [?|(tm & k & _ & Hs & [= ->])]; [by eapply Hpc|].
    by destruct (Hsl _ _ _ _ TRONA_OK Hs) as [_ ?].
  * intros j b tm k r [[_ ?]|[_ Hj]]%insert_cases; [done|].
    destruct (wake_ok_cases _ _ _ _ _ _ Hok Hj) as [Hs|(? & ? & _ & _ & ?)]; [by eapply Hsl|done].
Qed.

Lemma sem_inv_resume initial c1 i a tm k r :
  sem_inv initial c1 -> thr c1 !! i = Some (Sleep a tm k) ->
  sem_inv initial (mkCfg (words c1) (<[i := Run (k r)]> (thr c1))).
Proof.
  intros [Hc Hn Hpc Hsl] Hi.
  destruct (Hsl _ _ _ _ r Hi) as [Hh Hp'].
  split; cbn [thr words].
  * rewrite (count_insert_same has_permit _ _ _ _ Hi); [done|]. by rewrite Hh.
  * done.
  * intros j q [[-> [= ->]]|[_ Hj]]%insert_cases; [done|by eapply Hpc].
  * intros j b tm' k' r' [[_ ?]|[_ Hj]]%insert_cases; [done|by eapply Hsl].
Qed.

Lemma sem_inv_reachable initial n c :
  0 <= initial <= SEM_VALUE_MAX ->
  reachable suser_code (Semaphore_new initial n) c -> sem_inv initial c.
Proof.
  intros Hinit. apply reachable_inv; [by apply sem_inv_new|]. intros c1 c2 HI Hm.
  destruct Hm as [i p m p' Hi Hl|i p a v tm k Hi Hco Hw|i p a m p' js Hi Hco Hok|i a tm k r Hi _].
  - by eapply sem_inv_local.
  - by eapply sem_inv_sleep.
  - by eapply sem_inv_wake.
  - by eapply sem_inv_resume.
Qed.
End semaphore.

(** C37: conservation of permits.  With any number of threads taking permits
    through [wait], [try_wait] and [wait_timeout] and giving them back with
    [post], in any interleaving, the count and the permits held add up to the
    initial value: never more threads than permits, the count never wraps
    below zero or above the maximum, and no [post] is refused. *)
Theorem semaphore_conservation timeouts initial n c :
  0 <= initial <= SEM_VALUE_MAX ->
  reachable (suser_code timeouts) (Semaphore_new initial n) c ->
  words c 0%nat + Z.of_nat (count has_permit (thr c)) = initial /\
  0 <= words c 0%nat /\ get_value (words c 0%nat) = words c 0%nat /\
  (forall i, thr c !! i <> Some (Run Refused)).
Proof.
  intros Hi Hr. destruct (sem_inv_reachable timeouts initial n c Hi Hr) as [Hc Hn Hpc _].
  split; [done|]. split; [done|]. split.
  - unfold get_value, as_i32, signed, SEM_VALUE_MAX in *. rewrite wrap_small by lia. case_if; lia.
  - intros i Hi'. by apply Hpc in Hi'.
Qed.

(** Two permits, four threads: two hold the permits while two sleep; both give
    their permit back, but the second [post] finds the count at 1 and wakes
    nobody; the one woken thread takes and returns a permit without waking the
    other one, because the count is again not zero. *)
Definition lost_wakeup : list event :=
  let take i := [GoPick i 0; Go i; Go i] in
  let sleep i := [GoPick i 0; Go i; Go i] in
  let give i := [GoPick i 0; Go i; Go i] in
  take 0%nat ++ take 1%nat ++ sleep 2%nat ++ sleep 3%nat ++
  give 0%nat ++ give 1%nat ++ [GoWake 0 [2%nat]] ++ [Go 2; Go 2]%nat ++ give 2%nat.

Definition lost_wakeup_cfg : cfg suser :=
  default (Semaphore_new 2 4) (run (suser_code []) lost_wakeup (Semaphore_new 2 4)).

Lemma lost_wakeup_reachable : reachable (suser_code []) (Semaphore_new 2 4) lost_wakeup_cfg.
Proof. exists lost_wakeup. vm_compute. reflexivity. Qed.

Lemma semaphore_conservation_witness :
  words lost_wakeup_cfg 0%nat + Z.of_nat (count has_permit (thr lost_wakeup_cfg)) = 2.
Proof.
  apply (semaphore_conservation [] 2 4 lost_wakeup_cfg);
    [unfold SEM_VALUE_MAX; lia | apply lost_wakeup_reachable].
Defined.

(** a sleeper can be forgotten.  There is an execution after which all
    permits are available and every other thread is done, yet one thread sleeps
    in [wait] on a count of 2, with nobody left to wake it: [post] wakes a
    waiter only when it raises the count from 0. *)
Theorem semaphore_lost_wakeup :
  reachable (suser_code []) (Semaphore_new 2 4) lost_wakeup_cfg /\
  words lost_wakeup_cfg 0%nat = 2 /\
  (forall i, (i < 3)%nat -> thr lost_wakeup_cfg !! i = Some (Run Free)) /\
  exists k, thr lost_wakeup_cfg !! 3%nat = Some (Sleep 0 false k).
Proof.
  split; [apply lost_wakeup_reachable|]. split; [vm_compute; reflexivity|]. split.
  - intros [|[|[|i]]] Hi; [vm_compute; reflexivity..|lia].
  - eexists. vm_compute. reflexivity.
Qed.
