(* ===== verification/RWLock.v ===== *)
(** The reader-writer lock ([RWLock] of [src/substrate/sync.rs]).  Word 0 is the
    state (reader count, bit 31 for a writer), word 1 is [writer_wake], word 2
    is [writer_waiting]. *)

From S2P Require Import Prelude Consts Futex.

Definition WRITER_BIT : Z := Z.shiftl 1 31.

Definition writer_bit_clear (s : Z) : bool := Z.land s WRITER_BIT =? 0.

(** ** The code *)

Inductive read_lock_pc :=
| Rl_load | Rl_waiting (s : Z) | Rl_cas (s : Z) | Rl_wake_load | Rl_wait (v : Z) | Rl_done.

Definition read_lock (p : read_lock_pc) : act read_lock_pc :=
  match p with
  | Rl_load => ALoad 0 (fun s => if writer_bit_clear s then Rl_waiting s else Rl_wake_load)
  | Rl_waiting s => ALoad 2 (fun w => if w =? 0 then Rl_cas s else Rl_wake_load)
  | Rl_cas s => ACas true 0 s (as_u32 (s + 1)) (fun ok => if ok then Rl_done else Rl_load)
  | Rl_wake_load => ALoad 1 (fun v => Rl_wait v)
  | Rl_wait v => AWait 1 v false (fun _ => Rl_load)
  | Rl_done => AChoice []
  end.

Inductive read_unlock_pc := Ru_sub | Ru_bump | Ru_wake | Ru_done.

Definition read_unlock (p : read_unlock_pc) : act read_unlock_pc :=
  match p with
  | Ru_sub => AFetch 0 (fun s => as_u32 (s - 1)) (fun prev => if prev =? 1 then Ru_bump else Ru_done)
  | Ru_bump => AFetch 1 (fun v => as_u32 (v + 1)) (fun _ => Ru_wake)
  | Ru_wake => AWake 1 1 Ru_done
  | Ru_done => AChoice []
  end.

Inductive write_lock_pc :=
| Wl_fast | Wl_announce | Wl_cas | Wl_retract | Wl_load | Wl_wake_load | Wl_wait (v : Z) | Wl_done.

Definition write_lock (p : write_lock_pc) : act write_lock_pc :=
  match p with
  | Wl_fast => ACas true 0 0 WRITER_BIT (fun ok => if ok then Wl_done else Wl_announce)
  | Wl_announce => AFetch 2 (fun w => as_u32 (w + 1)) (fun _ => Wl_cas)
  | Wl_cas => ACas true 0 0 WRITER_BIT (fun ok => if ok then Wl_retract else Wl_load)
  | Wl_retract => AFetch 2 (fun w => as_u32 (w - 1)) (fun _ => Wl_done)
  | Wl_load => ALoad 0 (fun s => if s =? 0 then Wl_cas else Wl_wake_load)
  | Wl_wake_load => ALoad 1 (fun v => Wl_wait v)
  | Wl_wait v => AWait 1 v false (fun _ => Wl_cas)
  | Wl_done => AChoice []
  end.

Inductive write_unlock_pc := Wu_and | Wu_bump | Wu_wake | Wu_done.

Definition write_unlock (p : write_unlock_pc) : act write_unlock_pc :=
  match p with
  | Wu_and => AFetch 0 (fun s => Z.land s (bnot 32 WRITER_BIT)) (fun _ => Wu_bump)
  | Wu_bump => AFetch 1 (fun v => as_u32 (v + 1)) (fun _ => Wu_wake)
  | Wu_wake => AWake 1 U32_MAX Wu_done
  | Wu_done => AChoice []
  end.

Inductive try_read_pc := Tr_load | Tr_cas (s : Z) | Tr_done (ok : bool).

Definition try_read_lock (p : try_read_pc) : act try_read_pc :=
  match p with
  | Tr_load => ALoad 0 (fun s => if writer_bit_clear s then Tr_cas s else Tr_done false)
  | Tr_cas s => ACas true 0 s (as_u32 (s + 1)) (fun ok => if ok then Tr_done true else Tr_load)
  | Tr_done _ => AChoice []
  end.

Inductive try_write_pc := Tw_cas | Tw_done (ok : bool).

Definition try_write_lock (p : try_write_pc) : act try_write_pc :=
  match p with
  | Tw_cas => ACas false 0 0 WRITER_BIT Tw_done
  | Tw_done _ => AChoice []
  end.

Inductive read_lock_timeout_pc :=
| Rt_fast (t : Z) | Rt_fast_waiting (t s : Z) | Rt_fast_cas (t s : Z) | Rt_clock (t : Z)
| Rt_load (d : Z) | Rt_waiting (d s : Z) | Rt_cas (d s : Z) | Rt_remaining (d : Z)
| Rt_wake_load (d : Z) | Rt_wait (d v : Z) | Rt_last | Rt_last_cas (s : Z) | Rt_done (ok : bool).

Definition read_lock_timeout (p : read_lock_timeout_pc) : act read_lock_timeout_pc :=
  match p with
  | Rt_fast t => ALoad 0 (fun s => if writer_bit_clear s then Rt_fast_waiting t s else Rt_clock t)
  | Rt_fast_waiting t s => ALoad 2 (fun w => if w =? 0 then Rt_fast_cas t s else Rt_clock t)
  | Rt_fast_cas t s =>
      ACas true 0 s (as_u32 (s + 1)) (fun ok => if ok then Rt_done true else Rt_clock t)
  | Rt_clock t => ANow (fun now => Rt_load (sat_add now t))
  | Rt_load d => ALoad 0 (fun s => if writer_bit_clear s then Rt_waiting d s else Rt_remaining d)
  | Rt_waiting d s => ALoad 2 (fun w => if w =? 0 then Rt_cas d s else Rt_remaining d)
  | Rt_cas d s => ACas true 0 s (as_u32 (s + 1)) (fun ok => if ok then Rt_done true else Rt_load d)
  | Rt_remaining d => ANow (fun now => if sat_sub d now =? 0 then Rt_done false else Rt_wake_load d)
  | Rt_wake_load d => ALoad 1 (fun v => Rt_wait d v)
  | Rt_wait d v => AWait 1 v true (fun err => if err =? TRONA_CANCELLED then Rt_last else Rt_load d)
  | Rt_last => ALoad 0 (fun s => if writer_bit_clear s then Rt_last_cas s else Rt_done false)
  | Rt_last_cas s => ACas false 0 s (as_u32 (s + 1)) Rt_done
  | Rt_done _ => AChoice []
  end.

Inductive write_lock_timeout_pc :=
| Wt_fast (t : Z) | Wt_announce (t : Z) | Wt_clock (t : Z) | Wt_cas (d : Z) | Wt_load (d : Z)
| Wt_remaining (d : Z) | Wt_wake_load (d : Z) | Wt_wait (d v : Z) | Wt_last
| Wt_retract (ok : bool) | Wt_done (ok : bool).

Definition write_lock_timeout (p : write_lock_timeout_pc) : act write_lock_timeout_pc :=
  match p with
  | Wt_fast t => ACas true 0 0 WRITER_BIT (fun ok => if ok then Wt_done true else Wt_announce t)
  | Wt_announce t => AFetch 2 (fun w => as_u32 (w + 1)) (fun _ => Wt_clock t)
  | Wt_clock t => ANow (fun now => Wt_cas (sat_add now t))
  | Wt_cas d => ACas true 0 0 WRITER_BIT (fun ok => if ok then Wt_retract true else Wt_load d)
  | Wt_load d => ALoad 0 (fun s => if s =? 0 then Wt_cas d else Wt_remaining d)
  | Wt_remaining d => ANow (fun now => if sat_sub d now =? 0 then Wt_retract false else Wt_wake_load d)
  | Wt_wake_load d => ALoad 1 (fun v => Wt_wait d v)
  | Wt_wait d v => AWait 1 v true (fun err => if err =? TRONA_CANCELLED then Wt_last else Wt_cas d)
  | Wt_last => ACas false 0 0 WRITER_BIT Wt_retract
  | Wt_retract ok => AFetch 2 (fun w => as_u32 (w - 1)) (fun _ => Wt_done ok)
  | Wt_done _ => AChoice []
  end.

(** ** Threads that use the lock *)

Inductive rwuser :=
| Idle
| ReadLocking (p : read_lock_pc) | TryReading (p : try_read_pc) | ReadTimed (p : read_lock_timeout_pc)
| WriteLocking (p : write_lock_pc) | TryWriting (p : try_write_pc) | WriteTimed (p : write_lock_timeout_pc)
| Reading | Writing
| ReadUnlocking (p : read_unlock_pc) | WriteUnlocking (p : write_unlock_pc).

Definition got_read (ok : bool) : rwuser := if ok then Reading else Idle.
Definition got_write (ok : bool) : rwuser := if ok then Writing else Idle.

Definition after_rl (p : read_lock_pc) := match p with Rl_done => Reading | _ => ReadLocking p end.
Definition after_tr (p : try_read_pc) := match p with Tr_done ok => got_read ok | _ => TryReading p end.
Definition after_rt (p : read_lock_timeout_pc) :=
  match p with Rt_done ok => got_read ok | _ => ReadTimed p end.
Definition after_wl (p : write_lock_pc) := match p with Wl_done => Writing | _ => WriteLocking p end.
Definition after_tw (p : try_write_pc) := match p with Tw_done ok => got_write ok | _ => TryWriting p end.
Definition after_wt (p : write_lock_timeout_pc) :=
  match p with Wt_done ok => got_write ok | _ => WriteTimed p end.
Definition after_ru (p : read_unlock_pc) := match p with Ru_done => Idle | _ => ReadUnlocking p end.
Definition after_wu (p : write_unlock_pc) := match p with Wu_done => Idle | _ => WriteUnlocking p end.

Section rwlock.
Context (timeouts : list Z).

Definition rwuser_code (u : rwuser) : act rwuser :=
  match u with
  | Idle => AChoice ([ReadLocking Rl_load; WriteLocking Wl_fast; TryReading Tr_load; TryWriting Tw_cas]
                     ++ map (fun t => ReadTimed (Rt_fast t)) timeouts
                     ++ map (fun t => WriteTimed (Wt_fast t)) timeouts)
  | ReadLocking p => act_map after_rl (read_lock p)
  | TryReading p => act_map after_tr (try_read_lock p)
  | ReadTimed p => act_map after_rt (read_lock_timeout p)
  | WriteLocking p => act_map after_wl (write_lock p)
  | TryWriting p => act_map after_tw (try_write_lock p)
  | WriteTimed p => act_map after_wt (write_lock_timeout p)
  | Reading => AChoice [ReadUnlocking Ru_sub]
  | Writing => AChoice [WriteUnlocking Wu_and]
  | ReadUnlocking p => act_map after_ru (read_unlock p)
  | WriteUnlocking p => act_map after_wu (write_unlock p)
  end.

Definition RWLock_new (n : nat) : cfg rwuser := mkCfg (fun _ => 0) (replicate n (Run Idle)).

(** The thread holds the lock shared / exclusively. *)
Definition has_read (t : tstate rwuser) : bool :=
  match t with Run Reading | Run (ReadUnlocking Ru_sub) => true | _ => false end.
Definition has_write (t : tstate rwuser) : bool :=
  match t with
  | Run Writing | Run (WriteUnlocking Wu_and) | Run (WriteLocking Wl_retract)
  | Run (WriteTimed (Wt_retract true)) => true
  | _ => false
  end.

(** The state a reader read had no writer bit; returned functions are gone. *)
Definition rw_pc_ok (u : rwuser) : Prop :=
  match u with
  | ReadLocking (Rl_waiting s) | ReadLocking (Rl_cas s) | TryReading (Tr_cas s)
  | ReadTimed (Rt_fast_waiting _ s) | ReadTimed (Rt_fast_cas _ s) | ReadTimed (Rt_waiting _ s)
  | ReadTimed (Rt_cas _ s) | ReadTimed (Rt_last_cas s) => writer_bit_clear s = true
  | ReadLocking Rl_done | TryReading (Tr_done _) | ReadTimed (Rt_done _) | WriteLocking Wl_done
  | TryWriting (Tw_done _) | WriteTimed (Wt_done _) | ReadUnlocking Ru_done
  | WriteUnlocking Wu_done => False
  | _ => True
  end.

Inductive rw_effect (s s' : Z) (u u' : rwuser) : Prop :=
| RE_stay : s' = s -> has_read (Run u') = has_read (Run u) -> has_write (Run u') = has_write (Run u) ->
    rw_effect s s' u u'
| RE_read : writer_bit_clear s = true -> s' = as_u32 (s + 1) ->
    has_read (Run u) = false -> has_write (Run u) = false ->
    has_read (Run u') = true -> has_write (Run u') = false -> rw_effect s s' u u'
| RE_write : s = 0 -> s' = WRITER_BIT ->
    has_read (Run u) = false -> has_write (Run u) = false ->
    has_read (Run u') = false -> has_write (Run u') = true -> rw_effect s s' u u'
| RE_unread : s' = as_u32 (s - 1) -> has_read (Run u) = true -> has_write (Run u) = false ->
    has_read (Run u') = false -> has_write (Run u') = false -> rw_effect s s' u u'
| RE_unwrite : s' = Z.land s (bnot 32 WRITER_BIT) -> has_read (Run u) = false ->
    has_write (Run u) = true -> has_read (Run u') = false -> has_write (Run u') = false ->
    rw_effect s s' u u'.

Ltac rw_case :=
  match goal with
  | H : _ /\ _ |- _ => destruct H
  | H : _ \/ _ |- _ => destruct H
  | H : exists _, _ |- _ => destruct H
  | H : _ ∈ [_] |- _ => apply list_elem_of_singleton in H
  end.

Ltac rw_solve :=
  first [ by apply RE_stay
        | apply RE_read; [congruence|rewrite ?set_word_eq; congruence|done..]
        | apply RE_write; done
        | apply RE_unread; [by rewrite ?set_word_eq|done..]
        | apply RE_unwrite; [by rewrite ?set_word_eq|done..] ].

Lemma rw_local m u m' u' :
  rw_pc_ok u -> local rwuser_code m u m' u' -> rw_effect (m 0%nat) (m' 0%nat) u u' /\ rw_pc_ok u'.
Proof.
  intros Hpc Hl%local_inv.
  destruct u as [|[]|[]|[]|[]|[]|[| | | | | | | | |[]|]| | |[]|[]]; try done; cbn in Hl, Hpc.
  1: { destruct Hl as [-> Hin]. rewrite !elem_of_cons, elem_of_app in Hin.
       destruct Hin as [->|[->|[->|[->|[Hin|Hin]]]]]; try (split; [by apply RE_stay|done]);
         apply list_elem_of_fmap in Hin as (t & -> & _); (split; [by apply RE_stay|done]). }
  all: repeat rw_case; subst; try done; repeat case_if; try (destruct x; try done);
    (split; [rw_solve|done]).
Qed.

(** ** Readers and writers exclude each other *)

Definition readers (c : cfg rwuser) : nat := count has_read (thr c).
Definition writers (c : cfg rwuser) : nat := count has_write (thr c).

(** The state word is the number of readers, or the writer bit alone. *)
Definition rw_state_ok (s : Z) (r w : nat) : Prop :=
  (w = 0%nat /\ s = Z.of_nat r) \/ (w = 1%nat /\ r = 0%nat /\ s = WRITER_BIT).

Lemma rw_effect_ok s s' u u' (r w r' w' : nat) :
  rw_state_ok s r w -> rw_effect s s' u u' -> Z.of_nat r' < 2 ^ 31 ->
  (r' + (if has_read (Run u) then 1 else 0) = r + (if has_read (Run u') then 1 else 0))%nat ->
  (w' + (if has_write (Run u) then 1 else 0) = w + (if has_write (Run u') then 1 else 0))%nat ->
  rw_state_ok s' r' w'.
Proof.
  intros Hs He Hr C1 C2. unfold rw_state_ok, WRITER_BIT in *.
  destruct He as [-> E1 E2|Hc -> E1 E2 E3 E4| -> -> E1 E2 E3 E4| -> E1 E2 E3 E4| -> E1 E2 E3 E4];
    rewrite ?E1, ?E2, ?E3, ?E4 in *.
  - destruct (has_read (Run u)), (has_write (Run u)); lia.
  - destruct Hs as [[-> ->]|(-> & -> & ->)]; [|done]. left.
    split; [lia|]. unfold as_u32. rewrite wrap_small; lia.
  - right. destruct Hs as [[-> ?]|(-> & -> & ?)]; [split_and!; done || lia|done].
  - destruct Hs as [[-> ->]|(-> & -> & ->)]; [|lia]. left.
    split; [lia|]. unfold as_u32. rewrite wrap_small; lia.
  - destruct Hs as [[-> ->]|(-> & -> & ->)]; [lia|]. left. split; [lia|].
    replace r' with 0%nat by lia. done.
Qed.

Record rw_inv (n : nat) (c : cfg rwuser) : Prop := {
  ri_len : length (thr c) = n;
  ri_state : rw_state_ok (words c 0%nat) (readers c) (writers c);
  ri_pc i u : thr c !! i = Some (Run u) -> rw_pc_ok u;
  ri_sleep i a timed k r : thr c !! i = Some (Sleep a timed k) ->
    has_read (Run (k r)) = false /\ has_write (Run (k r)) = false /\ rw_pc_ok (k r);
}.

Lemma rw_inv_same n c (ts : list (tstate rwuser)) :
  rw_inv n c -> length ts = n -> count has_read ts = readers c -> count has_write ts = writers c ->
  (forall i u, ts !! i = Some (Run u) -> rw_pc_ok u) ->
  (forall i a timed k r, ts !! i = Some (Sleep a timed k) ->
     has_read (Run (k r)) = false /\ has_write (Run (k r)) = false /\ rw_pc_ok (k r)) ->
  rw_inv n (mkCfg (words c) ts).
Proof.
  intros [_ Hs _ _] Hl Hr Hw Hpc Hsl. split; try done.
  unfold readers, writers in *. cbn [thr words]. by rewrite Hr, Hw.
Qed.

Lemma rw_inv_new n : rw_inv n (RWLock_new n).
Proof.
  split; unfold RWLock_new, readers, writers; cbn [thr words].
  - apply length_replicate.
  - rewrite !count_replicate by done. by left.
  - intros i u [[= ->] _]%lookup_replicate. done.
  - intros i a t k r [? _]%lookup_replicate. done.
Qed.

Lemma rw_inv_local n c1 i p m p' :
  Z.of_nat n < 2 ^ 31 -> rw_inv n c1 -> length (<[i := Run p']> (thr c1)) = n ->
  thr c1 !! i = Some (Run p) -> local rwuser_code (words c1) p m p' ->
  rw_inv n (mkCfg m (<[i := Run p']> (thr c1))).
Proof.
  intros Hn [Hl Hs Hpc Hsl] Hl2 Hi Hlo.
  apply rw_local in Hlo as [He Hp']; [|by eapply Hpc]. split; cbn [thr words].
  * done.
  * eapply rw_effect_ok; [exact Hs|exact He| | |].
    -- pose proof (count_le has_read (<[i := Run p']> (thr c1))). unfold readers. cbn [thr]. lia.
    -- by apply count_insert.
    -- by apply count_insert.
  * intros j q [[-> [= ->]]|[_ Hj]]%insert_cases; [done|by eapply Hpc].
  * intros j a tm k r [[_ ?]|[_ Hj]]%insert_cases; [done|by eapply Hsl].
Qed.

Lemma rw_inv_sleep n c1 i p a v tm k :
  rw_inv n c1 -> length (<[i := Sleep a tm k]> (thr c1)) = n ->
  thr c1 !! i = Some (Run p) -> rwuser_code p = AWait a v tm k ->
  rw_inv n (mkCfg (words c1) (<[i := Sleep a tm k]> (thr c1))).
Proof.
  intros HI Hl2 Hi Hco. pose proof HI as [Hl Hs Hpc Hsl].
  assert (has_read (Run p) = false /\ has_write (Run p) = false /\ forall r,
    has_read (Run (k r)) = false /\ has_write (Run (k r)) = false /\ rw_pc_ok (k r)) as (E1 & E2 & Hk).
  { destruct p as [|[]|[]|[]|[]|[]|[]| | |[]|[]]; cbn in Hco; try discriminate Hco;
      injection Hco as [= <- <- <- <-]; (split; [done|]); (split; [done|]); intros r; try done;
      by destruct (r =? TRONA_CANCELLED). }
  apply rw_inv_same; try done.
  * apply (count_insert_same _ _ _ _ _ Hi). by rewrite E1.
  * apply (count_insert_same _ _ _ _ _ Hi). by rewrite E2.
  * intros j q [[_ ?]|[_ Hj]]%insert_cases; [done|by eapply Hpc].
  * intros j b tm' k' r [[-> [= -> -> ->]]|[_ Hj]]%insert_cases; [done|by eapply Hsl].
Qed.

Lemma rw_inv_wake n c1 i p a m p' js :
  rw_inv n c1 -> length (<[i := Run p']> (wake_all js (thr c1))) = n ->
  thr c1 !! i = Some (Run p) -> rwuser_code p = AWake a m p' -> wake_ok a m js (thr c1) = true ->
  rw_inv n (mkCfg (words c1) (<[i := Run p']> (wake_all js (thr c1)))).
Proof.
  intros HI Hl2 Hi Hco Hok. pose proof HI as [Hl Hs Hpc Hsl].
  assert (p' = Idle /\ has_read (Run p) = false /\ has_write (Run p) = false) as (-> & E1 & E2).
  { destruct p as [|[]|[]|[]|[]|[]|[]| | |[]|[]]; cbn in Hco; try discriminate Hco;
      by injection Hco as [= <- <- <-]. }
  destruct (not_sleeping_wake _ _ _ _ _ _ Hok Hi) as [_ Hi'].
  apply rw_inv_same; try done.
  * rewrite (count_insert_same has_read _ _ _ _ Hi') by (by rewrite E1).
    apply count_wake_all. intros j [q|b tm k] Hj; [done|].
    by destruct (Hsl _ _ _ _ TRONA_OK Hj) as (? & _ & _).
  * rewrite (count_insert_same has_write _ _ _ _ Hi') by (by rewrite E2).
    apply count_wake_all. intros j [q|b tm k] Hj; [done|].
    by destruct (Hsl _ _ _ _ TRONA_OK Hj) as (_ & ? & _).
  * intros j q [[-> [= ->]]|[_ Hj]]%insert_cases; [done|].
    destruct (wake_ok_cases _ _ _ _ _ _ Hok Hj) as [?|(tm & k & _ & Hsp & [= ->])]; [by eapply Hpc|].
    by destruct (Hsl _ _ _ _ TRONA_OK Hsp) as (_ & _ & ?).
  * intros j b tm k r [[_ ?]|[_ Hj]]%insert_cases; [done|].
    destruct (wake_ok_cases _ _ _ _ _ _ Hok Hj) as [Hsp|(? & ? & _ & _ & ?)]; [by eapply Hsl|done].
Qed.

Lemma rw_inv_resume n c1 i a tm k r :
  rw_inv n c1 -> length (<[i := Run (k r)]> (thr c1)) = n -> thr c1 !! i = Some (Sleep a tm k) ->
  rw_inv n (mkCfg (words c1) (<[i := Run (k r)]> (thr c1))).
Proof.
  intros HI Hl2 Hi. pose proof HI as [Hl Hs Hpc Hsl].
  destruct (Hsl _ _ _ _ r Hi) as (E1 & E2 & Hp').
  apply rw_inv_same; try done.
  * apply (count_insert_same _ _ _ _ _ Hi). by rewrite E1.
  * apply (count_insert_same _ _ _ _ _ Hi). by rewrite E2.
  * intros j q [[-> [= ->]]|[_ Hj]]%insert_cases; [done|by eapply Hpc].
  * intros j b tm' k' r' [[_ ?]|[_ Hj]]%insert_cases; [done|by eapply Hsl].
Qed.

Lemma rw_inv_reachable n c :
  Z.of_nat n < 2 ^ 31 -> reachable rwuser_code (RWLock_new n) c -> rw_inv n c.
Proof.
  intros Hn. apply reachable_inv; [apply rw_inv_new|]. intros c1 c2 HI Hm.
  pose proof (length_moves _ _ _ Hm) as Hl2. rewrite (ri_len _ _ HI) in Hl2.
  destruct Hm as [i p m p' Hi Hlo|i p a v tm k Hi Hco Hw|i p a m p' js Hi Hco Hok|i a tm k r Hi _].
  - by eapply rw_inv_local.
  - by eapply rw_inv_sleep.
  - by eapply rw_inv_wake.
  - by eapply rw_inv_resume.
Qed.
End rwlock.

(** C36: readers and writers exclude each other.  With fewer than [2^31] threads
    using the lock through all its operations (blocking, trying, timed), in any
    interleaving: while a thread writes, no other thread reads or writes; and
    the state word is the number of readers, or the writer bit alone. *)
Theorem rwlock_exclusion timeouts n c i :
  Z.of_nat n < 2 ^ 31 -> reachable (rwuser_code timeouts) (RWLock_new n) c ->
  rw_state_ok (words c 0%nat) (readers c) (writers c) /\
  (thr c !! i = Some (Run Writing) ->
   forall j, j <> i -> thr c !! j <> Some (Run Writing) /\ thr c !! j <> Some (Run Reading)).
Proof.
  intros Hn Hr. destruct (rw_inv_reachable timeouts n c Hn Hr) as [_ Hs _ _]. split; [done|].
  intros Hi j Hj. pose proof (count_pos has_write _ _ _ Hi eq_refl) as Hw.
  unfold rw_state_ok, readers, writers in Hs. split; intros Hj'.
  - pose proof (count_two has_write _ _ _ _ _ Hj Hj' Hi eq_refl eq_refl). lia.
  - pose proof (count_pos has_read _ _ _ Hj' eq_refl). lia.
Qed.

(** Thread 0 writes; thread 1 wants to write, sees the lock taken and is about to
    read the wake counter when thread 0 unlocks; thread 2 wants to read. *)
Definition rw_deadlock : list event :=
  [GoPick 0 1; Go 0; GoPick 1 1; Go 1; Go 1; Go 1; Go 1;
   GoPick 0 0; Go 0; Go 0; GoWake 0 []; Go 1; Go 1;
   GoPick 2 0; Go 2; Go 2; Go 2; Go 2].

Definition rw_deadlock_cfg : cfg rwuser :=
  default (RWLock_new 3) (run (rwuser_code []) rw_deadlock (RWLock_new 3)).

Lemma rw_deadlock_reachable : reachable (rwuser_code []) (RWLock_new 3) rw_deadlock_cfg.
Proof. exists rw_deadlock. vm_compute. reflexivity. Qed.

Lemma rwlock_exclusion_witness :
  rw_state_ok (words rw_deadlock_cfg 0%nat) (readers rw_deadlock_cfg) (writers rw_deadlock_cfg).
Proof. apply (rwlock_exclusion [] 3 rw_deadlock_cfg 0); [lia | apply rw_deadlock_reachable]. Defined.

(** waiters can be forgotten.  There is an execution that ends with the lock
    free, its last user gone, a writer asleep in [write_lock] and a reader
    asleep in [read_lock], with nobody left to wake them: the waiter reads the
    wake counter after it looked at the state, so an unlock in between is
    missed, and the announced writer keeps new readers out. *)
Theorem rwlock_lost_wakeup :
  reachable (rwuser_code []) (RWLock_new 3) rw_deadlock_cfg /\
  words rw_deadlock_cfg 0%nat = 0 /\
  thr rw_deadlock_cfg !! 0%nat = Some (Run Idle) /\
  (exists k, thr rw_deadlock_cfg !! 1%nat = Some (Sleep 1 false k) /\ k TRONA_OK = WriteLocking Wl_cas) /\
  (exists k, thr rw_deadlock_cfg !! 2%nat = Some (Sleep 1 false k) /\ k TRONA_OK = ReadLocking Rl_load).
Proof.
  split; [apply rw_deadlock_reachable|]. split; [vm_compute; reflexivity|].
  split; [vm_compute; reflexivity|].
  split; eexists; (split; [vm_compute; reflexivity|]); reflexivity.
Qed.
