(* ===== verification/Barrier.v ===== *)
(** The thread barrier ([Barrier] of [src/substrate/sync.rs]): [count] threads
    that meet at the barrier over and over.  Word 0 is [phase], word 1
    [waiting]. *)

From S2P Require Import Prelude Consts Futex.

(** ** The code *)

Inductive barrier_pc :=
| Ba_load | Ba_add (phase : Z) | Ba_reset | Ba_bump | Ba_wake
| Ba_wait (phase : Z) | Ba_check (phase : Z) | Ba_done (leader : bool).

Definition barrier_wait (count : Z) (p : barrier_pc) : act barrier_pc :=
  match p with
  | Ba_load => ALoad 0 Ba_add
  | Ba_add phase => AFetch 1 (fun w => as_u32 (w + 1))
                      (fun prev => if as_u32 (prev + 1) =? count then Ba_reset else Ba_wait phase)
  | Ba_reset => AStore 1 0 Ba_bump
  | Ba_bump => AFetch 0 (fun p => as_u32 (p + 1)) (fun _ => Ba_wake)
  | Ba_wake => AWake 0 U32_MAX (Ba_done true)
  | Ba_wait phase => AWait 0 phase false (fun _ => Ba_check phase)
  | Ba_check phase => ALoad 0 (fun v => if negb (v =? phase) then Ba_done false else Ba_wait phase)
  | Ba_done _ => AChoice []
  end.

(** ** Threads that meet at the barrier *)

(** [rounds]: completed waits; [led]: what the last one returned. *)
Record buser := mkB { rounds : nat; led : option bool; pc : barrier_pc }.

Definition next (u : buser) (p : barrier_pc) : buser :=
  match p with
  | Ba_done r => mkB (S (rounds u)) (Some r) Ba_load
  | _ => mkB (rounds u) (led u) p
  end.

Section barrier.
Context (n : nat).

Definition buser_code (u : buser) : act buser :=
  act_map (next u) (barrier_wait (Z.of_nat n) (pc u)).

(** [n] threads and a new barrier for [n]. *)
Definition Barrier_new : cfg buser := mkCfg (fun _ => 0) (replicate n (Run (mkB 0 None Ba_load))).

(** ** The invariant, on the threads' states whether they run or sleep *)

Definition view (t : tstate buser) : buser :=
  match t with Run u => u | Sleep _ _ k => k TRONA_OK end.

(** The thread has arrived in its present round. *)
Definition past (u : buser) : bool :=
  match pc u with Ba_load | Ba_add _ => false | _ => true end.
Definition arrivals (u : buser) : nat := (rounds u + if past u then 1 else 0)%nat.

Definition in_phase (R : nat) (u : buser) : bool := Nat.eqb (rounds u) R && past u.
Definition at_reset (u : buser) : bool := match pc u with Ba_reset => true | _ => false end.
Definition at_bump (u : buser) : bool := match pc u with Ba_bump => true | _ => false end.
Definition at_wake (u : buser) : bool := match pc u with Ba_wake => true | _ => false end.
Definition won (u : buser) : bool := match led u with Some true => true | _ => false end.
(** Leader of the last completed phase, and of the one before. *)
Definition crown (R : nat) (u : buser) : bool := (Nat.eqb (rounds u) R && won u) || at_wake u.
Definition old_crown (R : nat) (u : buser) : bool := Nat.eqb (S (rounds u)) R && won u.

(** Where a thread can be when [R] phases are over and the phase word is [w]. *)
Definition buser_ok (R : nat) (w : Z) (u : buser) : Prop :=
  match pc u with
  | Ba_load | Ba_reset | Ba_bump => rounds u = R
  | Ba_add ph => rounds u = R /\ ph = w
  | Ba_wake => S (rounds u) = R
  | Ba_wait ph | Ba_check ph => rounds u = R /\ ph = w \/ S (rounds u) = R /\ ph <> w
  | Ba_done _ => False
  end.

Record core (R : nat) (m : nat -> Z) (us : list buser) : Prop := {
  co_phase : m 0%nat = as_u32 (Z.of_nat R);
  co_len : length us = n;
  co_ok i u : us !! i = Some u -> buser_ok R (m 0%nat) u;
  co_arrive :
    let A := count (in_phase R) us in
    (count at_reset us, count at_bump us) = (0%nat, 0%nat) /\ m 1%nat = Z.of_nat A /\ (A < n)%nat \/
    (count at_reset us, count at_bump us) = (1%nat, 0%nat) /\ m 1%nat = Z.of_nat n /\ A = n \/
    (count at_reset us, count at_bump us) = (0%nat, 1%nat) /\ m 1%nat = 0 /\ A = n;
  co_crown : count (crown R) us = match R with O => O | S _ => 1%nat end;
  co_old : (count (old_crown R) us <= 1)%nat;
}.

(** A thread that moves within its role. *)
Lemma core_stay R m us i u u' :
  core R m us -> us !! i = Some u -> buser_ok R (m 0%nat) u' ->
  in_phase R u' = in_phase R u -> at_reset u' = at_reset u -> at_bump u' = at_bump u ->
  crown R u' = crown R u -> (old_crown R u' = true -> old_crown R u = true) ->
  core R m (<[i := u']> us).
Proof.
  intros [Hp Hl Hok Har Hcr Hold] Hi Hu' E1 E2 E3 E4 E5. split.
  - done.
  - by rewrite length_insert.
  - intros j v [[-> ->]|[_ Hj]]%insert_cases; [done|by eapply Hok].
  - cbv zeta. by rewrite !(count_insert_same _ _ _ _ _ Hi) by done.
  - by rewrite (count_insert_same _ _ _ _ _ Hi).
  - pose proof (count_insert (old_crown R) _ _ _ u' Hi) as C.
    destruct (old_crown R u'), (old_crown R u); lia.
Qed.

Context (Hn : Z.of_nat n < U32_MAX).

Lemma phase_moves R : as_u32 (Z.of_nat (S R)) <> as_u32 (Z.of_nat R).
Proof.
  unfold as_u32, wrap. rewrite Nat2Z.inj_succ. intros E.
  pose proof (Z.mod_pos_bound (Z.of_nat R) (2 ^ 32) ltac:(lia)) as HB.
  rewrite <- Z.add_1_r, <- Z.add_mod_idemp_l in E by lia.
  destruct (Z.eq_dec (Z.of_nat R mod 2 ^ 32) (2 ^ 32 - 1)) as [E'|].
  - rewrite E' in E. vm_compute in E. discriminate.
  - rewrite Z.mod_small in E by lia. lia.
Qed.

(** Arriving at the barrier. *)
Lemma core_add R m us i u ph :
  core R m us -> us !! i = Some u -> pc u = Ba_add ph ->
  core R (set_word m 1 (as_u32 (m 1%nat + 1)))
    (<[i := next u (if as_u32 (m 1%nat + 1) =? Z.of_nat n then Ba_reset else Ba_wait ph)]> us).
Proof.
  intros [Hp Hl Hok Har Hcr Hold] Hi Hpc. pose proof (Hok _ _ Hi) as Hu. unfold buser_ok in Hu.
  rewrite Hpc in Hu. destruct Hu as [HR ->].
  assert (in_phase R u = false) as Hin by (unfold in_phase, past; rewrite Hpc; apply andb_false_r).
  assert (at_reset u = false /\ at_bump u = false /\ at_wake u = false) as (Hr & Hb & Hw)
    by (unfold at_reset, at_bump, at_wake; by rewrite Hpc).
  cbv zeta in Har. destruct Har as [([= Hr0 Hb0] & H1 & HA)|[(_ & _ & HA)|(_ & _ & HA)]];
    [|rewrite <- Hl in HA; rewrite (count_full _ _ _ _ HA Hi) in Hin; discriminate..].
  assert (as_u32 (m 1%nat + 1) = Z.of_nat (S (count (in_phase R) us))) as E.
  { unfold as_u32. rewrite wrap_small; unfold U32_MAX in Hn; lia. }
  rewrite E. set (p := if _ =? _ then _ else _).
  assert (forall f, count f (<[i := next u p]> us) = (count f us + (if f (next u p) then 1 else 0) - (if f u then 1 else 0))%nat) as HC.
  { intros f. pose proof (count_insert f _ _ _ (next u p) Hi). pose proof (count_pos f _ _ _ Hi).
    destruct (f u), (f (next u p)); lia. }
  assert (next u p = mkB R (led u) p) as Hnx by (unfold p; case_if; cbn; by rewrite HR).
  rewrite Hnx in HC |- *.
  split; rewrite ?set_word_eq, ?set_word_ne by done.
  - done.
  - by rewrite length_insert.
  - intros j v [[-> ->]|[_ Hj]]%insert_cases; [|by eapply Hok]. unfold p. case_if; cbn; auto.
  - cbv zeta. rewrite !HC, Hin, Hr, Hb, Hr0, Hb0.
    replace (in_phase R (mkB R (led u) p)) with true
      by (unfold in_phase, past, p; cbn; rewrite Nat.eqb_refl; by case_if).
    unfold p. destruct (Z.eqb_spec (Z.of_nat (S (count (in_phase R) us))) (Z.of_nat n)); cbn.
    + right; left. split; [done|]. lia.
    + left. split; [done|]. lia.
  - rewrite HC, Hcr. unfold crown. rewrite HR, Hw. cbn [rounds led won at_wake pc].
    replace (at_wake (mkB R (led u) p)) with false by (unfold p; by case_if).
    rewrite Nat.eqb_refl, !orb_false_r. cbn [andb]. unfold won. cbn [led].
    destruct R; destruct (led u) as [[]|]; lia.
  - rewrite HC. replace (old_crown R (mkB R (led u) p)) with false; [lia|].
    unfold old_crown. cbn [rounds]. by destruct (Nat.eqb_spec (S R) R); [lia|].
Qed.

(** The leader resets the counter. *)
Lemma core_reset R m us i u :
  core R m us -> us !! i = Some u -> pc u = Ba_reset ->
  core R (set_word m 1 0) (<[i := next u Ba_bump]> us).
Proof.
  intros [Hp Hl Hok Har Hcr Hold] Hi Hpc. pose proof (Hok _ _ Hi) as Hu. unfold buser_ok in Hu. rewrite Hpc in Hu.
  pose proof (count_pos at_reset _ _ _ Hi ltac:(unfold at_reset; by rewrite Hpc)) as H1.
  cbv zeta in Har. destruct Har as [([= Hr0 _] & _)|[([= Hr0 Hb0] & _ & HA)|([= Hr0 _] & _)]]; [lia| |lia].
  pose proof (count_insert at_reset _ _ _ (next u Ba_bump) Hi) as C1.
  pose proof (count_insert at_bump _ _ _ (next u Ba_bump) Hi) as C2.
  assert (at_reset u = true /\ at_bump u = false) as [F1 F2] by (unfold at_reset, at_bump; by rewrite Hpc).
  rewrite F1 in C1. rewrite F2 in C2. cbn in C1, C2.
  split; rewrite ?set_word_eq, ?set_word_ne by done.
  - done.
  - by rewrite length_insert.
  - intros j v [[-> ->]|[_ Hj]]%insert_cases; [done|by eapply Hok].
  - cbn [next]. cbv zeta. right; right. split; [f_equal; lia|]. split; [done|].
    rewrite (count_insert_same _ _ _ _ _ Hi); [done|]. unfold in_phase, past. by rewrite Hpc.
  - rewrite (count_insert_same _ _ _ _ _ Hi); [done|]. unfold crown, at_wake. by rewrite Hpc.
  - by rewrite (count_insert_same _ _ _ _ _ Hi).
Qed.

(** When the leader is about to advance the phase everybody else waits. *)
Lemma core_all_arrived R m us i u j v :
  core R m us -> us !! i = Some u -> pc u = Ba_bump -> us !! j = Some v ->
  rounds v = R /\ (j <> i -> pc v = Ba_wait (m 0%nat) \/ pc v = Ba_check (m 0%nat)).
Proof.
  intros [Hp Hl Hok Har Hcr Hold] Hi Hpc Hj.
  pose proof (count_pos at_bump _ _ _ Hi ltac:(unfold at_bump; by rewrite Hpc)) as H1.
  cbv zeta in Har. destruct Har as [([= _ Hb0] & _)|[([= _ Hb0] & _)|([= Hr0 Hb0] & _ & HA)]]; [lia..|].
  rewrite <- Hl in HA. pose proof (count_full _ _ _ _ HA Hj) as Hv. unfold in_phase in Hv.
  apply andb_true_iff in Hv as [HR%Nat.eqb_eq Hpast]. split; [done|]. intros Hne.
  pose proof (count_zero _ _ Hr0 _ _ Hj) as Hnr. pose proof (Hok _ _ Hj) as Hv.
  unfold buser_ok in Hv. unfold past in Hpast. unfold at_reset in Hnr.
  destruct (pc v) eqn:E; try done; [|lia|destruct Hv as [[_ ->]|[? _]]; [auto|lia]..].
  assert (at_bump u = true /\ at_bump v = true) as [F1 F2] by (unfold at_bump; by rewrite Hpc, E).
  pose proof (count_two at_bump us i j u v ltac:(done) Hi Hj F1 F2). lia.
Qed.

(** The leader advances the phase: the phase is over for everybody. *)
Lemma core_bump R m us i u :
  core R m us -> us !! i = Some u -> pc u = Ba_bump ->
  core (S R) (set_word m 0 (as_u32 (m 0%nat + 1))) (<[i := next u Ba_wake]> us).
Proof.
  intros HI Hi Hpc. pose proof (fun j v => core_all_arrived _ _ _ _ _ j v HI Hi Hpc) as Hall.
  destruct HI as [Hp Hl Hok Har Hcr Hold].
  assert (forall j v, us !! j = Some v -> rounds v = R) as HR by (intros j v Hj; by apply (Hall j v)).
  assert (as_u32 (m 0%nat + 1) = as_u32 (Z.of_nat (S R))) as Hph.
  { rewrite Hp. unfold as_u32. rewrite wrap_add_l. f_equal. lia. }
  pose proof (count_pos at_bump _ _ _ Hi ltac:(unfold at_bump; by rewrite Hpc)) as H1.
  cbv zeta in Har. destruct Har as [([= _ Hb0] & _)|[([= _ Hb0] & _)|([= Hr0 Hb0] & Hw1 & HA)]]; [lia..|].
  pose proof (lookup_lt_Some _ _ _ Hi) as Hlt.
  assert (count (in_phase (S R)) us = 0%nat) as HA'.
  { apply count_none. intros j v Hj. unfold in_phase. rewrite (HR j v Hj).
    destruct (Nat.eqb_spec R (S R)); [lia|done]. }
  assert (count (crown (S R)) us = 0%nat) as HC'.
  { apply count_none. intros j v Hj. unfold crown. rewrite (HR j v Hj).
    destruct (Nat.eqb_spec R (S R)); [lia|]. cbn. unfold at_wake.
    destruct (decide (j = i)) as [->|Hne]; [replace v with u by congruence; by rewrite Hpc|].
    destruct (proj2 (Hall j v Hj) Hne) as [-> | ->]; done. }
  pose proof (count_insert (in_phase (S R)) _ _ _ (next u Ba_wake) Hi) as C1.
  pose proof (count_insert at_reset _ _ _ (next u Ba_wake) Hi) as C2.
  pose proof (count_insert at_bump _ _ _ (next u Ba_wake) Hi) as C3.
  pose proof (count_insert (crown (S R)) _ _ _ (next u Ba_wake) Hi) as C4.
  pose proof (count_zero _ _ HA' _ _ Hi) as F1. pose proof (count_zero _ _ HC' _ _ Hi) as F4.
  pose proof (count_zero _ _ Hr0 _ _ Hi) as F2. rewrite F1 in C1. rewrite F2 in C2. rewrite F4 in C4.
  assert (at_bump u = true) as F3 by (unfold at_bump; by rewrite Hpc). rewrite F3 in C3.
  assert (in_phase (S R) (next u Ba_wake) = false) as G1.
  { unfold in_phase. cbn. rewrite (HR i u Hi). by destruct (Nat.eqb_spec R (S R)); [lia|]. }
  assert (crown (S R) (next u Ba_wake) = true) as G4 by (unfold crown; cbn; apply orb_true_r).
  rewrite G1 in C1. rewrite G4 in C4. cbn in C2, C3.
  split; rewrite ?set_word_eq, ?set_word_ne by done.
  - done.
  - by rewrite length_insert.
  - intros j v [[-> ->]|[Hne Hj]]%insert_cases; [cbn; by rewrite (HR i u Hi)|].
    destruct (Hall j v Hj) as [Hr Hpcs]. unfold buser_ok.
    assert (m 0%nat <> as_u32 (m 0%nat + 1)) by (rewrite Hph, Hp; intros E; by apply (phase_moves R)).
    destruct (Hpcs Hne) as [-> | ->]; right; split; congruence.
  - cbn [next] in *. cbv zeta. left. split; [f_equal; lia|]. split; lia.
  - cbn [next] in *. lia.
  - rewrite (count_insert_same _ _ _ _ _ Hi) by done.
    transitivity (count (crown R) us); [|rewrite Hcr; destruct R; lia].
    apply count_mono. intros j v Hj. unfold old_crown, crown. rewrite (HR j v Hj), !Nat.eqb_refl. cbn.
    intros ->. done.
Qed.

(** The steps that stay within a role; [p] is the new program point. *)
Lemma core_move R m us i u p :
  core R m us -> us !! i = Some u ->
  match pc u with
  | Ba_load => p = Ba_add (m 0%nat)
  | Ba_wake => p = Ba_done true
  | Ba_wait ph => p = Ba_check ph
  | Ba_check ph => p = if negb (m 0%nat =? ph) then Ba_done false else Ba_wait ph
  | _ => False
  end -> core R m (<[i := next u p]> us).
Proof.
  intros HI Hi Hp. pose proof (co_ok _ _ _ HI _ _ Hi) as Hu. unfold buser_ok in Hu.
  destruct u as [r l p0]. cbn [pc rounds] in *.
  assert (Nat.eqb (S r) r = false /\ Nat.eqb r (S r) = false) as [E1 E2]
    by (split; apply Nat.eqb_neq; lia).
  destruct p0; try done; subst p.
  - subst r. by apply (core_stay R m us i (mkB R l Ba_load)).
  - subst R. apply (core_stay _ m us i (mkB r l Ba_wake)); try done;
      unfold in_phase, crown, old_crown, buser_ok; cbn; rewrite ?E1, ?E2, ?Nat.eqb_refl; cbn; try done.
    cbn in E1. by rewrite E1.
  - by apply (core_stay R m us i (mkB r l (Ba_wait phase))).
  - destruct (Z.eqb_spec (m 0%nat) phase) as [E|E]; cbn [negb next].
    + by apply (core_stay R m us i (mkB r l (Ba_check phase))).
    + destruct Hu as [[_ ?]|[Hr _]]; [congruence|]. subst R.
      apply (core_stay _ m us i (mkB r l (Ba_check phase))); try done;
        unfold in_phase, crown, old_crown, buser_ok; cbn; rewrite ?E1, ?E2, ?Nat.eqb_refl; cbn in *; rewrite ?E1, ?E2; done.
Qed.

Lemma core_local R m us i u m' u' :
  core R m us -> us !! i = Some u -> local_post m (buser_code u) m' u' ->
  pc u <> Ba_wake /\
  (core R m' (<[i := u']> us) \/ core (S R) m' (<[i := u']> us) /\ pc u' = Ba_wake).
Proof.
  intros HI Hi Hl. unfold buser_code in Hl. apply local_post_map in Hl as (p & Hl & ->).
  pose proof (co_ok _ _ _ HI _ _ Hi) as Hu. unfold buser_ok in Hu.
  destruct (pc u) eqn:Hpc; cbn in Hl; try done; (split; [done|]).
  - destruct Hl as [-> ->]. left. eapply core_move; [done..|]. by rewrite Hpc.
  - destruct Hl as [-> ->]. left. by apply core_add.
  - destruct Hl as [-> ->]. left. by apply core_reset.
  - destruct Hl as [-> ->]. right. split; [by apply core_bump|done].
  - destruct Hl as (_ & -> & ->). left. eapply core_move; [done..|]. by rewrite Hpc.
  - destruct Hl as [-> ->]. left. eapply core_move; [done..|]. by rewrite Hpc.
Qed.

(** ** Sleepers *)

Definition waker (c : cfg buser) : Prop := exists j u, thr c !! j = Some (Run u) /\ pc u = Ba_wake.

Record barrier_inv (c : cfg buser) (R : nat) : Prop := {
  bi_core : core R (words c) (map view (thr c));
  bi_sleep i a timed k : thr c !! i = Some (Sleep a timed k) ->
    a = 0%nat /\ (forall r, k r = k TRONA_OK) /\ (exists ph, pc (k TRONA_OK) = Ba_check ph) /\
    (rounds (k TRONA_OK) <> R -> waker c);
}.

Lemma view_insert i t ts : map view (<[i := t]> ts) = <[i := view t]> (map view ts).
Proof. apply (list_fmap_insert view). Qed.

Lemma view_wake_all js ts : map view (wake_all js ts) = map view ts.
Proof.
  revert ts. induction js as [|j js IH]; intros ts; cbn [wake_all]; [done|]. rewrite IH.
  change (view <$> alter wake j ts = view <$> ts). apply list_eq. intros i.
  rewrite !list_lookup_fmap. destruct (decide (i = j)) as [->|Hne].
  - rewrite list_lookup_alter_eq. by destruct (ts !! j) as [[]|].
  - by rewrite list_lookup_alter_ne.
Qed.

Lemma view_lookup (ts : list (tstate buser)) i t : ts !! i = Some t -> map view ts !! i = Some (view t).
Proof. intros H. change (map view ts) with (view <$> ts). by rewrite list_lookup_fmap, H. Qed.

Lemma waker_insert c m i u t :
  waker c -> thr c !! i = Some (Run u) -> pc u <> Ba_wake -> waker (mkCfg m (<[i := t]> (thr c))).
Proof.
  intros (j & v & Hj & Hv) Hi Hu. exists j, v. split; [|done]. cbn.
  rewrite list_lookup_insert_ne; [done|]. intros ->. congruence.
Qed.

Lemma barrier_moves c c' R :
  barrier_inv c R -> moves buser_code c c' -> exists R', barrier_inv c' R'.
Proof.
  intros [HC HS] Hm.
  destruct Hm as [i u m u' Hi Hl|i u a v tm k Hi Hc Hw|i u a cnt u' js Hi Hc Hok|i a tm k r Hi _];
    pose proof (view_lookup _ _ _ Hi) as Hv; cbn [view] in Hv.
  - destruct (core_local _ _ _ _ _ _ _ HC Hv (local_inv _ _ _ _ _ Hl)) as [Hnw [HC'|[HC' Hwk]]].
    + exists R. split; cbn [thr words]; [by rewrite view_insert|].
      intros j b tm k [[_ ?]|[_ Hj]]%insert_cases; [done|].
      destruct (HS _ _ _ _ Hj) as (? & ? & ? & H). split_and!; [done..|]. intros Hr.
      by eapply waker_insert; [apply H| |].
    + exists (S R). split; cbn [thr words]; [by rewrite view_insert|].
      intros j b tm k [[_ ?]|[_ Hj]]%insert_cases; [done|].
      destruct (HS _ _ _ _ Hj) as (? & ? & ? & H). split_and!; [done..|]. intros _.
      exists i, u'. split; [by eapply insert_here|done].
  - unfold buser_code in Hc. destruct (pc u) eqn:Hpc; try discriminate Hc.
    injection Hc as <- <- <- <-. exists R. split; cbn [thr words].
    + rewrite view_insert. apply (core_move R _ _ i u (Ba_check phase)); [done..|]. by rewrite Hpc.
    + intros j b tm k [[-> [= -> -> ->]]|[_ Hj]]%insert_cases.
      * split; [done|]. split; [done|]. split; [by exists phase|]. cbn. intros Hr. exfalso.
        pose proof (co_ok _ _ _ HC _ _ Hv) as Hu. unfold buser_ok in Hu. rewrite Hpc in Hu.
        destruct Hu as [[? _]|[_ ?]]; congruence.
      * destruct (HS _ _ _ _ Hj) as (? & ? & ? & H). split_and!; [done..|]. intros Hr.
        eapply waker_insert; [by apply H|done|congruence].
  - unfold buser_code in Hc. destruct (pc u) eqn:Hpc; try discriminate Hc.
    injection Hc as <- <- <-. exists R. split; cbn [thr words].
    + rewrite view_insert, view_wake_all. apply (core_move R _ _ i u (Ba_done true)); [done..|]. by rewrite Hpc.
    + intros j b tm k [[_ ?]|[_ Hj]]%insert_cases; [done|]. exfalso.
      destruct (wake_ok_cases _ _ _ _ _ _ Hok Hj) as [Hs|(? & ? & _ & _ & ?)]; [|done].
      destruct (HS _ _ _ _ Hs) as (-> & _).
      eapply (wake_ok_all _ _ _ _ j tm k Hok); [|exact Hj].
      pose proof (co_len _ _ _ HC) as Hl. rewrite length_map in Hl. lia.
  - destruct (HS _ _ _ _ Hi) as (_ & Hk & _). exists R. split; cbn [thr words].
    + rewrite view_insert. cbn [view]. rewrite Hk. by rewrite list_insert_id.
    + intros j b tm' k' [[_ ?]|[_ Hj]]%insert_cases; [done|].
      destruct (HS _ _ _ _ Hj) as (? & ? & ? & H). split_and!; [done..|]. intros Hr.
      destruct (H Hr) as (j' & w & Hj' & Hw). exists j', w. split; [|done]. cbn.
      rewrite list_lookup_insert_ne; [done|]. intros ->. congruence.
Qed.

Lemma barrier_inv_reachable c :
  (0 < n)%nat -> reachable buser_code Barrier_new c -> exists R, barrier_inv c R.
Proof.
  intros H0. apply (reachable_inv _ (fun c => exists R, barrier_inv c R)).
  - exists 0%nat. split; unfold Barrier_new; cbn [thr words].
    + replace (map view _) with (replicate n (mkB 0 None Ba_load)).
      2:{ change (map view ?l) with (view <$> l). by rewrite fmap_replicate. }
      split; cbn [words].
      * done.
      * apply length_replicate.
      * intros i u [-> _]%lookup_replicate. done.
      * cbv zeta. left. rewrite !count_replicate by done. done.
      * by rewrite count_replicate.
      * rewrite count_replicate by done. lia.
    + intros i a t k [? _]%lookup_replicate. done.
  - intros c1 c2 [R HI] Hm. by eapply barrier_moves.
Qed.
End barrier.

(** The thread is not waiting for the present phase to end. *)
Definition can_move (phase : Z) (u : buser) : Prop :=
  match pc u with Ba_wait ph | Ba_check ph => ph <> phase | _ => True end.

Lemma view_lookup_inv (ts : list (tstate buser)) i u :
  map view ts !! i = Some u -> exists t, ts !! i = Some t /\ u = view t.
Proof. intros (t & -> & Ht)%(list_lookup_fmap_Some_1 view). by exists t. Qed.

(** Somebody who can move, when a thread sleeps. *)
Lemma barrier_progress n c R i a tm k :
  barrier_inv n c R -> thr c !! i = Some (Sleep a tm k) ->
  exists j u, thr c !! j = Some (Run u) /\ can_move (words c 0%nat) u.
Proof.
  intros [HC HS] Hi.
  assert (forall j u, map view (thr c) !! j = Some u -> can_move (words c 0%nat) u ->
    exists j u, thr c !! j = Some (Run u) /\ can_move (words c 0%nat) u) as Hfind.
  { intros j u ([w|b t k'] & Hj & ->)%view_lookup_inv Hu; [by exists j, w|]. cbn in Hu.
    destruct (HS _ _ _ _ Hj) as (_ & _ & [ph Hph] & Hw).
    destruct Hw as (j' & w & Hj' & Hw).
    - pose proof (co_ok _ _ _ _ HC _ _ (view_lookup _ _ _ Hj)) as Hok. cbn [view] in Hok.
      unfold buser_ok in Hok. unfold can_move in Hu. rewrite Hph in Hok, Hu.
      destruct Hok as [[_ ?]|[? _]]; [done|lia].
    - exists j', w. split; [done|]. unfold can_move. by rewrite Hw. }
  pose proof HC as [Hp Hl Hok Har _ _]. cbv zeta in Har.
  destruct Har as [(_ & _ & HA)|[([= Hr0 _] & _)|([= _ Hb0] & _)]].
  - rewrite <- Hl in HA. destruct (count_lt _ _ HA) as (j & u & Hj & Hu). apply (Hfind j u Hj).
    pose proof (Hok _ _ Hj) as Hj'. unfold buser_ok in Hj'. unfold in_phase, past in Hu.
    unfold can_move. destruct (pc u); try done; destruct Hj' as [[Hj' _]|[_ ?]]; try done;
      by rewrite Hj', Nat.eqb_refl in Hu.
  - destruct (count_exists at_reset (map view (thr c)) ltac:(lia)) as (j & u & Hj & Hu). apply (Hfind j u Hj).
    unfold can_move. unfold at_reset in Hu. by destruct (pc u).
  - destruct (count_exists at_bump (map view (thr c)) ltac:(lia)) as (j & u & Hj & Hu). apply (Hfind j u Hj).
    unfold can_move. unfold at_bump in Hu. by destruct (pc u).
Qed.

(** C39: the barrier.  With [n] threads meeting over and over at a barrier for
    [n], in every interleaving: nobody completes a round before everybody has
    arrived in it; no two threads are told they led the same round, and when
    everybody is through a round exactly one of them was; and whenever a thread
    sleeps, some running thread has not arrived yet, is about to release the
    others, or can leave the barrier. *)
Theorem barrier_spec n c :
  (0 < n)%nat -> Z.of_nat n < U32_MAX -> reachable (buser_code n) (Barrier_new n) c ->
  (forall i j t t', thr c !! i = Some t -> thr c !! j = Some t' ->
     (rounds (view t) <= arrivals (view t'))%nat) /\
  (forall i j t t', i <> j -> thr c !! i = Some t -> thr c !! j = Some t' ->
     rounds (view t) = rounds (view t') -> won (view t) = true -> won (view t') = false) /\
  (forall r, (forall i t, thr c !! i = Some t -> exists l, t = Run (mkB (S r) l Ba_load)) ->
     exists i, thr c !! i = Some (Run (mkB (S r) (Some true) Ba_load))) /\
  (forall i a tm k, thr c !! i = Some (Sleep a tm k) ->
     exists j u, thr c !! j = Some (Run u) /\ can_move (words c 0%nat) u).
Proof.
  intros H0 Hn Hr. destruct (barrier_inv_reachable n Hn c H0 Hr) as [R HI].
  pose proof HI as [HC HS]. pose proof HC as [Hp Hl Hok Har Hcr Hold].
  assert (forall i t, thr c !! i = Some t ->
    rounds (view t) = R \/ S (rounds (view t)) = R /\ past (view t) = true) as Hrounds.
  { intros i t Hi. pose proof (Hok _ _ (view_lookup _ _ _ Hi)) as Hu. unfold buser_ok in Hu. unfold past.
    destruct (pc (view t)); tauto. }
  split; [|split; [|split]].
  - intros i j t t' Hi Hj. unfold arrivals.
    destruct (Hrounds _ _ Hi), (Hrounds _ _ Hj) as [?|[? ->]]; lia.
  - intros i j t t' Hne Hi Hj Hrr Hw. destruct (won (view t')) eqn:Hw'; [|done]. exfalso.
    apply view_lookup in Hi as Hi'. apply view_lookup in Hj as Hj'.
    destruct (Hrounds _ _ Hi) as [E|[E _]].
    + assert (crown R (view t) = true /\ crown R (view t') = true) as [F1 F2]
        by (unfold crown; rewrite <- Hrr, E, Hw, Hw', Nat.eqb_refl; done).
      pose proof (count_two _ _ _ _ _ _ Hne Hi' Hj' F1 F2). destruct R; lia.
    + assert (old_crown R (view t) = true /\ old_crown R (view t') = true) as [F1 F2]
        by (unfold old_crown; rewrite <- Hrr, E, Hw, Hw', Nat.eqb_refl; done).
      pose proof (count_two _ _ _ _ _ _ Hne Hi' Hj' F1 F2). lia.
  - intros r Hall. assert (R = S r) as ->.
    { rewrite length_map in Hl. destruct (lookup_lt_is_Some_2 (thr c) 0 ltac:(lia)) as [t Ht].
      destruct (Hall _ _ Ht) as [l ->]. by destruct (Hrounds _ _ Ht) as [?|[_ ?]]. }
    destruct (count_exists (crown (S r)) (map view (thr c)) ltac:(lia)) as (i & u & Hi & Hu).
    apply view_lookup_inv in Hi as (t & Hi & ->). exists i. rewrite Hi.
    destruct (Hall _ _ Hi) as [l ->]. unfold crown, won in Hu. cbn in Hu.
    destruct l as [[]|]; [done|..]; by rewrite andb_false_r in Hu.
  - intros i a tm k Hi. by eapply barrier_progress.
Qed.

(** Two threads meet: thread 0 arrives and sleeps, thread 1 releases it. *)
Definition meeting : list event :=
  [Go 0; Go 0; Go 0; Go 1; Go 1; Go 1; Go 1; GoWake 1 [0%nat]; Go 0].

Definition meeting_cfg : cfg buser := default (Barrier_new 2) (run (buser_code 2) meeting (Barrier_new 2)).

Lemma barrier_spec_witness :
  exists i, thr meeting_cfg !! i = Some (Run (mkB 1 (Some true) Ba_load)).
Proof.
  assert (reachable (buser_code 2) (Barrier_new 2) meeting_cfg) as Hr by (exists meeting; vm_compute; reflexivity).
  apply (barrier_spec 2 meeting_cfg ltac:(lia) ltac:(reflexivity) Hr).
  intros [|[|i]] t Ht; vm_compute in Ht; [injection Ht as <-; by eexists..|discriminate Ht].
Defined.
