(* ===== verification/InvokeOps.v ===== *)
(** The capability invocations of [src/substrate/invoke.rs] beyond the CNode
    operations of Invoke: the TCB, scheduling-context, address-space, interrupt,
    I/O-port and memory-object wrappers, and the reader of [VSPACE_WALK] results. *)

From S2P Require Import Prelude Consts Kernel SlotAlloc Invoke Ipc.

Section ops.
Context `{Kernel}.

Definition untyped_reset (w : World) (untyped : Z) := invoke_err w untyped UNTYPED_RESET 0 0 0 0.
Definition tcb_configure (w : World) (tcb rip rsp ipc_buf : Z) :=
  invoke_err w tcb TCB_CONFIGURE rip rsp ipc_buf 0.
Definition tcb_resume (w : World) (tcb : Z) := invoke_err w tcb TCB_RESUME 0 0 0 0.
Definition tcb_set_space (w : World) (tcb cspace vspace : Z) :=
  invoke_err w tcb TCB_SET_SPACE cspace vspace 0 0.
Definition tcb_set_space_with_depth (w : World) (tcb cspace vspace depth : Z) :=
  invoke_err w tcb TCB_SET_SPACE cspace vspace depth 0.
Definition tcb_set_fault_handler (w : World) (tcb fault_ep : Z) :=
  invoke_err w tcb TCB_SET_FAULT_HANDLER fault_ep 0 0 0.
Definition tcb_set_ipc_buffer (w : World) (tcb addr : Z) :=
  invoke_err w tcb TCB_SET_IPC_BUFFER addr 0 0 0.
Definition tcb_write_registers (w : World) (tcb flags rip rsp : Z) :=
  invoke_err w tcb TCB_WRITE_REGISTERS flags rip rsp 0.
Definition tcb_suspend (w : World) (tcb : Z) := invoke_err w tcb TCB_SUSPEND 0 0 0 0.
Definition tcb_bind_notification (w : World) (tcb ntfn : Z) :=
  invoke_err w tcb TCB_BIND_NOTIFICATION ntfn 0 0 0.
Definition tcb_copy_fpu (w : World) (dest_tcb src_tcb : Z) :=
  invoke_err w dest_tcb TCB_COPY_FPU src_tcb 0 0 0.
Definition tcb_set_tls_base (w : World) (tcb tls_base : Z) :=
  invoke_err w tcb TCB_SET_TLS_BASE tls_base 0 0 0.
Definition tcb_set_notification_dispatcher (w : World) (tcb dispatcher : Z) :=
  invoke_err w tcb TCB_SET_NOTIFICATION_DISPATCHER dispatcher 0 0 0.
Definition sc_configure (w : World) (sc budget_us period_us : Z) :=
  invoke_err w sc SC_CONFIGURE budget_us period_us 0 0.
Definition sc_bind (w : World) (sc tcb : Z) := invoke_err w sc SC_BIND tcb 0 0 0.
Definition vspace_protect (w : World) (vspace vaddr flags : Z) :=
  invoke_err w vspace VSPACE_PROTECT vaddr flags 0 0.
Definition vspace_map_pt (w : World) (vspace frame vaddr level : Z) :=
  invoke_err w vspace VSPACE_MAP_PT frame vaddr level 0.
Definition vspace_walk (w : World) (vspace start_vaddr max_entries : Z) :=
  invoke_err w vspace VSPACE_WALK start_vaddr max_entries 0 0.
Definition vspace_copy_page (w : World) (src_vspace src_vaddr dst_frame : Z) :=
  invoke_err w src_vspace VSPACE_COPY_PAGE src_vaddr dst_frame 0 0.
Definition vspace_map_device (w : World) (vspace device_untyped page_offset vaddr flags : Z) :=
  invoke_err w vspace VSPACE_MAP_DEVICE device_untyped page_offset vaddr flags.
Definition vspace_clone_cow_page (w : World) (src_vspace src_vaddr dst_vspace dst_vaddr : Z) :=
  invoke_err w src_vspace VSPACE_CLONE_COW_PAGE src_vaddr dst_vspace dst_vaddr 0.
Definition vspace_share_ro_page (w : World) (src_vspace src_vaddr dst_vspace dst_vaddr : Z) :=
  invoke_err w src_vspace VSPACE_SHARE_RO_PAGE src_vaddr dst_vspace dst_vaddr 0.
Definition vspace_map_demand (w : World) (vspace vaddr flags : Z) :=
  invoke_err w vspace VSPACE_MAP_DEMAND vaddr flags 0 0.
Definition vspace_cow_resolve (w : World) (vspace vaddr new_frame flags : Z) :=
  invoke_err w vspace VSPACE_COW_RESOLVE vaddr new_frame flags 0.
Definition vspace_set_cow_pool (w : World) (vspace pool_frame src_cnode count : Z) :=
  invoke_err w vspace VSPACE_SET_COW_POOL pool_frame src_cnode count 0.
Definition vspace_set_cow_notif (w : World) (vspace ring_frame notif : Z) :=
  invoke_err w vspace VSPACE_SET_COW_NOTIF ring_frame notif 0 0.
Definition vspace_replenish_cow_pool (w : World) (vspace src_cnode start_slot count : Z) :=
  invoke_err w vspace VSPACE_REPLENISH_COW_POOL src_cnode start_slot count 0.
Definition cnode_set_guard (w : World) (cnode guard guard_bits : Z) :=
  invoke_err w cnode CNODE_SET_GUARD guard guard_bits 0 0.
Definition irq_handler_ack (w : World) (irq_handler : Z) :=
  invoke_err w irq_handler IRQ_HANDLER_ACK 0 0 0 0.
Definition irq_handler_set_notification (w : World) (irq_handler ntfn : Z) :=
  invoke_err w irq_handler IRQ_HANDLER_SET_NOTIFICATION ntfn 0 0 0.
Definition irq_control_get (w : World) (irq_ctrl irq_num dest_cnode dest_slot : Z) :=
  invoke_err w irq_ctrl IRQ_CONTROL_GET irq_num dest_cnode dest_slot 0.
Definition irq_handler_clear (w : World) (irq_handler : Z) :=
  invoke_err w irq_handler IRQ_HANDLER_CLEAR 0 0 0 0.
Definition ioport_configure (w : World) (ioport base_port num_ports : Z) :=
  invoke_err w ioport IOPORT_CONFIGURE base_port num_ports 0 0.
Definition ioport_create (w : World) (irq_ctrl base_port num_ports dest_cnode dest_slot : Z) :=
  invoke_err w irq_ctrl IOPORT_CREATE base_port num_ports dest_cnode dest_slot.
Definition device_untyped_create (w : World) (irq_ctrl phys_addr size_bits dest_cnode dest_slot : Z) :=
  invoke_err w irq_ctrl DEVICE_UNTYPED_CREATE phys_addr size_bits dest_cnode dest_slot.
Definition mo_decommit (w : World) (mo offset count : Z) :=
  invoke_err w mo MO_DECOMMIT offset count 0 0.
Definition mo_clone (w : World) (mo child_mo flags : Z) :=
  invoke_err w mo MO_CLONE child_mo flags 0 0.
Definition mo_resize (w : World) (mo new_page_count : Z) :=
  invoke_err w mo MO_RESIZE new_page_count 0 0 0.

(** The operations that also return a count: [(r.error as i32, r.value)]. *)
Definition invoke_pair (w : World) (cap : Cap) (lbl x0 x1 x2 x3 : Z) : (Z * Z) * World :=
  let '(r, w) := invoke w cap lbl x0 x1 x2 x3 in ((as_i32 (error r), value r), w).

Definition vspace_protect_range (w : World) (vspace vaddr count flags : Z) :=
  invoke_pair w vspace VSPACE_PROTECT_RANGE vaddr count flags 0.
Definition vspace_map_demand_range (w : World) (vspace vaddr_start count flags : Z) :=
  invoke_pair w vspace VSPACE_MAP_DEMAND_RANGE vaddr_start count flags 0.
Definition mo_commit (w : World) (mo offset count ut_cap : Z) :=
  invoke_pair w mo MO_COMMIT offset count ut_cap 0.
Definition mo_get_size (w : World) (mo : Z) := invoke_pair w mo MO_GET_SIZE 0 0 0 0.
Definition mo_read (w : World) (mo offset count : Z) := invoke_pair w mo MO_READ offset count 0 0.
Definition mo_write (w : World) (mo offset count : Z) :=
  invoke_pair w mo MO_WRITE offset count 0 0.
Definition vspace_map_mo_with_count (w : World) (vspace mo_cap vaddr mo_offset count_and_flags : Z) :=
  invoke_pair w vspace VSPACE_MAP_MO mo_cap vaddr mo_offset count_and_flags.

Definition vspace_map_mo (w : World) (vspace mo_cap vaddr mo_offset count_and_flags : Z)
    : Z * World :=
  let '((err, _), w) := vspace_map_mo_with_count w vspace mo_cap vaddr mo_offset count_and_flags in
  (err, w).

Definition mo_has_page (w : World) (mo page_index : Z) : (Z * bool) * World :=
  let '(r, w) := invoke w mo MO_HAS_PAGE page_index 0 0 0 in
  ((as_i32 (error r), negb (value r =? 0)), w).

Definition untyped_retype_depth (w : World) (untyped new_type size_bits dest_slot dest_depth : Z)
    : Z * World :=
  let w := write_invoke_depth w dest_depth 0 in
  invoke_err w untyped UNTYPED_RETYPE new_type size_bits dest_slot 0.

(** ** Two fields in one register *)

Definition vspace_map_device_range (w : World) (vspace device_untyped offset_start vaddr_start
    num_pages flags : Z) : (Z * Z) * World :=
  let count_and_flags := Z.lor (num_pages << 32)%u64 (Z.land flags 0xFFFFFFFF) in
  invoke_pair w vspace VSPACE_MAP_DEVICE_RANGE device_untyped offset_start vaddr_start
    count_and_flags.

Definition vspace_fork_range (w : World) (parent_vspace child_vspace child_mo va_start page_count
    mo_offset : Z) : (Z * Z) * World :=
  let count_and_offset := Z.lor (page_count << 32)%u64 (Z.land mo_offset 0xFFFFFFFF) in
  invoke_pair w parent_vspace VSPACE_FORK_RANGE child_vspace child_mo va_start count_and_offset.

(** ** I/O ports *)

Definition ioport_in8 (w : World) (ioport offset : Z) : Z * World :=
  let '(r, w) := invoke w ioport IOPORT_IN8 offset 0 0 0 in (as_u8 (value r), w).
Definition ioport_in16 (w : World) (ioport offset : Z) : Z * World :=
  let '(r, w) := invoke w ioport IOPORT_IN16 offset 0 0 0 in (as_u16 (value r), w).
Definition ioport_in32 (w : World) (ioport offset : Z) : Z * World :=
  let '(r, w) := invoke w ioport IOPORT_IN32 offset 0 0 0 in (as_u32 (value r), w).
Definition ioport_out8 (w : World) (ioport offset v : Z) : World :=
  snd (invoke w ioport IOPORT_OUT8 offset v 0 0).
Definition ioport_out16 (w : World) (ioport offset v : Z) : World :=
  snd (invoke w ioport IOPORT_OUT16 offset v 0 0).
Definition ioport_out32 (w : World) (ioport offset v : Z) : World :=
  snd (invoke w ioport IOPORT_OUT32 offset v 0 0).

(** ** Results in the IPC buffer *)

Definition tcb_get_space_info (w : World) (tcb : Cap) : option Z * World :=
  let '(r, w) := invoke w tcb TCB_GET_SPACE_INFO 0 0 0 0 in
  if negb (error r =? 0) then (None, w)
  else ((fun b => as_u8 (default 0 (msg b !! 0%nat))) <$> buffer_of (ctx w), w).

(** The buffer page read as an array of words, in the order of the fields. *)
Definition page_words (b : IpcBuffer) : list Z :=
  msg b ++ badge b :: caps b ++
  receive_cnode b :: receive_index b :: receive_depth b :: timeout_ns b :: reserved b.

Definition IPC_BUFFER_WORDS : Z := 34 + 1 + 4 + 4 + Z.of_nat IPC_BUFFER_RESERVED_WORDS.

Definition walk_ipc_words (w : World) : option (list Z) := page_words <$> buffer_of (ctx w).

Definition VSPACE_WALK_ENTRY_BASE_WORD : Z := 42.
Definition VSPACE_WALK_ENTRY_WORDS : Z := 3.

(** A read of the word at index [i]; [None] is a read outside the structure. *)
Definition read_word (l : list Z) (i : Z) : option Z := l !! Z.to_nat i.

Definition vspace_walk_result_header (w : World) : option (option Z * option Z) :=
  l ← walk_ipc_words w; Some (read_word l 0, read_word l 1).

Definition vspace_walk_result_entry (w : World) (index : Z)
    : option (option Z * option Z * option Z) :=
  l ← walk_ipc_words w;
  m ← checked_mul index VSPACE_WALK_ENTRY_WORDS;
  offset ← checked_add VSPACE_WALK_ENTRY_BASE_WORD m;
  if IPC_BUFFER_WORDS <=? (offset + 2)%u64 then None
  else Some (read_word l offset, read_word l (offset + 1), read_word l (offset + 2)).
End ops.

(** A count and a 32-bit field share a register: the receiver reads both back
    when the count has at most 32 bits, and a larger count is cut off. *)
Lemma packed_fields (n f : Z) :
  0 <= n -> 0 <= f ->
  let packed := Z.lor (n << 32)%u64 (Z.land f 0xFFFFFFFF) in
  Z.shiftr packed 32 = n mod 2 ^ 32 /\ Z.land packed 0xFFFFFFFF = f mod 2 ^ 32.
Proof.
  intros Hn Hf. cbn zeta. change 0xFFFFFFFF with (Z.ones 32).
  assert (E : (n << 32)%u64 = Z.shiftl (n mod 2 ^ 32) 32).
  { rewrite !Z.shiftl_mul_pow2 by lia. unfold wrap.
    change (2 ^ 64) with (2 ^ 32 * 2 ^ 32). by rewrite Z.mul_mod_distr_r. }
  rewrite E, (Z.land_ones f) by lia.
  pose proof (Z.mod_pos_bound f (2 ^ 32) ltac:(lia)).
  split.
  - rewrite Z.shiftr_lor, Z.shiftr_shiftl_l, Z.shiftl_0_r by lia.
    rewrite (Z.shiftr_div_pow2 (f mod _)), Z.div_small by lia. apply Z.lor_0_r.
  - rewrite Z.land_lor_distr_l, !Z.land_ones by lia.
    rewrite Z.shiftl_mul_pow2, Z.mod_mul, Z.lor_0_l by lia. by apply Z.mod_mod.
Qed.

Section walk.
Context `{Kernel}.

Lemma page_words_length b : buffer_wf b -> Z.of_nat (length (page_words b)) = IPC_BUFFER_WORDS.
Proof.
  intros [Hm Hc Hr]. unfold page_words, IPC_BUFFER_WORDS.
  rewrite !length_app. cbn [length]. rewrite length_app. cbn [length]. rewrite Hm, Hc, Hr. lia.
Qed.

(** The reader of the [VSPACE_WALK] entries: for an index below 2^62 it
    answers exactly for the entries that lie wholly inside the page structure,
    that is for the first 155, and every word it then reads exists. *)
Lemma walk_result_entry_spec w b (index : Z) :
  buffer_of (ctx w) = Some b -> buffer_wf b -> 0 <= index < 2 ^ 62 ->
  (index <= 154 -> exists va pa fl, vspace_walk_result_entry w index = Some (Some va, Some pa, Some fl)) /\
  (154 < index -> vspace_walk_result_entry w index = None).
Proof.
  intros Hb Hw Hi. unfold vspace_walk_result_entry, walk_ipc_words. rewrite Hb. cbn.
  unfold checked_mul, checked_add, VSPACE_WALK_ENTRY_WORDS, VSPACE_WALK_ENTRY_BASE_WORD.
  destruct (Z.ltb_spec (index * 3) (2 ^ 64)); [|lia]. cbn.
  destruct (Z.ltb_spec (42 + index * 3) (2 ^ 64)); [|lia]. cbn.
  rewrite wrap_small by lia. pose proof (page_words_length b Hw) as Hl.
  assert (HW : IPC_BUFFER_WORDS = 508) by done. rewrite HW in *.
  split; intros; [|by destruct (Z.leb_spec 508 (42 + index * 3 + 2)); [|lia]].
  destruct (Z.leb_spec 508 (42 + index * 3 + 2)); [lia|]. unfold read_word.
  assert (Hrd : forall i, 0 <= i < 508 -> exists x, page_words b !! Z.to_nat i = Some x).
  { intros i Hr. apply lookup_lt_is_Some_2. lia. }
  destruct (Hrd (42 + index * 3)) as [va ->]; [lia|].
  destruct (Hrd (42 + index * 3 + 1)) as [pa ->]; [lia|].
  destruct (Hrd (42 + index * 3 + 2)) as [fl ->]; [lia|]. eauto.
Qed.

(** The first word of the first entry is the [timeout_ns] field: the entry area
    starts one word before the reserved words. *)
Lemma walk_entry_is_timeout w b :
  buffer_of (ctx w) = Some b -> buffer_wf b ->
  exists pa fl, vspace_walk_result_entry w 0 = Some (Some (timeout_ns b), Some pa, Some fl).
Proof.
  intros Hb Hw.
  destruct (walk_result_entry_spec w b 0 Hb Hw ltac:(lia)) as [(va & pa & fl & E) _]; [lia|].
  assert (Ht : page_words b !! 42%nat = Some (timeout_ns b)).
  { destruct Hw as [Hm Hc _]. unfold page_words. rewrite lookup_app_r by lia. rewrite Hm.
    by destruct (caps b) as [|? [|? [|? [|? []]]]]. }
  assert (E0 : vspace_walk_result_entry w 0 =
    Some (page_words b !! 42%nat, page_words b !! 43%nat, page_words b !! 44%nat)).
  { unfold vspace_walk_result_entry, walk_ipc_words. by rewrite Hb. }
  exists pa, fl. congruence.
Qed.

(** The bound check is on [offset + 2], which is not a checked sum: the one
    index whose offset is the largest word number passes it, and the read is
    outside the page. *)
Lemma walk_entry_wraps w b :
  buffer_of (ctx w) = Some b -> buffer_wf b ->
  exists pa fl, vspace_walk_result_entry w 6148914691236517191 = Some (None, pa, fl).
Proof.
  intros Hb Hw.
  assert (Hout : read_word (page_words b) (2 ^ 64 - 1) = None).
  { unfold read_word. apply lookup_ge_None_2. pose proof (page_words_length b Hw) as Hl.
    assert (HW : IPC_BUFFER_WORDS = 508) by done. lia. }
  unfold vspace_walk_result_entry, walk_ipc_words. rewrite Hb.
  change (checked_mul 6148914691236517191 VSPACE_WALK_ENTRY_WORDS) with (Some (2 ^ 64 - 43)).
  cbn [fmap option_fmap option_map mbind option_bind].
  change (checked_add VSPACE_WALK_ENTRY_BASE_WORD (2 ^ 64 - 43)) with (Some (2 ^ 64 - 1)).
  cbn [mbind option_bind]. rewrite Hout.
  change (IPC_BUFFER_WORDS <=? (2 ^ 64 - 1 + 2)%u64) with false. eauto.
Qed.
End walk.
