(* ===== verification/Serial.v ===== *)
(** Diagnostic output, [src/substrate/serial.rs]: [serial_puts] in chunks of at
    most 256 bytes, the hexadecimal and decimal printers, and the line buffer
    [LineBuf] that collects a message and prints it with one call.  A byte slice
    is passed to the kernel by address; [slice_addr] gives the address at which
    a slice lies. *)

From S2P Require Import Prelude Consts Kernel.
From Stdlib Require String Ascii.
Import String.StringSyntax.

(** The bytes of a [b"..."] literal. *)
Definition lit (s : String.string) : list Z :=
  map (fun c => Z.of_nat (Ascii.nat_of_ascii c)) (String.list_ascii_of_string s).
Arguments lit s%_string_scope.

(** A literal that ends in a newline. *)
Definition line (s : String.string) : list Z := lit s ++ [10].
Arguments line s%_string_scope.

Class Slices := { slice_addr : list Z -> Z }.

Section serial.
Context `{Kernel} `{Slices}.

Definition serial_putc (w : World) (c : Z) : World :=
  snd (syscall w SYS_DEBUG_PUTCHAR c 0 0 0 0 0).

Fixpoint puts_loop (fuel : nat) (w : World) (s : list Z) (off : Z) : World :=
  match fuel with
  | O => w
  | S f =>
      let len := Z.of_nat (length s) in
      if off <? len then
        let chunk := if len - off <? 256 then len - off else 256 in
        puts_loop f (snd (syscall w SYS_DEBUG_PUTBUF (slice_addr s + off) chunk 0 0 0 0)) s (off + chunk)
      else w
  end.

Definition serial_puts (w : World) (s : list Z) : World := puts_loop (length s) w s 0.

Definition hex_digit (d : Z) : Z := if d <? 10 then 48 + d else 87 + d.

(** The digit loop of [serial_hex] and [LineBuf::hex]: at most 16 digits. *)
Fixpoint hex_loop (fuel : nat) (v : Z) (acc : list Z) : list Z :=
  match fuel with
  | O => acc
  | S f => if 0 <? v then hex_loop f (Z.shiftr v 4) (hex_digit (Z.land v 0xF) :: acc) else acc
  end.

Definition hex_text (val : Z) : list Z :=
  lit "0x" ++ (if val =? 0 then lit "0" else hex_loop 16 val []).

Definition serial_hex (w : World) (val : Z) : World := serial_puts w (hex_text val).

(** The digit loop of [serial_dec] and [LineBuf::dec]: at most 20 digits. *)
Fixpoint dec_loop (fuel : nat) (v : Z) (acc : list Z) : list Z :=
  match fuel with
  | O => acc
  | S f => if 0 <? v then dec_loop f (v / 10) (48 + v mod 10 :: acc) else acc
  end.

Definition dec_text (val : Z) : list Z := if val =? 0 then lit "0" else dec_loop 20 val [].

Definition serial_dec (w : World) (val : Z) : World := serial_puts w (dec_text val).

(** ** The line buffer *)

Record LineBuf := mkLine { buf : list Z; pos : nat }.

Definition LineBuf_new : LineBuf := mkLine (replicate 256 0) 0.

Definition line_putc (lb : LineBuf) (c : Z) : LineBuf :=
  if (pos lb <? length (buf lb) - 1)%nat then mkLine (<[pos lb := c]> (buf lb)) (S (pos lb)) else lb.

Definition line_str (lb : LineBuf) (s : list Z) : LineBuf := fold_left line_putc s lb.
Definition line_bytes (lb : LineBuf) (s : list Z) : LineBuf := line_str lb s.

Definition line_hex (lb : LineBuf) (val : Z) : LineBuf :=
  let lb := line_str lb (lit "0x") in
  if val =? 0 then line_putc lb 48 else fold_left line_putc (hex_loop 16 val []) lb.

Definition line_dec (lb : LineBuf) (val : Z) : LineBuf :=
  if val =? 0 then line_putc lb 48 else fold_left line_putc (dec_loop 20 val []) lb.

Definition line_flush (lb : LineBuf) (w : World) : LineBuf * World :=
  if (0 <? pos lb)%nat then (mkLine (buf lb) 0, serial_puts w (take (pos lb) (buf lb))) else (lb, w).

(** [trona_serial_puts]: the bytes of a C string, one call each. *)
Fixpoint trona_serial_puts (w : World) (s : list Z) : World :=
  match s with
  | [] => w
  | c :: s' => if c =? 0 then w else trona_serial_puts (serial_putc w c) s'
  end.
End serial.

(** ** Chunks *)

Definition putbuf_call `{Slices} (s : list Z) (p : Z * Z) : Syscall :=
  mkCall SYS_DEBUG_PUTBUF (slice_addr s + fst p) (snd p) 0 0 0 0.
Definition slice (s : list Z) (p : Z * Z) : list Z :=
  take (Z.to_nat (snd p)) (drop (Z.to_nat (fst p)) s).

Lemma puts_loop_spec `{Kernel} `{Slices} s : forall fuel w off,
  0 <= off <= Z.of_nat (length s) -> Z.of_nat (length s) - off <= Z.of_nat fuel ->
  exists spans,
    trace (puts_loop fuel w s off) = trace w ++ map (putbuf_call s) spans /\
    concat (map (slice s) spans) = drop (Z.to_nat off) s /\
    Forall (fun p => 1 <= snd p <= 256 /\ 0 <= fst p /\ fst p + snd p <= Z.of_nat (length s)) spans.
Proof.
  induction fuel as [|fuel IH]; intros w off Ho Hf.
  { exists []. cbn. rewrite app_nil_r, drop_ge by lia. done. }
  cbn [puts_loop]. destruct (Z.ltb_spec off (Z.of_nat (length s))); cycle 1.
  { exists []. cbn. rewrite app_nil_r, drop_ge by lia. done. }
  set (chunk := if _ <? 256 then _ else _).
  assert (Hc : 1 <= chunk <= 256 /\ off + chunk <= Z.of_nat (length s)).
  { unfold chunk. case_if; bprop; lia. }
  destruct (IH (snd (syscall w SYS_DEBUG_PUTBUF (slice_addr s + off) chunk 0 0 0 0)) (off + chunk))
    as (spans & Ht & Hs & Hall); [lia..|].
  exists ((off, chunk) :: spans). rewrite Ht. cbn [map concat snd syscall trace].
  rewrite <- app_assoc. split; [done|]. split; [|constructor; [cbn; lia|done]].
  rewrite Hs. unfold slice. cbn [fst snd].
  replace (Z.to_nat (off + chunk)) with (Z.to_nat off + Z.to_nat chunk)%nat by lia.
  by rewrite <- drop_drop, take_drop.
Qed.

(** [serial_puts] hands the kernel the slice in order, in pieces of at most 256
    bytes that lie inside it and together are the slice. *)
Lemma serial_puts_spec `{Kernel} `{Slices} w s :
  exists spans,
    trace (serial_puts w s) = trace w ++ map (putbuf_call s) spans /\
    concat (map (slice s) spans) = s /\
    Forall (fun p => 1 <= snd p <= 256 /\ 0 <= fst p /\ fst p + snd p <= Z.of_nat (length s)) spans.
Proof. apply (puts_loop_spec s (length s) w 0); lia. Qed.

(** ** Digits *)

(** The number a digit string denotes. *)
Definition digits_value (b : Z) (dec : Z -> Z) (l : list Z) : Z :=
  fold_left (fun v c => v * b + dec c) l 0.

Lemma fold_digits b dec l : forall v,
  fold_left (fun v c => v * b + dec c) l v = v * b ^ Z.of_nat (length l) + digits_value b dec l.
Proof.
  unfold digits_value. induction l as [|c l IH]; intros v; cbn [fold_left length]; [lia|].
  rewrite IH, (IH (0 * b + dec c)). rewrite Nat2Z.inj_succ, Z.pow_succ_r by lia. lia.
Qed.

Lemma digits_cons b dec c l :
  digits_value b dec (c :: l) = dec c * b ^ Z.of_nat (length l) + digits_value b dec l.
Proof. unfold digits_value at 1. cbn [fold_left]. rewrite fold_digits. lia. Qed.

Definition dec_digit (c : Z) : Z := c - 48.

Lemma digit_step b v p x y z :
  v = b * x + y -> x * (b * p) + (y * p + z) = v * p + z.
Proof. intros ->. ring. Qed.

Lemma dec_loop_value fuel : forall v acc,
  0 <= v < 10 ^ Z.of_nat fuel ->
  digits_value 10 dec_digit (dec_loop fuel v acc) =
    v * 10 ^ Z.of_nat (length acc) + digits_value 10 dec_digit acc.
Proof.
  induction fuel as [|fuel IH]; intros v acc Hv; cbn [dec_loop].
  { change (10 ^ Z.of_nat 0) with 1 in Hv. assert (v = 0) as -> by lia. lia. }
  destruct (Z.ltb_spec 0 v); [|assert (v = 0) as -> by lia; lia].
  rewrite Nat2Z.inj_succ, Z.pow_succ_r in Hv by lia.
  pose proof (Z.div_mod v 10 ltac:(lia)).
  rewrite IH; [|split; [apply Z.div_pos; lia|apply Z.div_lt_upper_bound; lia]].
  rewrite digits_cons. cbn [length].
  replace (dec_digit (48 + v mod 10)) with (v mod 10) by (unfold dec_digit; lia).
  rewrite Nat2Z.inj_succ, Z.pow_succ_r by lia. by apply digit_step.
Qed.

Lemma dec_loop_app fuel : forall v acc, dec_loop fuel v acc = dec_loop fuel v [] ++ acc.
Proof.
  induction fuel as [|fuel IH]; intros v acc; cbn [dec_loop]; [done|].
  case_if; [|done]. rewrite IH, (IH _ [_]), <- app_assoc. done.
Qed.

Lemma dec_loop_digits fuel v c : c ∈ dec_loop fuel v [] -> 48 <= c <= 57.
Proof.
  revert v. induction fuel as [|fuel IH]; intros v; cbn [dec_loop]; [by rewrite elem_of_nil|].
  case_if; [|by rewrite elem_of_nil]. rewrite dec_loop_app, elem_of_app, list_elem_of_singleton.
  intros [?| ->]; [eauto|]. pose proof (Z.mod_pos_bound v 10). lia.
Qed.

Lemma dec_loop_head fuel : forall v, 0 < v < 10 ^ Z.of_nat fuel ->
  exists c l, dec_loop fuel v [] = c :: l /\ c <> 48.
Proof.
  induction fuel as [|fuel IH]; intros v Hv; [change (10 ^ Z.of_nat 0) with 1 in Hv; lia|].
  cbn [dec_loop]. destruct (Z.ltb_spec 0 v); [|lia]. rewrite dec_loop_app.
  rewrite Nat2Z.inj_succ, Z.pow_succ_r in Hv by lia.
  pose proof (Z.div_mod v 10 ltac:(lia)).
  destruct (Z.eq_dec (v / 10) 0) as [E|E].
  - rewrite E. replace (dec_loop fuel 0 []) with (@nil Z) by (by destruct fuel).
    eexists _, _. split; [reflexivity|lia].
  - destruct (IH (v / 10)) as (c & l & -> & Hc).
    { split; [|apply Z.div_lt_upper_bound; lia]. pose proof (Z.div_pos v 10). lia. }
    eexists _, _. by rewrite <- app_comm_cons.
Qed.

(** [serial_dec] and [LineBuf::dec] print the decimal numeral of a 64-bit
    value: digits only, of the right value, without a leading zero. *)
Lemma dec_text_spec val :
  u64 val ->
  digits_value 10 dec_digit (dec_text val) = val /\
  (forall c, c ∈ dec_text val -> 48 <= c <= 57) /\
  (val <> 0 -> exists c l, dec_text val = c :: l /\ c <> 48).
Proof.
  intros Hv. assert (0 <= val < 10 ^ Z.of_nat 20) by (unfold_widths; cbn; lia).
  unfold dec_text. destruct (Z.eqb_spec val 0) as [->|].
  - split; [done|]. split; [|done]. intros c Hc. apply (list_elem_of_singleton c 48) in Hc. lia.
  - split; [|split; [intros c; apply dec_loop_digits|intros _; apply dec_loop_head; lia]].
    rewrite dec_loop_value by done. cbn. lia.
Qed.

Definition hex_value (c : Z) : Z := if c <? 97 then c - 48 else c - 87.

Lemma hex_digit_value d : 0 <= d < 16 -> hex_value (hex_digit d) = d.
Proof. intros. unfold hex_value, hex_digit. destruct (Z.ltb_spec d 10); case_if; bprop; lia. Qed.

Lemma hex_loop_value fuel : forall v acc,
  0 <= v < 16 ^ Z.of_nat fuel ->
  digits_value 16 hex_value (hex_loop fuel v acc) =
    v * 16 ^ Z.of_nat (length acc) + digits_value 16 hex_value acc.
Proof.
  induction fuel as [|fuel IH]; intros v acc Hv; cbn [hex_loop].
  { change (16 ^ Z.of_nat 0) with 1 in Hv. assert (v = 0) as -> by lia. lia. }
  destruct (Z.ltb_spec 0 v); [|assert (v = 0) as -> by lia; lia].
  rewrite Nat2Z.inj_succ, Z.pow_succ_r in Hv by lia.
  change 15 with (Z.ones 4). rewrite Z.land_ones, Z.shiftr_div_pow2 by lia. change (2 ^ 4) with 16.
  pose proof (Z.div_mod v 16 ltac:(lia)). pose proof (Z.mod_pos_bound v 16 ltac:(lia)).
  rewrite IH; [|split; [apply Z.div_pos; lia|apply Z.div_lt_upper_bound; lia]].
  rewrite digits_cons, hex_digit_value by lia. cbn [length].
  rewrite Nat2Z.inj_succ, Z.pow_succ_r by lia. by apply digit_step.
Qed.

Lemma hex_text_spec val :
  u64 val -> exists l, hex_text val = 48 :: 120 :: l /\ digits_value 16 hex_value l = val.
Proof.
  intros Hv. unfold hex_text. eexists. split; [reflexivity|].
  destruct (Z.eqb_spec val 0) as [->|]; [done|].
  rewrite hex_loop_value by (unfold_widths; cbn; lia). cbn. lia.
Qed.

(** ** The text of a line buffer *)

Definition line_wf (lb : LineBuf) : Prop := length (buf lb) = 256%nat /\ (pos lb <= 255)%nat.
Definition line_text (lb : LineBuf) : list Z := take (pos lb) (buf lb).

Lemma line_putc_spec lb c :
  line_wf lb -> line_wf (line_putc lb c) /\ line_text (line_putc lb c) = take 255 (line_text lb ++ [c]).
Proof.
  intros [Hl Hp]. unfold line_putc, line_text, line_wf. rewrite Hl.
  destruct (Nat.ltb_spec (pos lb) (256 - 1)); cbn [buf pos].
  - rewrite length_insert. split; [lia|].
    rewrite (take_S_r _ _ c) by (rewrite list_lookup_insert_eq; [done|lia]).
    rewrite take_insert_ge by lia. rewrite (take_ge (_ ++ _)); [done|].
    rewrite length_app, length_take. cbn. lia.
  - split; [done|]. rewrite take_app_le by (rewrite length_take; lia).
    by rewrite take_take, Nat.min_r by lia.
Qed.

(** Appending to a line: the buffer keeps the first 255 bytes of everything
    appended so far and drops the rest. *)
Lemma line_str_spec s : forall lb,
  line_wf lb -> line_wf (line_str lb s) /\ line_text (line_str lb s) = take 255 (line_text lb ++ s).
Proof.
  unfold line_str. induction s as [|c s IH]; intros lb Hlb; cbn [fold_left].
  - split; [done|]. rewrite app_nil_r, take_ge; [done|]. unfold line_text. rewrite length_take.
    destruct Hlb. lia.
  - destruct (line_putc_spec lb c Hlb) as [Hw Ht]. destruct (IH _ Hw) as [Hw' Ht'].
    split; [done|]. rewrite Ht', Ht.
    rewrite (cons_middle c (line_text lb) s), (app_assoc (line_text lb)).
    destruct (decide (length (line_text lb ++ [c]) <= 255)%nat).
    + by rewrite (take_ge (line_text lb ++ [c])) by done.
    + rewrite take_app_le by (rewrite length_take; lia). rewrite take_take, Nat.min_id.
      by rewrite (take_app_le (line_text lb ++ [c]) s) by lia.
Qed.

(** The text a [LineBuf] collects is the concatenation of its parts (strings,
    hexadecimal and decimal numerals) cut off at 255 bytes, whatever the order
    and the sizes of the parts; the buffer is never written past its end, and
    [flush] prints exactly this text and empties the buffer. *)
Theorem line_buf_text {K : Kernel} {SL : Slices} (lb : LineBuf) (w : World) (s : list Z) (v : Z)
    (Hlb : line_wf lb) :
  line_text (line_str lb s) = take 255 (line_text lb ++ s) /\
  line_text (line_hex lb v) = take 255 (line_text lb ++ hex_text v) /\
  line_text (line_dec lb v) = take 255 (line_text lb ++ dec_text v) /\
  line_wf (line_str lb s) /\ line_wf (line_hex lb v) /\ line_wf (line_dec lb v) /\
  line_text (fst (line_flush lb w)) = [] /\
  (line_text lb <> [] -> snd (line_flush lb w) = serial_puts w (line_text lb)).
Proof.
  assert (Hp : forall lb c, line_putc lb c = line_str lb [c]) by done.
  assert (Hh : line_hex lb v = line_str lb (hex_text v)).
  { unfold line_hex, hex_text, line_str. rewrite fold_left_app. by destruct (v =? 0). }
  assert (Hd : line_dec lb v = line_str lb (dec_text v)).
  { unfold line_dec, dec_text. by destruct (v =? 0). }
  rewrite Hh, Hd. destruct (line_str_spec s lb Hlb), (line_str_spec (hex_text v) lb Hlb),
    (line_str_spec (dec_text v) lb Hlb). do 6 (split; [assumption|]).
  unfold line_flush, line_text. destruct (Nat.ltb_spec 0 (pos lb)); [split; [apply take_0|done]|].
  assert (pos lb = 0%nat) as E by lia. cbn [fst snd]. by rewrite E, take_0.
Qed.

Lemma line_buf_text_witness :
  let lb := line_str LineBuf_new (lit "[WORKER] err=") in
  line_text (line_hex lb 0xA2F0) = lit "[WORKER] err=0xa2f0" /\
  line_text (line_dec lb 1024) = take 255 (line_text lb ++ lit "1024").
Proof.
  split; [vm_compute; reflexivity|].
  refine (proj1 (proj2 (proj2 (@line_buf_text {| k_result _ _ _ := mkResult 0 0; k_buffer _ _ b := b |}
    {| slice_addr _ := 0 |} (line_str LineBuf_new (lit "[WORKER] err=")) (mkWorld [] None) [] 1024 _)))).
  split; vm_compute; lia.
Defined.
