(* ===== verification/ByteMem.v ===== *)
(** The writable memory of a process as bytes by address, with the block
    operations of [core::ptr] and little-endian words.  Addresses are those the
    code computes; an access is meant inside mapped memory. *)

From S2P Require Import Prelude.

Definition Mem : Type := Z -> Z.

(** [ptr::write_bytes(a, v, n)] *)
Definition write_bytes (m : Mem) (a v n : Z) : Mem :=
  fun x => if (a <=? x) && (x <? a + n) then v else m x.

(** [ptr::copy_nonoverlapping(src, dst, n)] *)
Definition copy_bytes (m : Mem) (src dst n : Z) : Mem :=
  fun x => if (dst <=? x) && (x <? dst + n) then m (src + (x - dst)) else m x.

Definition write_list (m : Mem) (a : Z) (l : list Z) : Mem :=
  fun x => if (a <=? x) && (x <? a + Z.of_nat (length l)) then default 0 (l !! Z.to_nat (x - a))
           else m x.

Definition read_list (m : Mem) (a : Z) (n : nat) : list Z :=
  map (fun i => m (a + Z.of_nat i)) (seq 0 n).

Definition store64 (m : Mem) (a v : Z) : Mem := write_list m a (le_bytes 8 v).
Definition store32 (m : Mem) (a v : Z) : Mem := write_list m a (le_bytes 4 v).
Definition load64 (m : Mem) (a : Z) : Z := le_value (read_list m a 8).
Definition load32 (m : Mem) (a : Z) : Z := le_value (read_list m a 4).

(** Agreement of two memories outside an address range. *)
Definition same_outside (lo hi : Z) (m m' : Mem) : Prop :=
  forall x, x < lo \/ hi <= x -> m' x = m x.

Lemma write_bytes_in m a v n x : a <= x < a + n -> write_bytes m a v n x = v.
Proof. intros. unfold write_bytes. case_if; [done|]. apply andb_false_iff in Heqb as [?|?]; bprop; lia. Qed.

Lemma write_bytes_out m a v n x : x < a \/ a + n <= x -> write_bytes m a v n x = m x.
Proof. intros. unfold write_bytes. case_if; bprop; [lia|done]. Qed.

Lemma copy_bytes_in m s d n x : d <= x < d + n -> copy_bytes m s d n x = m (s + (x - d)).
Proof. intros. unfold copy_bytes. case_if; [done|]. apply andb_false_iff in Heqb as [?|?]; bprop; lia. Qed.

Lemma copy_bytes_out m s d n x : x < d \/ d + n <= x -> copy_bytes m s d n x = m x.
Proof. intros. unfold copy_bytes. case_if; bprop; [lia|done]. Qed.

Lemma write_list_out m a l x : x < a \/ a + Z.of_nat (length l) <= x -> write_list m a l x = m x.
Proof. intros. unfold write_list. case_if; bprop; [lia|done]. Qed.

Lemma write_list_in m a l i b : l !! i = Some b -> write_list m a l (a + Z.of_nat i) = b.
Proof.
  intros Hi. pose proof (lookup_lt_Some _ _ _ Hi). unfold write_list.
  destruct (Z.leb_spec a (a + Z.of_nat i)); [|lia].
  destruct (Z.ltb_spec (a + Z.of_nat i) (a + Z.of_nat (length l))); [|lia]. cbn.
  replace (Z.to_nat (a + Z.of_nat i - a)) with i by lia. by rewrite Hi.
Qed.

Lemma store64_out m a v x : x < a \/ a + 8 <= x -> store64 m a v x = m x.
Proof. intros. apply write_list_out. rewrite length_le_bytes. lia. Qed.

Lemma store32_out m a v x : x < a \/ a + 4 <= x -> store32 m a v x = m x.
Proof. intros. apply write_list_out. rewrite length_le_bytes. lia. Qed.

Lemma read_write_list m a l : read_list (write_list m a l) a (length l) = l.
Proof.
  unfold read_list. apply list_eq. intros i. rewrite list_lookup_fmap.
  destruct (decide (i < length l)%nat) as [Hi|Hi].
  - rewrite lookup_seq_lt by done. cbn. destruct (lookup_lt_is_Some_2 l i Hi) as [b Hb].
    rewrite Hb. f_equal. by apply write_list_in.
  - rewrite !lookup_ge_None_2; [done|lia|rewrite length_seq; lia].
Qed.

Lemma read_list_ext m m' a n :
  (forall x, a <= x < a + Z.of_nat n -> m' x = m x) -> read_list m' a n = read_list m a n.
Proof.
  intros Hx. unfold read_list. apply map_ext_in. intros i Hi. apply in_seq in Hi. apply Hx. lia.
Qed.

Lemma load_store64 m a v : u64 v -> load64 (store64 m a v) a = v.
Proof.
  intros Hv. unfold load64, store64.
  pose proof (read_write_list m a (le_bytes 8 v)) as E. rewrite length_le_bytes in E.
  rewrite E. apply le_value_bytes.
  unfold_widths. cbn. lia.
Qed.

Lemma load_store32 m a v : u32 v -> load32 (store32 m a v) a = v.
Proof.
  intros Hv. unfold load32, store32.
  pose proof (read_write_list m a (le_bytes 4 v)) as E. rewrite length_le_bytes in E.
  rewrite E. apply le_value_bytes.
  unfold_widths. cbn. lia.
Qed.

Lemma load64_ext m m' a : (forall x, a <= x < a + 8 -> m' x = m x) -> load64 m' a = load64 m a.
Proof. intros Hx. unfold load64. f_equal. by apply read_list_ext. Qed.

Lemma load32_ext m m' a : (forall x, a <= x < a + 4 -> m' x = m x) -> load32 m' a = load32 m a.
Proof. intros Hx. unfold load32. f_equal. by apply read_list_ext. Qed.

Lemma load64_store64_ne m a b v : b + 8 <= a \/ a + 8 <= b -> load64 (store64 m b v) a = load64 m a.
Proof. intros. apply load64_ext. intros. apply store64_out. lia. Qed.

Lemma load64_store32_ne m a b v : b + 4 <= a \/ a + 8 <= b -> load64 (store32 m b v) a = load64 m a.
Proof. intros. apply load64_ext. intros. apply store32_out. lia. Qed.

Lemma load32_store32_ne m a b v : b + 4 <= a \/ a + 4 <= b -> load32 (store32 m b v) a = load32 m a.
Proof. intros. apply load32_ext. intros. apply store32_out. lia. Qed.

Lemma load32_store64_ne m a b v : b + 8 <= a \/ a + 4 <= b -> load32 (store64 m b v) a = load32 m a.
Proof. intros. apply load32_ext. intros. apply store64_out. lia. Qed.

Create Rewrite HintDb mem.
#[export] Hint Rewrite load_store64 load_store32 load64_store64_ne load64_store32_ne
  load32_store32_ne load32_store64_ne using (unfold_widths; lia) : mem.
