(* ===== verification/Ledger.v ===== *)
(** What the system calls of a thread leave behind: the pages mapped and not
    unmapped, and the slots that received an object and were not deleted, as
    functions of the calls issued.  A call counts whatever the kernel answers,
    so the ledger is an upper bound of what the kernel may hold. *)

From stdpp Require Import gmap.
From S2P Require Import Prelude Consts Kernel SlotAlloc SlotPool Invoke SlotExpand.

Definition is_map (c : Syscall) : bool := (num c =? SYS_INVOKE) && (a1 c =? VSPACE_MAP).
Definition is_unmap (c : Syscall) : bool := (num c =? SYS_INVOKE) && (a1 c =? VSPACE_UNMAP).
Definition is_retype (c : Syscall) : bool := (num c =? SYS_INVOKE) && (a1 c =? UNTYPED_RETYPE).
Definition is_delete (c : Syscall) : bool := (num c =? SYS_INVOKE) && (a1 c =? CNODE_DELETE).

Definition pages_step (S : gset Z) (c : Syscall) : gset Z :=
  if is_map c then S ∪ {[a3 c]} else if is_unmap c then S ∖ {[a2 c]} else S.
Definition objects_step (S : gset Z) (c : Syscall) : gset Z :=
  if is_retype c then S ∪ {[a4 c]} else if is_delete c then S ∖ {[a2 c]} else S.

Definition mapped_pages (cs : list Syscall) : gset Z := fold_left pages_step cs ∅.
Definition live_objects (cs : list Syscall) : gset Z := fold_left objects_step cs ∅.

Lemma mapped_pages_snoc cs c : mapped_pages (cs ++ [c]) = pages_step (mapped_pages cs) c.
Proof. unfold mapped_pages. by rewrite fold_left_app. Qed.
Lemma live_objects_snoc cs c : live_objects (cs ++ [c]) = objects_step (live_objects cs) c.
Proof. unfold live_objects. by rewrite fold_left_app. Qed.

(** Since [w0], the calls left at most the pages of [P] mapped and objects in at
    most the slots of [O]. *)
Definition ledger (w0 w : World) (P O : Z -> Prop) : Prop :=
  exists cs, trace w = trace w0 ++ cs /\
    (forall va, va ∈ mapped_pages cs -> P va) /\ (forall c, c ∈ live_objects cs -> O c).

(** Calls that neither map a page nor create an object. *)
Definition quiet_call (c : Syscall) : Prop := is_map c = false /\ is_retype c = false.
Definition quiet (w w' : World) : Prop :=
  exists cs, trace w' = trace w ++ cs /\ Forall quiet_call cs.

#[export] Instance quiet_preorder : PreOrder quiet.
Proof.
  split.
  - intros w. exists []. by rewrite app_nil_r.
  - intros w1 w2 w3 (cs & E & Hc) (cs' & E' & Hc'). exists (cs ++ cs').
    rewrite E', E, app_assoc. split; [done|]. by apply Forall_app.
Qed.

Lemma ledger_refl w (P O : Z -> Prop) : ledger w w P O.
Proof. exists []. rewrite app_nil_r. split; [done|]. split; intros ? []%elem_of_empty. Qed.

Lemma ledger_mono w0 w (P O P' O' : Z -> Prop) :
  (forall x, P x -> P' x) -> (forall x, O x -> O' x) -> ledger w0 w P O -> ledger w0 w P' O'.
Proof. intros HP HO (cs & E & Hp & Ho). exists cs. naive_solver. Qed.

(** One more call, described by its effect on the two sets. *)
Lemma ledger_call w0 w w' c (P O P' O' : Z -> Prop) :
  ledger w0 w P O -> trace w' = trace w ++ [c] ->
  (forall S : gset Z, (forall x, x ∈ S -> P x) -> forall x, x ∈ pages_step S c -> P' x) ->
  (forall S : gset Z, (forall x, x ∈ S -> O x) -> forall x, x ∈ objects_step S c -> O' x) ->
  ledger w0 w' P' O'.
Proof.
  intros (cs & E & Hp & Ho) E' HP HO. exists (cs ++ [c]). rewrite E', E, app_assoc. split; [done|].
  rewrite mapped_pages_snoc, live_objects_snoc. split; eauto.
Qed.

Lemma ledger_quiet w0 w w' (P O : Z -> Prop) : ledger w0 w P O -> quiet w w' -> ledger w0 w' P O.
Proof.
  intros Hl (cs & E & Hc). revert w w' Hl E. induction cs as [|c cs IH] using rev_ind; intros w w' Hl E.
  { rewrite app_nil_r in E. destruct Hl as (ds & Ed & ?). exists ds. by rewrite E. }
  apply Forall_app in Hc as [Hc [[Hm Hr] _]%Forall_cons].
  apply (ledger_call w0 (mkWorld (trace w ++ cs) None) w' c P O).
  - by eapply (IH Hc w).
  - cbn. by rewrite E, app_assoc.
  - intros S HS x. unfold pages_step. rewrite Hm. case_if; [|by apply HS]. intros [? _]%elem_of_difference. auto.
  - intros S HS x. unfold objects_step. rewrite Hr. case_if; [|by apply HS]. intros [? _]%elem_of_difference. auto.
Qed.

Section calls.
Context `{Kernel}.

Lemma quiet_syscall w n x0 x1 x2 x3 x4 x5 :
  quiet_call (mkCall n x0 x1 x2 x3 x4 x5) -> quiet w (snd (syscall w n x0 x1 x2 x3 x4 x5)).
Proof. intros Hc. eexists [_]. split; [reflexivity|]. by constructor. Qed.

Lemma quiet_invoke w cap lbl x0 x1 x2 x3 :
  lbl <> VSPACE_MAP -> lbl <> UNTYPED_RETYPE -> quiet w (snd (invoke_err w cap lbl x0 x1 x2 x3)).
Proof.
  intros Hm Hr. exists [invoke_call cap lbl x0 x1 x2 x3]. split; [apply invoke_err_trace|].
  constructor; [|done]. split; unfold is_map, is_retype, invoke_call; cbn;
    by apply Z.eqb_neq.
Qed.

Lemma quiet_depth w d0 d1 : quiet w (write_invoke_depth w d0 d1).
Proof. by apply quiet_syscall. Qed.

Lemma quiet_delete st w cn slot : quiet w (snd (cnode_delete st w cn slot)).
Proof.
  unfold cnode_delete, cnode_delete_depth. case_if; [by apply quiet_invoke|].
  etransitivity; [apply quiet_depth|]. by apply quiet_invoke.
Qed.

Lemma quiet_poll st w ntfn : quiet w (snd (poll_requested_expand_locked st w ntfn)).
Proof.
  unfold poll_requested_expand_locked.
  assert (Hc : forall w' d, quiet w (snd (cnode_copy_depth w CAP_SELF_CSPACE CAP_SELF_TCB CAP_SELF_CSPACE w' CAP_RIGHTS_ALL 0 d))).
  { intros. unfold cnode_copy_depth. etransitivity; [apply quiet_depth|]. by apply quiet_invoke. }
  specialize (Hc (probe_addr_of st) (as_u8 (root_bits st + SLOT_EXPAND_BITS_DEFAULT))).
  destruct (cnode_copy_depth _ _ _ _ _ _ _ _) as [err w1]. cbn [snd] in Hc. case_if.
  - case_if; [|done]. etransitivity; [exact Hc|]. by apply quiet_syscall.
  - assert (Hd : quiet w1 (snd (cnode_delete_depth w1 CAP_SELF_CSPACE (probe_addr_of st)
      (as_u8 (root_bits st + SLOT_EXPAND_BITS_DEFAULT))))).
    { unfold cnode_delete_depth. etransitivity; [apply quiet_depth|]. by apply quiet_invoke. }
    destruct (cnode_delete_depth _ _ _ _) as [? w2]. cbn [snd] in Hd.
    case_if; cbn [snd]; by transitivity w1.
Qed.

Lemma quiet_root_bits st w : quiet w (snd (ensure_root_bits st w)).
Proof.
  unfold ensure_root_bits. case_if; [|done].
  assert (Hq : quiet w (snd (cnode_get_info w CAP_SELF_CSPACE))) by (by apply quiet_syscall).
  destruct (cnode_get_info _ _). cbn [snd] in Hq. case_if; [|done]. by destruct (buffer_of _).
Qed.

Lemma quiet_drive_turn st w : quiet w (snd (drive_turn st w)).
Proof.
  unfold drive_turn. case_if; [done|]. case_if; [|done].
  pose proof (quiet_root_bits st w) as Hq. destruct (ensure_root_bits st w) as [st1 w1]. cbn [snd] in Hq.
  destruct (expand_state st1); [| |done].
  - etransitivity; [exact Hq|]. by apply quiet_syscall.
  - pose proof (quiet_poll st1 w1 (cspace_ntfn st)) as Hp.
    destruct (poll_requested_expand_locked _ _ _) as [[? ?] ?]. by transitivity w1.
Qed.

Lemma quiet_drive fuel : forall st w, quiet w (snd (drive_cspace_expand_blocking fuel st w)).
Proof.
  induction fuel as [|fuel IH]; intros st w; [done|]. cbn [drive_cspace_expand_blocking].
  pose proof (quiet_drive_turn st w) as Hq.
  destruct (drive_turn st w) as [[[[| |]|b] st1] w1]; cbn [snd] in *; try done.
  etransitivity; [exact Hq|]. etransitivity; [|apply IH]. by apply quiet_syscall.
Qed.

Lemma quiet_alloc_rounds rounds fuel : forall cnt st w,
  quiet w (snd (slot_alloc_consecutive_rounds rounds fuel cnt st w)).
Proof.
  induction rounds as [|n IH]; intros cnt st w; [done|]. cbn [slot_alloc_consecutive_rounds].
  destruct (slot_alloc_consecutive_fast st cnt) as [[c|] st1]; [done|].
  pose proof (quiet_drive fuel st1 w) as Hq.
  destruct (drive_cspace_expand_blocking fuel st1 w) as [[[[]|] st2] w2]; try done.
  etransitivity; [exact Hq|]. apply IH.
Qed.

Lemma quiet_alloc_consecutive fuel cnt st w : quiet w (snd (slot_alloc_consecutive fuel cnt st w)).
Proof. unfold slot_alloc_consecutive. case_if; [done|]. apply quiet_alloc_rounds. Qed.

(** ** Mapping, unmapping, creating, deleting *)

Lemma ledger_map w0 w (P O : Z -> Prop) vs fr va fl :
  ledger w0 w P O -> P va -> ledger w0 (snd (vspace_map w vs fr va fl)) P O.
Proof.
  intros Hl Hva. eapply ledger_call; [exact Hl|reflexivity|..]; intros S HS x.
  - change (x ∈ S ∪ {[va]} -> P x). rewrite elem_of_union, elem_of_singleton. intros [?| ->]; auto.
  - by apply HS.
Qed.

Lemma ledger_retype w0 w (P O : Z -> Prop) ut ty sb slot :
  ledger w0 w P O -> O slot -> ledger w0 (snd (untyped_retype w ut ty sb slot)) P O.
Proof.
  intros Hl Hs. eapply ledger_call; [exact Hl|reflexivity|..]; intros S HS x.
  - by apply HS.
  - change (x ∈ S ∪ {[slot]} -> O x). rewrite elem_of_union, elem_of_singleton. intros [?| ->]; auto.
Qed.

Lemma ledger_unmap w0 w (P O : Z -> Prop) vs va :
  ledger w0 w P O -> ledger w0 (snd (vspace_unmap w vs va)) (fun x => P x /\ x <> va) O.
Proof.
  intros Hl. eapply ledger_call; [exact Hl|reflexivity|..]; intros S HS x.
  - change (x ∈ S ∖ {[va]} -> P x /\ x <> va). rewrite elem_of_difference, elem_of_singleton. naive_solver.
  - by apply HS.
Qed.

Lemma ledger_delete_call w0 w (P O : Z -> Prop) cn slot :
  ledger w0 w P O ->
  ledger w0 (snd (invoke_err w cn CNODE_DELETE slot 0 0 0)) P (fun x => O x /\ x <> slot).
Proof.
  intros Hl. eapply ledger_call; [exact Hl|apply invoke_err_trace|..]; intros S HS x.
  - by apply HS.
  - change (x ∈ S ∖ {[slot]} -> O x /\ x <> slot). rewrite elem_of_difference, elem_of_singleton. naive_solver.
Qed.

Lemma ledger_delete w0 st w (P O : Z -> Prop) cn slot :
  ledger w0 w P O -> ledger w0 (snd (cnode_delete st w cn slot)) P (fun x => O x /\ x <> slot).
Proof.
  intros Hl. unfold cnode_delete, cnode_delete_depth. case_if; [by apply ledger_delete_call|].
  apply ledger_delete_call. eapply ledger_quiet; [exact Hl|apply quiet_depth].
Qed.
End calls.
