(* ===== verification/SlotRange.v ===== *)
(** Consecutive ranges of slots as their clients use them: the blocking
    [slot_alloc_consecutive], expansions included, and [slot_free_range]. *)

From S2P Require Import Prelude Consts Kernel SlotAlloc SlotPool Invoke SlotExpand.

(** The allocator is running, in a reachable state, and does not hand out slot 0. *)
Record slots_ready (st : SlotAllocState) : Prop := {
  sr_inv : pool_inv st;
  sr_init : initialized st = true;
  sr_nonzero : forall x, managed st x -> 0 < x;
}.

Definition same_slots (st st' : SlotAllocState) : Prop :=
  slots_ready st' /\ forall x, allocated st' x <-> allocated st x.

Lemma allocated_managed st x : allocated st x -> managed st x.
Proof. intros (i & Hi & Hh & _). by exists i. Qed.

Lemma managed_u64 st x : pool_inv st -> managed st x -> 0 <= x < 2 ^ 64.
Proof.
  intros Hi (i & Hlt & Hh). pose proof (wf_base _ (st_segs _ (pi_wf _ Hi) i Hlt)).
  unfold seg_has in Hh. lia.
Qed.

Lemma same_slots_refl st : slots_ready st -> same_slots st st.
Proof. done. Qed.

Section ranges.
Context `{Kernel}.

Lemma drive_turn_same st w : slots_ready st -> same_slots st (snd (fst (drive_turn st w))).
Proof.
  intros [Hi Hini Hnz]. unfold drive_turn. rewrite Hini. cbn [negb].
  destruct (negb (cspace_ntfn st =? 0) && (cspace_expand_count st <? MAX_CSPACE_EXPANSIONS)) eqn:Eg;
    [|done]. bprop.
  destruct (ensure_root_bits_cases st w) as [b Eb].
  destruct (ensure_root_bits st w) as [st1 w1]. simpl in Eb. subst st1.
  assert (pool_inv (set_root_bits st b)) as Hi1 by auto with trona.
  destruct (expand_state (set_root_bits st b)) eqn:Ee; [| |done].
  - split; [|done]. split; [by apply set_requested_inv|done|done].
  - pose proof (poll_spec _ w1 (cspace_ntfn st) Hi1 Ee) as Hp.
    destruct (poll_requested_expand_locked _ _ _) as [[[] st2] w2]; cbn [fst snd].
    + destruct Hp as (_ & Hi2 & _ & Hini2 & Hm & Ha). split; [|exact Ha].
      split; [done|by rewrite Hini2|]. intros x [Hx|Hx]%Hm; [by apply Hnz|].
      rewrite probe_addr_value in Hx by apply Hi1. pose proof (pi_count _ Hi1). 
      unfold CSPACE_EXPAND_BASE in Hx. lia.
    + subst. done.
    + destruct Hp as [_ ->]. split; [|done]. by split; auto with trona.
Qed.

Lemma drive_same fuel : forall st w,
  slots_ready st -> same_slots st (snd (fst (drive_cspace_expand_blocking fuel st w))).
Proof.
  induction fuel as [|fuel IH]; intros st w Hr; [done|]. cbn [drive_cspace_expand_blocking].
  pose proof (drive_turn_same st w Hr) as [Hr1 Ha].
  destruct (drive_turn st w) as [[[[| |]|b] st1] w1]; cbn [fst snd] in *; try done.
  destruct (IH st1 (yield_ w1) Hr1) as [Hr2 Ha2]. split; [done|]. intros x. by rewrite Ha2, Ha.
Qed.

(** [st'] is [st] with exactly the free slots [b .. b+n) turned to allocated. *)
Record range_taken (st st' : SlotAllocState) (b : Cap) (n : Z) : Prop := {
  rt_ready : slots_ready st';
  rt_bounds : 0 < b /\ b + n <= 2 ^ 64;
  rt_free : forall x, b <= x < b + n -> ~ allocated st x;
  rt_alloc : forall x, allocated st' x <-> allocated st x \/ b <= x < b + n;
}.

Lemma alloc_fast_taken st n :
  slots_ready st -> 0 < n ->
  match slot_alloc_consecutive_fast st n with
  | (Some b, st') => range_taken st st' b n
  | (None, st') => st' = st
  end.
Proof.
  intros [Hi Hini Hnz] Hn.
  pose proof (slot_alloc_consecutive_fast_inv st n ltac:(lia) Hi) as Hi'.
  assert (Hini' : initialized (snd (slot_alloc_consecutive_fast st n)) = initialized st).
  { unfold slot_alloc_consecutive_fast. case_if; [done|]. apply scan_segments_init. }
  pose proof (slot_alloc_consecutive_fast_spec st (Z.to_nat n) (pi_wf _ Hi) Hini ltac:(lia)) as Hs.
  rewrite Z2Nat.id in Hs by lia.
  destruct (slot_alloc_consecutive_fast st n) as [[b|] st']; cbn [snd] in *; [|apply Hs].
  destruct Hs as (_ & Hfree & Hm & Ha).
  pose proof (Hnz b ltac:(apply Hfree; lia)).
  pose proof (managed_u64 st (b + n - 1) Hi ltac:(apply Hfree; lia)).
  split; [split; [done|by rewrite Hini'|by intros x ?%Hm%Hnz]|lia|by intros x Hx; apply Hfree|done].
Qed.

Lemma alloc_rounds_taken rounds fuel : forall n st w,
  slots_ready st -> 0 < n ->
  match slot_alloc_consecutive_rounds rounds fuel n st w with
  | (Some (Some b), st', _) => range_taken st st' b n
  | (_, st', _) => same_slots st st'
  end.
Proof.
  induction rounds as [|r IH]; intros n st w Hr Hn; [done|]. cbn [slot_alloc_consecutive_rounds].
  pose proof (alloc_fast_taken st n Hr Hn) as Hf.
  destruct (slot_alloc_consecutive_fast st n) as [[b|] st1]; [done|]. subst st1.
  pose proof (drive_same fuel st w Hr) as [Hr1 Ha].
  destruct (drive_cspace_expand_blocking fuel st w) as [[[[]|] st1] w1]; cbn [fst snd] in *; try done.
  specialize (IH n st1 w1 Hr1 Hn).
  destruct (slot_alloc_consecutive_rounds r fuel n st1 w1) as [[[[b|]|] st2] w2].
  - destruct IH as [? ? Hfree Ha2]. split; [done|done|by intros x Hx; rewrite <- Ha; apply Hfree|].
    intros x. by rewrite Ha2, Ha.
  - destruct IH as [? Ha2]. split; [done|]. intros x. by rewrite Ha2, Ha.
  - destruct IH as [? Ha2]. split; [done|]. intros x. by rewrite Ha2, Ha.
Qed.

Lemma alloc_consecutive_taken fuel n st w :
  slots_ready st -> 0 <= n ->
  match slot_alloc_consecutive fuel n st w with
  | (Some (Some b), st', _) => range_taken st st' b n
  | (_, st', _) => same_slots st st'
  end.
Proof.
  intros Hr Hn. unfold slot_alloc_consecutive. rewrite (sr_init _ Hr). cbn [negb orb].
  destruct (Z.eqb_spec n 0); [done|]. apply alloc_rounds_taken; [done|lia].
Qed.

(** The same for a single slot. *)
Lemma single_fast_taken st :
  slots_ready st ->
  match slot_alloc_fast st with
  | (Some b, st') => range_taken st st' b 1
  | (None, st') => st' = st
  end.
Proof.
  intros [Hi Hini Hnz]. pose proof (slot_alloc_fast_inv st Hi) as Hi'.
  pose proof (slot_alloc_fast_correct st (pi_wf _ Hi) Hini) as Hs.
  assert (Hini' : initialized (snd (slot_alloc_fast st)) = initialized st).
  { unfold slot_alloc_fast. rewrite Hini. cbn [negb]. by rewrite (sh_init _ _ (alloc_single_locked_shape st)). }
  destruct (slot_alloc_fast st) as [[b|] st']; cbn [snd] in *; [|apply Hs].
  destruct Hs as [_ Hf Hm' Ha]. destruct (Hf b ltac:(lia)) as [Hm Hna]. pose proof (Hnz b Hm). pose proof (managed_u64 st b Hi Hm).
  split; [split; [done|by rewrite Hini'|by intros x ?%Hm'%Hnz]|lia| |].
  - intros x Hx. by assert (x = b) as -> by lia.
  - intros x. rewrite Ha. split; (intros [?|?]; [by left|right; lia]).
Qed.

Lemma single_taken fuel st w :
  slots_ready st ->
  match slot_alloc fuel st w with
  | (Some (Some b), st', _) => range_taken st st' b 1
  | (_, st', _) => same_slots st st'
  end.
Proof.
  intros Hr. unfold slot_alloc. rewrite (sr_init _ Hr). cbn [negb].
  generalize (MAX_SEGMENTS + 2)%nat as r. intros r. revert st w Hr.
  induction r as [|r IH]; intros st w Hr; [done|]. cbn [slot_alloc_rounds].
  pose proof (single_fast_taken st Hr) as Hf.
  destruct (slot_alloc_fast st) as [[b|] st1]; [done|]. subst st1.
  pose proof (drive_same fuel st w Hr) as [Hr1 Ha].
  destruct (drive_cspace_expand_blocking fuel st w) as [[[[]|] st1] w1]; cbn [fst snd] in *; try done.
  specialize (IH st1 w1 Hr1).
  destruct (slot_alloc_rounds r fuel st1 w1) as [[[[b|]|] st2] w2].
  - destruct IH as [? ? Hfree Ha2]. split; [done|done|by intros x Hx; rewrite <- Ha; apply Hfree|].
    intros x. by rewrite Ha2, Ha.
  - destruct IH as [? Ha2]. split; [done|]. intros x. by rewrite Ha2, Ha.
  - destruct IH as [? Ha2]. split; [done|]. intros x. by rewrite Ha2, Ha.
Qed.

(** The blocking driver finishes when the process manager installs the sub-CNode
    by the [k]-th probe, also where no expansion is possible any more. *)
Lemma drive_total_requested k : probe_ready k -> forall m fuel st w,
  slots_ready st -> expand_state st = Requested ->
  (k - probes (trace w) <= m)%nat -> (m < fuel)%nat ->
  fst (fst (drive_cspace_expand_blocking fuel st w)) <> None.
Proof.
  intros Hk. induction m as [m IH] using lt_wf_ind. intros [|fuel] st w Hr Hreq Hp Hf; [lia|].
  cbn [drive_cspace_expand_blocking]. pose proof (drive_turn_same st w Hr) as [Hr1 _].
  unfold drive_turn in *. rewrite (sr_init _ Hr) in *. cbn [negb] in *.
  case_if; [|done].
  destruct (ensure_root_bits_cases st w) as [b Eb]. pose proof (ensure_root_bits_probes st w) as Epr.
  destruct (ensure_root_bits st w) as [st1 w1]. simpl in Eb, Epr. subst st1.
  cbn [expand_state set_root_bits] in *. rewrite Hreq in *.
  pose proof (poll_spec (set_root_bits st b) w1 (cspace_ntfn st)
    ltac:(apply set_root_bits_inv, Hr) Hreq) as Hs.
  pose proof (poll_progress k (set_root_bits st b) w1 (cspace_ntfn st) Hk) as Hg.
  destruct (poll_requested_expand_locked _ _ _) as [[[] st2] w2]; cbn [fst snd] in *; try done.
  destruct Hg as [Hlt Hinc]. subst st2.
  apply (IH (m - 1)%nat); [lia|done|done|rewrite yield_probes; lia|lia].
Qed.

Lemma drive_total k fuel st w :
  probe_ready k -> slots_ready st -> (k + 1 < fuel)%nat ->
  fst (fst (drive_cspace_expand_blocking fuel st w)) <> None.
Proof.
  intros Hk Hr Hf. destruct (expand_state st) eqn:Ee.
  - destruct fuel as [|fuel]; [lia|]. cbn [drive_cspace_expand_blocking].
    pose proof (drive_turn_same st w Hr) as [Hr1 _].
    unfold drive_turn in *. rewrite (sr_init _ Hr) in *. cbn [negb] in *. case_if; [|done].
    destruct (ensure_root_bits_cases st w) as [b Eb].
    destruct (ensure_root_bits st w) as [st1 w1]. simpl in Eb. subst st1.
    cbn [expand_state set_root_bits] in *. rewrite Ee in *. cbn [fst snd] in *.
    apply (drive_total_requested k Hk k); [done|done|lia|lia].
  - apply (drive_total_requested k Hk k); [done|done|lia|lia].
  - destruct fuel as [|fuel]; [lia|]. cbn [drive_cspace_expand_blocking].
    unfold drive_turn. rewrite (sr_init _ Hr). cbn [negb]. case_if; [|done].
    destruct (ensure_root_bits_cases st w) as [b Eb].
    destruct (ensure_root_bits st w) as [st1 w1]. simpl in Eb. subst st1.
    cbn [expand_state set_root_bits]. by rewrite Ee.
Qed.

Lemma alloc_consecutive_total k fuel n st w :
  probe_ready k -> slots_ready st -> (k + 1 < fuel)%nat -> 0 <= n ->
  fst (fst (slot_alloc_consecutive fuel n st w)) <> None.
Proof.
  intros Hk Hr Hf Hn. unfold slot_alloc_consecutive. rewrite (sr_init _ Hr). cbn [negb orb].
  destruct (Z.eqb_spec n 0); [done|]. generalize (MAX_SEGMENTS + 2)%nat as r.
  intros r. revert st w Hr. induction r as [|r IH]; intros st w Hr; [done|].
  cbn [slot_alloc_consecutive_rounds]. pose proof (alloc_fast_taken st n Hr ltac:(lia)) as Ht.
  destruct (slot_alloc_consecutive_fast st n) as [[b|] st1]; [done|]. subst st1.
  pose proof (drive_total k fuel st w Hk Hr Hf) as Hd. pose proof (drive_same fuel st w Hr) as [Hr1 _].
  destruct (drive_cspace_expand_blocking fuel st w) as [[[[]|] st1] w1]; cbn [fst snd] in *; try done.
  by apply IH.
Qed.

Lemma single_total k fuel st w :
  probe_ready k -> slots_ready st -> (k + 1 < fuel)%nat -> fst (fst (slot_alloc fuel st w)) <> None.
Proof.
  intros Hk Hr Hf. unfold slot_alloc. rewrite (sr_init _ Hr). cbn [negb].
  generalize (MAX_SEGMENTS + 2)%nat as r. intros r. revert st w Hr.
  induction r as [|r IH]; intros st w Hr; [done|].
  cbn [slot_alloc_rounds]. pose proof (single_fast_taken st Hr) as Ht.
  destruct (slot_alloc_fast st) as [[b|] st1]; [done|]. subst st1.
  pose proof (drive_total k fuel st w Hk Hr Hf) as Hd. pose proof (drive_same fuel st w Hr) as [Hr1 _].
  destruct (drive_cspace_expand_blocking fuel st w) as [[[[]|] st1] w1]; cbn [fst snd] in *; try done.
  by apply IH.
Qed.

(** ** Releasing a range *)

Record slots_freed (st st' : SlotAllocState) (b n : Z) : Prop := {
  sf_ready : slots_ready st';
  sf_alloc : forall x, allocated st' x <-> allocated st x /\ ~ b <= x < b + n;
}.

Lemma slot_free_freed st x :
  slots_ready st -> slots_freed st (snd (slot_free st x)) x 1.
Proof.
  intros [Hi Hini Hnz]. pose proof (slot_free_inv st x Hi) as Hi'.
  pose proof (slot_free_correct st x (pi_wf _ Hi)) as Hc.
  assert (Hini' : initialized (snd (slot_free st x)) = initialized st).
  { unfold slot_free. rewrite Hini. cbn [negb]. by rewrite free_scan_init. }
  destruct (slot_free st x) as [[] st']; cbn [snd] in *.
  - destruct Hc as [_ [_ Hwas Hm Ha]]. split; [split; [done|by rewrite Hini'|by intros y ?%Hm%Hnz]|].
    intros y. rewrite Ha. split; intros [? ?]; (split; [done|]); lia.
  - destruct Hc as [-> Hc]. split; [done|]. intros y. split; [|tauto].
    intros Hy. split; [done|]. intros ?. assert (y = x) as -> by lia. by apply Hc in Hy.
Qed.

Lemma free_range_loop_freed n : forall st b off,
  slots_ready st -> 0 <= b + off -> b + off + Z.of_nat n <= 2 ^ 64 ->
  slots_freed st (free_range_loop n st b off) (b + off) (Z.of_nat n).
Proof.
  induction n as [|n IH]; intros st b off Hr H0 H1.
  { split; [done|]. intros x. split; [|tauto]. intros ?. split; [done|]. lia. }
  cbn [free_range_loop]. rewrite wrap_small by lia.
  destruct (slot_free_freed st (b + off) Hr) as [Hr1 Ha1].
  destruct (IH (snd (slot_free st (b + off))) b (off + 1) Hr1) as [Hr2 Ha2]; [lia..|].
  split; [done|]. intros x. rewrite Ha2, Ha1.
  split; [intros [[? ?] ?]; split; [done|lia]|]. intros [? ?]. repeat split; [done|lia|lia].
Qed.

Lemma free_range_freed st b n :
  slots_ready st -> 0 <= b -> 0 <= n -> b + n <= 2 ^ 64 ->
  slots_freed st (slot_free_range st b n) b n.
Proof.
  intros Hr Hb Hn Hbn. unfold slot_free_range. destruct (Z.eqb_spec n 0) as [->|].
  - split; [done|]. intros x. split; [|tauto]. intros ?. split; [done|]. lia.
  - pose proof (free_range_loop_freed (Z.to_nat n) st b 0 Hr ltac:(lia) ltac:(lia)) as Hf.
    rewrite Z2Nat.id, Z.add_0_r in Hf by lia. done.
Qed.

(** Taking one slot and giving it back. *)
Lemma taken_freed st st' st'' b :
  range_taken st st' b 1 -> slots_freed st' st'' b 1 -> same_slots st st''.
Proof.
  intros [_ _ Hf Ha] [Hr Ha']. split; [done|]. intros x. rewrite Ha', Ha.
  split; [|intros Hx; split; [by left|intros Hb; by apply (Hf x Hb)]]. tauto.
Qed.
End ranges.
