(* ===== verification/SpinLock.v ===== *)
(** Spin locks: [SpinLock] of [src/substrate/worker.rs] and the lock of the slot
    allocator ([slot_lock_acquire], [slot_lock_release] of
    [src/substrate/slot_alloc.rs], the same algorithm), with the functions that
    run under the latter.

    The first part is generic: threads call operations, take the lock, change
    the guarded data in any number of small steps, and release it.  The second
    part runs the locked sections of the slot allocator this way, and shows that
    no interleaving hands a slot to two owners. *)

From S2P Require Import Prelude Consts Kernel SlotAlloc SlotPool Invoke SlotExpand SlotRange.

(** ** The lock *)

Definition SpinLock_new : Z := 0.

(** Where a thread is in [acquire]: at the weak compare-exchange, or at the load
    of the inner loop. *)
Inductive acq_pc := Aq_cas | Aq_load.

(** One access of [acquire]: where it is next ([None]: it has the lock) and the
    word; a weak exchange may fail although the word is 0. *)
Definition acquire (p : acq_pc) (weak_fail : bool) (word : Z) : option acq_pc * Z :=
  match p with
  | Aq_cas => if (word =? 0) && negb weak_fail then (None, 1) else (Some Aq_load, word)
  | Aq_load => (Some (if word =? 0 then Aq_cas else Aq_load), word)
  end.

Definition release : Z := 0.

Definition slot_lock_acquire : acq_pc -> bool -> Z -> option acq_pc * Z := acquire.
Definition slot_lock_release : Z := release.

(** ** Threads that share data under the lock *)

Section lock.
(** Operations [O] run from [enter o] by [micro], one access of the guarded data
    at a time, until they yield a result. *)
Context {D O L R : Type} (enter : O -> L) (micro : L -> D -> (L + R) * D).

Inductive sthread :=
| SIdle (last : option (O * R))
| SAcquire (p : acq_pc) (o : O)
| SInside (o : O) (l : L)
| SRelease (o : O) (r : R).

(** [log] records the operations in the order they finish their sections. *)
Record scfg := mkS { word : Z; data : D; threads : list sthread; log : list (nat * O * R) }.

Inductive sevent :=
| Call (i : nat) (o : O)
| Step (i : nat)
| WeakFail (i : nat).

Definition set_thread (c : scfg) (w : Z) (i : nat) (t : sthread) : scfg :=
  mkS w (data c) (<[i := t]> (threads c)) (log c).

Definition acquire_step (c : scfg) (i : nat) (p : acq_pc) (o : O) (weak_fail : bool) : scfg :=
  let '(next, w) := acquire p weak_fail (word c) in
  set_thread c w i (match next with Some p' => SAcquire p' o | None => SInside o (enter o) end).

Definition sstep (e : sevent) (c : scfg) : option scfg :=
  match e with
  | Call i o =>
      match threads c !! i with
      | Some (SIdle _) => Some (set_thread c (word c) i (SAcquire Aq_cas o))
      | _ => None
      end
  | Step i =>
      match threads c !! i with
      | Some (SAcquire p o) => Some (acquire_step c i p o false)
      | Some (SInside o l) =>
          match micro l (data c) with
          | (inl l', d) => Some (mkS (word c) d (<[i := SInside o l']> (threads c)) (log c))
          | (inr r, d) => Some (mkS (word c) d (<[i := SRelease o r]> (threads c)) (log c ++ [(i, o, r)]))
          end
      | Some (SRelease o r) => Some (set_thread c release i (SIdle (Some (o, r))))
      | _ => None
      end
  | WeakFail i =>
      match threads c !! i with
      | Some (SAcquire p o) => Some (acquire_step c i p o true)
      | _ => None
      end
  end.

Fixpoint srun (es : list sevent) (c : scfg) : option scfg :=
  match es with
  | [] => Some c
  | e :: rest => c' ← sstep e c; srun rest c'
  end.

Definition spin_new (n : nat) (d : D) : scfg := mkS SpinLock_new d (replicate n (SIdle None)) [].
Definition sreachable (n : nat) (d : D) (c : scfg) : Prop := exists es, srun es (spin_new n d) = Some c.

(** ** One operation after the other *)

(** An operation that has run for some steps without another thread in between. *)
Inductive part (l : L) (d : D) : L -> D -> Prop :=
| part_nil : part l d l d
| part_more l1 d1 l2 d2 : part l d l1 d1 -> micro l1 d1 = (inl l2, d2) -> part l d l2 d2.

Definition section (o : O) (d : D) (r : R) (d' : D) : Prop :=
  exists l1 d1, part (enter o) d l1 d1 /\ micro l1 d1 = (inr r, d').

Inductive serial (d0 : D) : list (nat * O * R) -> D -> Prop :=
| serial_nil : serial d0 [] d0
| serial_next h d i o r d' : serial d0 h d -> section o d r d' -> serial d0 (h ++ [(i, o, r)]) d'.

Definition holds (t : sthread) : bool := match t with SInside _ _ | SRelease _ _ => true | _ => false end.

Record spin_inv (d0 : D) (c : scfg) : Prop := {
  si_excl i j t u : threads c !! i = Some t -> threads c !! j = Some u -> holds t = true -> holds u = true -> i = j;
  si_free i t : word c = 0 -> threads c !! i = Some t -> holds t = false;
  si_word : word c = 0 \/ word c = 1;
  si_held : word c = 1 -> exists i t, threads c !! i = Some t /\ holds t = true;
  si_data : exists d, serial d0 (log c) d /\
    (forall i o l, threads c !! i = Some (SInside o l) -> part (enter o) d l (data c)) /\
    ((forall i o l, threads c !! i <> Some (SInside o l)) -> data c = d);
  si_results i o r : threads c !! i = Some (SRelease o r) \/ threads c !! i = Some (SIdle (Some (o, r))) ->
    (i, o, r) ∈ log c;
}.

Lemma spin_inv_new n d : spin_inv d (spin_new n d).
Proof.
  split; cbn [threads word data log].
  - intros i j t u [-> _]%lookup_replicate. done.
  - intros i t _ [-> _]%lookup_replicate. done.
  - by left.
  - done.
  - exists d. split; [constructor|]. split; [|done]. intros i o l [? _]%lookup_replicate. done.
  - intros i o r [[? _]%lookup_replicate|[? _]%lookup_replicate]; done.
Qed.

(** A thread that does not hold the lock moves, and does not take it. *)
Lemma spin_inv_outside d0 c i t t' :
  spin_inv d0 c -> threads c !! i = Some t -> holds t = false -> holds t' = false ->
  (forall o r, t' = SIdle (Some (o, r)) -> (i, o, r) ∈ log c) -> spin_inv d0 (set_thread c (word c) i t').
Proof.
  intros [HE HF HW HH HD HR] Hi Ht Ht' Hres. split; cbn [set_thread threads word data log].
  - intros j k u v Hj Hk Hu Hv. apply list_lookup_insert_Some in Hj as [(-> & <- & _)|[_ Hj]]; [congruence|].
    apply list_lookup_insert_Some in Hk as [(-> & <- & _)|[_ Hk]]; [congruence|by eapply HE].
  - intros j u Hw Hj. apply list_lookup_insert_Some in Hj as [(-> & <- & _)|[_ Hj]]; [done|by eapply HF].
  - done.
  - intros Hw. destruct (HH Hw) as (j & u & Hj & Hu). exists j, u. split; [|done].
    rewrite list_lookup_insert_ne; [done|]. intros ->. congruence.
  - destruct HD as (d & Hs & Hin & Hno). exists d. split; [done|]. split.
    + intros j o l Hj. apply list_lookup_insert_Some in Hj as [(-> & -> & _)|[_ Hj]]; [done|by eapply Hin].
    + intros Hj. apply Hno. intros j o l Hj'. apply (Hj j o l).
      rewrite list_lookup_insert_ne; [done|]. intros ->. rewrite Hi in Hj'. injection Hj' as ->. done.
  - intros j o r [Hj|Hj]; apply list_lookup_insert_Some in Hj as [(-> & -> & _)|[_ Hj]];
      [done|by apply HR; left|by eapply Hres|by apply HR; right].
Qed.

(** The lock is free: nobody is inside, and the data is what the log makes of it. *)
Lemma spin_inv_enter d0 c i p o :
  spin_inv d0 c -> threads c !! i = Some (SAcquire p o) -> word c = 0 ->
  spin_inv d0 (set_thread c 1 i (SInside o (enter o))).
Proof.
  intros [HE HF HW HH HD HR] Hi Hw.
  assert (Hnone : forall j o' l', threads c !! j <> Some (SInside o' l')) by (intros j o' l' Hj; by apply HF in Hj).
  destruct HD as (d & Hs & Hin & Hno). specialize (Hno Hnone).
  split; cbn [set_thread threads word data log]; [| |by right| | |].
  - intros j k u v Hj Hk Hu Hv. apply list_lookup_insert_Some in Hj as [(-> & <- & _)|[_ Hj]];
      apply list_lookup_insert_Some in Hk as [(-> & <- & _)|[_ Hk]]; try done; exfalso.
    + apply HF in Hk; [congruence|done].
    + apply HF in Hj; [congruence|done].
    + apply HF in Hk; [congruence|done].
  - done.
  - intros _. exists i, (SInside o (enter o)). split; [|done]. apply list_lookup_insert_eq. by eapply lookup_lt_Some.
  - exists d. split; [done|]. split.
    + intros j o' l' Hj. apply list_lookup_insert_Some in Hj as [(-> & [= <- <-] & _)|[_ Hj]]; [|by apply Hnone in Hj].
      rewrite Hno. constructor.
    + intros Hj. by specialize (Hj i o (enter o) ltac:(apply list_lookup_insert_eq; by eapply lookup_lt_Some)).
  - intros j o' r [Hj|Hj]; apply list_lookup_insert_Some in Hj as [(-> & ? & _)|[_ Hj]]; try done;
      apply HR; [by left|by right].
Qed.

(** A step of the section of the holder. *)
Lemma spin_inv_micro d0 c i o l :
  spin_inv d0 c -> threads c !! i = Some (SInside o l) ->
  match micro l (data c) with
  | (inl l', d) => spin_inv d0 (mkS (word c) d (<[i := SInside o l']> (threads c)) (log c))
  | (inr r, d) => spin_inv d0 (mkS (word c) d (<[i := SRelease o r]> (threads c)) (log c ++ [(i, o, r)]))
  end.
Proof.
  intros [HE HF HW HH HD HR] Hi. destruct HD as (d & Hs & Hin & Hno). pose proof (Hin _ _ _ Hi) as Hp.
  assert (Hword : word c = 1). { destruct HW as [E|E]; [|done]. by apply (HF i _ E) in Hi. }
  assert (Honly : forall j t, threads c !! j = Some t -> holds t = true -> j = i) by (intros; by eapply HE).
  assert (Hlt : (i < length (threads c))%nat) by (by eapply lookup_lt_Some).
  destruct (micro l (data c)) as [[l'|r] d'] eqn:Em; split; cbn [threads word data log]; try done.
  - intros j k u v Hj Hk Hu Hv. apply list_lookup_insert_Some in Hj as [(-> & <- & _)|[_ Hj]];
      apply list_lookup_insert_Some in Hk as [(-> & <- & _)|[_ Hk]]; try done; [symmetry|..]; eauto.
  - intros j t E. congruence.
  - intros _. exists i, (SInside o l'). split; [by apply list_lookup_insert_eq|done].
  - exists d. split; [done|]. split.
    + intros j o' k Hj. apply list_lookup_insert_Some in Hj as [(-> & [= <- <-] & _)|[Hne Hj]].
      * by eapply part_more.
      * by apply Honly in Hj.
    + intros Hj. by specialize (Hj i o l' ltac:(by apply list_lookup_insert_eq)).
  - intros j o' r [Hj|Hj]; apply list_lookup_insert_Some in Hj as [(-> & ? & _)|[_ Hj]]; try done;
      apply HR; [by left|by right].
  - intros j k u v Hj Hk Hu Hv. apply list_lookup_insert_Some in Hj as [(-> & <- & _)|[_ Hj]];
      apply list_lookup_insert_Some in Hk as [(-> & <- & _)|[_ Hk]]; try done; [symmetry|..]; eauto.
  - intros j t E. congruence.
  - intros _. exists i, (SRelease o r). split; [by apply list_lookup_insert_eq|done].
  - exists d'. split; [eapply serial_next; [done|by exists l, (data c)]|]. split; [|done].
    intros j o' k Hj. apply list_lookup_insert_Some in Hj as [(-> & ? & _)|[Hne Hj]]; [done|].
    by apply Honly in Hj.
  - intros j o' r' Hj. apply elem_of_app. destruct Hj as [Hj|Hj];
      apply list_lookup_insert_Some in Hj as [(-> & E & _)|[_ Hj]]; try (left; apply HR; by auto); try done.
    injection E as <- <-. right. by apply list_elem_of_singleton.
Qed.

Lemma spin_inv_release d0 c i o r :
  spin_inv d0 c -> threads c !! i = Some (SRelease o r) -> spin_inv d0 (set_thread c release i (SIdle (Some (o, r)))).
Proof.
  intros [HE HF HW HH HD HR] Hi. split; cbn [set_thread threads word data log release]; try done; [| |by left| |].
  - intros j k u v Hj Hk Hu Hv. apply list_lookup_insert_Some in Hj as [(-> & <- & _)|[_ Hj]]; [done|].
    apply list_lookup_insert_Some in Hk as [(-> & <- & _)|[_ Hk]]; [done|by eapply HE].
  - intros j t _ Hj. apply list_lookup_insert_Some in Hj as [(-> & <- & _)|[Hne Hj]]; [done|].
    destruct (holds t) eqn:E; [|done]. exfalso. apply Hne. by eapply HE.
  - destruct HD as (d & Hs & Hin & Hno). exists d. split; [done|]. split.
    + intros j o' l Hj. apply list_lookup_insert_Some in Hj as [(-> & ? & _)|[_ Hj]]; [done|by eapply Hin].
    + intros _. apply Hno. intros j o' l Hj. assert (i = j) as <- by (by eapply HE). congruence.
  - intros j o' r' [Hj|Hj]; apply list_lookup_insert_Some in Hj as [(-> & E & _)|[_ Hj]]; try done;
      [by apply HR; left| |by apply HR; right]. injection E as <- <-. apply HR. by left.
Qed.

Lemma spin_inv_step d0 e c c' : spin_inv d0 c -> sstep e c = Some c' -> spin_inv d0 c'.
Proof.
  intros HI Hs. destruct e as [i o|i|i]; cbn [sstep] in Hs; destruct (threads c !! i) as [t|] eqn:Hi; try done.
  - destruct t; try done. injection Hs as <-. by eapply spin_inv_outside.
  - destruct t as [?|p o|o l|o r]; try done.
    + injection Hs as <-. unfold acquire_step, acquire. destruct p; [destruct (Z.eqb_spec (word c) 0) as [Hw|Hw]; cbn [negb andb]|].
      * by eapply spin_inv_enter.
      * by eapply spin_inv_outside.
      * by eapply spin_inv_outside.
    + pose proof (spin_inv_micro d0 c i o l HI Hi) as Hm. by destruct (micro l (data c)) as [[l'|r] d]; injection Hs as <-.
    + injection Hs as <-. by apply spin_inv_release.
  - destruct t as [?|p o|o l|o r]; try done. injection Hs as <-. unfold acquire_step, acquire.
    rewrite andb_false_r. destruct p; by eapply spin_inv_outside.
Qed.

Lemma spin_inv_reachable n d c : sreachable n d c -> spin_inv d c.
Proof.
  intros [es Hes]. revert Hes. generalize (spin_inv_new n d). generalize (spin_new n d). 
  induction es as [|e es IH]; intros c0 H0 Hes; cbn [srun] in Hes; [by injection Hes as <-|].
  destruct (sstep e c0) as [c1|] eqn:E; [|done]. apply (IH c1); [by eapply spin_inv_step|done].
Qed.

(** A free lock goes to whoever tries: after at most two own steps. *)
Lemma spin_progress c i p o :
  threads c !! i = Some (SAcquire p o) -> word c = 0 ->
  exists es c', (length es <= 2)%nat /\ srun es c = Some c' /\ threads c' !! i = Some (SInside o (enter o)).
Proof.
  intros Hi Hw. assert (Hlt : (i < length (threads c))%nat) by (by eapply lookup_lt_Some). destruct p.
  - exists [Step i]. eexists. cbn [srun sstep]. rewrite Hi. unfold acquire_step, acquire. rewrite Hw. cbn.
    split_and!; [lia|done|by apply list_lookup_insert_eq].
  - exists [Step i; Step i]. eexists. cbn [srun sstep]. rewrite Hi. unfold acquire_step, acquire. rewrite Hw. cbn.
    rewrite list_lookup_insert_eq by done. cbn.
    split_and!; [lia|done|]. cbn [threads set_thread]. apply list_lookup_insert_eq. by rewrite length_insert.
Qed.
End lock.

(** ** The slot allocator under its lock

    What runs between [slot_lock_acquire] and [slot_lock_release]: the sections of
    [slot_alloc] and [slot_alloc_no_expand] (single fast path), of
    [slot_alloc_consecutive], of [slot_alloc_async], of
    [drive_cspace_expand_blocking] (one turn), and the two releases.  A section
    that makes system calls finds the world [w] at that moment. *)

Definition slot_alloc_is_initialized (st : SlotAllocState) : bool := initialized st.
Definition observed_cspace_depth (st : SlotAllocState) : Z := expanded_depth st.

Inductive slot_op :=
| OpAlloc
| OpConsecutive (cnt : N)
| OpAsync (w : World)
| OpDrive (w : World)
| OpFree (slot : Cap)
| OpFreeRange (b : Cap) (cnt : N).

Inductive slot_res :=
| RSlot (r : option Cap)
| RAsync (r : SlotResult)
| RDrive (r : ExpandProgress + bool)
| RFree (r : bool)
| RUnit.

Section slots.
Context {K : Kernel}.

(** [slot_alloc_async], between taking and releasing the lock. *)
Definition slot_alloc_async (st : SlotAllocState) (w : World) : SlotResult * SlotAllocState * World :=
  slot_alloc_async_inner st w.

Definition locked (o : slot_op) (st : SlotAllocState) : slot_res * SlotAllocState :=
  match o with
  | OpAlloc => let '(r, st') := slot_alloc_fast st in (RSlot r, st')
  | OpConsecutive cnt => let '(r, st') := slot_alloc_consecutive_fast st (Z.of_N cnt) in (RSlot r, st')
  | OpAsync w => let '(r, st', _) := slot_alloc_async st w in (RAsync r, st')
  | OpDrive w => let '(r, st', _) := drive_turn st w in (RDrive r, st')
  | OpFree slot => let '(r, st') := slot_free st slot in (RFree r, st')
  | OpFreeRange b cnt => (RUnit, slot_free_range st b (Z.of_N cnt))
  end.

(** An operation that returned hands [x] to its caller; its caller gives [x] back. *)
Definition grants (e : nat * slot_op * slot_res) (x : Cap) : Prop :=
  match e with
  | (_, OpConsecutive cnt, RSlot (Some b)) => b <= x < b + Z.of_N cnt
  | (_, _, RSlot (Some s)) | (_, _, RAsync (Ok s)) => x = s
  | _ => False
  end.

Definition releases (e : nat * slot_op * slot_res) (x : Cap) : Prop :=
  match e with
  | (_, OpFree s, _) => x = s
  | (_, OpFreeRange b cnt, _) => exists k, 0 <= k < Z.of_N cnt /\ x = (b + k)%u64
  | _ => False
  end.

(** [x] has been handed out and not given back since. *)
Inductive owned : list (nat * slot_op * slot_res) -> Cap -> Prop :=
| owned_grant h e x : grants e x -> owned (h ++ [e]) x
| owned_keep h e x : owned h x -> ~ releases e x -> owned (h ++ [e]) x.

Lemma free_range_loop_wrapping n : forall st b off,
  slots_ready st ->
  let st' := free_range_loop n st b off in
  slots_ready st' /\
  forall x, allocated st' x <->
    allocated st x /\ ~ exists k, off <= k < off + Z.of_nat n /\ x = (b + k)%u64.
Proof.
  induction n as [|n IH]; intros st b off Hr; cbn zeta; cbn [free_range_loop].
  { split; [done|]. intros x. split; [|tauto]. intros ?. split; [done|]. intros (k & ? & _). lia. }
  destruct (slot_free_freed st (b + off)%u64 Hr) as [Hr1 Ha1].
  destruct (IH (snd (slot_free st (b + off)%u64)) b (off + 1) Hr1) as [Hr2 Ha2].
  split; [done|]. intros x. rewrite Ha2, Ha1. split.
  - intros [[Hx Hn] Hk]. split; [done|]. intros (k & Hk1 & ->).
    destruct (decide (k = off)) as [->|]; [apply Hn; lia|]. apply Hk. exists k. split; [lia|done].
  - intros [Hx Hk]. repeat split; [done| |].
    + intros ?. apply Hk. exists off. split; [lia|]. lia.
    + intros (k & ? & ->). apply Hk. exists k. split; [lia|done].
Qed.

Lemma alloc_locked_ready st : slots_ready st -> slots_ready (snd (alloc_single_locked st)).
Proof.
  intros [Hi Hini Hnz]. pose proof (alloc_locked_correct st Hi) as Hc.
  pose proof (alloc_single_locked_shape st) as [Ec _ _ Ei _ Es].
  split; [by destruct (alloc_single_locked st) as [[s|] st']; destruct Hc as [? ?]; subst|by rewrite Ei|].
  intros x (i & Hlt & Hh). apply Hnz. exists i. rewrite Ec in Hlt. split; [done|].
  unfold seg_has in *. by destruct (Es i) as [<- <-].
Qed.

Lemma poll_ready st w ntfn :
  slots_ready st -> expand_state st = Requested ->
  slots_ready (snd (fst (poll_requested_expand_locked st w ntfn))).
Proof.
  intros [Hi Hini Hnz] Ee. pose proof (poll_spec st w ntfn Hi Ee) as Hp. pose proof (pi_count _ Hi).
  destruct (poll_requested_expand_locked _ _ _) as [[[] st2] w2]; cbn [fst snd].
  - destruct Hp as (_ & Hi2 & _ & Hini2 & Hm & _). split; [done|by rewrite Hini2|].
    intros x [Hx|Hx]%Hm; [by apply Hnz|]. rewrite probe_addr_value in Hx by apply Hi.
    unfold CSPACE_EXPAND_BASE in Hx. lia.
  - by subst.
  - destruct Hp as [_ ->]. split; [auto with trona|done|done].
Qed.

Lemma async_ready st w : slots_ready st -> slots_ready (snd (fst (slot_alloc_async_inner st w))).
Proof.
  intros Hr. pose proof (alloc_locked_ready st Hr) as Ha. unfold slot_alloc_async_inner.
  rewrite (sr_init _ Hr). cbn [negb]. destruct (alloc_single_locked st) as [[s|] st1]; [done|]. cbn [snd] in Ha.
  destruct (expand_state st1) eqn:Ee; [| |done].
  - case_if; [done|]. bprop. destruct (ensure_root_bits_cases st1 w) as [b Eb].
    destruct (ensure_root_bits st1 w) as [st2 w2]. cbn [fst] in Eb. subst st2. destruct Ha as [Hi Hini Hnz].
    split; [|done|done]. apply set_requested_inv; [auto with trona|]. cbn. lia.
  - pose proof (poll_ready st1 w (cspace_ntfn st1) Ha Ee) as Hp.
    destruct (poll_requested_expand_locked _ _ _) as [[[] st2] w2]; cbn [fst snd] in *; [|done..].
    pose proof (alloc_locked_ready st2 Hp) as Ha2. by destruct (alloc_single_locked st2) as [[s|] st3].
Qed.

(** A section in the terms of the log. *)
Lemma locked_correct i o st :
  slots_ready st ->
  let '(r, st') := locked o st in
  slots_ready st' /\
  (forall x, grants (i, o, r) x -> ~ allocated st x) /\
  (forall x, allocated st' x <-> grants (i, o, r) x \/ allocated st x /\ ~ releases (i, o, r) x).
Proof.
  intros Hr. destruct o as [|cnt|w|w|s|b cnt]; cbn [locked].
  - pose proof (single_fast_taken st Hr) as Hs. destruct (slot_alloc_fast st) as [[b|] st'].
    + destruct Hs as [Hr' _ Hf Ha]. split; [done|]. cbn [grants releases]. split; [intros x ->; apply Hf; lia|].
      intros x. rewrite Ha. assert (b <= x < b + 1 <-> x = b) as -> by lia. tauto.
    + subst st'. cbn. split; [done|]. split; [done|]. tauto.
  - destruct (decide (cnt = 0%N)) as [->|].
    { unfold slot_alloc_consecutive_fast. rewrite orb_true_r. cbn. split; [done|]. split; [done|]. tauto. }
    pose proof (alloc_fast_taken st (Z.of_N cnt) Hr ltac:(lia)) as Hs.
    destruct (slot_alloc_consecutive_fast st (Z.of_N cnt)) as [[b|] st'].
    + destruct Hs as [Hr' _ Hf Ha]. split; [done|]. cbn [grants releases]. split; [done|].
      intros x. rewrite Ha. tauto.
    + subst st'. cbn. split; [done|]. split; [done|]. tauto.
  - unfold slot_alloc_async. pose proof (async_correct st w (sr_inv _ Hr) (sr_init _ Hr)) as Hs.
    pose proof (async_ready st w Hr) as Hr'.
    destruct (slot_alloc_async_inner st w) as [[[s| |] st'] w']; cbn [grants releases fst snd] in *.
    + destruct Hs as (_ & Hn & Ha). split; [done|]. split; [by intros x ->|]. intros x. rewrite Ha. tauto.
    + destruct Hs as (_ & _ & _ & Ha). split; [done|]. split; [done|]. intros x. rewrite Ha. tauto.
    + destruct Hs as (_ & _ & Ha & _). split; [done|]. split; [done|]. intros x. rewrite Ha. tauto.
  - pose proof (drive_turn_same st w Hr) as [Hr' Ha]. destruct (drive_turn st w) as [[r st'] w'].
    cbn [grants releases fst snd] in *. split; [done|]. split; [done|]. intros x. rewrite Ha. tauto.
  - pose proof (slot_free_freed st s Hr) as [Hr' Ha]. destruct (slot_free st s) as [r st'].
    cbn [grants releases snd] in *. split; [done|]. split; [done|]. intros x. rewrite Ha.
    assert (s <= x < s + 1 <-> x = s) as -> by lia. tauto.
  - cbn [grants releases]. unfold slot_free_range. destruct (Z.eqb_spec (Z.of_N cnt) 0) as [->|].
    + split; [done|]. split; [done|]. intros x. split; [|tauto]. intros ?. right. split; [done|].
      intros (k & ? & _). lia.
    + pose proof (free_range_loop_wrapping (Z.to_nat (Z.of_N cnt)) st b 0 Hr) as [Hr' Ha].
      rewrite Z2Nat.id, Z.add_0_l in Ha by lia. split; [done|]. split; [done|]. intros x. rewrite Ha. tauto.
Qed.

Lemma owned_until h1 e h2 x :
  grants e x -> (forall e', e' ∈ h2 -> ~ releases e' x) -> owned (h1 ++ e :: h2) x.
Proof.
  intros Hg. induction h2 as [|e' h2 IH] using rev_ind; intros Hn; [by apply owned_grant|].
  rewrite app_comm_cons, (assoc_L (++)). apply owned_keep; [|apply Hn; set_solver].
  apply IH. intros e'' He. apply Hn. set_solver.
Qed.
(** The sections of an implementation are those of [locked]. *)
Context {L : Type} (enter : slot_op -> L)
        (micro : L -> SlotAllocState -> (L + slot_res) * SlotAllocState).
Hypothesis Himpl : forall o d r d', section enter micro o d r d' -> locked o d = (r, d').

Lemma serial_owned st0 h st :
  serial enter micro st0 h st -> slots_ready st0 -> (forall x, ~ allocated st0 x) ->
  slots_ready st /\ forall x, allocated st x <-> owned h x.
Proof.
  intros Hs Hr0 Hno. induction Hs as [|h d i o r d' Hs [Hr Ha] Hsec].
  - split; [done|]. intros x. split; [by intros ?%Hno|]. intros Ho. by inversion Ho; destruct h.
  - apply Himpl in Hsec. pose proof (locked_correct i o d Hr) as Hl. rewrite Hsec in Hl.
    destruct Hl as (Hr' & _ & Ha'). split; [done|]. intros x. rewrite Ha', Ha. split.
    + intros [Hg|[Ho Hn]]; [by apply owned_grant|by apply owned_keep].
    + intros Ho. inversion Ho as [h' e y Hg E|h' e y Ho' Hn E]; subst; apply app_inj_tail in E as [-> ->]; tauto.
Qed.

Lemma serial_snoc st0 h1 i o r h2 st :
  serial enter micro st0 (h1 ++ (i, o, r) :: h2) st ->
  exists d d', serial enter micro st0 h1 d /\ locked o d = (r, d').
Proof.
  revert st. induction h2 as [|[[i' o'] r'] h2 IH] using rev_ind; intros st Hs.
  - inversion Hs as [E|h d i' o' r' d' Hs' Hsec E]; [by destruct h1|]. apply app_inj_tail in E as [-> [= -> -> ->]].
    exists d, st. by split; [|apply Himpl].
  - rewrite app_comm_cons, (assoc_L (++)) in Hs.
    inversion Hs as [E|h d i'' o'' r'' d' Hs' Hsec E]; [by destruct h1|]. apply app_inj_tail in E as [-> _]. by eapply IH.
Qed.
End slots.

Instance releases_dec e x : Decision (releases e x).
Proof.
  destruct e as [[i o] r]. destruct o as [|cnt|w|w|s|b cnt]; cbn; try apply _.
  destruct (decide (Exists (fun k => x = (b + Z.of_nat k)%u64) (seq 0 (N.to_nat cnt)))) as [H|H];
    rewrite Exists_exists in H.
  - left. destruct H as (k & Hk%elem_of_seq & ->). exists (Z.of_nat k). split; [lia|done].
  - right. intros (k & Hk & ->). apply H. exists (Z.to_nat k). rewrite elem_of_seq. split; [lia|]. by rewrite Z2Nat.id by lia.
Defined.

Lemma init_ready b c ntfn :
  0 < b -> 0 < c <= 65536 -> b + c <= EXPAND_FLOOR ->
  slots_ready (slot_alloc_init b c ntfn) /\ forall x, ~ allocated (slot_alloc_init b c ntfn) x.
Proof.
  intros Hb Hc Hf. assert (b + c < 2 ^ 64) by (unfold EXPAND_FLOOR, CSPACE_EXPAND_BASE in *; lia). split.
  - split; [by apply init_pool_inv; lia|apply init_initialized; lia|]. intros x ?%init_managed; lia.
  - intros x (i & Hlt & _ & Hu). destruct (seg_at_init b c ntfn i) as [_ E]; [lia..|done|].
    rewrite E in Hu. by rewrite fresh_is_used in Hu.
Qed.

(** Sections that read the whole state in one access and write it back in another:
    without the lock, two of them would hand out the same slot. *)
Definition two_step {K : Kernel} (l : slot_op * option (slot_res * SlotAllocState)) (d : SlotAllocState)
    : (slot_op * option (slot_res * SlotAllocState) + slot_res) * SlotAllocState :=
  match l with
  | (o, None) => (inl (o, Some (locked o d)), d)
  | (_, Some (r, d')) => (inr r, d')
  end.

Lemma two_step_section {K : Kernel} o d r d' :
  section (fun o => (o, None)) two_step o d r d' -> locked o d = (r, d').
Proof.
  intros (l1 & d1 & Hp & Hm).
  assert ((l1 = (o, None) /\ d1 = d) \/ (l1 = (o, Some (locked o d)) /\ d1 = d)) as Hl.
  { clear Hm. induction Hp as [|l1 d1 l2 d2 _ IH E]; [by left|].
    destruct IH as [[-> ->]|[-> ->]]; cbn in E; [injection E as <- <-; by right|].
    destruct (locked o d). done. }
  destruct Hl as [[-> ->]|[-> ->]]; cbn in Hm; [done|]. destruct (locked o d). by injection Hm as -> ->.
Qed.

(** C5: the slot allocator under its spin lock.  Threads run any of its
    sections between [slot_lock_acquire] and [slot_lock_release], each section in
    any number of accesses to the allocator, interleaved in any way, with weak
    exchanges that fail at random.  Then a slot that two calls handed out was given
    back in between; when no thread is inside, the slots marked in the bitmaps are
    exactly those handed out and not given back; and every value a thread got from a
    finished call is one of the log. *)
Theorem slots_never_shared {K : Kernel} {L} (enter : slot_op -> L)
    (micro : L -> SlotAllocState -> (L + slot_res) * SlotAllocState)
    (Himpl : forall o d r d', section enter micro o d r d' -> locked o d = (r, d'))
    (b c ntfn : Z) (Hb : 0 < b) (Hc : 0 < c <= 65536) (Hbc : b + c <= EXPAND_FLOOR)
    (n : nat) (cfg : scfg) (Hr : sreachable enter micro n (slot_alloc_init b c ntfn) cfg) :
  (forall h1 e1 h2 e2 h3 x, log cfg = h1 ++ e1 :: h2 ++ e2 :: h3 -> grants e1 x -> grants e2 x ->
     exists e, e ∈ h2 /\ releases e x) /\
  ((forall i o l, threads cfg !! i <> Some (SInside o l)) ->
     forall x, allocated (data cfg) x <-> owned (log cfg) x) /\
  (forall i o r, threads cfg !! i = Some (SIdle (Some (o, r))) -> (i, o, r) ∈ log cfg).
Proof.
  destruct (spin_inv_reachable enter micro n _ cfg Hr) as [_ _ _ _ (d & Hs & _ & Hd) Hres].
  destruct (init_ready b c ntfn Hb Hc Hbc) as [Hr0 Hno]. split; [|split].
  - intros h1 e1 h2 [[i2 o2] r2] h3 x E Hg1 Hg2. rewrite E, app_comm_cons, (assoc_L (++)) in Hs.
    destruct (serial_snoc enter micro Himpl _ _ _ _ _ _ _ Hs) as (d1 & d2 & Hs1 & Hl).
    destruct (serial_owned enter micro Himpl _ _ _ Hs1 Hr0 Hno) as [Hr1 Ha1].
    pose proof (locked_correct i2 o2 d1 Hr1) as Hc1. rewrite Hl in Hc1. destruct Hc1 as (_ & Hfree & _).
    destruct (decide (Exists (fun e => releases e x) h2)) as [He|He]; [by apply Exists_exists in He|].
    exfalso. apply (Hfree x Hg2), Ha1, owned_until; [done|]. intros e He1 He2. apply He, Exists_exists. by exists e.
  - intros Hin. rewrite (Hd Hin). by apply (serial_owned enter micro Himpl _ _ _ Hs Hr0 Hno).
  - intros i o r Hi. apply Hres. by right.
Qed.

(** Two threads: both want a slot, thread 1 while thread 0 is inside; thread 0
    gives its slot back, and thread 1 takes it. *)
Definition contended : list sevent :=
  [Call 0 OpAlloc; Call 1 OpAlloc; Step 0; Step 0; Step 1; WeakFail 1; Step 0; Step 1; Step 0;
   Step 1; WeakFail 1; Step 1; Step 1; Step 1; Step 1; Step 1;
   Call 0 (OpFree 64); Step 0; Step 0; Step 0; Step 0; Call 1 OpAlloc; Step 1; Step 1; Step 1; Step 1].

Lemma slots_never_shared_witness :
  exists cfg, srun (fun o => (o, None)) (@two_step slow_procmgr) contended
                (spin_new 2 (slot_alloc_init 64 5000 0)) = Some cfg /\
    log cfg = [(0%nat, OpAlloc, RSlot (Some 64)); (1%nat, OpAlloc, RSlot (Some 65));
               (0%nat, OpFree 64, RFree true); (1%nat, OpAlloc, RSlot (Some 64))] /\
    exists e, e ∈ [(1%nat, OpAlloc, RSlot (Some 65)); (0%nat, OpFree 64, RFree true)] /\ releases e 64.
Proof.
  eexists. split; [vm_compute; reflexivity|]. split; [reflexivity|].
  refine (proj1 (slots_never_shared (K := slow_procmgr) (fun o => (o, None)) two_step two_step_section
    64 5000 0 ltac:(lia) ltac:(lia) ltac:(unfold EXPAND_FLOOR, CSPACE_EXPAND_BASE; lia) 2 _ _)
    [] (0%nat, OpAlloc, RSlot (Some 64)) _ (1%nat, OpAlloc, RSlot (Some 64)) [] 64 _ _ _);
    [exists contended; vm_compute; reflexivity|reflexivity..].
Defined.
