(* ===== verification/Tls.v ===== *)
(** Thread-local storage and the thread pool, [src/substrate/tls.rs]: the thread
    descriptors, the static TLS layout on both architectures, initialisation of
    the main thread, cleanup of a thread and the reset in a forked child.

    A descriptor is named by its pool index; its address is [desc_addr].  The
    memory of the process is a byte memory ([ByteMem]) in which the fields of a
    [ThreadLocalBlock] lie at their [repr(C)] offsets.  The function pointers a
    personality registers are numbers that [run_fn] interprets. *)

From S2P Require Import Prelude Consts Kernel SlotAlloc Invoke InvokeOps Ipc Protocol ByteMem.

Definition CAP_SELF_VSPACE : Cap := 1.
Definition CAP_SELF_CSPACE : Cap := 2.

Inductive Arch := X86_64 | AArch64.

(** ** Thread descriptors *)

Definition MAX_THREADS : nat := 64.

Definition TD_UNUSED : Z := 0.
Definition TD_RUNNING : Z := 1.
Definition TD_EXITED : Z := 2.
Definition TD_REAPING : Z := 3.

Inductive ThreadOwner := Main | Worker | Personality.

#[export] Instance ThreadOwner_eq_dec : EqDecision ThreadOwner.
Proof. solve_decision. Defined.

Record ThreadDesc := mkDesc {
  td_state : Z;
  td_generation : Z;
  td_tcb_cap : Cap;
  td_sc_cap : Cap;
  td_ipc_frame_cap : Cap;
  td_stack_base : Z;
  td_stack_size : Z;
  td_tls_region : Z;
  td_tls_region_size : Z;
  td_ipc_buf_vaddr : Z;
  td_tls_ptr : Z;
  td_stack_frame_base : Cap;
  td_stack_frame_count : Z;
  td_tls_frame_base : Cap;
  td_tls_frame_count : Z;
  td_thread_id : Z;
  td_owner : ThreadOwner;
  td_personality_data : Z;
  td_personality_cleanup : option Z;
  td_personality_fork_child : option Z;
}.

Definition ThreadDesc_zeroed : ThreadDesc := {|
  td_state := TD_UNUSED;
  td_generation := 0;
  td_tcb_cap := 0;
  td_sc_cap := 0;
  td_ipc_frame_cap := 0;
  td_stack_base := 0;
  td_stack_size := 0;
  td_tls_region := 0;
  td_tls_region_size := 0;
  td_ipc_buf_vaddr := 0;
  td_tls_ptr := 0;
  td_stack_frame_base := 0;
  td_stack_frame_count := 0;
  td_tls_frame_base := 0;
  td_tls_frame_count := 0;
  td_thread_id := 0;
  td_owner := Main;
  td_personality_data := 0;
  td_personality_cleanup := None;
  td_personality_fork_child := None
|}.

(** Field updates. *)
Definition set_state (d : ThreadDesc) (v : Z) : ThreadDesc :=
  mkDesc v (td_generation d) (td_tcb_cap d) (td_sc_cap d) (td_ipc_frame_cap d)
    (td_stack_base d) (td_stack_size d) (td_tls_region d) (td_tls_region_size d)
    (td_ipc_buf_vaddr d) (td_tls_ptr d) (td_stack_frame_base d) (td_stack_frame_count d)
    (td_tls_frame_base d) (td_tls_frame_count d) (td_thread_id d) (td_owner d)
    (td_personality_data d) (td_personality_cleanup d) (td_personality_fork_child d).
Definition set_generation (d : ThreadDesc) (v : Z) : ThreadDesc :=
  mkDesc (td_state d) v (td_tcb_cap d) (td_sc_cap d) (td_ipc_frame_cap d) (td_stack_base d)
    (td_stack_size d) (td_tls_region d) (td_tls_region_size d) (td_ipc_buf_vaddr d)
    (td_tls_ptr d) (td_stack_frame_base d) (td_stack_frame_count d) (td_tls_frame_base d)
    (td_tls_frame_count d) (td_thread_id d) (td_owner d) (td_personality_data d)
    (td_personality_cleanup d) (td_personality_fork_child d).
Definition set_tcb_cap (d : ThreadDesc) (v : Cap) : ThreadDesc :=
  mkDesc (td_state d) (td_generation d) v (td_sc_cap d) (td_ipc_frame_cap d) (td_stack_base
    d) (td_stack_size d) (td_tls_region d) (td_tls_region_size d) (td_ipc_buf_vaddr d)
    (td_tls_ptr d) (td_stack_frame_base d) (td_stack_frame_count d) (td_tls_frame_base d)
    (td_tls_frame_count d) (td_thread_id d) (td_owner d) (td_personality_data d)
    (td_personality_cleanup d) (td_personality_fork_child d).
Definition set_sc_cap (d : ThreadDesc) (v : Cap) : ThreadDesc :=
  mkDesc (td_state d) (td_generation d) (td_tcb_cap d) v (td_ipc_frame_cap d) (td_stack_base
    d) (td_stack_size d) (td_tls_region d) (td_tls_region_size d) (td_ipc_buf_vaddr d)
    (td_tls_ptr d) (td_stack_frame_base d) (td_stack_frame_count d) (td_tls_frame_base d)
    (td_tls_frame_count d) (td_thread_id d) (td_owner d) (td_personality_data d)
    (td_personality_cleanup d) (td_personality_fork_child d).
Definition set_ipc_frame_cap (d : ThreadDesc) (v : Cap) : ThreadDesc :=
  mkDesc (td_state d) (td_generation d) (td_tcb_cap d) (td_sc_cap d) v (td_stack_base d)
    (td_stack_size d) (td_tls_region d) (td_tls_region_size d) (td_ipc_buf_vaddr d)
    (td_tls_ptr d) (td_stack_frame_base d) (td_stack_frame_count d) (td_tls_frame_base d)
    (td_tls_frame_count d) (td_thread_id d) (td_owner d) (td_personality_data d)
    (td_personality_cleanup d) (td_personality_fork_child d).
Definition set_stack_base (d : ThreadDesc) (v : Z) : ThreadDesc :=
  mkDesc (td_state d) (td_generation d) (td_tcb_cap d) (td_sc_cap d) (td_ipc_frame_cap d) v
    (td_stack_size d) (td_tls_region d) (td_tls_region_size d) (td_ipc_buf_vaddr d)
    (td_tls_ptr d) (td_stack_frame_base d) (td_stack_frame_count d) (td_tls_frame_base d)
    (td_tls_frame_count d) (td_thread_id d) (td_owner d) (td_personality_data d)
    (td_personality_cleanup d) (td_personality_fork_child d).
Definition set_stack_size (d : ThreadDesc) (v : Z) : ThreadDesc :=
  mkDesc (td_state d) (td_generation d) (td_tcb_cap d) (td_sc_cap d) (td_ipc_frame_cap d)
    (td_stack_base d) v (td_tls_region d) (td_tls_region_size d) (td_ipc_buf_vaddr d)
    (td_tls_ptr d) (td_stack_frame_base d) (td_stack_frame_count d) (td_tls_frame_base d)
    (td_tls_frame_count d) (td_thread_id d) (td_owner d) (td_personality_data d)
    (td_personality_cleanup d) (td_personality_fork_child d).
Definition set_tls_region (d : ThreadDesc) (v : Z) : ThreadDesc :=
  mkDesc (td_state d) (td_generation d) (td_tcb_cap d) (td_sc_cap d) (td_ipc_frame_cap d)
    (td_stack_base d) (td_stack_size d) v (td_tls_region_size d) (td_ipc_buf_vaddr d)
    (td_tls_ptr d) (td_stack_frame_base d) (td_stack_frame_count d) (td_tls_frame_base d)
    (td_tls_frame_count d) (td_thread_id d) (td_owner d) (td_personality_data d)
    (td_personality_cleanup d) (td_personality_fork_child d).
Definition set_tls_region_size (d : ThreadDesc) (v : Z) : ThreadDesc :=
  mkDesc (td_state d) (td_generation d) (td_tcb_cap d) (td_sc_cap d) (td_ipc_frame_cap d)
    (td_stack_base d) (td_stack_size d) (td_tls_region d) v (td_ipc_buf_vaddr d) (td_tls_ptr
    d) (td_stack_frame_base d) (td_stack_frame_count d) (td_tls_frame_base d)
    (td_tls_frame_count d) (td_thread_id d) (td_owner d) (td_personality_data d)
    (td_personality_cleanup d) (td_personality_fork_child d).
Definition set_ipc_buf_vaddr (d : ThreadDesc) (v : Z) : ThreadDesc :=
  mkDesc (td_state d) (td_generation d) (td_tcb_cap d) (td_sc_cap d) (td_ipc_frame_cap d)
    (td_stack_base d) (td_stack_size d) (td_tls_region d) (td_tls_region_size d) v (td_tls_ptr
    d) (td_stack_frame_base d) (td_stack_frame_count d) (td_tls_frame_base d)
    (td_tls_frame_count d) (td_thread_id d) (td_owner d) (td_personality_data d)
    (td_personality_cleanup d) (td_personality_fork_child d).
Definition set_tls_ptr (d : ThreadDesc) (v : Z) : ThreadDesc :=
  mkDesc (td_state d) (td_generation d) (td_tcb_cap d) (td_sc_cap d) (td_ipc_frame_cap d)
    (td_stack_base d) (td_stack_size d) (td_tls_region d) (td_tls_region_size d)
    (td_ipc_buf_vaddr d) v (td_stack_frame_base d) (td_stack_frame_count d) (td_tls_frame_base
    d) (td_tls_frame_count d) (td_thread_id d) (td_owner d) (td_personality_data d)
    (td_personality_cleanup d) (td_personality_fork_child d).
Definition set_stack_frame_base (d : ThreadDesc) (v : Cap) : ThreadDesc :=
  mkDesc (td_state d) (td_generation d) (td_tcb_cap d) (td_sc_cap d) (td_ipc_frame_cap d)
    (td_stack_base d) (td_stack_size d) (td_tls_region d) (td_tls_region_size d)
    (td_ipc_buf_vaddr d) (td_tls_ptr d) v (td_stack_frame_count d) (td_tls_frame_base d)
    (td_tls_frame_count d) (td_thread_id d) (td_owner d) (td_personality_data d)
    (td_personality_cleanup d) (td_personality_fork_child d).
Definition set_stack_frame_count (d : ThreadDesc) (v : Z) : ThreadDesc :=
  mkDesc (td_state d) (td_generation d) (td_tcb_cap d) (td_sc_cap d) (td_ipc_frame_cap d)
    (td_stack_base d) (td_stack_size d) (td_tls_region d) (td_tls_region_size d)
    (td_ipc_buf_vaddr d) (td_tls_ptr d) (td_stack_frame_base d) v (td_tls_frame_base d)
    (td_tls_frame_count d) (td_thread_id d) (td_owner d) (td_personality_data d)
    (td_personality_cleanup d) (td_personality_fork_child d).
Definition set_tls_frame_base (d : ThreadDesc) (v : Cap) : ThreadDesc :=
  mkDesc (td_state d) (td_generation d) (td_tcb_cap d) (td_sc_cap d) (td_ipc_frame_cap d)
    (td_stack_base d) (td_stack_size d) (td_tls_region d) (td_tls_region_size d)
    (td_ipc_buf_vaddr d) (td_tls_ptr d) (td_stack_frame_base d) (td_stack_frame_count d) v
    (td_tls_frame_count d) (td_thread_id d) (td_owner d) (td_personality_data d)
    (td_personality_cleanup d) (td_personality_fork_child d).
Definition set_tls_frame_count (d : ThreadDesc) (v : Z) : ThreadDesc :=
  mkDesc (td_state d) (td_generation d) (td_tcb_cap d) (td_sc_cap d) (td_ipc_frame_cap d)
    (td_stack_base d) (td_stack_size d) (td_tls_region d) (td_tls_region_size d)
    (td_ipc_buf_vaddr d) (td_tls_ptr d) (td_stack_frame_base d) (td_stack_frame_count d)
    (td_tls_frame_base d) v (td_thread_id d) (td_owner d) (td_personality_data d)
    (td_personality_cleanup d) (td_personality_fork_child d).
Definition set_thread_id (d : ThreadDesc) (v : Z) : ThreadDesc :=
  mkDesc (td_state d) (td_generation d) (td_tcb_cap d) (td_sc_cap d) (td_ipc_frame_cap d)
    (td_stack_base d) (td_stack_size d) (td_tls_region d) (td_tls_region_size d)
    (td_ipc_buf_vaddr d) (td_tls_ptr d) (td_stack_frame_base d) (td_stack_frame_count d)
    (td_tls_frame_base d) (td_tls_frame_count d) v (td_owner d) (td_personality_data d)
    (td_personality_cleanup d) (td_personality_fork_child d).
Definition set_owner (d : ThreadDesc) (v : ThreadOwner) : ThreadDesc :=
  mkDesc (td_state d) (td_generation d) (td_tcb_cap d) (td_sc_cap d) (td_ipc_frame_cap d)
    (td_stack_base d) (td_stack_size d) (td_tls_region d) (td_tls_region_size d)
    (td_ipc_buf_vaddr d) (td_tls_ptr d) (td_stack_frame_base d) (td_stack_frame_count d)
    (td_tls_frame_base d) (td_tls_frame_count d) (td_thread_id d) v (td_personality_data d)
    (td_personality_cleanup d) (td_personality_fork_child d).
Definition set_personality_data (d : ThreadDesc) (v : Z) : ThreadDesc :=
  mkDesc (td_state d) (td_generation d) (td_tcb_cap d) (td_sc_cap d) (td_ipc_frame_cap d)
    (td_stack_base d) (td_stack_size d) (td_tls_region d) (td_tls_region_size d)
    (td_ipc_buf_vaddr d) (td_tls_ptr d) (td_stack_frame_base d) (td_stack_frame_count d)
    (td_tls_frame_base d) (td_tls_frame_count d) (td_thread_id d) (td_owner d) v
    (td_personality_cleanup d) (td_personality_fork_child d).
Definition set_personality_cleanup (d : ThreadDesc) (v : option Z) : ThreadDesc :=
  mkDesc (td_state d) (td_generation d) (td_tcb_cap d) (td_sc_cap d) (td_ipc_frame_cap d)
    (td_stack_base d) (td_stack_size d) (td_tls_region d) (td_tls_region_size d)
    (td_ipc_buf_vaddr d) (td_tls_ptr d) (td_stack_frame_base d) (td_stack_frame_count d)
    (td_tls_frame_base d) (td_tls_frame_count d) (td_thread_id d) (td_owner d)
    (td_personality_data d) v (td_personality_fork_child d).
Definition set_personality_fork_child (d : ThreadDesc) (v : option Z) : ThreadDesc :=
  mkDesc (td_state d) (td_generation d) (td_tcb_cap d) (td_sc_cap d) (td_ipc_frame_cap d)
    (td_stack_base d) (td_stack_size d) (td_tls_region d) (td_tls_region_size d)
    (td_ipc_buf_vaddr d) (td_tls_ptr d) (td_stack_frame_base d) (td_stack_frame_count d)
    (td_tls_frame_base d) (td_tls_frame_count d) (td_thread_id d) (td_owner d)
    (td_personality_data d) (td_personality_cleanup d) v.

(** ** The thread-local block: size, alignment and field offsets *)

Definition TCB_SIZE : Z := 272.
Definition TCB_ALIGN : Z := 8.
Definition off_self_ptr : Z := 0.
Definition off_ipc_buffer : Z := 8.
Definition off_send_cap_count : Z := 16.
Definition off_thread_id : Z := 24.
Definition off_errno : Z := 32.
Definition off_desc : Z := 40.
Definition off_cancel_state : Z := 48.
Definition off_cancel_type : Z := 52.
Definition off_cancel_pending : Z := 56.
Definition off_cleanup_stack : Z := 64.
Definition off_blocked_futex_addr : Z := 72.

(** ** Static TLS as the run-time linker exports it *)

Definition MAX_STATIC_TLS_MODULES : nat := 8.

Record StaticTlsModule := mkModule {
  module_id : Z; template_addr : Z; filesz : Z; memsz : Z; tp_offset : Z;   (* i64 *)
}.

Record TlsInfo := mkTlsInfo {
  tls_template : Z; tls_filesz : Z; tls_memsz : Z; tls_align : Z;
  tls_module_count : Z;
  tls_modules : list StaticTlsModule;   (* [_; MAX_STATIC_TLS_MODULES] *)
}.

(** ** The process, as one of its threads sees it *)

Record Proc {X : Type} := mkProc {
  p_world : World;
  p_alloc : SlotAllocState;
  p_mem : Mem;
  p_pool : list ThreadDesc;      (* THREAD_POOL *)
  p_next_tid : Z;                (* NEXT_THREAD_ID *)
  p_active : bool;               (* THREAD_LOCAL_ACTIVE *)
  p_sc_cap : Cap;                (* __trona_sc_cap *)
  p_ipc_ptr : Z;                 (* __trona_ipc_ctx.ipc_buffer *)
  p_ext : X;                     (* the personality's own statics *)
}.
Arguments Proc : clear implicits.

Section setters.
Context {X : Type}.
Implicit Types p : Proc X.

Definition with_world p w := mkProc X w (p_alloc p) (p_mem p) (p_pool p) (p_next_tid p) (p_active p)
  (p_sc_cap p) (p_ipc_ptr p) (p_ext p).
Definition with_alloc p a := mkProc X (p_world p) a (p_mem p) (p_pool p) (p_next_tid p) (p_active p)
  (p_sc_cap p) (p_ipc_ptr p) (p_ext p).
Definition with_mem p m := mkProc X (p_world p) (p_alloc p) m (p_pool p) (p_next_tid p) (p_active p)
  (p_sc_cap p) (p_ipc_ptr p) (p_ext p).
Definition with_pool p l := mkProc X (p_world p) (p_alloc p) (p_mem p) l (p_next_tid p) (p_active p)
  (p_sc_cap p) (p_ipc_ptr p) (p_ext p).
Definition with_next_tid p t := mkProc X (p_world p) (p_alloc p) (p_mem p) (p_pool p) t (p_active p)
  (p_sc_cap p) (p_ipc_ptr p) (p_ext p).
Definition with_active p b := mkProc X (p_world p) (p_alloc p) (p_mem p) (p_pool p) (p_next_tid p) b
  (p_sc_cap p) (p_ipc_ptr p) (p_ext p).
Definition with_sc_cap p c := mkProc X (p_world p) (p_alloc p) (p_mem p) (p_pool p) (p_next_tid p)
  (p_active p) c (p_ipc_ptr p) (p_ext p).
Definition with_ext p x := mkProc X (p_world p) (p_alloc p) (p_mem p) (p_pool p) (p_next_tid p)
  (p_active p) (p_sc_cap p) (p_ipc_ptr p) x.

Definition thread_desc p (i : nat) : ThreadDesc := default ThreadDesc_zeroed (p_pool p !! i).
Definition set_desc p (i : nat) (d : ThreadDesc) : Proc X := with_pool p (<[i := d]> (p_pool p)).
End setters.

(** Facts of the loaded program: the architecture, the static TLS layout, the
    addresses of the statics, and the personality's functions. *)
Class Image (X : Type) := {
  arch : Arch;
  tls_info : TlsInfo;
  pool_addr : Z;
  desc_size : Z;
  main_block : Z;       (* MAIN_TLS_BLOCK *)
  pm_ep : Cap;          (* caps::procmgr_ep() *)
  run_fn : Z -> nat -> Proc X -> Proc X;
}.

Section tls.
Context {X : Type} `{Kernel} `{!Image X}.
Implicit Types p : Proc X.

Definition desc_addr (i : nat) : Z := pool_addr + Z.of_nat i * desc_size.

(** [alloc_thread_desc]: the compare-exchange of the first unused slot. *)
Fixpoint alloc_scan p (n i : nat) : option nat * Proc X :=
  match n with
  | O => (None, p)
  | S n' =>
      let d := thread_desc p i in
      if td_state d =? TD_UNUSED then
        let d := set_state d TD_RUNNING in
        (Some i, set_desc p i (set_generation d (as_u32 (td_generation d + 1))))
      else alloc_scan p n' (S i)
  end.
Definition alloc_thread_desc p : option nat * Proc X := alloc_scan p MAX_THREADS 0.

Definition next_thread_id p : Z * Proc X :=
  (p_next_tid p, with_next_tid p (p_next_tid p + 1)%u64).

(** ** The thread pointer *)

Definition abi_tcb_size : Z := match arch with X86_64 => 0 | AArch64 => 16 end.

(** [read_tp] for a thread whose thread-pointer register holds [reg]. *)
Definition read_tp (m : Mem) (reg : Z) : Z :=
  match arch with X86_64 => load64 m reg | AArch64 => reg end.

Definition runtime_tcb_from_tp (m : Mem) (tp : Z) : Z :=
  match arch with X86_64 => tp | AArch64 => if tp =? 0 then 0 else load64 m tp end.

Definition install_runtime_tcb_anchor (m : Mem) (tp tcb : Z) : Mem :=
  match arch with X86_64 => m | AArch64 => store64 (store64 m tp tcb) (tp + 8) 0 end.

Definition current_tls p (reg : Z) : option Z :=
  if negb (p_active p) then None
  else
    let tp := read_tp (p_mem p) reg in
    if tp =? 0 then None
    else
      let tls := runtime_tcb_from_tp (p_mem p) tp in
      if tls =? 0 then None else Some tls.

(** The address of the IPC context in use; [None] is the global one. *)
Definition current_ipc_ctx p (reg : Z) : option Z :=
  (fun tls => tls + off_ipc_buffer) <$> current_tls p reg.

Definition desc_from_tls (m : Mem) (tls : Z) : Z := load64 m (tls + off_desc).

(** ** Static TLS *)

Definition MAX_ELF_TLS_SIZE : Z := 4096.

Definition static_tls_total_memsz : Z := tls_memsz tls_info.
Definition static_tls_align : Z := if tls_align tls_info <? 1 then 1 else tls_align tls_info.
Definition static_tls_module_count : nat :=
  Nat.min (Z.to_nat (tls_module_count tls_info)) MAX_STATIC_TLS_MODULES.
Definition static_tls_module (i : nat) : StaticTlsModule :=
  default (mkModule 0 0 0 0 0) (tls_modules tls_info !! i).

Definition default_tls_base_from_tp (tp : Z) : Z :=
  match arch with
  | X86_64 => (tp - static_tls_total_memsz)%u64
  | AArch64 => (tp + abi_tcb_size)%u64
  end.

Definition module_base (tp : Z) (md : StaticTlsModule) : Z := (tp + tp_offset md)%u64.

Definition copy_module (tp : Z) (m : Mem) (md : StaticTlsModule) : Mem :=
  if (module_id md =? 0) || (memsz md =? 0) then m
  else if negb (template_addr md =? 0) && (0 <? filesz md)
       then copy_bytes m (template_addr md) (module_base tp md) (filesz md)
       else m.

Definition initialize_static_tls_for_tp (m : Mem) (tp : Z) : Mem :=
  let total := static_tls_total_memsz in
  if (total =? 0) || (MAX_ELF_TLS_SIZE <? total) then m
  else
    let tls_base := default_tls_base_from_tp tp in
    let m := write_bytes m tls_base 0 total in
    if Nat.eqb static_tls_module_count 0 then
      if negb (tls_template tls_info =? 0) && (0 <? tls_filesz tls_info)
      then copy_bytes m (tls_template tls_info) tls_base (tls_filesz tls_info)
      else m
    else fold_left (fun m i => copy_module tp m (static_tls_module i))
           (seq 0 static_tls_module_count) m.

Fixpoint find_module (l : list nat) (id : Z) : option StaticTlsModule :=
  match l with
  | [] => None
  | i :: l' => if module_id (static_tls_module i) =? id then Some (static_tls_module i)
               else find_module l' id
  end.

Definition tls_addr_from_tp (tp id offset : Z) : Z :=
  match (if negb (id =? 0) && negb (Nat.eqb static_tls_module_count 0)
         then find_module (seq 0 static_tls_module_count) id else None) with
  | Some md => (module_base tp md + offset)%u64
  | None => (default_tls_base_from_tp tp + offset)%u64
  end.

Definition tls_addr p (reg id offset : Z) : Z := tls_addr_from_tp (read_tp (p_mem p) reg) id offset.

(** [align_up], the same in tls.rs, worker.rs and pthread.rs. *)
Definition align_up (v align : Z) : Z :=
  if align <=? 1 then v else Z.land (sat_add v (align - 1)) (bnot 64 (align - 1)).

Definition thread_tls_region_size : Z :=
  let total := static_tls_total_memsz in
  let align := Z.max static_tls_align 16 in
  match arch with
  | X86_64 =>
      let max_align := Z.max align TCB_ALIGN in
      align_up (total + TCB_SIZE + (max_align - 1))%u64 4096
  | AArch64 => align_up (abi_tcb_size + total + (TCB_ALIGN - 1) + TCB_SIZE + align)%u64 4096
  end.

(** ** The main thread *)

Definition main_tls : Z := main_block + abi_tcb_size + MAX_ELF_TLS_SIZE.
Definition main_tp : Z := match arch with X86_64 => main_tls | AArch64 => main_block end.

Definition init_main_thread_tls p : Proc X :=
  let tls := main_tls in
  let tp := main_tp in
  let m := initialize_static_tls_for_tp (p_mem p) tp in
  let m := install_runtime_tcb_anchor m tp tls in
  let m := store64 m (tls + off_self_ptr) tls in
  let m := store64 m (tls + off_ipc_buffer) (p_ipc_ptr p) in
  let m := store32 m (tls + off_send_cap_count)
             (as_u32 (match ctx (p_world p) with Some c => send_cap_count c | None => 0 end)) in
  let m := store64 m (tls + off_thread_id) 0 in
  let d := set_state (thread_desc p 0) TD_RUNNING in
  let d := set_tcb_cap d CAP_SELF_TCB in
  let d := set_sc_cap d (p_sc_cap p) in
  let d := set_owner d Main in
  let d := set_thread_id d 0 in
  let d := set_tls_ptr d tls in
  let m := store64 m (tls + off_desc) (desc_addr 0) in
  let p := with_mem (set_desc p 0 d) m in
  let '(err, w) := tcb_set_tls_base (p_world p) CAP_SELF_TCB tp in
  let p := with_world p w in
  if err =? 0 then with_active p true else p.
End tls.

(** ** Releasing what a thread holds *)

Section release.
Context {X : Type} `{Kernel} `{!Image X}.
Implicit Types p : Proc X.

(** [for p in 0..pages { vspace_unmap(CAP_SELF_VSPACE, base + p * 4096) }] *)
Fixpoint unmap_pages (n : nat) (w : World) (b : Z) : World :=
  match n with
  | O => w
  | S n' => unmap_pages n' (snd (vspace_unmap w CAP_SELF_VSPACE b)) (b + 4096)%u64
  end.

Definition unmap_region (w : World) (b size : Z) : World :=
  if negb (b =? 0) && negb (size =? 0) then unmap_pages (Z.to_nat (size / 4096)) w b else w.

Definition unmap_ipc (w : World) (b : Z) : World :=
  if negb (b =? 0) then snd (vspace_unmap w CAP_SELF_VSPACE b) else w.

(** The three mappings of a thread: its stack, IPC buffer and TLS region. *)
Definition unmap_thread (w : World) (d : ThreadDesc) : World :=
  let w := unmap_region w (td_stack_base d) (td_stack_size d) in
  let w := unmap_ipc w (td_ipc_buf_vaddr d) in
  unmap_region w (td_tls_region d) (td_tls_region_size d).

Definition delete_cap (st : SlotAllocState) (w : World) (c : Cap) : World :=
  if negb (c =? 0) then snd (cnode_delete st w CAP_SELF_CSPACE c) else w.

(** [for p in 0..n { cnode_delete(CAP_SELF_CSPACE, base + p) }] *)
Fixpoint delete_caps (n : nat) (st : SlotAllocState) (w : World) (b : Z) : World :=
  match n with
  | O => w
  | S n' => delete_caps n' st (snd (cnode_delete st w CAP_SELF_CSPACE b)) (b + 1)%u64
  end.

(** The frame capabilities of a consecutive range, and their slots. *)
Definition release_frames (st : SlotAllocState) (w : World) (b cnt : Z) : SlotAllocState * World :=
  if negb (b =? 0) then (slot_free_range st b cnt, delete_caps (Z.to_nat cnt) st w b) else (st, w).

(** What [cleanup_thread] does for a worker, and [rollback_worker] word for word. *)
Definition release_worker (st : SlotAllocState) (w : World) (d : ThreadDesc)
    : SlotAllocState * World :=
  let w := unmap_thread w d in
  let w := delete_cap st w (td_tcb_cap d) in
  let w := delete_cap st w (td_sc_cap d) in
  let w := delete_cap st w (td_ipc_frame_cap d) in
  let st := if negb (td_tcb_cap d =? 0) then slot_free_range st (td_tcb_cap d) 3 else st in
  let '(st, w) := release_frames st w (td_stack_frame_base d) (td_stack_frame_count d) in
  release_frames st w (td_tls_frame_base d) (td_tls_frame_count d).

Definition cleanup_thread p (i : nat) : Proc X :=
  let p := match td_personality_cleanup (thread_desc p i) with
           | Some f => run_fn f i p
           | None => p
           end in
  let d := thread_desc p i in
  let p :=
    match td_owner d with
    | Worker => let '(st, w) := release_worker (p_alloc p) (p_world p) d in
                with_world (with_alloc p st) w
    | Personality => p
    | Main => p
    end in
  let d := set_personality_data d 0 in
  let d := set_personality_cleanup d None in
  let d := set_personality_fork_child d None in
  let d := set_tls_ptr d 0 in
  let d := set_stack_frame_base d 0 in
  let d := set_stack_frame_count d 0 in
  let d := set_tls_frame_base d 0 in
  let d := set_tls_frame_count d 0 in
  set_desc p i (set_state d TD_UNUSED).

(** ** After fork, in the child *)

Definition query_sc_cap_from_procmgr (w : World) : Cap * World :=
  match ctx w with
  | None => (0, w)
  | Some _ =>
      let m := mkMsg PM_GET_THREAD_CAPS 0 (replicate 32 0) in
      let '(err, reply, w) := call_ctx w pm_ep m (Some TronaMsg_zeroed) in
      let reply := default TronaMsg_zeroed reply in
      if negb (err =? 0) || negb (label reply =? TRONA_OK) then (0, w) else (reg reply 0, w)
  end.

Definition invalidate_desc (d : ThreadDesc) : ThreadDesc :=
  let d := set_state d TD_UNUSED in
  let d := set_generation d (as_u32 (td_generation d + 1)) in
  let d := set_personality_data d 0 in
  let d := set_personality_cleanup d None in
  let d := set_personality_fork_child d None in
  let d := set_stack_base d 0 in
  let d := set_stack_size d 0 in
  let d := set_tls_region d 0 in
  let d := set_tls_region_size d 0 in
  let d := set_ipc_buf_vaddr d 0 in
  let d := set_tls_ptr d 0 in
  let d := set_stack_frame_base d 0 in
  let d := set_stack_frame_count d 0 in
  let d := set_tls_frame_base d 0 in
  set_tls_frame_count d 0.

Definition fork_slot p (i : nat) : Proc X :=
  let d := thread_desc p i in
  if td_state d =? TD_UNUSED then p
  else set_desc (with_world p (unmap_thread (p_world p) d)) i (invalidate_desc d).

Definition trona_post_fork_child p : Proc X :=
  let d := set_tcb_cap (thread_desc p 0) CAP_SELF_TCB in
  let '(sc, w) := query_sc_cap_from_procmgr (p_world p) in
  let p := set_desc (with_sc_cap (with_world p w) sc) 0 (set_sc_cap d sc) in
  let p := fold_left fork_slot (seq 1 (MAX_THREADS - 1)) p in
  let p := match td_personality_fork_child (thread_desc p 0) with
           | Some f => run_fn f 0%nat p
           | None => p
           end in
  with_next_tid p 1.
End release.
