(* ===== verification/TlsTheorems.v ===== *)
(** Properties of the static TLS layout of [Tls]: what a thread finds in its
    TLS variables, and that the block, the variables and the ABI header fit the
    region [thread_tls_region_size] reserves. *)

From S2P Require Import Prelude Consts Kernel SlotAlloc Invoke InvokeOps Ipc Protocol ByteMem Tls.

(** ** Rounding to a power of two *)

Definition pow2 (a : Z) : Prop := exists k, 0 <= k <= 63 /\ a = 2 ^ k.

Lemma pow2_pos a : pow2 a -> 1 <= a < 2 ^ 64.
Proof.
  intros (k & Hk & ->). pose proof (Z.pow_pos_nonneg 2 k). pose proof (Z.pow_lt_mono_r 2 k 64). lia.
Qed.

Lemma pow2_max a b : pow2 a -> pow2 b -> pow2 (Z.max a b).
Proof. intros Ha Hb. by destruct (Z.max_spec a b) as [[_ ->]|[_ ->]]. Qed.

Lemma pow2_divide a b x : pow2 a -> pow2 b -> a <= b -> x mod b = 0 -> x mod a = 0.
Proof.
  intros (j & Hj & ->) (k & Hk & ->) Hle Hx.
  assert (j <= k) by (destruct (Z.le_gt_cases j k); [done|]; pose proof (Z.pow_lt_mono_r 2 k j); lia).
  apply Z.mod_divide in Hx; [|lia]. apply Z.mod_divide; [lia|].
  eapply Z.divide_trans; [|exact Hx]. exists (2 ^ (k - j)). rewrite <- Z.pow_add_r by lia. f_equal. lia.
Qed.

Lemma align_up_pow2 v a :
  pow2 a -> 0 <= v -> v + a <= 2 ^ 64 -> v <= align_up v a < v + a /\ align_up v a mod a = 0.
Proof.
  intros (k & Hk & ->) Hv Hlt. unfold align_up.
  destruct (Z.leb_spec (2 ^ k) 1).
  { pose proof (Z.pow_pos_nonneg 2 k). assert (2 ^ k = 1) as -> by lia. rewrite Z.mod_1_r. lia. }
  unfold sat_add, U64_MAX. destruct (Z.ltb_spec (2 ^ 64 - 1) (v + (2 ^ k - 1))); [lia|].
  apply (align_up_spec 64 k v); lia.
Qed.

(** [lia] on the layout facts, whose fields name the modules with [let]. *)
Ltac zlia := cbn zeta in *; lia.

(** ** The initial contents of static TLS *)

Section image.
Context {X : Type} `{!Image X}.

(** Where the modules lie, relative to the thread pointer. *)
Definition tls_lo : Z := match arch with X86_64 => - static_tls_total_memsz | AArch64 => 16 end.
Definition tls_hi : Z := match arch with X86_64 => 0 | AArch64 => 16 + static_tls_total_memsz end.

Definition live_module (i : nat) : Prop :=
  (i < static_tls_module_count)%nat /\
  module_id (static_tls_module i) <> 0 /\ memsz (static_tls_module i) <> 0.

(** The layout the run-time linker exports: the modules' blocks lie inside the
    static TLS area, do not overlap, hold their initial image and have
    different identifiers. *)
Record static_tls_ok : Prop := {
  so_total : 0 < static_tls_total_memsz <= MAX_ELF_TLS_SIZE;
  so_block : forall i, live_module i -> let md := static_tls_module i in
    tls_lo <= tp_offset md /\ tp_offset md + memsz md <= tls_hi /\ 0 <= filesz md <= memsz md;
  so_disjoint : forall i j, live_module i -> live_module j -> i <> j ->
    let a := static_tls_module i in let b := static_tls_module j in
    tp_offset a + memsz a <= tp_offset b \/ tp_offset b + memsz b <= tp_offset a;
  so_ids : forall i j, live_module i -> (j < static_tls_module_count)%nat ->
    module_id (static_tls_module i) = module_id (static_tls_module j) -> i = j;
}.

(** A thread pointer with room for the static TLS area around it. *)
Definition tp_fits (tp : Z) : Prop := 0 <= tp + tls_lo /\ 0 <= tp /\ tp + tls_hi < 2 ^ 64 /\ tp < 2 ^ 64.

Lemma module_base_fits tp i :
  static_tls_ok -> tp_fits tp -> live_module i ->
  module_base tp (static_tls_module i) = tp + tp_offset (static_tls_module i).
Proof.
  intros Hok (? & ? & ? & ?) Hi. destruct (so_block Hok i Hi) as (? & ? & ?).
  unfold module_base. apply wrap_small. lia.
Qed.

Lemma default_base_fits tp :
  static_tls_ok -> tp_fits tp -> default_tls_base_from_tp tp = tp + tls_lo.
Proof.
  intros Hok. pose proof (so_total Hok). unfold tp_fits, default_tls_base_from_tp, tls_lo, tls_hi, abi_tcb_size.
  destruct arch; intros; rewrite wrap_small; lia.
Qed.

(** The bytes of the initial image of module [i]. *)
Definition in_file (tp : Z) (i : nat) (x : Z) : Prop :=
  let md := static_tls_module i in
  live_module i /\ template_addr md <> 0 /\
  tp + tp_offset md <= x < tp + tp_offset md + filesz md.

Lemma copy_module_spec tp m i x :
  static_tls_ok -> tp_fits tp -> (i < static_tls_module_count)%nat ->
  let md := static_tls_module i in
  (in_file tp i x -> copy_module tp m md x = m (template_addr md + (x - (tp + tp_offset md)))) /\
  (~ in_file tp i x -> copy_module tp m md x = m x).
Proof.
  intros Hok Htp Hi md. unfold copy_module, in_file. fold md.
  destruct (Z.eqb_spec (module_id md) 0) as [E|E].
  { split; [|done]. intros ((_ & ? & _) & _). done. }
  destruct (Z.eqb_spec (memsz md) 0) as [E2|E2]; cbn [orb].
  { split; [|done]. intros ((_ & _ & ?) & _). done. }
  assert (Hl : live_module i) by done.
  pose proof (module_base_fits tp i Hok Htp Hl) as Emb. fold md in Emb. rewrite Emb.
  destruct (Z.eqb_spec (template_addr md) 0) as [Et|Et]; cbn [negb andb].
  { split; [|done]. intros (_ & ? & _). done. }
  destruct (Z.ltb_spec 0 (filesz md)); cbn.
  - split; intros Hx; [destruct Hx as (_ & _ & Hx); by apply copy_bytes_in|]. apply copy_bytes_out.
    destruct (Z.lt_ge_cases x (tp + tp_offset md)); [by left|].
    destruct (Z.lt_ge_cases x (tp + tp_offset md + filesz md)); [|by right]. by destruct Hx.
  - split; [|done]. intros (_ & _ & ?). lia.
Qed.

(** Copying the modules of a list, whose templates lie outside static TLS. *)
Lemma copy_modules_spec tp : static_tls_ok -> tp_fits tp -> forall l m x,
  NoDup l -> (forall i, i ∈ l -> (i < static_tls_module_count)%nat) ->
  (forall i j k, i ∈ l -> j ∈ l -> live_module i -> 0 <= k < filesz (static_tls_module i) ->
     ~ in_file tp j (template_addr (static_tls_module i) + k)) ->
  let m' := fold_left (fun m i => copy_module tp m (static_tls_module i)) l m in
  (forall i, i ∈ l -> in_file tp i x ->
     m' x = m (template_addr (static_tls_module i) + (x - (tp + tp_offset (static_tls_module i))))) /\
  ((forall i, i ∈ l -> ~ in_file tp i x) -> m' x = m x).
Proof.
  intros Hok Htp. induction l as [|a l IH]; intros m x Hnd Hlt Htm; cbn [fold_left].
  { split; [|done]. intros i Hi. by apply elem_of_nil in Hi. }
  apply NoDup_cons in Hnd as [Ha Hnd].
  destruct (IH (copy_module tp m (static_tls_module a)) x Hnd) as [IHin IHout].
  { intros i Hi. apply Hlt. by right. }
  { intros i j k Hi Hj. apply Htm; by right. }
  pose proof (fun y => copy_module_spec tp m a y Hok Htp (Hlt a ltac:(by left))) as Hc.
  cbn zeta in *. split.
  - intros i Hi Hx. apply elem_of_cons in Hi as [->|Hi].
    + rewrite IHout; [by apply Hc|]. intros j Hj (Hlj & _ & Hxj). destruct Hx as (Hla & _ & Hxa).
      assert (a <> j) by (by intros ->).
      pose proof (so_disjoint Hok a j Hla Hlj ltac:(done)).
      pose proof (so_block Hok a Hla). pose proof (so_block Hok j Hlj). zlia.
    + rewrite (IHin i Hi Hx). apply Hc. destruct Hx as (Hl & _ & Hx).
      apply Htm; [by right|by left|done|lia].
  - intros Hx. rewrite IHout; [apply Hc, Hx; by left|]. intros i Hi. apply Hx. by right.
Qed.

Lemma find_module_live l i :
  static_tls_ok -> live_module i -> i ∈ l -> (forall j, j ∈ l -> (j < static_tls_module_count)%nat) ->
  find_module l (module_id (static_tls_module i)) = Some (static_tls_module i).
Proof.
  intros Hok Hi. induction l as [|a l IH]; intros Hil Hlt; [by apply elem_of_nil in Hil|].
  cbn. destruct (Z.eqb_spec (module_id (static_tls_module a)) (module_id (static_tls_module i))) as [E|E].
  - by rewrite (so_ids Hok i a Hi (Hlt a ltac:(by left)) (eq_sym E)).
  - apply IH; [|intros j Hj; apply Hlt; by right].
    apply elem_of_cons in Hil as [->|?]; [by destruct E|done].
Qed.

Lemma tls_addr_live tp i o :
  static_tls_ok -> tp_fits tp -> live_module i -> 0 <= o < memsz (static_tls_module i) ->
  tls_addr_from_tp tp (module_id (static_tls_module i)) o =
    tp + tp_offset (static_tls_module i) + o.
Proof.
  intros Hok Htp Hi Ho. destruct Hi as (Hlt & Hid & Hm). unfold tls_addr_from_tp.
  destruct (Z.eqb_spec (module_id (static_tls_module i)) 0); [done|].
  destruct (Nat.eqb_spec static_tls_module_count 0); [lia|]. cbn [negb andb].
  assert (Hi : live_module i) by done.
  rewrite find_module_live; [|done|done|by apply elem_of_seq; lia|by intros j ?%elem_of_seq; lia].
  rewrite module_base_fits by done. destruct Htp as (? & ? & ? & ?).
  pose proof (so_block Hok i Hi). apply wrap_small. zlia.
Qed.

(** The templates lie outside the static TLS area of [tp]. *)
Definition templates_outside (tp : Z) : Prop :=
  forall i k, live_module i -> 0 <= k < filesz (static_tls_module i) ->
    let a := template_addr (static_tls_module i) + k in a < tp + tls_lo \/ tp + tls_hi <= a.

(** What a variable of module [i] starts with. *)
Definition initial_byte (m : Mem) (i : nat) (o : Z) : Z :=
  let md := static_tls_module i in
  if negb (template_addr md =? 0) && (o <? filesz md) then m (template_addr md + o) else 0.

Lemma init_static_spec m tp :
  static_tls_ok -> tp_fits tp -> templates_outside tp -> static_tls_module_count <> 0%nat ->
  let m' := initialize_static_tls_for_tp m tp in
  (forall i o, live_module i -> 0 <= o < memsz (static_tls_module i) ->
     m' (tls_addr_from_tp tp (module_id (static_tls_module i)) o) = initial_byte m i o) /\
  same_outside (tp + tls_lo) (tp + tls_hi) m m'.
Proof.
  intros Hok Htp Htm Hc. pose proof (so_total Hok) as Ht.
  unfold initialize_static_tls_for_tp.
  destruct (Z.eqb_spec static_tls_total_memsz 0); [lia|].
  destruct (Z.ltb_spec MAX_ELF_TLS_SIZE static_tls_total_memsz); [lia|]. cbn [orb].
  destruct (Nat.eqb_spec static_tls_module_count 0); [lia|].
  rewrite default_base_fits by done. set (m0 := write_bytes m _ 0 _).
  assert (Hhi : tp + tls_hi = tp + tls_lo + static_tls_total_memsz).
  { unfold tls_hi, tls_lo. destruct arch; lia. }
  assert (Hblk : forall i x, in_file tp i x -> tp + tls_lo <= x < tp + tls_hi).
  { intros i x (Hl & _ & Hx). pose proof (so_block Hok i Hl). zlia. }
  pose proof (fun x => copy_modules_spec tp Hok Htp (seq 0 static_tls_module_count) m0 x
    (NoDup_seq _ _) ltac:(intros i ?%elem_of_seq; lia)
    ltac:(intros i j k _ _ Hl Hk Hx%Hblk; specialize (Htm i k Hl Hk); cbn in Htm; lia)) as Hcp.
  cbn zeta in *. split.
  - intros i o Hl Ho. rewrite (tls_addr_live tp i o) by done. set (x := _ + _ + o).
    destruct (Hcp x) as [Hin Hout]. destruct Hl as (Hlt & Hid & Hms). assert (Hl : live_module i) by done.
    pose proof (so_block Hok i Hl) as Hb. cbn in Hb. unfold initial_byte.
    destruct (Z.eqb_spec (template_addr (static_tls_module i)) 0) as [E|E]; cbn [negb andb].
    + rewrite Hout; [apply write_bytes_in; lia|]. intros j Hj (Hlj & Htj & Hx).
      destruct (decide (i = j)) as [->|Hne]; [done|].
      pose proof (so_disjoint Hok i j Hl Hlj Hne). pose proof (so_block Hok j Hlj). zlia.
    + destruct (Z.ltb_spec o (filesz (static_tls_module i))).
      * rewrite (Hin i) by (try (by apply elem_of_seq; lia); split_and!; done || lia).
        replace (x - _) with o by lia. apply write_bytes_out.
        specialize (Htm i o Hl ltac:(lia)). cbn in Htm. lia.
      * rewrite Hout; [apply write_bytes_in; lia|]. intros j Hj (Hlj & Htj & Hx).
        destruct (decide (i = j)) as [->|Hne]; [lia|].
        pose proof (so_disjoint Hok i j Hl Hlj Hne). pose proof (so_block Hok j Hlj). zlia.
  - intros x Hx. destruct (Hcp x) as [_ ->]; [apply write_bytes_out; lia|].
    intros i _ Hf%Hblk. lia.
Qed.
End image.

(** ** A thread-local area: header, static TLS and block *)

Section placed.
Context {X : Type} `{!Image X}.

(** The block [blk] and the static TLS of the thread pointer [tp] lie in
    [lo .. hi) without overlap, and are aligned. *)
Record tls_placed (lo hi tp blk : Z) : Prop := {
  pl_range : 0 < lo /\ hi < 2 ^ 64;
  pl_tp : lo <= tp /\ tp + tls_hi <= blk /\ lo <= tp + tls_lo;
  pl_block : 0 < blk /\ blk + TCB_SIZE <= hi;
  pl_x86 : match arch with X86_64 => blk = tp | AArch64 => True end;
  pl_align : tp mod Z.max static_tls_align 16 = 0 /\ blk mod TCB_ALIGN = 0;
}.

(** What both thread creators do with the memory of a zeroed area. *)
Definition install (m : Mem) (tp blk : Z) : Mem :=
  store64 (install_runtime_tcb_anchor (initialize_static_tls_for_tp m tp) tp blk)
    (blk + off_self_ptr) blk.

Lemma placed_fits lo hi tp blk : tls_placed lo hi tp blk -> static_tls_ok -> tp_fits tp.
Proof.
  intros [] Hok. pose proof (so_total Hok). unfold tp_fits, TCB_SIZE, tls_lo, tls_hi in *.
  destruct arch; lia.
Qed.

(** Outside the header and the self pointer, [install] only initialises static TLS. *)
Lemma install_out m lo hi tp blk x :
  tls_placed lo hi tp blk -> x < blk \/ blk + 8 <= x ->
  match arch with X86_64 => True | AArch64 => x < tp \/ tp + 16 <= x end ->
  install m tp blk x = initialize_static_tls_for_tp m tp x.
Proof.
  intros Hp Hx Ha. unfold install, off_self_ptr. rewrite store64_out by lia.
  unfold install_runtime_tcb_anchor. destruct arch; [done|]. rewrite !store64_out by lia. done.
Qed.

Lemma install_self m lo hi tp blk :
  tls_placed lo hi tp blk -> static_tls_ok ->
  let m' := install m tp blk in runtime_tcb_from_tp m' (read_tp m' tp) = blk.
Proof.
  intros [? ? ? Hx _] Hok. pose proof (so_total Hok). cbn zeta.
  unfold runtime_tcb_from_tp, read_tp, install, install_runtime_tcb_anchor, off_self_ptr, tls_hi, tls_lo, TCB_SIZE in *.
  destruct arch.
  - subst blk. rewrite Z.add_0_r, load_store64 by (unfold_widths; lia). done.
  - destruct (Z.eqb_spec tp 0); [lia|]. autorewrite with mem. done.
Qed.

(** A thread-local area built on zeroed memory: the thread finds its block
    through the thread pointer, its variables have their initial values, the
    fields of its block are zero, and nothing outside the area changes. *)
Lemma install_spec m lo hi tp blk z n :
  tls_placed lo hi tp blk -> static_tls_ok -> static_tls_module_count <> 0%nat ->
  (forall i k, live_module i -> 0 <= k < filesz (static_tls_module i) ->
     let a := template_addr (static_tls_module i) + k in a < lo \/ hi <= a) ->
  lo <= z -> z + n <= hi -> z <= blk -> blk + TCB_SIZE <= z + n ->
  let m' := install (write_bytes m z 0 n) tp blk in
  runtime_tcb_from_tp m' (read_tp m' tp) = blk /\
  (forall i o, live_module i -> 0 <= o < memsz (static_tls_module i) ->
     m' (tls_addr_from_tp tp (module_id (static_tls_module i)) o) = initial_byte m i o) /\
  (forall x, blk + 8 <= x < blk + TCB_SIZE -> m' x = 0) /\
  same_outside lo hi m m'.
Proof.
  intros Hp Hok Hc Htm Hz1 Hz2 Hz3 Hz4. pose proof (placed_fits _ _ _ _ Hp Hok) as Hfit.
  assert (Hrng : lo <= tp + tls_lo /\ tp + tls_hi <= blk /\ blk + TCB_SIZE <= hi) by (destruct Hp; lia).
  destruct (init_static_spec (write_bytes m z 0 n) tp Hok Hfit) as [Hv Hout]; [|done|].
  { intros i k Hl Hk. specialize (Htm i k Hl Hk). cbn in Htm. unfold TCB_SIZE in *. lia. }
  cbn zeta. split; [by eapply install_self|]. split; [|split].
  - intros i o Hl Ho. pose proof (so_block Hok i Hl) as Hb. cbn in Hb.
    rewrite (install_out _ lo hi tp blk); [|done|..].
    + rewrite Hv by done. unfold initial_byte. case_if; [|done]. bprop.
      apply write_bytes_out. specialize (Htm i o Hl ltac:(lia)). cbn in Htm. lia.
    + rewrite tls_addr_live by done. left. lia.
    + rewrite tls_addr_live by done. unfold tls_lo in *. destruct arch; [done|]. lia.
  - intros x Hx. rewrite (install_out _ lo hi tp blk); [|done|lia|].
    + rewrite Hout by lia. apply write_bytes_in. lia.
    + destruct Hp as [_ Ht _ _ _]. unfold tls_hi, tls_lo in *. pose proof (so_total Hok). destruct arch; [done|]. lia.
  - intros x Hx. unfold TCB_SIZE in *. rewrite (install_out _ lo hi tp blk); [|done|lia|].
    + rewrite Hout by lia. apply write_bytes_out. lia.
    + destruct Hp as [_ Ht _ _ _]. unfold tls_hi, tls_lo in *. pose proof (so_total Hok). destruct arch; [done|]. lia.
Qed.
End placed.
