(* ===== verification/Worker.v ===== *)
(** The worker pool, [src/substrate/worker.rs]: start of the pool, creation and
    roll-back of one worker, its TLS block, the receive loop, exit and reaping.

    The statics of worker.rs and the process state of [Tls] form the state
    [Pool]; the functions the server registers (handler and hooks) are numbers
    interpreted by the class [Hooks].  A blocking slot allocation that does not
    finish within [fuel] turns of the expansion driver ends a run in [Stuck]. *)

From S2P Require Import Prelude Consts Kernel SlotAlloc Invoke SlotExpand Ipc InvokeOps Protocol Serial ByteMem Tls.
Import String.StringSyntax.

Definition MAX_WORKERS : nat := 32.
Definition MAX_WORKER_ENDPOINTS : nat := IPC_BUFFER_RESERVED_WORDS.
Definition DEFAULT_STACK_PAGES : Z := 16.
Definition WORKER_REGION_BASE : Z := 0x6000000000.
Definition WORKER_REGION_STRIDE : Z := 256 * 1024.
Definition MIN_BUDGET_US : Z := 1000.
Definition DEFAULT_PERIOD_US : Z := 100000.

Inductive WorkerLoopControl := Reply | SkipReply | Exit.

Record WorkerConfig := mkConfig {
  worker_count : nat;
  endpoints : option (list Cap);     (* a pointer; [None] is null *)
  endpoint_count : nat;
  untyped : Cap;
  stack_pages : Z;
  pool_budget_us : Z;
  pool_period_us : Z;
  cspace_depth : Z;
  on_enter : option Z;
  next_timeout_ns : option Z;
  on_timeout : option Z;
}.

Record WorkerSlot := mkSlot { thread_pool_idx : nat; active : bool }.
Definition WorkerSlot_zeroed : WorkerSlot := mkSlot 0 false.

Record WorkerCfgSnapshot := mkCfg {
  c_endpoints : list Cap;
  c_endpoint_count : nat;
  c_handler : option Z;
  c_worker_count : nat;
  c_on_enter : option Z;
  c_next_timeout_ns : option Z;
  c_on_timeout : option Z;
}.
Definition WorkerCfgSnapshot_zeroed : WorkerCfgSnapshot :=
  mkCfg (replicate MAX_WORKER_ENDPOINTS 0) 0 None 0 None None None.

Record Pool {X : Type} := mkPool {
  proc : Proc X;
  slots : list WorkerSlot;       (* WORKER_SLOTS *)
  cfg : WorkerCfgSnapshot;       (* WORKER_CFG *)
  va_next : Z;                   (* WORKER_VA_NEXT *)
}.
Arguments Pool : clear implicits.

Class Hooks (X : Type) := {
  worker_entry_trampoline : Z;
  call_handler : Z -> Pool X -> TronaMsg -> Z -> Z -> TronaMsg ->
                 WorkerLoopControl * TronaMsg * TronaMsg * Pool X;
  call_hook : Z -> nat -> Pool X -> Pool X;              (* on_enter, on_timeout *)
  call_timeout_ns : Z -> nat -> Pool X -> Z * Pool X;
}.

(** ** A monad for the early returns of [spawn_worker] *)

Inductive Outcome (A : Type) := Value (a : A) | Return (code : Z) | Stuck.
Arguments Value {A} _.
Arguments Return {A} _.
Arguments Stuck {A}.

Definition M (X A : Type) : Type := Pool X -> Outcome A * Pool X.

#[export] Instance M_ret X : MRet (M X) := fun A a s => (Value a, s).
#[export] Instance M_bind X : MBind (M X) := fun A B f m s =>
  match m s with
  | (Value a, s') => f a s'
  | (Return c, s') => (Return c, s')
  | (Stuck, s') => (Stuck, s')
  end.

Section ops.
Context {X : Type} `{Kernel} `{Slices} `{!Image X} `{!Hooks X}.
Implicit Types s : Pool X.

Definition with_proc s p : Pool X := mkPool X p (slots s) (cfg s) (va_next s).
Definition with_slots s l : Pool X := mkPool X (proc s) l (cfg s) (va_next s).
Definition with_cfg s c : Pool X := mkPool X (proc s) (slots s) c (va_next s).
Definition with_va_next s v : Pool X := mkPool X (proc s) (slots s) (cfg s) v.
Definition set_world s (w : World) : Pool X := with_proc s (with_world (proc s) w).

Definition state_ (f : Pool X -> Pool X) : M X unit := fun s => (Value (), f s).
Definition return_ {A} (c : Z) : M X A := fun s => (Return c, s).
Definition puts (t : list Z) : M X unit :=
  state_ (fun s => set_world s (serial_puts (p_world (proc s)) t)).
Definition kcall (f : World -> Z * World) : M X Z := fun s =>
  let '(e, w) := f (p_world (proc s)) in (Value e, set_world s w).
Definition mod_desc (i : nat) (f : ThreadDesc -> ThreadDesc) : M X unit :=
  state_ (fun s => with_proc s (set_desc (proc s) i (f (thread_desc (proc s) i)))).
Definition mod_mem (f : Mem -> Mem) : M X unit :=
  state_ (fun s => with_proc s (with_mem (proc s) (f (p_mem (proc s))))).
Definition get_thread_id (i : nat) : M X Z := fun s => (Value (td_thread_id (thread_desc (proc s) i)), s).

Definition slots_consecutive (fuel : nat) (n : Z) : M X (option Cap) := fun s =>
  match slot_alloc_consecutive fuel n (p_alloc (proc s)) (p_world (proc s)) with
  | (Some r, st, w) => (Value r, with_proc s (with_world (with_alloc (proc s) st) w))
  | (None, st, w) => (Stuck, with_proc s (with_world (with_alloc (proc s) st) w))
  end.

Definition alloc_worker_va : M X Z := fun s =>
  (Value (va_next s), with_va_next s (va_next s + WORKER_REGION_STRIDE)%u64).

Definition rollback_worker (i : nat) : M X unit := state_ (fun s =>
  let d := thread_desc (proc s) i in
  let '(st, w) := release_worker (p_alloc (proc s)) (p_world (proc s)) d in
  let p := with_world (with_alloc (proc s) st) w in
  with_proc s (set_desc p i (set_state (thread_desc p i) TD_UNUSED))).

(** A fallible call of [spawn_worker]: diagnostics, roll-back and early return
    on a non-zero code. *)
Definition or_rollback (i : nat) (text : list (list Z)) (f : World -> Z * World) : M X unit :=
  err ← kcall f;
  if err =? 0 then mret ()
  else fold_right (fun t k => puts t ≫= fun _ => k) (mret ()) text ≫= fun _ =>
       rollback_worker i ≫= fun _ => return_ err.

Definition no_slots {A} (i : nat) (text : list Z) : M X A :=
  puts text ≫= fun _ => rollback_worker i ≫= fun _ => return_ (-1).

(** [for p in 0..n { f(p)?; }], the index passed as a machine word. *)
Fixpoint for_pages (n : nat) (k : Z) (f : Z -> M X unit) : M X unit :=
  match n with
  | O => mret ()
  | S n' => f k ≫= fun _ => for_pages n' (k + 1) f
  end.

(** ** The TLS block of a worker *)

Definition align_down (v align : Z) : Z :=
  if align <=? 1 then v else Z.land v (bnot 64 (align - 1)).

(** The thread pointer and the address of the block. *)
Definition worker_tls_place (tls_va tls_size : Z) : Z * Z :=
  let total := static_tls_total_memsz in
  let align := Z.max static_tls_align 16 in
  match arch with
  | X86_64 =>
      let region_end := (tls_va + tls_size)%u64 in
      let tcb_addr := align_down (sat_sub region_end TCB_SIZE) (Z.max align TCB_ALIGN) in
      (tcb_addr, tcb_addr)
  | AArch64 =>
      let tp := align_down tls_va align in
      (tp, align_up (sat_add (sat_add tp abi_tcb_size) total) TCB_ALIGN)
  end.

Definition init_worker_tls (m : Mem) (tls_va tls_size : Z) : (Z * Z) * Mem :=
  let m := write_bytes m tls_va 0 tls_size in
  let '(tp, tls_block) := worker_tls_place tls_va tls_size in
  let m := initialize_static_tls_for_tp m tp in
  let m := install_runtime_tcb_anchor m tp tls_block in
  ((tp, tls_block), store64 m (tls_block + off_self_ptr) tls_block).

(** ** One worker *)

Definition MAP_FLAGS : Z := Z.lor VSPACE_FLAG_WRITABLE VSPACE_FLAG_USER.

(** Steps 1 to 3: the descriptor, the three slots and the kernel objects. *)
Definition spawn_objects (fuel : nat) (ut : Cap) : M X (nat * Cap) :=
  o ← (fun s => let '(o, p) := alloc_thread_desc (proc s) in (Value o, with_proc s p));
  match o with
  | None => puts (line "[WORKER] thread pool full") ≫= fun _ => return_ (-1)
  | Some pool_idx =>
      mod_desc pool_idx (fun d => set_owner d Worker) ≫= fun _ =>
      tid ← (fun s => let '(t, p) := next_thread_id (proc s) in (Value t, with_proc s p));
      mod_desc pool_idx (fun d => set_thread_id d tid) ≫= fun _ =>
      r ← slots_consecutive fuel 3;
      match r with
      | None =>
          puts (line "[WORKER] slot_alloc(3) failed") ≫= fun _ =>
          mod_desc pool_idx (fun d => set_state d TD_UNUSED) ≫= fun _ => return_ (-1)
      | Some tcb_slot =>
          let sc_slot := (tcb_slot + 1)%u64 in
          let ipc_frame_slot := (tcb_slot + 2)%u64 in
          mod_desc pool_idx (fun d =>
            set_ipc_frame_cap (set_sc_cap (set_tcb_cap d tcb_slot) sc_slot) ipc_frame_slot) ≫= fun _ =>
          let retype obj slot name :=
            or_rollback pool_idx [lit "[WORKER] retype "; name; line " failed"]
              (fun w => untyped_retype w ut obj 0 slot) in
          retype OBJ_TCB tcb_slot (lit "TCB") ≫= fun _ =>
          retype OBJ_SCHED_CONTEXT sc_slot (lit "SC") ≫= fun _ =>
          retype OBJ_FRAME ipc_frame_slot (lit "IPC frame") ≫= fun _ =>
          mret (pool_idx, tcb_slot)
      end
  end.

(** Steps 4 and 5: a consecutive range of frames, recorded in the descriptor. *)
Definition take_frames (fuel pool_idx : nat) (ut : Cap) (n : Z) (no_slot no_frame : list Z)
    (record : Cap -> ThreadDesc -> ThreadDesc) : M X Cap :=
  r ← slots_consecutive fuel n;
  match r with
  | None => no_slots pool_idx no_slot
  | Some b =>
      mod_desc pool_idx (record b) ≫= fun _ =>
      for_pages (Z.to_nat n) 0 (fun k =>
        or_rollback pool_idx [no_frame] (fun w => untyped_retype w ut OBJ_FRAME 0 (b + k)%u64)) ≫= fun _ =>
      mret b
  end.

Definition spawn_alloc (fuel : nat) (ut : Cap) (pages : Z) : M X (nat * Cap * Cap * Cap * Z) :=
  '(pool_idx, tcb_slot) ← spawn_objects fuel ut;
  stack_slots ← take_frames fuel pool_idx ut pages (line "[WORKER] slot_alloc(stack) failed")
    (line "[WORKER] retype stack frame failed")
    (fun b d => set_stack_frame_count (set_stack_frame_base d b) pages);
  let tls_size := thread_tls_region_size in
  let tls_pages := if 0 <? tls_size then tls_size / 0x1000 else 1 in
  tls_slots ← take_frames fuel pool_idx ut tls_pages (line "[WORKER] slot_alloc(TLS) failed")
    (line "[WORKER] retype TLS frame failed")
    (fun b d => set_tls_frame_count (set_tls_frame_base d b) tls_pages);
  mret (pool_idx, tcb_slot, stack_slots, tls_slots, tls_pages).

(** Step 6: the address range and the mappings; gives the addresses of the
    stack, the IPC buffer and the TLS region. *)
Definition spawn_map (pool_idx : nat) (pages : Z) (ipc_frame_slot stack_slots tls_slots : Cap)
    (tls_pages : Z) : M X (Z * Z * Z) :=
  region_base ← alloc_worker_va;
  let stack_va := (region_base + 0x1000)%u64 in
  let ipc_va := (stack_va + pages * 0x1000)%u64 in
  let tls_va := (ipc_va + 0x1000)%u64 in
  mod_desc pool_idx (fun d =>
    let d := set_stack_base d stack_va in
    let d := set_stack_size d (pages * 0x1000)%u64 in
    let d := set_ipc_buf_vaddr d ipc_va in
    let d := set_tls_region d tls_va in
    set_tls_region_size d (tls_pages * 0x1000)%u64) ≫= fun _ =>
  for_pages (Z.to_nat pages) 0 (fun k =>
    or_rollback pool_idx [line "[WORKER] stack map failed"] (fun w =>
      vspace_map w CAP_SELF_VSPACE (stack_slots + k)%u64 (stack_va + k * 0x1000)%u64 MAP_FLAGS)) ≫= fun _ =>
  or_rollback pool_idx [line "[WORKER] IPC map failed"] (fun w =>
    vspace_map w CAP_SELF_VSPACE ipc_frame_slot ipc_va MAP_FLAGS) ≫= fun _ =>
  for_pages (Z.to_nat tls_pages) 0 (fun k =>
    or_rollback pool_idx [line "[WORKER] TLS map failed"] (fun w =>
      vspace_map w CAP_SELF_VSPACE (tls_slots + k)%u64 (tls_va + k * 0x1000)%u64 MAP_FLAGS)) ≫= fun _ =>
  mret (stack_va, ipc_va, tls_va).

(** Step 7: the TLS block; gives the thread pointer. *)
Definition spawn_tls (pool_idx : nat) (ipc_va tls_va tls_pages : Z) : M X Z :=
  '(tp, tls_block) ← (fun s =>
    let '(r, m) := init_worker_tls (p_mem (proc s)) tls_va (tls_pages * 0x1000)%u64 in
    (Value r, with_proc s (with_mem (proc s) m)));
  mod_desc pool_idx (fun d => set_tls_ptr d tls_block) ≫= fun _ =>
  tid ← get_thread_id pool_idx;
  mod_mem (fun m =>
    let m := store64 m (tls_block + off_desc) (desc_addr pool_idx) in
    let m := store64 m (tls_block + off_thread_id) tid in
    let m := store64 m (tls_block + off_ipc_buffer) ipc_va in
    store32 m (tls_block + off_send_cap_count) 0) ≫= fun _ =>
  mret tp.

(** Steps 8 to 12: the TCB, the initial stack, the scheduling context, the slot
    table and the start. *)
Definition spawn_start (worker_idx pool_idx : nat) (tcb_slot sc_slot : Cap)
    (stack_va ipc_va pages tp budget_us period_us depth : Z) : M X Z :=
  or_rollback pool_idx [line "[WORKER] tcb_set_space failed"] (fun w =>
    if 0 <? depth then tcb_set_space_with_depth w tcb_slot CAP_SELF_CSPACE CAP_SELF_VSPACE depth
    else tcb_set_space w tcb_slot CAP_SELF_CSPACE CAP_SELF_VSPACE) ≫= fun _ =>
  or_rollback pool_idx [line "[WORKER] tcb_set_ipc_buffer failed"] (fun w =>
    tcb_set_ipc_buffer w tcb_slot ipc_va) ≫= fun _ =>
  or_rollback pool_idx [line "[WORKER] tcb_set_tls_base failed"] (fun w =>
    tcb_set_tls_base w tcb_slot tp) ≫= fun _ =>
  let stack_top := (stack_va + pages * 0x1000)%u64 in
  let trampoline_rsp := (stack_top - 32)%u64 in
  mod_mem (fun m =>
    let m := store64 m trampoline_rsp (Z.of_nat worker_idx) in
    let m := store64 m (trampoline_rsp + 8) (Z.of_nat pool_idx) in
    let m := store64 m (trampoline_rsp + 16) 0 in
    store64 m (trampoline_rsp + 24) 0) ≫= fun _ =>
  or_rollback pool_idx [line "[WORKER] tcb_configure failed"] (fun w =>
    tcb_configure w tcb_slot worker_entry_trampoline trampoline_rsp ipc_va) ≫= fun _ =>
  or_rollback pool_idx [line "[WORKER] sc_configure failed"] (fun w =>
    sc_configure w sc_slot budget_us period_us) ≫= fun _ =>
  or_rollback pool_idx [line "[WORKER] sc_bind failed"] (fun w => sc_bind w sc_slot tcb_slot) ≫= fun _ =>
  state_ (fun s => with_slots s (<[worker_idx := mkSlot pool_idx true]> (slots s))) ≫= fun _ =>
  err ← kcall (fun w => tcb_resume w tcb_slot);
  if err =? 0 then mret 0
  else
    puts (line "[WORKER] tcb_resume failed") ≫= fun _ =>
    state_ (fun s => with_slots s (<[worker_idx := mkSlot pool_idx false]> (slots s))) ≫= fun _ =>
    rollback_worker pool_idx ≫= fun _ => return_ err.

Definition spawn_worker (fuel worker_idx : nat) (ut : Cap) (budget_us period_us pages depth : Z)
    : M X Z :=
  '(pool_idx, tcb_slot, stack_slots, tls_slots, tls_pages) ← spawn_alloc fuel ut pages;
  let sc_slot := (tcb_slot + 1)%u64 in
  let ipc_frame_slot := (tcb_slot + 2)%u64 in
  '(stack_va, ipc_va, tls_va) ←
    spawn_map pool_idx pages ipc_frame_slot stack_slots tls_slots tls_pages;
  tp ← spawn_tls pool_idx ipc_va tls_va tls_pages;
  spawn_start worker_idx pool_idx tcb_slot sc_slot stack_va ipc_va pages tp budget_us period_us depth.
End ops.

(** ** Exit and reaping *)

Section lifecycle.
Context {X : Type} `{Kernel} `{Slices} `{!Image X} `{!Hooks X}.
Implicit Types s : Pool X.

Definition slot_at s (i : nat) : WorkerSlot := default WorkerSlot_zeroed (slots s !! i).

(** Worker #0 prints and yields for ever; the others leave through
    [thread_exit].  The state is the one in which the worker stops. *)
Definition worker_exit (worker_idx : nat) s : Pool X :=
  let print t := set_world s (serial_puts (p_world (proc s)) t) in
  if Nat.eqb worker_idx 0 then print (line "[WORKER] worker #0 exit -- _exit(1)")
  else
    let i := thread_pool_idx (slot_at s worker_idx) in
    let p := set_desc (proc s) i (set_state (thread_desc (proc s) i) TD_EXITED) in
    with_proc s (with_world p (snd (syscall (p_world p) SYS_THREAD_EXIT 0 0 0 0 0 0))).

Definition reap_worker s (i : nat) : Pool X :=
  let ws := slot_at s i in
  if negb (active ws) then s
  else
    let j := thread_pool_idx ws in
    let d := thread_desc (proc s) j in
    if td_state d =? TD_EXITED then
      let p := set_desc (proc s) j (set_state d TD_REAPING) in
      let p := if negb (td_tcb_cap d =? 0) then with_world p (snd (tcb_suspend (p_world p) (td_tcb_cap d)))
               else p in
      let s := with_proc s (cleanup_thread p j) in
      with_slots s (<[i := mkSlot (thread_pool_idx ws) false]> (slots s))
    else s.

Definition reap_exited_workers s : Pool X :=
  fold_left reap_worker (seq 1 (c_worker_count (cfg s) - 1)) s.

Definition active_worker_count s : nat :=
  length (List.filter (fun i =>
    active (slot_at s i) &&
    (td_state (thread_desc (proc s) (thread_pool_idx (slot_at s i))) =? TD_RUNNING))
    (seq 0 (c_worker_count (cfg s)))).

(** [current_worker_index] of the thread whose thread-pointer register is [reg]. *)
Definition current_worker_index s (reg : Z) : nat :=
  match current_tls (proc s) reg with
  | None => 0
  | Some tls =>
      let desc := desc_from_tls (p_mem (proc s)) tls in
      if desc =? 0 then 0%nat
      else
        default 0%nat (List.find (fun i =>
          active (slot_at s i) && (desc_addr (thread_pool_idx (slot_at s i)) =? desc))
          (seq 0 MAX_WORKERS))
  end.

(** ** The receive loop *)

Record Locals := mkLocals { l_msg : TronaMsg; l_reply : TronaMsg; l_badge : Z; l_source : Z }.

(** The two loops of [worker_ipc_loop]: waiting for the first request, and
    serving with a request at hand. *)
Inductive LoopState := First (l : Locals) | Serving (l : Locals).

Inductive Event :=
| Received (m : TronaMsg) (bdg src : Z)     (* a receive returned 0 *)
| Dispatched (m : TronaMsg) (bdg src : Z)   (* the handler was called *)
| TimedOut.                                 (* a receive was cancelled or timed out *)

Inductive StepResult := Next (ls : LoopState) (s : Pool X) | Exited (s : Pool X).

Definition timeout_of s (worker_idx : nat) : Z * Pool X :=
  match c_next_timeout_ns (cfg s) with
  | Some f => call_timeout_ns f worker_idx s
  | None => (0, s)
  end.

Definition run_timeout_hook s (worker_idx : nat) : Pool X :=
  match c_on_timeout (cfg s) with Some f => call_hook f worker_idx s | None => s end.

Definition unpack (l : Locals) (r : Z * option TronaMsg * option Z * option Z * World) s
    : Z * Locals * Pool X :=
  let '(err, m, b, src, w) := r in
  (err, mkLocals (default TronaMsg_zeroed m) (l_reply l) (default 0 b) (default 0 src), set_world s w).

(** [recv_any_ctx] or its timed form, into the locals. *)
Definition recv_any s (l : Locals) (timeout : Z) : Z * Locals * Pool X :=
  let eps := Some (c_endpoints (cfg s)) in
  let n := c_endpoint_count (cfg s) in
  let w := p_world (proc s) in
  if timeout =? 0 then
    unpack l (recv_any_ctx w eps n (Some (l_msg l)) (Some (l_badge l)) (Some (l_source l))) s
  else
    unpack l (recv_any_timed_ctx w eps n timeout (Some (l_msg l)) (Some (l_badge l))
                (Some (l_source l))) s.

Definition reply_recv_any s (l : Locals) (timeout : Z) : Z * Locals * Pool X :=
  let eps := Some (c_endpoints (cfg s)) in
  let n := c_endpoint_count (cfg s) in
  let w := p_world (proc s) in
  if timeout =? 0 then
    unpack l (reply_recv_any_ctx w eps n (l_reply l) (Some (l_msg l)) (Some (l_badge l))
                (Some (l_source l))) s
  else
    unpack l (reply_recv_any_timed_ctx w eps n timeout (l_reply l) (Some (l_msg l))
                (Some (l_badge l)) (Some (l_source l))) s.

Definition timed_out (err : Z) : bool := (err =? as_i32 TRONA_CANCELLED) || (err =? as_i32 TRONA_TIMED_OUT).

Definition received (l : Locals) : Event := Received (l_msg l) (l_badge l) (l_source l).

(** One turn of the loop the worker is in, with the events of the turn. *)
Definition loop_step (h : Z) (worker_idx : nat) (ls : LoopState) s : StepResult * list Event :=
  match ls with
  | First l =>
      let '(t, s) := timeout_of s worker_idx in
      let '(err, l, s) := recv_any s l t in
      if timed_out err then (Next (First l) (run_timeout_hook s worker_idx), [TimedOut])
      else if negb (err =? 0) then
        (Exited (worker_exit worker_idx
           (set_world s (serial_puts (p_world (proc s)) (line "[WORKER] initial recv failed")))), [])
      else (Next (Serving l) s, [received l])
  | Serving l =>
      let ev := Dispatched (l_msg l) (l_badge l) (l_source l) in
      let '(control, m, r, s) := call_handler h s (l_msg l) (l_badge l) (l_source l) (l_reply l) in
      let l := mkLocals m r (l_badge l) (l_source l) in
      match control with
      | Exit => (Exited (worker_exit worker_idx s), [ev])
      | _ =>
          let '(t, s) := timeout_of s worker_idx in
          let '(err, l, s) :=
            match control with Reply => reply_recv_any s l t | _ => recv_any s l t end in
          if timed_out err then (Next (Serving l) (run_timeout_hook s worker_idx), [ev; TimedOut])
          else
            let reap s := if Nat.eqb worker_idx 0 then reap_exited_workers s else s in
            if negb (err =? 0) then
              let '(err2, l, s) := recv_any s l 0 in
              if negb (err2 =? 0) then
                (Exited (worker_exit worker_idx
                   (set_world s (serial_puts (p_world (proc s)) (line "[WORKER] recv recovery failed")))), [ev])
              else (Next (Serving l) (reap s), [ev; received l])
            else (Next (Serving l) (reap s), [ev; received l])
      end
  end.

Definition initial_locals : Locals := mkLocals TronaMsg_zeroed TronaMsg_zeroed 0 0.

Fixpoint loop_run (n : nat) (h : Z) (worker_idx : nat) (ls : LoopState) s
    : StepResult * list Event :=
  match n with
  | O => (Next ls s, [])
  | S n' =>
      match loop_step h worker_idx ls s with
      | (Next ls' s', ev) => let '(r, ev') := loop_run n' h worker_idx ls' s' in (r, ev ++ ev')
      | (Exited s', ev) => (Exited s', ev)
      end
  end.

(** [worker_ipc_loop], its first [n] turns; [None] when no handler is set and
    the thread yields for ever. *)
Definition worker_ipc_loop (n worker_idx : nat) s : option (StepResult * list Event) :=
  match c_handler (cfg s) with
  | None => None
  | Some h =>
      let s := match c_on_enter (cfg s) with Some f => call_hook f worker_idx s | None => s end in
      Some (loop_run n h worker_idx (First initial_locals) s)
  end.

(** [worker_entry_helper]: a worker's first instructions, before the loop. *)
Definition worker_entry_helper s : Pool X := with_proc s (with_active (proc s) true).

(** ** Starting the pool *)

Definition clamp (v lo hi : nat) : nat := Nat.min (Nat.max v lo) hi.

Definition effective_count (c : WorkerConfig) : nat := clamp (worker_count c) 1 MAX_WORKERS.
Definition effective_period (c : WorkerConfig) : Z :=
  if pool_period_us c =? 0 then DEFAULT_PERIOD_US else pool_period_us c.
Definition budget_per_worker (c : WorkerConfig) : Z :=
  let n := Z.of_nat (effective_count c) in
  if pool_budget_us c =? 0 then
    let auto := effective_period c / n in if auto <? MIN_BUDGET_US then MIN_BUDGET_US else auto
  else
    let per := pool_budget_us c / n in if per <? MIN_BUDGET_US then MIN_BUDGET_US else per.
Definition effective_stack_pages (c : WorkerConfig) : Z :=
  if stack_pages c =? 0 then DEFAULT_STACK_PAGES else stack_pages c.

Definition snapshot (c : WorkerConfig) (eps : list Cap) (h : Z) : WorkerCfgSnapshot :=
  mkCfg (take (endpoint_count c) eps ++ replicate (MAX_WORKER_ENDPOINTS - endpoint_count c) 0)
    (endpoint_count c) (Some h) (effective_count c) (on_enter c) (next_timeout_ns c) (on_timeout c).

Definition adopt_main s : Pool X :=
  let s := with_slots s (<[0%nat := mkSlot 0 true]> (slots s)) in
  with_proc s (set_desc (proc s) 0 (set_owner (thread_desc (proc s) 0) Worker)).

(** The workers of a list of indices; a failed creation is reported and skipped. *)
Fixpoint spawn_workers (fuel : nat) (c : WorkerConfig) (l : list nat) s : option (Pool X) :=
  match l with
  | [] => Some s
  | i :: l' =>
      match spawn_worker fuel i (untyped c) (budget_per_worker c) (effective_period c)
              (effective_stack_pages c) (cspace_depth c) s with
      | (Value _, s) => spawn_workers fuel c l' s
      | (Return err, s) =>
          let w := serial_puts (p_world (proc s)) (lit "[WORKER] spawn failed idx=") in
          let w := serial_dec w (Z.of_nat i) in
          let w := serial_puts w (lit " err=") in
          let w := serial_hex w (as_u64 err) in
          let w := serial_puts w (line "") in
          spawn_workers fuel c l' (set_world s w)
      | (Stuck, _) => None
      end
  end.

Inductive RunResult := YieldForever (s : Pool X) | EnterLoop (s : Pool X) | RunStuck.

(** [run_workers] up to the point where the main thread enters its loop as
    worker #0. *)
Definition run_workers (fuel : nat) (c : WorkerConfig) (h : Z) s : RunResult :=
  let print t := YieldForever (set_world s (serial_puts (p_world (proc s)) t)) in
  if negb (p_active (proc s)) then
    print (line "[WORKER] FATAL: THREAD_LOCAL_ACTIVE not set - TLS not initialized")
  else
    match endpoints c with
    | None => print (line "[WORKER] invalid endpoint count")
    | Some eps =>
        if Nat.eqb (endpoint_count c) 0 || (MAX_WORKER_ENDPOINTS <? endpoint_count c)%nat then
          print (line "[WORKER] invalid endpoint count")
        else
          let s := adopt_main (with_cfg s (snapshot c eps h)) in
          match spawn_workers fuel c (seq 1 (effective_count c - 1)) s with
          | Some s => EnterLoop s
          | None => RunStuck
          end
    end.
End lifecycle.
Arguments StepResult : clear implicits.
Arguments RunResult : clear implicits.
