(* ===== verification/WorkerTls.v ===== *)
(** The thread-local area of a worker: [thread_tls_region_size] reserves enough
    for the layout that [init_worker_tls] computes, and a new worker finds its
    block and its initialised variables there. *)

From S2P Require Import Prelude Consts Kernel SlotAlloc Invoke Ipc InvokeOps Protocol Serial ByteMem Tls TlsTheorems Worker.

Section place.
Context {X : Type} `{!Image X}.

(** The alignment the linker asks for: a power of two; where the area starts
    with the header (AArch64) it can be at most a page. *)
Definition align_ok : Prop :=
  pow2 static_tls_align /\ static_tls_align <= 2 ^ 32 /\
  match arch with X86_64 => True | AArch64 => static_tls_align <= 4096 end.

Definition region_align : Z := Z.max static_tls_align 16.

Lemma region_align_pow2 : align_ok -> pow2 region_align /\ 16 <= region_align <= 2 ^ 32.
Proof.
  intros (Ha & Hle & _). split; [apply pow2_max; [done|by exists 4]|]. unfold region_align. lia.
Qed.

Lemma align_down_pow2 v a :
  pow2 a -> 0 <= v < 2 ^ 64 -> v - a < align_down v a <= v /\ align_down v a mod a = 0.
Proof.
  intros (k & Hk & ->) Hv. unfold align_down. pose proof (Z.pow_pos_nonneg 2 k ltac:(lia) ltac:(lia)).
  destruct (Z.leb_spec (2 ^ k) 1).
  { assert (2 ^ k = 1) as -> by lia. rewrite Z.mod_1_r. lia. }
  rewrite land_bnot_align by lia. pose proof (Z.mod_pos_bound v (2 ^ k) ltac:(lia)). split; [lia|].
  rewrite Zminus_mod, Z.mod_mod, Z.sub_diag by lia. apply Z.mod_0_l. lia.
Qed.

Lemma align_down_id v a : pow2 a -> 0 <= v < 2 ^ 64 -> v mod a = 0 -> align_down v a = v.
Proof.
  intros (k & Hk & ->) Hv Hm. unfold align_down. case_if; [done|].
  rewrite land_bnot_align, Hm by lia. lia.
Qed.

Lemma page_pow2 : pow2 4096.
Proof. by exists 12. Qed.

(** The size of the region: whole pages, and enough for any layout. *)
Lemma region_size_bounds :
  align_ok -> 0 <= static_tls_total_memsz <= MAX_ELF_TLS_SIZE ->
  let need := match arch with
              | X86_64 => static_tls_total_memsz + TCB_SIZE + (region_align - 1)
              | AArch64 => 16 + static_tls_total_memsz + (TCB_ALIGN - 1) + TCB_SIZE + region_align
              end in
  need <= thread_tls_region_size < need + 4096 /\ thread_tls_region_size mod 4096 = 0.
Proof.
  intros Ha Ht. destruct (region_align_pow2 Ha) as [Hp Hr].
  unfold thread_tls_region_size, abi_tcb_size, MAX_ELF_TLS_SIZE, TCB_ALIGN, TCB_SIZE in *. fold region_align.
  destruct arch; cbn zeta.
  - rewrite (Z.max_l region_align 8) by lia. rewrite wrap_small by lia.
    apply (align_up_pow2 _ 4096 page_pow2); lia.
  - rewrite wrap_small by lia. apply (align_up_pow2 _ 4096 page_pow2); lia.
Qed.

Lemma worker_place_ok tls_va :
  align_ok -> static_tls_ok ->
  0 < tls_va -> tls_va mod 4096 = 0 -> tls_va + thread_tls_region_size < 2 ^ 63 ->
  let '(tp, blk) := worker_tls_place tls_va thread_tls_region_size in
  tls_placed tls_va (tls_va + thread_tls_region_size) tp blk.
Proof.
  intros Ha Hok Hva Hmod Hend. pose proof (so_total Hok) as Ht.
  destruct (region_align_pow2 Ha) as [Hp Hr].
  pose proof (region_size_bounds Ha ltac:(lia)) as [Hsz _].
  unfold worker_tls_place. fold region_align.
  unfold MAX_ELF_TLS_SIZE, TCB_ALIGN, TCB_SIZE in *. destruct Ha as (_ & _ & Ha).
  destruct arch eqn:Earch; rewrite ?Earch in Hsz, Ha.
  - rewrite (Z.max_l region_align 8), (wrap_small 64 (tls_va + thread_tls_region_size)) by lia.
    unfold sat_sub. destruct (Z.ltb_spec (tls_va + thread_tls_region_size) 272); [lia|].
    set (e := tls_va + thread_tls_region_size - 272).
    destruct (align_down_pow2 e region_align Hp ltac:(lia)) as [Hb Hm].
    split; unfold tls_hi, tls_lo, TCB_SIZE, TCB_ALIGN; rewrite ?Earch; try lia.
    split; [done|]. apply (pow2_divide 8 region_align); [by exists 3|done|lia|done].
  - assert (Htp : align_down tls_va region_align = tls_va).
    { apply align_down_id; [done|lia|].
      apply (pow2_divide region_align 4096); [done|apply page_pow2|unfold region_align; lia|done]. }
    rewrite Htp. unfold sat_add, U64_MAX, abi_tcb_size. rewrite Earch.
    destruct (Z.ltb_spec (2 ^ 64 - 1) (tls_va + 16)); [lia|].
    destruct (Z.ltb_spec (2 ^ 64 - 1) (tls_va + 16 + static_tls_total_memsz)); [lia|].
    destruct (align_up_pow2 (tls_va + 16 + static_tls_total_memsz) 8) as [Hb Hm]; [by exists 3|lia|lia|].
    split; unfold tls_hi, tls_lo, TCB_SIZE, TCB_ALIGN; rewrite ?Earch; try lia.
    split; [|done]. rewrite <- Htp. by apply (align_down_pow2 tls_va region_align Hp ltac:(lia)).
Qed.
End place.

(** a new worker's thread-local area.  For a static TLS layout as the linker
    exports it and a page-aligned region of [thread_tls_region_size] bytes,
    [init_worker_tls] places the ABI header, the static TLS and the 272-byte
    block inside the region, without overlap and aligned; a thread whose thread
    pointer is the returned one finds its block through it; every variable of
    every module starts with the module's initial image or zero, at the address
    [tls_addr_from_tp] computes; the other fields of the block are zero; and no
    byte outside the region is written. *)
Theorem worker_tls_image {X : Type} {I : Image X} (m m' : Mem) (tls_va tp blk : Z)
    (Halign : align_ok) (Hok : static_tls_ok) (Hmods : static_tls_module_count <> 0%nat)
    (Hva : 0 < tls_va) (Hpage : tls_va mod 4096 = 0)
    (Hend : tls_va + thread_tls_region_size < 2 ^ 63)
    (Htmpl : forall i k, live_module i -> 0 <= k < filesz (static_tls_module i) ->
       let a := template_addr (static_tls_module i) + k in
       a < tls_va \/ tls_va + thread_tls_region_size <= a)
    (Hinit : init_worker_tls m tls_va thread_tls_region_size = ((tp, blk), m')) :
  tls_placed tls_va (tls_va + thread_tls_region_size) tp blk /\
  runtime_tcb_from_tp m' (read_tp m' tp) = blk /\
  (forall i o, live_module i -> 0 <= o < memsz (static_tls_module i) ->
     m' (tls_addr_from_tp tp (module_id (static_tls_module i)) o) = initial_byte m i o) /\
  (forall x, blk + 8 <= x < blk + TCB_SIZE -> m' x = 0) /\
  same_outside tls_va (tls_va + thread_tls_region_size) m m'.
Proof.
  pose proof (worker_place_ok tls_va Halign Hok Hva Hpage Hend) as Hpl.
  unfold init_worker_tls in Hinit. destruct (worker_tls_place _ _) as [tp' blk'].
  injection Hinit as -> -> <-. split; [done|].
  pose proof (pl_block _ _ _ _ Hpl). pose proof (pl_tp _ _ _ _ Hpl). pose proof (so_total Hok).
  apply (install_spec m tls_va (tls_va + thread_tls_region_size) tp blk); try done; try lia.
  unfold tls_hi in *. destruct arch; lia.
Qed.

(** A process with two modules: 40 bytes of which 8 are initialised, and 16
    bytes of which 4 are. *)
Definition toy_tls : TlsInfo :=
  mkTlsInfo 0 0 64 16 2 [mkModule 1 0x8000 8 40 (-64); mkModule 2 0x8100 4 16 (-24)].

#[local] Instance toy_image : Image unit := {|
  arch := X86_64; tls_info := toy_tls; pool_addr := 0x5000; desc_size := 168; main_block := 0x9000;
  pm_ep := 3; run_fn _ _ p := p |}.

Lemma toy_live i : live_module i -> i = 0%nat \/ i = 1%nat.
Proof. intros [Hi _]. change (i < 2)%nat in Hi. lia. Qed.

Lemma toy_tls_ok : static_tls_ok.
Proof.
  split.
  - by vm_compute.
  - intros i [-> | ->]%toy_live; vm_compute; intuition discriminate.
  - intros i j [-> | ->]%toy_live [-> | ->]%toy_live Hne; try done; vm_compute; intuition discriminate.
  - intros i j [-> | ->]%toy_live Hj; change (j < 2)%nat in Hj;
      destruct j as [|[|j]]; try done; lia.
Qed.

Definition toy_mem : Mem := fun a => if a =? 0x8003 then 77 else if a =? 0x8101 then 88 else 255.

Lemma worker_tls_image_witness :
  let '((tp, blk), m') := init_worker_tls toy_mem 0x600000 thread_tls_region_size in
  m' (tls_addr_from_tp tp 1 3) = 77 /\ m' (tls_addr_from_tp tp 2 1) = 88 /\
  m' (tls_addr_from_tp tp 1 20) = 0 /\ m' (blk + off_errno) = 0 /\
  runtime_tcb_from_tp m' (read_tp m' tp) = blk.
Proof.
  destruct (init_worker_tls _ _ _) as [[tp blk] m'] eqn:E.
  destruct (@worker_tls_image unit toy_image toy_mem m' 0x600000 tp blk) as (_ & Hself & Hv & Hz & _);
    [..|exact E|].
  - split; [by exists 4|]. by vm_compute.
  - apply toy_tls_ok.
  - done.
  - done.
  - done.
  - by vm_compute.
  - intros i k [-> | ->]%toy_live Hk; cbn in Hk; left; cbn; lia.
  - assert (L0 : live_module 0) by (split; [vm_compute; lia|by vm_compute]).
    assert (L1 : live_module 1) by (split; [vm_compute; lia|by vm_compute]).
    split; [exact (Hv 0%nat 3 L0 ltac:(vm_compute; intuition discriminate))|].
    split; [exact (Hv 1%nat 1 L1 ltac:(vm_compute; intuition discriminate))|].
    split; [exact (Hv 0%nat 20 L0 ltac:(vm_compute; intuition discriminate))|].
    split; [|exact Hself]. apply Hz. unfold off_errno, TCB_SIZE. lia.
Defined.
