(* ===== verification/WorkerSpawn.v ===== *)
(** Resources of a worker: creation either succeeds and the descriptor records
    every slot, page and object taken, or everything taken is given back; and
    reaping an exited worker gives back exactly what its creation took. *)

From stdpp Require Import gmap.
From S2P Require Import Prelude Consts Kernel SlotAlloc SlotPool Invoke SlotExpand Ledger SlotRange Ipc InvokeOps Protocol Serial ByteMem Tls Worker.
Import String.StringSyntax.

(** ** What a descriptor records *)

Definition in_range (b n x : Z) : Prop := b <> 0 /\ b <= x < b + n.

(** The slots, the capabilities and the pages a descriptor accounts for. *)
Definition slots_of (d : ThreadDesc) (x : Z) : Prop :=
  in_range (td_tcb_cap d) 3 x \/
  in_range (td_stack_frame_base d) (td_stack_frame_count d) x \/
  in_range (td_tls_frame_base d) (td_tls_frame_count d) x.

Definition caps_of (d : ThreadDesc) (x : Z) : Prop :=
  (td_tcb_cap d <> 0 /\ x = td_tcb_cap d) \/
  (td_sc_cap d <> 0 /\ x = td_sc_cap d) \/
  (td_ipc_frame_cap d <> 0 /\ x = td_ipc_frame_cap d) \/
  in_range (td_stack_frame_base d) (td_stack_frame_count d) x \/
  in_range (td_tls_frame_base d) (td_tls_frame_count d) x.

Definition in_region (b size va : Z) : Prop :=
  b <> 0 /\ size <> 0 /\ exists k, 0 <= k < size / 4096 /\ va = wrap 64 (b + k * 4096).

Definition pages_of (d : ThreadDesc) (va : Z) : Prop :=
  in_region (td_stack_base d) (td_stack_size d) va \/
  (td_ipc_buf_vaddr d <> 0 /\ va = td_ipc_buf_vaddr d) \/
  in_region (td_tls_region d) (td_tls_region_size d) va.

(** The ranges are ranges of words. *)
Record ranges_ok (d : ThreadDesc) : Prop := {
  ro_tcb : 0 <= td_tcb_cap d /\ td_tcb_cap d + 3 <= 2 ^ 64;
  ro_stack : 0 <= td_stack_frame_base d /\ 0 <= td_stack_frame_count d /\
             td_stack_frame_base d + td_stack_frame_count d <= 2 ^ 64;
  ro_tls : 0 <= td_tls_frame_base d /\ 0 <= td_tls_frame_count d /\
           td_tls_frame_base d + td_tls_frame_count d <= 2 ^ 64;
  ro_pages : u64 (td_stack_base d) /\ u64 (td_tls_region d) /\ 0 <= td_stack_size d /\
             0 <= td_tls_region_size d;
}.

Section release.
Context `{Kernel}.

(** ** Unmapping and deleting ranges *)

Lemma unmap_pages_ledger w0 n : forall w b (P O : Z -> Prop),
  u64 b -> ledger w0 w P O ->
  ledger w0 (unmap_pages n w b)
    (fun x => P x /\ ~ exists k, 0 <= k < Z.of_nat n /\ x = wrap 64 (b + k * 4096)) O.
Proof.
  induction n as [|n IH]; intros w b P O Hb Hl; cbn [unmap_pages].
  - eapply ledger_mono; [|done|exact Hl]. intros x Hx. split; [done|]. intros (k & ? & _). lia.
  - pose proof (ledger_unmap _ _ _ _ CAP_SELF_VSPACE b Hl) as Hl1.
    eapply ledger_mono; [|done|apply (IH _ _ _ _ (wrap_range 64 (b + 4096) ltac:(lia)) Hl1)].
    cbn beta. intros x [[Hx Hne] Hno]. split; [done|]. intros (k & Hk & ->).
    destruct (Z.eq_dec k 0) as [->|].
    + apply Hne. rewrite Z.mul_0_l, Z.add_0_r. apply wrap_small. exact Hb.
    + apply Hno. exists (k - 1). split; [lia|]. rewrite wrap_add_l. f_equal. lia.
Qed.

Lemma unmap_region_ledger w0 w b size (P O : Z -> Prop) :
  u64 b -> 0 <= size -> ledger w0 w P O ->
  ledger w0 (unmap_region w b size) (fun x => P x /\ ~ in_region b size x) O.
Proof.
  intros Hb Hs Hl. unfold unmap_region, in_region.
  destruct (Z.eqb_spec b 0); cbn [negb andb].
  { eapply ledger_mono; [|done|exact Hl]. (cbn beta; tauto). }
  destruct (Z.eqb_spec size 0); cbn [negb andb].
  { eapply ledger_mono; [|done|exact Hl]. (cbn beta; tauto). }
  eapply ledger_mono; [|done|by apply unmap_pages_ledger]. intros x [Hx Hno]. split; [done|].
  intros (_ & _ & k & Hk & E). apply Hno. exists k. rewrite Z2Nat.id by (apply Z.div_pos; lia). done.
Qed.

Lemma unmap_thread_ledger w0 w d (P O : Z -> Prop) :
  ranges_ok d -> ledger w0 w P O ->
  ledger w0 (unmap_thread w d) (fun x => P x /\ ~ pages_of d x) O.
Proof.
  intros Hr Hl. destruct (ro_pages _ Hr) as (? & ? & ? & ?). unfold unmap_thread.
  assert (Hi : forall w P, ledger w0 w P O ->
    ledger w0 (unmap_ipc w (td_ipc_buf_vaddr d)) (fun x => P x /\ ~ (td_ipc_buf_vaddr d <> 0 /\ x = td_ipc_buf_vaddr d)) O).
  { intros w' P' Hl'. unfold unmap_ipc. destruct (Z.eqb_spec (td_ipc_buf_vaddr d) 0); cbn [negb].
    - eapply ledger_mono; [|done|exact Hl']. (cbn beta; tauto).
    - eapply ledger_mono; [|done|apply (ledger_unmap _ _ _ _ _ _ Hl')]. (cbn beta; tauto). }
  eapply ledger_mono; [|done|].
  2: { apply unmap_region_ledger; [done..|]. apply Hi. by apply unmap_region_ledger. }
  cbn beta. unfold pages_of. (cbn beta; tauto).
Qed.

Lemma delete_cap_ledger w0 st w c (P O : Z -> Prop) :
  ledger w0 w P O -> ledger w0 (delete_cap st w c) P (fun x => O x /\ ~ (c <> 0 /\ x = c)).
Proof.
  intros Hl. unfold delete_cap. destruct (Z.eqb_spec c 0); cbn [negb].
  - eapply ledger_mono; [done| |exact Hl]. (cbn beta; tauto).
  - eapply ledger_mono; [done| |apply (ledger_delete _ st _ _ _ _ _ Hl)]. (cbn beta; tauto).
Qed.

Lemma delete_caps_ledger w0 st n : forall w b (P O : Z -> Prop),
  0 <= b -> b + Z.of_nat n <= 2 ^ 64 -> ledger w0 w P O ->
  ledger w0 (delete_caps n st w b) P (fun x => O x /\ ~ b <= x < b + Z.of_nat n).
Proof.
  induction n as [|n IH]; intros w b P O Hb Hbn Hl; cbn [delete_caps].
  - eapply ledger_mono; [done| |exact Hl]. intros x Hx. split; [done|lia].
  - pose proof (ledger_delete _ st _ _ _ CAP_SELF_CSPACE b Hl) as Hl1.
    destruct n as [|n]; cbn [delete_caps] in *.
    { eapply ledger_mono; [done| |exact Hl1]. intros x [? ?]. split; [done|lia]. }
    rewrite wrap_small by lia.
    eapply ledger_mono; [done| |apply (IH _ (b + 1) _ _ ltac:(lia) ltac:(lia) Hl1)].
    cbn beta. intros x [[? ?] ?]. split; [done|lia].
Qed.

Lemma release_frames_spec w0 st w b n (P O : Z -> Prop) :
  slots_ready st -> 0 <= b -> 0 <= n -> b + n <= 2 ^ 64 -> ledger w0 w P O ->
  let '(st', w') := release_frames st w b n in
  slots_ready st' /\ (forall x, allocated st' x <-> allocated st x /\ ~ in_range b n x) /\
  ledger w0 w' P (fun x => O x /\ ~ in_range b n x).
Proof.
  intros Hr Hb Hn Hbn Hl. unfold release_frames, in_range. destruct (Z.eqb_spec b 0); cbn [negb].
  - split; [done|]. split; [(cbn beta; tauto)|]. eapply ledger_mono; [done| |exact Hl]. (cbn beta; tauto).
  - destruct (free_range_freed st b n Hr Hb Hn Hbn) as [Hr' Ha]. split; [done|].
    split; [intros x; rewrite Ha; (cbn beta; tauto)|].
    eapply ledger_mono; [done| |apply (delete_caps_ledger w0 st (Z.to_nat n) w b P O)]; [|lia..|done].
    cbn beta. rewrite Z2Nat.id by lia. (cbn beta; tauto).
Qed.

(** Releasing a descriptor gives back its slots and leaves none of its pages
    and capabilities. *)
Lemma release_worker_spec w0 st w d (P O : Z -> Prop) :
  slots_ready st -> ranges_ok d -> ledger w0 w P O ->
  let '(st', w') := release_worker st w d in
  slots_ready st' /\ (forall x, allocated st' x <-> allocated st x /\ ~ slots_of d x) /\
  ledger w0 w' (fun x => P x /\ ~ pages_of d x) (fun x => O x /\ ~ caps_of d x).
Proof.
  intros Hr Hd Hl. unfold release_worker. destruct Hd as [[? ?] (? & ? & ?) (? & ? & ?) Hp].
  pose proof (unmap_thread_ledger w0 w d P O ltac:(by split) Hl) as Hl1.
  pose proof (delete_cap_ledger w0 st _ (td_tcb_cap d) _ _ Hl1) as Hl2.
  pose proof (delete_cap_ledger w0 st _ (td_sc_cap d) _ _ Hl2) as Hl3.
  pose proof (delete_cap_ledger w0 st _ (td_ipc_frame_cap d) _ _ Hl3) as Hl4.
  set (st1 := if negb (td_tcb_cap d =? 0) then _ else st).
  assert (Hst1 : slots_ready st1 /\ (forall x, allocated st1 x <-> allocated st x /\ ~ in_range (td_tcb_cap d) 3 x)).
  { unfold st1, in_range. destruct (Z.eqb_spec (td_tcb_cap d) 0); cbn [negb]; [(cbn beta; tauto)|].
    destruct (free_range_freed st (td_tcb_cap d) 3 Hr) as [Hr' Ha]; [lia..|]. split; [done|].
    intros x. rewrite Ha. (cbn beta; tauto). }
  destruct Hst1 as [Hr1 Ha1].
  pose proof (release_frames_spec w0 st1 _ (td_stack_frame_base d) (td_stack_frame_count d) _ _
    Hr1 ltac:(lia) ltac:(lia) ltac:(lia) Hl4) as Hf2.
  destruct (release_frames st1 _ _ _) as [st2 w2]. destruct Hf2 as (Hr2 & Ha2 & Hl5).
  pose proof (release_frames_spec w0 st2 w2 (td_tls_frame_base d) (td_tls_frame_count d) _ _
    Hr2 ltac:(lia) ltac:(lia) ltac:(lia) Hl5) as Hf3.
  destruct (release_frames st2 _ _ _) as [st3 w3]. destruct Hf3 as (Hr3 & Ha3 & Hl6).
  split; [done|]. split.
  - intros x. rewrite Ha3, Ha2, Ha1. unfold slots_of. (cbn beta; tauto).
  - eapply ledger_mono; [| |exact Hl6]; cbn beta; unfold caps_of; tauto.
Qed.
End release.

(** ** Hoare rules for [spawn_worker] *)

(** A descriptor that accounts for nothing. *)
Record desc_clean (d : ThreadDesc) : Prop := {
  dc_caps : td_tcb_cap d = 0 /\ td_sc_cap d = 0 /\ td_ipc_frame_cap d = 0;
  dc_stack : td_stack_base d = 0 /\ td_stack_size d = 0;
  dc_tls : td_tls_region d = 0 /\ td_tls_region_size d = 0;
  dc_ipc : td_ipc_buf_vaddr d = 0;
  dc_frames : td_stack_frame_base d = 0 /\ td_stack_frame_count d = 0 /\
              td_tls_frame_base d = 0 /\ td_tls_frame_count d = 0;
  dc_cleanup : td_personality_cleanup d = None;
}.

Lemma thread_desc_set {X} (p : Proc X) i d j :
  (i < length (p_pool p))%nat ->
  thread_desc (set_desc p i d) j = if decide (i = j) then d else thread_desc p j.
Proof.
  intros Hi. unfold thread_desc, set_desc. cbn. case_decide as E; [subst|].
  - by rewrite list_lookup_insert_eq.
  - by rewrite list_lookup_insert_ne.
Qed.

Lemma quiet_puts `{Kernel} `{Slices} w t : quiet w (serial_puts w t).
Proof.
  destruct (serial_puts_spec w t) as (spans & E & _). exists (map (putbuf_call t) spans).
  split; [done|]. apply Forall_forall. intros c (p & -> & _)%list_elem_of_fmap. done.
Qed.

(** A fuel for which the blocking allocation always finishes. *)
Definition fuel_enough `{Kernel} (fuel : nat) : Prop :=
  forall st w n, slots_ready st -> 0 <= n -> fst (fst (slot_alloc_consecutive fuel n st w)) <> None.

Lemma probe_fuel_enough `{Kernel} k fuel : probe_ready k -> (k + 1 < fuel)%nat -> fuel_enough fuel.
Proof. intros Hk Hf st w n Hr Hn. by eapply alloc_consecutive_total. Qed.

Section spawn.
Context {X : Type} `{Kernel} `{Slices} `{!Image X} `{!Hooks X}.
Variable s0 : Pool X.
Variable va : Z.
Implicit Types s : Pool X.

Abbreviation st0 := (p_alloc (proc s0)).
Abbreviation w0 := (p_world (proc s0)).

(** Creation in progress in pool slot [i], whose descriptor is [d] and for which
    the slots of [S] have been taken; [va] is the next free worker region. *)
Record Inv (i : nat) (d : ThreadDesc) (S : Z -> Prop) s : Prop := {
  inv_len : length (p_pool (proc s)) = MAX_THREADS;
  inv_i : (i < MAX_THREADS)%nat;
  inv_unused : td_state (thread_desc (proc s0) i) = TD_UNUSED;
  inv_desc : thread_desc (proc s) i = d;
  inv_ready : slots_ready (p_alloc (proc s));
  inv_alloc : forall x, allocated (p_alloc (proc s)) x <-> allocated st0 x \/ S x;
  inv_new : forall x, S x -> ~ allocated st0 x;
  inv_ledger : ledger w0 (p_world (proc s)) (pages_of d) (caps_of d);
  inv_ok : ranges_ok d;
  inv_others : forall j, j <> i -> thread_desc (proc s) j = thread_desc (proc s0) j;
  inv_slots : slots s = slots s0;
  inv_cfg : cfg s = cfg s0;
  inv_va : va_next s = va;
}.

Definition Own (i : nat) (d : ThreadDesc) s : Prop := Inv i d (slots_of d) s.

(** Nothing is left of an attempt. *)
Record Released s : Prop := {
  rel_len : length (p_pool (proc s)) = MAX_THREADS;
  rel_ready : slots_ready (p_alloc (proc s));
  rel_alloc : forall x, allocated (p_alloc (proc s)) x <-> allocated st0 x;
  rel_ledger : ledger w0 (p_world (proc s)) (fun _ => False) (fun _ => False);
  rel_descs : forall j, thread_desc (proc s) j = thread_desc (proc s0) j \/
    (td_state (thread_desc (proc s0) j) = TD_UNUSED /\ td_state (thread_desc (proc s) j) = TD_UNUSED);
  rel_slots : forall j, active (slot_at s j) = true -> slot_at s j = slot_at s0 j;
  rel_cfg : cfg s = cfg s0;
}.

Definition triple {A} (P : Pool X -> Prop) (m : M X A) (Q : A -> Pool X -> Prop) : Prop :=
  forall s, P s ->
  match m s with
  | (Value a, s') => Q a s'
  | (Return c, s') => c <> 0 /\ Released s'
  | (Stuck, _) => False
  end.

Lemma triple_bind {A B} P (m : M X A) Q (k : A -> M X B) R :
  triple P m Q -> (forall a, triple (Q a) (k a) R) -> triple P (m ≫= k) R.
Proof.
  intros Hm Hk s Hs. unfold mbind, M_bind. specialize (Hm s Hs).
  destruct (m s) as [[a|c|] s']; [|done|done]. by apply Hk.
Qed.

Lemma triple_ret {A} (P : Pool X -> Prop) (Q : A -> Pool X -> Prop) (a : A) :
  (forall s, P s -> Q a s) -> triple P (mret a) Q.
Proof. intros HQ s Hs. by apply HQ. Qed.

Lemma triple_weaken {A} (P P' : Pool X -> Prop) (m : M X A) (Q Q' : A -> Pool X -> Prop) :
  triple P m Q -> (forall s, P' s -> P s) -> (forall a s, Q a s -> Q' a s) -> triple P' m Q'.
Proof.
  intros Hm HP HQ s Hs. specialize (Hm s (HP s Hs)). destruct (m s) as [[a|c|] s']; auto.
Qed.

Lemma triple_ex {A B} (P : B -> Pool X -> Prop) (m : M X A) Q :
  (forall b, triple (P b) m Q) -> triple (fun s => exists b, P b s) m Q.
Proof. intros Hm s [b Hs]. by apply (Hm b). Qed.

Lemma triple_pure {A} (F : Prop) (P : Pool X -> Prop) (m : M X A) Q :
  (F -> triple P m Q) -> triple (fun s => F /\ P s) m Q.
Proof. intros Hm s [HF Hs]. by apply Hm. Qed.

Lemma triple_pre {A} (P P' : Pool X -> Prop) (m : M X A) Q :
  (forall s, P s -> P' s) -> triple P' m Q -> triple P m Q.
Proof. intros HP Hm s Hs. by apply Hm, HP. Qed.

Lemma inv_world i d S s w :
  Inv i d S s -> ledger w0 w (pages_of d) (caps_of d) -> Inv i d S (set_world s w).
Proof. intros [] ?. by split. Qed.

Lemma inv_puts i d S t : triple (Inv i d S) (puts t) (fun _ => Inv i d S).
Proof.
  intros s Hs. apply inv_world; [done|]. eapply ledger_quiet; [apply Hs|apply quiet_puts].
Qed.

Lemma inv_texts i d S texts :
  triple (Inv i d S) (fold_right (fun t k => puts t ≫= fun _ => k) (mret ()) texts) (fun _ => Inv i d S).
Proof.
  induction texts as [|t texts IH]; cbn [fold_right]; [by apply triple_ret|].
  eapply triple_bind; [apply inv_puts|]. intros []. apply IH.
Qed.

(** The ledger of the creation absorbs a kernel call. *)
Definition call_ok (d : ThreadDesc) (f : World -> Z * World) : Prop :=
  forall w, ledger w0 w (pages_of d) (caps_of d) -> ledger w0 (snd (f w)) (pages_of d) (caps_of d).

Lemma call_ok_quiet d f : (forall w, quiet w (snd (f w))) -> call_ok d f.
Proof. intros Hq w Hl. eapply ledger_quiet; eauto. Qed.

Lemma inv_kcall i d S f : call_ok d f -> triple (Inv i d S) (kcall f) (fun _ => Inv i d S).
Proof.
  intros Hf s Hs. unfold kcall. specialize (Hf _ (inv_ledger _ _ _ _ Hs)).
  destruct (f (p_world (proc s))) as [e w]. by apply inv_world.
Qed.

Lemma inv_mod_desc i d S g :
  (forall x, pages_of d x -> pages_of (g d) x) -> (forall x, caps_of d x -> caps_of (g d) x) ->
  ranges_ok (g d) -> triple (Inv i d S) (mod_desc i g) (fun _ => Inv i (g d) S).
Proof.
  intros HP HO Hok s [Hlen Hi Hu Hd Hr Ha Hn Hl _ Ho Hs Hc Hva]. split; cbn; try done.
  - by rewrite length_insert.
  - fold (set_desc (proc s) i (g (thread_desc (proc s) i))).
    rewrite thread_desc_set by lia. by rewrite decide_True, Hd.
  - by eapply ledger_mono.
  - intros j Hj. fold (set_desc (proc s) i (g (thread_desc (proc s) i))).
    rewrite thread_desc_set by lia. rewrite decide_False by done. by apply Ho.
Qed.

Lemma inv_mod_mem i d S g : triple (Inv i d S) (mod_mem g) (fun _ => Inv i d S).
Proof. intros s []. by split. Qed.

Lemma inv_alloc_slots i d S fuel n :
  fuel_enough fuel -> 0 <= n ->
  triple (Inv i d S) (slots_consecutive fuel n) (fun r s =>
    match r with
    | Some b => 0 < b /\ b + n <= 2 ^ 64 /\ Inv i d (fun x => S x \/ b <= x < b + n) s
    | None => Inv i d S s
    end).
Proof.
  intros Hfuel Hn s [Hlen Hi Hu Hd Hr Ha Hnew Hl Hok Ho Hs Hc Hva]. unfold slots_consecutive.
  pose proof (Hfuel (p_alloc (proc s)) (p_world (proc s)) n Hr Hn) as Hnf.
  pose proof (alloc_consecutive_taken fuel n (p_alloc (proc s)) (p_world (proc s)) Hr Hn) as Ht.
  pose proof (quiet_alloc_consecutive fuel n (p_alloc (proc s)) (p_world (proc s))) as Hq.
  destruct (slot_alloc_consecutive _ _ _ _) as [[[[b|]|] st] w]; cbn [snd] in *; [| |done].
  - destruct Ht as [Hr' [? ?] Hfree Ha']. split; [done|]. split; [done|].
    split; try done; cbn.
    + intros x. rewrite Ha', Ha. tauto.
    + intros x [?|Hx]; [by apply Hnew|]. specialize (Hfree x Hx). rewrite Ha in Hfree. tauto.
    + by eapply ledger_quiet.
  - destruct Ht as [Hr' Ha']. split; try done; cbn.
    + intros x. by rewrite Ha', Ha.
    + by eapply ledger_quiet.
Qed.

(** Roll-back of a descriptor that accounts for everything taken. *)
Lemma rollback_released i d s : Own i d s -> Released (snd (rollback_worker i s)).
Proof.
  intros [Hlen Hi Hu Hd Hr Ha Hnew Hl Hok Ho Hs Hc Hva]. unfold rollback_worker, state_. cbn [snd].
  rewrite Hd. pose proof (release_worker_spec w0 _ _ d _ _ Hr Hok Hl) as Hrel.
  destruct (release_worker _ _ d) as [st w]. destruct Hrel as (Hr' & Ha' & Hl').
  set (p := with_world (with_alloc (proc s) st) w).
  assert (Hp : forall j, thread_desc p j = thread_desc (proc s) j) by done.
  split; cbn.
  - by rewrite length_insert.
  - done.
  - intros x. rewrite Ha', Ha. specialize (Hnew x). tauto.
  - eapply ledger_mono; [| |exact Hl']; cbn beta; tauto.
  - intros j. fold (set_desc p i (set_state (thread_desc p i) TD_UNUSED)).
    rewrite thread_desc_set by (cbn; lia). case_decide as E; [subst j; by right|].
    left. rewrite Hp. by apply Ho.
  - intros j _. unfold slot_at. cbn. by rewrite Hs.
  - done.
Qed.

Lemma rollback_return {A} i d (c : Z) (Q : A -> Pool X -> Prop) :
  c <> 0 -> triple (Own i d) (rollback_worker i ≫= fun _ => return_ c) Q.
Proof. intros Hc s Hs. cbn. split; [done|]. by apply (rollback_released i d). Qed.

Lemma own_or_rollback i d texts f :
  call_ok d f -> triple (Own i d) (or_rollback i texts f) (fun _ => Own i d).
Proof.
  intros Hf. unfold or_rollback. eapply triple_bind; [by apply inv_kcall|]. intros err.
  destruct (Z.eqb_spec err 0); [by apply triple_ret|].
  eapply triple_bind; [apply inv_texts|]. intros []. by apply rollback_return.
Qed.

Lemma own_no_slots {A} i d text (Q : A -> Pool X -> Prop) : triple (Own i d) (no_slots i text) Q.
Proof. unfold no_slots. eapply triple_bind; [apply inv_puts|]. intros []. by apply rollback_return. Qed.

Lemma own_for_pages i d n f : forall k,
  (forall j, k <= j < k + Z.of_nat n -> triple (Own i d) (f j) (fun _ => Own i d)) ->
  triple (Own i d) (for_pages n k f) (fun _ => Own i d).
Proof.
  induction n as [|n IH]; intros k Hf; cbn [for_pages]; [by apply triple_ret|].
  eapply triple_bind; [apply Hf; lia|]. intros []. apply IH. intros j Hj. apply Hf. lia.
Qed.
End spawn.

(** ** The steps of [spawn_worker] *)

Definition worker_tls_pages {X} `{!Image X} : Z :=
  if 0 <? thread_tls_region_size then thread_tls_region_size / 0x1000 else 1.

(** What [spawn_worker] relies on: the allocator runs, unused descriptors
    account for nothing, and the address range of the next region is valid. *)
Record spawn_pre {X} `{!Image X} (s0 : Pool X) (pages : Z) : Prop := {
  sp_len : length (p_pool (proc s0)) = MAX_THREADS;
  sp_ready : slots_ready (p_alloc (proc s0));
  sp_clean : forall j, td_state (thread_desc (proc s0) j) = TD_UNUSED -> desc_clean (thread_desc (proc s0) j);
  sp_pages : 0 < pages < 2 ^ 40;
  sp_va : 0 < va_next s0 < 2 ^ 48;
  sp_tls : 0 <= thread_tls_region_size < 2 ^ 52;
}.

(** The part of the descriptor [spawn_alloc] fills in. *)
Record desc_alloc (d : ThreadDesc) (tcb stack_slots tls_slots pages tls_pages : Z) : Prop := {
  da_state : td_state d = TD_RUNNING;
  da_owner : td_owner d = Worker;
  da_tcb : td_tcb_cap d = tcb;
  da_sc : td_sc_cap d = tcb + 1;
  da_ipc : td_ipc_frame_cap d = tcb + 2;
  da_stack : td_stack_frame_base d = stack_slots /\ td_stack_frame_count d = pages;
  da_tls : td_tls_frame_base d = tls_slots /\ td_tls_frame_count d = tls_pages;
  da_cleanup : td_personality_cleanup d = None;
  da_pages : td_stack_base d = 0 /\ td_stack_size d = 0 /\ td_tls_region d = 0 /\
             td_tls_region_size d = 0 /\ td_ipc_buf_vaddr d = 0;
  da_bounds : 0 < tcb /\ 0 < stack_slots /\ 0 < tls_slots /\ tcb + 3 <= 2 ^ 64 /\
    stack_slots + pages <= 2 ^ 64 /\ tls_slots + tls_pages <= 2 ^ 64;
}.

Section steps.
Context {X : Type} `{Kernel} `{Slices} `{!Image X} `{!Hooks X}.
Variable s0 : Pool X.
Variable pages : Z.
Variable fuel : nat.
Hypothesis Hpre : spawn_pre s0 pages.
Hypothesis Hfuel : fuel_enough fuel.
Implicit Types s : Pool X.

Lemma tls_pages_bounds : 0 <= worker_tls_pages < 2 ^ 40.
Proof.
  pose proof (sp_tls _ _ Hpre). unfold worker_tls_pages. case_if; [|lia].
  split; [apply Z.div_pos; lia|apply Z.div_lt_upper_bound; lia].
Qed.

Lemma alloc_scan_first n : forall i (p : Proc X),
  match alloc_scan p n i with
  | (None, p') => p' = p
  | (Some j, p') => (i <= j < i + n)%nat /\ td_state (thread_desc p j) = TD_UNUSED /\
      p' = set_desc p j (set_generation (set_state (thread_desc p j) TD_RUNNING)
             (as_u32 (td_generation (thread_desc p j) + 1)))
  end.
Proof.
  induction n as [|n IH]; intros i p; cbn [alloc_scan]; [done|].
  destruct (Z.eqb_spec (td_state (thread_desc p i)) TD_UNUSED); [split; [lia|done]|].
  specialize (IH (S i) p). destruct (alloc_scan p n (S i)) as [[j|] p']; [|done].
  destruct IH as [? IH]. split; [lia|done].
Qed.

Lemma clean_ok d : desc_clean d -> ranges_ok d.
Proof.
  intros [(E1 & E2 & E3) [E4 E5] [E6 E7] E8 (E9 & E10 & E11 & E12) _].
  split; rewrite ?E1, ?E4, ?E5, ?E6, ?E7, ?E9, ?E10, ?E11, ?E12; unfold_widths; lia.
Qed.

Lemma clean_pages d x : desc_clean d -> ~ pages_of d x.
Proof. intros [_ [E1 _] [E2 _] E3 _ _]. unfold pages_of, in_region. rewrite E1, E2, E3. tauto. Qed.

Lemma clean_caps d x : desc_clean d -> ~ caps_of d x.
Proof.
  intros [(E1 & E2 & E3) _ _ _ (E4 & _ & E5 & _) _]. unfold caps_of, in_range.
  rewrite E1, E2, E3, E4, E5. tauto.
Qed.

Lemma clean_slots d x : desc_clean d -> ~ slots_of d x.
Proof.
  intros [(E1 & E2 & E3) _ _ _ (E4 & _ & E5 & _) _]. unfold slots_of, in_range.
  rewrite E1, E4, E5. tauto.
Qed.

Abbreviation Inv0 := (Inv s0 (va_next s0)).
Abbreviation Own0 := (Own s0 (va_next s0)).

Lemma inv_ext va i d (S S' : Z -> Prop) s :
  (forall x, S x <-> S' x) -> Inv s0 va i d S s -> Inv s0 va i d S' s.
Proof.
  intros HS [Hlen Hi Hu Hd Hr Ha Hn Hl Hok Ho Hs Hc Hva]. split; try done.
  - intros x. rewrite Ha, HS. done.
  - intros x ?%HS. by apply Hn.
Qed.

Lemma inv_next_tid va i d S :
  triple s0 (Inv s0 va i d S) (fun s => let '(t, p) := next_thread_id (proc s) in (Value t, with_proc s p))
    (fun _ => Inv s0 va i d S).
Proof. intros s []. by split. Qed.

Lemma inv_alloc_desc :
  triple s0 (eq s0) (fun s => let '(o, p) := alloc_thread_desc (proc s) in (Value o, with_proc s p))
    (fun o s => match o with
     | None => s = s0
     | Some i => exists d, desc_clean d /\ td_state d = TD_RUNNING /\ Inv0 i d (fun _ => False) s
     end).
Proof.
  intros s <-. unfold alloc_thread_desc. pose proof (alloc_scan_first MAX_THREADS 0 (proc s0)) as Hf.
  pose proof (sp_len _ _ Hpre) as Hlen.
  destruct (alloc_scan (proc s0) MAX_THREADS 0) as [[i|] p].
  - destruct Hf as (Hi & Hu & ->). pose proof (sp_clean _ _ Hpre i Hu) as Hc.
    set (d := set_generation _ _).
    assert (Hcd : desc_clean d) by (destruct Hc; by split).
    exists d. split; [done|]. split; [done|].
    split; cbn; try done.
    + by rewrite length_insert.
    + lia.
    + fold (set_desc (proc s0) i d). rewrite thread_desc_set by lia. by rewrite decide_True.
    + apply Hpre.
    + intros x. tauto.
    + apply ledger_refl.
    + by apply clean_ok.
    + intros j Hj. fold (set_desc (proc s0) i d). rewrite thread_desc_set by lia.
      by rewrite decide_False.
  - subst. by destruct s0.
Qed.

(** An attempt that took no slot ends by marking the descriptor unused. *)
Lemma released_unused i d s :
  desc_clean d -> Inv0 i d (fun _ => False) s ->
  Released s0 (snd (mod_desc i (fun d => set_state d TD_UNUSED) s)).
Proof.
  intros Hc [Hlen Hi Hu Hd Hr Ha Hn Hl Hok Ho Hs Hcf Hva]. unfold mod_desc, state_. cbn [snd].
  set (d' := set_state _ _). split; cbn; try done.
  - by rewrite length_insert.
  - intros x. rewrite Ha. tauto.
  - eapply ledger_mono; [| |exact Hl]; [intros x Hx; by apply (clean_pages d x)|].
    intros x Hx. by apply (clean_caps d x).
  - intros j. fold (set_desc (proc s) i d'). rewrite thread_desc_set by lia.
    case_decide as E; [subst j; by right|]. left. by apply Ho.
  - intros j _. unfold slot_at. cbn. by rewrite Hs.
Qed.

Lemma released_puts t s : s = s0 -> Released s0 (snd (puts t s)).
Proof.
  intros ->. split; cbn; try done; try apply Hpre.
  - eapply ledger_quiet; [apply ledger_refl|apply quiet_puts].
  - by left.
Qed.

Lemma retype_ok d ut ty slot : caps_of d slot -> call_ok s0 d (fun w => untyped_retype w ut ty 0 slot).
Proof. intros Hs w Hl. by apply ledger_retype. Qed.

Lemma map_ok d vs fr pg fl : pages_of d pg -> call_ok s0 d (fun w => vspace_map w vs fr pg fl).
Proof. intros Hs w Hl. by apply ledger_map. Qed.

(** After steps 1 to 3 the descriptor records the three slots and nothing else. *)
Record desc_objects (d : ThreadDesc) (tcb : Z) : Prop := {
  do_state : td_state d = TD_RUNNING;
  do_owner : td_owner d = Worker;
  do_caps : td_tcb_cap d = tcb /\ td_sc_cap d = tcb + 1 /\ td_ipc_frame_cap d = tcb + 2;
  do_frames : td_stack_frame_base d = 0 /\ td_stack_frame_count d = 0 /\
              td_tls_frame_base d = 0 /\ td_tls_frame_count d = 0;
  do_pages : td_stack_base d = 0 /\ td_stack_size d = 0 /\ td_tls_region d = 0 /\
             td_tls_region_size d = 0 /\ td_ipc_buf_vaddr d = 0;
  do_cleanup : td_personality_cleanup d = None;
  do_bounds : 0 < tcb /\ tcb + 3 <= 2 ^ 64;
}.

Lemma objects_recorded d tcb :
  desc_clean d -> td_state d = TD_RUNNING -> td_owner d = Worker -> 0 < tcb -> tcb + 3 <= 2 ^ 64 ->
  let d' := set_ipc_frame_cap (set_sc_cap (set_tcb_cap d tcb) (tcb + 1)%u64) (tcb + 2)%u64 in
  desc_objects d' tcb /\ ranges_ok d' /\ (forall x, slots_of d' x <-> tcb <= x < tcb + 3).
Proof.
  intros [(E1 & E2 & E3) [E4 E5] [E6 E7] E8 (E9 & E10 & E11 & E12) E13] Hst Hown Hlo Hhi.
  rewrite !wrap_small by lia. cbn zeta. split; [by split|]. split.
  - split; cbn; rewrite ?E4, ?E5, ?E6, ?E7, ?E9, ?E10, ?E11, ?E12; unfold_widths; lia.
  - intros x. unfold slots_of, in_range. cbn. rewrite E9, E11. lia.
Qed.

Lemma objects_triple ut :
  triple s0 (eq s0) (spawn_objects fuel ut) (fun '(i, tcb) s => exists d, desc_objects d tcb /\ Own0 i d s).
Proof.
  unfold spawn_objects. eapply triple_bind; [apply inv_alloc_desc|]. intros [i|].
  2: { intros s Hs. split; [done|]. apply (released_puts (line "[WORKER] thread pool full") s Hs). }
  apply triple_ex. intros d. apply triple_pure. intros Hc. apply triple_pure. intros Hst.
  set (d1 := set_owner d Worker). assert (Hc1 : desc_clean d1) by (destruct Hc; by split).
  eapply triple_bind.
  { apply (inv_mod_desc _ _ i d _ (fun d => set_owner d Worker)); try done. by apply (clean_ok d1). }
  intros []. eapply triple_bind; [apply inv_next_tid|]. intros tid.
  set (d2 := set_thread_id d1 tid). assert (Hc2 : desc_clean d2) by (destruct Hc; by split).
  eapply triple_bind.
  { apply (inv_mod_desc _ _ i d1 _ (fun d => set_thread_id d tid)); try done. by apply (clean_ok d2). }
  intros [].
  eapply triple_bind; [by apply inv_alloc_slots|]. intros [tcb|].
  - apply triple_pure. intros Hlo. apply triple_pure. intros Hhi.
    destruct (objects_recorded d2 tcb Hc2 Hst eq_refl Hlo Hhi) as (Hob & Hok & Hsl).
    set (d3 := set_ipc_frame_cap _ _) in *. cbn zeta.
    eapply triple_bind.
    { apply (inv_mod_desc _ _ i d2 _ (fun d => set_ipc_frame_cap (set_sc_cap (set_tcb_cap d tcb) (tcb + 1)%u64) (tcb + 2)%u64)).
      - intros x Hx. by destruct (clean_pages d2 x Hc2).
      - intros x Hx. by destruct (clean_caps d2 x Hc2).
      - done. }
    intros []. apply (triple_pre _ _ (Own0 i d3)).
    { intros s Hs. eapply inv_ext; [|exact Hs]. intros x. rewrite Hsl. tauto. }
    assert (Hcap : forall x, tcb <= x < tcb + 3 -> caps_of d3 x).
    { intros x Hx. destruct (do_caps _ _ Hob) as (E1 & E2 & E3). unfold caps_of.
      rewrite E1, E2, E3. lia. }
    eapply triple_bind; [apply own_or_rollback, retype_ok, Hcap; lia|]. intros [].
    eapply triple_bind; [apply own_or_rollback, retype_ok, Hcap; rewrite wrap_small by lia; lia|]. intros [].
    eapply triple_bind; [apply own_or_rollback, retype_ok, Hcap; rewrite wrap_small by lia; lia|]. intros [].
    apply triple_ret. eauto.
  - eapply triple_bind; [apply inv_puts|]. intros [] s Hs. split; [done|].
    by apply (released_unused i d2 s Hc2).
Qed.

Lemma frames_triple i d ut n no_slot no_frame record :
  0 <= n ->
  (forall b, 0 < b -> b + n <= 2 ^ 64 ->
     (forall x, pages_of d x -> pages_of (record b d) x) /\
     (forall x, caps_of d x \/ b <= x < b + n -> caps_of (record b d) x) /\
     ranges_ok (record b d) /\
     (forall x, slots_of (record b d) x <-> slots_of d x \/ b <= x < b + n)) ->
  triple s0 (Own0 i d) (take_frames fuel i ut n no_slot no_frame record)
    (fun b s => 0 < b /\ b + n <= 2 ^ 64 /\ Own0 i (record b d) s).
Proof.
  intros Hn Hrec. unfold take_frames. eapply triple_bind; [by apply inv_alloc_slots|].
  intros [b|]; [|apply own_no_slots].
  apply triple_pure. intros Hlo. apply triple_pure. intros Hhi.
  destruct (Hrec b Hlo Hhi) as (Hp & Hc & Hok & Hs).
  eapply triple_bind; [apply (inv_mod_desc _ _ i d _ (record b)); [done|eauto|done]|]. intros [].
  apply (triple_pre _ _ (Own0 i (record b d))); [intros s; apply inv_ext; intros x; by rewrite Hs|].
  eapply triple_bind.
  { apply own_for_pages. intros k Hk. apply own_or_rollback, retype_ok, Hc. rewrite wrap_small by lia. lia. }
  intros []. by apply triple_ret.
Qed.

Lemma alloc_triple ut :
  triple s0 (eq s0) (spawn_alloc fuel ut pages) (fun '(i, tcb, ss, ts, tlsp) s =>
    tlsp = worker_tls_pages /\ exists d, desc_alloc d tcb ss ts pages tlsp /\ Own0 i d s).
Proof.
  pose proof (sp_pages _ _ Hpre). pose proof tls_pages_bounds as Htp. unfold worker_tls_pages in Htp.
  unfold spawn_alloc. eapply triple_bind; [apply objects_triple|]. intros [i tcb].
  apply triple_ex. intros d. apply triple_pure.
  intros [Hst Hown (E1 & E2 & E3) (E4 & E5 & E6 & E7) (P1 & P2 & P3 & P4 & P5) Hcl [B1 B2]].
  eapply triple_bind.
  { apply frames_triple; [lia|]. intros b Hb Hbn. split_and!.
    - done.
    - intros x. unfold caps_of, in_range. cbn. rewrite E4, E6. lia.
    - split; cbn; rewrite ?E1, ?E6, ?E7, ?P1, ?P2, ?P3, ?P4; unfold_widths; lia.
    - intros x. unfold slots_of, in_range. cbn. rewrite E4, E6. lia. }
  intros ss. cbn beta. apply triple_pure. intros S1. apply triple_pure. intros S2.
  eapply triple_bind.
  { apply frames_triple; [lia|]. intros b Hb Hbn. split_and!.
    - done.
    - intros x. unfold caps_of, in_range. cbn. rewrite E6. lia.
    - split; cbn; rewrite ?E1, ?P1, ?P2, ?P3, ?P4; unfold_widths; lia.
    - intros x. unfold slots_of, in_range. cbn. rewrite E6. lia. }
  intros ts. cbn beta. apply triple_pure. intros T1. apply triple_pure. intros T2.
  apply triple_ret. intros s Hs. split; [done|]. eexists. split; [|exact Hs]. by split.
Qed.

(** The descriptor of a worker whose region starts at [rb]. *)
Record worker_desc (d : ThreadDesc) (rb tcb ss ts : Z) : Prop := {
  wd_alloc : td_state d = TD_RUNNING /\ td_owner d = Worker /\ td_personality_cleanup d = None;
  wd_caps : td_tcb_cap d = tcb /\ td_sc_cap d = tcb + 1 /\ td_ipc_frame_cap d = tcb + 2;
  wd_stack : td_stack_frame_base d = ss /\ td_stack_frame_count d = pages;
  wd_tls : td_tls_frame_base d = ts /\ td_tls_frame_count d = worker_tls_pages;
  wd_pages : td_stack_base d = rb + 4096 /\ td_stack_size d = pages * 4096 /\
             td_ipc_buf_vaddr d = rb + 4096 + pages * 4096 /\
             td_tls_region d = rb + 4096 + pages * 4096 + 4096 /\
             td_tls_region_size d = worker_tls_pages * 4096;
  wd_bounds : 0 < tcb /\ 0 < ss /\ 0 < ts /\ tcb + 3 <= 2 ^ 64 /\ ss + pages <= 2 ^ 64 /\
    ts + worker_tls_pages <= 2 ^ 64;
}.

Definition next_va : Z := (va_next s0 + WORKER_REGION_STRIDE)%u64.

Lemma va_triple i d S :
  triple s0 (Inv0 i d S) alloc_worker_va (fun r s => r = va_next s0 /\ Inv s0 next_va i d S s).
Proof. intros s []. cbn. split; [done|]. split; try done. cbn. unfold next_va. congruence. Qed.

Lemma map_region_page b n k :
  0 < b -> 0 < n < 2 ^ 51 -> 0 <= k < n -> in_region b (n * 4096) (b + (k * 0x1000))%u64.
Proof.
  intros Hb Hn Hk. unfold in_region. split; [lia|]. split; [lia|]. exists k.
  by rewrite Z.div_mul by lia.
Qed.

Lemma map_triple i d tcb ss ts :
  desc_alloc d tcb ss ts pages worker_tls_pages ->
  triple s0 (Own0 i d) (spawn_map i pages (tcb + 2)%u64 ss ts worker_tls_pages)
    (fun '(sv, iv, tv) s => sv = va_next s0 + 4096 /\ iv = sv + pages * 4096 /\ tv = iv + 4096 /\
       exists d', worker_desc d' (va_next s0) tcb ss ts /\ Own s0 next_va i d' s).
Proof.
  intros [Hst Hown E1 E2 E3 [E4 E5] [E6 E7] Hcl (P1 & P2 & P3 & P4 & P5) (B1 & B2 & B3 & B4 & B5 & B6)].
  pose proof (sp_pages _ _ Hpre). pose proof tls_pages_bounds. pose proof (sp_va _ _ Hpre).
  unfold spawn_map. eapply triple_bind; [apply va_triple|]. intros rb. apply triple_pure. intros ->.
  set (rb := va_next s0) in *. cbn zeta.
  rewrite (wrap_small 64 (rb + 0x1000)), (wrap_small 64 (pages * 0x1000)) by lia.
  rewrite (wrap_small 64 (rb + 0x1000 + pages * 0x1000)) by lia.
  rewrite (wrap_small 64 (rb + 0x1000 + pages * 0x1000 + 0x1000)) by lia.
  rewrite (wrap_small 64 (worker_tls_pages * 0x1000)) by lia.
  match goal with |- context [mod_desc i ?g] => set (g0 := g); set (d' := g0 d) end.
  assert (Hd' : worker_desc d' rb tcb ss ts) by (by split).
  eapply triple_bind.
  { apply (inv_mod_desc _ _ i d _ g0).
    - intros x. unfold pages_of, in_region. rewrite P1, P3, P5. tauto.
    - done.
    - split; cbn; rewrite ?E1, ?E4, ?E5, ?E6, ?E7; unfold_widths; lia. }
  intros []. apply (triple_pre _ _ (Own s0 next_va i d')); [done|].
  eapply triple_bind.
  { apply own_for_pages. intros k Hk. apply own_or_rollback, map_ok. left. apply map_region_page; lia. }
  intros []. eapply triple_bind.
  { apply own_or_rollback, map_ok. right. left. cbn. lia. }
  intros []. eapply triple_bind.
  { apply own_for_pages. intros k Hk. apply own_or_rollback, map_ok. right. right. apply map_region_page; lia. }
  intros []. apply triple_ret. intros s Hs. split_and!; [done..|]. eauto.
Qed.

Lemma tls_triple i d rb tcb ss ts iv tv :
  worker_desc d rb tcb ss ts ->
  triple s0 (Own s0 next_va i d) (spawn_tls i iv tv worker_tls_pages)
    (fun _ s => exists d', worker_desc d' rb tcb ss ts /\ Own s0 next_va i d' s).
Proof.
  intros Hd. unfold spawn_tls.
  apply (triple_bind _ _ _ (fun _ => Own s0 next_va i d)).
  { intros s Hs. destruct (init_worker_tls _ _ _) as [[tp blk] m]. destruct Hs. by split. }
  intros [tp blk]. set (d' := set_tls_ptr d blk).
  apply (triple_bind _ _ _ (fun _ => Own s0 next_va i d')).
  { intros s Hs. refine (inv_mod_desc s0 next_va i d (slots_of d) (fun d => set_tls_ptr d blk) _ _ _ s Hs); [done|done|].
    destruct (inv_ok _ _ _ _ _ _ Hs). by split. }
  intros []. apply (triple_bind _ _ _ (fun _ => Own s0 next_va i d')); [by intros s Hs|].
  intros tid. eapply triple_bind; [apply inv_mod_mem|]. intros [].
  apply triple_ret. intros s Hs. exists d'. split; [destruct Hd; by split|]. exact Hs.
Qed.

Lemma rollback_with_slots i s l :
  snd (rollback_worker i (with_slots s l)) = with_slots (snd (rollback_worker i s)) l.
Proof. unfold rollback_worker, state_. cbn. by destruct (release_worker _ _ _). Qed.

Lemma released_with_slots s l :
  Released s0 s ->
  (forall j, active (default WorkerSlot_zeroed (l !! j)) = true ->
     default WorkerSlot_zeroed (l !! j) = slot_at s0 j) ->
  Released s0 (with_slots s l).
Proof. intros [] Hl. split; try done. Qed.

(** The worker [wi] runs with descriptor [d] in pool slot [i]. *)
Definition Started (wi i : nat) (d : ThreadDesc) s : Prop :=
  exists s1, Own s0 next_va i d s1 /\ s = with_slots s1 (<[wi := mkSlot i true]> (slots s1)).

Lemma resume_failed {A} wi i d t err (Q : A -> Pool X -> Prop) :
  err <> 0 ->
  triple s0 (Started wi i d)
    (puts t ≫= fun _ =>
     state_ (fun s => with_slots s (<[wi := mkSlot i false]> (slots s))) ≫= fun _ =>
     rollback_worker i ≫= fun _ => return_ err) Q.
Proof.
  intros Hne s (s1 & Hs & ->).
  set (l := <[wi := mkSlot i false]> (<[wi := mkSlot i true]> (slots s1))).
  change (err <> 0 /\ Released s0 (snd (rollback_worker i (with_slots (snd (puts t s1)) l)))).
  rewrite rollback_with_slots. split; [done|].
  pose proof (rollback_released s0 next_va i d _ (inv_puts s0 next_va i d _ t _ Hs)) as Hr.
  pose proof (inv_slots _ _ _ _ _ _ Hs) as Es.
  apply released_with_slots; [exact Hr|]. intros j. unfold l. rewrite list_insert_insert, Es, decide_True by done.
  destruct (decide (wi = j)) as [->|Hj].
  - destruct (decide (j < length (slots s0))%nat).
    + by rewrite list_lookup_insert_eq.
    + by rewrite lookup_ge_None_2 by (rewrite length_insert; lia).
  - by rewrite list_lookup_insert_ne.
Qed.

Lemma start_triple wi i d tcb sc sv iv tp budget period depth :
  triple s0 (Own s0 next_va i d) (spawn_start wi i tcb sc sv iv pages tp budget period depth)
    (fun r s => r = 0 /\ Started wi i d s).
Proof.
  unfold spawn_start.
  eapply triple_bind; [apply own_or_rollback, call_ok_quiet; intros w; case_if; by apply quiet_invoke|].
  intros []. do 2 (eapply triple_bind; [apply own_or_rollback, call_ok_quiet; intros w; by apply quiet_invoke|]; intros []).
  eapply triple_bind; [apply inv_mod_mem|]. intros [].
  do 3 (eapply triple_bind; [apply own_or_rollback, call_ok_quiet; intros w; by apply quiet_invoke|]; intros []).
  apply (triple_bind _ _ _ (fun _ => Started wi i d)); [intros s Hs; by exists s|]. intros [].
  apply (triple_bind _ _ _ (fun _ => Started wi i d)).
  - intros s (s1 & Hs & ->). unfold kcall. cbn [proc with_slots].
    pose proof (quiet_invoke (p_world (proc s1)) tcb TCB_RESUME 0 0 0 0 ltac:(done) ltac:(done)) as Hq.
    unfold tcb_resume. destruct (invoke_err _ tcb TCB_RESUME 0 0 0 0) as [err w]. cbn [snd] in Hq.
    exists (set_world s1 w). split; [|done].
    apply inv_world; [done|]. eapply ledger_quiet; [apply Hs|done].
  - intros err. destruct (Z.eqb_spec err 0); [by apply triple_ret|]. by apply resume_failed.
Qed.

Lemma spawn_triple wi ut budget period depth :
  triple s0 (eq s0) (spawn_worker fuel wi ut budget period pages depth)
    (fun r s => r = 0 /\ exists i d tcb ss ts, worker_desc d (va_next s0) tcb ss ts /\ Started wi i d s).
Proof.
  unfold spawn_worker. eapply triple_bind; [apply alloc_triple|]. intros [[[[i tcb] ss] ts] tlsp].
  apply triple_pure. intros ->. apply triple_ex. intros d. apply triple_pure. intros Hd.
  eapply triple_bind; [by apply map_triple|]. intros [[sv iv] tv].
  do 3 (apply triple_pure; intros ->). apply triple_ex. intros d1. apply triple_pure. intros Hd1.
  eapply triple_bind; [by apply (tls_triple i d1)|]. intros tp. apply triple_ex. intros d2.
  apply triple_pure. intros Hd2. eapply triple_weaken; [apply start_triple|done|].
  intros r s [-> Hs]. split; [done|]. eauto 10.
Qed.
End steps.
