(* ===== verification/WorkerTheorems.v ===== *)
(** Properties of the worker pool: resources over the life of a worker, the
    requests the receive loop dispatches, the start of the pool. *)

From stdpp Require Import gmap.
From S2P Require Import Prelude Consts Kernel SlotAlloc SlotPool Invoke SlotExpand Ledger SlotRange Ipc InvokeOps Protocol Serial ByteMem Tls TlsTheorems Worker WorkerTls WorkerSpawn.
Import String.StringSyntax.

(** ** Exit and reaping *)

Section reap.
Context {X : Type} `{Kernel} `{Slices} `{!Image X} `{!Hooks X}.
Implicit Types s : Pool X.

(** Cleaning up a worker's descriptor. *)
Lemma cleanup_worker_spec w0 (p : Proc X) i d (P O : Z -> Prop) :
  (i < length (p_pool p))%nat -> thread_desc p i = d -> td_owner d = Worker ->
  td_personality_cleanup d = None ->
  slots_ready (p_alloc p) -> ranges_ok d -> ledger w0 (p_world p) P O ->
  let p' := cleanup_thread p i in
  length (p_pool p') = length (p_pool p) /\ slots_ready (p_alloc p') /\
  (forall x, allocated (p_alloc p') x <-> allocated (p_alloc p) x /\ ~ slots_of d x) /\
  ledger w0 (p_world p') (fun x => P x /\ ~ pages_of d x) (fun x => O x /\ ~ caps_of d x) /\
  td_state (thread_desc p' i) = TD_UNUSED /\
  (forall j, j <> i -> thread_desc p' j = thread_desc p j).
Proof.
  intros Hi Hd Hown Hcl Hr Hok Hl. unfold cleanup_thread. rewrite Hd, Hcl. rewrite Hd. rewrite Hown.
  pose proof (release_worker_spec w0 _ _ d _ _ Hr Hok Hl) as Hrel.
  destruct (release_worker _ _ d) as [st w]. destruct Hrel as (Hr' & Ha' & Hl').
  set (d' := set_state _ TD_UNUSED). split_and!; cbn; try done.
  - by rewrite length_insert.
  - fold (set_desc p i d'). rewrite thread_desc_set by done. by rewrite decide_True.
  - intros j Hj. fold (set_desc p i d'). rewrite thread_desc_set by done. by rewrite decide_False.
Qed.

Lemma released_cleanup s0 va i d s :
  Own s0 va i d s -> td_owner d = Worker -> td_personality_cleanup d = None ->
  Released s0 (with_proc s (cleanup_thread (proc s) i)).
Proof.
  intros [Hlen Hi Hu Hd Hr Ha Hnew Hl Hok Ho Hs Hc Hva] Hown Hcl.
  destruct (cleanup_worker_spec (p_world (proc s0)) (proc s) i d (pages_of d) (caps_of d))
    as (L & R & A & G & U & Oth); [lia|done..|].
  split; cbn [proc with_proc cfg].
  - by rewrite L.
  - done.
  - intros x. rewrite A, Ha. specialize (Hnew x). tauto.
  - eapply ledger_mono; [| |exact G]; cbn beta; tauto.
  - intros j. destruct (decide (j = i)) as [->|Hj]; [by right|]. left. rewrite Oth by done. by apply Ho.
  - intros j _. unfold slot_at. cbn. by rewrite Hs.
  - done.
Qed.

(** A change of the state field alone keeps what the descriptor accounts for. *)
Lemma own_set_state s0 va i d s v w :
  Own s0 va i d s -> quiet (p_world (proc s)) w ->
  Own s0 va i (set_state d v) (set_world (with_proc s (set_desc (proc s) i (set_state d v))) w).
Proof.
  intros [Hlen Hi Hu Hd Hr Ha Hnew Hl Hok Ho Hs Hc Hva] Hq. split; cbn; try done.
  - by rewrite length_insert.
  - change (thread_desc (set_desc (proc s) i (set_state d v)) i = set_state d v).
    rewrite thread_desc_set by lia. by rewrite decide_True.
  - by eapply ledger_quiet.
  - destruct Hok. by split.
  - intros j Hj. change (thread_desc (set_desc (proc s) i (set_state d v)) j = thread_desc (proc s0) j).
    rewrite thread_desc_set by lia. rewrite decide_False by done. by apply Ho.
Qed.

Lemma worker_exit_eq s wi i :
  wi <> 0%nat -> slot_at s wi = mkSlot i true ->
  let p := set_desc (proc s) i (set_state (thread_desc (proc s) i) TD_EXITED) in
  worker_exit wi s = set_world (with_proc s p) (snd (syscall (p_world (proc s)) SYS_THREAD_EXIT 0 0 0 0 0 0)).
Proof. intros Hwi Hs. unfold worker_exit. destruct (Nat.eqb_spec wi 0); [done|]. by rewrite Hs. Qed.

Lemma reap_worker_eq s wi i d :
  slot_at s wi = mkSlot i true -> thread_desc (proc s) i = d -> td_state d = TD_EXITED ->
  td_tcb_cap d <> 0 ->
  let s1 := set_world (with_proc s (set_desc (proc s) i (set_state d TD_REAPING)))
              (snd (tcb_suspend (p_world (proc s)) (td_tcb_cap d))) in
  reap_worker s wi =
    with_slots (with_proc s1 (cleanup_thread (proc s1) i)) (<[wi := mkSlot i false]> (slots s)).
Proof.
  intros Hs Hd Hst Ht. unfold reap_worker. rewrite Hs. cbn [active negb thread_pool_idx].
  rewrite Hd, Hst. destruct (Z.eqb_spec TD_EXITED TD_EXITED); [|done].
  destruct (Z.eqb_spec (td_tcb_cap d) 0); [done|]. done.
Qed.

Lemma reap_started s0 pages wi i d rb tcb ss ts s :
  Started s0 wi i d s -> worker_desc pages d rb tcb ss ts -> wi <> 0%nat ->
  (wi < length (slots s0))%nat ->
  Released s0 (reap_worker (worker_exit wi s) wi) /\
  active (slot_at (reap_worker (worker_exit wi s) wi) wi) = false.
Proof.
  intros (s1 & Hown & ->) Hwd Hwi Hlt. pose proof (inv_slots _ _ _ _ _ _ Hown) as Hs.
  pose proof (inv_desc _ _ _ _ _ _ Hown) as Hd.
  destruct (wd_alloc _ _ _ _ _ _ Hwd) as (Hst & Hw & Hcl).
  destruct (wd_caps _ _ _ _ _ _ Hwd) as (Et & _ & _). destruct (wd_bounds _ _ _ _ _ _ Hwd) as (Ht & _).
  set (l := <[wi := mkSlot i true]> (slots s1)).
  assert (Hslot : l !! wi = Some (mkSlot i true)) by (unfold l; rewrite Hs; by apply list_lookup_insert_eq).
  assert (Hsl : forall s', slot_at (with_slots s' l) wi = mkSlot i true).
  { intros. unfold slot_at. cbn. by rewrite Hslot. }
  rewrite (worker_exit_eq _ wi i Hwi (Hsl _)). cbn zeta. cbn [proc with_slots]. rewrite Hd.
  set (w1 := snd (syscall _ _ _ _ _ _ _ _)).
  assert (Hq1 : quiet (p_world (proc s1)) w1) by (by apply quiet_syscall).
  pose proof (own_set_state s0 _ i d s1 TD_EXITED w1 Hown Hq1) as Hx1.
  set (s2 := set_world (with_proc s1 _) w1) in Hx1.
  change (set_world _ w1) with (with_slots s2 l).
  rewrite (reap_worker_eq (with_slots s2 l) wi i (set_state d TD_EXITED) (Hsl _)
    (inv_desc _ _ _ _ _ _ Hx1) eq_refl) by (cbn; lia).
  cbn zeta. cbn [proc slots with_slots].
  set (w2 := snd (tcb_suspend _ _)).
  assert (Hq : quiet (p_world (proc s2)) w2) by (by apply quiet_invoke).
  pose proof (own_set_state s0 _ i _ s2 TD_REAPING w2 Hx1 Hq) as Hx2.
  split; cycle 1.
  { unfold slot_at. cbn [slots with_slots]. unfold l.
    by rewrite list_lookup_insert_eq by (rewrite length_insert, Hs; lia). }
  refine (released_with_slots s0 _ _ (released_cleanup s0 _ i _ _ Hx2 Hw Hcl) _).
  intros j. unfold l. rewrite list_insert_insert, decide_True, Hs by done.
  destruct (decide (wi = j)) as [->|]; [by rewrite list_lookup_insert_eq|by rewrite list_lookup_insert_ne].
Qed.
End reap.

(** ** A concrete process *)

#[local] Existing Instance toy_image.

#[export] Instance toy_hooks : Hooks unit := {|
  worker_entry_trampoline := 0x401000;
  call_handler _ s m _ _ r := (Reply, m, r, s);
  call_hook _ _ s := s;
  call_timeout_ns _ _ s := (0, s) |}.

#[export] Instance toy_slices : Slices := {| slice_addr _ := 0x700000 |}.

(** Slot 0 of the pool is the main thread, the others are unused. *)
Definition toy_pool_descs : list ThreadDesc :=
  set_state ThreadDesc_zeroed TD_RUNNING :: replicate 63 ThreadDesc_zeroed.

Definition toy_pool : Pool unit := {|
  proc := {| p_world := mkWorld [] (Some (mkCtx None 0)); p_alloc := slot_alloc_init 64 64 0;
             p_mem := fun _ => 0; p_pool := toy_pool_descs; p_next_tid := 1; p_active := true;
             p_sc_cap := 5; p_ipc_ptr := 0x1000; p_ext := tt |};
  slots := replicate MAX_WORKERS WorkerSlot_zeroed;
  cfg := WorkerCfgSnapshot_zeroed;
  va_next := WORKER_REGION_BASE |}.

(** A kernel that accepts everything, and one that refuses to map pages. *)
Definition ok_kernel : Kernel := {| k_result _ _ _ := mkResult 0 0; k_buffer _ _ b := b |}.
Definition nomap_kernel : Kernel := {|
  k_result _ c _ := if is_map c then mkResult TRONA_OUT_OF_MEMORY 0 else mkResult 0 0;
  k_buffer _ _ b := b |}.

Lemma ok_kernel_ready : @probe_ready ok_kernel 0.
Proof. by intros tr c buf. Qed.
Lemma nomap_kernel_ready : @probe_ready nomap_kernel 0.
Proof.
  intros tr c buf Hc _. unfold is_probe in Hc. bprop. cbn. unfold is_map.
  replace (a1 c) with CNODE_COPY by (by symmetry). by rewrite andb_false_r.
Qed.

Lemma toy_pool_pre : spawn_pre toy_pool 2.
Proof.
  split.
  - done.
  - split.
    + apply init_pool_inv; unfold EXPAND_FLOOR, CSPACE_EXPAND_BASE; lia.
    + done.
    + intros x Hx. pose proof (init_managed 64 64 0 x ltac:(lia) ltac:(lia) ltac:(lia)) as Hm.
      apply Hm in Hx. lia.
  - intros j Hj. destruct j as [|j]; [done|]. unfold thread_desc.
    change (desc_clean (default ThreadDesc_zeroed (replicate 63 ThreadDesc_zeroed !! j))).
    destruct (replicate 63 ThreadDesc_zeroed !! j) as [d|] eqn:E; [|by split].
    apply lookup_replicate in E as [-> _]. by split.
  - lia.
  - change (0 < WORKER_REGION_BASE < 2 ^ 48). unfold WORKER_REGION_BASE. lia.
  - vm_compute. split; [discriminate|reflexivity].
Qed.

(** ** Resources *)





(** The hypothesis on unused descriptors matters: [rollback_worker] leaves the
    frame ranges in the descriptor it marks unused.  Here two creations fail,
    the first when a page is mapped, the second when the TCB is created, and in
    between another thread allocates the six slots 64 to 69.  The second
    roll-back releases slots 67 to 69 of that thread: the allocator hands slot
    67 out again. *)
Definition flaky_kernel : Kernel := {|
  k_result tr c _ :=
    if is_map c || (is_retype c && existsb is_map tr) then mkResult TRONA_OUT_OF_MEMORY 0
    else mkResult 0 0;
  k_buffer _ _ b := b |}.

Lemma rollback_frees_foreign_slots :
  let spawn := @spawn_worker unit flaky_kernel toy_slices toy_image toy_hooks 2 1 7 5000 100000 2 0 in
  let '(r1, s1) := spawn toy_pool in
  let '(other, st) := slot_alloc_consecutive_fast (p_alloc (proc s1)) 6 in
  let '(r2, s2) := spawn (with_proc s1 (with_alloc (proc s1) st)) in
  r1 = Return 5 /\ other = Some 64 /\ r2 = Return 5 /\
  fst (slot_alloc_fast (p_alloc (proc s2))) = Some 67.
Proof. vm_compute. repeat split. Qed.

(** ** Regions and budgets *)

Section start.
Context {X : Type} `{Kernel} `{Slices} `{!Image X} `{!Hooks X}.

(** The pages of a worker lie inside its region, if the region is as large as
    the stack, the guard page, the IPC buffer and the TLS area together. *)
Lemma worker_pages_in_region pages d rb tcb ss ts va :
  worker_desc pages d rb tcb ss ts -> 0 <= rb -> rb + WORKER_REGION_STRIDE < 2 ^ 64 ->
  0 <= pages -> 0 <= worker_tls_pages -> (pages + worker_tls_pages + 2) * 4096 <= WORKER_REGION_STRIDE ->
  pages_of d va -> rb + 4096 <= va < rb + WORKER_REGION_STRIDE.
Proof.
  intros [_ _ _ _ (E1 & E2 & E3 & E4 & E5) _] Hrb Hend Hp Ht Hfit.
  unfold WORKER_REGION_STRIDE, pages_of, in_region in *. rewrite E1, E2, E3, E4, E5.
  rewrite !Z.div_mul by lia.
  intros [(_ & _ & k & Hk & ->)|[(_ & ->)|(_ & _ & k & Hk & ->)]]; rewrite ?wrap_small; lia.
Qed.

(** Without that bound, which the code does not check, the stack of one worker
    runs into the region of the next: 64 pages are enough. *)
Lemma worker_regions_overlap pages d d' tcb ss ts tcb' ss' ts' :
  worker_desc pages d WORKER_REGION_BASE tcb ss ts ->
  worker_desc pages d' (WORKER_REGION_BASE + WORKER_REGION_STRIDE) tcb' ss' ts' ->
  64 < pages < 2 ^ 40 -> exists va, pages_of d va /\ pages_of d' va.
Proof.
  intros [_ _ _ _ (E1 & E2 & _) _] [_ _ _ _ (E1' & E2' & _) _] Hp.
  exists (WORKER_REGION_BASE + 4096 + 64 * 4096). unfold pages_of, in_region.
  rewrite E1, E2, E1', E2', !Z.div_mul by lia. unfold WORKER_REGION_BASE, WORKER_REGION_STRIDE.
  split; left; (split; [lia|]); (split; [lia|]).
  - exists 64. split; [lia|]. by rewrite wrap_small.
  - exists 0. split; [lia|]. by rewrite wrap_small.
Qed.

(** Every worker gets at least the kernel's tick of 1000 us, and the pool at
    most its total where that leaves each worker a tick. *)
Lemma budget_split c :
  0 <= pool_budget_us c -> 0 <= pool_period_us c ->
  let n := Z.of_nat (effective_count c) in
  let total := if pool_budget_us c =? 0 then effective_period c else pool_budget_us c in
  (1 <= effective_count c <= MAX_WORKERS)%nat /\ MIN_BUDGET_US <= budget_per_worker c /\
  (n * MIN_BUDGET_US <= total -> n * budget_per_worker c <= total).
Proof.
  intros Hb Hp n total. assert (Hn : (1 <= effective_count c <= MAX_WORKERS)%nat).
  { unfold effective_count, clamp, MAX_WORKERS. lia. }
  split; [done|]. assert (1 <= n) by lia.
  assert (Ht : 0 <= total) by (unfold total, effective_period; repeat case_if; unfold DEFAULT_PERIOD_US; lia).
  assert (E : budget_per_worker c = if total / n <? MIN_BUDGET_US then MIN_BUDGET_US else total / n).
  { unfold budget_per_worker, total, n. by destruct (pool_budget_us c =? 0). }
  rewrite E.
  pose proof (Z.mul_div_le total n ltac:(lia)).
  case_if; bprop; split; lia.
Qed.
End start.

(** ** The receive loop *)

Section loop.
Context {X : Type} `{Kernel} `{Slices} `{!Image X} `{!Hooks X}.
Implicit Types s : Pool X.

(** The requests in the order received, and in the order dispatched. *)
Definition received_of (ev : list Event) : list (TronaMsg * Z * Z) :=
  omap (fun e => match e with Received m b src => Some (m, b, src) | _ => None end) ev.
Definition dispatched_of (ev : list Event) : list (TronaMsg * Z * Z) :=
  omap (fun e => match e with Dispatched m b src => Some (m, b, src) | _ => None end) ev.

(** The request a worker holds but has not yet dispatched. *)
Definition held_of (ls : LoopState) : list (TronaMsg * Z * Z) :=
  match ls with First _ => [] | Serving l => [(l_msg l, l_badge l, l_source l)] end.

Lemma loop_step_events h wi ls s r ev :
  loop_step h wi ls s = (r, ev) -> TimedOut ∉ ev ->
  match r with
  | Next ls' _ => held_of ls ++ received_of ev = dispatched_of ev ++ held_of ls'
  | Exited _ => held_of ls ++ received_of ev = dispatched_of ev
  end.
Proof.
  destruct ls as [l|l]; cbn [loop_step held_of].
  - destruct (timeout_of s wi) as [t s1]. destruct (recv_any s1 l t) as [[err l1] s2].
    case_if; [intros [= <- <-] Hn; destruct Hn; by left|].
    case_if; intros [= <- <-] _; done.
  - destruct (call_handler _ _ _ _ _ _) as [[[control m] rp] s1]. set (l1 := mkLocals m rp _ _).
    destruct control; [| |by intros [= <- <-] _].
    all: destruct (timeout_of s1 wi) as [t s2].
    1: destruct (reply_recv_any s2 l1 t) as [[err l2] s3].
    2: destruct (recv_any s2 l1 t) as [[err l2] s3].
    all: case_if; [intros [= <- <-] Hn; destruct Hn; right; by left|].
    all: case_if; [|by intros [= <- <-] _].
    all: destruct (recv_any s3 l2 0) as [[err2 l3] s4]; case_if; by intros [= <- <-] _.
Qed.

Lemma loop_run_events h wi n : forall ls s r ev,
  loop_run n h wi ls s = (r, ev) -> TimedOut ∉ ev ->
  match r with
  | Next ls' _ => held_of ls ++ received_of ev = dispatched_of ev ++ held_of ls'
  | Exited _ => held_of ls ++ received_of ev = dispatched_of ev
  end.
Proof.
  induction n as [|n IH]; intros ls s r ev; cbn [loop_run].
  { intros [= <- <-] _. cbn. by rewrite app_nil_r. }
  destruct (loop_step h wi ls s) as [[ls1 s1|s1] ev1] eqn:E1.
  - destruct (loop_run n h wi ls1 s1) as [r2 ev2] eqn:E2. intros [= <- <-] Hn.
    apply not_elem_of_app in Hn as [Hn1 Hn2].
    pose proof (loop_step_events _ _ _ _ _ _ E1 Hn1) as H1. cbn in H1.
    pose proof (IH _ _ _ _ E2 Hn2) as H2.
    unfold received_of, dispatched_of in *. rewrite !omap_app.
    destruct r2 as [ls2 s2|s2]; rewrite app_assoc, H1, <- app_assoc, H2; by rewrite ?app_assoc.
  - intros [= <- <-] Hn. apply (loop_step_events _ _ _ _ _ _ E1 Hn).
Qed.
End loop.


(** A server with one endpoint; the receives have a time limit when [timed]. *)
Definition toy_server (timed : bool) : Pool unit :=
  with_cfg (set_world toy_pool (mkWorld [] (Some (mkCtx (Some empty_buffer) 0))))
    (mkCfg (9 :: replicate 464 0) 1 (Some 1) 1 None (if timed then Some 1 else None) None).

#[export] Instance timed_hooks : Hooks unit | 100 := {|
  worker_entry_trampoline := 0x401000;
  call_handler _ s m _ _ r := (Reply, m, r, s);
  call_hook _ _ s := s;
  call_timeout_ns _ _ s := (1000, s) |}.


(** The restriction on time-outs is needed: after a receive that timed out the
    loop starts over with the request it had already dispatched, so a server
    with a time limit handles one request once per time-out. *)
Definition impatient_kernel : Kernel := {|
  k_result tr c _ := if num c =? SYS_RECV_ANY_TIMED then mkResult 0 7 else mkResult TRONA_CANCELLED 0;
  k_buffer _ _ b := set_msg b (0x301 :: 0 :: replicate 32 5) |}.

Lemma timeout_dispatches_again :
  exists r ev m b src, @worker_ipc_loop unit impatient_kernel toy_slices toy_image timed_hooks 3 0
                 (toy_server true) = Some (r, ev) /\
    received_of ev = [(m, b, src)] /\ dispatched_of ev = [(m, b, src); (m, b, src)].
Proof. do 5 eexists. split; [vm_compute; reflexivity|]. vm_compute. split; reflexivity. Qed.
