(* ===== verification/Runtime.v ===== *)
(** The run-time part of the substrate library: the remaining wrappers of
    [src/substrate/syscall.rs], and of [src/substrate/lib.rs] the auxiliary
    vector and the slot pool it describes, the panic report, and the C entry
    points; and the framebuffer description of [src/substrate/framebuffer.rs]. *)

From S2P Require Import Prelude Consts SlotAlloc Kernel Invoke SlotExpand Ipc CapTable Layout Protocol InvokeOps Serial ByteMem.
Import String.StringSyntax.

Definition FUTEX_WAIT : Z := 0.
Definition FUTEX_WAKE : Z := 1.
Definition FUTEX_WAIT_TIMEOUT : Z := 2.
Definition AT_TRONA_CSPACE_LAYOUT : Z := 0x1005.
Definition AT_TRONA_CSPACE_NTFN : Z := 0x100A.

(** ** System calls *)

Section syscalls.
Context `{Kernel}.

Definition futex_wait (w : World) (addr expected : Z) : Z * World :=
  let '(r, w) := syscall w SYS_FUTEX addr FUTEX_WAIT expected 0 0 0 in (error r, w).
Definition futex_wait_timeout (w : World) (addr expected timeout_ns : Z) : Z * World :=
  let '(r, w) := syscall w SYS_FUTEX addr FUTEX_WAIT_TIMEOUT expected timeout_ns 0 0 in (error r, w).
Definition futex_wake (w : World) (addr count : Z) : Z * World :=
  let '(r, w) := syscall w SYS_FUTEX addr FUTEX_WAKE count 0 0 0 in (value r, w).

(** The state in which the thread, or the machine, stops. *)
Definition thread_exit (w : World) : World := snd (syscall w SYS_THREAD_EXIT 0 0 0 0 0 0).
Definition sys_shutdown (w : World) : World := snd (syscall w SYS_SHUTDOWN 0 0 0 0 0 0).

Definition has_buffer (c : option IpcContext) : bool :=
  match buffer_of c with Some _ => true | None => false end.

Definition sys_send_timed (w : World) (cap msg_info mr0 mr1 mr2 mr3 timeout_ns : Z) : Z * World :=
  if has_buffer (ctx w) then
    let w := with_ctx w (stage_timeout (ctx w) timeout_ns) in
    let '(r, w) := syscall w SYS_SEND_TIMED cap msg_info mr0 mr1 mr2 mr3 in (error r, w)
  else (TRONA_INVALID_OPERATION, w).

Definition sys_recv_timed (w : World) (cap timeout_ns : Z) : TronaResult * World :=
  if has_buffer (ctx w) then
    syscall (with_ctx w (stage_timeout (ctx w) timeout_ns)) SYS_RECV_TIMED cap 0 0 0 0 0
  else (mkResult TRONA_INVALID_OPERATION 0, w).
End syscalls.

(** ** The auxiliary vector and the slot pool *)

(** The statics: the saved vector (null before [runtime_set_auxv]) and the weak
    capability symbols, [__trona_cspace_ntfn] among them. *)
Record Runtime := mkRuntime {
  saved_auxv : option (list (Z * Z));
  cap_symbols : cap_store;
}.

Definition layout_at (mem : list Z) : TronaCspaceLayoutV1 :=
  let w i := le_read 8 mem (8 * i) in
  mkCspaceLayout (w 0%nat) (w 1%nat) (w 2%nat) (w 3%nat) (w 4%nat) (w 5%nat) (w 6%nat) (w 7%nat)
    (w 8%nat) (w 9%nat).

Section auxv.
Context (deref : Z -> list Z).

Fixpoint runtime_resolve_cspace_layout_from_auxv (auxv : list (Z * Z)) : option TronaCspaceLayoutV1 :=
  match auxv with
  | [] => None
  | (tag, val) :: rest =>
      if tag =? 0 then None
      else if (tag =? AT_TRONA_CSPACE_LAYOUT) && negb (val =? 0) then
        let layout := layout_at (deref val) in
        if version layout =? CSPACE_LAYOUT_VERSION then Some layout else None
      else runtime_resolve_cspace_layout_from_auxv rest
  end.

(** The last notification of the vector. *)
Fixpoint last_ntfn (auxv : list (Z * Z)) (ntfn : Z) : Z :=
  match auxv with
  | [] => ntfn
  | (tag, val) :: rest =>
      if tag =? 0 then ntfn
      else last_ntfn rest (if tag =? AT_TRONA_CSPACE_NTFN then val else ntfn)
  end.

Definition runtime_resolve_slot_pool_from_auxv (auxv : list (Z * Z)) : Z * Z * Z :=
  let '(slot_base, slot_count) :=
    match runtime_resolve_cspace_layout_from_auxv auxv with
    | Some layout => (alloc_base layout, alloc_count layout)
    | None => (0, 0)
    end in
  (slot_base, slot_count, last_ntfn auxv 0).

Definition runtime_set_auxv (r : Runtime) (auxv : option (list (Z * Z))) : Runtime :=
  mkRuntime auxv
    (match auxv with
     | Some l => snd (runtime_install_from_auxv deref l (cap_symbols r))
     | None => cap_symbols r
     end).

Definition runtime_get_cspace_layout (r : Runtime) : option TronaCspaceLayoutV1 :=
  saved_auxv r ≫= runtime_resolve_cspace_layout_from_auxv.

Definition runtime_get_slot_pool (r : Runtime) : option (Z * Z * Z) :=
  let '(slot_base, slot_count, ntfn) :=
    match saved_auxv r with
    | Some auxv => runtime_resolve_slot_pool_from_auxv auxv
    | None => (0, 0, 0)
    end in
  let exported := cap_symbols r cspace_ntfn in
  let ntfn := if negb (exported =? 0) then exported else ntfn in
  if negb (slot_base =? 0) && negb (slot_count =? 0) then Some (slot_base, slot_count, ntfn) else None.

Definition trona_runtime_set_auxv := runtime_set_auxv.

(** The three out-parameters; [None] is a null pointer. *)
Definition trona_runtime_get_slot_pool (r : Runtime) (base_out count_out ntfn_out : option Z)
    : Z * (option Z * option Z * option Z) :=
  match base_out, count_out, ntfn_out with
  | Some _, Some _, Some _ =>
      match runtime_get_slot_pool r with
      | Some (b, c, n) => (0, (Some b, Some c, Some n))
      | None => (-1, (base_out, count_out, ntfn_out))
      end
  | _, _, _ => (-1, (base_out, count_out, ntfn_out))
  end.
End auxv.

(** ** The panic report *)

Section panic.
Context `{Kernel} `{Slices} (pm : Cap).

Definition panic_getpid (w : World) : option Z * World :=
  let m := mkMsg PM_GETPID 0 (replicate 32 0) in
  let '(err, reply, w) := call_ctx w pm m (Some TronaMsg_zeroed) in
  let reply := default TronaMsg_zeroed reply in
  if negb (err =? 0) || negb (label reply =? TRONA_OK) then (None, w) else (Some (reg reply 0), w).

(** [location]: file, line and column; [message]: the formatted message.  The
    state is the one in which the thread starts to yield for ever. *)
Definition panic (w : World) (location : option (list Z * Z * Z)) (message : list Z) : World :=
  let l := line_str LineBuf_new (lit "[PANIC] userspace") in
  let '(pid, w) := panic_getpid w in
  let l := match pid with Some pid => line_dec (line_str l (lit " pid=")) pid | None => l end in
  let l :=
    match location with
    | Some (file, ln, col) =>
        let l := line_str (line_str l (lit " at ")) file in
        let l := line_dec (line_putc l 58) ln in
        line_dec (line_putc l 58) col
    | None => l
    end in
  let l := line_str (line_str l (lit ": ")) message in
  snd (line_flush (line_putc l 10) w).
End panic.

(** The report of a panic: one line, cut off at 255 bytes; a long message loses
    its newline. *)
Definition panic_text (pid : option Z) (location : option (list Z * Z * Z)) (message : list Z) : list Z :=
  lit "[PANIC] userspace" ++
  (match pid with Some pid => lit " pid=" ++ dec_text pid | None => [] end) ++
  (match location with
   | Some (file, ln, col) => lit " at " ++ file ++ [58] ++ dec_text ln ++ [58] ++ dec_text col
   | None => []
   end) ++ lit ": " ++ message ++ [10].

Lemma line_str_app lb a b : line_str (line_str lb a) b = line_str lb (a ++ b).
Proof. unfold line_str. by rewrite fold_left_app. Qed.

Lemma line_dec_str lb v : line_dec lb v = line_str lb (dec_text v).
Proof. unfold line_dec, dec_text. by destruct (v =? 0). Qed.

Lemma panic_prints `{Kernel} `{Slices} pm w location message :
  let '(pid, w') := panic_getpid pm w in
  panic pm w location message = serial_puts w' (take 255 (panic_text pid location message)).
Proof.
  unfold panic. destruct (panic_getpid pm w) as [pid w'].
  assert (Hp : forall lb c, line_putc lb c = line_str lb [c]) by done.
  set (l := line_putc _ 10).
  assert (Hl : l = line_str LineBuf_new (panic_text pid location message)).
  { unfold l, panic_text. destruct pid, location as [[[file ln] col]|];
      rewrite ?line_dec_str, ?Hp, ?line_dec_str, ?line_str_app, <- ?app_assoc; reflexivity. }
  destruct (line_str_spec (panic_text pid location message) LineBuf_new) as [Hwf Ht];
    [by vm_compute; lia|]. rewrite <- Hl in Hwf, Ht.
  change (line_text LineBuf_new ++ ?x) with x in Ht.
  unfold line_flush. unfold line_text in Ht. destruct (Nat.ltb_spec 0 (pos l)) as [_|Hz]; cbn [snd].
  - by rewrite Ht.
  - assert (pos l = 0%nat) as E by lia. rewrite E, take_0 in Ht. done.
Qed.

(** ** C entry points *)

Section c_abi.
Context `{Kernel} `{Slices}.
Implicit Types (w : World) (st : SlotAllocState).

Definition trona_invoke w (cap label arg0 arg1 arg2 arg3 : Z) := invoke w cap label arg0 arg1 arg2 arg3.
Definition trona_send w (ep : Cap) (m : TronaMsg) := send_ctx w ep m.
Definition trona_recv w (ep : Cap) (pmsg : option TronaMsg) (pbadge : option Z) :=
  recv_ctx w ep pmsg pbadge.
Definition trona_call w (ep : Cap) (m : TronaMsg) (reply : option TronaMsg) := call_ctx w ep m reply.
Definition trona_reply_recv w (ep : Cap) (reply : TronaMsg) (pmsg : option TronaMsg)
    (pbadge : option Z) := reply_recv_ctx w ep reply pmsg pbadge.
Definition trona_nbsend w (ep : Cap) (m : TronaMsg) := nbsend_ctx w ep m.

Definition trona_signal w (ntfn : Cap) (bits : Z) : Z * World :=
  let '(r, w) := syscall w SYS_SIGNAL ntfn bits 0 0 0 0 in (as_i32 (error r), w).
Definition trona_wait w (ntfn : Cap) : Z * World :=
  let '(r, w) := syscall w SYS_WAIT ntfn 0 0 0 0 0 in (value r, w).
Definition trona_poll w (ntfn : Cap) (bits : option Z) : Z * option Z * World :=
  let '(r, w) := syscall w SYS_POLL ntfn 0 0 0 0 0 in
  (as_i32 (error r), (if error r =? 0 then store bits (value r) else bits), w).

Definition trona_yield w : World := snd (syscall w SYS_YIELD 0 0 0 0 0 0).
Definition trona_debug_putchar w (c : Z) : World := snd (syscall w SYS_DEBUG_PUTCHAR c 0 0 0 0 0).
Definition trona_debug_dump_state w : World := snd (syscall w SYS_DEBUG_DUMP_STATE 0 0 0 0 0 0).

Definition trona_untyped_retype w (untyped new_type size_bits dest_slot : Z) := untyped_retype w untyped new_type size_bits dest_slot.
Definition trona_tcb_configure w (tcb rip rsp ipc_buf : Z) := tcb_configure w tcb rip rsp ipc_buf.
Definition trona_tcb_resume w (tcb : Z) := tcb_resume w tcb.
Definition trona_tcb_set_space w (tcb cspace vspace : Z) := tcb_set_space w tcb cspace vspace.
Definition trona_tcb_set_fault_handler w (tcb fault_ep : Z) := tcb_set_fault_handler w tcb fault_ep.
Definition trona_tcb_set_ipc_buffer w (tcb addr : Z) := tcb_set_ipc_buffer w tcb addr.
Definition trona_tcb_write_registers w (tcb flags rip rsp : Z) := tcb_write_registers w tcb flags rip rsp.
Definition trona_tcb_suspend w (tcb : Z) := tcb_suspend w tcb.
Definition trona_sc_configure w (sc budget_us period_us : Z) := sc_configure w sc budget_us period_us.
Definition trona_sc_bind w (sc tcb : Z) := sc_bind w sc tcb.
Definition trona_vspace_map w (vspace frame vaddr flags : Z) := vspace_map w vspace frame vaddr flags.
Definition trona_vspace_unmap w (vspace vaddr : Z) := vspace_unmap w vspace vaddr.
Definition trona_vspace_map_pt w (vspace frame vaddr level : Z) := vspace_map_pt w vspace frame vaddr level.
Definition trona_vspace_walk w (vspace start_vaddr max_entries : Z) := vspace_walk w vspace start_vaddr max_entries.
Definition trona_vspace_copy_page w (src_vspace src_vaddr dst_frame : Z) := vspace_copy_page w src_vspace src_vaddr dst_frame.
Definition trona_vspace_clone_cow_page w (src_vspace src_vaddr dst_vspace dst_vaddr : Z) := vspace_clone_cow_page w src_vspace src_vaddr dst_vspace dst_vaddr.
Definition trona_irq_handler_ack w (irq_handler : Z) := irq_handler_ack w irq_handler.
Definition trona_irq_handler_set_notification w (irq_handler ntfn : Z) := irq_handler_set_notification w irq_handler ntfn.
Definition trona_tcb_set_tls_base w (tcb tls_base : Z) := tcb_set_tls_base w tcb tls_base.
Definition trona_cnode_copy st w (src_cnode src_slot dest_cnode dest_slot rights : Z) :=
  cnode_copy st w src_cnode src_slot dest_cnode dest_slot rights.
Definition trona_cnode_mint st w (src_cnode src_slot dest_cnode dest_slot badge : Z) :=
  cnode_mint st w src_cnode src_slot dest_cnode dest_slot badge.
Definition trona_cnode_move st w (dest_cnode dest_slot src_cnode src_slot : Z) :=
  cnode_move st w dest_cnode dest_slot src_cnode src_slot.
Definition trona_cnode_mutate st w (dest_cnode dest_slot src_cnode src_slot badge : Z) :=
  cnode_mutate st w dest_cnode dest_slot src_cnode src_slot badge.
Definition trona_cnode_save_caller st w (cnode slot : Z) := cnode_save_caller st w cnode slot.
Definition trona_cnode_delete st w (cnode slot : Z) := cnode_delete st w cnode slot.
Definition trona_cnode_revoke st w (cnode slot : Z) := cnode_revoke st w cnode slot.

Definition trona_futex_wait w (addr expected : Z) : Z * World :=
  let '(r, w) := syscall w SYS_FUTEX addr FUTEX_WAIT expected 0 0 0 in (as_i32 (error r), w).
Definition trona_futex_wake w (addr count : Z) : Z * World :=
  let '(r, w) := syscall w SYS_FUTEX addr FUTEX_WAKE count 0 0 0 in (as_i32 (value r), w).
Definition trona_serial_hex w (val : Z) : World := serial_hex w val.
End c_abi.

(** ** The slot pool a child sees *)

Definition layout_words (l : TronaCspaceLayoutV1) : list Z :=
  [version l; cs_flags l; cnode_bits l; frame_slot_base l; alloc_base l; alloc_limit l; recv_base l;
   recv_limit l; expand_base l; expand_limit l].

(** The structure as the spawner copies it into the child's stack page. *)
Definition layout_bytes (l : TronaCspaceLayoutV1) : list Z := layout_words l ≫= le_bytes 8.

Lemma le_read_word ws rest i x :
  Forall u64 ws -> ws !! i = Some x -> le_read 8 ((ws ≫= le_bytes 8) ++ rest) (8 * i) = x.
Proof.
  revert i. induction ws as [|v ws IH]; intros i Hws Hi; [done|].
  apply Forall_cons in Hws as [Hv Hws]. cbn [mbind list_bind]. rewrite <- app_assoc.
  destruct i as [|i]; cbn in Hi.
  - injection Hi as ->. pose proof (le_read_app 8 [] x ((ws ≫= le_bytes 8) ++ rest)) as H0.
    apply H0. unfold u64, in_u in Hv. change (256 ^ Z.of_nat 8) with (2 ^ 64). lia.
  - replace (8 * S i)%nat with (length (le_bytes 8 v) + 8 * i)%nat by (rewrite length_le_bytes; lia).
    rewrite le_read_skip. by apply IH.
Qed.

Lemma layout_roundtrip l rest : Forall u64 (layout_words l) -> layout_at (layout_bytes l ++ rest) = l.
Proof.
  intros Hl. unfold layout_at, layout_bytes.
  destruct l. f_equal; by eapply (le_read_word (layout_words _) rest _ _ Hl).
Qed.

Lemma resolve_layout_found deref pre val post l :
  Forall (fun tv => tv.1 <> 0 /\ tv.1 <> AT_TRONA_CSPACE_LAYOUT) pre -> val <> 0 ->
  layout_at (deref val) = l -> version l = CSPACE_LAYOUT_VERSION ->
  runtime_resolve_cspace_layout_from_auxv deref (pre ++ (AT_TRONA_CSPACE_LAYOUT, val) :: post) = Some l.
Proof.
  intros Hpre Hval Hl Hv. induction Hpre as [|[t v] pre [Ht1 Ht2] _ IH];
    cbn [app runtime_resolve_cspace_layout_from_auxv].
  - destruct (Z.eqb_spec val 0); [done|]. rewrite Hl. cbn. rewrite Hv. done.
  - cbn in Ht1, Ht2. destruct (Z.eqb_spec t 0), (Z.eqb_spec t AT_TRONA_CSPACE_LAYOUT); done.
Qed.

Lemma compute_layout_u64 bits floor pr win :
  0 <= bits < 63 -> u64 floor -> Forall u64 (layout_words (compute_cspace_layout bits floor pr win)).
Proof.
  intros Hb Hf.
  pose proof (cspace_layout_spec bits floor pr win Hb ltac:(unfold u64, in_u in Hf; lia)) as Hs.
  cbv zeta in Hs. set (l := compute_cspace_layout bits floor pr win) in *.
  destruct Hs as (H1 & H2 & H3 & _ & _ & _ & H7 & _).
  assert (Ht : 0 < 2 ^ bits < 2 ^ 64) by (split; [apply Z.pow_pos_nonneg|apply Z.pow_lt_mono_r]; lia).
  unfold layout_words, CHILD_FRAME_SLOT_BASE, u64, in_u in *.
  assert (Hver : version l = 1 /\ cnode_bits l = bits /\ 0 <= cs_flags l < 4).
  { unfold l, compute_cspace_layout.
    destruct (recv_range _ _), (expand_range _ _). cbn [version cnode_bits cs_flags].
    split; [done|]. split; [done|]. repeat case_if; by vm_compute. }
  repeat (constructor; [lia|]). constructor.
Qed.

(** A child finds the slot pool its spawner planned.  When the spawner
    copies the planned CSpace layout to address [val] of the child and names it
    in the auxiliary vector, then after [runtime_set_auxv], wherever the entry
    stands among the others, the child reads the planned layout back; it gets
    the allocatable range as its slot pool exactly when the range is not empty;
    and the range lies inside the CNode, behind the fixed slots and apart from
    the receive and the expansion range. *)
Theorem slot_pool_roundtrip (deref : Z -> list Z) (r : Runtime) (bits floor val : Z)
    (pr : CspaceLayoutProfile) (win : bool) (pre post : list (Z * Z)) (rest : list Z)
    (l := compute_cspace_layout bits floor pr win)
    (r' := runtime_set_auxv deref r (Some (pre ++ (AT_TRONA_CSPACE_LAYOUT, val) :: post)))
    (Hbits : 0 <= bits < 63) (Hfloor : u64 floor) (Hval : val <> 0)
    (Hpre : Forall (fun tv => tv.1 <> 0 /\ tv.1 <> AT_TRONA_CSPACE_LAYOUT) pre)
    (Hmem : deref val = layout_bytes l ++ rest) :
  runtime_get_cspace_layout deref r' = Some l /\
  ((0 < alloc_count l /\ exists n,
      trona_runtime_get_slot_pool deref r' (Some 0) (Some 0) (Some 0)
        = (0, (Some (alloc_base l), Some (alloc_count l), Some n)) /\
      Z.max floor CHILD_FRAME_SLOT_BASE = alloc_base l /\ alloc_base l + alloc_count l <= 2 ^ bits /\
      disjoint_ranges (alloc_base l) (alloc_limit l) (recv_base l) (recv_limit l) /\
      disjoint_ranges (alloc_base l) (alloc_limit l) (expand_base l) (expand_limit l)) \/
   (alloc_count l = 0 /\
      trona_runtime_get_slot_pool deref r' (Some 0) (Some 0) (Some 0) = (-1, (Some 0, Some 0, Some 0)))).
Proof.
  assert (Hres : runtime_resolve_cspace_layout_from_auxv deref
                   (pre ++ (AT_TRONA_CSPACE_LAYOUT, val) :: post) = Some l).
  { apply resolve_layout_found; try done.
    - rewrite Hmem. apply layout_roundtrip. by apply compute_layout_u64.
    - unfold l, compute_cspace_layout. by destruct (recv_range _ _), (expand_range _ _). }
  destruct (cspace_layout_spec bits floor pr win Hbits ltac:(unfold u64, in_u in Hfloor; lia))
    as (Ha & _ & _ & Hr & He & Hbase & Hfr & _). fold l in Ha, Hr, He, Hbase, Hfr.
  split; [exact Hres|].
  unfold trona_runtime_get_slot_pool, runtime_get_slot_pool, runtime_resolve_slot_pool_from_auxv.
  cbn [saved_auxv r' runtime_set_auxv cap_symbols]. rewrite Hres.
  set (n := if negb (_ =? 0) then _ else last_ntfn _ 0).
  assert (Hc : alloc_count l = alloc_limit l - alloc_base l).
  { unfold alloc_count. rewrite Z.gtb_ltb. case_if; bprop; lia. }
  destruct (Z.eqb_spec (alloc_count l) 0) as [E|E]; [right|left].
  - split; [done|]. by rewrite andb_false_r.
  - assert (0 < alloc_count l) as Hpos by lia. rewrite Hbase in * by done.
    unfold CHILD_FRAME_SLOT_BASE in *. destruct (Z.eqb_spec (frame_slot_base l) 0); [lia|].
    split; [done|]. exists n. cbn. split; [done|]. split; [lia|]. split; [lia|]. done.
Qed.

Lemma slot_pool_roundtrip_witness :
  let l := compute_cspace_layout 12 64 DefaultService true in
  runtime_get_cspace_layout (fun _ => layout_bytes l)
    (runtime_set_auxv (fun _ => layout_bytes l) (mkRuntime None store_init)
       (Some [(6, 4096); (AT_TRONA_CSPACE_LAYOUT, 0x7000); (0, 0)])) = Some l.
Proof.
  cbv zeta.
  refine (proj1 (slot_pool_roundtrip (fun _ => layout_bytes _) (mkRuntime None store_init) 12 64 0x7000
    DefaultService true [(6, 4096)] [(0, 0)] [] _ _ _ _ _)).
  - lia.
  - unfold u64, in_u. lia.
  - done.
  - repeat constructor; done.
  - by rewrite app_nil_r.
Defined.

(** * The framebuffer description of the boot information page ([src/substrate/framebuffer.rs]) *)

Record FramebufferInfo := mkFb {
  phys_addr : Z;
  fb_width : Z;
  fb_height : Z;
  fb_pitch : Z;
  bpp : Z;
  red_pos : Z;
  red_size : Z;
  green_pos : Z;
  green_size : Z;
  blue_pos : Z;
  blue_size : Z;
}.

Definition read_framebuffer_info (m : Mem) : option FramebufferInfo :=
  let page := BOOTINFO_VADDR in
  let magic := load64 m page in
  if negb (magic =? BOOTINFO_MAGIC) then None
  else
    let fb_addr := load64 m (page + 8 * 3) in
    if fb_addr =? 0 then None
    else Some (mkFb fb_addr (load32 m (page + 32)) (load32 m (page + 36)) (load32 m (page + 40))
                 (m (page + 44)) (m (page + 45)) (m (page + 46)) (m (page + 47)) (m (page + 48))
                 (m (page + 49)) (m (page + 50))).

(** A page as the layout comments of the reader describe it. *)
Definition write_bootinfo (m : Mem) (magic : Z) (fb : FramebufferInfo) : Mem :=
  let page := BOOTINFO_VADDR in
  let m := write_list m (page + 44) [bpp fb; red_pos fb; red_size fb; green_pos fb; green_size fb; blue_pos fb; blue_size fb] in
  let m := store32 (store32 (store32 m (page + 32) (fb_width fb)) (page + 36) (fb_height fb)) (page + 40) (fb_pitch fb) in
  store64 (store64 m (page + 24) (phys_addr fb)) page magic.

(** What is in the page is what is read; a wrong magic number or a null address
    means that there is no framebuffer. *)
Lemma framebuffer_roundtrip m magic fb :
  u64 magic -> u64 (phys_addr fb) -> u32 (fb_width fb) -> u32 (fb_height fb) -> u32 (fb_pitch fb) ->
  read_framebuffer_info (write_bootinfo m magic fb) =
    if (magic =? BOOTINFO_MAGIC) && negb (phys_addr fb =? 0) then Some fb else None.
Proof.
  intros H1 H2 H3 H4 H5. unfold read_framebuffer_info, write_bootinfo. set (page := BOOTINFO_VADDR).
  assert (Hb : forall i b, [bpp fb; red_pos fb; red_size fb; green_pos fb; green_size fb; blue_pos fb; blue_size fb] !! i = Some b ->
    forall m', (forall x, page + 44 <= x -> m' x = write_list m (page + 44)
      [bpp fb; red_pos fb; red_size fb; green_pos fb; green_size fb; blue_pos fb; blue_size fb] x) -> m' (page + 44 + Z.of_nat i) = b).
  { intros i b E m' Hm. rewrite Hm by lia. by apply write_list_in. }
  set (m1 := write_list m (page + 44) _) in *.
  clearbody page. change (8 * 3) with 24. autorewrite with mem; try done.
  destruct (magic =? BOOTINFO_MAGIC); [|done]. cbn [negb andb].
  destruct (phys_addr fb =? 0); [done|]. cbn [negb].
  set (m2 := store64 _ page magic).
  assert (Hm2 : forall x, page + 44 <= x -> m2 x = m1 x).
  { intros x Hx. unfold m2. rewrite !store64_out, !store32_out by lia. done. }
  destruct fb as [a0 a1 a2 a3 a4 a5 a6 a7 a8 a9 a10]. f_equal. cbn [phys_addr fb_width fb_height fb_pitch].
  pose proof (fun i b E => Hb i b E m2 Hm2) as Hbs. clear Hb. clearbody m2.
  f_equal.
  - rewrite <- (Z.add_0_r (page + 44)). exact (Hbs 0%nat a4 eq_refl).
  - replace (page + 45) with (page + 44 + Z.of_nat 1) by lia. exact (Hbs 1%nat a5 eq_refl).
  - replace (page + 46) with (page + 44 + Z.of_nat 2) by lia. exact (Hbs 2%nat a6 eq_refl).
  - replace (page + 47) with (page + 44 + Z.of_nat 3) by lia. exact (Hbs 3%nat a7 eq_refl).
  - replace (page + 48) with (page + 44 + Z.of_nat 4) by lia. exact (Hbs 4%nat a8 eq_refl).
  - replace (page + 49) with (page + 44 + Z.of_nat 5) by lia. exact (Hbs 5%nat a9 eq_refl).
  - replace (page + 50) with (page + 44 + Z.of_nat 6) by lia. exact (Hbs 6%nat a10 eq_refl).
Qed.
