(* ===== verification/Signals.v ===== *)
(** The statics of the POSIX personality and the monad its thread and signal
    functions run in.

    [Posix] collects the statics of [src/posix/lib.rs], [pthread.rs], [tls.rs],
    [misc.rs] and [bulk.rs]; it is the personality part of the process state of
    file Tls.  A function of [src/posix] over the servers (file PosixClient)
    runs in this state through [posix]. *)

From S2P Require Import Prelude Consts SlotAlloc Kernel Invoke Ipc PosixCall Protocol PosixClient InvokeOps Serial ByteMem Tls.

(** ** State *)

(** [PosixThreadExt]; its atomics are read and written one at a time. *)
Record PosixThreadExt := mkExt {
  procmgr_tid : Z;
  x_tcb_cap : Cap;
  x_stack_base : Z;
  x_stack_size : Z;
  detached : Z;
}.
Definition PosixThreadExt_zeroed : PosixThreadExt := mkExt 0 0 0 0 0.

Record Posix := mkPosix {
  ext_pool : list PosixThreadExt;   (* POSIX_EXT_POOL *)
  next_free_hint : nat;             (* NEXT_FREE_HINT *)
  ipc_buf_next : Z;                 (* IPC_BUF_NEXT *)
  sig_handlers : list Z;            (* __sig_handlers *)
  sig_initialized : Z;              (* __sig_initialized *)
  sig_blocked_mask : Z;             (* __sig_blocked_mask *)
  sig_sa_mask : list Z;             (* __sig_sa_mask *)
  sig_sa_flags : list Z;            (* __sig_sa_flags, i32 *)
  sig_last_restart : bool;          (* __sig_last_restart *)
  umask_cache : Z;                  (* UMASK_CACHE *)
  bulk_addr : Z;                    (* BULK_SHM_ADDR *)
  bulk_state : Z;                   (* BULK_SHM_STATE *)
  global_errno : Z;                 (* GLOBAL_ERRNO *)
  cancel_hook : Z;                  (* CANCEL_HOOK of the substrate *)
}.

Definition set_ext_pool (x : Posix) v := mkPosix v (next_free_hint x) (ipc_buf_next x) (sig_handlers x)
  (sig_initialized x) (sig_blocked_mask x) (sig_sa_mask x) (sig_sa_flags x) (sig_last_restart x)
  (umask_cache x) (bulk_addr x) (bulk_state x) (global_errno x) (cancel_hook x).
Definition set_hint (x : Posix) v := mkPosix (ext_pool x) v (ipc_buf_next x) (sig_handlers x)
  (sig_initialized x) (sig_blocked_mask x) (sig_sa_mask x) (sig_sa_flags x) (sig_last_restart x)
  (umask_cache x) (bulk_addr x) (bulk_state x) (global_errno x) (cancel_hook x).
Definition set_ipc_next (x : Posix) v := mkPosix (ext_pool x) (next_free_hint x) v (sig_handlers x)
  (sig_initialized x) (sig_blocked_mask x) (sig_sa_mask x) (sig_sa_flags x) (sig_last_restart x)
  (umask_cache x) (bulk_addr x) (bulk_state x) (global_errno x) (cancel_hook x).
Definition set_handlers (x : Posix) v := mkPosix (ext_pool x) (next_free_hint x) (ipc_buf_next x) v
  (sig_initialized x) (sig_blocked_mask x) (sig_sa_mask x) (sig_sa_flags x) (sig_last_restart x)
  (umask_cache x) (bulk_addr x) (bulk_state x) (global_errno x) (cancel_hook x).
Definition set_initialized (x : Posix) v := mkPosix (ext_pool x) (next_free_hint x) (ipc_buf_next x)
  (sig_handlers x) v (sig_blocked_mask x) (sig_sa_mask x) (sig_sa_flags x) (sig_last_restart x)
  (umask_cache x) (bulk_addr x) (bulk_state x) (global_errno x) (cancel_hook x).
Definition set_blocked (x : Posix) v := mkPosix (ext_pool x) (next_free_hint x) (ipc_buf_next x)
  (sig_handlers x) (sig_initialized x) v (sig_sa_mask x) (sig_sa_flags x) (sig_last_restart x)
  (umask_cache x) (bulk_addr x) (bulk_state x) (global_errno x) (cancel_hook x).
Definition set_restart (x : Posix) v := mkPosix (ext_pool x) (next_free_hint x) (ipc_buf_next x)
  (sig_handlers x) (sig_initialized x) (sig_blocked_mask x) (sig_sa_mask x) (sig_sa_flags x) v
  (umask_cache x) (bulk_addr x) (bulk_state x) (global_errno x) (cancel_hook x).
Definition set_cancel_hook (x : Posix) v := mkPosix (ext_pool x) (next_free_hint x) (ipc_buf_next x)
  (sig_handlers x) (sig_initialized x) (sig_blocked_mask x) (sig_sa_mask x) (sig_sa_flags x)
  (sig_last_restart x) (umask_cache x) (bulk_addr x) (bulk_state x) (global_errno x) v.
Definition set_client (x : Posix) u a s := mkPosix (ext_pool x) (next_free_hint x) (ipc_buf_next x)
  (sig_handlers x) (sig_initialized x) (sig_blocked_mask x) (sig_sa_mask x) (sig_sa_flags x)
  (sig_last_restart x) u a s (global_errno x) (cancel_hook x).

Abbreviation PProc := (Tls.Proc Posix).

(** ** The monad *)

(** A result, an early [return] of the function at hand, the end of the thread
    or process, or a call that has not returned within the given attempts. *)
Inductive Out (A : Type) := Val (a : A) | Ret (code : Z) | Gone | Stuck.
Arguments Val {A} _.
Arguments Ret {A} _.
Arguments Gone {A}.
Arguments Stuck {A}.

Definition PT (A : Type) : Type := PProc -> Out A * PProc.

#[export] Instance PT_ret : MRet PT := fun A a p => (Val a, p).
#[export] Instance PT_bind : MBind PT := fun A B f m p =>
  match m p with
  | (Val a, p') => f a p'
  | (Ret c, p') => (Ret c, p')
  | (Gone, p') => (Gone, p')
  | (Stuck, p') => (Stuck, p')
  end.

(** The value or the early return of a function body. *)
Definition body (f : PT Z) : PT Z := fun p =>
  match f p with (Ret c, p') => (Val c, p') | r => r end.

Definition gets {A} (f : PProc -> A) : PT A := fun p => (Val (f p), p).
Definition modify (f : PProc -> PProc) : PT unit := fun p => (Val (), f p).
Definition returns {A} (c : Z) : PT A := fun p => (Ret c, p).
Definition gone {A} : PT A := fun p => (Gone, p).

Definition with_x (p : PProc) (f : Posix -> Posix) : PProc := with_ext p (f (p_ext p)).
Definition mod_x (f : Posix -> Posix) : PT unit := modify (fun p => with_x p f).
Definition mod_world (f : World -> World) : PT unit := modify (fun p => with_world p (f (p_world p))).
Definition world_call {A} (f : World -> A * World) : PT A := fun p =>
  let '(a, w) := f (p_world p) in (Val a, with_world p w).

Definition mod_desc (i : nat) (f : ThreadDesc -> ThreadDesc) : PT unit :=
  modify (fun p => set_desc p i (f (thread_desc p i))).
Definition mod_mem (f : Mem -> Mem) : PT unit := modify (fun p => with_mem p (f (p_mem p))).

(** [ext_ptr(i)] *)
Definition ext (p : PProc) (i : nat) : PosixThreadExt :=
  default PosixThreadExt_zeroed (ext_pool (p_ext p) !! i).
Definition mod_ext (i : nat) (f : PosixThreadExt -> PosixThreadExt) : PT unit :=
  modify (fun p => with_x p (fun x => set_ext_pool x (<[i := f (ext p i)]> (ext_pool x)))).

Section client.
Context `{Kernel}.

(** A wrapper of [src/posix] over the transport the process has, with at most
    [fuel] attempts for each of its calls. *)
Definition posix (fuel : nat) {A} (f : forall r, PosixClient.M (H := ipc_transport fuel r) A) : PT A :=
  fun p =>
  let x := p_ext p in
  match f (fun _ => sig_last_restart x)
          (@PosixClient.mkProc (ipc_transport fuel (fun _ => sig_last_restart x))
             (p_world p) (umask_cache x) (bulk_addr x) (bulk_state x)) with
  | Some (a, q) => (Val a, with_x (with_world p (pr_w q))
                             (fun x => set_client x (pr_umask q) (pr_bulk_addr q) (pr_bulk_state q)))
  | None => (Stuck, p)
  end.

(** [posix_exit]: the request is sent, and the thread does not go on. *)
Definition exit_process (fuel : nat) (pm : Cap) {A} (status : Z) : PT A := fun p =>
  let '(_, p) := posix fuel (fun r => call false pm (mk PM_EXIT 1 [as_u64 status])) p in (Gone, p).
End client.

(** * Signals ([src/posix/signals.rs]) *)

Definition SIGKILL : Z := 9.
Definition SIGCHLD : Z := 17.
Definition SIGCONT : Z := 18.
Definition SIGSTOP : Z := 19.
Definition SIGTSTP : Z := 20.
Definition SIGTTIN : Z := 21.
Definition SIGTTOU : Z := 22.
Definition NSIG : nat := 32.
Definition SIG_DISP_DFL : Z := 0.
Definition SIG_DISP_IGN : Z := 1.
Definition SIG_DISP_CATCH : Z := 2.
Definition SA_RESETHAND : Z := as_i32 0x80000000.
Definition SA_RESTART : Z := 0x10000000.
Definition SIG_DFL : Z := 0.
Definition SIG_IGN : Z := 1.
Definition SYS_NOTIF_RETURN : Z := 27.
Definition NOTIFFRAME_MAGIC : Z := 0x5A1753494746524D.

(** The default action is to terminate. *)
Definition sig_default_action (sig : Z) : bool :=
  negb ((sig =? SIGCHLD) || (sig =? SIGCONT) || (sig =? SIGSTOP) || (sig =? SIGTSTP) ||
        (sig =? SIGTTIN) || (sig =? SIGTTOU)).

(** Offsets in the frame the kernel pushes ([SigFrame]). *)
Definition off_notification_bits (a : Arch) : Z := match a with X86_64 => 144 | AArch64 => 272 end.
Definition off_magic (a : Arch) : Z := match a with X86_64 => 184 | AArch64 => 312 end.

Class SigCalls := {
  call_sig : Z -> Z -> PProc -> PProc;     (* handler, signal *)
  dispatcher_addr : Z;                     (* __signal_dispatcher *)
  sig_ntfn : Cap;                          (* caps::signal_ntfn() *)
}.

Section signals.
Context `{Kernel} `{!Image Posix} `{!SigCalls} (fuel : nat).

Definition sig_init : PT unit := modify (fun p =>
  if sig_initialized (p_ext p) =? 0 then
    let p := with_x p (fun x => set_initialized x 1) in
    let w := snd (tcb_bind_notification (p_world p) CAP_SELF_TCB sig_ntfn) in
    with_world p (snd (tcb_set_notification_dispatcher w CAP_SELF_TCB dispatcher_addr))
  else p).

Definition sig_reinit_after_fork : PT unit :=
  i ← gets (fun p => sig_initialized (p_ext p));
  if i =? 0 then mret ()
  else mod_x (fun x => set_initialized x 0) ≫= fun _ =>
       sig_init ≫= fun _ => mod_x (fun x => set_restart x false).

Definition handler_of (p : PProc) (sig : Z) : Z := default 0 (sig_handlers (p_ext p) !! Z.to_nat sig).
Definition store_handler (sig h : Z) : PT unit :=
  mod_x (fun x => set_handlers x (<[Z.to_nat sig := h]> (sig_handlers x))).

Definition posix_signal (sig handler : Z) : PT Z := body (
  sig_init ≫= fun _ =>
  if (sig <=? 0) || (Z.of_nat NSIG <=? sig) || (sig =? SIGKILL) || (sig =? SIGSTOP) then returns U64_MAX
  else if handler =? U64_MAX then returns U64_MAX
  else
    old ← gets (fun p => handler_of p sig);
    store_handler sig handler ≫= fun _ =>
    let disp := if handler =? SIG_DFL then SIG_DISP_DFL
                else if handler =? SIG_IGN then SIG_DISP_IGN else SIG_DISP_CATCH in
    r ← posix fuel (fun _ => call false pm_ep (mk PM_SIGACTION 2 [sig; disp]));
    let '(err, reply) := r in
    if failed err reply then store_handler sig old ≫= fun _ => returns U64_MAX else mret old).

(** A caught signal: the mask, SA_RESETHAND, the handler, the mask again. *)
Definition run_handler (handler sig : Z) : PT unit :=
  saved_mask ← gets (fun p => sig_blocked_mask (p_ext p));
  sa_mask ← gets (fun p => default 0 (sig_sa_mask (p_ext p) !! Z.to_nat sig));
  mod_x (fun x => set_blocked x (Z.lor (Z.lor saved_mask sa_mask) (Z.shiftl 1 sig))) ≫= fun _ =>
  sa_flags ← gets (fun p => default 0 (sig_sa_flags (p_ext p) !! Z.to_nat sig));
  (if negb (Z.land sa_flags SA_RESETHAND =? 0) then
     store_handler sig SIG_DFL ≫= fun _ =>
     mod_world (fun w => snd (call_ctx w pm_ep (mk PM_SIGACTION 2 [sig; SIG_DISP_DFL])
                                (Some TronaMsg_zeroed)))
   else mret ()) ≫= fun _ =>
  modify (call_sig handler sig) ≫= fun _ =>
  mod_x (fun x => set_blocked x saved_mask).

(** What the delivery of one unblocked signal does. *)
Definition act (sig : Z) : PT unit :=
  handler ← gets (fun p => handler_of p sig);
  if handler =? SIG_IGN then mret ()
  else if handler =? SIG_DFL then
    if sig_default_action sig then exit_process fuel pm_ep (128 + sig) else mret ()
  else run_handler handler sig.

Definition sig_numbers : list Z := map Z.of_nat (seq 1 (NSIG - 1)).

Definition pending (bits sig : Z) : bool := negb (Z.land bits (Z.shiftl 1 sig) =? 0).

(** The loop of [posix_sigcheck]: signals to post again, signals dispatched. *)
Fixpoint check_loop (sigs : list Z) (bits blocked repost dispatched : Z) : PT (Z * Z) :=
  match sigs with
  | [] => mret (repost, dispatched)
  | sig :: rest =>
      if negb (pending bits sig) then check_loop rest bits blocked repost dispatched
      else if pending blocked sig then
        check_loop rest bits blocked (Z.lor repost (Z.shiftl 1 sig)) dispatched
      else act sig ≫= fun _ => check_loop rest bits blocked repost (dispatched + 1)
  end.

Definition repost_signals (repost : Z) : PT unit :=
  if negb (repost =? 0) then mod_world (fun w => snd (syscall w SYS_SIGNAL sig_ntfn repost 0 0 0 0))
  else mret ().

Definition posix_sigcheck : PT Z :=
  sig_init ≫= fun _ =>
  r ← world_call (fun w => syscall w SYS_POLL sig_ntfn 0 0 0 0 0);
  let err := as_i32 (error r) in
  let bits := if err =? 0 then value r else 0 in
  if negb (err =? 0) || (bits =? 0) then mret 0
  else
    blocked ← gets (fun p => sig_blocked_mask (p_ext p));
    rd ← check_loop sig_numbers bits blocked 0 0;
    let '(repost, dispatched) := rd in
    repost_signals repost ≫= fun _ => mret dispatched.

(** Whether a caught signal lacks SA_RESTART. *)
Definition no_restart (p : PProc) (sig : Z) : bool :=
  negb (handler_of p sig =? SIG_IGN) && negb (handler_of p sig =? SIG_DFL) &&
  (Z.land (default 0 (sig_sa_flags (p_ext p) !! Z.to_nat sig)) SA_RESTART =? 0).

Fixpoint dispatch_loop (sigs : list Z) (bits blocked repost dispatched : Z) (any_no_restart : bool)
    : PT (Z * Z * bool) :=
  match sigs with
  | [] => mret (repost, dispatched, any_no_restart)
  | sig :: rest =>
      if negb (pending bits sig) then dispatch_loop rest bits blocked repost dispatched any_no_restart
      else if pending blocked sig then
        dispatch_loop rest bits blocked (Z.lor repost (Z.shiftl 1 sig)) dispatched any_no_restart
      else
        nr ← gets (fun p => no_restart p sig);
        act sig ≫= fun _ =>
        dispatch_loop rest bits blocked repost (dispatched + 1) (any_no_restart || nr)
  end.

Definition dispatch_signal_bits (bits : Z) : PT Z :=
  blocked ← gets (fun p => sig_blocked_mask (p_ext p));
  rd ← dispatch_loop sig_numbers bits blocked 0 0 false;
  let '(repost, dispatched, any_no_restart) := rd in
  repost_signals repost ≫= fun _ =>
  mod_x (fun x => set_restart x ((0 <? dispatched) && negb any_no_restart)) ≫= fun _ =>
  mret dispatched.

(** [__signal_dispatcher]: ends with the kernel restoring the interrupted
    context. *)
Definition signal_dispatcher (frame_ptr : Z) : PT unit :=
  sig_init ≫= fun _ =>
  magic ← gets (fun p => load64 (p_mem p) (frame_ptr + off_magic arch));
  if negb (magic =? NOTIFFRAME_MAGIC) then exit_process fuel pm_ep (128 + 11)
  else
    bits ← gets (fun p => load64 (p_mem p) (frame_ptr + off_notification_bits arch));
    (if negb (bits =? 0) then dispatch_signal_bits bits else mret 0) ≫= fun _ =>
    mod_world (fun w => snd (syscall w SYS_NOTIF_RETURN frame_ptr 0 0 0 0 0)) ≫= fun _ =>
    gone.
End signals.
