(* ===== verification/SignalTheorems.v ===== *)
(** What the delivery of signals does: which handlers run, in which order and
    under which mask, what stays pending, and what is left behind. *)

From S2P Require Import Prelude Consts Kernel SlotAlloc Invoke Ipc InvokeOps PosixCall Protocol PosixClient Serial ByteMem Tls Signals.

(** ** Bit masks *)

Lemma pending_testbit bits s : 0 <= s -> pending bits s = Z.testbit bits s.
Proof.
  intros Hs. unfold pending. rewrite Z.shiftl_1_l.
  destruct (Z.testbit bits s) eqn:E; destruct (Z.eqb_spec (Z.land bits (2 ^ s)) 0) as [E0|E0]; try done; exfalso.
  - apply (f_equal (fun z => Z.testbit z s)) in E0.
    rewrite Z.land_spec, Z.pow2_bits_true, E, Z.bits_0 in E0 by done. done.
  - apply E0. apply Z.bits_inj'. intros i Hi. rewrite Z.land_spec, Z.pow2_bits_eqb, Z.bits_0 by done.
    destruct (Z.eqb_spec s i) as [->|]; [by rewrite E|by rewrite andb_false_r].
Qed.

Lemma sig_numbers_spec s : s ∈ sig_numbers <-> 1 <= s < 32.
Proof.
  unfold sig_numbers. rewrite list_elem_of_In, in_map_iff. split.
  - intros (n & <- & Hn%in_seq). unfold NSIG in Hn. lia.
  - intros Hs. exists (Z.to_nat s). split; [lia|]. apply in_seq. unfold NSIG. lia.
Qed.

Lemma sig_numbers_nodup : NoDup sig_numbers.
Proof. by apply (bool_decide_unpack _); vm_compute. Qed.

(** ** Effects of the primitive steps *)

(** A log of the handler calls that the handlers keep in memory, and handlers
    that leave the dispositions alone. *)
Class Observed `{!SigCalls} (log : Mem -> list (Z * Z * Z)) : Prop := {
  ob_log h s p : log (p_mem (call_sig h s p)) =
                 log (p_mem p) ++ [(h, s, sig_blocked_mask (p_ext p))];
  ob_handlers h s p : sig_handlers (p_ext (call_sig h s p)) = sig_handlers (p_ext p);
  ob_sa_mask h s p : sig_sa_mask (p_ext (call_sig h s p)) = sig_sa_mask (p_ext p);
  ob_sa_flags h s p : sig_sa_flags (p_ext (call_sig h s p)) = sig_sa_flags (p_ext p);
}.

Section spec.
Context `{Kernel} `{!Image Posix} `{!SigCalls} (fuel : nat) (log : Mem -> list (Z * Z * Z)) `{!Observed log}.
Implicit Types p : PProc.

Definition caught p (s : Z) : bool := negb (handler_of p s =? SIG_IGN) && negb (handler_of p s =? SIG_DFL).
Definition fatal p (s : Z) : bool := (handler_of p s =? SIG_DFL) && sig_default_action s.
Definition resets p (s : Z) : bool :=
  negb (Z.land (default 0 (sig_sa_flags (p_ext p) !! Z.to_nat s)) SA_RESETHAND =? 0).
Definition restarts p (s : Z) : bool :=
  negb (Z.land (default 0 (sig_sa_flags (p_ext p) !! Z.to_nat s)) SA_RESTART =? 0).

(** The call a caught signal gets: handler, signal, and the mask during it. *)
Definition entry p (s : Z) : Z * Z * Z :=
  (handler_of p s, s,
   Z.lor (Z.lor (sig_blocked_mask (p_ext p)) (default 0 (sig_sa_mask (p_ext p) !! Z.to_nat s)))
         (Z.shiftl 1 s)).

(** The state after the signals [l] of [p] have been delivered. *)
Record Delivered p (l : list Z) p' : Prop := {
  dl_log : log (p_mem p') = log (p_mem p) ++ map (entry p) (List.filter (caught p) l);
  dl_mask : sig_blocked_mask (p_ext p') = sig_blocked_mask (p_ext p);
  dl_sa_mask : sig_sa_mask (p_ext p') = sig_sa_mask (p_ext p);
  dl_sa_flags : sig_sa_flags (p_ext p') = sig_sa_flags (p_ext p);
  dl_handlers : forall s, 0 <= s -> handler_of p' s =
    if bool_decide (s ∈ l) && caught p s && resets p s then SIG_DFL else handler_of p s;
}.

Lemma delivered_nil p : Delivered p [] p.
Proof. split; try done. cbn. by rewrite app_nil_r. Qed.

Lemma delivered_cons p p' p'' s l :
  Delivered p [s] p' -> Delivered p' l p'' -> s ∉ l -> Forall (fun z => 0 <= z) (s :: l) ->
  Delivered p (s :: l) p''.
Proof.
  intros [L1 M1 A1 F1 H1] [L2 M2 A2 F2 H2] Hs [Hs0 Hl]%Forall_cons.
  assert (Hsame : forall z, z ∈ l -> handler_of p' z = handler_of p z).
  { intros z Hz. rewrite Forall_forall in Hl. rewrite H1 by (by apply Hl).
    rewrite bool_decide_eq_false_2; [done|]. intros ->%list_elem_of_singleton. done. }
  assert (Hent : forall z, z ∈ l -> caught p' z = caught p z /\ entry p' z = entry p z).
  { intros z Hz. unfold caught, entry. by rewrite Hsame, M1, A1. }
  split; [|congruence..|].
  - rewrite L2, L1, <- app_assoc. f_equal. cbn [List.filter].
    assert (List.filter (caught p') l = List.filter (caught p) l) as ->.
    { clear -Hent. induction l as [|z l IH]; [done|]. cbn. destruct (Hent z) as [-> _]; [left|].
      rewrite IH; [done|]. intros y Hy. apply Hent. by right. }
    rewrite <- (map_ext_in (entry p)) with (g := entry p'); [by destruct (caught p s)|].
    intros z [Hz _]%filter_In. symmetry. apply Hent. by apply list_elem_of_In.
  - intros z Hz. rewrite H2, H1 by done.
    unfold resets. rewrite F1. fold (resets p z).
    destruct (decide (z = s)) as [->|Hne].
    + rewrite (bool_decide_eq_false_2 (s ∈ l)) by done. cbn [andb].
      rewrite !bool_decide_eq_true_2 by (by left). done.
    + rewrite (bool_decide_eq_false_2 (z ∈ [s])) by (by intros ->%list_elem_of_singleton). cbn [andb].
      destruct (decide (z ∈ l)) as [Hzl|Hzl].
      * rewrite !bool_decide_eq_true_2 by (by try right). by rewrite (proj1 (Hent z Hzl)).
      * rewrite !bool_decide_eq_false_2; [done| |done]. by intros [?| ?]%elem_of_cons.
Qed.

Lemma handler_store p s h z :
  0 <= s -> 0 <= z -> h = SIG_DFL ->
  default 0 (<[Z.to_nat s := h]> (sig_handlers (p_ext p)) !! Z.to_nat z)
    = if decide (z = s) then SIG_DFL else handler_of p z.
Proof.
  intros Hs Hz ->. unfold handler_of. destruct (decide (z = s)) as [->|Hne].
  - destruct (decide (Z.to_nat s < length (sig_handlers (p_ext p)))%nat).
    + by rewrite list_lookup_insert_eq.
    + rewrite lookup_ge_None_2; [done|]. rewrite length_insert. lia.
  - by rewrite list_lookup_insert_ne by lia.
Qed.

Lemma run_handler_spec p s :
  0 <= s -> caught p s = true ->
  exists p', run_handler (handler_of p s) s p = (Val (), p') /\ Delivered p [s] p'.
Proof.
  intros Hs Hc.
  cbv [run_handler mbind PT_bind gets mod_x modify store_handler mod_world mret PT_ret with_x].
  cbn [p_ext p_mem sig_sa_flags set_blocked with_ext]. fold (resets p s).
  set (p1 := with_ext p (set_blocked (p_ext p) _)).
  destruct (resets p s) eqn:Er; cbn [fst snd]; (eexists; split; [reflexivity|]).
  - set (p2 := with_world _ _).
    assert (Hx : p_ext p2 = set_handlers (p_ext p1) (<[Z.to_nat s := SIG_DFL]> (sig_handlers (p_ext p1)))
                 /\ p_mem p2 = p_mem p) by done. destruct Hx as [Hx Hm].
    split; cbn [p_mem p_ext with_ext with_world set_blocked sig_blocked_mask sig_sa_mask sig_sa_flags sig_handlers].
    + rewrite ob_log, Hm, Hx. cbn [List.filter map]. rewrite Hc. done.
    + done.
    + by rewrite ob_sa_mask, Hx.
    + by rewrite ob_sa_flags, Hx.
    + intros z Hz. unfold handler_of at 1. cbn [p_ext with_ext set_blocked sig_handlers].
      rewrite ob_handlers, Hx. cbn [set_handlers sig_handlers p1 p_ext with_ext set_blocked].
      rewrite (handler_store p s SIG_DFL z) by done. rewrite bool_decide_decide.
      destruct (decide (z = s)) as [->|Hne].
      * rewrite decide_True by (by left). by rewrite Hc, Er.
      * rewrite decide_False by (by intros ->%list_elem_of_singleton). done.
  - split; cbn [p_mem p_ext with_ext set_blocked sig_blocked_mask sig_sa_mask sig_sa_flags sig_handlers].
    + rewrite ob_log. cbn [List.filter map]. rewrite Hc. done.
    + done.
    + by rewrite ob_sa_mask.
    + by rewrite ob_sa_flags.
    + intros z Hz. unfold handler_of at 1. cbn [p_ext with_ext set_blocked sig_handlers].
      rewrite ob_handlers. destruct (bool_decide_reflect (z ∈ [s])) as [->%list_elem_of_singleton|]; [|done].
      by rewrite Er, andb_false_r.
Qed.

Lemma act_spec p s :
  0 <= s ->
  if fatal p s then act fuel s p = exit_process fuel pm_ep (128 + s) p
  else exists p', act fuel s p = (Val (), p') /\ Delivered p [s] p'.
Proof.
  intros Hs. unfold fatal.
  assert (Hskip : caught p s = false -> Delivered p [s] p).
  { intros Hc. split; try done.
    - cbn. by rewrite Hc, app_nil_r.
    - intros z Hz. destruct (bool_decide_reflect (z ∈ [s])) as [->%list_elem_of_singleton|]; [|done].
      by rewrite Hc. }
  unfold act, mbind, PT_bind, gets. unfold caught in Hskip.
  destruct (Z.eqb_spec (handler_of p s) SIG_IGN) as [Ei|Ei].
  { rewrite Ei. cbn. exists p. split; [done|]. by apply Hskip. }
  destruct (Z.eqb_spec (handler_of p s) SIG_DFL) as [Ed|Ed]; cbn [andb].
  - destruct (sig_default_action s); [done|]. exists p. split; [done|]. by apply Hskip.
  - apply run_handler_spec; [done|]. unfold caught.
    destruct (Z.eqb_spec (handler_of p s) SIG_IGN), (Z.eqb_spec (handler_of p s) SIG_DFL); done.
Qed.

(** ** The loops *)

(** The signals up to the first that ends the process, and that one. *)
Fixpoint until_fatal (f : Z -> bool) (l : list Z) : list Z * option Z :=
  match l with
  | [] => ([], None)
  | s :: l' => if f s then ([], Some s) else let '(a, o) := until_fatal f l' in (s :: a, o)
  end.

Lemma until_fatal_ext f g l :
  (forall s, s ∈ l -> f s = g s) -> until_fatal f l = until_fatal g l.
Proof.
  induction l as [|s l IH]; intros Hfg; [done|]. cbn. rewrite Hfg by left.
  rewrite IH; [done|]. intros z Hz. apply Hfg. by right.
Qed.

Lemma until_fatal_sub f l z : z ∈ (until_fatal f l).1 -> z ∈ l.
Proof.
  induction l as [|s l IH]; cbn; [done|]. destruct (f s); [by intros ?%not_elem_of_nil|].
  destruct (until_fatal f l) as [a o]. intros [->|Hz]%elem_of_cons; [left|right; by apply IH].
Qed.

Definition deliverable (bits blocked : Z) (sigs : list Z) : list Z :=
  List.filter (fun s => Z.testbit bits s && negb (Z.testbit blocked s)) sigs.

(** The bits of [bits] that are blocked and among the signals. *)
Definition kept (bits blocked : Z) (sigs : list Z) (i : Z) : bool :=
  Z.testbit bits i && Z.testbit blocked i && bool_decide (i ∈ sigs).

Definition lacks_restart p (l : list Z) : bool := existsb (fun s => caught p s && negb (restarts p s)) l.

Lemma no_restart_eq p s : no_restart p s = caught p s && negb (restarts p s).
Proof. unfold no_restart, caught, restarts. by rewrite negb_involutive. Qed.

Lemma delivered_sub sigs bits blocked s : s ∈ deliverable bits blocked sigs -> s ∈ sigs.
Proof. unfold deliverable. rewrite !list_elem_of_In, filter_In. by intros []. Qed.

Lemma delivered_caught p p' s z :
  Delivered p [s] p' -> z <> s -> 0 <= z ->
  fatal p' z = fatal p z /\ caught p' z = caught p z /\ restarts p' z = restarts p z /\
  entry p' z = entry p z /\ resets p' z = resets p z.
Proof.
  intros [_ HM HA HF HH] Hne Hz. unfold fatal, caught, restarts, entry, resets.
  rewrite HH by done. rewrite bool_decide_eq_false_2 by (by intros ->%list_elem_of_singleton).
  cbn [andb]. by rewrite HM, HA, HF.
Qed.

Lemma dispatch_loop_spec bits blocked : forall sigs p repost dispatched nr,
  NoDup sigs -> Forall (fun s => 0 <= s) sigs ->
  let '(l, o) := until_fatal (fatal p) (deliverable bits blocked sigs) in
  exists p1, Delivered p l p1 /\
  match o with
  | None => exists repost',
      dispatch_loop fuel sigs bits blocked repost dispatched nr p
        = (Val (repost', dispatched + Z.of_nat (length l), nr || lacks_restart p l), p1) /\
      (forall i, 0 <= i -> Z.testbit repost' i = Z.testbit repost i || kept bits blocked sigs i)
  | Some s => dispatch_loop fuel sigs bits blocked repost dispatched nr p
                = (Gone, snd (exit_process (A := unit) fuel pm_ep (128 + s) p1))
  end.
Proof.
  induction sigs as [|s sigs IH]; intros p repost dispatched nr Hnd Hpos.
  { cbn. exists p. split; [apply delivered_nil|]. exists repost. rewrite Z.add_0_r, orb_false_r.
    split; [done|]. intros i _. unfold kept. rewrite bool_decide_eq_false_2 by (apply not_elem_of_nil). by rewrite andb_false_r, orb_false_r. }
  apply NoDup_cons in Hnd as [Hs Hnd]. apply Forall_cons in Hpos as [Hs0 Hpos].
  assert (Hk : forall i, kept bits blocked (s :: sigs) i
    = (Z.eqb i s && Z.testbit bits s && Z.testbit blocked s) || kept bits blocked sigs i).
  { intros i. unfold kept. destruct (Z.eqb_spec i s) as [->|Hne].
    - rewrite (bool_decide_eq_true_2 (s ∈ s :: sigs)) by left.
      rewrite (bool_decide_eq_false_2 (s ∈ sigs)) by done. by rewrite !andb_true_r, andb_false_r, orb_false_r.
    - cbn [andb orb]. f_equal. apply bool_decide_ext. rewrite elem_of_cons. naive_solver. }
  cbn [dispatch_loop]. rewrite !pending_testbit by done. unfold deliverable. cbn [List.filter].
  destruct (Z.testbit bits s) eqn:Eb; cbn [andb negb]; cycle 1.
  { specialize (IH p repost dispatched nr Hnd Hpos). fold (deliverable bits blocked sigs).
    destruct (until_fatal _ _) as [l o]. destruct IH as (p1 & HD & Ho). exists p1. split; [done|].
    destruct o; [done|]. destruct Ho as (r & Hr & Hb). exists r. split; [done|].
    intros i Hi. by rewrite Hb, Hk, andb_false_r by done. }
  destruct (Z.testbit blocked s) eqn:Ek; cbn [andb negb].
  { specialize (IH p (Z.lor repost (Z.shiftl 1 s)) dispatched nr Hnd Hpos). fold (deliverable bits blocked sigs).
    destruct (until_fatal _ _) as [l o]. destruct IH as (p1 & HD & Ho). exists p1. split; [done|].
    destruct o; [done|]. destruct Ho as (r & Hr & Hb). exists r. split; [done|].
    intros i Hi. rewrite Hb, Hk, Z.lor_spec, Z.shiftl_1_l, Z.pow2_bits_eqb by done.
    rewrite (Z.eqb_sym s i), !andb_true_r. by rewrite orb_assoc. }
  fold (deliverable bits blocked sigs). cbn [until_fatal].
  unfold mbind, PT_bind, gets. pose proof (act_spec p s Hs0) as Hact.
  destruct (fatal p s) eqn:Ef.
  { exists p. split; [apply delivered_nil|]. rewrite Hact. unfold exit_process.
    by destruct (posix _ _ _) as [? ?]. }
  destruct Hact as (p' & -> & HD1).
  specialize (IH p' repost (dispatched + 1) (nr || no_restart p s) Hnd Hpos).
  assert (Hsame : forall z, z ∈ sigs -> fatal p' z = fatal p z /\ caught p' z = caught p z /\
    restarts p' z = restarts p z /\ entry p' z = entry p z /\ resets p' z = resets p z).
  { intros z Hz. apply (delivered_caught p p' s z HD1); [by intros ->|].
    rewrite Forall_forall in Hpos. by apply Hpos. }
  rewrite (until_fatal_ext (fatal p') (fatal p)) in IH
    by (intros z Hz; apply Hsame; by eapply delivered_sub).
  pose proof (until_fatal_sub (fatal p) (deliverable bits blocked sigs)) as Hsub.
  destruct (until_fatal _ _) as [l o]. cbn [fst] in Hsub.
  assert (Hl : forall z, z ∈ l -> z ∈ sigs) by (intros z Hz; by eapply delivered_sub, Hsub).
  destruct IH as (p1 & HD & Ho). exists p1. split.
  { eapply delivered_cons; [exact HD1|exact HD|by intros ?%Hl|]. constructor; [done|].
    rewrite Forall_forall in Hpos |- *. auto. }
  destruct o; [done|]. destruct Ho as (r & Hr & Hb). exists r. split.
  - rewrite Hr. do 2 f_equal. f_equal; [f_equal; cbn [length]; lia|].
    cbn [lacks_restart existsb]. rewrite no_restart_eq, orb_assoc. f_equal.
    clear -Hl Hsame. unfold lacks_restart. induction l as [|z l IH]; [done|]. cbn.
    destruct (Hsame z) as (_ & -> & -> & _); [apply Hl; left|]. f_equal. apply IH.
    intros y Hy. apply Hl. by right.
  - intros i Hi. rewrite Hb, Hk by done. by rewrite !andb_false_r.
Qed.

Lemma until_fatal_none f l : (until_fatal f l).2 = None -> (until_fatal f l).1 = l.
Proof.
  induction l as [|s l IH]; [done|]. cbn. destruct (f s); [done|].
  destruct (until_fatal f l) as [a o]. cbn in *. intros ->. by rewrite IH.
Qed.

(** The two loops do the same; the first does not look at SA_RESTART. *)
Lemma check_loop_eq bits blocked : forall sigs repost dispatched nr p,
  check_loop fuel sigs bits blocked repost dispatched p =
  match dispatch_loop fuel sigs bits blocked repost dispatched nr p with
  | (Val (r, d, _), p') => (Val (r, d), p')
  | (Ret c, p') => (Ret c, p') | (Gone, p') => (Gone, p') | (Stuck, p') => (Stuck, p')
  end.
Proof.
  induction sigs as [|s sigs IH]; intros repost dispatched nr p; cbn [check_loop dispatch_loop]; [done|].
  destruct (negb (pending bits s)); [apply IH|]. destruct (pending blocked s); [apply IH|]. unfold mbind, PT_bind, gets.
  destruct (act fuel s p) as [[] p']; first [done|apply IH].
Qed.
End spec.

(** The signals that 32 bits can name. *)
Definition SIG_BITS : Z := 0xFFFFFFFE.

Lemma sig_bits_spec i : 0 <= i -> Z.testbit SIG_BITS i = bool_decide (i ∈ sig_numbers).
Proof.
  intros Hi. rewrite (bool_decide_ext _ (1 <= i < 32)) by apply sig_numbers_spec.
  change SIG_BITS with (Z.lxor (Z.ones 32) 1). rewrite Z.lxor_spec, Z.testbit_ones by lia.
  change 1 with (2 ^ 0). rewrite Z.pow2_bits_eqb by lia.
  destruct (Z.leb_spec 0 i), (Z.ltb_spec i 32), (Z.eqb_spec 0 i), (bool_decide_reflect (2 ^ 0 <= i < 32));
    try done; exfalso; change (2 ^ 0) with 1 in *; lia.
Qed.

(** C22: delivery of notification bits to signal handlers.  The pending signals
    1 to 31 that are not blocked are taken in ascending order up to the first
    whose disposition is to terminate: each caught one gets exactly one call of
    its handler, with the signal number, under the mask in force plus its
    [sa_mask] plus itself; ignored ones get none; dispositions change only by
    SA_RESETHAND, and afterwards the mask is the old one, whatever the handlers
    did to it.  A terminating signal ends the process with status 128 + signal.
    Otherwise the blocked pending signals, and only they, are raised again in
    one system call; the result counts the unblocked ones, and the restart flag
    says that there was one and that every caught one has SA_RESTART. *)
Theorem signal_delivery {K : Kernel} {I : Image Posix} {S : SigCalls} (fuel : nat)
    (log : Mem -> list (Z * Z * Z)) (Hobs : Observed log) (p : PProc) (bits : Z) :
  let mask := sig_blocked_mask (p_ext p) in
  let D := deliverable bits mask sig_numbers in
  let '(l, o) := until_fatal (fatal p) D in
  exists p1, Delivered log p l p1 /\
  match o with
  | Some s => dispatch_signal_bits fuel bits p
                = (Gone, snd (exit_process (A := unit) fuel pm_ep (128 + s) p1))
  | None => exists p2,
      dispatch_signal_bits fuel bits p = (Val (Z.of_nat (length D)), p2) /\ l = D /\
      p_mem p2 = p_mem p1 /\
      p_ext p2 = set_restart (p_ext p1) ((0 <? Z.of_nat (length D)) && negb (lacks_restart p D)) /\
      let again := Z.land (Z.land bits mask) SIG_BITS in
      p_world p2 = if again =? 0 then p_world p1
                   else snd (syscall (p_world p1) SYS_SIGNAL sig_ntfn again 0 0 0 0)
  end.
Proof.
  cbv zeta. pose proof (dispatch_loop_spec fuel log bits (sig_blocked_mask (p_ext p)) sig_numbers p 0 0 false
    sig_numbers_nodup) as HL.
  pose proof (until_fatal_none (fatal p) (deliverable bits (sig_blocked_mask (p_ext p)) sig_numbers)) as Hnone.
  destruct (until_fatal _ _) as [l o]. cbn [fst snd] in Hnone.
  destruct HL as (p1 & HD & Ho).
  { apply Forall_forall. intros s Hs%sig_numbers_spec. lia. }
  exists p1. split; [done|]. unfold dispatch_signal_bits, mbind, PT_bind, gets; cbv beta iota.
  destruct o as [s|]; [by rewrite Ho|]. destruct Ho as (r & -> & Hr). rewrite Hnone by done.
  assert (Hagain : r = Z.land (Z.land bits (sig_blocked_mask (p_ext p))) SIG_BITS).
  { apply Z.bits_inj'. intros i Hi. rewrite Hr, Z.bits_0, !Z.land_spec, sig_bits_spec by done. done. }
  rewrite Hagain, Z.add_0_l. unfold repost_signals.
  destruct (Z.eqb_spec (Z.land (Z.land bits (sig_blocked_mask (p_ext p))) SIG_BITS) 0);
    cbn [negb]; eexists; (split; [reflexivity|]); by split_and!.
Qed.


(** ** A process that logs its handlers' calls *)

Definition quiet_kernel : Kernel := {|
  k_result _ c _ := mkResult 0 (if num c =? SYS_POLL then Z.lor (Z.shiftl 1 10) (Z.shiftl 1 15) else 0);
  k_buffer _ _ b := b |}.

Definition toy_posix : Posix :=
  mkPosix (replicate MAX_THREADS PosixThreadExt_zeroed) 1 0x7F0000000000
    (<[10%nat := 500]> (<[15%nat := 600]> (replicate NSIG 0))) 1 (Z.shiftl 1 15)
    (replicate NSIG 0) (<[10%nat := Z.lor SA_RESETHAND SA_RESTART]> (replicate NSIG 0)) false 0 0 0 0 0.

Definition toy_pimage : Image Posix := {|
  arch := X86_64; tls_info := mkTlsInfo 0 0 0 1 0 []; pool_addr := 0x5000; desc_size := 168;
  main_block := 0x9000; pm_ep := 3; run_fn _ _ p := p |}.

Definition toy_process : PProc :=
  Tls.mkProc _ (mkWorld [] (Some (mkCtx None 0))) (slot_alloc_init 64 64 0) (fun _ => 0) (replicate MAX_THREADS ThreadDesc_zeroed)
    1 true 0 0 toy_posix.

(** The log: its length in cell 0, three cells for each call. *)
Definition mem_log (m : Mem) : list (Z * Z * Z) :=
  map (fun i => (m (1 + 3 * Z.of_nat i), m (2 + 3 * Z.of_nat i), m (3 + 3 * Z.of_nat i)))
    (seq 0 (Z.to_nat (m 0))).

Definition append_log (m : Mem) (e : Z * Z * Z) : Mem := fun a =>
  let n := Z.of_nat (Z.to_nat (m 0)) in
  if a =? 0 then n + 1
  else if a =? 1 + 3 * n then e.1.1 else if a =? 2 + 3 * n then e.1.2 else if a =? 3 + 3 * n then e.2
  else m a.

Definition logging : SigCalls := {|
  call_sig h s p := with_mem p (append_log (p_mem p) (h, s, sig_blocked_mask (p_ext p)));
  dispatcher_addr := 0x4000; sig_ntfn := 9 |}.

Lemma append_log_spec m e : mem_log (append_log m e) = mem_log m ++ [e].
Proof.
  unfold mem_log. set (n := Z.to_nat (m 0)).
  assert (append_log m e 0 = Z.of_nat n + 1) as -> by done.
  replace (Z.to_nat (Z.of_nat n + 1)) with (S n) by lia. rewrite seq_S, map_app. f_equal.
  - apply map_ext_in. intros i Hi%in_seq. unfold append_log. fold n.
    repeat match goal with |- context [?a =? ?b] => destruct (Z.eqb_spec a b); [lia|] end. done.
  - cbn [map]. rewrite Nat.add_0_l. unfold append_log. fold n. destruct e as [[a b] c]. cbn [fst snd].
    repeat match goal with |- context [?a =? ?b] => destruct (Z.eqb_spec a b); try lia end. done.
Qed.

Lemma logging_observed : Observed (H := logging) mem_log.
Proof. split; try done. intros h s p. apply append_log_spec. Qed.

Lemma signal_delivery_witness :
  exists p1, mem_log (p_mem p1) = [(500, 10, Z.lor (Z.shiftl 1 15) (Z.shiftl 1 10))] /\
    handler_of p1 10 = SIG_DFL /\
  exists p2, @dispatch_signal_bits quiet_kernel toy_pimage logging 5 (Z.lor (Z.shiftl 1 10) (Z.shiftl 1 15))
               toy_process = (Val 1, p2) /\
    sig_last_restart (p_ext p2) = true.
Proof.
  pose proof (@signal_delivery quiet_kernel toy_pimage logging 5 mem_log logging_observed toy_process
    (Z.lor (Z.shiftl 1 10) (Z.shiftl 1 15))) as HT.
  cbv zeta in HT.
  change (until_fatal _ _) with ([10], @None Z) in HT.
  destruct HT as (p1 & [HL _ _ _ HH] & p2 & HR & _ & _ & HX & _). exists p1.
  split; [rewrite HL; vm_compute; reflexivity|]. split; [rewrite HH by lia; vm_compute; reflexivity|].
  exists p2. split; [exact HR|]. rewrite HX. vm_compute. reflexivity.
Defined.

