(* ===== verification/Pthread.v ===== *)
(** POSIX threads, [src/posix/pthread.rs], with the wrappers of
    [src/posix/tls.rs]: handles, creation, exit, join, detach, cancellation,
    clean-up handlers, and what the personality registers for the main thread
    and runs in a forked child.

    The process state is that of file Tls with the statics of file Signals; a
    function executed by a thread takes the thread-pointer register [reg] of that
    thread.  [fuel] bounds the attempts of a call to a server and the turns of
    the slot allocator's expansion driver. *)

From S2P Require Import Prelude Consts Kernel SlotAlloc Invoke SlotExpand Ipc InvokeOps PosixCall Protocol PosixClient PosixProc Serial ByteMem Runtime Tls Signals.
Import String.StringSyntax.

Definition DEFAULT_STACK_SIZE : Z := 2 * 1024 * 1024.
Definition IPC_BUF_REGION_BASE : Z := 0x7F0000000000.
Definition PTHREAD_NULL : Z := U64_MAX.
Definition PTHREAD_CANCELED : Z := U64_MAX.
Definition PROT_READ : Z := 1.
Definition PROT_WRITE : Z := 2.
Definition MAP_PRIVATE : Z := 0x02.
Definition MAP_LAZY : Z := 0x40.

Definition align_down (v align : Z) : Z :=
  if align <=? 1 then v else Z.land v (bnot 64 (align - 1)).

Record PthreadAttr := mkAttr { attr_stack_size : Z; attr_detach_state : Z }.

(** Functions of the program and facts of its image that the file refers to. *)
Class Threads := {
  ext_pool_addr : Z;                           (* POSIX_EXT_POOL *)
  cleanup_fn : Z;                              (* posix_personality_cleanup *)
  fork_child_fn : Z;                           (* posix_personality_fork_child *)
  cancel_fn : Z;                               (* posix_cancel_impl *)
  entry_trampoline : Z;                        (* pthread_entry_trampoline *)
  mm_ep : Cap;                                 (* caps::mmsrv_ep() *)
  vfs_cap : Cap;                               (* caps::vfs_ep() *)
  call_start : Z -> Z -> PProc -> Z * PProc;   (* start_fn(arg) *)
  call_routine : Z -> Z -> PProc -> PProc;     (* a clean-up routine *)
}.

Definition EXT_SIZE : Z := 40.

(** ** Handles *)

Definition encode_handle (index : nat) (generation : Z) : Z :=
  Z.lor (Z.land (Z.of_nat index) 0xFFFF) (Z.shiftl (Z.land generation 0xFFFF) 16).

Definition decode_handle (handle : Z) : option (nat * Z) :=
  if handle =? PTHREAD_NULL then None
  else
    let index := Z.to_nat (Z.land handle 0xFFFF) in
    let generation := Z.land (Z.shiftr handle 16) 0xFFFF in
    if (MAX_THREADS <=? index)%nat then None else Some (index, generation).

(** The descriptor is named by its pool index. *)
Definition validate_handle (p : PProc) (handle : Z) : option nat :=
  '(index, expected) ← decode_handle handle;
  let d := thread_desc p index in
  if negb (as_u16 (td_generation d) =? expected) then None
  else match td_owner d with Personality => Some index | _ => None end.

Section pthread.
Context `{Kernel} `{Slices} `{!Image Posix} `{!SigCalls} `{!Threads} (fuel : nat).

Definition eps : Endpoints := mkEps vfs_cap pm_ep mm_ep.

Definition ext_addr (i : nat) : Z := ext_pool_addr + Z.of_nat i * EXT_SIZE.
Definition ext_index (ptr : Z) : nat := Z.to_nat ((ptr - ext_pool_addr) / EXT_SIZE).

Definition desc_pool_index (desc : Z) : option nat :=
  let offset := (desc - pool_addr) / desc_size in
  if (0 <=? offset) && (offset <? Z.of_nat MAX_THREADS) then Some (Z.to_nat offset) else None.

Definition puts (t : list Z) : PT unit := mod_world (fun w => serial_puts w t).

(** The value or the early return of a body with an out-parameter. *)
Definition body_out {O} (out : O) (f : PT (Z * O)) : PT (Z * O) := fun p =>
  match f p with (Ret c, p') => (Val (c, out), p') | r => r end.

(** ** Personality hooks and the main thread *)

Definition posix_personality_fork_child (i : nat) : PT unit :=
  mod_ext 0 (fun _ => PosixThreadExt_zeroed) ≫= fun _ =>
  mod_desc i (fun d => set_personality_data d (ext_addr 0)) ≫= fun _ =>
  modify (fun p => fold_left (fun p j => snd (mod_ext j (fun _ => PosixThreadExt_zeroed) p))
                     (seq 1 (MAX_THREADS - 1)) p) ≫= fun _ =>
  mod_x (fun x => set_ipc_next (set_hint x 1) IPC_BUF_REGION_BASE) ≫= fun _ =>
  sig_reinit_after_fork.

(** The descriptor is the one [tls] points to; null before it is set. *)
Definition init_main_thread_control (tls : Z) : PT unit := fun p =>
  let desc := desc_from_tls (p_mem p) tls in
  if desc =? 0 then (Val (), p)
  else match desc_pool_index desc with
  | None => (Stuck, p)
  | Some i =>
      (mod_ext 0 (fun _ => PosixThreadExt_zeroed) ≫= fun _ =>
       mod_desc i (fun d =>
         let d := set_owner d Personality in
         let d := set_personality_data d (ext_addr 0) in
         let d := set_personality_cleanup d (Some cleanup_fn) in
         set_personality_fork_child d (Some fork_child_fn))) p
  end.

(** [init_main_thread_tls] of posix/tls.rs; [reg] is the thread-pointer register
    after the substrate has set it. *)
Definition posix_init_main_thread_tls (reg : Z) : PT unit :=
  modify init_main_thread_tls ≫= fun _ =>
  mod_x (fun x => set_cancel_hook x cancel_fn) ≫= fun _ =>
  o ← gets (fun p => current_tls p reg);
  match o with
  | Some tls => init_main_thread_control tls
  | None => mret ()
  end.

(** ** Requests to the process manager *)

Definition pm_call (m : TronaMsg) : PT (Z * TronaMsg) := posix fuel (fun _ => call false pm_ep m).

Definition pm_thread_create_call (entry_pc stack_top tls_base ipc_buf_vaddr attr_flags : Z)
    (tcb_recv_slot : Cap) : PT ((Z * Cap) + Z) :=
  mod_world (fun w => with_ctx w (set_receive_slot_ctx (ctx w) CAP_SELF_CSPACE tcb_recv_slot 0)) ≫= fun _ =>
  r ← pm_call (mk PM_THREAD_CREATE 5 [entry_pc; stack_top; tls_base; ipc_buf_vaddr; attr_flags]);
  let '(err, resp) := r in
  mret (if negb (err =? 0) then inr err
        else if negb (label resp =? TRONA_OK) then inr (as_i32 (label resp))
        else inl (as_u32 (reg resp 0), tcb_recv_slot)).

Definition pm_thread_exit_send (tid retval : Z) : PT unit :=
  mod_world (fun w => snd (send_ctx w pm_ep (mk PM_THREAD_EXIT 2 [tid; retval]))).

Definition pm_thread_join_call (tid : Z) : PT (Z + Z) :=
  r ← pm_call (mk PM_THREAD_JOIN 1 [tid]);
  let '(err, resp) := r in
  mret (if negb (err =? 0) then inr err
        else if negb (label resp =? TRONA_OK) then inr (as_i32 (label resp))
        else inl (reg resp 0)).

Definition pm_thread_detach_call (tid : Z) : PT Z :=
  r ← pm_call (mk PM_THREAD_DETACH 1 [tid]);
  let '(err, resp) := r in
  mret (if negb (err =? 0) then err else as_i32 (label resp)).

(** ** Creation *)

(** Step 1: the first unused slot from the hint on; slot 0 is the main thread. *)
Fixpoint claim_scan (n offset hint : nat) (p : PProc) : option nat * PProc :=
  match n with
  | O => (None, p)
  | S n' =>
      let i := ((hint - 1 + offset) mod (MAX_THREADS - 1) + 1)%nat in
      let d := thread_desc p i in
      if td_state d =? TD_UNUSED then
        (Some i, with_x (set_desc p i (set_state d TD_RUNNING))
                   (fun x => set_hint x (i mod (MAX_THREADS - 1) + 1)%nat))
      else claim_scan n' (S offset) hint p
  end.
Definition claim_slot (p : PProc) : option nat * PProc :=
  claim_scan (MAX_THREADS - 1) 0 (next_free_hint (p_ext p)) p.

Definition release_slot (i : nat) : PT unit :=
  mod_desc i (fun d => set_state (set_personality_data d 0) TD_UNUSED).

Definition stack_size_of (attr : option PthreadAttr) : Z :=
  match attr with
  | Some a => if negb (attr_stack_size a =? 0)
              then Z.land (attr_stack_size a + 4095)%u64 (bnot 64 4095) else DEFAULT_STACK_SIZE
  | None => DEFAULT_STACK_SIZE
  end.

Definition detach_state_of (attr : option PthreadAttr) : Z :=
  match attr with Some a => attr_detach_state a | None => 0 end.

(** Steps 1 to 5: the slot, its extension and the stack mapping; gives the slot,
    the stack's address and size, and the thread id. *)
Definition create_stack (attr : option PthreadAttr) : PT (nat * Z * Z * Z) :=
  o ← (fun p => let '(o, p) := claim_slot p in (Val o, p));
  match o with
  | None => puts (line "[PTHREAD] thread pool exhausted") ≫= fun _ => returns (-11)
  | Some i =>
      mod_ext i (fun _ => mkExt 0 0 0 0 (detach_state_of attr)) ≫= fun _ =>
      mod_desc i (fun d =>
        let d := set_owner d Personality in
        let d := set_personality_data d (ext_addr i) in
        let d := set_personality_cleanup d (Some cleanup_fn) in
        set_personality_fork_child d None) ≫= fun _ =>
      let stack_size := stack_size_of attr in
      stack_addr ← posix fuel (fun r => posix_mmap (H := ipc_transport fuel r) eps 0 stack_size
        (Z.lor PROT_READ PROT_WRITE) (Z.lor (Z.lor MAP_PRIVATE MAP_ANONYMOUS) MAP_LAZY) (-1) 0);
      if (stack_addr =? U64_MAX) || (stack_addr =? 0) then
        puts (line "[PTHREAD] stack mmap failed") ≫= fun _ =>
        release_slot i ≫= fun _ => returns (-12)
      else
        mod_ext i (fun e => mkExt (procmgr_tid e) (x_tcb_cap e) stack_addr stack_size (detached e)) ≫= fun _ =>
        tid ← (fun p => let '(t, p) := next_thread_id p in (Val t, p));
        mod_desc i (fun d => set_stack_size (set_stack_base (set_thread_id d tid) stack_addr) stack_size) ≫= fun _ =>
        mret (i, stack_addr, stack_size, tid)
  end.

(** Step 6: where the thread-local area goes at the top of the stack; gives the
    thread pointer, the area's start and end, and the block's address. *)
Definition pthread_tls_place (stack_top : Z) : Z * Z * Z * Z :=
  let total := static_tls_total_memsz in
  let align := Z.max static_tls_align 16 in
  match arch with
  | X86_64 =>
      let tcb_addr := align_down (sat_sub stack_top TCB_SIZE) (Z.max align TCB_ALIGN) in
      (tcb_addr, sat_sub tcb_addr total, sat_add tcb_addr TCB_SIZE, tcb_addr)
  | AArch64 =>
      let hint := sat_add (sat_add (sat_add abi_tcb_size total) (sat_sub TCB_ALIGN 1)) TCB_SIZE in
      let tp := align_down (sat_sub stack_top hint) align in
      let tcb_addr := align_up (sat_add (sat_add tp abi_tcb_size) total) TCB_ALIGN in
      (tp, tp, sat_add tcb_addr TCB_SIZE, tcb_addr)
  end.

Definition unmap_stack (stack_addr stack_size : Z) : PT unit :=
  posix fuel (fun r => posix_munmap (H := ipc_transport fuel r) eps stack_addr stack_size) ≫= fun _ => mret ().

(** What a failure after step 4 does. *)
Definition abandon {A} (i : nat) (stack_addr stack_size : Z) : PT A :=
  unmap_stack stack_addr stack_size ≫= fun _ => release_slot i ≫= fun _ => returns (-12).

(** Steps 6 to 8: the TLS area, the IPC buffer address and the initial stack;
    gives the stack pointer, the thread pointer and the buffer address. *)
Definition create_image (i : nat) (stack_base stack_size tid start_fn arg : Z) : PT (Z * Z * Z) :=
  let stack_top := (stack_base + stack_size)%u64 in
  let '(tp, tls_block_base, tls_block_end, tls_ptr) := pthread_tls_place stack_top in
  let prefault_base := Z.land (sat_sub stack_top 8192) (bnot 64 0xFFF) in
  r ← posix fuel (fun r => posix_prefault (H := ipc_transport fuel r) eps prefault_base 8192
        (Z.lor PROT_READ PROT_WRITE));
  if negb (r =? 0) then
    puts (line "[PTHREAD] stack prefault failed") ≫= fun _ => abandon i stack_base stack_size
  else
    mod_mem (fun m =>
      let m := write_bytes m tls_block_base 0 (sat_sub tls_block_end tls_block_base) in
      let m := initialize_static_tls_for_tp m tp in
      let m := install_runtime_tcb_anchor m tp tls_ptr in
      let m := store64 m (tls_ptr + off_self_ptr) tls_ptr in
      let m := store64 m (tls_ptr + off_thread_id) tid in
      store64 m (tls_ptr + off_desc) (desc_addr i)) ≫= fun _ =>
    mod_desc i (fun d => set_tls_ptr d tls_ptr) ≫= fun _ =>
    ipc_buf_vaddr ← gets (fun p => ipc_buf_next (p_ext p));
    mod_x (fun x => set_ipc_next x (ipc_buf_next x + 4096)%u64) ≫= fun _ =>
    mod_desc i (fun d => set_ipc_buf_vaddr d ipc_buf_vaddr) ≫= fun _ =>
    let user_rsp := Z.land tls_block_base (bnot 64 0xF) in
    let trampoline_rsp := (user_rsp - 8)%u64 in
    mod_mem (fun m =>
      let m := store64 m (tls_ptr + off_ipc_buffer) ipc_buf_vaddr in
      let m := store32 m (tls_ptr + off_send_cap_count) 0 in
      let m := store64 m trampoline_rsp 0 in
      let m := store64 m (trampoline_rsp - 16)%u64 start_fn in
      store64 m ((trampoline_rsp - 16)%u64 + 8) arg) ≫= fun _ =>
    mret ((trampoline_rsp - 16)%u64, tp, ipc_buf_vaddr).

(** Step 9: a slot for the TCB capability. *)
Definition take_slot : PT (option Cap) := fun p =>
  match slot_alloc fuel (p_alloc p) (p_world p) with
  | (Some r, st, w) => (Val r, with_world (with_alloc p st) w)
  | (None, st, w) => (Stuck, with_world (with_alloc p st) w)
  end.

(** [cnode_delete] and [slot_free] of a capability. *)
Definition drop_cap (c : Cap) : PT unit := modify (fun p =>
  let w := snd (cnode_delete (p_alloc p) (p_world p) CAP_SELF_CSPACE c) in
  with_alloc (with_world p w) (snd (slot_free (p_alloc p) c))).

(** Steps 9 to 11. *)
Definition create_start (thread_out : option Z) (i : nat) (stack_base stack_size sp tp ipc_buf_vaddr : Z)
    : PT (Z * option Z) :=
  o ← take_slot;
  match o with
  | None =>
      puts (line "[PTHREAD] slot_alloc for tcb recv failed") ≫= fun _ => abandon i stack_base stack_size
  | Some tcb_recv_slot =>
      attr_flags ← gets (fun p => if negb (detached (ext p i) =? 0) then 1 else 0);
      res ← pm_thread_create_call entry_trampoline sp tp ipc_buf_vaddr attr_flags tcb_recv_slot;
      match res with
      | inl (tid, tcb) =>
          mod_ext i (fun e => mkExt tid tcb (x_stack_base e) (x_stack_size e) (detached e)) ≫= fun _ =>
          g ← gets (fun p => td_generation (thread_desc p i));
          mret (0, Ipc.store thread_out (encode_handle i g))
      | inr e =>
          mod_world (fun w =>
            let lb := line_str LineBuf_new (lit "[PTHREAD] PM_THREAD_CREATE failed err=") in
            snd (line_flush (line_str (line_hex lb (as_u64 e)) (line "")) w)) ≫= fun _ =>
          drop_cap tcb_recv_slot ≫= fun _ =>
          abandon i stack_base stack_size
      end
  end.

Definition pthread_create (thread_out : option Z) (attr : option PthreadAttr) (start_fn arg : Z)
    : PT (Z * option Z) := body_out thread_out (
  s ← create_stack attr;
  let '(i, stack_base, stack_size, tid) := s in
  r ← create_image i stack_base stack_size tid start_fn arg;
  let '(sp, tp, ipc_buf_vaddr) := r in
  create_start thread_out i stack_base stack_size sp tp ipc_buf_vaddr).

(** ** Exit *)

(** [pthread_exit] of the thread with register [reg]; it does not return. *)
Definition pthread_exit {A} (reg retval : Z) : PT A :=
  o ← gets (fun p => current_tls p reg);
  (match o with
   | None => mret ()
   | Some tls =>
       desc ← gets (fun p => desc_from_tls (p_mem p) tls);
       if desc =? 0 then mret ()
       else match desc_pool_index desc with
       | None => fun p => (Stuck, p)     (* not a descriptor of the pool *)
       | Some i =>
           owner ← gets (fun p => td_owner (thread_desc p i));
           match owner with
           | Personality =>
               data ← gets (fun p => td_personality_data (thread_desc p i));
               tid ← gets (fun p => if data =? 0 then 0 else procmgr_tid (ext p (ext_index data)));
               (if Nat.eqb i 0 then exit_process fuel pm_ep 0 else mret ()) ≫= fun _ =>
               pm_thread_exit_send tid retval
           | Worker =>
               t ← gets (fun p => td_thread_id (thread_desc p i));
               (if t =? 0 then exit_process fuel pm_ep 1 else mret ()) ≫= fun _ =>
               mod_desc i (fun d => if td_state d =? TD_RUNNING then set_state d TD_EXITED else d)
           | Main => exit_process fuel pm_ep 0
           end
       end
   end) ≫= fun _ =>
  mod_world thread_exit ≫= fun _ => gone.

(** [pthread_trampoline_helper]: the new thread waits until the creator has
    published the process manager's id ([Stuck]: it is still waiting). *)
Definition pthread_trampoline_helper {A} (reg start_fn arg : Z) : PT A :=
  o ← gets (fun p => current_tls p reg);
  desc ← gets (fun p => match o with Some tls => desc_from_tls (p_mem p) tls | None => 0 end);
  (if desc =? 0 then mret ()
   else match desc_pool_index desc with
   | None => fun p => (Stuck, p)
   | Some i =>
       data ← gets (fun p => td_personality_data (thread_desc p i));
       if data =? 0 then mret ()
       else fun p => if procmgr_tid (ext p (ext_index data)) =? 0 then (Stuck, p) else (Val (), p)
   end) ≫= fun _ =>
  retval ← (fun p => let '(v, p) := call_start start_fn arg p in (Val v, p));
  pthread_exit reg retval.

(** ** Join, self, detach *)

Definition pthread_self (p : PProc) (reg : Z) : Z :=
  match current_tls p reg with
  | None => PTHREAD_NULL
  | Some tls =>
      let desc := desc_from_tls (p_mem p) tls in
      if desc =? 0 then PTHREAD_NULL
      else match desc_pool_index desc with
           | Some i => encode_handle i (td_generation (thread_desc p i))
           | None => PTHREAD_NULL
           end
  end.

(** After a successful join: the TCB capability and the stack. *)
Definition release_thread (j : nat) : PT unit :=
  tcb_local ← gets (fun p => x_tcb_cap (ext p j));
  mod_ext j (fun e => mkExt (procmgr_tid e) 0 (x_stack_base e) (x_stack_size e) (detached e)) ≫= fun _ =>
  (if negb (tcb_local =? 0) then drop_cap tcb_local else mret ()) ≫= fun _ =>
  stack_base ← gets (fun p => x_stack_base (ext p j));
  mod_ext j (fun e => mkExt (procmgr_tid e) (x_tcb_cap e) 0 (x_stack_size e) (detached e)) ≫= fun _ =>
  stack_size ← gets (fun p => x_stack_size (ext p j));
  mod_ext j (fun e => mkExt (procmgr_tid e) (x_tcb_cap e) (x_stack_base e) 0 (detached e)) ≫= fun _ =>
  if negb (stack_base =? 0) && negb (stack_size =? 0) then unmap_stack stack_base stack_size else mret ().

(** The descriptor of a joined thread. *)
Definition retire (d : ThreadDesc) : ThreadDesc :=
  let d := set_personality_data d 0 in
  let d := set_personality_cleanup d None in
  let d := set_tls_ptr d 0 in
  let d := set_stack_base d 0 in
  let d := set_stack_size d 0 in
  let d := set_ipc_buf_vaddr d 0 in
  let d := set_generation d (as_u32 (td_generation d + 1)) in
  set_state d TD_UNUSED.

Definition recycle (i j : nat) : PT unit := release_thread j ≫= fun _ => mod_desc i retire.

Definition pthread_join (reg thread : Z) (retval : option Z) : PT (Z * option Z) := body_out retval (
  o ← gets (fun p => validate_handle p thread);
  match o with
  | None => returns (-3)
  | Some i =>
      self ← gets (fun p => pthread_self p reg);
      if self =? thread then returns (-35) else
      data ← gets (fun p => td_personality_data (thread_desc p i));
      if data =? 0 then returns (-22) else
      e ← gets (fun p => ext p (ext_index data));
      if negb (detached e =? 0) then returns (-22) else
      if procmgr_tid e =? 0 then returns (-22) else
      res ← pm_thread_join_call (procmgr_tid e);
      match res with
      | inr e => returns e
      | inl rv => recycle i (ext_index data) ≫= fun _ => mret (0, Ipc.store retval rv)
      end
  end).

Definition pthread_detach (thread : Z) : PT Z := body (
  o ← gets (fun p => validate_handle p thread);
  match o with
  | None => returns (-3)
  | Some i =>
      data ← gets (fun p => td_personality_data (thread_desc p i));
      if data =? 0 then returns (-22) else
      e ← gets (fun p => ext p (ext_index data));
      if negb (detached e =? 0) then returns (-22) else
      if procmgr_tid e =? 0 then returns (-22) else
      r ← pm_thread_detach_call (procmgr_tid e);
      if negb (r =? as_i32 TRONA_OK) then returns (-22) else
      mod_ext (ext_index data) (fun e =>
        mkExt (procmgr_tid e) (x_tcb_cap e) (x_stack_base e) (x_stack_size e) 1) ≫= fun _ =>
      mret 0
  end).

(** ** Cancellation *)

Definition pthread_cancel (thread : Z) : PT Z := body (
  o ← gets (fun p => validate_handle p thread);
  match o with
  | None => returns (-3)
  | Some i =>
      d ← gets (fun p => thread_desc p i);
      if negb (td_state d =? TD_RUNNING) then returns (-3) else
      let tls := td_tls_ptr d in
      if tls =? 0 then returns (-3) else
      mod_mem (fun m => store32 m (tls + off_cancel_pending) 1) ≫= fun _ =>
      addr ← gets (fun p => load64 (p_mem p) (tls + off_blocked_futex_addr));
      (if negb (addr =? 0) then mod_world (fun w => snd (futex_wake w addr 1)) else mret ()) ≫= fun _ =>
      mret 0
  end).

(** Both setters: the old value through the pointer, the new one into the block. *)
Definition set_cancel_field (off reg v : Z) (old : option Z) : PT (Z * option Z) :=
  o ← gets (fun p => current_tls p reg);
  match o with
  | None => mret (-22, old)
  | Some tls =>
      was ← gets (fun p => as_i32 (load32 (p_mem p) (tls + off)));
      mod_mem (fun m => store32 m (tls + off) (as_u32 v)) ≫= fun _ =>
      mret (0, Ipc.store old was)
  end.
Definition pthread_setcancelstate := set_cancel_field off_cancel_state.
Definition pthread_setcanceltype := set_cancel_field off_cancel_type.

(** A clean-up handler in memory: routine, argument, next. *)
Definition off_routine : Z := 0.
Definition off_arg : Z := 8.
Definition off_next : Z := 16.

Definition pthread_cleanup_push_impl (reg routine arg handler : Z) : PT unit :=
  o ← gets (fun p => current_tls p reg);
  match o with
  | None => mret ()
  | Some tls =>
      mod_mem (fun m =>
        let m := store64 m (handler + off_routine) routine in
        let m := store64 m (handler + off_arg) arg in
        let m := store64 m (handler + off_next) (load64 m (tls + off_cleanup_stack)) in
        store64 m (tls + off_cleanup_stack) handler)
  end.

(** The top handler is unlinked, then run. *)
Definition run_top (tls handler : Z) (execute : bool) : PT unit :=
  mod_mem (fun m => store64 m (tls + off_cleanup_stack) (load64 m (handler + off_next))) ≫= fun _ =>
  if execute then
    routine ← gets (fun p => load64 (p_mem p) (handler + off_routine));
    arg ← gets (fun p => load64 (p_mem p) (handler + off_arg));
    modify (call_routine routine arg)
  else mret ().

Definition pthread_cleanup_pop_impl (reg execute : Z) : PT unit :=
  o ← gets (fun p => current_tls p reg);
  match o with
  | None => mret ()
  | Some tls =>
      handler ← gets (fun p => load64 (p_mem p) (tls + off_cleanup_stack));
      if handler =? 0 then mret () else run_top tls handler (negb (execute =? 0))
  end.

(** [turns] bounds the handlers run. *)
Fixpoint run_cleanup_handlers (turns : nat) (tls : Z) : PT unit :=
  match turns with
  | O => fun p => (Stuck, p)
  | S n =>
      handler ← gets (fun p => load64 (p_mem p) (tls + off_cleanup_stack));
      if handler =? 0 then mret ()
      else run_top tls handler true ≫= fun _ => run_cleanup_handlers n tls
  end.

Definition pthread_testcancel (turns : nat) (reg : Z) : PT unit :=
  o ← gets (fun p => current_tls p reg);
  match o with
  | None => mret ()
  | Some tls =>
      pending ← gets (fun p => load32 (p_mem p) (tls + off_cancel_pending));
      state ← gets (fun p => load32 (p_mem p) (tls + off_cancel_state));
      if negb (pending =? 0) && (state =? 0) then
        run_cleanup_handlers turns tls ≫= fun _ => pthread_exit reg PTHREAD_CANCELED
      else mret ()
  end.

(** [check_cancellation] of the substrate's sync.rs; the hook is
    [posix_cancel_impl], which calls [pthread_testcancel]. *)
Definition check_cancellation (turns : nat) (reg : Z) : PT unit :=
  o ← gets (fun p => current_tls p reg);
  match o with
  | None => mret ()
  | Some tls =>
      pending ← gets (fun p => load32 (p_mem p) (tls + off_cancel_pending));
      state ← gets (fun p => load32 (p_mem p) (tls + off_cancel_state));
      hook ← gets (fun p => cancel_hook (p_ext p));
      if negb (pending =? 0) && (state =? 0) && negb (hook =? 0) then pthread_testcancel turns reg
      else mret ()
  end.

(** The pointer [current_errno] of posix/tls.rs; [None] is [GLOBAL_ERRNO]. *)
Definition current_errno (p : PProc) (reg : Z) : option Z :=
  (fun tls => tls + off_errno) <$> current_tls p reg.

(** ** Fork *)

(** The registers [fork.S] has saved, by their index on the stack. *)
Definition fork_regs : list Z :=
  match arch with
  | X86_64 => [5; 4; 3; 2; 1; 0; 6]
  | AArch64 => [18; 19; 8; 9; 10; 11; 19]
  end.

Definition posix_fork_impl (reg saved_rsp child_entry : Z) : PT Z :=
  if (saved_rsp =? 0) || (child_entry =? 0) then mret (-1)
  else
    saved ← gets (fun p => map (fun k => load64 (p_mem p) (saved_rsp + 8 * k)) fork_regs);
    tls_base ← gets (fun p => default 0 (current_tls p reg));
    r ← pm_call (mk PM_FORK 10 ([saved_rsp; child_entry] ++ saved ++ [tls_base]));
    let '(err, reply) := r in
    mret (if failed err reply then -1 else as_i32 (Ipc.reg reply 0)).
End pthread.
