(* ===== verification/PthreadHandles.v ===== *)
(** Thread handles: what a handle denotes while the process creates, joins,
    detaches and cancels threads. *)

From S2P Require Import Prelude Consts Kernel SlotAlloc Invoke SlotExpand Ipc InvokeOps PosixCall Protocol PosixClient PosixProc Serial ByteMem Runtime Tls Signals Pthread.

(** ** The encoding *)

Lemma land_ffff z : Z.land z 0xFFFF = z mod 2 ^ 16.
Proof. change 0xFFFF with (Z.ones 16). apply Z.land_ones. lia. Qed.

Lemma encode_value i g : (i < MAX_THREADS)%nat -> encode_handle i g = Z.of_nat i + 2 ^ 16 * (g mod 2 ^ 16).
Proof.
  intros Hi. unfold encode_handle, MAX_THREADS in *. rewrite !land_ffff, (Z.mod_small (Z.of_nat i)) by lia.
  pose proof (Z.mod_pos_bound g (2 ^ 16) ltac:(lia)).
  rewrite <- Z.lxor_lor, <- Z.add_nocarry_lxor; [rewrite Z.shiftl_mul_pow2; lia| |];
    (apply Z.bits_inj'; intros k Hk; rewrite Z.land_spec, Z.bits_0;
     destruct (Z.ltb_spec k 16); [by rewrite Z.shiftl_spec_low, andb_false_r|];
     rewrite (Z.bits_above_log2 (Z.of_nat i)); [done|lia|];
     destruct (decide (i = 0%nat)) as [->|]; [change (Z.log2 (Z.of_nat 0)) with 0; lia|]; apply Z.log2_lt_pow2; [lia|];
     apply Z.lt_le_trans with (2 ^ 16); [lia|]; apply Z.pow_le_mono_r; lia).
Qed.

Lemma decode_encode i g :
  (i < MAX_THREADS)%nat -> decode_handle (encode_handle i g) = Some (i, g mod 2 ^ 16).
Proof.
  intros Hi. unfold decode_handle. rewrite encode_value by done. unfold MAX_THREADS, PTHREAD_NULL, U64_MAX in *.
  pose proof (Z.mod_pos_bound g (2 ^ 16) ltac:(lia)).
  destruct (Z.eqb_spec (Z.of_nat i + 2 ^ 16 * (g mod 2 ^ 16)) (2 ^ 64 - 1)); [lia|].
  rewrite !land_ffff, Z.shiftr_div_pow2 by lia.
  rewrite (Z.mul_comm (2 ^ 16)), Z.mod_add, Z.div_add, (Z.mod_small (Z.of_nat i)), Z.div_small by lia.
  rewrite Nat2Z.id, Z.add_0_l, Z.mod_mod by lia.
  destruct (Nat.leb_spec 64 i); [lia|]. done.
Qed.

Lemma validate_encode p i g :
  (i < MAX_THREADS)%nat ->
  validate_handle p (encode_handle i g) =
    if (td_generation (thread_desc p i) mod 2 ^ 16 =? g mod 2 ^ 16) &&
       bool_decide (td_owner (thread_desc p i) = Personality)
    then Some i else None.
Proof.
  intros Hi. unfold validate_handle. rewrite decode_encode by done. cbn [mbind option_bind].
  unfold as_u16, wrap. destruct (_ =? _); cbn [negb andb]; [|done].
  by destruct (td_owner (thread_desc p i)).
Qed.

(** ** What the operations keep *)

(** Every path of [f] relates the states before and after by [R]. *)
Definition keeps {A} (R : PProc -> PProc -> Prop) (f : PT A) : Prop :=
  forall p, R p (snd (f p)).

Section keeps.
Context (R : PProc -> PProc -> Prop) `{!PreOrder R}.

Lemma keeps_ret {A} (a : A) : keeps R (mret a : PT A).
Proof. intros p. cbn. reflexivity. Qed.
Lemma keeps_gets {A} (f : PProc -> A) : keeps R (gets f).
Proof. intros p. cbn. reflexivity. Qed.
Lemma keeps_returns {A} c : keeps R (returns c : PT A).
Proof. intros p. cbn. reflexivity. Qed.
Lemma keeps_bind {A B} (m : PT A) (f : A -> PT B) :
  keeps R m -> (forall a, keeps R (f a)) -> keeps R (m ≫= f).
Proof.
  intros Hm Hf p. unfold mbind, PT_bind. specialize (Hm p). destruct (m p) as [[a| | |] p']; try done.
  cbn in Hm. etrans; [exact Hm|apply Hf].
Qed.
Lemma keeps_body (f : PT Z) : keeps R f -> keeps R (body f).
Proof. intros Hf p. unfold body. specialize (Hf p). by destruct (f p) as [[]]. Qed.
Lemma keeps_body_out {O} (out : O) f : keeps R f -> keeps R (body_out out f).
Proof. intros Hf p. unfold body_out. specialize (Hf p). by destruct (f p) as [[]]. Qed.
End keeps.

(** The pool has [MAX_THREADS] descriptors throughout. *)
Definition same_pool (p p' : PProc) : Prop := length (p_pool p') = length (p_pool p).

(** The generations stay, and a personality thread's slot stays one. *)
Definition gens_kept (p p' : PProc) : Prop := same_pool p p' /\ forall j,
  td_generation (thread_desc p' j) = td_generation (thread_desc p j) /\
  (td_owner (thread_desc p j) = Personality -> td_owner (thread_desc p' j) = Personality).

#[export] Instance gens_kept_preorder : PreOrder gens_kept.
Proof.
  split.
  - intros p. by split.
  - intros p q r [Hl1 Hpq] [Hl2 Hqr]. split; [unfold same_pool in *; congruence|].
    intros j. destruct (Hpq j) as [<- ?], (Hqr j) as [<- ?]. auto.
Qed.

Lemma gens_kept_pool p p' : p_pool p' = p_pool p -> gens_kept p p'.
Proof. intros E. unfold gens_kept, same_pool, thread_desc. by rewrite E. Qed.

Lemma desc_after_set (p : PProc) i d j :
  thread_desc (set_desc p i d) j
  = if decide (j = i /\ (i < length (p_pool p))%nat) then d else thread_desc p j.
Proof.
  unfold thread_desc, set_desc. cbn [p_pool with_pool]. destruct (decide (j = i /\ _)) as [[-> Hi]|Hn].
  - by rewrite list_lookup_insert_eq.
  - destruct (decide (i = j)) as [->|]; [|by rewrite list_lookup_insert_ne].
    rewrite list_insert_ge; [done|]. apply Nat.nlt_ge. intros ?. by apply Hn.
Qed.

Lemma gens_kept_desc (p : PProc) i d :
  td_generation d = td_generation (thread_desc p i) ->
  (td_owner (thread_desc p i) = Personality -> td_owner d = Personality) ->
  gens_kept p (set_desc p i d).
Proof.
  intros Hg Ho. split; [apply length_insert|]. intros j. rewrite desc_after_set.
  by destruct (decide (j = i /\ _)) as [[-> _]|].
Qed.

Lemma keeps_mod_desc i f :
  (forall d, td_generation (f d) = td_generation d) ->
  (forall d, td_owner d = Personality -> td_owner (f d) = Personality) ->
  keeps gens_kept (mod_desc i f).
Proof. intros Hg Ho p. apply gens_kept_desc; [apply Hg|apply Ho]. Qed.

Ltac keeps_step :=
  match goal with
  | |- keeps _ (@mbind _ _ _ _ _ _) => apply (keeps_bind _); [|intros]
  | |- keeps _ (@mret _ _ _ _) => apply (keeps_ret _)
  | |- keeps _ (gets _) => apply (keeps_gets _)
  | |- keeps _ (returns _) => apply (keeps_returns _)
  | |- keeps _ (body _) => apply (keeps_body _)
  | |- keeps _ (body_out _ _) => apply (keeps_body_out _)
  | |- keeps _ (mod_desc _ _) => apply keeps_mod_desc; [done|done]
  | |- keeps _ (if ?b then _ else _) => destruct b
  | |- keeps _ (let '(_, _) := ?x in _) => destruct x
  | |- keeps _ (match ?x with _ => _ end) => destruct x
  | |- PreOrder _ => apply _
  | |- keeps gens_kept (mod_ext _ _) => intros ?; by apply gens_kept_pool
  | |- keeps gens_kept (mod_x _) => intros ?; by apply gens_kept_pool
  | |- keeps gens_kept (mod_world _) => intros ?; by apply gens_kept_pool
  | |- keeps gens_kept (mod_mem _) => intros ?; by apply gens_kept_pool
  end.

Section ops.
Context `{Kernel} `{Slices} `{!Image Posix} `{!SigCalls} `{!Threads} (fuel : nat).

Lemma keeps_posix {A} (f : forall r, PosixClient.M (H := ipc_transport fuel r) A) :
  keeps gens_kept (posix fuel f).
Proof. intros p. unfold posix. destruct (f _ _) as [[a q]|]; by apply gens_kept_pool. Qed.

Lemma keeps_puts t : keeps gens_kept (puts t).
Proof. intros p. by apply gens_kept_pool. Qed.

Lemma keeps_drop_cap c : keeps gens_kept (drop_cap c).
Proof. intros p. by apply gens_kept_pool. Qed.

Lemma keeps_take_slot : keeps gens_kept (take_slot fuel).
Proof.
  intros p. unfold take_slot. destruct (slot_alloc _ _ _) as [[[r|] st] w]; by apply gens_kept_pool.
Qed.

Lemma claim_scan_keeps n : forall offset hint p, gens_kept p (snd (claim_scan n offset hint p)).
Proof.
  induction n as [|n IH]; intros offset hint p; cbn [claim_scan]; [reflexivity|].
  set (i := (_ + 1)%nat). destruct (_ =? _); [|apply IH]. cbn [snd].
  etrans; [apply (gens_kept_desc p i (set_state (thread_desc p i) TD_RUNNING)); done|]. by apply gens_kept_pool.
Qed.

Ltac keeps_op :=
  first [keeps_step | apply keeps_posix | apply keeps_puts | apply keeps_drop_cap | apply keeps_take_slot].

Lemma keeps_abandon {A} i b n : keeps gens_kept (abandon (A := A) fuel i b n).
Proof. unfold abandon, unmap_stack, release_slot. repeat keeps_op. Qed.

Lemma keeps_create out attr start_fn arg : keeps gens_kept (pthread_create fuel out attr start_fn arg).
Proof.
  unfold pthread_create, create_stack, create_image, create_start, pm_thread_create_call, pm_call,
    release_slot, claim_slot.
  repeat first [keeps_op | apply keeps_abandon].
  - intros p. pose proof (claim_scan_keeps (MAX_THREADS - 1) 0 (next_free_hint (p_ext p)) p) as Hk.
    by destruct (claim_scan _ _ _ _).
  - intros p. by apply gens_kept_pool.
Qed.

Lemma keeps_detach thread : keeps gens_kept (pthread_detach fuel thread).
Proof. unfold pthread_detach, pm_thread_detach_call, pm_call. repeat keeps_op. Qed.

Lemma keeps_cancel thread : keeps gens_kept (pthread_cancel thread).
Proof. unfold pthread_cancel. repeat keeps_op. Qed.

(** ** Sequences of operations *)

(** What the threads of the process do: thread operations, and anything that
    leaves the thread pool and the extensions alone. *)
Inductive Op :=
| OpCreate (out : option Z) (attr : option PthreadAttr) (start_fn arg : Z)
| OpJoin (reg thread : Z) (retval : option Z)
| OpDetach (thread : Z)
| OpCancel (thread : Z)
| OpUser (w : World) (st : SlotAllocState) (m : Mem).

Definition run_op (p : PProc) (o : Op) : PProc :=
  match o with
  | OpCreate out attr f a => snd (pthread_create fuel out attr f a p)
  | OpJoin reg h rv => snd (pthread_join fuel reg h rv p)
  | OpDetach h => snd (pthread_detach fuel h p)
  | OpCancel h => snd (pthread_cancel h p)
  | OpUser w st m => with_mem (with_alloc (with_world p w) st) m
  end.

(** The operation is a successful join of slot [i]'s thread. *)
Definition joins (i : nat) (p : PProc) (o : Op) : bool :=
  match o with
  | OpJoin reg h rv =>
      bool_decide (validate_handle p h = Some i) &&
      match pthread_join fuel reg h rv p with
      | (Val (c, _), p') => (c =? 0) && (td_personality_data (thread_desc p' i) =? 0)
      | _ => false
      end
  | _ => false
  end.

(** Joins of slot [i] in a sequence of operations. *)
Fixpoint join_count (i : nat) (p : PProc) (l : list Op) : nat :=
  match l with
  | [] => 0
  | o :: l' => ((if joins i p o then 1 else 0) + join_count i (run_op p o) l')%nat
  end.

Lemma posix_pool {A} (f : forall r, PosixClient.M (H := ipc_transport fuel r) A) p :
  p_pool (snd (posix fuel f p)) = p_pool p.
Proof. unfold posix. by destruct (f _ _) as [[a q]|]. Qed.

Lemma keeps_release j : keeps gens_kept (release_thread fuel j).
Proof. unfold release_thread, unmap_stack. repeat keeps_op. Qed.

(** [f] gives a value, or a call does not return. *)
Definition ends {A} (f : PT A) : Prop := forall p, (exists a, fst (f p) = Val a) \/ fst (f p) = Stuck.

Lemma ends_bind {A B} (m : PT A) (f : A -> PT B) : ends m -> (forall a, ends (f a)) -> ends (m ≫= f).
Proof.
  intros Hm Hf p. unfold mbind, PT_bind. specialize (Hm p). destruct (m p) as [o q]. cbn in Hm.
  destruct Hm as [[a ->] | ->]; [apply Hf|by right].
Qed.

Lemma ends_posix {A} (f : forall r, PosixClient.M (H := ipc_transport fuel r) A) : ends (posix fuel f).
Proof. intros p. unfold posix. destruct (f _ _) as [[a q]|]; [left; by eexists|by right]. Qed.

Lemma ends_val {A} (f : PT A) : (forall p, exists a, fst (f p) = Val a) -> ends f.
Proof. intros Hf p. left. apply Hf. Qed.

Lemma release_ends j : ends (release_thread fuel j).
Proof.
  unfold release_thread, unmap_stack.
  repeat first [apply ends_bind; [|intros] | case_match | apply ends_posix
               | apply ends_val; intros; by eexists].
Qed.

Lemma recycle_cases i j p :
  (exists q, gens_kept p q /\ recycle fuel i j p = (Val (), set_desc q i (retire (thread_desc q i)))) \/
  (gens_kept p (snd (recycle fuel i j p)) /\ fst (recycle fuel i j p) = Stuck).
Proof.
  unfold recycle, mbind, PT_bind. pose proof (keeps_release j p) as Hk. pose proof (release_ends j p) as He.
  destruct (release_thread fuel j p) as [o q]. cbn in Hk, He.
  destruct He as [[[] ->] | ->]; [left; by exists q|by right].
Qed.

(** A join either recycles the slot of the handle, or keeps everything. *)
Lemma join_cases reg h rv p :
  let p' := snd (pthread_join fuel reg h rv p) in
  (exists i q out, validate_handle p h = Some i /\ gens_kept p q /\
     pthread_join fuel reg h rv p = (Val (0, out), set_desc q i (retire (thread_desc q i)))) \/
  (gens_kept p p' /\ forall i, (i < length (p_pool p))%nat -> joins i p (OpJoin reg h rv) = false).
Proof.
  cbv zeta. unfold joins, pthread_join, body_out, mbind, PT_bind, gets, returns.
  destruct (validate_handle p h) as [i|] eqn:Ev; cbv beta iota; [|right; by split].
  assert (Hno : td_personality_data (thread_desc p i) <> 0 -> forall c (p' : PProc) j,
    p_pool p' = p_pool p ->
    bool_decide (Some i = Some j) && ((c =? 0) && (td_personality_data (thread_desc p' j) =? 0)) = false).
  { intros Hd c p' j Hp. destruct (bool_decide_reflect (Some i = Some j)) as [[= <-]|]; [|done].
    assert (thread_desc p' i = thread_desc p i) as -> by (unfold thread_desc; by rewrite Hp).
    destruct (Z.eqb_spec (td_personality_data (thread_desc p i)) 0); [done|]. by rewrite !andb_false_r. }
  destruct (pthread_self p reg =? h) eqn:Es.
  { right. split; [reflexivity|]. intros j Hj. by rewrite andb_false_r. }
  destruct (Z.eqb_spec (td_personality_data (thread_desc p i)) 0) as [|Hd].
  { right. split; [reflexivity|]. intros j Hj. by rewrite andb_false_r. }
  set (e := ext p _). destruct (detached e =? 0); cbn [negb].
  2: { right. split; [reflexivity|]. intros j Hj. by rewrite andb_false_r. }
  destruct (procmgr_tid e =? 0).
  { right. split; [reflexivity|]. intros j Hj. by rewrite andb_false_r. }
  unfold pm_thread_join_call, pm_call, mbind, PT_bind, mret, PT_ret.
  match goal with |- context [posix fuel ?f p] => pose proof (posix_pool f p) as Hpp; destruct (posix fuel f p) as [[[err resp]|c| |] p1] end;
    cbn [snd] in Hpp; cbv beta iota;
    try (right; split; [by apply gens_kept_pool|]; intros j Hj; by rewrite andb_false_r).
  2: { right. split; [by apply gens_kept_pool|]. intros j _. by apply Hno. }
  destruct (negb (err =? 0)); [right|destruct (negb (label resp =? TRONA_OK)); [right|]].
  - split; [by apply gens_kept_pool|]. intros j _. by apply Hno.
  - split; [by apply gens_kept_pool|]. intros j _. by apply Hno.
  - destruct (recycle_cases i (ext_index (td_personality_data (thread_desc p i))) p1) as [(q & Hq & ->)|[Hk Ho]].
    + left. eexists i, q, _. split; [done|]. split; [|reflexivity].
      etrans; [by apply gens_kept_pool|exact Hq].
    + right. destruct (recycle _ _ _ _) as [o' q]. cbn in Hk, Ho. subst o'.
      assert (Hkk : gens_kept p q) by (etrans; [by apply gens_kept_pool|exact Hk]).
      split; [exact Hkk|]. intros j Hj. by rewrite andb_false_r.
Qed.

(** Each operation advances the generation of slot [i] exactly when it joins its
    thread. *)
Lemma run_op_gen i p o :
  length (p_pool p) = MAX_THREADS -> (i < MAX_THREADS)%nat ->
  td_owner (thread_desc p i) = Personality ->
  let p' := run_op p o in
  length (p_pool p') = MAX_THREADS /\ td_owner (thread_desc p' i) = Personality /\
  td_generation (thread_desc p' i) =
    if joins i p o then as_u32 (td_generation (thread_desc p i) + 1) else td_generation (thread_desc p i).
Proof.
  intros Hl Hi Ho.
  assert (Hkept : forall p', gens_kept p p' -> joins i p o = false ->
    length (p_pool p') = MAX_THREADS /\ td_owner (thread_desc p' i) = Personality /\
    td_generation (thread_desc p' i) =
      if joins i p o then as_u32 (td_generation (thread_desc p i) + 1) else td_generation (thread_desc p i)).
  { intros p' [Hs Hg] ->. split; [unfold same_pool in Hs; congruence|]. destruct (Hg i). auto. }
  destruct o as [out attr f a|reg h rv|h|h|w st m]; cbn [run_op].
  - apply Hkept; [apply keeps_create|done].
  - destruct (join_cases reg h rv p) as [(j & q & out & Hv & [Hq Hg] & E)|[Hk Hn]]; [|apply Hkept; auto; apply Hn; lia].
    unfold joins. rewrite E. cbn [snd]. unfold same_pool in Hq. rewrite desc_after_set.
    assert (length (p_pool (set_desc q j (retire (thread_desc q j)))) = MAX_THREADS) as ->
      by (unfold set_desc; cbn; rewrite length_insert; congruence).
    rewrite Hv. destruct (Hg i) as [Hgi Hoi]. cbn [Z.eqb andb].
    destruct (decide (i = j /\ _)) as [[<- _]|Hne].
    + rewrite bool_decide_eq_true_2 by done. cbn. split; [done|]. split; [auto|]. by rewrite Hgi.
    + rewrite (bool_decide_eq_false_2 (Some j = Some i)).
      2: { intros [= ->]. apply Hne. split; [done|]. rewrite Hq, Hl. done. }
      cbn. auto.
  - apply Hkept; [apply keeps_detach|done].
  - apply Hkept; [apply keeps_cancel|done].
  - apply Hkept; [by apply gens_kept_pool|done].
Qed.

Definition run_ops (p : PProc) (l : list Op) : PProc := fold_left run_op l p.

Lemma run_ops_gen i : forall l p,
  length (p_pool p) = MAX_THREADS -> (i < MAX_THREADS)%nat ->
  td_owner (thread_desc p i) = Personality ->
  let q := run_ops p l in
  td_owner (thread_desc q i) = Personality /\
  td_generation (thread_desc q i) mod 2 ^ 16 =
    (td_generation (thread_desc p i) + Z.of_nat (join_count i p l)) mod 2 ^ 16.
Proof.
  induction l as [|o l IH]; intros p Hl Hi Ho; cbn [run_ops fold_left join_count].
  - by rewrite Z.add_0_r.
  - destruct (run_op_gen i p o Hl Hi Ho) as (Hl' & Ho' & Hg).
    destruct (IH (run_op p o) Hl' Hi Ho') as [Hq Hgq]. split; [exact Hq|].
    unfold run_ops in Hgq. rewrite Hgq, Hg. destruct (joins i p o); [|f_equal; lia].
    unfold as_u32, wrap. rewrite <- (Z.add_mod_idemp_l (_ mod 2 ^ 32)) by lia.
    replace (2 ^ 32) with (2 ^ 16 * 2 ^ 16) by lia.
    rewrite Z.mod_mod_divide by (by exists (2 ^ 16)).
    rewrite Z.add_mod_idemp_l by lia. f_equal. lia.
Qed.
End ops.
