(* ===== verification/PthreadCreate.v ===== *)
(** Creation of a thread: what each outcome of [pthread_create] leaves behind, and
    the memory of the new thread. *)

From S2P Require Import Prelude Consts SlotAlloc SlotPool Kernel Invoke SlotExpand Ipc PosixCall Protocol PosixClient PosixProc InvokeOps Serial ByteMem SlotRange Tls TlsTheorems Worker WorkerTls Runtime Signals Pthread PthreadHandles.
Import String.StringSyntax.

(** ** Reading a state through its updates *)

Lemma desc_with_x p f i : thread_desc (with_x p f) i = thread_desc p i.
Proof. done. Qed.
Lemma desc_with_world (p : PProc) w i : thread_desc (with_world p w) i = thread_desc p i.
Proof. done. Qed.
Lemma desc_with_mem (p : PProc) m i : thread_desc (with_mem p m) i = thread_desc p i.
Proof. done. Qed.
Lemma desc_with_alloc (p : PProc) s i : thread_desc (with_alloc p s) i = thread_desc p i.
Proof. done. Qed.
Lemma desc_with_tid (p : PProc) t i : thread_desc (with_next_tid p t) i = thread_desc p i.
Proof. done. Qed.

Definition set_ext (p : PProc) (i : nat) (e : PosixThreadExt) : PProc :=
  with_x p (fun x => set_ext_pool x (<[i := e]> (ext_pool x))).

Lemma mod_ext_val i f p : mod_ext i f p = (Val (), set_ext p i (f (ext p i))).
Proof. done. Qed.

Lemma ext_set p i e j :
  ext (set_ext p i e) j
  = if decide (j = i /\ (i < length (ext_pool (p_ext p)))%nat) then e else ext p j.
Proof.
  unfold ext, set_ext, with_x. cbn [p_ext with_ext ext_pool set_ext_pool].
  destruct (decide (j = i /\ _)) as [[-> Hi]|Hn].
  - by rewrite list_lookup_insert_eq.
  - destruct (decide (i = j)) as [->|]; [|by rewrite list_lookup_insert_ne].
    rewrite list_insert_ge; [done|]. apply Nat.nlt_ge. intros ?. by apply Hn.
Qed.

(** ** Inverting runs *)

Lemma bind_val {A B} (m : PT A) (f : A -> PT B) p b r :
  (m ≫= f) p = (Val b, r) -> exists a q, m p = (Val a, q) /\ f a q = (Val b, r).
Proof.
  unfold mbind, PT_bind. destruct (m p) as [[a|c| |] q]; intros Hb; try done. by exists a, q.
Qed.

(** An early return comes from one of the two parts. *)
Lemma bind_ret {A B} (m : PT A) (f : A -> PT B) p c r :
  (m ≫= f) p = (Ret c, r) ->
  m p = (Ret c, r) \/ exists a q, m p = (Val a, q) /\ f a q = (Ret c, r).
Proof.
  unfold mbind, PT_bind. destruct (m p) as [[a|c'| |] q]; intros Hb; try done; [right; by exists a, q|].
  left. by injection Hb as -> ->.
Qed.

(** What a call to a server may change. *)
Definition called (p q : PProc) : Prop :=
  exists w u a s, q = with_x (with_world p w) (fun x => set_client x u a s).

Section create.
Context `{Kernel} `{Slices} `{!Image Posix} `{!SigCalls} `{!Threads} (fuel : nat).
Implicit Types p q : PProc.

(** The request is answered. *)
Definition answered {A} (f : forall r, PosixClient.M (H := ipc_transport fuel r) A) : Prop :=
  forall r (c : PosixClient.Proc (H := ipc_transport fuel r)), f r c <> None.

Lemma posix_called {A} (f : forall r, PosixClient.M (H := ipc_transport fuel r) A) p :
  (exists a q, posix fuel f p = (Val a, q) /\ called p q) \/ (posix fuel f p = (Stuck, p) /\ ~ answered f).
Proof.
  unfold posix. destruct (f _ _) as [[a q]|] eqn:E; [left|right; split; [done|intros Ha; by eapply Ha]].
  eexists _, _. split; [reflexivity|]. by repeat eexists.
Qed.

(** The environment of a process: every call to a server ends within [fuel]
    attempts, and the process manager answers a request to expand the CSpace. *)
Record served : Prop := {
  sv_calls : forall (idem : bool) w ep m, exists err reply w',
    (if idem then ipc_call_retry_idempotent else ipc_call_retry) fuel w ep m (Some TronaMsg_zeroed)
      = Some (err, Some reply, w');
  sv_expand : exists k, probe_ready k /\ (k + 1 < fuel)%nat;
}.

Lemma call_answered idem ep m : served -> answered (fun r => call (H := ipc_transport fuel r) idem ep m).
Proof.
  intros Hs r q. unfold call. cbn [t_call ipc_transport].
  destruct (sv_calls Hs idem (pr_w q) ep m) as (err & reply & w' & E). by rewrite E.
Qed.

Ltac answer Hs :=
  match goal with
  | |- context [call ?i ?e ?m ?q] =>
      let E := fresh in
      pose proof (call_answered i e m Hs _ q) as E; destruct (call i e m q) as [[[? ?] ?]|]; [clear E|done]
  end.

Lemma munmap_answered b n : served -> answered (fun r => posix_munmap (H := ipc_transport fuel r) eps b n).
Proof.
  intros Hs r q. unfold posix_munmap, request_m1, mbind, PosixClient.M_bind, option_bind. case_if; [done|].
  answer Hs. done.
Qed.

Lemma mmap_answered a n pr fl fd off : served ->
  answered (fun r => posix_mmap (H := ipc_transport fuel r) eps a n pr fl fd off).
Proof.
  intros Hs r q. unfold posix_mmap, request_addr, mbind, PosixClient.M_bind, option_bind.
  repeat case_if; try done; by answer Hs.
Qed.

Lemma prefault_answered a n pr : served ->
  answered (fun r => posix_prefault (H := ipc_transport fuel r) eps a n pr).
Proof.
  intros Hs r q. unfold posix_prefault, posix_getpid, request, request_m1, mbind, PosixClient.M_bind, option_bind.
  case_if; [done|]. answer Hs. unfold mret, PosixClient.M_ret. cbn [mbind option_bind].
  destruct ((if failed _ _ then _ else _) <=? 0); [done|]. destruct (page_range a n) as [[st pg]|]; [|done]. by answer Hs.
Qed.

(** Step 1. *)
Lemma claim_scan_inv n : forall offset hint p i q,
  claim_scan n offset hint p = (Some i, q) ->
  (1 <= i < MAX_THREADS)%nat /\ td_state (thread_desc p i) = TD_UNUSED /\
  q = with_x (set_desc p i (set_state (thread_desc p i) TD_RUNNING))
        (fun x => set_hint x (i mod (MAX_THREADS - 1) + 1)%nat).
Proof.
  induction n as [|n IH]; intros offset hint p i q Hc; cbn [claim_scan] in Hc; [done|].
  set (k := ((hint - 1 + offset) mod (MAX_THREADS - 1) + 1)%nat) in Hc.
  destruct (Z.eqb_spec (td_state (thread_desc p k)) TD_UNUSED); [|by eapply IH].
  injection Hc as <- <-. split; [|done].
  pose proof (Nat.mod_upper_bound (hint - 1 + offset) (MAX_THREADS - 1)). unfold k, MAX_THREADS in *. lia.
Qed.

Lemma claim_scan_none n : forall offset hint p q,
  claim_scan n offset hint p = (None, q) -> q = p.
Proof.
  induction n as [|n IH]; intros offset hint p q Hc; cbn [claim_scan] in Hc; [congruence|].
  set (k := ((hint - 1 + offset) mod (MAX_THREADS - 1) + 1)%nat) in Hc.
  destruct (Z.eqb_spec (td_state (thread_desc p k)) TD_UNUSED); [done|by eapply IH].
Qed.

(** When it reports exhaustion, every slot but the main thread's is in use. *)
Lemma claim_none_full n : forall offset hint p q,
  claim_scan n offset hint p = (None, q) ->
  forall o, (offset <= o < offset + n)%nat ->
    td_state (thread_desc p ((hint - 1 + o) mod (MAX_THREADS - 1) + 1)) <> TD_UNUSED.
Proof.
  induction n as [|n IH]; intros offset hint p q Hc o Ho; cbn [claim_scan] in Hc; [lia|].
  destruct (Z.eqb_spec (td_state (thread_desc p ((hint - 1 + offset) mod (MAX_THREADS - 1) + 1))) TD_UNUSED); [done|].
  destruct (decide (o = offset)) as [->|]; [done|]. eapply IH; [done|lia].
Qed.

Lemma claim_exhausted p q i :
  claim_slot p = (None, q) -> (1 <= i < MAX_THREADS)%nat -> td_state (thread_desc p i) <> TD_UNUSED.
Proof.
  intros Hc Hi. set (h := next_free_hint (p_ext p)) in *.
  unfold MAX_THREADS in *. set (o := (((i - 1) + 63 - (h - 1) mod 63) mod 63)%nat).
  pose proof (claim_none_full 63 0 h p q Hc o) as Hn.
  pose proof (Nat.mod_upper_bound (h - 1) 63). pose proof (Nat.mod_upper_bound ((i - 1) + 63 - (h - 1) mod 63) 63).
  assert ((h - 1 + o) mod 63 = (i - 1))%nat as E.
  { unfold o. rewrite Nat.Div0.add_mod_idemp_r.
    rewrite (Nat.div_mod_eq (h - 1) 63) at 1.
    replace (63 * ((h - 1) / 63) + (h - 1) mod 63 + (i - 1 + 63 - (h - 1) mod 63))%nat
      with (i - 1 + (1 + (h - 1) / 63) * 63)%nat by lia.
    rewrite Nat.Div0.mod_add. apply Nat.mod_small. lia. }
  change (MAX_THREADS - 1)%nat with 63%nat in Hn. rewrite E in Hn. replace (i - 1 + 1)%nat with i in Hn by lia.
  apply Hn. lia.
Qed.

(** *** The result of a success *)

Definition pages_prefaulted (stack_top : Z) : Z := Z.land (sat_sub stack_top 8192) (bnot 64 0xFFF).

(** The memory after step 8, from the memory before step 6. *)
Definition thread_mem (m : Mem) (i : nat) (stack_top tid ipc_va start_fn arg : Z) : Mem :=
  let '(tp, b, e, blk) := pthread_tls_place stack_top in
  let m := write_bytes m b 0 (sat_sub e b) in
  let m := install m tp blk in
  let m := store64 m (blk + off_thread_id) tid in
  let m := store64 m (blk + off_desc) (desc_addr i) in
  let m := store64 m (blk + off_ipc_buffer) ipc_va in
  let m := store32 m (blk + off_send_cap_count) 0 in
  let rsp := (Z.land b (bnot 64 0xF) - 8)%u64 in
  let m := store64 m rsp 0 in
  let m := store64 m (rsp - 16)%u64 start_fn in
  store64 m ((rsp - 16)%u64 + 8) arg.

(** The initial stack pointer. *)
Definition thread_sp (stack_top : Z) : Z :=
  let '(_, b, _, _) := pthread_tls_place stack_top in ((Z.land b (bnot 64 0xF) - 8)%u64 - 16)%u64.

Definition thread_tp (stack_top : Z) : Z := let '(tp, _, _, _) := pthread_tls_place stack_top in tp.
Definition thread_block (stack_top : Z) : Z := let '(_, _, _, blk) := pthread_tls_place stack_top in blk.

(** The descriptor and the extension of the new thread. *)
Definition created_desc (d : ThreadDesc) (i : nat) (sb n tid ipc_va : Z) : ThreadDesc :=
  let d := set_state d TD_RUNNING in
  let d := set_owner d Personality in
  let d := set_personality_data d (ext_addr i) in
  let d := set_personality_cleanup d (Some cleanup_fn) in
  let d := set_personality_fork_child d None in
  let d := set_stack_size (set_stack_base (set_thread_id d tid) sb) n in
  let d := set_tls_ptr d (thread_block (sb + n)%u64) in
  set_ipc_buf_vaddr d ipc_va.

(** The state a stage leaves: the descriptor of slot [i] is [d] and its extension
    [e]; the memory is [m]; the other descriptors and extensions are those of
    [p]; the generation counter and the like stay. *)
Record stage p (i : nat) (d : ThreadDesc) (e : PosixThreadExt) (m : Mem) q : Prop := {
  st_len : length (p_pool q) = length (p_pool p) /\ length (ext_pool (p_ext q)) = length (ext_pool (p_ext p));
  st_desc : thread_desc q i = d;
  st_descs : forall j, j <> i -> thread_desc q j = thread_desc p j;
  st_ext : ext q i = e;
  st_exts : forall j, j <> i -> ext q j = ext p j;
  st_mem : p_mem q = m;
  st_active : p_active q = p_active p;
}.

Lemma stage_desc p i d e m q f :
  stage p i d e m q -> (i < length (p_pool p))%nat ->
  stage p i (f d) e m (set_desc q i (f (thread_desc q i))).
Proof.
  intros [[Hl1 Hl2] Hd Hds He Hes Hm Ha] Hi. split; try done.
  - split; [|done]. unfold set_desc. cbn. by rewrite length_insert.
  - rewrite desc_after_set, decide_True; [by rewrite Hd|]. split; [done|]. by rewrite Hl1.
  - intros j Hj. rewrite desc_after_set, decide_False; [by apply Hds|]. by intros [-> _].
Qed.

Lemma stage_ext p i d e m q f :
  stage p i d e m q -> (i < length (ext_pool (p_ext p)))%nat ->
  stage p i d (f e) m (set_ext q i (f (ext q i))).
Proof.
  intros [[Hl1 Hl2] Hd Hds He Hes Hm Ha] Hi. split; try done.
  - split; [done|]. unfold set_ext, with_x. cbn. by rewrite length_insert.
  - rewrite ext_set, decide_True; [by rewrite He|]. split; [done|]. by rewrite Hl2.
  - intros j Hj. rewrite ext_set, decide_False; [by apply Hes|]. by intros [-> _].
Qed.

Lemma stage_mem p i d e m q f :
  stage p i d e m q -> stage p i d e (f m) (with_mem q (f (p_mem q))).
Proof. intros [? ? ? ? ? Hm ?]. split; try done. cbn. by rewrite Hm. Qed.

Lemma stage_called p i d e m q r : stage p i d e m q -> called q r -> stage p i d e m r.
Proof. intros [] (w & u & a & s & ->). by split. Qed.

(** Changes to the rest of the state. *)
Lemma stage_same p i d e m q r :
  stage p i d e m q -> p_pool r = p_pool q -> ext_pool (p_ext r) = ext_pool (p_ext q) ->
  p_mem r = p_mem q -> p_active r = p_active q -> stage p i d e m r.
Proof.
  intros [[Hl1 Hl2] Hd Hds He Hes Hm Ha] Ep Ex Em Ea.
  assert (Ed : forall j, thread_desc r j = thread_desc q j) by (intros j; unfold thread_desc; by rewrite Ep).
  assert (Ee : forall j, ext r j = ext q j) by (intros j; unfold ext; by rewrite Ex).
  split; [rewrite Ep, Ex; done|by rewrite Ed|intros j Hj; rewrite Ed; auto|by rewrite Ee
         |intros j Hj; rewrite Ee; auto|congruence..].
Qed.

Lemma stage_refl p i : stage p i (thread_desc p i) (ext p i) (p_mem p) p.
Proof. by split. Qed.

Lemma stage_world p i d e m q w : stage p i d e m q -> stage p i d e m (with_world q w).
Proof. intros Hs. by eapply stage_same. Qed.

Lemma stage_alloc p i d e m q st : stage p i d e m q -> stage p i d e m (with_alloc q st).
Proof. intros Hs. by eapply stage_same. Qed.

Lemma stage_x p i d e m q f :
  (forall x, ext_pool (f x) = ext_pool x) -> stage p i d e m q -> stage p i d e m (with_x q f).
Proof. intros Hf Hs. eapply stage_same; [exact Hs|done| |done|done]. apply Hf. Qed.

(** *** Failures *)

(** The last request was to unmap the range. *)
Definition unmapped (sb n : Z) q : Prop :=
  exists p1 p2, unmap_stack fuel sb n p1 = (Val (), p2) /\ p_world p2 = p_world q.

(** A failed creation: one descriptor is touched, but it is free as before and
    has its generation; no slot is lost; and a stack that was mapped has been
    unmapped again. *)
Definition unwound p q : Prop := exists i d e m, stage p i d e m q /\
  td_state d = td_state (thread_desc p i) /\ td_generation d = td_generation (thread_desc p i) /\
  (slots_ready (p_alloc p) -> same_slots (p_alloc p) (p_alloc q)) /\
  (x_stack_base e <> 0 -> e = ext p i \/ unmapped (x_stack_base e) (x_stack_size e) q).

Lemma abandon_spec {A} p i d e m q sb n :
  stage p i d e m q -> (i < length (p_pool p))%nat ->
  match abandon (A := A) fuel i sb n q with
  | (Ret c, r) => c = -12 /\ stage p i (set_state (set_personality_data d 0) TD_UNUSED) e m r /\
                  p_alloc r = p_alloc q /\ unmapped sb n r
  | (Stuck, _) => ~ served
  | _ => False
  end.
Proof.
  intros Hs Hi. unfold abandon, mbind, PT_bind.
  destruct (unmap_stack fuel sb n q) as [o q1] eqn:E. pose proof E as E0.
  unfold unmap_stack, mbind, PT_bind in E.
  destruct (posix_called (fun r => posix_munmap (H := ipc_transport fuel r) eps sb n) q) as [(a & q2 & E2 & Hc)|[E2 Hno]];
    rewrite E2 in E; injection E as <- <-; [|intros Hs'; by apply Hno, munmap_answered].
  split; [done|]. split; [|split].
  - unfold release_slot, mod_desc, modify. cbn [snd].
    apply (stage_desc p i d e m q2 (fun d => set_state (set_personality_data d 0) TD_UNUSED)); [|done].
    by eapply stage_called.
  - destruct Hc as (w & u & x & s & ->). done.
  - by exists q, q2.
Qed.

(** Steps 1 to 5. *)
Definition early_desc (d : ThreadDesc) (i : nat) : ThreadDesc :=
  set_personality_fork_child (set_personality_cleanup (set_personality_data
    (set_owner (set_state d TD_RUNNING) Personality) (ext_addr i)) (Some cleanup_fn)) None.

Lemma create_stack_cases attr p :
  length (p_pool p) = MAX_THREADS -> length (ext_pool (p_ext p)) = MAX_THREADS ->
  match create_stack fuel attr p with
  | (Val (i, sb, n, tid), q) =>
      (1 <= i < MAX_THREADS)%nat /\ td_state (thread_desc p i) = TD_UNUSED /\
      n = stack_size_of attr /\ sb <> 0 /\ sb <> U64_MAX /\ tid = p_next_tid p /\
      p_alloc q = p_alloc p /\ ipc_buf_next (p_ext q) = ipc_buf_next (p_ext p) /\
      stage p i (set_stack_size (set_stack_base (set_thread_id (early_desc (thread_desc p i) i) tid) sb) n)
        (mkExt 0 0 sb n (detach_state_of attr)) (p_mem p) q
  | (Ret c, q) =>
      unwound p q /\ ((c = -11 /\ forall j, (1 <= j < MAX_THREADS)%nat ->
                                     td_state (thread_desc p j) <> TD_UNUSED) \/ c = -12)
  | (Stuck, _) => ~ served
  | (Gone, _) => False
  end.
Proof.
  intros Hl Hx. unfold create_stack, mbind, PT_bind. cbv beta iota.
  destruct (claim_slot p) as [[i|] q0] eqn:Ec.
  2: { pose proof (claim_exhausted p q0) as Hfull. pose proof Ec as Ec'. apply claim_scan_none in Ec'. subst q0.
       unfold puts, mod_world, modify, returns. split; [|left; split; [done|by intros j Hj; apply (Hfull j)]].
       exists 0%nat, (thread_desc p 0), (ext p 0), (p_mem p). split; [apply stage_world, stage_refl|].
       split_and!; try done. intros _. by left. }
  apply claim_scan_inv in Ec as (Hi & Hun & ->).
  set (q0 := with_x _ _).
  assert (S0 : stage p i (set_state (thread_desc p i) TD_RUNNING) (ext p i) (p_mem p) q0).
  { unfold q0. eapply stage_same;
      [apply (stage_desc p i _ _ _ p (fun d => set_state d TD_RUNNING) (stage_refl p i)); lia|done..]. }
  rewrite mod_ext_val. set (q1 := set_ext q0 i _).
  assert (S1 : stage p i (set_state (thread_desc p i) TD_RUNNING) (mkExt 0 0 0 0 (detach_state_of attr)) (p_mem p) q1).
  { apply (stage_ext p i _ _ _ q0 (fun _ => mkExt 0 0 0 0 (detach_state_of attr)) S0). lia. }
  unfold mod_desc at 1, modify at 1. cbv beta iota. set (q2 := set_desc q1 i _).
  assert (S2 : stage p i (early_desc (thread_desc p i) i) (mkExt 0 0 0 0 (detach_state_of attr)) (p_mem p) q2).
  { apply (stage_desc p i _ _ _ q1 (fun d => set_personality_fork_child (set_personality_cleanup
      (set_personality_data (set_owner d Personality) (ext_addr i)) (Some cleanup_fn)) None) S1). lia. }
  match goal with |- context [posix fuel ?f q2] => destruct (posix_called f q2) as [(sb & q3 & -> & Hc)|[E3 Hno]] end;
    [|rewrite E3; intros Hs; by apply Hno, mmap_answered].
  assert (Ha : p_alloc q3 = p_alloc p /\ ipc_buf_next (p_ext q3) = ipc_buf_next (p_ext p) /\
               p_next_tid q3 = p_next_tid p) by (by destruct Hc as (? & ? & ? & ? & ->)).
  pose proof (stage_called p i _ _ _ q2 q3 S2 Hc) as S3.
  destruct (Z.eqb_spec sb U64_MAX) as [|Hm]; [|destruct (Z.eqb_spec sb 0) as [|Hz]]; cbn [orb].
  1,2: unfold puts, mod_world, release_slot, mod_desc, modify, returns;
    split; [|by right];
    eexists i, _, _, _; split;
    [apply (stage_desc p i _ _ _ _ (fun d => set_state (set_personality_data d 0) TD_UNUSED)
       (stage_world p i _ _ _ q3 _ S3)); lia|];
    split_and!; [by rewrite Hun|done|intros Hr; cbn; destruct Ha as [-> _]; done|done].
  rewrite mod_ext_val. unfold mod_desc at 1, modify at 1, next_thread_id. cbv beta iota. cbn [mret PT_ret].
  destruct Ha as (Ha & Hn & Ht).
  split_and!; try done; try lia.
  eapply (stage_desc p i _ _ _ _ (fun d => set_stack_size (set_stack_base (set_thread_id d _) sb) _)); [|lia].
  eapply stage_same; [apply (stage_ext p i _ _ _ q3 (fun e => mkExt (procmgr_tid e) (x_tcb_cap e) sb _ (detached e)) S3); lia|done..].
Qed.

(** Steps 6 to 8. *)
Lemma create_image_cases p i d e m q sb n tid f a :
  stage p i d e m q -> (i < length (p_pool p))%nat ->
  let top := (sb + n)%u64 in
  match create_image fuel i sb n tid f a q with
  | (Val (sp, tp, ipc), r) =>
      sp = thread_sp top /\ tp = thread_tp top /\ ipc = ipc_buf_next (p_ext q) /\ p_alloc r = p_alloc q /\
      stage p i (set_ipc_buf_vaddr (set_tls_ptr d (thread_block top)) ipc) e (thread_mem m i top tid ipc f a) r
  | (Ret c, r) => c = -12 /\ stage p i (set_state (set_personality_data d 0) TD_UNUSED) e m r /\
                  p_alloc r = p_alloc q /\ unmapped sb n r
  | (Stuck, _) => ~ served
  | (Gone, _) => False
  end.
Proof.
  intros Hs Hi. cbv zeta. unfold create_image, thread_sp, thread_tp, thread_block, thread_mem, install.
  destruct (pthread_tls_place (sb + n)%u64) as [[[tp b] en] blk]. unfold mbind, PT_bind.
  match goal with |- context [posix fuel ?f q] => destruct (posix_called f q) as [(v & q1 & -> & Hc)|[E3 Hno]] end;
    [|rewrite E3; intros Hs'; by apply Hno, prefault_answered].
  pose proof (stage_called _ _ _ _ _ _ _ Hs Hc) as S1.
  assert (Ha : p_alloc q1 = p_alloc q /\ ipc_buf_next (p_ext q1) = ipc_buf_next (p_ext q))
    by (by destruct Hc as (? & ? & ? & ? & ->)). destruct Ha as [Ha Hn].
  destruct (negb (v =? 0)).
  - unfold puts, mod_world, modify. cbv beta iota.
    set (q2 := with_world q1 _).
    pose proof (abandon_spec (A := Z * Z * Z) p i d e m q2 sb n (stage_world _ _ _ _ _ _ _ S1) Hi) as Hab.
    destruct (abandon fuel i sb n q2) as [[] r]; try done.
    destruct Hab as (? & ? & Hal & ?). split_and!; try done. by rewrite Hal.
  - unfold mod_mem, mod_desc, mod_x, modify, gets. cbv beta iota. cbn [mret PT_ret].
    split; [done|]. split; [done|]. split; [done|]. split; [done|].
    cbn [ipc_buf_next p_ext set_desc with_pool with_mem].
    eapply (stage_mem p i _ _ _ _ (fun m =>
      let m := store64 m (blk + off_ipc_buffer) (ipc_buf_next (p_ext q1)) in
      let m := store32 m (blk + off_send_cap_count) 0 in
      let m := store64 m (Z.land b (bnot 64 0xF) - 8)%u64 0 in
      let m := store64 m ((Z.land b (bnot 64 0xF) - 8)%u64 - 16)%u64 f in
      store64 m (((Z.land b (bnot 64 0xF) - 8)%u64 - 16)%u64 + 8) a)).
    eapply (stage_desc p i _ _ _ _ (fun d => set_ipc_buf_vaddr d (ipc_buf_next (p_ext q1)))); [|done].
    apply stage_x; [done|].
    eapply (stage_desc p i _ _ _ _ (fun d => set_tls_ptr d blk)); [|done].
    eapply (stage_mem p i _ _ _ _ (fun m =>
      let m := write_bytes m b 0 (sat_sub en b) in
      let m := initialize_static_tls_for_tp m tp in
      let m := install_runtime_tcb_anchor m tp blk in
      let m := store64 m (blk + off_self_ptr) blk in
      let m := store64 m (blk + off_thread_id) tid in
      store64 m (blk + off_desc) (desc_addr i))).
    exact S1.
Qed.

(** Steps 9 to 11. *)
Lemma create_start_cases p i d e m q out sb n sp tp ipc :
  stage p i d e m q -> (i < length (p_pool p))%nat -> (i < length (ext_pool (p_ext p)))%nat ->
  slots_ready (p_alloc q) ->
  match create_start fuel out i sb n sp tp ipc q with
  | (Val (c, o), r) => exists tid tcb q1 q2,
      c = 0 /\ o = Ipc.store out (encode_handle i (td_generation d)) /\
      stage p i d (mkExt tid tcb (x_stack_base e) (x_stack_size e) (detached e)) m r /\
      range_taken (p_alloc q) (p_alloc r) tcb 1 /\
      pm_thread_create_call fuel entry_trampoline sp tp ipc (if negb (detached e =? 0) then 1 else 0) tcb q1
        = (Val (inl (tid, tcb)), q2) /\ p_mem q1 = m /\ p_world q2 = p_world r
  | (Ret c, r) => c = -12 /\ stage p i (set_state (set_personality_data d 0) TD_UNUSED) e m r /\
                  same_slots (p_alloc q) (p_alloc r) /\ unmapped sb n r
  | (Stuck, _) => ~ served
  | (Gone, _) => False
  end.
Proof.
  intros Hs Hi Hx Hr. unfold create_start, mbind, PT_bind, take_slot.
  pose proof (single_taken fuel (p_alloc q) (p_world q) Hr) as Hsa.
  assert (Htot : served -> fst (fst (slot_alloc fuel (p_alloc q) (p_world q))) <> None).
  { intros [_ (k & Hk & Hf)]. by eapply single_total. }
  destruct (slot_alloc fuel (p_alloc q) (p_world q)) as [[[[tcb|]|] st] w]; cbv beta iota; [| |by intros ?%Htot].
  2: { unfold puts, mod_world, modify. cbv beta iota.
    set (q1 := with_world (with_world (with_alloc q st) w) _).
    pose proof (abandon_spec (A := Z * option Z) p i d e m q1 sb n
      (stage_world _ _ _ _ _ _ _ (stage_world _ _ _ _ _ _ _ (stage_alloc _ _ _ _ _ _ st Hs))) Hi) as Hab.
    destruct (abandon fuel i sb n q1) as [[] r]; try done.
    destruct Hab as (? & ? & Ha & ?). split_and!; try done. by rewrite Ha. }
  unfold gets. cbv beta iota. set (q1 := with_world (with_alloc q st) w).
  assert (S1 : stage p i d e m q1) by (apply stage_world, stage_alloc, Hs).
  rewrite (st_ext _ _ _ _ _ _ S1). set (fl := if negb (detached e =? 0) then 1 else 0).
  destruct (pm_thread_create_call fuel entry_trampoline sp tp ipc fl tcb q1) as [o q2] eqn:Epm.
  pose proof Epm as Epm0. unfold pm_thread_create_call, pm_call, mod_world, modify, mbind, PT_bind in Epm. cbv beta iota in Epm.
  set (q1' := with_world q1 _) in Epm.
  assert (S1' : stage p i d e m q1') by (apply stage_world, S1).
  match type of Epm with context [posix fuel ?f q1'] => destruct (posix_called f q1') as [([err resp] & q3 & E3 & Hc)|[E3 Hno]] end;
    rewrite E3 in Epm; [|injection Epm as <- <-; intros Hs'; by apply Hno, call_answered].
  cbn [mret PT_ret] in Epm. injection Epm as <- <-.
  pose proof (stage_called _ _ _ _ _ _ _ S1' Hc) as S3.
  assert (Ha : p_alloc q3 = st) by (by destruct Hc as (? & ? & ? & ? & ->)).
  destruct (if negb (err =? 0) then _ else _) as [[tid tcb']|ce] eqn:Eres.
  - assert (tcb' = tcb) as -> by (repeat case_match; by simplify_eq).
    rewrite mod_ext_val. cbv beta iota. cbn [mret PT_ret].
    exists tid, tcb, q1, q3. split; [done|].
    pose proof (stage_ext p i _ _ _ q3 (fun e => mkExt tid tcb (x_stack_base e) (x_stack_size e) (detached e)) S3 Hx) as S4.
    split; [by rewrite (st_desc _ _ _ _ _ _ S4)|]. split; [exact S4|].
    split; [cbn; by rewrite Ha|]. split; [exact Epm0|]. split; [apply S1|done].
  - unfold mod_world, drop_cap, modify. cbv beta iota. set (q4 := with_alloc _ _).
    assert (S4 : stage p i d e m q4) by (by apply stage_alloc, stage_world, stage_world).
    pose proof (abandon_spec (A := Z * option Z) p i d e m q4 sb n S4 Hi) as Hab.
    destruct (abandon fuel i sb n q4) as [[] r]; try done.
    destruct Hab as (? & ? & Hal & ?). split_and!; try done. rewrite Hal.
    unfold q4. cbn [p_alloc with_alloc with_world]. rewrite Ha.
    eapply taken_freed; [exact Hsa|]. apply slot_free_freed. apply Hsa.
Qed.
End create.

(** * The memory of a new thread: its thread-local area and initial stack *)

Section image.
Context `{!Image Posix}.

(** What the image takes at most of the stack. *)
Definition stack_need : Z := static_tls_total_memsz + TCB_SIZE + Z.max static_tls_align 16 + 64.

Lemma sat_sub_small a b : b <= a -> sat_sub a b = a - b.
Proof. intros. unfold sat_sub. case_if; bprop; lia. Qed.

Lemma sat_add_small a b : a + b < 2 ^ 64 -> sat_add a b = a + b.
Proof. intros. unfold sat_add, U64_MAX. case_if; bprop; lia. Qed.

(** The area lies in the stack, aligned, and leaves 40 bytes below it. *)
Lemma pthread_place_ok sb top :
  align_ok -> static_tls_ok -> 0 < sb -> sb + stack_need <= top -> top < 2 ^ 63 ->
  let '(tp, b, e, blk) := pthread_tls_place top in
  tls_placed sb top tp blk /\ e = blk + TCB_SIZE /\ b <= blk /\ b <= tp + tls_lo /\ sb + 40 <= b /\
  (arch = AArch64 -> b = tp).
Proof.
  intros Ha Hok Hsb Hn Ht. pose proof (so_total Hok) as Htot.
  destruct (region_align_pow2 Ha) as [Hp Hr]. unfold pthread_tls_place. fold region_align.
  unfold stack_need in Hn. fold region_align in Hn. unfold MAX_ELF_TLS_SIZE, TCB_ALIGN, TCB_SIZE, abi_tcb_size in *.
  destruct arch eqn:Earch.
  - rewrite (Z.max_l region_align 8), (sat_sub_small top 272) by lia.
    destruct (align_down_pow2 (top - 272) region_align Hp ltac:(lia)) as [Hb Hm].
    change (Worker.align_down (top - 272) region_align) with (align_down (top - 272) region_align) in *.
    set (t := align_down (top - 272) region_align) in *.
    rewrite sat_sub_small, sat_add_small by lia.
    split_and!; try done; try (unfold tls_lo; rewrite Earch; lia); try lia.
    split; unfold tls_hi, tls_lo, TCB_SIZE, TCB_ALIGN; rewrite ?Earch; try lia.
    split; [done|]. apply (pow2_divide 8 region_align); [by exists 3|done|lia|done].
  - rewrite (sat_sub_small 8 1), (sat_add_small 16) by lia. rewrite !(sat_add_small (16 + _)) by lia.
    rewrite (sat_add_small (16 + _ + _)) by lia.
    rewrite (sat_sub_small top) by lia.
    assert (Hv : 0 <= top - (16 + static_tls_total_memsz + (8 - 1) + 272) < 2 ^ 64) by lia.
    destruct (align_down_pow2 _ region_align Hp Hv) as [Hb Hm].
    change (Worker.align_down ?v region_align) with (align_down v region_align) in *.
    set (t := align_down _ region_align) in *.
    rewrite (sat_add_small t), (sat_add_small (t + 16)) by lia.
    destruct (align_up_pow2 (t + 16 + static_tls_total_memsz) 8) as [Hu Hu8]; [by exists 3|lia|lia|].
    set (u := align_up _ 8) in *. rewrite (sat_add_small u) by lia.
    split_and!; try done; try (unfold tls_lo; rewrite Earch; lia); try lia.
    split; unfold tls_hi, tls_lo, TCB_SIZE, TCB_ALIGN; rewrite ?Earch; try lia. done.
Qed.

(** The stack pointer: below the area, and 8 modulo 16. *)
Lemma thread_sp_ok sb top :
  align_ok -> static_tls_ok -> 0 < sb -> sb + stack_need <= top -> top < 2 ^ 63 ->
  let '(_, b, _, _) := pthread_tls_place top in
  let rsp := (Z.land b (bnot 64 0xF) - 8)%u64 in
  (rsp - 16)%u64 = thread_sp top /\ rsp = thread_sp top + 16 /\ sb <= thread_sp top /\
  thread_sp top + 24 <= b /\ thread_sp top mod 16 = 8.
Proof.
  intros Ha Hok Hsb Hn Ht. pose proof (pthread_place_ok sb top Ha Hok Hsb Hn Ht) as Hpl.
  unfold thread_sp. destruct (pthread_tls_place top) as [[[tp b] e] blk].
  destruct Hpl as ([[_ _] _ [Hb1 Hb2] _ _] & _ & Hbb & _ & Hb & _). unfold TCB_SIZE in Hb2.
  change 0xF with (2 ^ 4 - 1). rewrite land_bnot_align by lia. change (2 ^ 4) with 16.
  pose proof (Z.mod_pos_bound b 16 ltac:(lia)). pose proof (Z.div_mod b 16 ltac:(lia)).
  rewrite (wrap_small 64 (b - b mod 16 - 8)), (wrap_small 64 (b - b mod 16 - 8 - 16)) by lia.
  split_and!; try lia.
  replace (b - b mod 16 - 8 - 16) with (8 + (b / 16 - 2) * 16) by lia.
  by rewrite Z.mod_add.
Qed.

(** What a new thread finds in memory. *)
Record thread_image (m m' : Mem) (i : nat) (sb top tid ipc f a : Z) : Prop := {
  ti_placed : tls_placed sb top (thread_tp top) (thread_block top);
  ti_block : runtime_tcb_from_tp m' (read_tp m' (thread_tp top)) = thread_block top;
  ti_vars : forall j o, live_module j -> 0 <= o < memsz (static_tls_module j) ->
    m' (tls_addr_from_tp (thread_tp top) (module_id (static_tls_module j)) o) = initial_byte m j o;
  ti_fields : load64 m' (thread_block top + off_thread_id) = tid /\
              load64 m' (thread_block top + off_desc) = desc_addr i /\
              load64 m' (thread_block top + off_ipc_buffer) = ipc;
  ti_zero : forall x, thread_block top + off_cancel_state <= x < thread_block top + TCB_SIZE -> m' x = 0;
  ti_args : load64 m' (thread_sp top) = f /\ load64 m' (thread_sp top + 8) = a /\
            load64 m' (thread_sp top + 16) = 0;
  ti_stack : sb <= thread_sp top /\ thread_sp top mod 16 = 8;
  ti_outside : same_outside sb top m m';
}.

(** Writes that keep to one block, or below the area. *)
Lemma read_tp_ext m m' tp :
  (forall x, tp <= x < tp + 8 -> m' x = m x) -> read_tp m' tp = read_tp m tp.
Proof. intros Hx. unfold read_tp. destruct arch; [by apply load64_ext|done]. Qed.

Lemma tcb_ext m m' lo hi tp blk :
  tls_placed lo hi tp blk -> (forall x, tp <= x < tp + 8 -> m' x = m x) ->
  runtime_tcb_from_tp m (read_tp m tp) = blk -> runtime_tcb_from_tp m' (read_tp m' tp) = blk.
Proof.
  intros Hp Hx <-. rewrite (read_tp_ext m m' tp Hx). unfold runtime_tcb_from_tp, read_tp.
  destruct arch; [done|]. case_if; [done|]. by apply load64_ext.
Qed.

(** The last stores of [thread_mem] stay in the first 48 bytes of the block and
    below the area. *)
Lemma thread_mem_out m i top tid ipc f a x :
  let '(tp, b, e, blk) := pthread_tls_place top in
  (Z.land b (bnot 64 0xF) - 8)%u64 = thread_sp top + 16 -> ((Z.land b (bnot 64 0xF) - 8)%u64 - 16)%u64 = thread_sp top ->
  x < blk + 8 \/ blk + off_cancel_state <= x -> x < thread_sp top \/ thread_sp top + 24 <= x ->
  thread_mem m i top tid ipc f a x = install (write_bytes m b 0 (sat_sub e b)) tp blk x.
Proof.
  unfold thread_mem. destruct (pthread_tls_place top) as [[[tp b] e] blk].
  intros E1 E2 Hx Hs. rewrite E2, E1.
  unfold off_cancel_state, off_thread_id, off_desc, off_ipc_buffer, off_send_cap_count in *.
  rewrite !store64_out by lia. rewrite store32_out by lia. by rewrite !store64_out by lia.
Qed.

Lemma thread_mem_image m i sb top tid ipc f a :
  align_ok -> static_tls_ok -> static_tls_module_count <> 0%nat ->
  0 < sb -> sb + stack_need <= top -> top < 2 ^ 63 ->
  (forall j k, live_module j -> 0 <= k < filesz (static_tls_module j) ->
     let t := template_addr (static_tls_module j) + k in t < sb \/ top <= t) ->
  u64 tid -> u64 ipc -> u64 f -> u64 a -> u64 (desc_addr i) ->
  thread_image m (thread_mem m i top tid ipc f a) i sb top tid ipc f a.
Proof.
  intros Ha Hok Hc Hsb Hn Ht Htm Utid Uipc Uf Ua Ud.
  pose proof (pthread_place_ok sb top Ha Hok Hsb Hn Ht) as Hpl.
  pose proof (thread_sp_ok sb top Ha Hok Hsb Hn Ht) as Hsp.
  pose proof (thread_mem_out m i top tid ipc f a) as Hout.
  unfold thread_tp, thread_block.
  set (m' := thread_mem m i top tid ipc f a) in *.
  assert (Em : m' = thread_mem m i top tid ipc f a) by done. unfold thread_mem in Em.
  destruct (pthread_tls_place top) as [[[tp b] e] blk] eqn:Epl.
  destruct Hpl as (Hpl & He & Hbb & Hbt & Hb & Hba), Hsp as (E2 & E1 & Hs1 & Hs2 & Hs3).
  assert (Esub : sat_sub e b = blk + TCB_SIZE - b) by (rewrite sat_sub_small; unfold TCB_SIZE in *; lia).
  assert (Hx : forall x, x < blk + 8 \/ blk + off_cancel_state <= x -> x < thread_sp top \/ thread_sp top + 24 <= x ->
    m' x = install (write_bytes m b 0 (sat_sub e b)) tp blk x).
  { intros x. by apply Hout. }
  rewrite Esub in *.
  destruct (install_spec m sb top tp blk b (blk + TCB_SIZE - b) Hpl Hok Hc Htm) as (Hself & Hv & Hz & Ho);
    [lia|destruct Hpl; lia|lia|lia|].
  pose proof (pl_tp _ _ _ _ Hpl) as Htp. pose proof (pl_block _ _ _ _ Hpl) as Hblk.
  pose proof (placed_fits _ _ _ _ Hpl Hok) as Hfit.
  assert (Hlow : forall x, b <= x < blk + 8 -> m' x = install (write_bytes m b 0 (blk + TCB_SIZE - b)) tp blk x).
  { intros x Hxx. apply Hx; lia. }
  unfold TCB_SIZE, off_cancel_state in *. split; unfold thread_tp, thread_block; rewrite ?Epl.
  - exact Hpl.
  - eapply tcb_ext; [exact Hpl| |exact Hself]. intros x Hxx. apply Hlow.
    pose proof (pl_x86 _ _ _ _ Hpl) as Hx86. clear -Hxx Htp Hbt Hba Hx86 Hbb Hok. pose proof (so_total Hok).
    unfold tls_lo, tls_hi in *. destruct arch; [|specialize (Hba eq_refl)]; lia.
  - intros j o Hl Hoo. rewrite <- (Hv j o Hl Hoo). apply Hlow.
    rewrite (tls_addr_live tp j o) by done. pose proof (so_block Hok j Hl) as Hbl. cbn in Hbl. lia.
  - rewrite Em, E2, E1. clear Em.
    unfold off_thread_id, off_desc, off_ipc_buffer, off_send_cap_count, off_self_ptr.
    autorewrite with mem. done.
  - intros x Hxx. unfold off_cancel_state, TCB_SIZE in Hxx. rewrite Hx by lia. apply Hz. lia.
  - rewrite Em, E2, E1. clear Em.
    unfold off_thread_id, off_desc, off_ipc_buffer, off_send_cap_count, off_self_ptr.
    autorewrite with mem. done.
  - done.
  - intros x Hxx. rewrite <- (Ho x Hxx). apply Hx; lia.
Qed.
End image.
