(* ===== verification/PthreadCancel.v ===== *)
(** Cancellation of POSIX threads ([src/posix/pthread.rs]): the stack of clean-up
    handlers, linked through the thread's block and the frames that pushed them,
    is a stack of routines, and a cancelled thread runs it from the top and exits. *)

From S2P Require Import Prelude Consts Kernel SlotAlloc Invoke SlotExpand Ipc InvokeOps PosixCall Protocol PosixClient PosixProc Serial ByteMem Runtime Tls TlsTheorems Signals Pthread.

(** ** The futex calls of the substrate's sync.rs, which it counts *)

Record LockStats := mkStats { mutex_slowpath_count : Z; futex_wait_count : Z; futex_wake_count : Z }.

Section stats.
Context `{Kernel}.

Definition bump_waits (s : LockStats) : LockStats :=
  mkStats (mutex_slowpath_count s) (futex_wait_count s + 1)%u64 (futex_wake_count s).
Definition bump_wakes (s : LockStats) : LockStats :=
  mkStats (mutex_slowpath_count s) (futex_wait_count s) (futex_wake_count s + 1)%u64.

Definition sync_futex_wait (s : LockStats) (w : World) (addr expected : Z) : Z * LockStats * World :=
  let '(r, w) := futex_wait w addr expected in (r, bump_waits s, w).
Definition sync_futex_wait_timeout (s : LockStats) (w : World) (addr expected timeout_ns : Z) : Z * LockStats * World :=
  let '(r, w) := futex_wait_timeout w addr expected timeout_ns in (r, bump_waits s, w).
Definition sync_futex_wake (s : LockStats) (w : World) (addr cnt : Z) : Z * LockStats * World :=
  let '(r, w) := futex_wake w addr cnt in (r, bump_wakes s, w).
Definition note_mutex_slowpath (s : LockStats) : LockStats :=
  mkStats (mutex_slowpath_count s + 1)%u64 (futex_wait_count s) (futex_wake_count s).
Definition debug_lock_stats (s : LockStats) : Z * Z * Z :=
  (mutex_slowpath_count s, futex_wait_count s, futex_wake_count s).

(** 1 is [CLOCK_MONOTONIC]. *)
Definition monotonic_now_ns (w : World) : Z * World :=
  let '(r, w) := syscall w SYS_CLOCK_GETTIME 1 0 0 0 0 0 in (value r, w).

Inductive futex_op := FWait (addr expected : Z) | FWaitTimeout (addr expected timeout_ns : Z) | FWake (addr cnt : Z).

Definition futex_do (sw : LockStats * World) (o : futex_op) : LockStats * World :=
  let '(s, w) := sw in
  match o with
  | FWait a e => let '(_, s, w) := sync_futex_wait s w a e in (s, w)
  | FWaitTimeout a e t => let '(_, s, w) := sync_futex_wait_timeout s w a e t in (s, w)
  | FWake a n => let '(_, s, w) := sync_futex_wake s w a n in (s, w)
  end.

Definition is_wake (c : Syscall) : bool := (num c =? SYS_FUTEX) && (a1 c =? FUTEX_WAKE).
Definition is_wait (c : Syscall) : bool :=
  (num c =? SYS_FUTEX) && ((a1 c =? FUTEX_WAIT) || (a1 c =? FUTEX_WAIT_TIMEOUT)).
Definition calls (f : Syscall -> bool) (tr : list Syscall) : Z := Z.of_nat (length (List.filter f tr)).

Lemma calls_snoc f tr c : calls f (tr ++ [c]) = calls f tr + if f c then 1 else 0.
Proof. unfold calls. rewrite List.filter_app, length_app. cbn. destruct (f c); cbn; lia. Qed.

Definition stats_exact (sw : LockStats * World) : Prop :=
  futex_wait_count (fst sw) = as_u64 (calls is_wait (trace (snd sw))) /\
  futex_wake_count (fst sw) = as_u64 (calls is_wake (trace (snd sw))).

(** The counters are the numbers of system calls made, modulo 2^64. *)
Lemma lock_stats_exact os : forall sw, stats_exact sw -> stats_exact (fold_left futex_do os sw).
Proof.
  induction os as [|o os IH]; intros [s w] [Hw Hk]; [by split|]. apply IH. cbn [fst snd] in *.
  destruct o; (split; cbn [futex_do fst snd sync_futex_wait sync_futex_wait_timeout sync_futex_wake futex_wait
    futex_wait_timeout futex_wake syscall trace bump_waits bump_wakes futex_wait_count futex_wake_count];
    rewrite calls_snoc, ?Hw, ?Hk; cbn; rewrite ?Z.add_0_r; unfold as_u64; by autorewrite with wrap).
Qed.
End stats.

(** A pushed handler: its address in a frame, its routine and argument. *)
Record handler := mkHandler { h_addr : Z; h_fn : Z; h_arg : Z }.

Definition HANDLER_SIZE : Z := 24.
Definition top (hs : list handler) : Z := match hs with [] => 0 | h :: _ => h_addr h end.

(** ** The list in memory *)

Fixpoint linked (m : Mem) (hs : list handler) : Prop :=
  match hs with
  | [] => True
  | h :: rest =>
      load64 m (h_addr h + off_routine) = h_fn h /\ load64 m (h_addr h + off_arg) = h_arg h /\
      load64 m (h_addr h + off_next) = top rest /\ linked m rest
  end.

Definition apart (a n b k : Z) : Prop := a + n <= b \/ b + k <= a.

(** A handler in a frame of its own, outside the block and the word the thread
    pointer reads. *)
Record handler_ok (reg tls : Z) (h : handler) : Prop := {
  ho_addr : u64 (h_addr h) /\ h_addr h <> 0;
  ho_fn : u64 (h_fn h);
  ho_arg : u64 (h_arg h);
  ho_block : apart (h_addr h) HANDLER_SIZE tls TCB_SIZE;
  ho_reg : apart (h_addr h) HANDLER_SIZE reg 8;
}.

(** The cells the stack occupies, with those that lead to the block. *)
Definition cells (reg tls : Z) (hs : list handler) (x : Z) : Prop :=
  reg <= x < reg + 8 \/ tls <= x < tls + TCB_SIZE \/
  exists h, h ∈ hs /\ h_addr h <= x < h_addr h + HANDLER_SIZE.

Section cancel.
Context `{Kernel} `{Slices} `{!Image Posix} `{!SigCalls} `{!Threads} (fuel : nat).

Record stack_at (reg tls : Z) (p : PProc) (hs : list handler) : Prop := {
  sa_tls : current_tls p reg = Some tls;
  sa_top : load64 (p_mem p) (tls + off_cleanup_stack) = top hs;
  sa_linked : linked (p_mem p) hs;
  sa_ok : forall h, h ∈ hs -> handler_ok reg tls h;
  sa_reg : apart reg 8 (tls + 8) (TCB_SIZE - 8);
}.

(** A routine that leaves the block and the handlers below it alone. *)
Definition calm (reg tls : Z) (hs : list handler) (fn arg : Z) : Prop := forall p,
  p_active (call_routine fn arg p) = p_active p /\
  forall x, cells reg tls hs x -> p_mem (call_routine fn arg p) x = p_mem p x.

Fixpoint calm_all (reg tls : Z) (hs : list handler) : Prop :=
  match hs with
  | [] => True
  | h :: rest => calm reg tls rest (h_fn h) (h_arg h) /\ calm_all reg tls rest
  end.

(** ** Pushes and pops *)

Inductive cop := CPush (h : handler) | CPop (execute : Z).

Definition exec (reg : Z) (o : cop) : PT unit :=
  match o with
  | CPush h => pthread_cleanup_push_impl reg (h_fn h) (h_arg h) (h_addr h)
  | CPop execute => pthread_cleanup_pop_impl reg execute
  end.

Fixpoint exec_all (reg : Z) (os : list cop) : PT unit :=
  match os with [] => mret () | o :: rest => exec reg o ≫= fun _ => exec_all reg rest end.

Definition stack_op (hs : list handler) (o : cop) : list handler :=
  match o with CPush h => h :: hs | CPop _ => tl hs end.

(** A push uses a frame no handler lives in; a routine that is run is calm. *)
Definition op_ok (reg tls : Z) (hs : list handler) (o : cop) : Prop :=
  match o with
  | CPush h => handler_ok reg tls h /\ forall k, k ∈ hs -> apart (h_addr h) HANDLER_SIZE (h_addr k) HANDLER_SIZE
  | CPop execute => match hs with
                    | h :: rest => execute = 0 \/ calm reg tls rest (h_fn h) (h_arg h)
                    | [] => True
                    end
  end.

Fixpoint ops_ok (reg tls : Z) (hs : list handler) (os : list cop) : Prop :=
  match os with [] => True | o :: rest => op_ok reg tls hs o /\ ops_ok reg tls (stack_op hs o) rest end.

(** What running the handlers does, in their order. *)
Fixpoint unwind (tls : Z) (hs : list handler) (p : PProc) : PProc :=
  match hs with
  | [] => p
  | h :: rest =>
      unwind tls rest (call_routine (h_fn h) (h_arg h)
        (with_mem p (store64 (p_mem p) (tls + off_cleanup_stack) (top rest))))
  end.

Lemma linked_ext m m' hs :
  linked m hs -> (forall x h, h ∈ hs -> h_addr h <= x < h_addr h + HANDLER_SIZE -> m' x = m x) -> linked m' hs.
Proof.
  unfold HANDLER_SIZE. induction hs as [|h hs IH]; [done|]. intros (Lf & La & Ln & Lr) Hx. cbn [linked].
  unfold off_routine, off_arg, off_next in *.
  assert (He : forall o, 0 <= o <= 16 -> load64 m' (h_addr h + o) = load64 m (h_addr h + o)).
  { intros o Ho. apply load64_ext. intros x Hxx. apply (Hx x h); [by left|lia]. }
  rewrite !He by lia. split_and!; [done..|]. apply IH; [done|]. intros x k Hk. apply Hx. by right.
Qed.

Lemma current_tls_ext p q reg :
  p_active q = p_active p -> (forall x, reg <= x < reg + 8 -> p_mem q x = p_mem p x) -> current_tls q reg = current_tls p reg.
Proof.
  intros Ha Hm. unfold current_tls, read_tp, runtime_tcb_from_tp. rewrite Ha.
  pose proof (load64_ext (p_mem p) (p_mem q) reg Hm) as He. by destruct arch; rewrite He.
Qed.

Lemma top_u64 reg tls hs : (forall h, h ∈ hs -> handler_ok reg tls h) -> u64 (top hs).
Proof. intros Hs. destruct hs as [|h hs]; [cbn; unfold_widths; lia|]. apply (Hs h). by left. Qed.

(** Another state with the same cells. *)
Lemma stack_at_ext reg tls p q hs :
  stack_at reg tls p hs -> p_active q = p_active p ->
  (forall x, cells reg tls hs x -> p_mem q x = p_mem p x) -> stack_at reg tls q hs.
Proof.
  intros [Ht Hh Hl Ho Hr] Ha Hm. split; [| | |done|done].
  - rewrite <- Ht. apply current_tls_ext; [done|]. intros x Hx. apply Hm. by left.
  - rewrite <- Hh. apply load64_ext. intros x Hx. apply Hm. right. left.
    unfold off_cleanup_stack, TCB_SIZE in *. lia.
  - eapply linked_ext; [done|]. intros x h Hh' Hx. apply Hm. right. right. by exists h.
Qed.

(** The top handler leaves the stack. *)
Lemma stack_at_pop reg tls p h hs :
  stack_at reg tls p (h :: hs) ->
  stack_at reg tls (with_mem p (store64 (p_mem p) (tls + off_cleanup_stack) (top hs))) hs.
Proof.
  intros [Ht Hh Hl Ho Hr]. assert (Ho' : forall k, k ∈ hs -> handler_ok reg tls k) by (intros; apply Ho; by right).
  unfold off_cleanup_stack, TCB_SIZE, apart in *.
  split; cbn [p_mem with_mem]; [| | |done|unfold TCB_SIZE, apart; lia].
  - rewrite <- Ht. apply current_tls_ext; [done|]. intros x Hx. cbn [p_mem with_mem]. apply store64_out. lia.
  - unfold off_cleanup_stack. apply load_store64. by eapply top_u64.
  - eapply linked_ext; [by apply Hl|]. intros x k Hk Hx. apply store64_out.
    destruct (ho_block _ _ _ (Ho' k Hk)); unfold TCB_SIZE, HANDLER_SIZE in *; lia.
Qed.

Lemma run_top_spec reg tls p h hs execute :
  stack_at reg tls p (h :: hs) -> (execute = true -> calm reg tls hs (h_fn h) (h_arg h)) ->
  let p1 := with_mem p (store64 (p_mem p) (tls + off_cleanup_stack) (top hs)) in
  let q := if execute then call_routine (h_fn h) (h_arg h) p1 else p1 in
  run_top tls (h_addr h) execute p = (Val (), q) /\ stack_at reg tls q hs.
Proof.
  intros Hs Hc p1 q. pose proof (stack_at_pop _ _ _ _ _ Hs) as Hs1. fold p1 in Hs1.
  destruct (sa_linked _ _ _ _ Hs) as (Lf & La & Ln & _).
  pose proof (ho_block _ _ _ (sa_ok _ _ _ _ Hs h ltac:(by left))) as Hb.
  unfold apart, HANDLER_SIZE, TCB_SIZE, off_routine, off_arg, off_next, off_cleanup_stack in *. split.
  - unfold run_top, mod_mem, modify, gets, mbind, PT_bind. cbv beta iota. unfold off_next, off_cleanup_stack. rewrite Ln. fold p1.
    destruct execute; [|done]. unfold q. cbn [p_mem with_mem p1]. unfold off_routine, off_arg.
    rewrite !load64_store64_ne, Lf, La by lia. done.
  - subst q. destruct execute; [|done]. destruct (Hc eq_refl p1) as [Ha Hm]. by eapply stack_at_ext.
Qed.

Lemma exec_spec reg tls p hs o :
  stack_at reg tls p hs -> op_ok reg tls hs o ->
  exists q, exec reg o p = (Val (), q) /\ stack_at reg tls q (stack_op hs o).
Proof.
  intros Hs Hok. pose proof Hs as [Ht Hh Hl Ho Hr].
  destruct o as [h|execute]; cbn [exec stack_op op_ok] in *.
  - destruct Hok as [[Ha Hf Hg Hb Hrg] Hfresh].
    unfold pthread_cleanup_push_impl, mod_mem, modify, gets, mbind, PT_bind. rewrite Ht. cbv beta iota zeta.
    eexists. split; [reflexivity|].
    unfold apart, HANDLER_SIZE, TCB_SIZE, off_routine, off_arg, off_next, off_cleanup_stack in *.
    rewrite !load64_store64_ne, Hh by lia. split; cbn [p_mem with_mem top linked].
    + rewrite <- Ht. apply current_tls_ext; [done|]. intros x Hx. cbn [p_mem with_mem]. rewrite !store64_out by lia. done.
    + unfold off_cleanup_stack. by apply load_store64, Ha.
    + unfold off_routine, off_arg, off_next. split_and!.
      * rewrite !load64_store64_ne by lia. by apply load_store64.
      * rewrite !load64_store64_ne by lia. by apply load_store64.
      * rewrite load64_store64_ne by lia. apply load_store64. by eapply top_u64.
      * eapply linked_ext; [done|]. intros x k Hk Hx. pose proof (ho_block _ _ _ (Ho k Hk)) as Hkb.
        specialize (Hfresh k Hk). unfold apart, HANDLER_SIZE, TCB_SIZE in *. rewrite !store64_out by lia. done.
    + intros k [->|Hk]%elem_of_cons; [|by apply Ho]. by split.
    + unfold apart, TCB_SIZE. lia.
  - unfold pthread_cleanup_pop_impl, gets, mbind, PT_bind. rewrite Ht. cbv beta iota. rewrite Hh.
    destruct hs as [|h hs]; cbn [top tl]; [by exists p|].
    destruct (Z.eqb_spec (h_addr h) 0) as [E|_]; [by destruct (ho_addr _ _ _ (Ho h ltac:(by left)))|].
    destruct (run_top_spec reg tls p h hs (negb (execute =? 0)) Hs) as [E Hq]; [|by eexists].
    destruct (Z.eqb_spec execute 0); [done|]. intros _. by destruct Hok.
Qed.

Lemma exec_all_spec reg tls os : forall p hs,
  stack_at reg tls p hs -> ops_ok reg tls hs os ->
  exists q, exec_all reg os p = (Val (), q) /\ stack_at reg tls q (fold_left stack_op os hs).
Proof.
  induction os as [|o os IH]; intros p hs Hs Hok; [by exists p|]. destruct Hok as [Ho Hok].
  destruct (exec_spec reg tls p hs o Hs Ho) as (p1 & E & Hs1). cbn [exec_all fold_left].
  destruct (IH p1 _ Hs1 Hok) as (q & Eq & Hq). exists q. split; [|done]. unfold mbind, PT_bind. by rewrite E.
Qed.

(** ** Unwinding *)

Lemma run_cleanup_handlers_spec reg tls hs : forall turns p,
  stack_at reg tls p hs -> calm_all reg tls hs -> (length hs < turns)%nat ->
  run_cleanup_handlers turns tls p = (Val (), unwind tls hs p) /\ stack_at reg tls (unwind tls hs p) [].
Proof.
  induction hs as [|h hs IH]; intros [|turns] p Hs Hc Hn; try (cbn in Hn; lia);
    cbn [run_cleanup_handlers]; unfold gets, mbind, PT_bind; rewrite (sa_top _ _ _ _ Hs); cbn [top]; [done|].
  destruct (Z.eqb_spec (h_addr h) 0) as [E|_]; [by destruct (ho_addr _ _ _ (sa_ok _ _ _ _ Hs h ltac:(by left)))|].
  destruct Hc as [Hch Hc]. destruct (run_top_spec reg tls p h hs true Hs (fun _ => Hch)) as [-> Hq].
  apply IH; [done|done|cbn in Hn; lia].
Qed.

Lemma pthread_exit_gone {A} reg v p : forall a : A, fst (pthread_exit fuel reg v p) <> Val a.
Proof.
  intros a. unfold pthread_exit, gone, mbind, PT_bind, gets, mod_world, modify. cbv beta iota.
  match goal with |- context [match ?m p with _ => _ end] => destruct (m p) as [[] q] end; done.
Qed.

Lemma testcancel_idle turns reg tls p :
  current_tls p reg = Some tls ->
  load32 (p_mem p) (tls + off_cancel_pending) = 0 \/ load32 (p_mem p) (tls + off_cancel_state) <> 0 ->
  pthread_testcancel fuel turns reg p = (Val (), p).
Proof.
  intros Ht Hno. unfold pthread_testcancel, gets, mbind, PT_bind. rewrite Ht. cbv beta iota.
  destruct Hno as [->|Hno]; [done|]. apply Z.eqb_neq in Hno. by rewrite Hno, andb_false_r.
Qed.

Lemma testcancel_pending turns reg tls p hs :
  stack_at reg tls p hs -> calm_all reg tls hs -> (length hs < turns)%nat ->
  load32 (p_mem p) (tls + off_cancel_pending) = 1 -> load32 (p_mem p) (tls + off_cancel_state) = 0 ->
  pthread_testcancel fuel turns reg p = pthread_exit fuel reg PTHREAD_CANCELED (unwind tls hs p).
Proof.
  intros Hs Hc Hn Hp Hst. unfold pthread_testcancel, gets, mbind, PT_bind. rewrite (sa_tls _ _ _ _ Hs). cbv beta iota.
  rewrite Hp, Hst. cbn [negb Z.eqb andb]. by destruct (run_cleanup_handlers_spec reg tls hs turns p Hs Hc Hn) as [-> _].
Qed.

(** [pthread_cancel] by another thread: the flag, and at most a wake-up. *)
Lemma cancel_marks reg tls p hs h i :
  stack_at reg tls p hs -> validate_handle p h = Some i -> td_state (thread_desc p i) = TD_RUNNING ->
  td_tls_ptr (thread_desc p i) = tls ->
  exists q, pthread_cancel h p = (Val 0, q) /\ stack_at reg tls q hs /\
    load32 (p_mem q) (tls + off_cancel_pending) = 1 /\
    load32 (p_mem q) (tls + off_cancel_state) = load32 (p_mem p) (tls + off_cancel_state) /\
    cancel_hook (p_ext q) = cancel_hook (p_ext p).
Proof.
  intros Hs Hv Hrun Htls. pose proof Hs as [Ht Hh Hl Ho Hr].
  assert (Hnz : tls <> 0).
  { intros E. revert Ht. unfold current_tls. destruct (negb _); [done|]. destruct (_ =? 0); [done|].
    destruct (_ =? 0) eqn:Ez; [done|]. intros [= Et]. by rewrite Et, E in Ez. }
  unfold pthread_cancel, body, mod_mem, mod_world, modify, gets, returns, mbind, PT_bind, mret, PT_ret.
  rewrite Hv. cbv beta iota. rewrite Hrun, Htls, Z.eqb_refl. cbn [negb]. apply Z.eqb_neq in Hnz. rewrite Hnz.
  set (p1 := with_mem p (store32 (p_mem p) (tls + off_cancel_pending) 1)).
  assert (Hs1 : stack_at reg tls p1 hs).
  { unfold apart, off_cleanup_stack, off_cancel_pending, TCB_SIZE in *. split; cbn [p_mem with_mem p1]; [| | |done|unfold apart, TCB_SIZE; lia].
    - rewrite <- Ht. apply current_tls_ext; [done|]. intros x Hx. cbn [p_mem with_mem]. apply store32_out. lia.
    - rewrite <- Hh. unfold off_cleanup_stack. apply load64_store32_ne. lia.
    - eapply linked_ext; [done|]. intros x k Hk Hx. apply store32_out.
      destruct (ho_block _ _ _ (Ho k Hk)); unfold TCB_SIZE, HANDLER_SIZE in *; lia. }
  assert (Hp : load32 (p_mem p1) (tls + off_cancel_pending) = 1) by (apply load_store32; unfold_widths; lia).
  assert (Hst : load32 (p_mem p1) (tls + off_cancel_state) = load32 (p_mem p) (tls + off_cancel_state)).
  { apply load32_store32_ne. unfold off_cancel_state, off_cancel_pending. lia. }
  destruct (negb _); (eexists; split; [reflexivity|]); [|done].
  split; [|done]. by eapply stack_at_ext.
Qed.

Lemma check_cancellation_eq turns reg p :
  cancel_hook (p_ext p) <> 0 -> check_cancellation fuel turns reg p = pthread_testcancel fuel turns reg p.
Proof.
  intros Hk. unfold check_cancellation, pthread_testcancel, gets, mbind, PT_bind. cbv beta iota.
  destruct (current_tls p reg) as [tls|] eqn:Ht; [|done]. apply Z.eqb_neq in Hk. rewrite Hk. cbn [negb].
  rewrite andb_true_r. by destruct (negb _ && _) eqn:E; rewrite ?Ht, ?E.
Qed.

(** ** Cancelling a thread that sleeps *)

(** The address a thread publishes while it sleeps in a condition variable. *)
Definition set_blocked_futex (reg addr : Z) (p : PProc) : PProc :=
  match current_tls p reg with
  | Some tls => with_mem p (store64 (p_mem p) (tls + off_blocked_futex_addr) addr)
  | None => p
  end.
Definition clear_blocked_futex (reg : Z) (p : PProc) : PProc :=
  match current_tls p reg with
  | Some tls => with_mem p (store64 (p_mem p) (tls + off_blocked_futex_addr) 0)
  | None => p
  end.

(** [TypedMutex::current_thread_id] *)
Definition current_thread_id (reg : Z) (p : PProc) : Z :=
  match current_tls p reg with Some tls => load64 (p_mem p) (tls + off_thread_id) | None => 0 end.

Definition install_cancel_hook (hook : Z) (p : PProc) : PProc := with_x p (fun x => set_cancel_hook x hook).

(** A thread in [Condvar::wait], from the release of the mutex on, nobody
    notifying, and another that executes [pthread_cancel] on it, access by access. *)
Inductive wait_pc := W_publish | W_sleep | W_asleep | W_clear | W_awake.
Inductive kill_pc := K_flag | K_load | K_wake (addr : Z) | K_done.
Record race := mkRace { r_proc : PProc; r_wait : wait_pc; r_kill : kill_pc }.

Definition wait_step (reg futex : Z) (r : race) : option race :=
  match r_wait r with
  | W_publish => Some (mkRace (set_blocked_futex reg futex (r_proc r)) W_sleep (r_kill r))
  | W_sleep => Some (mkRace (r_proc r) W_asleep (r_kill r))
  | W_asleep => None
  | W_clear => Some (mkRace (clear_blocked_futex reg (r_proc r)) W_awake (r_kill r))
  | W_awake => None
  end.

Definition kill_step (tls futex : Z) (r : race) : option race :=
  let p := r_proc r in
  match r_kill r with
  | K_flag => Some (mkRace (with_mem p (store32 (p_mem p) (tls + off_cancel_pending) 1)) (r_wait r) K_load)
  | K_load =>
      let addr := load64 (p_mem p) (tls + off_blocked_futex_addr) in
      Some (mkRace p (r_wait r) (if addr =? 0 then K_done else K_wake addr))
  | K_wake addr =>
      Some (mkRace p (match r_wait r with W_asleep => if addr =? futex then W_clear else W_asleep | w => w end) K_done)
  | K_done => None
  end.

(** A schedule: [true] is a step of the waiter. *)
Fixpoint race_run (reg tls futex : Z) (sch : list bool) (r : race) : option race :=
  match sch with
  | [] => Some r
  | b :: rest => r' ← (if b then wait_step reg futex r else kill_step tls futex r); race_run reg tls futex rest r'
  end.

(** A thread that sleeps when [pthread_cancel] starts is woken, with the
    cancellation pending. *)
Lemma cancel_wakes_sleeper reg tls futex p :
  current_tls p reg = Some tls -> u64 futex -> futex <> 0 ->
  exists r, race_run reg tls futex [false; false; false] (mkRace (set_blocked_futex reg futex p) W_asleep K_flag) = Some r /\
    r_wait r = W_clear /\ load32 (p_mem (r_proc r)) (tls + off_cancel_pending) = 1.
Proof.
  intros Ht Hu Hn. unfold set_blocked_futex. rewrite Ht. cbn [race_run kill_step r_proc r_wait r_kill mbind option_bind].
  cbn [p_mem with_mem]. unfold off_cancel_pending, off_blocked_futex_addr in *.
  rewrite load64_store32_ne, load_store64 by (done || lia).
  apply Z.eqb_neq in Hn. rewrite Hn. cbn [kill_step r_kill r_wait r_proc mbind option_bind].
  rewrite Z.eqb_refl. eexists. split; [reflexivity|]. split; [done|]. cbn [r_proc p_mem with_mem].
  apply load_store32. unfold_widths. lia.
Qed.

(** Before that the cancellation may be missed: [pthread_cancel] looks for the
    address before it is published, or wakes before the thread sleeps, and the
    thread sleeps on with the cancellation pending. *)
Lemma cancel_missed reg tls futex p sch :
  current_tls p reg = Some tls -> u64 futex -> futex <> 0 ->
  load64 (p_mem p) (tls + off_blocked_futex_addr) = 0 -> apart reg 8 (tls + 8) (TCB_SIZE - 8) ->
  sch ∈ [[false; false; true; true]; [true; false; false; false; true]] ->
  exists r, race_run reg tls futex sch (mkRace p W_publish K_flag) = Some r /\
    load32 (p_mem (r_proc r)) (tls + off_cancel_pending) = 1 /\
    wait_step reg futex r = None /\ kill_step tls futex r = None /\ r_wait r = W_asleep.
Proof.
  intros Ht Hu Hn Hz Hr Hsch. unfold apart, TCB_SIZE in Hr.
  set (m1 := store32 (p_mem p) (tls + off_cancel_pending) 1).
  assert (Ht1 : current_tls (with_mem p m1) reg = Some tls).
  { rewrite <- Ht. apply current_tls_ext; [done|]. intros x Hx. apply store32_out. unfold off_cancel_pending. lia. }
  apply Z.eqb_neq in Hn. unfold off_cancel_pending, off_blocked_futex_addr in *.
  apply elem_of_cons in Hsch as [Hs|Hs]; [|apply list_elem_of_singleton in Hs]; subst sch;
    cbn [race_run wait_step kill_step r_proc r_wait r_kill mbind option_bind];
    unfold set_blocked_futex, off_cancel_pending, off_blocked_futex_addr.
  - cbn [p_mem with_mem]. rewrite load64_store32_ne, Hz by lia. cbn [Z.eqb]. fold m1. rewrite Ht1.
    eexists. split; [reflexivity|]. split; [|done]. cbn [r_proc p_mem with_mem].
    rewrite load32_store64_ne by lia. apply load_store32. unfold_widths. lia.
  - rewrite Ht. cbn [p_mem with_mem r_proc r_wait r_kill]. rewrite load64_store32_ne, load_store64, Hn by (done || lia).
    eexists. split; [reflexivity|]. split; [|done]. cbn [r_proc p_mem with_mem].
    apply load_store32. unfold_widths. lia.
Qed.
End cancel.

(** C17: the clean-up handlers of a thread are a stack and cancellation unwinds
    it.  Whatever pushes and pops the thread makes, the list linked through the
    handlers' frames is the stack of the handlers pushed and not yet popped; while
    no cancellation is pending, or cancellation is disabled, [pthread_testcancel]
    changes nothing; and once another thread has called [pthread_cancel], the next
    cancellation point - [pthread_testcancel] or the substrate's
    [check_cancellation] - runs each remaining handler once, the last pushed
    first, each after it has left the stack, ends with the stack empty and exits
    with [PTHREAD_CANCELED] without returning. *)
Theorem cancellation_unwinds `{Kernel} `{Slices} `{!Image Posix} `{!SigCalls} `{!Threads}
    (fuel turns : nat) (reg tls : Z) (os : list cop) (p : PProc)
    (Hs : stack_at reg tls p []) (Hok : ops_ok reg tls [] os) :
  let hs := fold_left stack_op os [] in
  exists q, exec_all reg os p = (Val (), q) /\ stack_at reg tls q hs /\
    (load32 (p_mem q) (tls + off_cancel_pending) = 0 \/ load32 (p_mem q) (tls + off_cancel_state) <> 0 ->
     pthread_testcancel fuel turns reg q = (Val (), q)) /\
    forall h i, validate_handle q h = Some i -> td_state (thread_desc q i) = TD_RUNNING ->
      td_tls_ptr (thread_desc q i) = tls -> load32 (p_mem q) (tls + off_cancel_state) = 0 ->
      cancel_hook (p_ext q) <> 0 -> calm_all reg tls hs -> (length hs < turns)%nat ->
      exists r, pthread_cancel h q = (Val 0, r) /\
        pthread_testcancel fuel turns reg r = pthread_exit fuel reg PTHREAD_CANCELED (unwind tls hs r) /\
        check_cancellation fuel turns reg r = pthread_testcancel fuel turns reg r /\
        stack_at reg tls (unwind tls hs r) [] /\
        forall u, fst (pthread_testcancel fuel turns reg r) <> Val u.
Proof.
  intros hs. destruct (exec_all_spec reg tls os p [] Hs Hok) as (q & E & Hq). fold hs in Hq.
  exists q. split; [done|]. split; [done|]. split; [apply testcancel_idle, Hq|].
  intros h i Hv Hrun Htls Hst Hk Hc Hn.
  destruct (cancel_marks reg tls q hs h i Hq Hv Hrun Htls) as (r & Er & Hr & Hp & Hst' & Hk').
  rewrite Hst in Hst'. pose proof (testcancel_pending fuel turns reg tls r hs Hr Hc Hn Hp Hst') as Ht.
  exists r. split; [done|]. split; [done|]. split; [apply check_cancellation_eq; by rewrite Hk'|].
  split; [by apply (run_cleanup_handlers_spec reg tls hs turns r)|]. intros u. rewrite Ht. apply pthread_exit_gone.
Qed.

(** ** A thread that is cancelled *)

#[local] Instance pc_image : Image Posix := {|
  arch := X86_64; tls_info := mkTlsInfo 0 0 0 1 0 []; pool_addr := 0x5000; desc_size := 168; main_block := 0x9000;
  pm_ep := 3; run_fn _ _ p := p |}.
#[local] Instance pc_kernel : Kernel := DeliveringKernel TronaMsg_zeroed 0.
#[local] Instance pc_slices : Slices := {| slice_addr _ := 0x700000 |}.
#[local] Instance pc_sigcalls : SigCalls := {| call_sig _ _ p := p; dispatcher_addr := 0x4000; sig_ntfn := 9 |}.

(** Routines write their argument down, in base 10. *)
#[local] Instance pc_threads : Threads := {|
  ext_pool_addr := 0xA000; cleanup_fn := 0x401000; fork_child_fn := 0x401100; cancel_fn := 0x401200;
  entry_trampoline := 0x402000; mm_ep := 4; vfs_cap := 5;
  call_start _ a p := (a, p); call_routine _ a p := with_next_tid p (10 * p_next_tid p + a) |}.

(** Thread 1, with its block at 0x20000, which the thread pointer reads. *)
Definition pc_process : PProc :=
  Tls.mkProc _ (mkWorld [] (Some (mkCtx (Some empty_buffer) 0))) (slot_alloc_init 64 64 0)
    (store64 (fun _ => 0) 0x20000 0x20000)
    (ThreadDesc_zeroed ::
     set_tls_ptr (set_owner (set_state ThreadDesc_zeroed TD_RUNNING) Personality) 0x20000 ::
     replicate 62 ThreadDesc_zeroed) 0 true 0 0
    (mkPosix (replicate MAX_THREADS PosixThreadExt_zeroed) 1 IPC_BUF_REGION_BASE (replicate NSIG 0) 0 0
       (replicate NSIG 0) (replicate NSIG 0) false 0 0 0 0 0x401200).

Definition pc_ops : list cop :=
  [CPush (mkHandler 0x30000 0x403000 1); CPush (mkHandler 0x30100 0x403000 2); CPop 1;
   CPush (mkHandler 0x30100 0x403000 3)].

Lemma pc_calm reg tls hs fn arg : calm reg tls hs fn arg.
Proof. done. Qed.

Lemma pc_ops_ok : ops_ok 0x20000 0x20000 [] pc_ops.
Proof.
  assert (Hk : forall a n, 0x30000 <= a <= 0x30100 -> 0 <= n <= 3 -> handler_ok 0x20000 0x20000 (mkHandler a 0x403000 n)).
  { intros a n Ha Hn. split; cbn [h_addr h_fn h_arg]; unfold apart, HANDLER_SIZE, TCB_SIZE; unfold_widths; lia. }
  cbn [ops_ok op_ok pc_ops stack_op tl]. split_and!; try done; try (apply Hk; lia); [set_solver| |by right|];
    intros k ->%list_elem_of_singleton; unfold apart, HANDLER_SIZE; cbn; lia.
Qed.

Lemma cancellation_unwinds_witness :
  exists q r, exec_all 0x20000 pc_ops pc_process = (Val (), q) /\ p_next_tid q = 2 /\
    pthread_cancel 1 q = (Val 0, r) /\
    pthread_testcancel 5 3 0x20000 r
    = pthread_exit 5 0x20000 PTHREAD_CANCELED
        (unwind 0x20000 [mkHandler 0x30100 0x403000 3; mkHandler 0x30000 0x403000 1] r) /\
    p_next_tid (unwind 0x20000 [mkHandler 0x30100 0x403000 3; mkHandler 0x30000 0x403000 1] r) = 231.
Proof.
  destruct (cancellation_unwinds 5 3 0x20000 0x20000 pc_ops pc_process)
    as (q & Eq & _ & _ & Hc).
  - split; [reflexivity|reflexivity|done|set_solver|unfold apart, TCB_SIZE; lia].
  - apply pc_ops_ok.
  - assert (Hq : q = snd (exec_all 0x20000 pc_ops pc_process)) by (by rewrite Eq).
    destruct (Hc 1 1%nat) as (r & Er & Ht & _);
      [rewrite Hq; vm_compute; reflexivity..| | | |].
    + rewrite Hq. vm_compute. discriminate.
    + unfold pc_ops. cbn [fold_left stack_op tl calm_all]. split_and!; [apply pc_calm..|done].
    + unfold pc_ops. cbn [fold_left stack_op tl length]. lia.
    + exists q, r. split; [done|]. split; [by rewrite Hq|]. split; [done|]. split; [exact Ht|].
      assert (Hr : r = snd (pthread_cancel 1 q)) by (by rewrite Er).
      rewrite Hr, Hq. vm_compute. reflexivity.
Defined.
