(* ===== verification/PthreadFork.v ===== *)
(** The child of a fork ([_trona_post_fork_child] of [src/substrate/tls.rs] with
    the hook [posix_personality_fork_child] of [src/posix/pthread.rs]): which
    threads, handles and mappings it starts with. *)

From S2P Require Import Prelude Consts Kernel SlotAlloc SlotExpand Invoke Ipc InvokeOps PosixCall Protocol PosixClient PosixProc Serial ByteMem Runtime Tls Signals Pthread PthreadHandles.

(** ** What is unmapped *)

Fixpoint page_list (n : nat) (b : Z) : list Z :=
  match n with O => [] | S n' => b :: page_list n' (b + 4096)%u64 end.

Definition region_pages (b size : Z) : list Z :=
  if negb (b =? 0) && negb (size =? 0) then page_list (Z.to_nat (size / 4096)) b else [].

(** The pages of a thread: its stack, its IPC buffer, its TLS region. *)
Definition thread_pages (d : ThreadDesc) : list Z :=
  region_pages (td_stack_base d) (td_stack_size d) ++
  (if negb (td_ipc_buf_vaddr d =? 0) then [td_ipc_buf_vaddr d] else []) ++
  region_pages (td_tls_region d) (td_tls_region_size d).

Definition unmap_call (a : Z) : Syscall := invoke_call CAP_SELF_VSPACE VSPACE_UNMAP a 0 0 0.

Lemma next_generation g : as_u32 (g + 1) mod 2 ^ 16 <> g mod 2 ^ 16.
Proof. unfold as_u32, wrap. intros E. Z.to_euclidean_division_equations. lia. Qed.

Section fork.
Context `{Kernel} `{Slices} `{!Image Posix} `{!SigCalls} `{!Threads} (fuel : nat).
Implicit Types p : PProc.

Definition used p (i : nat) : bool := negb (td_state (thread_desc p i) =? TD_UNUSED).
Definition gone_pages p (ids : list nat) : list Z :=
  concat (map (fun i => if used p i then thread_pages (thread_desc p i) else []) ids).

Lemma unmap_pages_trace n : forall w b,
  trace (unmap_pages n w b) = trace w ++ map unmap_call (page_list n b).
Proof.
  induction n as [|n IH]; intros w b; cbn [unmap_pages page_list map]; [by rewrite app_nil_r|].
  rewrite IH. unfold vspace_unmap. rewrite invoke_err_trace. by rewrite <- (assoc_L (++)).
Qed.

Lemma unmap_thread_trace w d : trace (unmap_thread w d) = trace w ++ map unmap_call (thread_pages d).
Proof.
  assert (Hr : forall w b s, trace (unmap_region w b s) = trace w ++ map unmap_call (region_pages b s)).
  { intros w' b s. unfold unmap_region, region_pages. case_match; [apply unmap_pages_trace|by rewrite app_nil_r]. }
  unfold unmap_thread, thread_pages. rewrite Hr, !map_app, !(assoc_L (++)). f_equal. rewrite <- Hr.
  unfold unmap_ipc. case_match; [|by rewrite app_nil_r]. apply invoke_err_trace.
Qed.

(** ** One slot, and all of them *)

Record slot_gone p q (i : nat) : Prop := {
  sg_trace : trace (p_world q) = trace (p_world p) ++ map unmap_call (gone_pages p [i]);
  sg_desc j : thread_desc q j =
    if decide (j = i /\ used p i = true) then invalidate_desc (thread_desc p i) else thread_desc p j;
  sg_len : length (p_pool q) = length (p_pool p);
  sg_rest : p_alloc q = p_alloc p /\ p_mem q = p_mem p /\ p_ext q = p_ext p /\ p_sc_cap q = p_sc_cap p;
}.

Lemma fork_slot_spec p i : (i < length (p_pool p))%nat -> slot_gone p (fork_slot p i) i.
Proof.
  intros Hi. unfold fork_slot. destruct (td_state (thread_desc p i) =? TD_UNUSED) eqn:E.
  - assert (Hu : used p i = false) by (unfold used; by rewrite E). split; [| |done|done].
    + unfold gone_pages. cbn. by rewrite Hu, app_nil_r.
    + intros j. rewrite decide_False by (rewrite Hu; by intros [_ ?]). done.
  - assert (Hu : used p i = true) by (unfold used; by rewrite E). split.
    + unfold gone_pages. cbn [map concat]. rewrite Hu, app_nil_r. apply unmap_thread_trace.
    + intros j. rewrite (desc_after_set (with_world p _)). cbn [p_pool with_world].
      destruct (decide (j = i /\ _)) as [[-> _]|Hn]; [by rewrite decide_True by done|].
      rewrite decide_False; [done|]. intros [-> _]. by apply Hn.
    + apply length_insert.
    + done.
Qed.

Record slots_gone p q (ids : list nat) : Prop := {
  gs_trace : trace (p_world q) = trace (p_world p) ++ map unmap_call (gone_pages p ids);
  gs_desc j : thread_desc q j =
    if decide (j ∈ ids /\ used p j = true) then invalidate_desc (thread_desc p j) else thread_desc p j;
  gs_len : length (p_pool q) = length (p_pool p);
  gs_rest : p_alloc q = p_alloc p /\ p_mem q = p_mem p /\ p_ext q = p_ext p /\ p_sc_cap q = p_sc_cap p;
}.

Lemma fork_slots_spec ids : forall p,
  NoDup ids -> (forall i, i ∈ ids -> (i < length (p_pool p))%nat) -> slots_gone p (fold_left fork_slot ids p) ids.
Proof.
  induction ids as [|i ids IH]; intros p Hnd Hlt; cbn [fold_left].
  - split; [|intros j; rewrite decide_False by (intros [? _]; set_solver); done|done|done]. by rewrite app_nil_r.
  - apply NoDup_cons in Hnd as [Hni Hnd]. destruct (fork_slot_spec p i ltac:(apply Hlt; by left)) as [Ht Hd Hl Hr].
    assert (Hlt' : forall j, j ∈ ids -> (j < length (p_pool (fork_slot p i)))%nat) by (intros j Hj; rewrite Hl; apply Hlt; by right).
    destruct (IH (fork_slot p i) Hnd Hlt') as [Ht2 Hd2 Hl2 Hr2].
    assert (Hsame : forall j, j ∈ ids -> thread_desc (fork_slot p i) j = thread_desc p j).
    { intros j Hj. rewrite Hd. rewrite decide_False; [done|]. by intros [-> _]. }
    split.
    + rewrite Ht2, Ht. unfold gone_pages. cbn [map concat]. rewrite app_nil_r, map_app, <- (assoc_L (++)).
      assert (E : map (fun j => if used (fork_slot p i) j then thread_pages (thread_desc (fork_slot p i) j) else []) ids
                  = map (fun i => if used p i then thread_pages (thread_desc p i) else []) ids).
      { apply map_ext_in. intros j Hj. unfold used. by rewrite Hsame by (by apply list_elem_of_In). }
      by rewrite E.
    + intros j. rewrite Hd2. destruct (decide (j ∈ ids)) as [Hj|Hj].
      * assert (used (fork_slot p i) j = used p j) as -> by (unfold used; by rewrite Hsame).
        rewrite Hsame by done. repeat case_decide; rewrite ?elem_of_cons in *; try done; exfalso; tauto.
      * rewrite (decide_False (P := j ∈ ids /\ _)) by (by intros [? _]). rewrite Hd.
        destruct (decide (j = i /\ used p i = true)) as [[-> Hu]|Hn].
        -- by rewrite decide_True by (split; [left|done]).
        -- rewrite decide_False; [done|]. intros [[->|?]%elem_of_cons Hu]; [|done]. by apply Hn.
    + congruence.
    + destruct Hr as (<- & <- & <- & <-). done.
Qed.

(** ** The hook of the personality *)

Record hook_done p q : Prop := {
  hd_desc j : thread_desc q j =
    if decide (j = 0%nat) then set_personality_data (thread_desc p 0) (ext_addr 0) else thread_desc p j;
  hd_ext j : (j < MAX_THREADS)%nat -> ext q j = PosixThreadExt_zeroed;
  hd_counters : next_free_hint (p_ext q) = 1%nat /\ ipc_buf_next (p_ext q) = IPC_BUF_REGION_BASE;
  hd_rest : p_alloc q = p_alloc p /\ p_mem q = p_mem p /\ p_sc_cap q = p_sc_cap p;
  hd_trace : exists post, trace (p_world q) = trace (p_world p) ++ post;
}.

Definition clear_ext p (j : nat) : PProc := snd (mod_ext j (fun _ => PosixThreadExt_zeroed) p).

Lemma clear_exts ids : forall p,
  let q := fold_left clear_ext ids p in
  q = with_x p (fun x => set_ext_pool x (ext_pool (p_ext q))) /\
  length (ext_pool (p_ext q)) = length (ext_pool (p_ext p)) /\
  forall j, ext q j = if decide (j ∈ ids) then PosixThreadExt_zeroed else ext p j.
Proof.
  induction ids as [|i ids IH]; intros p; cbn zeta; cbn [fold_left].
  { split; [by destruct p as [? ? ? ? ? ? ? ? []]|]. split; [done|]. intros j. by rewrite decide_False by apply not_elem_of_nil. }
  destruct (IH (clear_ext p i)) as (E & El & Ee). split; [by rewrite E at 1|]. split; [rewrite El; apply length_insert|].
  intros j. rewrite Ee. destruct (decide (j ∈ ids)) as [Hj|Hj]; [by rewrite decide_True by (by right)|].
  unfold ext, clear_ext, mod_ext, modify, with_x. cbn [snd p_ext with_ext ext_pool set_ext_pool].
  destruct (decide (j = i)) as [->|Hne].
  - rewrite decide_True by (by left). destruct (decide (i < length (ext_pool (p_ext p)))%nat) as [Hi|Hi].
    + by rewrite list_lookup_insert_eq.
    + rewrite list_insert_ge by lia. by rewrite lookup_ge_None_2 by lia.
  - rewrite list_lookup_insert_ne by done. rewrite decide_False; [done|]. by intros [?|?]%elem_of_cons.
Qed.

Lemma fork_hook_spec p : (0 < length (p_pool p))%nat -> hook_done p (snd (posix_personality_fork_child 0 p)).
Proof.
  intros Hl. unfold posix_personality_fork_child, mbind, PT_bind.
  set (p1 := clear_ext p 0). set (p2 := set_desc p1 0 (set_personality_data (thread_desc p1 0) (ext_addr 0))).
  set (p3 := fold_left clear_ext (seq 1 (MAX_THREADS - 1)) p2).
  set (p4 := with_x p3 (fun x => set_ipc_next (set_hint x 1) IPC_BUF_REGION_BASE)).
  change (hook_done p (snd (sig_reinit_after_fork p4))).
  destruct (clear_exts (seq 1 (MAX_THREADS - 1)) p2) as (E3 & _ & Ee3). fold p3 in E3, Ee3.
  assert (H4 : hook_done p p4).
  { split.
    - intros j. unfold thread_desc. unfold p4. rewrite E3. cbn [p_pool with_x with_ext p2 set_desc with_pool].
      destruct (decide (j = 0%nat)) as [->|]; [by rewrite list_lookup_insert_eq|by rewrite list_lookup_insert_ne].
    - intros j Hj. change (ext p3 j = PosixThreadExt_zeroed). rewrite Ee3.
      destruct (decide (j ∈ _)) as [|Hn]; [done|].
      assert (j = 0%nat) as -> by (rewrite elem_of_seq in Hn; unfold MAX_THREADS in *; lia).
      change (ext p1 0 = PosixThreadExt_zeroed).
      unfold ext, p1, clear_ext, mod_ext, modify, with_x. cbn [snd p_ext with_ext ext_pool set_ext_pool].
      destruct (ext_pool (p_ext p)); done.
    - done.
    - unfold p4. rewrite E3. done.
    - exists []. rewrite app_nil_r. unfold p4. by rewrite E3. }
  clearbody p4. clear p1 p2 p3 E3 Ee3. destruct H4 as [Hd He Hc Hr [post Ht]].
  unfold sig_reinit_after_fork, gets, mret, PT_ret, mbind, PT_bind. cbv beta iota.
  destruct (_ =? 0); [split; [done..|by exists post]|]. unfold mod_x, sig_init, modify. cbv beta iota.
  cbn [p_ext with_x with_ext sig_initialized set_initialized Z.eqb].
  split; [done..|]. eexists. unfold tcb_set_notification_dispatcher, tcb_bind_notification.
  cbn [snd p_world with_x with_ext with_world]. rewrite !invoke_err_trace.
  cbn [p_world with_ext]. rewrite Ht, <- !(assoc_L (++)). reflexivity.
Qed.

Lemma query_grows w : exists pre, trace (snd (query_sc_cap_from_procmgr w)) = trace w ++ pre.
Proof.
  unfold query_sc_cap_from_procmgr. destruct (ctx w) as [c|]; [|exists []; by rewrite app_nil_r].
  assert (Ht : forall w ep m, exists pre, trace (snd (call_ctx w ep m (Some TronaMsg_zeroed))) = trace w ++ pre).
  { intros w' ep m. unfold call_ctx, transmit, syscall. cbv beta iota zeta. eexists. cbn [snd]. case_if; reflexivity. }
  specialize (Ht w pm_ep (mkMsg PM_GET_THREAD_CAPS 0 (replicate 32 0))).
  destruct (call_ctx w _ _ _) as [[err reply] w1]. cbn [snd] in Ht. by case_if.
Qed.

(** ** The child *)

Record child_start p q : Prop := {
  cs_others i : (0 < i < MAX_THREADS)%nat ->
    thread_desc q i = if used p i then invalidate_desc (thread_desc p i) else thread_desc p i;
  cs_main : thread_desc q 0 =
    set_personality_data (set_sc_cap (set_tcb_cap (thread_desc p 0) CAP_SELF_TCB) (p_sc_cap q)) (ext_addr 0);
  cs_ext i : (i < MAX_THREADS)%nat -> ext q i = PosixThreadExt_zeroed;
  cs_counters : p_next_tid q = 1 /\ next_free_hint (p_ext q) = 1%nat /\ ipc_buf_next (p_ext q) = IPC_BUF_REGION_BASE;
  cs_rest : p_mem q = p_mem p /\ p_alloc q = p_alloc p;
  cs_trace : exists pre post, trace (p_world q) =
    trace (p_world p) ++ pre ++ map unmap_call (gone_pages p (seq 1 (MAX_THREADS - 1))) ++ post;
}.

(** The main descriptor after the query. *)
Definition queried p (w : World) (sc : Cap) : PProc :=
  set_desc (with_sc_cap (with_world p w) sc) 0 (set_sc_cap (set_tcb_cap (thread_desc p 0) CAP_SELF_TCB) sc).

Lemma queried_desc p w sc j :
  length (p_pool p) = MAX_THREADS ->
  thread_desc (queried p w sc) j =
    if decide (j = 0%nat) then set_sc_cap (set_tcb_cap (thread_desc p 0) CAP_SELF_TCB) sc else thread_desc p j.
Proof.
  intros Hlen. unfold queried. rewrite desc_after_set. cbn [p_pool with_sc_cap with_world]. rewrite Hlen. unfold MAX_THREADS.
  destruct (decide (j = 0%nat)) as [->|]; [by rewrite decide_True by (split; [done|lia])|].
  by rewrite decide_False by (by intros [? _]).
Qed.

Lemma child_finish p w sc pre p2 p3 :
  length (p_pool p) = MAX_THREADS -> trace w = trace (p_world p) ++ pre ->
  slots_gone (queried p w sc) p2 (seq 1 (MAX_THREADS - 1)) -> hook_done p2 p3 ->
  child_start p (with_next_tid p3 1).
Proof.
  intros Hlen Hpre [Ht2 Hd2 _ (Ea2 & Em2 & Ex2 & Es2)] [Hd3 He3 [Hh3 Hi3] (Ea3 & Em3 & Es3) [post Ht3]].
  assert (Hd1 := fun j => queried_desc p w sc j Hlen).
  assert (Hu : forall i, (0 < i)%nat -> used (queried p w sc) i = used p i /\ thread_desc (queried p w sc) i = thread_desc p i).
  { intros i Hi. assert (E : thread_desc (queried p w sc) i = thread_desc p i) by (rewrite Hd1; by rewrite decide_False by lia).
    unfold used. by rewrite E. }
  split; cbn [p_mem p_alloc p_sc_cap p_ext p_next_tid p_world with_next_tid].
  - intros i Hi. destruct (Hu i ltac:(lia)) as [Eu Ed]. etrans; [apply Hd3|]. rewrite decide_False by lia.
    rewrite Hd2, Eu, Ed. destruct (used p i); [rewrite decide_True; [done|]|by rewrite decide_False by (by intros [_ ?])].
    split; [|done]. apply elem_of_seq. unfold MAX_THREADS in *. lia.
  - etrans; [apply Hd3|]. rewrite decide_True by done. rewrite Hd2, decide_False by (intros [Hin%elem_of_seq _]; lia).
    rewrite Hd1, Es3, Es2, decide_True by done. done.
  - apply He3.
  - done.
  - rewrite Em3, Em2, Ea3, Ea2. done.
  - exists pre, post. rewrite Ht3, Ht2. cbn [p_world queried set_desc with_pool with_sc_cap with_world].
    rewrite Hpre, <- !(assoc_L (++)). do 3 f_equal. f_equal. unfold gone_pages. f_equal. apply map_ext_in.
    intros i Hi. destruct (Hu i) as [-> ->]; [|done]. apply in_seq in Hi. lia.
Qed.

Lemma child_starts p :
  length (p_pool p) = MAX_THREADS -> td_personality_fork_child (thread_desc p 0) = Some fork_child_fn ->
  (forall q : PProc, run_fn fork_child_fn 0 q = snd (posix_personality_fork_child 0 q)) ->
  child_start p (trona_post_fork_child p).
Proof.
  intros Hlen Hhook Hrun. unfold trona_post_fork_child. destruct (query_grows (p_world p)) as [pre Hpre].
  destruct (query_sc_cap_from_procmgr (p_world p)) as [sc w]. cbn [snd] in Hpre. fold (queried p w sc).
  assert (Hl1 : length (p_pool (queried p w sc)) = MAX_THREADS) by (etrans; [apply length_insert|done]).
  pose proof (fork_slots_spec (seq 1 (MAX_THREADS - 1)) (queried p w sc) (NoDup_seq _ _)) as Hs.
  generalize dependent (fold_left fork_slot (seq 1 (MAX_THREADS - 1)) (queried p w sc)). intros p2 Hs.
  specialize (Hs ltac:(intros i Hi%elem_of_seq; rewrite Hl1; unfold MAX_THREADS in *; lia)).
  assert (Hz : td_personality_fork_child (thread_desc p2 0) = Some fork_child_fn).
  { rewrite (gs_desc _ _ _ Hs), decide_False by (intros [Hin%elem_of_seq _]; lia).
    by rewrite queried_desc, decide_True by done. }
  rewrite Hz, Hrun. eapply child_finish; [done|done|done|]. apply fork_hook_spec.
  rewrite (gs_len _ _ _ Hs), Hl1. unfold MAX_THREADS. lia.
Qed.
End fork.


(** ** A parent with two more threads *)

#[local] Instance fk_kernel : Kernel := DeliveringKernel TronaMsg_zeroed 0.
#[local] Instance fk_slices : Slices := {| slice_addr _ := 0x700000 |}.
#[local] Instance fk_threads : Threads := {|
  ext_pool_addr := 0xA000; cleanup_fn := 0x401000; fork_child_fn := 0x401100; cancel_fn := 0x401200;
  entry_trampoline := 0x402000; mm_ep := 4; vfs_cap := 5;
  call_start _ a p := (a, p); call_routine _ _ p := p |}.
#[local] Instance fk_sigcalls : SigCalls := {| call_sig _ _ p := p; dispatcher_addr := 0x4000; sig_ntfn := 9 |}.
#[local] Instance fk_image : Image Posix := {|
  arch := X86_64; tls_info := mkTlsInfo 0 0 0 1 0 []; pool_addr := 0x5000; desc_size := 168; main_block := 0x9000;
  pm_ep := 3; run_fn f i p := if f =? 0x401100 then snd (posix_personality_fork_child i p) else p |}.

(** A thread with a stack of two pages, an IPC buffer and handle [0x50000 + i]. *)
Definition fk_thread (stack buf : Z) : ThreadDesc :=
  set_generation (set_ipc_buf_vaddr (set_stack_size (set_stack_base
    (set_owner (set_state ThreadDesc_zeroed TD_RUNNING) Personality) stack) 8192) buf) 5.

Definition fk_process : PProc :=
  Tls.mkProc _ (mkWorld [] (Some (mkCtx (Some empty_buffer) 0))) (slot_alloc_init 64 64 0) (fun _ => 0)
    (set_personality_fork_child (set_owner (set_state ThreadDesc_zeroed TD_RUNNING) Personality) (Some 0x401100) ::
     fk_thread 0x600000 0x7F0000000000 :: ThreadDesc_zeroed :: fk_thread 0x610000 0x7F0000001000 ::
     replicate 60 ThreadDesc_zeroed) 4 true 0 0
    (mkPosix (replicate MAX_THREADS PosixThreadExt_zeroed) 4 (IPC_BUF_REGION_BASE + 8192) (replicate NSIG 0) 1 0
       (replicate NSIG 0) (replicate NSIG 0) false 0 0 0 0 0).

