(* ===== verification/PthreadTheorems.v ===== *)
(** The theorems about POSIX threads: creation with its failures, the image of a
    new thread, and the lifetime of handles. *)

From S2P Require Import Prelude Consts Kernel SlotAlloc SlotPool Invoke SlotExpand SlotRange Ipc InvokeOps PosixCall Protocol PosixClient PosixProc Serial ByteMem Runtime Tls TlsTheorems Worker WorkerTls Signals Pthread PthreadHandles PthreadCreate.

Section cases.
Context `{Kernel} `{Slices} `{!Image Posix} `{!SigCalls} `{!Threads} (fuel : nat).
Implicit Types p q : PProc.

(** A created thread. *)
Record Created p (out : option Z) (attr : option PthreadAttr) (f a : Z) (i : nat) (sb : Z)
    (o : option Z) q : Prop := {
  cr_slot : (1 <= i < MAX_THREADS)%nat /\ td_state (thread_desc p i) = TD_UNUSED;
  cr_out : o = Ipc.store out (encode_handle i (td_generation (thread_desc p i)));
  cr_stack : sb <> 0;
  cr_stage : exists tid tcb,
    stage p i (created_desc (thread_desc p i) i sb (stack_size_of attr) (p_next_tid p) (ipc_buf_next (p_ext p)))
      (mkExt tid tcb sb (stack_size_of attr) (detach_state_of attr))
      (thread_mem (p_mem p) i (sb + stack_size_of attr)%u64 (p_next_tid p) (ipc_buf_next (p_ext p)) f a) q /\
    range_taken (p_alloc p) (p_alloc q) tcb 1 /\
    exists q1 q2,
      pm_thread_create_call fuel entry_trampoline (thread_sp (sb + stack_size_of attr)%u64)
        (thread_tp (sb + stack_size_of attr)%u64) (ipc_buf_next (p_ext p))
        (if negb (detach_state_of attr =? 0) then 1 else 0) tcb q1 = (Val (inl (tid, tcb)), q2) /\
      p_mem q1 = p_mem q /\ p_world q2 = p_world q;
}.

Lemma create_cases out attr f a p :
  length (p_pool p) = MAX_THREADS -> length (ext_pool (p_ext p)) = MAX_THREADS ->
  slots_ready (p_alloc p) ->
  match pthread_create fuel out attr f a p with
  | (Val (c, o), q) =>
      (c = 0 /\ exists i sb, Created p out attr f a i sb o q) \/
      (o = out /\ unwound fuel p q /\
       ((c = -11 /\ forall j, (1 <= j < MAX_THREADS)%nat -> td_state (thread_desc p j) <> TD_UNUSED) \/ c = -12))
  | (Stuck, _) => ~ served fuel
  | _ => False
  end.
Proof.
  intros Hl Hx Hr. unfold pthread_create, body_out, mbind, PT_bind.
  pose proof (create_stack_cases fuel attr p Hl Hx) as Hst.
  destruct (create_stack fuel attr p) as [[[[[i sb] n] tid]|c| |] q1]; try done.
  2: { right. by destruct Hst. }
  destruct Hst as (Hi & Hun & -> & Hsb & _ & -> & Ha1 & Hn1 & S1).
  pose proof (create_image_cases fuel p i _ _ _ q1 sb (stack_size_of attr) (p_next_tid p) f a S1 ltac:(lia)) as Him.
  cbv zeta in Him.
  destruct (create_image fuel i sb (stack_size_of attr) (p_next_tid p) f a q1) as [[[[sp tp] ipc]|c| |] q2]; try done.
  2: { right. split; [done|]. destruct Him as (-> & S2 & Ha2 & Hum). split; [|by right].
       eexists i, _, _, _. split; [exact S2|]. split_and!; [by rewrite Hun|done|by rewrite Ha2, Ha1|by right]. }
  destruct Him as (-> & -> & -> & Ha2 & S2). rewrite Hn1 in S2.
  assert (Hr2 : slots_ready (p_alloc q2)) by (by rewrite Ha2, Ha1).
  pose proof (create_start_cases fuel p i _ _ _ q2 out sb (stack_size_of attr) (thread_sp (sb + stack_size_of attr)%u64)
    (thread_tp (sb + stack_size_of attr)%u64) (ipc_buf_next (p_ext q1)) S2 ltac:(lia) ltac:(lia) Hr2) as Hgo.
  destruct (create_start fuel out i sb (stack_size_of attr) _ _ _ q2) as [[[c o]|c| |] q3]; try done.
  - left. destruct Hgo as (ptid & tcb & r1 & r2 & -> & Ho & S3 & Ht & Hpm & Hm & Hw). split; [done|].
    exists i, sb. split; [done|exact Ho|done|]. exists ptid, tcb. split; [exact S3|].
    rewrite Ha2, Ha1 in Ht. split; [done|]. exists r1, r2. rewrite Hn1 in Hpm. split; [exact Hpm|].
    split; [|done]. rewrite Hm. symmetry. apply S3.
  - right. split; [done|]. destruct Hgo as (-> & S3 & Hs3 & Hum). split; [|by right].
    eexists i, _, _, _. split; [exact S3|]. rewrite Ha2, Ha1 in Hs3.
    split_and!; [by rewrite Hun|done|done|by right].
Qed.
End cases.

(** C14: [pthread_create] always returns and cleans up after itself.  In a process
    whose requests are answered it returns 0, EAGAIN or ENOMEM; EAGAIN means
    that every slot is in use.  On a failure the caller's handle is untouched,
    every descriptor has its old state and generation (only a slot that is free
    before and after has other fields changed), no capability slot is lost, and
    a stack that had been mapped was unmapped again by the last request sent. *)
Theorem pthread_create_clean {K : Kernel} {SL : Slices} {I : Image Posix} {SC : SigCalls} {TH : Threads}
    (fuel : nat) (out : option Z) (attr : option PthreadAttr) (f a : Z) (p : PProc)
    (Hpool : length (p_pool p) = MAX_THREADS) (Hext : length (ext_pool (p_ext p)) = MAX_THREADS)
    (Hslots : slots_ready (p_alloc p)) (Hserved : served fuel) :
  exists c o q, pthread_create fuel out attr f a p = (Val (c, o), q) /\
    (c = 0 \/ c = -11 \/ c = -12) /\
    (c = -11 -> forall j, (1 <= j < MAX_THREADS)%nat -> td_state (thread_desc p j) <> TD_UNUSED) /\
    (c <> 0 -> o = out /\ unwound fuel p q /\
       forall j, td_state (thread_desc q j) = td_state (thread_desc p j) /\
                 td_generation (thread_desc q j) = td_generation (thread_desc p j)).
Proof.
  pose proof (create_cases fuel out attr f a p Hpool Hext Hslots) as Hc.
  destruct (pthread_create fuel out attr f a p) as [[[c o]|c| |] q]; try done.
  exists c, o, q. split; [done|].
  destruct Hc as [[-> _]|(-> & Hun & Hcode)]; [by split_and!; auto|].
  split; [naive_solver|]. split; [naive_solver|]. intros _. split; [done|]. split; [done|].
  destruct Hun as (i & d & e & m & Hst & Hs & Hg & _). intros j. destruct (decide (j = i)) as [->|Hne].
  - by rewrite (st_desc _ _ _ _ _ _ Hst).
  - by rewrite (st_descs _ _ _ _ _ _ Hst).
Qed.

Section created.
Context `{Kernel} `{Slices} `{!Image Posix} `{!SigCalls} `{!Threads} (fuel : nat).
Implicit Types p q : PProc.

Lemma created_inv v attr f a p h q :
  length (p_pool p) = MAX_THREADS -> length (ext_pool (p_ext p)) = MAX_THREADS ->
  slots_ready (p_alloc p) ->
  pthread_create fuel (Some v) attr f a p = (Val (0, Some h), q) ->
  exists i sb, Created fuel p (Some v) attr f a i sb (Some h) q.
Proof.
  intros Hl Hx Hs Hrun. pose proof (create_cases fuel (Some v) attr f a p Hl Hx Hs) as Hc.
  rewrite Hrun in Hc. destruct Hc as [[_ Hc]|(_ & _ & Hcode)]; [exact Hc|]. lia.
Qed.

Lemma created_handle v attr f a p h i sb q :
  Created fuel p (Some v) attr f a i sb (Some h) q -> length (p_pool p) = MAX_THREADS ->
  h = encode_handle i (td_generation (thread_desc q i)) /\ (i < MAX_THREADS)%nat /\
  td_owner (thread_desc q i) = Personality /\ length (p_pool q) = MAX_THREADS.
Proof.
  intros [[Hi _] Ho _ (tid & tcb & Hst & _)] Hl. cbn in Ho. injection Ho as ->.
  rewrite (st_desc _ _ _ _ _ _ Hst). split; [done|]. split; [lia|]. split; [done|].
  rewrite (proj1 (st_len _ _ _ _ _ _ Hst)). done.
Qed.

Lemma pool_index_desc i : 0 < desc_size -> (i < MAX_THREADS)%nat -> desc_pool_index (desc_addr i) = Some i.
Proof.
  intros Hd Hi. unfold desc_pool_index, desc_addr, MAX_THREADS in *.
  replace (pool_addr + Z.of_nat i * desc_size - pool_addr) with (Z.of_nat i * desc_size) by lia.
  rewrite Z.div_mul by lia.
  destruct (Z.leb_spec 0 (Z.of_nat i)), (Z.ltb_spec (Z.of_nat i) (Z.of_nat 64)); try lia. cbn.
  by rewrite Nat2Z.id.
Qed.

(** A thread started on its image is told its own handle. *)
Lemma self_of_image m q i sb top tid ipc f a :
  thread_image m (p_mem q) i sb top tid ipc f a -> p_active q = true -> 0 < sb ->
  0 < desc_size -> (i < MAX_THREADS)%nat -> (forall i, (i < MAX_THREADS)%nat -> 0 < desc_addr i < 2 ^ 64) ->
  pthread_self q (thread_tp top) = encode_handle i (td_generation (thread_desc q i)).
Proof.
  intros Himg Hact Hsb Hsize Hi Hdescs. unfold pthread_self, current_tls. rewrite Hact. cbn [negb].
  pose proof (ti_placed _ _ _ _ _ _ _ _ _ Himg) as Hpl. pose proof (pl_block _ _ _ _ Hpl) as Hblk.
  pose proof (pl_tp _ _ _ _ Hpl) as Htp. pose proof (pl_x86 _ _ _ _ Hpl) as Hx86.
  pose proof (ti_block _ _ _ _ _ _ _ _ _ Himg) as Hself.
  assert (Hrt : read_tp (p_mem q) (thread_tp top) <> 0).
  { unfold runtime_tcb_from_tp in Hself. unfold read_tp in *. destruct arch; lia. }
  destruct (Z.eqb_spec (read_tp (p_mem q) (thread_tp top)) 0); [done|].
  rewrite Hself. destruct (Z.eqb_spec (thread_block top) 0); [lia|].
  unfold desc_from_tls. rewrite (proj1 (proj2 (ti_fields _ _ _ _ _ _ _ _ _ Himg))).
  pose proof (Hdescs i Hi). destruct (Z.eqb_spec (desc_addr i) 0); [lia|].
  by rewrite pool_index_desc.
Qed.
End created.

(** C15: the thread [pthread_create] makes.  When it returns 0, a slot that was
    free is now running and the returned handle denotes it; no other descriptor
    has changed.  If the stack the memory server mapped is large enough, the
    thread-local area and the initial stack lie inside it without overlapping:
    a thread started with the thread pointer and stack pointer that were sent to
    the process manager finds its block through the thread pointer, its
    variables with their initial values, its identity, its descriptor and its
    IPC buffer in the block with no cancellation pending, and the start routine
    and its argument on the stack; [pthread_self] in that thread gives the very
    handle returned to the creator.  No byte outside the stack is written, and
    with up to two pages of TLS no byte outside the two prefaulted pages. *)
Theorem pthread_create_image {K : Kernel} {SL : Slices} {I : Image Posix} {SC : SigCalls} {TH : Threads}
    (fuel : nat) (v h f a : Z) (attr : option PthreadAttr) (p q : PProc)
    (Hpool : length (p_pool p) = MAX_THREADS) (Hext : length (ext_pool (p_ext p)) = MAX_THREADS)
    (Hslots : slots_ready (p_alloc p)) (Halign : align_ok) (Htls : static_tls_ok)
    (Hmods : static_tls_module_count <> 0%nat) (Hsize : 0 < desc_size)
    (Hdescs : forall i, (i < MAX_THREADS)%nat -> 0 < desc_addr i < 2 ^ 64)
    (Hwords : u64 (p_next_tid p) /\ u64 (ipc_buf_next (p_ext p)) /\ u64 f /\ u64 a)
    (Hrun : pthread_create fuel (Some v) attr f a p = (Val (0, Some h), q)) :
  exists i sb, let n := stack_size_of attr in let top := sb + n in
    (1 <= i < MAX_THREADS)%nat /\ td_state (thread_desc p i) = TD_UNUSED /\
    td_state (thread_desc q i) = TD_RUNNING /\ td_stack_base (thread_desc q i) = sb /\
    validate_handle q h = Some i /\
    (forall j, j <> i -> thread_desc q j = thread_desc p j) /\
    (0 < sb -> stack_need <= n -> top < 2 ^ 63 ->
     (forall j k, live_module j -> 0 <= k < filesz (static_tls_module j) ->
        let t := template_addr (static_tls_module j) + k in t < sb \/ top <= t) ->
     thread_image (p_mem p) (p_mem q) i sb top (p_next_tid p) (ipc_buf_next (p_ext p)) f a /\
     (p_active p = true -> pthread_self q (thread_tp top) = h) /\
     (stack_need <= 8192 <= n -> same_outside (top - 8192) top (p_mem p) (p_mem q)) /\
     exists fl tid tcb q1 q2,
       pm_thread_create_call fuel entry_trampoline (thread_sp top) (thread_tp top) (ipc_buf_next (p_ext p)) fl tcb q1
         = (Val (inl (tid, tcb)), q2) /\ p_mem q1 = p_mem q /\ p_world q2 = p_world q /\
       procmgr_tid (ext q i) = tid /\ x_tcb_cap (ext q i) = tcb).
Proof.
  destruct (created_inv fuel v attr f a p h q Hpool Hext Hslots Hrun) as (i & sb & Hc).
  destruct (created_handle fuel v attr f a p h i sb q Hc Hpool) as (Hh & Hi & Ho & Hlq).
  destruct Hc as [[Hi1 Hun] _ Hsb0 (tid & tcb & Hst & _ & q1 & q2 & Hpm & Hm1 & Hw2)].
  exists i, sb. cbv zeta. pose proof (st_desc _ _ _ _ _ _ Hst) as Hd.
  split; [done|]. split; [done|]. split; [by rewrite Hd|]. split; [by rewrite Hd|].
  split; [rewrite Hh, validate_encode by done; by rewrite Z.eqb_refl, Ho|].
  split; [apply Hst|]. intros Hsb Hn Htop Htm.
  destruct Hwords as (U1 & U2 & U3 & U4).
  assert (Hn0 : 0 < stack_size_of attr).
  { pose proof (so_total Htls). destruct Halign as [Hp _]. apply pow2_pos in Hp.
    unfold stack_need, TCB_SIZE in Hn. lia. }
  assert (Et : (sb + stack_size_of attr)%u64 = sb + stack_size_of attr) by (apply wrap_small; lia).
  rewrite Et in *. pose proof (st_mem _ _ _ _ _ _ Hst) as Hmem.
  assert (Himg : thread_image (p_mem p) (p_mem q) i sb (sb + stack_size_of attr) (p_next_tid p)
                   (ipc_buf_next (p_ext p)) f a).
  { rewrite Hmem. apply thread_mem_image; try done; [lia|]. specialize (Hdescs i Hi). unfold u64, in_u. lia. }
  split; [exact Himg|]. split; [|split].
  - intros Hact. rewrite Hh. eapply self_of_image; [exact Himg|by rewrite (st_active _ _ _ _ _ _ Hst)|done..].
  - intros Hsmall. rewrite Hmem.
    refine (ti_outside _ _ _ _ _ _ _ _ _ (thread_mem_image (p_mem p) i (sb + stack_size_of attr - 8192)
      (sb + stack_size_of attr) (p_next_tid p) (ipc_buf_next (p_ext p)) f a Halign Htls Hmods _ _ _ _ U1 U2 U3 U4 _)).
    + lia.
    + lia.
    + lia.
    + intros j k Hl Hk. specialize (Htm j k Hl Hk). cbn in Htm |- *. lia.
    + specialize (Hdescs i Hi). unfold u64, in_u. lia.
  - eexists _, tid, tcb, q1, q2. split; [exact Hpm|]. split; [done|]. split; [done|].
    by rewrite (st_ext _ _ _ _ _ _ Hst).
Qed.

(** C16: the lifetime of a handle.  Take the handle of a newly created thread and
    any sequence of creations, joins, detachments, cancellations and changes
    outside the thread tables.  The handle denotes its slot as long as the
    number of successful joins of that slot since is a multiple of 65536, so in
    particular until the thread is joined; otherwise it denotes nothing, and
    join, detach and cancel refuse it with ESRCH and change nothing. *)
Theorem pthread_handle_lifetime {K : Kernel} {SL : Slices} {I : Image Posix} {SC : SigCalls} {TH : Threads}
    (fuel : nat) (v h f a : Z) (attr : option PthreadAttr) (p q : PProc)
    (Hpool : length (p_pool p) = MAX_THREADS) (Hext : length (ext_pool (p_ext p)) = MAX_THREADS)
    (Hslots : slots_ready (p_alloc p))
    (Hrun : pthread_create fuel (Some v) attr f a p = (Val (0, Some h), q)) :
  exists i, (1 <= i < MAX_THREADS)%nat /\ forall l : list Op,
    let r := run_ops fuel q l in
    let k := Z.of_nat (join_count fuel i q l) in
    (k mod 2 ^ 16 = 0 -> validate_handle r h = Some i) /\
    (k mod 2 ^ 16 <> 0 ->
       validate_handle r h = None /\
       (forall reg rv, pthread_join fuel reg h rv r = (Val (-3, rv), r)) /\
       pthread_detach fuel h r = (Val (-3), r) /\ pthread_cancel h r = (Val (-3), r)).
Proof.
  destruct (created_inv fuel v attr f a p h q Hpool Hext Hslots Hrun) as (i & sb & Hc).
  destruct (created_handle fuel v attr f a p h i sb q Hc Hpool) as (Hh & Hi & Ho & Hlq).
  exists i. split; [apply Hc|]. intros l. cbv zeta. set (k := Z.of_nat _).
  destruct (run_ops_gen fuel i l q Hlq Hi Ho) as [Hor Hgr]. fold k in Hgr.
  set (r := run_ops fuel q l) in *. set (g := td_generation (thread_desc q i)) in *.
  assert (Hval : validate_handle r h = if k mod 2 ^ 16 =? 0 then Some i else None).
  { rewrite Hh, validate_encode by done. rewrite Hgr, Hor. rewrite bool_decide_eq_true_2, andb_true_r by done.
    assert (((g + k) mod 2 ^ 16 =? g mod 2 ^ 16) = (k mod 2 ^ 16 =? 0)) as ->; [|done].
    pose proof (Z.mod_pos_bound k (2 ^ 16) ltac:(lia)). pose proof (Z.mod_pos_bound g (2 ^ 16) ltac:(lia)).
    rewrite Z.add_mod by lia.
    destruct (Z.eqb_spec (k mod 2 ^ 16) 0) as [E|E].
    - rewrite E, Z.add_0_r, Z.mod_mod by lia. apply Z.eqb_refl.
    - apply Z.eqb_neq. intros E2. destruct (Z.lt_ge_cases (g mod 2 ^ 16 + k mod 2 ^ 16) (2 ^ 16)).
      + rewrite Z.mod_small in E2 by lia. lia.
      + rewrite <- (Z.mod_add _ (-1)) in E2 by lia. rewrite Z.mod_small in E2 by lia. lia. }
  split; intros Hk.
  - rewrite Hval, Hk. done.
  - destruct (Z.eqb_spec (k mod 2 ^ 16) 0); [done|]. split; [done|].
    unfold pthread_join, pthread_detach, pthread_cancel, body, body_out, mbind, PT_bind, gets. rewrite Hval. done.
Qed.

(** ** A concrete process *)

#[local] Instance pt_image : Image Posix := {|
  arch := X86_64; tls_info := toy_tls; pool_addr := 0x5000; desc_size := 168; main_block := 0x9000;
  pm_ep := 3; run_fn _ _ p := p |}.
#[local] Instance pt_slices : Slices := {| slice_addr _ := 0x700000 |}.
#[local] Instance pt_sigcalls : SigCalls := {| call_sig _ _ p := p; dispatcher_addr := 0x4000; sig_ntfn := 9 |}.
#[local] Instance pt_threads : Threads := {|
  ext_pool_addr := 0xA000; cleanup_fn := 0x401000; fork_child_fn := 0x401100; cancel_fn := 0x401200;
  entry_trampoline := 0x402000; mm_ep := 4; vfs_cap := 5;
  call_start _ a p := (a, p); call_routine _ _ p := p |}.

(** Servers that answer every request with 0x600000, and a process manager that
    refuses to create threads. *)
Definition pt_reply : TronaMsg := mkMsg TRONA_OK 1 (0x600000 :: replicate 31 0).
Definition pt_kernel : Kernel := DeliveringKernel pt_reply 0.
Definition no_thread_kernel : Kernel := {|
  k_result _ c _ := if (num c =? SYS_CALL) && (a2 c =? 0x402000) then mkResult TRONA_OUT_OF_MEMORY 0 else mkResult 0 0;
  k_buffer := @k_buffer pt_kernel |}.

(** The main thread runs in slot 0; two pages of module templates at 0x8000. *)
Definition pt_process : PProc :=
  Tls.mkProc _ (mkWorld [] (Some (mkCtx (Some empty_buffer) 0))) (slot_alloc_init 64 64 0) toy_mem
    (set_state ThreadDesc_zeroed TD_RUNNING :: replicate 63 ThreadDesc_zeroed) 1 true 0 0
    (mkPosix (replicate MAX_THREADS PosixThreadExt_zeroed) 1 IPC_BUF_REGION_BASE (replicate NSIG 0) 0 0
       (replicate NSIG 0) (replicate NSIG 0) false 0 0 0 0 0).

Lemma pt_slots : slots_ready (p_alloc pt_process).
Proof.
  split.
  - apply init_pool_inv; unfold EXPAND_FLOOR, CSPACE_EXPAND_BASE; lia.
  - done.
  - intros x Hx. pose proof (init_managed 64 64 0 x ltac:(lia) ltac:(lia) ltac:(lia)) as Hm.
    apply Hm in Hx. lia.
Qed.

(** A kernel whose calls are never to be repeated serves every request. *)
Lemma never_again_served (K : Kernel) k fuel :
  (forall tr c buf, restarted_or_interrupted (as_i32 (error (k_result tr c buf))) = false) ->
  @probe_ready K k -> (k + 1 < fuel)%nat -> served fuel.
Proof.
  intros Hn Hk Hf. split; [|by exists k]. intros idem w ep m. destruct fuel as [|fuel]; [lia|].
  assert (Hc : exists err reply w', call_ctx w ep m (Some TronaMsg_zeroed) = (err, Some reply, w') /\
                 restarted_or_interrupted err = false /\ restarted err = false).
  { unfold call_ctx, transmit, syscall. cbv beta iota zeta.
    match goal with |- context [k_result ?tr ?c ?b] => pose proof (Hn tr c b) as Ha; set (r := k_result tr c b) in * end.
    assert (Hr : restarted (as_i32 (error r)) = false).
    { unfold restarted_or_interrupted in Ha. apply orb_false_iff in Ha. apply Ha. }
    unfold store_msg.
    destruct (error r =? 0); [match goal with |- context [match buffer_of ?c with _ => _ end] => destruct (buffer_of c) end|]; cbn [store fmap option_fmap option_map]; (eexists _, _, _; split; [reflexivity|done]). }
  destruct Hc as (err & reply & w' & E & Ha & Hr).
  exists err, reply, w'. unfold ipc_call_retry, ipc_call_retry_idempotent.
  destruct idem; cbn [call_loop]; rewrite E, ?Ha, ?Hr; done.
Qed.

Lemma no_thread_served : @served no_thread_kernel 3.
Proof.
  eapply (never_again_served no_thread_kernel 0).
  - intros tr c buf. cbn. by destruct (_ && _).
  - intros tr c buf Hc _. cbn. unfold is_probe in Hc. bprop.
    destruct (Z.eqb_spec (num c) SYS_CALL) as [E|]; [|done]. unfold SYS_CALL, SYS_INVOKE in *; lia.
  - lia.
Qed.

Lemma pthread_create_clean_witness :
  exists q, @pthread_create no_thread_kernel pt_slices pt_image pt_threads 3 (Some 42)
              (Some (mkAttr 16384 0)) 7 8 pt_process = (Val (-12, Some 42), q) /\
    @unwound no_thread_kernel pt_image pt_threads 3 pt_process q.
Proof.
  destruct (@pthread_create_clean no_thread_kernel pt_slices pt_image pt_sigcalls pt_threads 3 (Some 42)
    (Some (mkAttr 16384 0)) 7 8 pt_process eq_refl eq_refl pt_slots no_thread_served)
    as (c & o & q & Hrun & _ & _ & Hfail).
  assert (E : fst (@pthread_create no_thread_kernel pt_slices pt_image pt_threads 3 (Some 42)
                (Some (mkAttr 16384 0)) 7 8 pt_process) = Val (-12, Some 42)) by (vm_compute; reflexivity).
  rewrite Hrun in E. cbn [fst] in E. injection E as -> ->.
  exists q. split; [exact Hrun|]. by apply Hfail.
Defined.

(** The creation that succeeds. *)
Definition pt_created : PProc :=
  snd (@pthread_create pt_kernel pt_slices pt_image pt_threads 3 (Some 42)
         (Some (mkAttr 16384 0)) 7 8 pt_process).

Lemma pt_create_ok :
  @pthread_create pt_kernel pt_slices pt_image pt_threads 3 (Some 42)
    (Some (mkAttr 16384 0)) 7 8 pt_process = (Val (0, Some 1), pt_created).
Proof.
  unfold pt_created.
  assert (E : fst (@pthread_create pt_kernel pt_slices pt_image pt_threads 3 (Some 42)
                (Some (mkAttr 16384 0)) 7 8 pt_process) = Val (0, Some 1)) by (vm_compute; reflexivity).
  destruct (pthread_create _ _ _ _ _ _) as [o q]. by rewrite <- E.
Qed.

Lemma pt_align : @align_ok Posix pt_image.
Proof. vm_compute. split; [by exists 4|done]. Qed.

Lemma pt_tls_ok : @static_tls_ok Posix pt_image.
Proof. destruct toy_tls_ok as [H1 H2 H3 H4]. by split. Qed.

Lemma pthread_create_image_witness :
  exists i, td_state (thread_desc pt_created i) = TD_RUNNING /\ validate_handle pt_created 1 = Some i /\
    thread_image (p_mem pt_process) (p_mem pt_created) i 0x600000 0x604000 1 IPC_BUF_REGION_BASE 7 8 /\
    pthread_self pt_created (thread_tp 0x604000) = 1.
Proof.
  assert (Hd : forall i, (i < MAX_THREADS)%nat -> 0 < desc_addr i < 2 ^ 64).
  { intros i Hi. unfold desc_addr, MAX_THREADS in *. cbn. lia. }
  assert (Hw : u64 (p_next_tid pt_process) /\ u64 (ipc_buf_next (p_ext pt_process)) /\ u64 7 /\ u64 8).
  { by vm_compute. }
  destruct (@pthread_create_image pt_kernel pt_slices pt_image pt_sigcalls pt_threads 3 42 1 7 8
    (Some (mkAttr 16384 0)) pt_process pt_created eq_refl eq_refl pt_slots pt_align pt_tls_ok ltac:(done)
    ltac:(done) Hd Hw pt_create_ok) as (i & sb & Hi & _ & Hs & Hsb & Hv & _ & Himg).
  assert (Ei : validate_handle pt_created 1 = Some 1%nat) by (vm_compute; reflexivity).
  rewrite Hv in Ei. injection Ei as ->.
  assert (Es : td_stack_base (thread_desc pt_created 1) = 0x600000) by (vm_compute; reflexivity).
  rewrite Hsb in Es. subst sb. exists 1%nat. split; [exact Hs|]. split; [exact Hv|].
  destruct Himg as (Ht & Hself & _).
  - lia.
  - by vm_compute.
  - by vm_compute.
  - intros j k [-> | ->]%toy_live Hk; cbn in Hk; left; cbn; lia.
  - split; [exact Ht|]. by apply Hself.
Defined.

Lemma pt_handle : validate_handle pt_created 1 = Some 1%nat.
Proof. vm_compute. reflexivity. Qed.

Lemma pt_joined :
  @join_count pt_kernel pt_slices pt_image pt_threads 3 1 pt_created [OpDetach 5; OpJoin 0 1 None] = 1%nat.
Proof. vm_compute. reflexivity. Qed.

Lemma pthread_handle_lifetime_witness :
  validate_handle pt_created 1 = Some 1%nat /\
  let r := @run_ops pt_kernel pt_slices pt_image pt_threads 3 pt_created [OpDetach 5; OpJoin 0 1 None] in
  validate_handle r 1 = None /\ @pthread_detach pt_kernel pt_image pt_threads 3 1 r = (Val (-3), r).
Proof.
  pose proof pt_handle as Hh. pose proof pt_joined as Hj.
  pose proof (@pthread_handle_lifetime pt_kernel pt_slices pt_image pt_sigcalls pt_threads 3 42 1 7 8
    (Some (mkAttr 16384 0)) pt_process pt_created eq_refl eq_refl pt_slots pt_create_ok) as HT.
  generalize dependent pt_created. intros q Hh Hj (i & Hi & Hl). split; [exact Hh|].
  destruct (Hl []) as [H0 _]. specialize (H0 eq_refl). unfold run_ops in H0. cbn [fold_left] in H0.
  rewrite Hh in H0. injection H0 as <-.
  destruct (Hl [OpDetach 5; OpJoin 0 1 None]) as [_ H1]. rewrite Hj in H1.
  destruct (H1 ltac:(done)) as (Hv & _ & Hd & _). split; [exact Hv|exact Hd].
Defined.
