(* ===== verification/PosixExports.v ===== *)
(** What [src/posix/lib.rs] exports to C: one function per operation of the
    personality, with the conversions of the few that do more than forward their
    arguments.  The operations are those of files PosixSocket, PosixPoll,
    PosixMisc, PosixFile, PosixProc, Dns and Pthread. *)

From S2P Require Import Prelude Consts Kernel SlotAlloc Invoke SlotExpand Ipc InvokeOps PosixCall Protocol PosixClient PosixProc PosixFile PosixPoll Dns PosixSocket PosixMisc Serial ByteMem Runtime Tls Signals Pthread.

(** [i32] to [i64] keeps the value. *)
Definition call_err_to_posix_i64 (err : Z) : Z := call_err_to_posix err.

Section exports.
Context `{Transport} (eps : Endpoints).

(** Sockets, shared memory. *)
Definition trona_socket domain sock_type protocol := posix_socket eps domain sock_type protocol.
Definition trona_bind fd path addr_len := posix_bind eps fd path addr_len.
Definition trona_listen fd backlog := posix_listen eps fd backlog.
Definition trona_accept fd := posix_accept eps fd.
Definition trona_connect fd path addr_len := posix_connect eps fd path addr_len.
Definition trona_shutdown fd how := posix_shutdown eps fd how.
Definition trona_socketpair fds := posix_socketpair eps fds.
Definition trona_shm_open name flags := posix_shm_open eps name flags.
Definition trona_shm_unlink name := posix_shm_unlink eps name.
Definition trona_ftruncate fd length_ := posix_ftruncate eps fd length_.
Definition trona_fsync fd := posix_fsync eps fd.

(** Pipes and descriptors. *)
Definition trona_pipe fds := posix_pipe eps fds.
Definition trona_pipe2 fds flags := posix_pipe2 eps fds flags.
Definition trona_dup oldfd := posix_dup eps oldfd.
Definition trona_dup2 oldfd newfd := posix_dup2 eps oldfd newfd.
Definition trona_dup3 oldfd newfd flags := posix_dup3 eps oldfd newfd flags.
Definition trona_mkfifo path mode := posix_mkfifo eps path mode.

(** Process groups and identities. *)
Definition trona_setpgid pid pgid := posix_setpgid eps pid pgid.
Definition trona_getpgid pid := posix_getpgid eps pid.
Definition trona_setsid := posix_setsid eps.
Definition trona_getsid pid := posix_getsid eps pid.
Definition trona_getuid := posix_getuid eps.
Definition trona_geteuid := posix_geteuid eps.
Definition trona_getgid := posix_getgid eps.
Definition trona_getegid := posix_getegid eps.

(** Time. *)
Definition trona_clock_gettime clock_id ts := posix_clock_gettime clock_id ts.
Definition trona_gettimeofday tv := posix_gettimeofday tv.
Definition trona_nanosleep req rem := posix_nanosleep req rem.
Definition trona_usleep usec := posix_usleep usec.
Definition trona_sleep seconds := posix_sleep seconds.

(** Terminals, descriptors, directories. *)
Definition trona_tcgetattr fd termios_p := posix_tcgetattr eps fd termios_p.
Definition trona_tcsetattr fd action termios_p := posix_tcsetattr eps fd action termios_p.
Definition trona_epoll_wait epfd events maxevents timeout := posix_epoll_wait eps epfd events maxevents timeout.
Definition trona_fcntl fd cmd arg := posix_fcntl eps fd cmd arg.
Definition trona_isatty fd := posix_isatty eps fd.
Definition trona_ioctl fd request_ arg m := posix_ioctl eps fd request_ arg m.
Definition trona_chdir path := posix_chdir eps path.
Definition trona_getcwd buf size := posix_getcwd eps buf size.

(** [posix_getgroups] never writes to the caller's list. *)
Definition trona_getgroups (size : Z) : M Z := posix_getgroups eps size.

Definition trona_posix_poll fds nfds timeout := posix_poll eps fds nfds timeout.

(** The flags are dropped. *)
Definition trona_epoll_create1 (flags : Z) : M Z := posix_epoll_create eps.

Definition trona_epoll_ctl (epfd op_ fd : Z) (event : option EpollEvent) : M Z :=
  let '(events, data) := match event with
                         | Some e => (ep_events e, ep_data e)
                         | None => (0, 0)
                         end in
  posix_epoll_ctl eps epfd op_ fd events data.
End exports.

(** ** Names *)

Section names.
Context `{Transport} (namesrv : Cap) (slot_alloc : M (option Cap)) (receive_into : Cap -> M unit).

(** The pointer and length of a name: [None] is null, and the list the bytes of
    the slice. *)
Definition name_refused (hostname : option (list Z)) : bool :=
  match hostname with
  | None => true
  | Some s => (length s =? 0)%nat || (120 <? length s)%nat
  end.

Definition trona_dns_resolve (hostname : option (list Z)) (d : DnsState) : M (Z * DnsState) :=
  if name_refused hostname then mret (0, d)
  else dns_resolve namesrv slot_alloc receive_into (default [] hostname) d.

Definition trona_getaddrinfo (node : option (list Z)) (res : option DnsAddrInfo) (d : DnsState) :=
  posix_getaddrinfo namesrv slot_alloc receive_into node res d.

Definition trona_dns_resolve_multi (hostname : option (list Z)) (res : option DnsResult) (d : DnsState)
    : M (Z * option DnsResult * DnsState) :=
  if name_refused hostname then mret (-1, res, d)
  else match res with
  | None => mret (-1, None, d)
  | Some _ =>
      r ← dns_resolve_multi namesrv slot_alloc receive_into (default [] hostname) d;
      let '(r, d) := r in
      mret (if dns_count r =? 0 then -1 else 0, Some r, d)
  end.

Definition trona_gethostbyname (name : option (list Z)) (d : DnsState) :=
  posix_gethostbyname namesrv slot_alloc receive_into name d.

Definition trona_dns_reverse_lookup (ip : Z) (hostname_out : option (list Z)) (hostname_max : Z) (d : DnsState) :=
  dns_reverse_lookup namesrv slot_alloc receive_into ip hostname_out hostname_max d.

Definition trona_dns_cache_flush (d : DnsState) := dns_cache_flush namesrv slot_alloc receive_into d.

(** A refused name costs no request and yields no address. *)
Lemma dns_resolve_refused hostname d :
  name_refused hostname = true ->
  trona_dns_resolve hostname d = mret (0, d) /\ forall res, trona_dns_resolve_multi hostname res d = mret (-1, res, d).
Proof. intros E. unfold trona_dns_resolve, trona_dns_resolve_multi. by rewrite E. Qed.

(** The status of the second is 0 exactly when it stored an address. *)
Lemma dns_resolve_multi_status hostname res d p st res' d' q :
  trona_dns_resolve_multi hostname res d p = Some ((st, res', d'), q) -> name_refused hostname = false ->
  (st = 0 <-> exists r, res' = Some r /\ dns_count r <> 0) /\ (st = 0 \/ st = -1).
Proof.
  intros E Hn. unfold trona_dns_resolve_multi in E. rewrite Hn in E. destruct res as [r0|].
  - unfold mbind, mret in E. unfold M_bind, M_ret in E.
    destruct (dns_resolve_multi _ _ _ _ _ _) as [[[r d1] q1]|]; [|done]. cbv beta iota in E. injection E as <- <- <- <-.
    destruct (Z.eqb_spec (dns_count r) 0) as [Hc|Hc]; (split; [|by auto]); split.
    + done.
    + intros (r1 & [= <-] & ?). done.
    + intros _. by exists r.
    + done.
  - injection E as <- <- <- <-. split; [|by right]. split; [done|]. by intros (r & ? & _).
Qed.
End names.

(** ** Threads *)

Section threads.
Context `{Kernel} `{Slices} `{!Image Posix} `{!SigCalls} `{!Threads} (fuel : nat).

Definition PthreadAttr_default : PthreadAttr := mkAttr 0 0.
Definition PthreadAttr_new (stack_size detach_state : Z) : PthreadAttr := mkAttr stack_size detach_state.

(** The attributes are always the default ones (a null pointer). *)
Definition trona_pthread_create (thread_out : option Z) (start_fn arg : Z) : PT (Z * option Z) :=
  pthread_create fuel thread_out None start_fn arg.
Definition trona_pthread_join (reg thread : Z) (retval : option Z) : PT (Z * option Z) :=
  pthread_join fuel reg thread retval.
Definition trona_pthread_exit {A} (reg retval : Z) : PT A := pthread_exit fuel reg retval.
Definition trona_pthread_self (p : PProc) (reg : Z) : Z := pthread_self p reg.
Definition trona_pthread_detach (thread : Z) : PT Z := pthread_detach fuel thread.
(** The re-exports of [src/posix/tls.rs], and the hook it installs. *)
Definition posix_current_tls (p : PProc) (reg : Z) : option Z := current_tls p reg.
Definition posix_current_ipc_ctx (p : PProc) (reg : Z) : option Z := current_ipc_ctx p reg.
Definition posix_cancel_impl (turns : nat) (reg : Z) : PT unit := pthread_testcancel fuel turns reg.
Definition trona_init_tls (reg : Z) : PT unit := posix_init_main_thread_tls reg.
End threads.

(** A null attribute pointer is what a zeroed attribute asks for. *)
Lemma null_attributes `{Kernel} `{Slices} `{!Image Posix} `{!SigCalls} `{!Threads} fuel out start_fn arg :
  trona_pthread_create fuel out start_fn arg = pthread_create fuel out (Some PthreadAttr_default) start_fn arg.
Proof. reflexivity. Qed.
