(* ===== verification/Shim.v ===== *)
(** The private copy of the IPC layer kernel32.dll is linked with
    ([src/win32/trona.rs]): the constants it repeats and [call_ctx]. *)

From S2P Require Import Prelude Kernel.

Definition TRONA_OK : Z := 0.
Definition TRONA_INVALID_CAPABILITY : Z := 1.
Definition TRONA_INVALID_OPERATION : Z := 2.
Definition TRONA_INSUFFICIENT_RIGHTS : Z := 3.
Definition TRONA_INVALID_ARGUMENT : Z := 4.
Definition TRONA_OUT_OF_MEMORY : Z := 5.
Definition TRONA_NOT_FOUND : Z := 6.
Definition TRONA_BUSY : Z := 7.
Definition TRONA_ALREADY_EXISTS : Z := 8.
Definition TRONA_SLOT_OCCUPIED : Z := 0x18.
Definition TRONA_ALREADY_MAPPED : Z := 0x19.
Definition TRONA_ALREADY_BOUND : Z := 0x1A.
Definition SYS_CALL : Z := 2.
Definition SYS_YIELD : Z := 8.
Definition PM_EXIT : Z := 2.
Definition PM_GETPID : Z := 4.
Definition VFS_READ : Z := 2.
Definition VFS_WRITE : Z := 3.
Definition VFS_CLOSE : Z := 4.

Definition msginfo (label length caps : Z) : Z :=
  Z.lor (Z.lor (label << 12)%u64 (caps << 7)%u64) (Z.land length 0x7f).

(** [for i in 0..4 { caps[i] = 0 }] *)
Fixpoint clear_caps (n i : nat) (cs : list Z) : list Z :=
  match n with O => cs | S n' => clear_caps n' (S i) (<[i := 0]> cs) end.

Definition clear_send_caps_ctx (ctx : option IpcContext) : option IpcContext :=
  (fun c => mkCtx ((fun b => set_caps b (clear_caps 4 0 (caps b))) <$> ipc_buffer c) 0) <$> ctx.

Fixpoint copy_regs (n i : nat) (src dst : list Z) : list Z :=
  match n with
  | O => dst
  | S n' => copy_regs n' (S i) src (<[(6 + i)%nat := default 0 (src !! (4 + i)%nat)]> dst)
  end.

Definition write_overflow_ctx (ctx : option IpcContext) (m : TronaMsg) : option IpcContext :=
  let len := msg_length m in
  match ctx with
  | None => None
  | Some c =>
      if len <=? 4 then ctx
      else
        let n := Z.min (sat_sub len 4) 28 in
        Some (mkCtx ((fun b => set_msg b (copy_regs (Z.to_nat n) 0 (regs m) (msg b))) <$> ipc_buffer c)
                (send_cap_count c))
  end.

(** The context passed is the address of [__trona_ipc_ctx] in every call, so the
    fallback of the reply copy for a null context is not reached. *)
Definition call_ctx `{Kernel} (w : World) (ep : Z) (m : TronaMsg) (preply : option TronaMsg)
    : Z * option TronaMsg * World :=
  let at_reg (i : nat) := default 0 (regs m !! i) in
  let caps := match ctx w with None => 0 | Some c => send_cap_count c end in
  let info := msginfo (label m) (msg_length m) (as_u64 caps) in
  let w := mkWorld (trace w) (write_overflow_ctx (ctx w) m) in
  let '(r, w) := syscall w SYS_CALL ep info (at_reg 0%nat) (at_reg 1%nat) (at_reg 2%nat) (at_reg 3%nat) in
  let w := if caps >? 0 then mkWorld (trace w) (clear_send_caps_ctx (ctx w)) else w in
  let reply :=
    if error r =? 0 then
      match preply, buffer_of (ctx w) with
      | Some _, Some buf => Some (buffer_as_msg buf)
      | p, _ => p
      end
    else preply in
  (as_i32 (error r), reply, w).
