(* ===== verification/Win32.v ===== *)
(** The Win32 layer, kernel32.dll ([src/win32]): last-error codes ([error.rs]),
    console and handle functions ([console.rs]), process functions
    ([process.rs]), the entry of a PE program ([crt.rs]) and the start of
    the runtime ([trona.rs], whose IPC layer is file Shim).

    Its statics are the record [Win32] over the outside world [W]: the real one
    is that of file Kernel, reached through [Shim.call_ctx]; the functions are
    written against the interface [Transport] of file PosixClient, whose
    [t_call_once] is that call.  The buffers behind pointers are lists; [None] is
    a null pointer.  Strings are never null-terminated here. *)

From S2P Require Import Prelude Shim Consts Kernel Ipc PosixCall Protocol PosixClient PosixProc PosixFile Handle.

(** ** Error codes *)

Definition ERROR_SUCCESS : Z := 0.
Definition ERROR_INVALID_FUNCTION : Z := 1.
Definition ERROR_FILE_NOT_FOUND : Z := 2.
Definition ERROR_ACCESS_DENIED : Z := 5.
Definition ERROR_INVALID_HANDLE : Z := 6.
Definition ERROR_NOT_ENOUGH_MEMORY : Z := 8.
Definition ERROR_INVALID_PARAMETER : Z := 87.
Definition ERROR_ALREADY_EXISTS : Z := 183.
Definition ERROR_BUSY : Z := 170.

Definition W_TRUE : Z := 1.
Definition W_FALSE : Z := 0.

(** The arms of the match, in order. *)
Definition win32_arms : list (Z * Z) :=
  [(Shim.TRONA_OK, ERROR_SUCCESS); (Shim.TRONA_INVALID_CAPABILITY, ERROR_INVALID_HANDLE);
   (Shim.TRONA_INVALID_OPERATION, ERROR_INVALID_FUNCTION);
   (Shim.TRONA_INSUFFICIENT_RIGHTS, ERROR_ACCESS_DENIED);
   (Shim.TRONA_INVALID_ARGUMENT, ERROR_INVALID_PARAMETER);
   (Shim.TRONA_OUT_OF_MEMORY, ERROR_NOT_ENOUGH_MEMORY); (Shim.TRONA_NOT_FOUND, ERROR_FILE_NOT_FOUND);
   (Shim.TRONA_BUSY, ERROR_BUSY); (Shim.TRONA_ALREADY_EXISTS, ERROR_ALREADY_EXISTS);
   (Shim.TRONA_SLOT_OCCUPIED, ERROR_ALREADY_EXISTS); (Shim.TRONA_ALREADY_MAPPED, ERROR_ALREADY_EXISTS);
   (Shim.TRONA_ALREADY_BOUND, ERROR_BUSY)].

Fixpoint win32_arm (arms : list (Z * Z)) (e : Z) : Z :=
  match arms with
  | [] => ERROR_INVALID_FUNCTION
  | (pat, v) :: rest => if e =? pat then v else win32_arm rest e
  end.
Definition trona_to_win32_error (trona_err : Z) : Z := win32_arm win32_arms trona_err.

(** ** Console modes *)

Definition ENABLE_PROCESSED_INPUT : Z := 0x0001.
Definition ENABLE_LINE_INPUT : Z := 0x0002.
Definition ENABLE_ECHO_INPUT : Z := 0x0004.
Definition ENABLE_PROCESSED_OUTPUT : Z := 0x0001.
Definition ENABLE_WRAP_AT_EOL_OUTPUT : Z := 0x0002.
Definition DEFAULT_INPUT_MODE : Z := Z.lor (Z.lor ENABLE_PROCESSED_INPUT ENABLE_LINE_INPUT) ENABLE_ECHO_INPUT.
Definition DEFAULT_OUTPUT_MODE : Z := Z.lor ENABLE_PROCESSED_OUTPUT ENABLE_WRAP_AT_EOL_OUTPUT.

(** ** State *)

Record Win32 (W : Type) := mkWin32 {
  w_world : W;
  w_handles : HandleState;    (* HANDLE_TABLE *)
  w_error : Z;                (* LAST_ERROR *)
  w_input_mode : Z;           (* CONSOLE_INPUT_MODE *)
  w_output_mode : Z;          (* CONSOLE_OUTPUT_MODE *)
  w_srv_ep : Cap;             (* __win32srv_ep *)
  w_procmgr_ep : Cap;         (* __trona_cap_procmgr_ep *)
  w_vfs_ep : Cap;             (* __trona_cap_vfs_ep *)
}.
Arguments mkWin32 {W}.
Arguments w_world {W}.
Arguments w_handles {W}.
Arguments w_error {W}.
Arguments w_input_mode {W}.
Arguments w_output_mode {W}.
Arguments w_srv_ep {W}.
Arguments w_procmgr_ep {W}.
Arguments w_vfs_ep {W}.

Section setters.
Context {W : Type}.
Implicit Types s : Win32 W.

Definition put_world s (w : W) := mkWin32 w (w_handles s) (w_error s) (w_input_mode s) (w_output_mode s)
  (w_srv_ep s) (w_procmgr_ep s) (w_vfs_ep s).
Definition put_handles s (h : HandleState) := mkWin32 (w_world s) h (w_error s) (w_input_mode s) (w_output_mode s)
  (w_srv_ep s) (w_procmgr_ep s) (w_vfs_ep s).
Definition SetLastError (e : Z) s := mkWin32 (w_world s) (w_handles s) e (w_input_mode s)
  (w_output_mode s) (w_srv_ep s) (w_procmgr_ep s) (w_vfs_ep s).
Definition put_modes s (i o : Z) := mkWin32 (w_world s) (w_handles s) (w_error s) i o
  (w_srv_ep s) (w_procmgr_ep s) (w_vfs_ep s).
Definition GetLastError s : Z := w_error s.

Definition reset_console_modes s : Win32 W := put_modes s DEFAULT_INPUT_MODE DEFAULT_OUTPUT_MODE.
End setters.

(** The buffer page at [ipc_buffer_vaddr]; [None] when that is 0. *)
Definition kernel32_runtime_init (s : Win32 World) (buf : option IpcBuffer)
    (win32srv_ep cap_procmgr_ep cap_vfs_ep : Cap) : Win32 World :=
  let w := mkWorld (trace (w_world s)) (Some (mkCtx buf 0)) in
  let s := mkWin32 w (reset_handle_table (w_handles s)) (w_error s) (w_input_mode s) (w_output_mode s)
             win32srv_ep cap_procmgr_ep cap_vfs_ep in
  SetLastError ERROR_SUCCESS (reset_console_modes s).

(** ** Functions that call servers *)

Section win32.
Context `{T : Transport}.

(** [None]: an access outside a buffer, or a call that does not return. *)
Definition WM (A : Type) : Type := Win32 tw -> option (A * Win32 tw).
#[local] Instance WM_ret : MRet WM := fun A a s => Some (a, s).
#[local] Instance WM_bind : MBind WM := fun A B f m s => '(a, s') ← m s; f a s'.

Definition w_lift {A} (o : option A) : WM A := fun s => a ← o; Some (a, s).
Definition w_gets {A} (f : Win32 tw -> A) : WM A := fun s => Some (f s, s).
Definition w_mod (f : Win32 tw -> Win32 tw) : WM unit := fun s => Some ((), f s).
Definition w_call (ep : Win32 tw -> Cap) (m : TronaMsg) : WM (Z * TronaMsg) := fun s =>
  r ← t_call_once (w_world s) (ep s) m;
  let '(err, reply, w) := r in Some ((err, reply), put_world s w).

Definition set_error_return_false (e : Z) : WM Z := w_mod (SetLastError e) ≫= fun _ => mret W_FALSE.
Definition set_trona_error_return_false (e : Z) : WM Z := set_error_return_false (trona_to_win32_error e).
Definition clear_error : WM unit := w_mod (SetLastError ERROR_SUCCESS).

(** What the three file requests make of a failure. *)
Definition call_error (err : Z) (reply : TronaMsg) : Z :=
  if negb (err =? 0) then as_u64 err else label reply.

(** [while total < count]; a value, or the error ([inr]). *)
Fixpoint write_fd_loop (fuel : nat) (fd : Z) (buf : list Z) (count total : Z) : WM (Z + Z) :=
  match fuel with
  | O => fun _ => None
  | S fuel' =>
      if total <? count then
        let chunk := if count - total >? 144 then 144 else count - total in
        data ← w_lift (buf_bytes buf total chunk);
        r ← w_call w_vfs_ep (data_msg Shim.VFS_WRITE [as_u64 fd; chunk] data);
        let '(err, reply) := r in
        if failed err reply then mret (inr (call_error err reply))
        else
          let actual := reg reply 0 in
          let total := (total + actual)%u64 in
          if actual <? chunk then mret (inl total) else write_fd_loop fuel' fd buf count total
      else mret (inl total)
  end.
Definition vfs_write_fd (fuel : nat) (fd : Z) (buf : list Z) (count : Z) : WM (Z + Z) :=
  write_fd_loop fuel fd buf count 0.

(** [actual] bytes of the reply go to the buffer at [total]. *)
Fixpoint read_fd_loop (fuel : nat) (fd count total : Z) (buf : list Z) : WM ((Z + Z) * list Z) :=
  match fuel with
  | O => fun _ => None
  | S fuel' =>
      if total <? count then
        let chunk := if count - total >? 152 then 152 else count - total in
        r ← w_call w_vfs_ep (mk Shim.VFS_READ 2 [as_u64 fd; chunk]);
        let '(err, reply) := r in
        if failed err reply then mret (inr (call_error err reply), buf)
        else
          let actual := reg reply 0 in
          if actual =? 0 then mret (inl total, buf)
          else
            buf ← w_lift (bytes ← msg_bytes reply 1 actual; put buf total bytes);
            let total := (total + actual)%u64 in
            if actual <? chunk then mret (inl total, buf) else read_fd_loop fuel' fd count total buf
      else mret (inl total, buf)
  end.
Definition vfs_read_fd (fuel : nat) (fd : Z) (buf : list Z) (count : Z) : WM ((Z + Z) * list Z) :=
  read_fd_loop fuel fd count 0 buf.

Definition vfs_close_fd (fd : Z) : WM (unit + Z) :=
  r ← w_call w_vfs_ep (mk Shim.VFS_CLOSE 1 [as_u64 fd]);
  let '(err, reply) := r in
  mret (if failed err reply then inr (call_error err reply) else inl ()).

Definition GetStdHandle (n_std_handle : Z) : WM Z :=
  let h := std_handle_to_handle n_std_handle in
  (if h =? INVALID_HANDLE_VALUE then w_mod (SetLastError ERROR_INVALID_HANDLE) else mret ()) ≫= fun _ => mret h.

Definition is_vfs_fd (e : HandleEntry) : bool := match kind e with VfsFd => true | _ => false end.

Definition WriteConsoleA (fuel : nat) (h : Z) (lp_buffer : option (list Z)) (n : Z) (written : option Z)
    : WM (Z * option Z) :=
  match lp_buffer with
  | None => r ← set_error_return_false ERROR_INVALID_PARAMETER; mret (r, written)
  | Some buf =>
      o ← w_gets (fun s => lookup_handle (w_handles s) h);
      match o with
      | None => r ← set_error_return_false ERROR_INVALID_HANDLE; mret (r, written)
      | Some entry =>
          if negb (is_vfs_fd entry) then r ← set_error_return_false ERROR_INVALID_HANDLE; mret (r, written)
          else
            res ← vfs_write_fd fuel (vfs_fd entry) buf n;
            match res with
            | inr e => r ← set_trona_error_return_false e; mret (r, Ipc.store written 0)
            | inl v => clear_error ≫= fun _ => mret (W_TRUE, Ipc.store written (as_u32 v))
            end
      end
  end.

(** [ch as u8] below 128, a question mark otherwise. *)
Definition ascii_of (ch : Z) : Z := if ch <? 128 then as_u8 ch else 63.

Definition WriteConsoleW (fuel : nat) (h : Z) (lp_buffer : option (list Z)) (n : Z) (written : option Z)
    : WM (Z * option Z) :=
  match lp_buffer with
  | None => r ← set_error_return_false ERROR_INVALID_PARAMETER; mret (r, written)
  | Some buf =>
      let max := if n >? 256 then 256 else n in
      chars ← w_lift (buf_bytes buf 0 max);
      let ascii := map ascii_of chars in
      WriteConsoleA fuel h (Some (ascii ++ replicate (256 - length ascii) 0))
        (as_u32 (Z.of_nat (length ascii))) written
  end.

Definition ReadConsoleA (fuel : nat) (h : Z) (lp_buffer : option (list Z)) (n : Z) (nread : option Z)
    : WM (Z * option (list Z) * option Z) :=
  match lp_buffer with
  | None => r ← set_error_return_false ERROR_INVALID_PARAMETER; mret (r, None, nread)
  | Some buf =>
      o ← w_gets (fun s => lookup_handle (w_handles s) h);
      match o with
      | None => r ← set_error_return_false ERROR_INVALID_HANDLE; mret (r, Some buf, nread)
      | Some entry =>
          if negb (is_vfs_fd entry) then r ← set_error_return_false ERROR_INVALID_HANDLE; mret (r, Some buf, nread)
          else
            res ← vfs_read_fd fuel (vfs_fd entry) buf n;
            match res with
            | (inr e, buf) => r ← set_trona_error_return_false e; mret (r, Some buf, Ipc.store nread 0)
            | (inl v, buf) => clear_error ≫= fun _ => mret (W_TRUE, Some buf, Ipc.store nread (as_u32 v))
            end
      end
  end.

Definition GetConsoleMode (h : Z) (lp_mode : option Z) : WM (Z * option Z) :=
  match lp_mode with
  | None => r ← set_error_return_false ERROR_INVALID_PARAMETER; mret (r, None)
  | Some _ =>
      match handle_to_slot h with
      | None => r ← set_error_return_false ERROR_INVALID_HANDLE; mret (r, lp_mode)
      | Some slot =>
          mode ← w_gets (fun s => if (slot =? 0)%nat then w_input_mode s else w_output_mode s);
          clear_error ≫= fun _ => mret (W_TRUE, Some mode)
      end
  end.

Definition SetConsoleMode (h dw_mode : Z) : WM Z :=
  match handle_to_slot h with
  | None => set_error_return_false ERROR_INVALID_HANDLE
  | Some slot =>
      w_mod (fun s => if (slot =? 0)%nat then put_modes s dw_mode (w_output_mode s)
                      else put_modes s (w_input_mode s) dw_mode) ≫= fun _ =>
      clear_error ≫= fun _ => mret W_TRUE
  end.

Definition CloseHandle (h : Z) : WM Z :=
  o ← w_gets (fun s => lookup_handle (w_handles s) h);
  match o with
  | None => set_error_return_false ERROR_INVALID_HANDLE
  | Some entry =>
      res ← (if is_vfs_fd entry && (vfs_fd entry >=? 0) then vfs_close_fd (vfs_fd entry) else mret (inl ()));
      match res with
      | inr e => set_trona_error_return_false e
      | inl _ =>
          closed ← (fun s => let '(b, t) := close_handle (w_handles s) h in Some (b, put_handles s t));
          if (closed : bool) then clear_error ≫= fun _ => mret W_TRUE
          else set_error_return_false ERROR_INVALID_HANDLE
      end
  end.

(** ** Processes *)

Definition CURRENT_PROCESS_PSEUDO_HANDLE : Z := -1.
Definition GetCurrentProcess : Z := CURRENT_PROCESS_PSEUDO_HANDLE.

(** The request; what follows is a loop that yields for ever.  The result is the
    state in which the process waits to be removed. *)
Definition ExitProcess (u_exit_code : Z) (s : Win32 tw) : option (Win32 tw) :=
  snd <$> w_call w_procmgr_ep (mk Shim.PM_EXIT 1 [u_exit_code]) s.

Definition GetCurrentProcessId : WM Z :=
  r ← w_call w_procmgr_ep (mk Shim.PM_GETPID 0 []);
  let '(err, reply) := r in
  mret (if (err =? 0) && (label reply =? Shim.TRONA_OK) then as_u32 (reg reply 0) else 0).

Definition win32_crt_init (s : Win32 tw) : Win32 tw := put_handles s (init_handle_table (w_handles s)).

(** [entry] is the function at the image's entry point; its result is an [i32]. *)
Definition win32_crt_entry (entry : Win32 tw -> Z * Win32 tw) (s : Win32 tw) : option (Win32 tw) :=
  let '(exit_code, s) := entry (win32_crt_init s) in ExitProcess (as_u32 exit_code) s.
End win32.
