(* ===== verification/Win32Theorems.v ===== *)
(** The Win32 layer: its private IPC copy is the substrate's, and the console
    functions refine the abstract file server of file FileSpec. *)

From stdpp Require Import gmap.
From S2P Require Import Prelude Shim Consts Kernel Ipc PosixCall Protocol PosixClient PosixProc PosixFile FileSpec Handle Win32.

(** ** The IPC layer *)

Lemma shim_overflow_eq c m :
  0 <= msg_length m < 2 ^ 32 -> Shim.write_overflow_ctx c m = write_overflow_ctx c m.
Proof.
  intros Hl. unfold Shim.write_overflow_ctx, write_overflow_ctx, as_u32. rewrite wrap_small by lia.
  destruct c as [c|]; [|done]. unfold sat_sub.
  destruct (Z.gtb_spec (msg_length m) 32), (Z.leb_spec (msg_length m) 4); try lia;
    destruct (Z.ltb_spec (msg_length m) 4); try lia; try done.
  by rewrite Z.min_r by lia.
Qed.

(** kernel32's private copy of the IPC layer is the substrate's.  For every
    message of fewer than 2^32 words and every kernel, its [call_ctx] issues the
    same system call, gives the same status and reply and leaves the same
    context; and each constant it repeats has the value of the original. *)
Theorem shim_call_equiv `{Kernel} w ep m preply :
  0 <= msg_length m < 2 ^ 32 ->
  Shim.call_ctx w ep m preply = call_ctx w ep m preply /\
  [Shim.TRONA_OK; Shim.TRONA_INVALID_CAPABILITY; Shim.TRONA_INVALID_OPERATION; Shim.TRONA_INSUFFICIENT_RIGHTS;
   Shim.TRONA_INVALID_ARGUMENT; Shim.TRONA_OUT_OF_MEMORY; Shim.TRONA_NOT_FOUND; Shim.TRONA_BUSY;
   Shim.TRONA_ALREADY_EXISTS; Shim.TRONA_SLOT_OCCUPIED; Shim.TRONA_ALREADY_MAPPED; Shim.TRONA_ALREADY_BOUND;
   Shim.SYS_CALL; Shim.SYS_YIELD; Shim.PM_EXIT; Shim.PM_GETPID; Shim.VFS_READ; Shim.VFS_WRITE; Shim.VFS_CLOSE] =
  [TRONA_OK; TRONA_INVALID_CAPABILITY; TRONA_INVALID_OPERATION; TRONA_INSUFFICIENT_RIGHTS;
   TRONA_INVALID_ARGUMENT; TRONA_OUT_OF_MEMORY; TRONA_NOT_FOUND; TRONA_BUSY;
   TRONA_ALREADY_EXISTS; TRONA_SLOT_OCCUPIED; TRONA_ALREADY_MAPPED; TRONA_ALREADY_BOUND;
   SYS_CALL; SYS_YIELD; PM_EXIT; PM_GETPID; VFS_READ; VFS_WRITE; VFS_CLOSE].
Proof.
  intros Hl. split; [|reflexivity]. unfold Shim.call_ctx, call_ctx, transmit, with_ctx.
  rewrite shim_overflow_eq by done.
  change (Shim.msginfo (label m) (msg_length m)) with (msginfo (label m) (msg_length m)).
  change (match ctx w with None => 0 | Some c => send_cap_count c end) with (caps_of (ctx w)).
  change Shim.SYS_CALL with SYS_CALL.
  destruct (syscall _ _ _ _ _ _ _ _) as [r w1].
  assert (Hclr : Shim.clear_send_caps_ctx (ctx w1) = clear_send_caps_ctx (ctx w1)) by (by destruct (ctx w1)).
  rewrite Hclr. unfold store_msg.
  destruct (error r =? 0); [|done]. destruct (caps_of (ctx w) >? 0).
  - destruct (buffer_of _); [by destruct preply|by destruct preply].
  - destruct (buffer_of _); [by destruct preply|by destruct preply].
Qed.

Lemma shim_call_equiv_witness :
  @Shim.call_ctx (DeliveringKernel sample_msg 9) sample_world 5 sample_msg (Some TronaMsg_zeroed) =
  @call_ctx (DeliveringKernel sample_msg 9) sample_world 5 sample_msg (Some TronaMsg_zeroed).
Proof. apply (@shim_call_equiv (DeliveringKernel sample_msg 9)). cbn. lia. Defined.

(** ** File requests *)

(** The transport as the Win32 layer sees it: one attempt, no restarts. *)
Definition once (T : Transport) : Transport := {|
  tw := @tw T;
  t_call _ := @t_call_once T;
  t_call_once := @t_call_once T;
  t_syscall := @t_syscall T;
  t_stage := @t_stage T;
  t_restart _ := false;
  t_read := @t_read T;
  t_write := @t_write T;
|}.

Section console.
Context (T : Transport) (vfs : Cap) `{S : !FileServer (T := once T) vfs}.
Implicit Types s : Win32 (@tw T).

Local Abbreviation cfile := (@fs_file (once T) vfs S).
Local Abbreviation changed := (updated (T := once T) cfile (@fs_budget (once T) vfs S)).

Lemma changed_refl w fd f : cfile w fd = Some f -> changed w w fd f.
Proof. intros; split_and!; done. Qed.

Lemma changed_trans w w1 w2 fd f1 f2 : changed w w1 fd f1 -> changed w1 w2 fd f2 -> changed w w2 fd f2.
Proof. intros (_ & H1 & ?) (H2 & H3 & ?). split_and!; [done| |lia]. intros fd' Hne. by rewrite H3, H1. Qed.

Lemma put_world_twice s w w' : put_world (put_world s w) w' = put_world s w'.
Proof. done. Qed.

Lemma put_world_self s : put_world s (w_world s) = s.
Proof. by destruct s. Qed.

Lemma bind_w_call {A} ep m (k : Z * TronaMsg -> WM A) s err reply w :
  t_call_once (w_world s) (ep s) m = Some (err, reply, w) ->
  WM_bind _ _ k (w_call ep m) s = k (err, reply) (put_world s w).
Proof. intros E. unfold WM_bind, w_call. by rewrite E. Qed.

(** A transfer: [k] bytes were moved; all [count] of them or what the last reply
    said, unless an error ended it. *)
Definition result (count total : Z) (k : nat) (res : Z + Z) : Prop :=
  total + Z.of_nat k <= count /\ match res with
    | inl v => v = total + Z.of_nat k
    | inr e => trona_to_win32_error e <> ERROR_SUCCESS
    end.

(** A failure is never reported as success. *)
Lemma call_error_code err reply :
  status err -> failed err reply = true -> trona_to_win32_error (call_error err reply) <> ERROR_SUCCESS.
Proof.
  intros Hs Hf. assert (call_error err reply <> 0) as Hne.
  { unfold call_error, failed, status, TRONA_OK in *. destruct (Z.eqb_spec err 0); cbn [negb orb] in *; [by bprop|].
    unfold as_u64, wrap. intros E. apply Z.mod_divide in E as [q E]; lia. }
  unfold trona_to_win32_error, win32_arms. cbn [win32_arm].
  destruct (Z.eqb_spec (call_error err reply) Shim.TRONA_OK); [done|].
  repeat (case_if; [done|]). done.
Qed.

Lemma write_fd_spec fuel : forall s fd buf count total f,
  w_vfs_ep s = vfs -> cfile (w_world s) (as_u64 fd) = Some f -> (f_pos f <= length (f_data f))%nat ->
  Forall byte buf -> 0 <= total <= count -> count <= Z.of_nat (length buf) -> count < 2 ^ 63 ->
  count - total <= 144 * (Z.of_nat fuel - 1) ->
  exists res k w', write_fd_loop fuel fd buf count total s = Some (res, put_world s w') /\
    result count total k res /\
    changed (w_world s) w' (as_u64 fd) (overwrite f (take k (drop (Z.to_nat total) buf))) /\
    (FullService (T := once T) vfs -> res = inl count).
Proof.
  induction fuel as [|fuel IH]; intros s fd buf count total f Hep Hf Hpos Hby Ht Hb Hc Hfuel; [lia|].
  cbn [write_fd_loop]. destruct (Z.ltb_spec total count) as [Hlt|Hge].
  2:{ exists (inl total), O, (w_world s). rewrite put_world_self. split; [done|].
      split; [split; [lia|cbn; lia]|]. split; [|intros _; by replace total with count by lia].
      rewrite take_0, overwrite_nil. by apply changed_refl. }
  set (chunk := if count - total >? 144 then 144 else count - total).
  assert (0 < chunk <= 144 /\ chunk <= count - total /\ (chunk = 144 \/ chunk = count - total)) as Hchunk
    by (unfold chunk; case_if; lia).
  set (data := take (Z.to_nat chunk) (drop (Z.to_nat total) buf)).
  assert (length data = Z.to_nat chunk) as Hlen by (unfold data; rewrite length_take, length_drop; lia).
  unfold w_lift. rewrite buf_bytes_spec by lia. fold data. unfold mbind at 1, WM_bind at 1. cbn [mbind option_bind].
  pose (m := data_msg Shim.VFS_WRITE [as_u64 fd; chunk] data).
  assert (reg m 0 = as_u64 fd /\ reg m 1 = chunk) as [Hm0 Hm1] by (split; apply reg_data_msg; cbn; lia).
  assert (msg_bytes m 2 (reg m 1) = Some data) as Hbytes.
  { rewrite Hm1, <- (Z2Nat.id chunk), <- Hlen by lia. apply data_msg_bytes; [|cbn; lia].
    unfold data. by apply Forall_take, Forall_drop. }
  destruct (@fs_write (once T) vfs S (w_world s) m f data eq_refl ltac:(by rewrite Hm0) Hpos Hbytes)
    as (err & reply & w' & Hcall & Hst & Hans).
  cbn [t_call once] in Hcall. rewrite Hm0, Hm1 in Hans.
  assert (FullService (T := once T) vfs -> failed err reply = false /\ reg reply 0 = chunk) as Hfull.
  { intros Hs. rewrite <- Hm1. refine (@full_write (once T) vfs S Hs (w_world s) m f data err reply w' eq_refl _ Hbytes Hcall).
    by rewrite Hm0. }
  unfold mbind. rewrite (bind_w_call _ _ _ _ err reply w') by (by rewrite Hep).
  destruct (failed err reply) eqn:Hfail.
  - destruct Hans as [Hupd _]. exists (inr (call_error err reply)), O, w'. split; [done|].
    split; [split; [lia|by apply call_error_code]|]. split; [by rewrite take_0, overwrite_nil|by intros [[=] _]%Hfull].
  - destruct Hans as (k & Hk & Hkn & Hkl & Hupd & _). rewrite Hk, wrap_small by lia.
    assert (take k data = take k (drop (Z.to_nat total) buf)) as Hdk
      by (unfold data; rewrite take_take; f_equal; lia).
    destruct (Z.ltb_spec (Z.of_nat k) chunk) as [Hshort|Hfullk].
    + exists (inl (total + Z.of_nat k)), k, w'. split; [done|]. split; [split; [lia|done]|]. split; [by rewrite <- Hdk|].
      intros [_ Hm]%Hfull. lia.
    + destruct (IH (put_world s w') fd buf count (total + Z.of_nat k) (overwrite f (take k data)))
        as (res & n & w'' & Hrun & [Hn Hres] & Hup & Hfl); [done|apply Hupd|by apply overwrite_pos|done|lia..|].
      exists res, (k + n)%nat, w''. split; [exact Hrun|]. split; [split; [lia|by destruct res; cbn in Hres |- *; [lia|]]|]. split; [|done].
      { rewrite overwrite_overwrite in Hup by done.
        rewrite take_take_drop, drop_drop, <- Hdk. replace (Z.to_nat total + k)%nat with (Z.to_nat (total + Z.of_nat k)) by lia.
        by eapply changed_trans. }
Qed.
Lemma read_fd_spec fuel : forall s fd count total buf f,
  w_vfs_ep s = vfs -> cfile (w_world s) (as_u64 fd) = Some f ->
  0 <= total <= count -> count <= Z.of_nat (length buf) -> count < 2 ^ 63 ->
  count - total <= 152 * (Z.of_nat fuel - 1) ->
  exists res k w', read_fd_loop fuel fd count total buf s
      = Some ((res, splice buf (Z.to_nat total) (take k (rest f))), put_world s w') /\
    result count total k res /\ (k <= length (rest f))%nat /\
    changed (w_world s) w' (as_u64 fd) (advance f k) /\
    (FullService (T := once T) vfs -> res = inl (total + Z.min (count - total) (Z.of_nat (length (rest f))))).
Proof.
  induction fuel as [|fuel IH]; intros s fd count total buf f Hep Hf Ht Hb Hc Hfuel; [lia|].
  assert (Hstop : forall w', changed (w_world s) w' (as_u64 fd) f ->
    splice buf (Z.to_nat total) (take 0 (rest f)) = buf /\ changed (w_world s) w' (as_u64 fd) (advance f 0)).
  { intros w' Hu. rewrite take_0, splice_nil, advance_0. done. }
  cbn [read_fd_loop]. destruct (Z.ltb_spec total count) as [Hlt|Hge].
  2:{ destruct (Hstop (w_world s) ltac:(by apply changed_refl)) as [E Hu].
      exists (inl total), O, (w_world s). rewrite put_world_self, E. split; [done|].
      split; [split; [lia|cbn; lia]|]. split; [lia|]. split; [done|]. intros _. f_equal. lia. }
  set (chunk := if count - total >? 152 then 152 else count - total).
  assert (0 < chunk <= 152 /\ chunk <= count - total /\ (chunk = 152 \/ chunk = count - total)) as Hchunk
    by (unfold chunk; case_if; lia).
  pose (m := mk Shim.VFS_READ 2 [as_u64 fd; chunk]).
  destruct (@fs_read (once T) vfs S (w_world s) m f eq_refl Hf ltac:(cbn; lia)) as (err & reply & w' & Hcall & Hst & Hans).
  assert (FullService (T := once T) vfs -> failed err reply = false /\
            reg reply 0 = Z.min chunk (Z.of_nat (length (rest f)))) as Hfull.
  { intros Hs. exact (@full_read (once T) vfs S Hs (w_world s) m f err reply w' eq_refl Hf ltac:(cbn; lia) Hcall). }
  cbn [t_call once] in Hcall. unfold mbind at 1. rewrite (bind_w_call _ _ _ _ err reply w') by (by rewrite Hep).
  destruct (failed err reply) eqn:Hfail.
  - destruct Hans as [Hupd _]. destruct (Hstop w' Hupd) as [E Hu].
    exists (inr (call_error err reply)), O, w'. rewrite E. split; [done|].
    split; [split; [lia|by apply call_error_code]|]. split; [lia|]. split; [done|]. by intros [[=] _]%Hfull.
  - destruct Hans as (k & Hk & Hkn & [Hka Hk0] & Hupd & Hdata).
    change (reg m 0) with (as_u64 fd) in *. change (reg m 1) with chunk in *. rewrite Hk.
    destruct (Z.eqb_spec (Z.of_nat k) 0) as [E0|E0].
    { replace k with O in Hupd by lia. destruct Hk0 as [?|Hrest]; [lia|lia|].
      rewrite advance_0 in Hupd. destruct (Hstop w' Hupd) as [E Hu].
      exists (inl total), O, w'. rewrite E. split; [done|]. split; [split; [lia|cbn; lia]|]. split; [lia|].
      split; [done|]. intros _. rewrite Hrest. cbn. f_equal. lia. }
    assert (length (take k (rest f)) = k) as Hlk by (rewrite length_take; lia).
    unfold w_lift. rewrite Hdata. unfold mbind at 1, WM_bind at 1. cbn [mbind option_bind].
    rewrite put_splice by lia. cbn [option_bind mbind]. rewrite wrap_small by lia.
    destruct (Z.ltb_spec (Z.of_nat k) chunk) as [Hshort|Hfullk].
    + exists (inl (total + Z.of_nat k)), k, w'. split; [done|]. split; [split; [lia|done]|]. split; [done|].
      split; [done|]. intros [_ Hm]%Hfull. f_equal. lia.
    + destruct (IH (put_world s w') fd count (total + Z.of_nat k) (splice buf (Z.to_nat total) (take k (rest f))) (advance f k))
        as (res & n & w'' & Hrun & [Hn Hres] & Hna & Hup & Hfl);
        [done|apply Hupd|lia|rewrite length_splice; lia|lia|lia|].
      rewrite rest_advance, ?length_drop in *. exists res, (k + n)%nat, w''. split.
      { rewrite Hrun. do 3 f_equal. rewrite take_take_drop, Z2Nat.inj_add, Nat2Z.id by lia.
        rewrite <- Hlk at 2. rewrite splice_splice by lia. done. }
      split; [split; [lia|by destruct res; cbn in Hres |- *; [lia|]]|]. split; [lia|].
      split; [rewrite advance_advance in Hup; by eapply changed_trans|].
      intros Hs. rewrite (Hfl Hs). f_equal. lia.
Qed.
(** What a console transfer of at most [n] characters comes to: [k] of them were
    moved and the rest of the state, handles and modes included, is as before;
    the result is TRUE with [k] in the caller's cell, or FALSE with 0 there and
    an error code. *)
Definition transferred s (n : Z) (cell : option Z) (moved : nat -> @tw T -> Prop) (r : Z) (cell' : option Z) s' : Prop :=
  exists k w' e, s' = SetLastError e (put_world s w') /\ Z.of_nat k <= n /\ moved k w' /\
    ((r = W_TRUE /\ e = ERROR_SUCCESS /\ cell' = Ipc.store cell (Z.of_nat k)) \/
     (r = W_FALSE /\ e <> ERROR_SUCCESS /\ cell' = Ipc.store cell 0)).

Lemma write_console_a fuel h buf n cell s e f :
  w_vfs_ep s = vfs -> lookup_handle (w_handles s) h = Some e -> kind e = VfsFd ->
  cfile (w_world s) (as_u64 (vfs_fd e)) = Some f -> (f_pos f <= length (f_data f))%nat -> Forall byte buf ->
  0 <= n <= Z.of_nat (length buf) -> n < 2 ^ 32 -> n <= 144 * (Z.of_nat fuel - 1) ->
  exists r cell' s', WriteConsoleA fuel h (Some buf) n cell s = Some ((r, cell'), s') /\
    transferred s n cell (fun k w' => changed (w_world s) w' (as_u64 (vfs_fd e)) (overwrite f (take k buf))) r cell' s' /\
    (FullService (T := once T) vfs -> r = W_TRUE /\ cell' = Ipc.store cell n).
Proof.
  intros Hep Hl Hk Hf Hpos Hby Hn Hmax Hfuel.
  destruct (write_fd_spec fuel s (vfs_fd e) buf n 0 f) as (res & k & w' & Hrun & [Hkn Hres] & Hup & Hfull);
    [done|done|done|done|lia..|].
  unfold WriteConsoleA, w_gets, mbind, WM_bind. cbn [mbind option_bind]. rewrite Hl. unfold is_vfs_fd. rewrite Hk. cbn [negb].
  unfold vfs_write_fd. rewrite Hrun. cbn [mbind option_bind].
  destruct res as [v|err]; cbn in Hres; eexists _, _, _; (split; [reflexivity|]).
  - subst v. rewrite Z.add_0_l in *. unfold as_u32; rewrite wrap_small by lia. split.
    + exists k, w', ERROR_SUCCESS. split_and!; [done|lia|done|by left].
    + intros Hs. specialize (Hfull Hs). injection Hfull as ->. done.
  - split.
    + exists k, w', (trona_to_win32_error err). split_and!; [done|lia|done|by right].
    + intros Hs. by specialize (Hfull Hs).
Qed.

(** C29: writing to the console refines the file server.  On an open handle,
    [WriteConsoleA] and [WriteConsoleW] return for any failures and short
    replies of the server, and have written exactly the first [k] characters of
    the text at the handle's cursor, nothing else; either they return TRUE and
    report [k], or they return FALSE with a non-zero last error and report 0
    (also when characters had been written before the error).  The text of
    [WriteConsoleW] is at most 256 characters, the ones from 128 on replaced by
    question marks.  A server that takes all it is given has all of the text. *)
Theorem console_write_spec fuel h buf n cell s e f
    (Hep : w_vfs_ep s = vfs) (Hopen : lookup_handle (w_handles s) h = Some e) (Hkind : kind e = VfsFd)
    (Hfile : cfile (w_world s) (as_u64 (vfs_fd e)) = Some f) (Hpos : (f_pos f <= length (f_data f))%nat)
    (Hn : 0 <= n <= Z.of_nat (length buf)) (Hmax : n < 2 ^ 32) (Hfuel : n <= 144 * (Z.of_nat fuel - 1))
    (Hchars : Forall (fun c => 0 <= c < 2 ^ 16) buf) :
  (Forall byte buf ->
   exists r cell' s', WriteConsoleA fuel h (Some buf) n cell s = Some ((r, cell'), s') /\
     transferred s n cell (fun k w' => changed (w_world s) w' (as_u64 (vfs_fd e)) (overwrite f (take k buf))) r cell' s' /\
     (FullService (T := once T) vfs -> r = W_TRUE /\ cell' = Ipc.store cell n)) /\
  (let text := map (fun c => if c <? 128 then c else 63) (take 256 (take (Z.to_nat n) buf)) in
   exists r cell' s', WriteConsoleW fuel h (Some buf) n cell s = Some ((r, cell'), s') /\
     transferred s (Z.of_nat (length text)) cell
       (fun k w' => changed (w_world s) w' (as_u64 (vfs_fd e)) (overwrite f (take k text))) r cell' s' /\
     (FullService (T := once T) vfs -> r = W_TRUE /\ cell' = Ipc.store cell (Z.of_nat (length text)))).
Proof.
  split; [intros Hby; by apply write_console_a|]. cbv zeta.
  set (mx := if n >? 256 then 256 else n).
  assert (Hmx : 0 <= mx <= 256 /\ mx <= n /\ (mx = 256 \/ mx = n)) by (unfold mx; case_if; lia).
  assert (Etake : take 256 (take (Z.to_nat n) buf) = take (Z.to_nat mx) buf).
  { rewrite take_take. f_equal. lia. }
  rewrite Etake. set (chars := take (Z.to_nat mx) buf).
  assert (Elen : length chars = Z.to_nat mx) by (unfold chars; rewrite length_take; lia).
  assert (Hc16 : Forall (fun c => 0 <= c < 2 ^ 16) chars) by (by apply Forall_take).
  assert (Eascii : map ascii_of chars = map (fun c => if c <? 128 then c else 63) chars).
  { apply map_ext_in. intros c Hc. rewrite Forall_forall in Hc16. apply list_elem_of_In, Hc16 in Hc.
    unfold ascii_of, as_u8. destruct (Z.ltb_spec c 128); [|done]. by rewrite wrap_small by lia. }
  set (text := map (fun c => if c <? 128 then c else 63) chars) in *.
  assert (Etext : length text = Z.to_nat mx) by (unfold text; by rewrite length_map).
  destruct (write_console_a fuel h (text ++ replicate (256 - length text) 0) (Z.of_nat (length text)) cell s e f)
    as (r & cell' & s' & Hrun & (k & w' & er & Hs & Hk & Hm & Hres) & Hfull); try done.
  - apply Forall_app. split; [|apply Forall_replicate; unfold byte; lia].
    unfold text. apply Forall_map, Forall_forall. intros c Hc. rewrite Forall_forall in Hc16. apply Hc16 in Hc.
    cbn. unfold byte. destruct (Z.ltb_spec c 128); lia.
  - rewrite length_app. lia.
  - lia.
  - lia.
  - exists r, cell', s'. split.
    { unfold WriteConsoleW. fold mx. unfold w_lift. rewrite buf_bytes_spec by lia.
      rewrite drop_0. fold chars. unfold mbind, WM_bind. cbn [mbind option_bind]. cbv zeta. rewrite Eascii.
      unfold as_u32. rewrite (wrap_small 32) by lia. exact Hrun. }
    split; [|done]. exists k, w', er. split_and!; try done.
    rewrite take_app_le in Hm by lia. exact Hm.
Qed.

(** Reading from the console refines the file server.  On an open handle,
    [ReadConsoleA] returns for any failures and short replies of the server, and
    has moved the next [k] bytes of the file to the start of the buffer, the
    rest of which is as before; either it returns TRUE and reports [k], or it
    returns FALSE with a non-zero last error and reports 0.  A server that
    delivers all it has makes it read up to [n] bytes. *)
Theorem console_read_spec fuel h buf n cell s e f
    (Hep : w_vfs_ep s = vfs) (Hopen : lookup_handle (w_handles s) h = Some e) (Hkind : kind e = VfsFd)
    (Hfile : cfile (w_world s) (as_u64 (vfs_fd e)) = Some f)
    (Hn : 0 <= n <= Z.of_nat (length buf)) (Hmax : n < 2 ^ 32) (Hfuel : n <= 152 * (Z.of_nat fuel - 1)) :
  exists r k cell' s', ReadConsoleA fuel h (Some buf) n cell s
      = Some ((r, Some (take k (rest f) ++ drop k buf), cell'), s') /\
    transferred s n cell (fun k' w' => k' = k /\ (k <= length (rest f))%nat /\
      changed (w_world s) w' (as_u64 (vfs_fd e)) (advance f k)) r cell' s' /\
    (FullService (T := once T) vfs -> r = W_TRUE /\ Z.of_nat k = Z.min n (Z.of_nat (length (rest f)))).
Proof.
  destruct (read_fd_spec fuel s (vfs_fd e) n 0 buf f) as (res & k & w' & Hrun & [Hkn Hres] & Hka & Hup & Hfull);
    [done|done|lia..|].
  assert (Esp : splice buf (Z.to_nat 0) (take k (rest f)) = take k (rest f) ++ drop k buf).
  { unfold splice. cbn [Z.to_nat take app Nat.add]. rewrite length_take, Nat.min_l by lia. done. }
  rewrite Esp in Hrun.
  unfold ReadConsoleA, w_gets, mbind, WM_bind. cbn [mbind option_bind]. rewrite Hopen. unfold is_vfs_fd. rewrite Hkind. cbn [negb].
  unfold vfs_read_fd. rewrite Hrun. cbn [mbind option_bind].
  destruct res as [v|err]; cbn in Hres; eexists _, k, _, _; (split; [reflexivity|]).
  - subst v. rewrite Z.add_0_l in *. split.
    + exists k, w', ERROR_SUCCESS. unfold as_u32. rewrite wrap_small by lia. split_and!; [done|lia|done|done|done|by left].
    + intros Hs. specialize (Hfull Hs). injection Hfull as Ev. split; [done|lia].
  - split.
    + exists k, w', (trona_to_win32_error err). split_and!; [done|lia|done|done|done|by right].
    + intros Hs. by specialize (Hfull Hs).
Qed.
End console.

(** ** Closing *)

(** The request leaves the tables alone. *)
Lemma close_fd_tables `{T : Transport} fd (s s1 : Win32 tw) res :
  vfs_close_fd fd s = Some (res, s1) -> exists w, s1 = put_world s w.
Proof.
  unfold vfs_close_fd, mbind, WM_bind, w_call.
  destruct (t_call_once _ _ _) as [[[err reply] w]|]; cbn; intros E; [|done]. injection E as <- <-. by exists w.
Qed.

(** [CloseHandle] either returns FALSE and leaves every handle as it was, or
    returns TRUE and has closed exactly the given handle, which was open, the
    server having accepted to close its descriptor. *)
Lemma CloseHandle_spec `{T : Transport} h (s : Win32 tw) r s' :
  table_wf (w_handles s) -> handle_range h -> CloseHandle h s = Some (r, s') ->
  (r = W_FALSE /\ w_handles s' = w_handles s) \/
  (r = W_TRUE /\ w_error s' = ERROR_SUCCESS /\ exists e, lookup_handle (w_handles s) h = Some e /\
   (forall h', handle_range h' ->
      lookup_handle (w_handles s') h' = if decide (h' = h) then None else lookup_handle (w_handles s) h') /\
   (is_vfs_fd e = true -> 0 <= vfs_fd e -> exists s1, vfs_close_fd (vfs_fd e) s = Some (inl (), s1))).
Proof.
  intros Hw Hr Hrun. pose proof (close_handle_spec (w_handles s) h Hw Hr) as Hcl.
  unfold CloseHandle, w_gets, mbind at 1, WM_bind at 1 in Hrun. cbn [mbind option_bind] in Hrun.
  destruct (lookup_handle (w_handles s) h) as [e|] eqn:El; [|left; by injection Hrun as <- <-].
  unfold mbind at 1, WM_bind at 1 in Hrun.
  match type of Hrun with context [(if ?b then ?x else ?y) s] => destruct ((if b then x else y) s) as [[res s1]|] eqn:Eres; [|done] end.
  assert (Hs1 : exists w, s1 = put_world s w).
  { case_if; [by eapply close_fd_tables|]. injection Eres as _ <-. exists (w_world s). by rewrite put_world_self. }
  destruct Hs1 as [w ->]. cbn [mbind option_bind] in Hrun. destruct res as [[]|err]; [|left; by injection Hrun as <- <-].
  unfold mbind at 1, WM_bind at 1 in Hrun. cbn [w_handles put_world] in Hrun.
  destruct (close_handle (w_handles s) h) as [[] t]; cbn in Hrun; injection Hrun as <- <-.
  - right. split; [done|]. split; [done|]. exists e. split; [done|]. split; [apply Hcl|].
    intros Hv Hfd. rewrite Hv, (proj2 (Z.geb_le _ _)) in Eres by lia. by eexists.
  - exfalso. destruct Hcl as (_ & Hiff & _). assert (false = true) by (apply Hiff; by eexists). done.
Qed.

(** ** A program with an open console *)

#[local] Instance once_server (vfs : Cap) : FileServer (T := once memfs_transport) vfs := memfs_server vfs.
#[local] Instance once_full (vfs : Cap) : FullService (T := once memfs_transport) vfs := memfs_full vfs.

Definition tty : file := mkFile [72; 105; 10] 1.
Definition toy_win32 : Win32 memfs :=
  mkWin32 (mkMemFs {[ 1 := tty ]} []) (reset_handle_table HandleState_static) 0 DEFAULT_INPUT_MODE
    DEFAULT_OUTPUT_MODE 9 3 5.

Lemma console_write_spec_witness :
  exists s', @WriteConsoleW memfs_transport 3 8 (Some [72; 0x263A; 33]) 3 (Some 0) toy_win32 = Some ((W_TRUE, Some 3), s') /\
    mem_file (w_world s') 1 = Some (mkFile [72; 72; 63; 33] 4).
Proof.
  destruct (console_write_spec memfs_transport 5 3 8 [72; 0x263A; 33] 3 (Some 0) toy_win32 (mkHandle VfsFd 1 0) tty)
    as [_ HW].
  - reflexivity.
  - vm_compute. reflexivity.
  - reflexivity.
  - vm_compute. reflexivity.
  - cbn. lia.
  - cbn. lia.
  - lia.
  - lia.
  - repeat constructor; lia.
  - destruct HW as (r & c & s' & Hrun & (k & w' & e & -> & Hk & Hm & Hres) & Hfull).
    destruct (Hfull (once_full 5)) as [-> ->]. exists (SetLastError e (put_world toy_win32 w')).
    split; [exact Hrun|].
    destruct Hres as [(_ & _ & Hc)|(? & _)]; [|discriminate].
    assert (k = 3%nat) as -> by (cbn in Hc; injection Hc; lia).
    exact (proj1 Hm).
Defined.

Lemma console_read_spec_witness :
  exists s', @ReadConsoleA memfs_transport 3 8 (Some [0; 0; 0; 0]) 4 (Some 0) toy_win32
    = Some ((W_TRUE, Some [105; 10; 0; 0], Some 2), s').
Proof.
  destruct (console_read_spec memfs_transport 5 3 8 [0; 0; 0; 0] 4 (Some 0) toy_win32 (mkHandle VfsFd 1 0) tty)
    as (r & k & c & s' & Hrun & (k' & w' & e & -> & Hk & [-> Hm] & Hres) & Hfull).
  - reflexivity.
  - vm_compute. reflexivity.
  - reflexivity.
  - vm_compute. reflexivity.
  - cbn. lia.
  - lia.
  - lia.
  - destruct (Hfull (once_full 5)) as [-> Ek]. assert (k = 2%nat) as -> by (cbn in Ek; lia).
    destruct Hres as [(_ & _ & ->)|(? & _)]; [|discriminate].
    eexists. exact Hrun.
Defined.
