(* ===== verification/Condvar.v ===== *)
(** Condition variables ([Condvar] of [src/substrate/sync.rs]) with the plain
    mutex (file Mutex).  Word 0 is the mutex, word 1 the sequence counter.

    The address a waiter publishes for cancellation is that of file PthreadCancel: the
    [futex_wake] another thread's [pthread_cancel] does with it is a spurious
    wake-up of this machine. *)

From S2P Require Import Prelude Consts Futex Mutex TypedMutex.

(** ** The code *)

(** [current_seq] stays in scope to the end; [err] is the futex's result. *)
Inductive cwait_pc :=
| Cw_load | Cw_unlock (seq : Z) (p : unlock_pc) | Cw_wait (seq : Z)
| Cw_lock (seq err : Z) (p : lock_pc) | Cw_done (seq err : Z).

(** [wait], and [wait_timeout] when [timed]. *)
Definition cv_wait (timed : bool) (p : cwait_pc) : act cwait_pc :=
  match p with
  | Cw_load => ALoad 1 (fun seq => Cw_unlock seq Ul_swap)
  | Cw_unlock s q => act_map (fun q' => match q' with Ul_done => Cw_wait s | _ => Cw_unlock s q' end) (unlock q)
  | Cw_wait s => AWait 1 s timed (fun err => Cw_lock s err Lk_fast)
  | Cw_lock s e q => act_map (fun q' => match q' with Lk_done => Cw_done s e | _ => Cw_lock s e q' end) (lock q)
  | Cw_done _ _ => AChoice []
  end.

Definition wait_timeout_result (err : Z) : Z :=
  if err =? TRONA_CANCELLED then TRONA_TIMED_OUT else TRONA_OK.

Inductive csig_pc := Cs_inc | Cs_wake | Cs_done.

(** [signal] wakes one thread, [broadcast] all; [seq] is the counter. *)
Definition cv_notify (seq : nat) (count : Z) (p : csig_pc) : act csig_pc :=
  match p with
  | Cs_inc => AFetch seq (fun v => as_u32 (v + 1)) (fun _ => Cs_wake)
  | Cs_wake => AWake seq count Cs_done
  | Cs_done => AChoice []
  end.
Definition cv_signal : csig_pc -> act csig_pc := cv_notify 1 1.
Definition cv_broadcast : csig_pc -> act csig_pc := cv_notify 1 U32_MAX.

(** ** Threads that use it *)

(** A thread notifies with the mutex ([held]) or without it. *)
Inductive cuser :=
| COut
| CLocking (p : lock_pc)
| CIn
| CUnlocking (p : unlock_pc)
| CWaiting (timed : bool) (p : cwait_pc)
| CNotify (held all : bool) (p : csig_pc).

Definition after_clock (p : lock_pc) : cuser := match p with Lk_done => CIn | _ => CLocking p end.
Definition after_cunlock (p : unlock_pc) : cuser := match p with Ul_done => COut | _ => CUnlocking p end.
Definition after_cwait (timed : bool) (p : cwait_pc) : cuser :=
  match p with Cw_done _ _ => CIn | _ => CWaiting timed p end.
Definition after_notify (held all : bool) (p : csig_pc) : cuser :=
  match p with Cs_done => if held then CIn else COut | _ => CNotify held all p end.

Section condvar.
(** Whether the threads use [signal] besides [broadcast]. *)
Context (signals : bool).

Definition notifications (held : bool) : list cuser :=
  CNotify held true Cs_inc :: (if signals then [CNotify held false Cs_inc] else []).

Definition cuser_code (u : cuser) : act cuser :=
  match u with
  | COut => AChoice (CLocking Lk_fast :: notifications false)
  | CLocking p => act_map after_clock (lock p)
  | CIn => AChoice (CUnlocking Ul_swap :: CWaiting false Cw_load :: CWaiting true Cw_load :: notifications true)
  | CUnlocking p => act_map after_cunlock (unlock p)
  | CWaiting timed p => act_map (after_cwait timed) (cv_wait timed p)
  | CNotify held all p => act_map (after_notify held all) (if all then cv_broadcast p else cv_signal p)
  end.

Definition Condvar_new (n : nat) : cfg cuser := mkCfg (fun _ => 0) (replicate n (Run COut)).

(** ** The mutex underneath *)

Definition cproj (u : cuser) : user :=
  match u with
  | COut | CWaiting _ (Cw_wait _) | CNotify false _ _ => Outside
  | CLocking p | CWaiting _ (Cw_lock _ _ p) => Locking p
  | CIn | CWaiting _ (Cw_load | Cw_done _ _) | CNotify true _ _ => Inside
  | CUnlocking p | CWaiting _ (Cw_unlock _ p) => Unlocking p
  end.

(** A thread that sleeps on the counter, with the value it has seen. *)
Definition cv_sleeper (s : Z) (t : tstate cuser) : Prop :=
  exists tm k, t = Sleep 1 tm k /\ forall r, exists tm', k r = CWaiting tm' (Cw_lock s r Lk_fast).

(** A running thread that is about to wake all sleepers. *)
Definition waking_all (u : cuser) : bool := match u with CNotify _ true Cs_wake => true | _ => false end.

(** ** Steps *)

Definition pc_live (u : cuser) : Prop :=
  match u with CWaiting _ (Cw_done _ _) | CNotify _ _ Cs_done => False | _ => True end.

Lemma cproj_clock q : cproj (after_clock q) = after_lock q.
Proof. by destruct q. Qed.
Lemma cproj_cunlock q : cproj (after_cunlock q) = after_unlock q.
Proof. by destruct q. Qed.
Lemma cproj_wait_unlock tm s q :
  cproj (after_cwait tm (match q with Ul_done => Cw_wait s | _ => Cw_unlock s q end)) = after_unlock q.
Proof. by destruct q. Qed.
Lemma cproj_wait_lock tm s e q :
  cproj (after_cwait tm (match q with Lk_done => Cw_done s e | _ => Cw_lock s e q end)) = after_lock q.
Proof. by destruct q. Qed.

(** What a step of one thread does to both words. *)
Record cstep_ok (m m' : nat -> Z) (u u' : cuser) : Prop := {
  cs_effect : effect (m 0%nat) (m' 0%nat) (cproj u) (cproj u');
  cs_valid : valid (cproj u') = true;
  cs_live : pc_live u';
  cs_seq : m' 1%nat = m 1%nat \/ exists held all, u' = CNotify held all Cs_wake;
  cs_quiet : waking_all u = false;
  cs_all : signals = false -> forall held all p, u' = CNotify held all p -> all = true \/ exists p', u = CNotify held all p';
}.

Lemma notifications_in held u :
  u ∈ notifications held -> exists all, u = CNotify held all Cs_inc /\ (signals = false -> all = true).
Proof.
  unfold notifications. intros [->|Hin]%elem_of_cons; [by exists true|].
  destruct signals; [|by apply elem_of_nil in Hin]. apply list_elem_of_singleton in Hin as ->. by exists false.
Qed.

Lemma quiet_step m u u' :
  owns (cproj u') = owns (cproj u) -> urgent (cproj u) = false -> valid (cproj u') = true ->
  effect (m 0%nat) (m 0%nat) (cproj u) (cproj u') /\ valid (cproj u') = true.
Proof. intros. split; [by apply E_stay|done]. Qed.

Lemma cstep m m' u u' :
  valid (cproj u) = true -> pc_live u -> local_post m (cuser_code u) m' u' -> cstep_ok m m' u u'.
Proof.
  intros Hv Hlive Hl. destruct u as [|q| |q|tm [|s q|s|s e q|s e]|held all [| |]]; cbn [cuser_code] in Hl; try done.
  - destruct Hl as [-> Hin]. apply elem_of_cons in Hin as [->|(all & -> & Ha)%notifications_in].
    + split; try done; [by apply E_stay|by left].
    + split; try done; [by apply E_stay|by left|]. intros Hs h a p [= <- <- <-]. left. by apply Ha.
  - apply local_post_map in Hl as (q' & Hl & ->). destruct (inner_lock _ _ _ _ Hv Hl) as (He & Hv' & E1 & _).
    split; [by rewrite cproj_clock|by rewrite cproj_clock|by destruct q'|by left|done|by destruct q'].
  - destruct Hl as [-> Hin]. apply elem_of_cons in Hin as [->|Hin]; [split; try done; [by apply E_stay|by left]|].
    apply elem_of_cons in Hin as [->|Hin]; [split; try done; [by apply E_stay|by left]|].
    apply elem_of_cons in Hin as [->|(all & -> & Ha)%notifications_in]; [split; try done; [by apply E_stay|by left]|].
    split; try done; [by apply E_stay|by left|]. intros Hs h a p [= <- <- <-]. left. by apply Ha.
  - apply local_post_map in Hl as (q' & Hl & ->). destruct (inner_unlock _ _ _ _ Hv Hl) as (He & Hv' & E1 & _).
    split; [by rewrite cproj_cunlock|by rewrite cproj_cunlock|by destruct q'|by left|done|by destruct q'].
  - cbn in Hl. destruct Hl as [-> ->]. split; try done; [by apply E_stay|by left].
  - cbn [cv_wait] in Hl. apply local_post_map in Hl as (p & Hl & ->). apply local_post_map in Hl as (q' & Hl & ->).
    destruct (inner_unlock _ _ _ _ Hv Hl) as (He & Hv' & E1 & _).
    split; [by rewrite cproj_wait_unlock|by rewrite cproj_wait_unlock|by destruct q'|by left|done|by destruct q'].
  - cbn in Hl. destruct Hl as (Hne & -> & ->). split; try done; [by apply E_stay|by left].
  - cbn [cv_wait] in Hl. apply local_post_map in Hl as (p & Hl & ->). apply local_post_map in Hl as (q' & Hl & ->).
    destruct (inner_lock _ _ _ _ Hv Hl) as (He & Hv' & E1 & _).
    split; [by rewrite cproj_wait_lock|by rewrite cproj_wait_lock|by destruct q'|by left|done|by destruct q'].
  - assert (m' = set_word m 1 (as_u32 (m 1%nat + 1)) /\ u' = CNotify held all Cs_wake) as [-> ->].
    { destruct all; cbn in Hl; by destruct Hl as [-> ->]. }
    split; try done.
    + rewrite set_word_ne by done. by apply E_stay; destruct held.
    + right. by exists held, all.
    + by destruct all.
    + intros _ h a p [= <- <- <-]. right. by exists Cs_inc.
  - by destruct all.
Qed.
(** ** The invariant *)

(** What a sleeper continues with. *)
Definition sleeper_ok (a : nat) (tm : bool) (k : Z -> cuser) : Prop :=
  (a = 0%nat /\ forall r, match k r with CWaiting _ (Cw_lock _ _ Lk_swap) | CLocking Lk_swap => True | _ => False end) \/
  exists s, cv_sleeper s (Sleep a tm k).

Record cv_inv (c : cfg cuser) : Prop := {
  ci_mutex : mutex_inv (project cproj c);
  ci_pcs i u : thr c !! i = Some (Run u) -> pc_live u;
  ci_sleep i a tm k : thr c !! i = Some (Sleep a tm k) -> sleeper_ok a tm k;
  ci_few : Z.of_nat (length (thr c)) < U32_MAX;
  ci_bcast i held all p : signals = false -> thr c !! i = Some (Run (CNotify held all p)) -> all = true;
  ci_woken i t s : signals = false -> thr c !! i = Some t -> cv_sleeper s t -> words c 1%nat <> s ->
    exists j u, thr c !! j = Some (Run u) /\ waking_all u = true;
}.

Lemma sleeper_run a tm k r : sleeper_ok a tm k ->
  pc_live (k r) /\ (forall held all p, k r <> CNotify held all p) /\ waking_all (k r) = false.
Proof.
  intros [[_ Hk]|(s & tm' & k' & [= -> -> ->] & Hk)].
  - specialize (Hk r). destruct (k r) as [|[]| |[]|? []|]; try done; by destruct p.
  - destruct (Hk r) as [? ->]. done.
Qed.

Lemma sleeper_outside a tm k r :
  sleeper_ok a tm k -> a <> 0%nat -> owns (cproj (k r)) = false /\ valid (cproj (k r)) = true.
Proof. intros [[-> _]|(s & tm' & k' & [= -> -> ->] & Hk)] Ha; [done|]. by destruct (Hk r) as [? ->]. Qed.

Lemma cv_sleeper_inj s s' t : cv_sleeper s t -> cv_sleeper s' t -> s = s'.
Proof.
  intros (tm & k & -> & H1) (tm' & k' & [= <- <-] & H2).
  destruct (H1 0) as [? E1], (H2 0) as [? E2]. rewrite E1 in E2. by injection E2.
Qed.

Lemma cv_inv_local c i u m u' :
  cv_inv c -> thr c !! i = Some (Run u) -> cstep_ok (words c) m u u' -> cv_inv (mkCfg m (<[i := Run u']> (thr c))).
Proof.
  intros [HM HP HS HF HB HW] Hi [He Hv Hl Hseq Hq Ha]. split; cbn [thr words].
  - by eapply project_local.
  - intros j w [[-> [= ->]]|[_ Hj]]%insert_cases; [done|by eapply HP].
  - intros j a tm k [[_ ?]|[_ Hj]]%insert_cases; [done|by eapply HS].
  - by rewrite length_insert.
  - intros j held all p Hs [[-> [= <-]]|[_ Hj]]%insert_cases; [|by eapply HB].
    destruct (Ha Hs held all p eq_refl) as [|[p' ->]]; [done|by eapply HB].
  - intros j t s Hs [[_ ->]|[Hne Hj]]%insert_cases Ht Hw; [by destruct Ht as (? & ? & ? & _)|].
    destruct Hseq as [E|(held & all & ->)].
    + rewrite E in Hw. destruct (HW j t s Hs Hj Ht Hw) as (j' & w & Hj' & Hwk). exists j', w. split; [|done].
      rewrite list_lookup_insert_ne; [done|]. intros ->. congruence.
    + exists i, (CNotify held all Cs_wake). split; [by eapply insert_here|]. cbn.
      destruct (Ha Hs held all Cs_wake eq_refl) as [->|[p' ->]]; [done|]. by rewrite (HB i held all p').
Qed.

Lemma cv_inv_sleep c i u a v tm k :
  cv_inv c -> thr c !! i = Some (Run u) -> cuser_code u = AWait a v tm k -> words c a = v ->
  cv_inv (mkCfg (words c) (<[i := Sleep a tm k]> (thr c))).
Proof.
  intros [HM HP HS HF HB HW] Hi Hc Hw.
  assert (Hs : waking_all u = false /\
    ((a = 0%nat /\ v = 2 /\ owns (cproj u) = false /\ sleeper_ok a tm k /\
      forall r, urgent (cproj (k r)) = true /\ owns (cproj (k r)) = false /\ valid (cproj (k r)) = true) \/
     (a = 1%nat /\ cproj u = Outside /\ cv_sleeper v (Sleep a tm k)))).
  { destruct u as [|[]| |[]|tm' [|s []|s|s e []|s e]|held [] [| |]]; cbn in Hc; try discriminate Hc;
      injection Hc as <- <- <- <-; (split; [done|]).
    - left. split_and!; try done. by left.
    - right. split_and!; try done. exists tm', (fun r => CWaiting tm' (Cw_lock s r Lk_fast)). split; [done|]. intros r. by exists tm'.
    - left. split_and!; try done. by left. }
  destruct Hs as [Hwk Hs]. split; cbn [thr words].
  - eapply project_sleep; [done|done|]. destruct Hs as [(-> & <- & Ho & _ & Hk)|(-> & Ho & _)]; [left|right]; done.
  - intros j w [[_ ?]|[_ Hj]]%insert_cases; [done|by eapply HP].
  - intros j a' tm' k' [[_ [= -> -> ->]]|[_ Hj]]%insert_cases; [|by eapply HS].
    destruct Hs as [(_ & _ & _ & ? & _)|(_ & _ & ?)]; [done|right; by eexists].
  - by rewrite length_insert.
  - intros j held all p Hsg [[_ ?]|[_ Hj]]%insert_cases; [done|by eapply HB].
  - intros j t s Hsg [[_ ->]|[Hne Hj]]%insert_cases Ht Hws.
    + exfalso. destruct Hs as [(-> & _)|(-> & _ & Hv)]; [by destruct Ht as (? & ? & [=] & _)|].
      apply Hws. rewrite Hw. by eapply cv_sleeper_inj.
    + destruct (HW j t s Hsg Hj Ht Hws) as (j' & w & Hj' & Hwk'). exists j', w. split; [|done].
      rewrite list_lookup_insert_ne; [done|]. intros ->. congruence.
Qed.

Lemma cv_inv_resume c i a tm k r :
  cv_inv c -> thr c !! i = Some (Sleep a tm k) -> cv_inv (mkCfg (words c) (<[i := Run (k r)]> (thr c))).
Proof.
  intros [HM HP HS HF HB HW] Hi. pose proof (HS _ _ _ _ Hi) as Hk.
  destruct (sleeper_run a tm k r Hk) as (Hl & Hn & Hq). split; cbn [thr words].
  - eapply project_resume; [done|done|]. intros Ha. by eapply sleeper_outside.
  - intros j w [[_ [= ->]]|[_ Hj]]%insert_cases; [done|by eapply HP].
  - intros j a' tm' k' [[_ ?]|[_ Hj]]%insert_cases; [done|by eapply HS].
  - by rewrite length_insert.
  - intros j held all p Hsg [[_ [= E]]|[_ Hj]]%insert_cases; [by apply eq_sym, Hn in E|by eapply HB].
  - intros j t s Hsg [[_ ->]|[Hne Hj]]%insert_cases Ht Hws; [by destruct Ht as (? & ? & ? & _)|].
    destruct (HW j t s Hsg Hj Ht Hws) as (j' & w & Hj' & Hwk'). exists j', w. split; [|done].
    rewrite list_lookup_insert_ne; [done|]. intros ->. congruence.
Qed.
(** The two kinds of wake: of the mutex, and of the counter. *)
Lemma wake_kinds c i u a n u' :
  cv_inv c -> thr c !! i = Some (Run u) -> cuser_code u = AWake a n u' -> pc_live u' /\
  ((a = 0%nat /\ n = 1 /\ owns (cproj u) = false /\ owns (cproj u') = false /\ valid (cproj u') = true /\
    waking_all u = false /\ (forall held all p, u' <> CNotify held all p)) \/
   (a = 1%nat /\ cproj u' = cproj u /\ (forall held all p, u' <> CNotify held all p) /\
    (signals = false -> n = U32_MAX))).
Proof.
  intros HI Hi Hc. destruct u as [|[]| |[]|tm [|s []|s|s e []|s e]|held all [| |]]; cbn in Hc; try discriminate Hc.
  - injection Hc as <- <- <-. split; [done|]. by left.
  - injection Hc as <- <- <-. split; [done|]. by left.
  - by destruct all.
  - assert (a = 1%nat /\ n = (if all then U32_MAX else 1) /\ u' = if held then CIn else COut) as (-> & -> & ->).
    { destruct all; cbn in Hc; by injection Hc as <- <- <-. }
    split; [by destruct held|]. right. split_and!; try (by destruct held).
    intros Hs. by rewrite (ci_bcast c HI i held all Cs_wake Hs Hi).
  - by destruct all.
Qed.

Lemma cv_inv_wake c i u a n u' js :
  cv_inv c -> thr c !! i = Some (Run u) -> cuser_code u = AWake a n u' -> wake_ok a n js (thr c) = true ->
  cv_inv (mkCfg (words c) (<[i := Run u']> (wake_all js (thr c)))).
Proof.
  intros HI Hi Hc Hok. destruct (wake_kinds c i u a n u' HI Hi Hc) as [Hlive Hk].
  pose proof HI as [HM HP HS HF HB HW].
  assert (Hcase : forall j t, wake_all js (thr c) !! j = Some t ->
    thr c !! j = Some t \/ exists tm k, thr c !! j = Some (Sleep a tm k) /\ t = Run (k TRONA_OK) /\ sleeper_ok a tm k).
  { intros j t Hj. destruct (wake_ok_cases _ _ _ _ _ _ Hok Hj) as [?|(tm & k & _ & Hs & ->)]; [by left|right].
    exists tm, k. split_and!; try done. by eapply HS. }
  split; cbn [thr words].
  - eapply project_wake; [done|done|done|]. destruct Hk as [(-> & -> & Ho & Ho' & Hv & _)|(-> & Ep & _)]; [by left|right].
    split_and!; [done|done|]. intros j tm k Hj. exists 1%nat, tm, k. split_and!; [done|done|].
    intros r. eapply sleeper_outside; [by eapply HS|done].
  - intros j w [[_ [= ->]]|[_ Hj]]%insert_cases; [done|].
    destruct (Hcase _ _ Hj) as [?|(tm & k & _ & [= ->] & Hok')]; [by eapply HP|by eapply sleeper_run].
  - intros j a' tm k [[_ ?]|[_ Hj]]%insert_cases; [done|].
    destruct (Hcase _ _ Hj) as [?|(? & ? & _ & ? & _)]; [by eapply HS|done].
  - by rewrite length_insert, length_wake_all.
  - intros j held all p Hsg [[_ [= E]]|[_ Hj]]%insert_cases.
    { destruct Hk as [(_ & _ & _ & _ & _ & _ & Hn)|(_ & _ & Hn & _)]; by apply eq_sym, Hn in E. }
    destruct (Hcase _ _ Hj) as [?|(tm & k & _ & [= E] & Hok')]; [by eapply HB|].
    destruct (sleeper_run a tm k TRONA_OK Hok') as (_ & Hn & _). by apply eq_sym, Hn in E.
  - intros j t s Hsg [[_ ->]|[Hne Hj]]%insert_cases Ht Hws; [by destruct Ht as (? & ? & ? & _)|].
    destruct Ht as (tm & k & -> & Hk'). destruct Hk as [(-> & _ & _ & _ & _ & Hq & _)|(-> & _ & _ & Hn)].
    + destruct (Hcase _ _ Hj) as [Hj0|(? & ? & _ & ? & _)]; [|done].
      destruct (HW j _ s Hsg Hj0 ltac:(by exists tm, k) Hws) as (j' & w & Hj' & Hwk). exists j', w. split; [|done].
      rewrite list_lookup_insert_ne by (intros ->; congruence). by eapply not_sleeping_wake.
    + rewrite (Hn Hsg) in Hok. by apply (wake_ok_all _ _ _ _ j tm k Hok) in Hj.
Qed.

Lemma cv_inv_moves c c' : cv_inv c -> moves cuser_code c c' -> cv_inv c'.
Proof.
  intros HI Hm. destruct Hm as [i u m u' Hi Hl|i u a v tm k Hi Hc Hw|i u a n u' js Hi Hc Hok|i a tm k r Hi _].
  - eapply cv_inv_local; [done|done|]. apply cstep; [|by eapply (ci_pcs c HI)|by apply local_inv].
    apply (mi_valid _ (ci_mutex c HI) i). exact (project_lookup cproj c i _ Hi).
  - by eapply cv_inv_sleep.
  - by eapply cv_inv_wake.
  - by eapply cv_inv_resume.
Qed.

Lemma cv_inv_new n : Z.of_nat n < U32_MAX -> cv_inv (Condvar_new n).
Proof.
  intros Hn. split; unfold Condvar_new; cbn [thr words].
  - unfold project, Condvar_new. cbn. change (map ?f (replicate n (Run COut))) with (f <$> replicate n (Run COut)).
    rewrite fmap_replicate. exact (mutex_inv_new n).
  - intros i u [[= ->] _]%lookup_replicate. done.
  - intros i a tm k [? _]%lookup_replicate. done.
  - by rewrite length_replicate.
  - intros i held all p _ [? _]%lookup_replicate. done.
  - intros i t s _ [-> _]%lookup_replicate (? & ? & ? & _). done.
Qed.

Lemma cv_inv_reachable n c : Z.of_nat n < U32_MAX -> reachable cuser_code (Condvar_new n) c -> cv_inv c.
Proof. intros Hn. apply reachable_inv; [by apply cv_inv_new|apply cv_inv_moves]. Qed.

(** The thread has the mutex for itself: it is between lock and unlock and not
    in the released part of a wait. *)
Definition cholds (u : cuser) : bool :=
  match u with CIn | CNotify true _ _ | CWaiting _ (Cw_load | Cw_done _ _) => true | _ => false end.
End condvar.


(** Thread 0 waits; thread 1 broadcasts and is about to wake. *)
Definition notified : list event :=
  [GoPick 0 0; Go 0; GoPick 0 1; Go 0; Go 0; Go 0; GoPick 1 1; Go 1].
Definition notified_cfg : cfg cuser :=
  default (Condvar_new 2) (run (cuser_code false) notified (Condvar_new 2)).

Lemma notified_reachable : reachable (cuser_code false) (Condvar_new 2) notified_cfg.
Proof. exists notified. vm_compute. reflexivity. Qed.


(** With [signal] a wake-up can be taken: thread 0 sleeps, thread 2 signals; the
    thread its wake releases is thread 1, which came to wait after the counter
    had moved.  Thread 0 stays asleep and nobody is going to wake it. *)
Definition stolen : list event :=
  [GoPick 0 0; Go 0; GoPick 0 1; Go 0; Go 0; Go 0;
   GoPick 2 2; Go 2;
   GoPick 1 0; Go 1; GoPick 1 1; Go 1; Go 1; Go 1;
   GoWake 2 [1%nat]].

Lemma signal_can_be_stolen :
  match run (cuser_code true) stolen (Condvar_new 3) with
  | Some c =>
      (exists t, thr c !! 0%nat = Some t /\ cv_sleeper 0 t) /\ words c 1%nat = 1 /\
      thr c !! 1%nat = Some (Run (CWaiting false (Cw_lock 1 TRONA_OK Lk_fast))) /\
      thr c !! 2%nat = Some (Run COut)
  | None => False
  end.
Proof.
  vm_compute. split; [|done]. eexists. split; [reflexivity|]. eexists _, _. split; [reflexivity|]. intros r. by eexists.
Qed.
