(* ===== verification/CondvarTyped.v ===== *)
(** Condition variables with a typed mutex: [condvar_unlock] and [condvar_relock]
    of [TypedMutex] and [wait_typed], [wait_timeout_typed] of [Condvar]
    ([src/substrate/sync.rs]).  Words 0 to 2 are those of the mutex (file
    TypedMutex), word 3 is the sequence counter.

    A thread does anything a typed mutex allows, waits at any recursion depth,
    also when it does not own the mutex, and notifies at any depth.  As in file
    Condvar, the futex address published for cancellation is left to file PthreadCancel. *)

From S2P Require Import Prelude Consts Futex Mutex TypedMutex Condvar.

Section typed.
Context (mutex_type : Z).
#[local] Abbreviation recursive := (TypedMutex.recursive mutex_type).
#[local] Abbreviation checked := (TypedMutex.checked mutex_type).

(** ** The code; [tid] is [current_thread_id()] *)

Inductive cunlock_pc :=
| Cu_check | Cu_swap | Cu_clear (saved : Z) | Cu_inner (saved : Z) (p : unlock_pc) | Cu_ret (saved : Z).

Definition condvar_unlock_entry : cunlock_pc := if checked then Cu_check else Cu_inner 1 Ul_swap.

Definition condvar_unlock (tid : Z) (p : cunlock_pc) : act cunlock_pc :=
  match p with
  | Cu_check => ALoad 1 (fun owner =>
      if negb (owner =? tid) then Cu_ret 0 else if recursive then Cu_swap else Cu_clear 1)
  | Cu_swap => ASwap 2 0 (fun saved => Cu_clear saved)
  | Cu_clear saved => AStore 1 NO_OWNER (Cu_inner saved Ul_swap)
  | Cu_inner saved q => act_map (fun q' => match q' with
                                           | Ul_done => Cu_ret saved
                                           | _ => Cu_inner saved q' end) (unlock_inner q)
  | Cu_ret _ => AChoice []
  end.

Inductive crelock_pc := Cr_inner (p : lock_pc) | Cr_owner | Cr_count | Cr_done.

Definition condvar_relock (tid saved_count : Z) (p : crelock_pc) : act crelock_pc :=
  match p with
  | Cr_inner q => act_map (fun q' => match q' with Lk_done => Cr_owner | _ => Cr_inner q' end) (lock_inner q)
  | Cr_owner => AStore 1 tid (if recursive then Cr_count else Cr_done)
  | Cr_count => AStore 2 saved_count Cr_done
  | Cr_done => AChoice []
  end.

Inductive twait_pc :=
| Tw_load | Tw_unlock (seq : Z) (p : cunlock_pc) | Tw_wait (seq saved : Z)
| Tw_relock (seq saved err : Z) (p : crelock_pc) | Tw_ret (r : Z).

(** [wait_typed], and [wait_timeout_typed] when [timed]. *)
Definition wait_typed (timed : bool) (tid : Z) (p : twait_pc) : act twait_pc :=
  match p with
  | Tw_load => ALoad 3 (fun seq => Tw_unlock seq condvar_unlock_entry)
  | Tw_unlock s q => act_map (fun q' => match q' with
      | Cu_ret saved => if saved =? 0 then Tw_ret TRONA_INVALID_OPERATION else Tw_wait s saved
      | _ => Tw_unlock s q' end) (condvar_unlock tid q)
  | Tw_wait s saved => AWait 3 s timed (fun err => Tw_relock s saved err (Cr_inner Lk_fast))
  | Tw_relock s saved err q => act_map (fun q' => match q' with
      | Cr_done => Tw_ret (if timed then wait_timeout_result err else TRONA_OK)
      | _ => Tw_relock s saved err q' end) (condvar_relock tid saved q)
  | Tw_ret _ => AChoice []
  end.
Definition wait_timeout_typed : Z -> twait_pc -> act twait_pc := wait_typed true.

(** ** Threads *)

(** [d] is the number of locks without unlock, as in file TypedMutex; [WBack]
    is a thread that has returned from a wait. *)
Inductive wst :=
| WMutex (s : tst)
| WWait (d : nat) (timed : bool) (p : twait_pc)
| WBack (d : nat) (timed : bool) (r : Z)
| WNotify (d : nat) (all : bool) (p : csig_pc).

Record wuser := mkW { wid : Z; wstate : wst }.

Definition after_twait (d : nat) (timed : bool) (p : twait_pc) : wst :=
  match p with Tw_ret r => WBack d timed r | _ => WWait d timed p end.
Definition after_tnotify (d : nat) (all : bool) (p : csig_pc) : wst :=
  match p with Cs_done => WMutex (TIdle d None) | _ => WNotify d all p end.

Context (timeouts : list Z) (signals : bool).

(** A NORMAL mutex is only waited on by its holder. *)
Definition wmenu (d : nat) : list wst :=
  map (fun p => WMutex (TOp d p)) (starts mutex_type timeouts d) ++
  (if checked || negb (Nat.eqb d 0) then [WWait d false Tw_load; WWait d true Tw_load] else []) ++
  WNotify d true Cs_inc :: (if signals then [WNotify d false Cs_inc] else []).

Definition wcode (u : wuser) : act wuser :=
  match wstate u with
  | WMutex (TIdle d _) | WBack d _ _ => AChoice (map (mkW (wid u)) (wmenu d))
  | WMutex (TOp d p) =>
      act_map (fun u' => mkW (tid u') (WMutex (st u'))) (tcode mutex_type timeouts (mkT (wid u) (TOp d p)))
  | WWait d timed p => act_map (fun q => mkW (wid u) (after_twait d timed q)) (wait_typed timed (wid u) p)
  | WNotify d all p =>
      act_map (fun q => mkW (wid u) (after_tnotify d all q)) (cv_notify 3 (if all then U32_MAX else 1) p)
  end.

Definition TypedCondvar_new (n : nat) : cfg wuser :=
  mkCfg (fun a => if Nat.eqb a 1 then NO_OWNER else 0)
    (map (fun i => Run (mkW (Z.of_nat i) (WMutex (TIdle 0 None)))) (seq 0 n)).

(** ** The typed mutex underneath *)

(** What the mutex sees of a thread: a wait is an unlock of everything, a pause
    and a lock. *)
Definition wt (s : wst) : tst :=
  match s with
  | WMutex s => s
  | WBack d _ _ | WNotify d _ _ | WWait d _ (Tw_load | Tw_ret _)
  | WWait d _ (Tw_unlock _ (Cu_check | Cu_swap | Cu_ret _)) | WWait d _ (Tw_relock _ _ _ Cr_done) => TIdle d None
  | WWait _ _ (Tw_unlock _ (Cu_clear _)) => TOp 1 (PUnlock Tu_clear)
  | WWait _ _ (Tw_unlock _ (Cu_inner _ q)) => TOp 1 (PUnlock (Tu_inner q))
  | WWait _ _ (Tw_wait _ _) => TIdle 0 None
  | WWait _ _ (Tw_relock _ _ _ (Cr_inner q)) => TOp 0 (PLock (Tl_inner q))
  | WWait _ _ (Tw_relock _ _ _ Cr_owner) => if checked then TOp 0 (PLock Tl_owner) else TIdle 1 None
  | WWait _ _ (Tw_relock _ _ _ Cr_count) => TOp 0 (PLock Tl_count)
  end.

Definition wpr (u : wuser) : user := proj (wt (wstate u)).

(** What [condvar_unlock] returns to a holder of depth [d]. *)
Definition saved_of (d : nat) : Z := if recursive then Z.of_nat d else 1.

(** The result of a wait begun at depth [d]. *)
Definition wait_result (d : nat) (timed : bool) (r : Z) : Prop :=
  match d with
  | O => r = TRONA_INVALID_OPERATION
  | S _ => r = TRONA_OK \/ (timed = true /\ r = TRONA_TIMED_OUT)
  end.

Definition wait_ok (s : wst) : Prop :=
  match s with
  | WMutex _ => True
  | WBack d timed r => wait_result d timed r
  | WNotify d _ p => p <> Cs_done
  | WWait d _ p =>
      depth_ok mutex_type d /\
      match p with
      | Tw_load => checked = true \/ d <> 0%nat
      | Tw_unlock _ Cu_check => checked = true
      | Tw_unlock _ Cu_swap => recursive = true /\ d <> 0%nat
      | Tw_unlock _ (Cu_clear saved) => checked = true /\ d <> 0%nat /\ saved = saved_of d
      | Tw_unlock _ (Cu_inner saved _) | Tw_wait _ saved => d <> 0%nat /\ saved = saved_of d
      | Tw_relock _ saved _ q => d <> 0%nat /\ saved = saved_of d /\
          match q with Cr_count => recursive = true | Cr_done => False | _ => True end
      | Tw_unlock _ (Cu_ret _) | Tw_ret _ => False
      end
  end.

Definition wuser_ok (m : nat -> Z) (i : nat) (u : wuser) : Prop :=
  wid u = Z.of_nat i /\ wait_ok (wstate u) /\ user_ok mutex_type m i (mkT (Z.of_nat i) (wt (wstate u))).

(** A thread asleep on the counter, with the value it has seen; a running thread
    that is about to wake all. *)
Definition wv_sleeper (s : Z) (t : tstate wuser) : Prop :=
  exists tm k, t = Sleep 3 tm k /\
    forall r, exists d tm' saved, wstate (k r) = WWait d tm' (Tw_relock s saved r (Cr_inner Lk_fast)).
Definition wwaking_all (u : wuser) : bool :=
  match wstate u with WNotify _ true Cs_wake => true | _ => false end.

(** ** Steps *)

Lemma tcode_frame m m' u u' : local_post m (tcode mutex_type timeouts u) m' u' -> m' 3%nat = m 3%nat.
Proof.
  intros Hl. destruct u as [x [d l|d [p|p|p|p]]]; cbn [tcode st] in Hl; [by destruct Hl as [-> _]|..];
    apply local_post_map in Hl as (q & Hl & ->); destruct p; cbn [typed_lock typed_try_lock typed_lock_timeout typed_unlock] in Hl;
    try (cbn in Hl; naive_frame Hl);
    apply local_post_map in Hl as (q' & Hl & ->); destruct p; cbn in Hl; naive_frame Hl.
Qed.

(** A step that leaves the words of the mutex alone. *)
Lemma tstep_elsewhere m m' i s s' :
  m' 0%nat = m 0%nat -> m' 1%nat = m 1%nat -> m' 2%nat = m 2%nat ->
  owns (proj s') = owns (proj s) -> urgent (proj s) = false -> valid (proj s') = true ->
  pc_ok mutex_type s' -> own_ok mutex_type m i s' -> count_ok mutex_type m s' -> tstep_ok mutex_type m m' i s s'.
Proof.
  intros H0 H1 H2 Ho Hu Hv Hpc Hown Hc. apply tstep_inner; try done. by apply E_stay.
Qed.

(** Evaluates the conditions at concrete program points. *)
Ltac wfin :=
  unfold wait_ok, own_ok, count_ok, is_owner, expected_count, pc_ok, after_twait, wt, saved_of in *; cbn in *;
  unfold depth_ok in *;
  repeat match goal with
  | H : TypedMutex.recursive _ = _ |- context [TypedMutex.recursive _] => rewrite H
  | H : TypedMutex.checked _ = _ |- context [TypedMutex.checked _] => rewrite H
  | H : TypedMutex.recursive _ = _, H' : context [TypedMutex.recursive _] |- _ =>
      lazymatch H' with H => fail | _ => rewrite H in H' end
  | H : TypedMutex.checked _ = _, H' : context [TypedMutex.checked _] |- _ =>
      lazymatch H' with H => fail | _ => rewrite H in H' end
  end; cbn in *; unfold U32_MAX in *; rewrite ?andb_false_r in *; rewrite ?andb_true_r in *;
  rewrite ?set_word_eq, ?set_word_ne by done; try done; try lia; auto 8 with lia;
  try (destruct (TypedMutex.recursive mutex_type); solve [done|lia|auto 8 with lia]).

Section wait.
Context (m m' : nat -> Z) (i d : nat) (tm : bool) (Hi : Z.of_nat i < NO_OWNER).

Definition wait_step_ok (p q : twait_pc) : Prop :=
  tstep_ok mutex_type m m' i (wt (WWait d tm p)) (wt (after_twait d tm q)) /\
  wait_ok (after_twait d tm q) /\ m' 3%nat = m 3%nat.

Lemma wait_unlock_step s p q :
  wait_ok (WWait d tm (Tw_unlock s p)) -> user_ok mutex_type m i (mkT (Z.of_nat i) (wt (WWait d tm (Tw_unlock s p)))) ->
  local_post m (wait_typed tm (Z.of_nat i) (Tw_unlock s p)) m' q -> wait_step_ok (Tw_unlock s p) q.
Proof.
  intros [Hd Hw] (_ & Hpc & Hown & Hcnt) Hl. cbn [wait_typed] in Hl. apply local_post_map in Hl as (q' & Hl & ->).
  pose proof (checked_recursive mutex_type) as Hcr. pose proof (unchecked mutex_type) as Huc. unfold wait_step_ok.
  destruct p as [| |saved|saved p|]; cbn [st] in *; try done.
  - destruct Hl as [-> ->]. pose proof (owner_seen _ _ _ _ Hw Hown) as Ho. cbn [wt] in Ho. rewrite Ho.
    unfold is_owner. rewrite Hw. cbn [andb negb]. destruct d as [|d']; cbn [Nat.eqb negb].
    + split; [apply tstep_quiet; wfin|]. by split.
    + destruct recursive eqn:Hr; (split; [apply tstep_quiet; wfin|]); split; wfin.
  - destruct Hl as [-> ->]. destruct Hw as [Hr Hne]. pose proof (Hcr Hr) as Hc. destruct d as [|d']; [done|].
    split; [apply tstep_holder; wfin|]. split; wfin.
  - destruct Hl as [-> ->]. destruct Hw as (Hc & Hne & ->).
    split; [apply tstep_holder; wfin|]. split; wfin.
  - destruct Hw as (Hne & ->). cbn [condvar_unlock] in Hl. apply local_post_map in Hl as (q'' & Hl & ->).
    destruct Hpc as (_ & _ & Hv). destruct (inner_unlock _ _ _ _ Hv Hl) as (He & Hv' & H1 & H2).
    assert (H3 : m' 3%nat = m 3%nat) by (destruct p; cbn in Hl; naive_frame Hl).
    assert (Hs : (saved_of d =? 0) = false).
    { apply Z.eqb_neq. unfold saved_of. destruct recursive; lia. }
    destruct q''; try rewrite Hs; (split; [apply tstep_inner; wfin|]); split; wfin.
Qed.
Lemma wait_relock_step s saved err p q :
  wait_ok (WWait d tm (Tw_relock s saved err p)) ->
  user_ok mutex_type m i (mkT (Z.of_nat i) (wt (WWait d tm (Tw_relock s saved err p)))) ->
  local_post m (wait_typed tm (Z.of_nat i) (Tw_relock s saved err p)) m' q -> wait_step_ok (Tw_relock s saved err p) q.
Proof.
  intros (Hd & Hne & -> & Hw) (_ & Hpc & Hown & Hcnt) Hl. cbn [wait_typed] in Hl. apply local_post_map in Hl as (q' & Hl & ->).
  pose proof (checked_recursive mutex_type) as Hcr. pose proof (unchecked mutex_type) as Huc. unfold wait_step_ok.
  assert (Hr : wait_result d tm (if tm then wait_timeout_result err else TRONA_OK)).
  { destruct d; [done|]. destruct tm; [|by left]. unfold wait_timeout_result. destruct (err =? TRONA_CANCELLED); [by right|by left]. }
  destruct d as [|d']; [done|]. destruct p as [p| | |]; cbn [st] in *; try done.
  - cbn [condvar_relock] in Hl. apply local_post_map in Hl as (q'' & Hl & ->).
    destruct (inner_lock _ _ _ _ Hpc Hl) as (He & Hv & H1 & H2).
    assert (H3 : m' 3%nat = m 3%nat) by (destruct p; cbn in Hl; naive_frame Hl).
    destruct q''; try (split; [apply tstep_inner; wfin|]; split; wfin).
    destruct checked eqn:Hc; [|specialize (Huc eq_refl)]; (split; [apply tstep_inner; wfin|]; split; wfin).
  - destruct Hl as [-> ->]. destruct recursive eqn:Hrec.
    + specialize (Hcr eq_refl). split; [apply tstep_holder; wfin|]. split; wfin.
    + destruct checked eqn:Hc; (split; [apply tstep_holder; wfin|]; split; wfin).
  - destruct Hl as [-> ->]. specialize (Hcr Hw). split; [apply tstep_holder; wfin|]. split; wfin.
Qed.

Lemma wait_step p q :
  wait_ok (WWait d tm p) -> user_ok mutex_type m i (mkT (Z.of_nat i) (wt (WWait d tm p))) ->
  local_post m (wait_typed tm (Z.of_nat i) p) m' q -> wait_step_ok p q.
Proof.
  intros Hw Hu Hl. destruct p as [|s p|s saved|s saved err p|r]; [unfold wait_step_ok| |unfold wait_step_ok| |].
  - cbn in Hl. destruct Hl as [-> ->]. destruct Hw as [Hd Hw]. destruct Hu as (_ & Hpc & Hown & Hcnt). cbn [st] in *.
    unfold condvar_unlock_entry. pose proof (unchecked mutex_type) as Huc. destruct checked eqn:Hc.
    + destruct d as [|d']; (split; [apply tstep_quiet; wfin|]; split; wfin).
    + specialize (Huc eq_refl). destruct Hw as [|Hne]; [done|]. destruct d as [|[|d']]; [done| |wfin].
      split; [apply tstep_quiet; wfin|]. split; wfin.
  - by apply wait_unlock_step.
  - cbn in Hl. destruct Hl as (Hm & -> & ->). destruct Hw as [Hd [Hne ->]]. destruct Hu as (_ & Hpc & Hown & Hcnt). cbn [st] in *.
    split; [apply tstep_quiet; wfin|]. split; wfin.
  - by apply wait_relock_step.
  - by destruct Hw.
Qed.
End wait.
(** What a step of thread [i] from [u] to [u'] does. *)
Record wstep_ok (m m' : nat -> Z) (i : nat) (u u' : wuser) : Prop := {
  wso_mutex : tstep_ok mutex_type m m' i (wt (wstate u)) (wt (wstate u'));
  wso_id : wid u' = Z.of_nat i;
  wso_wait : wait_ok (wstate u');
  wso_seq : m' 3%nat = m 3%nat \/ exists d all, wstate u' = WNotify d all Cs_wake;
  wso_quiet : wwaking_all u = false;
  wso_all : signals = false -> forall d all p, wstate u' = WNotify d all p ->
    all = true \/ exists p', wstate u = WNotify d all p';
}.

Lemma wmenu_in d s : s ∈ wmenu d ->
  (exists p, s = WMutex (TOp d p) /\ p ∈ starts mutex_type timeouts d) \/
  (exists tm, s = WWait d tm Tw_load /\ (checked = true \/ d <> 0%nat)) \/
  (exists all, s = WNotify d all Cs_inc /\ (signals = false -> all = true)).
Proof.
  unfold wmenu. rewrite !elem_of_app. intros [Hin|[Hin|Hin]].
  - apply list_elem_of_fmap in Hin as (p & -> & Hp). left. eauto.
  - right; left. destruct (checked || negb (Nat.eqb d 0)) eqn:E; [|by apply elem_of_nil in Hin].
    assert (checked = true \/ d <> 0%nat).
    { apply orb_true_iff in E as [E|E]; [by left|right]. by apply negb_true_iff, Nat.eqb_neq in E. }
    rewrite !elem_of_cons, elem_of_nil in Hin. destruct Hin as [->|[->|[]]]; eauto.
  - right; right. apply elem_of_cons in Hin as [->|Hin]; [by exists true|].
    destruct signals; [|by apply elem_of_nil in Hin]. apply list_elem_of_singleton in Hin as ->. by exists false.
Qed.

Lemma idle_step m i d l u s :
  Z.of_nat i < NO_OWNER -> wt (wstate u) = TIdle d l -> wwaking_all u = false ->
  user_ok mutex_type m i (mkT (Z.of_nat i) (TIdle d l)) -> s ∈ wmenu d -> wstep_ok m m i u (mkW (Z.of_nat i) s).
Proof.
  intros Hi Hs Hq Hu Hin. pose proof Hu as (_ & [Hd _] & Hown & Hcnt). cbn [st] in *.
  assert (Hstay : tstep_ok mutex_type m m i (TIdle d l) (TIdle d None)).
  { apply tstep_quiet; try done; destruct d; done. }
  apply wmenu_in in Hin as [(p & -> & Hp)|[(tm & -> & Hw)|(all & -> & Ha)]]; split; cbn [wid wstate]; rewrite ?Hs;
    try done; try (by left).
  - apply (typed_step mutex_type timeouts m m i (mkT (Z.of_nat i) (TIdle d l)) (mkT (Z.of_nat i) (TOp d p))); [done|done|].
    cbn. split; [done|]. apply list_elem_of_fmap. by exists p.
  - intros Hsig d' all' p' [= <- <- <-]. left. by apply Ha.
Qed.

Lemma wstep m m' i u u' :
  Z.of_nat i < NO_OWNER -> wuser_ok m i u -> local_post m (wcode u) m' u' -> wstep_ok m m' i u u'.
Proof.
  intros Hi (Hid & Hw & Hu) Hl. destruct u as [x s]. cbn [wid wstate] in *. subst x. unfold wcode in Hl. cbn [wid wstate] in Hl.
  destruct s as [[d l|d p]|d tm p|d tm r|d all p].
  - destruct Hl as [-> (s & -> & Hin)%list_elem_of_fmap]. by eapply idle_step.
  - apply local_post_map in Hl as (q & Hl & ->). pose proof (tcode_frame _ _ _ _ Hl) as H3.
    destruct (typed_step mutex_type timeouts _ _ _ _ _ Hi Hu Hl) as [Ht Hq].
    split; try done; by left.
  - apply local_post_map in Hl as (q & Hl & ->). destruct (wait_step m m' i d tm Hi p q Hw Hu Hl) as (Ht & Hq & H3).
    split; cbn [wid wstate]; try done; [by left|]. intros _ d' all p'. by destruct q.
  - destruct Hl as [-> (s & -> & Hin)%list_elem_of_fmap]. by eapply idle_step.
  - apply local_post_map in Hl as (q & Hl & ->). pose proof Hu as (_ & [Hd _] & Hown & Hcnt). cbn [st wt] in *.
    destruct p; [|done|done]. cbn in Hl. destruct Hl as [-> ->].
    split; cbn [wid wstate after_tnotify wt wwaking_all]; try done.
    + apply tstep_elsewhere; try done; by destruct d.
    + right. by exists d, all.
    + by destruct all.
    + intros _ d' all' p' [= <- <- <-]. right. by exists Cs_inc.
Qed.
(** Where threads go to sleep, and what they continue with. *)
Definition not_notify (u : wuser) : Prop := forall d all p, wstate u <> WNotify d all p.

Definition resumes (m : nat -> Z) (i : nat) (k : Z -> wuser) : Prop :=
  forall r, wuser_ok m i (k r) /\ owns (wpr (k r)) = false /\ valid (wpr (k r)) = true /\ not_notify (k r).

Lemma wsleep m i u a v tm k : wuser_ok m i u -> wcode u = AWait a v tm k ->
  wwaking_all u = false /\ resumes m i k /\
  ((a = 0%nat /\ v = 2 /\ owns (wpr u) = false /\ forall r, urgent (wpr (k r)) = true) \/
   (a = 3%nat /\ wpr u = Outside /\ wv_sleeper v (Sleep a tm k))).
Proof.
  intros (Hid & Hw & Hu) Hc. destruct u as [x s]. cbn [wid wstate] in *. subst x. unfold wcode in Hc. cbn [wid wstate] in Hc.
  destruct s as [[d l|d p]|d tm' p|d tm' r|d all p]; try discriminate Hc.
  - apply act_map_wait in Hc as (k' & Hc & ->). destruct (typed_sleep _ _ _ _ _ _ _ _ _ Hu Hc) as (-> & -> & Ho & Hk).
    split; [done|]. split.
    + intros r. destruct (Hk r) as ((_ & Ho' & Hv) & Hok). pose proof Hok as (Ht & ? & ?).
      split_and!; done.
    + left. split_and!; try done. intros r. apply Hk.
  - apply act_map_wait in Hc as (k' & Hc & ->). split; [done|].
    pose proof Hu as (_ & Hpc & Hown & Hcnt). cbn [st] in *.
    destruct p as [|s p|s saved|s saved err p|r]; try discriminate Hc.
    + cbn [wait_typed] in Hc. apply act_map_wait in Hc as (k'' & Hc & ->).
      destruct p as [| | |saved []|]; discriminate Hc.
    + injection Hc as <- <- <- <-. destruct Hw as [Hd [Hne ->]]. cbn [after_twait]. split.
      * intros r. split_and!; done.
      * right. split_and!; try done. eexists _, _. split; [reflexivity|]. intros r. by exists d, tm', (saved_of d).
    + cbn [wait_typed] in Hc. apply act_map_wait in Hc as (k'' & Hc & ->).
      destruct p as [p| | |]; try discriminate Hc. cbn [condvar_relock] in Hc. apply act_map_wait in Hc as (k3 & Hc & ->).
      destruct p; try discriminate Hc. injection Hc as <- <- <- <-. cbn [after_twait]. split.
      * intros r. split_and!; done.
      * left. split_and!; done.
  - destruct p; discriminate Hc.
Qed.

Lemma wwake m i u a n u' : wuser_ok m i u -> wcode u = AWake a n u' ->
  wuser_ok m i u' /\ not_notify u' /\
  ((a = 0%nat /\ n = 1 /\ owns (wpr u) = false /\ owns (wpr u') = false /\ valid (wpr u') = true /\ wwaking_all u = false) \/
   (a = 3%nat /\ wpr u' = wpr u /\ exists d all, wstate u = WNotify d all Cs_wake /\ n = if all then U32_MAX else 1)).
Proof.
  intros (Hid & Hw & Hu) Hc. destruct u as [x s]. cbn [wid wstate] in *. subst x. unfold wcode in Hc. cbn [wid wstate] in Hc.
  destruct s as [[d l|d p]|d tm' p|d tm' r|d all p]; try discriminate Hc.
  - apply act_map_wake in Hc as (p' & Hc & ->). destruct (typed_wake _ _ _ _ _ _ _ _ Hu Hc) as (-> & -> & Ho & Ho' & Hv & Hok).
    pose proof Hok as (Ht & ? & ?). split; [|split; [done|]]; [|by left]. split_and!; done.
  - apply act_map_wake in Hc as (p' & Hc & ->). pose proof Hu as (_ & Hpc & Hown & Hcnt). cbn [st] in *.
    pose proof (unchecked mutex_type) as Huc.
    destruct p as [|s p|s saved|s saved err p|r]; try discriminate Hc.
    + cbn [wait_typed] in Hc. apply act_map_wake in Hc as (p'' & Hc & ->).
      destruct p as [| | |saved p|]; try discriminate Hc. cbn [condvar_unlock] in Hc. apply act_map_wake in Hc as (p3 & Hc & ->).
      destruct p; try discriminate Hc. injection Hc as <- <- <-. destruct Hw as (Hd & Hne & ->).
      assert ((saved_of d =? 0) = false) as ->.
      { apply Z.eqb_neq. unfold saved_of. destruct recursive; lia. }
      split; [|split; [done|by left]].
      split; [done|]. split; [done|]. split; [done|]. cbn [st wstate wt after_twait].
      unfold own_ok, count_ok, is_owner, expected_count in *. cbn in *. rewrite andb_false_r in *.
      split; [unfold depth_ok, U32_MAX; split; [destruct recursive; lia|done]|]. split; [done|]. by destruct recursive.
    + cbn [wait_typed] in Hc. apply act_map_wake in Hc as (p'' & Hc & ->).
      destruct p as [[]| | |]; discriminate Hc.
  - apply act_map_wake in Hc as (p' & Hc & ->). destruct p; try discriminate Hc. injection Hc as <- <- <-.
    split; [|split; [done|]]; [|right; split_and!; [done|done|by exists d, all]]. done.
Qed.
(** ** The invariant *)

Record wcv_inv (c : cfg wuser) : Prop := {
  wi_mutex : mutex_inv (project wpr c);
  wi_run i u : thr c !! i = Some (Run u) -> wuser_ok (words c) i u;
  wi_sleep i a tm k : thr c !! i = Some (Sleep a tm k) -> resumes (words c) i k /\
    (a = 0%nat \/ a = 3%nat /\ exists s, wv_sleeper s (Sleep a tm k));
  wi_few : Z.of_nat (length (thr c)) < U32_MAX;
  wi_bcast i u d all p : signals = false -> thr c !! i = Some (Run u) -> wstate u = WNotify d all p -> all = true;
  wi_woken i t s : signals = false -> thr c !! i = Some t -> wv_sleeper s t -> words c 3%nat <> s ->
    exists j u, thr c !! j = Some (Run u) /\ wwaking_all u = true;
}.

Lemma wv_sleeper_inj s s' t : wv_sleeper s t -> wv_sleeper s' t -> s = s'.
Proof.
  intros (tm & k & -> & H1) (tm' & k' & [= <- <-] & H2).
  destruct (H1 0) as (? & ? & ? & E1), (H2 0) as (? & ? & ? & E2). rewrite E1 in E2. by injection E2.
Qed.

Lemma few_ids c i t : wcv_inv c -> thr c !! i = Some t -> Z.of_nat i < NO_OWNER.
Proof. intros HI Hi%lookup_lt_Some. pose proof (wi_few c HI). unfold U32_MAX, NO_OWNER, U64_MAX in *. lia. Qed.

(** A step of one thread keeps what is known of the others. *)
Lemma wframe c i u m s' j v :
  wcv_inv c -> thr c !! i = Some (Run u) -> tstep_ok mutex_type (words c) m i (wt (wstate u)) s' ->
  j <> i -> Z.of_nat j < NO_OWNER ->
  (owns (wpr v) = true -> thr c !! j = Some (Run v)) -> wuser_ok (words c) j v -> wuser_ok m j v.
Proof.
  intros HI Hi Hs Hne Hj Hv (Hid & Hw & Hu). split; [done|]. split; [done|].
  eapply user_ok_frame; [exact Hs|done|done| |exact Hu]. cbn [st]. intros Ho.
  destruct (owns (proj (wt (wstate u)))) eqn:E; [|done]. exfalso. apply Hne.
  exact (mi_excl _ (wi_mutex c HI) _ _ _ _ (project_lookup wpr c j _ (Hv Ho)) (project_lookup wpr c i _ Hi) Ho E).
Qed.

Lemma wcv_inv_local c i u m u' :
  wcv_inv c -> thr c !! i = Some (Run u) -> wstep_ok (words c) m i u u' -> wcv_inv (mkCfg m (<[i := Run u']> (thr c))).
Proof.
  intros HI Hi [Ht Hid Hw Hseq Hq Ha]. pose proof HI as [HM HR HS HF HB HW]. split; cbn [thr words].
  - eapply project_local; [done|done|apply Ht|apply Ht].
  - intros j v [[-> [= ->]]|[Hne Hj]]%insert_cases.
    + split; [done|]. split; [done|]. by apply (tstep_user_ok _ _ _ _ _ (mkT _ _) Ht).
    + apply (wframe c i u m (wt (wstate u'))); try done; [by eapply few_ids|by eapply HR].
  - intros j a tm k [[_ ?]|[Hne Hj]]%insert_cases; [done|]. destruct (HS _ _ _ _ Hj) as [Hr Hk]. split; [|done].
    intros r. destruct (Hr r) as (Hok & Ho & Hv & Hn). split_and!; try done.
    apply (wframe c i u m (wt (wstate u'))); try done; [by eapply few_ids|congruence].
  - by rewrite length_insert.
  - intros j v d all p Hs [[-> [= ->]]|[_ Hj]]%insert_cases E; [|by eapply HB].
    destruct (Ha Hs d all p E) as [|[p' E']]; [done|by eapply HB].
  - intros j t s Hs [[_ ->]|[Hne Hj]]%insert_cases Hsl Hws; [by destruct Hsl as (? & ? & ? & _)|].
    destruct Hseq as [E|(d & all & E)].
    + rewrite E in Hws. destruct (HW j t s Hs Hj Hsl Hws) as (j' & w & Hj' & Hwk). exists j', w. split; [|done].
      rewrite list_lookup_insert_ne; [done|]. intros ->. congruence.
    + exists i, u'. split; [by eapply insert_here|]. unfold wwaking_all. rewrite E.
      destruct (Ha Hs d all Cs_wake E) as [->|[p' E']]; [done|]. by rewrite (HB i u d all p').
Qed.

Lemma wcv_inv_sleep c i u a v tm k :
  wcv_inv c -> thr c !! i = Some (Run u) -> wcode u = AWait a v tm k -> words c a = v ->
  wcv_inv (mkCfg (words c) (<[i := Sleep a tm k]> (thr c))).
Proof.
  intros HI Hi Hc Hw. pose proof HI as [HM HR HS HF HB HW].
  destruct (wsleep _ _ _ _ _ _ _ (HR _ _ Hi) Hc) as (Hq & Hres & Hk). split; cbn [thr words].
  - eapply project_sleep; [done|done|]. destruct Hk as [(-> & -> & Ho & Hurg)|(-> & Ho & _)]; [left|by right].
    split_and!; try done; intros r; split_and!; try done; apply Hres.
  - intros j w [[_ ?]|[_ Hj]]%insert_cases; [done|by apply HR].
  - intros j a' tm' k' [[-> [= -> -> ->]]|[_ Hj]]%insert_cases; [|by eapply HS]. split; [done|].
    destruct Hk as [(-> & _)|(-> & _ & Hs)]; [by left|right]. split; [done|by eexists].
  - by rewrite length_insert.
  - intros j w d all p Hs [[_ ?]|[_ Hj]]%insert_cases; [done|by eapply HB].
  - intros j t s Hs [[_ ->]|[Hne Hj]]%insert_cases Hsl Hws.
    + exfalso. destruct Hk as [(-> & _)|(-> & _ & Hv)]; [by destruct Hsl as (? & ? & [=] & _)|].
      apply Hws. rewrite Hw. by eapply wv_sleeper_inj.
    + destruct (HW j t s Hs Hj Hsl Hws) as (j' & w & Hj' & Hwk). exists j', w. split; [|done].
      rewrite list_lookup_insert_ne; [done|]. intros ->. congruence.
Qed.

Lemma wcv_inv_resume c i a tm k r :
  wcv_inv c -> thr c !! i = Some (Sleep a tm k) -> wcv_inv (mkCfg (words c) (<[i := Run (k r)]> (thr c))).
Proof.
  intros HI Hi. pose proof HI as [HM HR HS HF HB HW]. destruct (HS _ _ _ _ Hi) as [Hres Hk].
  destruct (Hres r) as (Hok & Ho & Hv & Hn). split; cbn [thr words].
  - by eapply project_resume.
  - intros j w [[-> [= ->]]|[_ Hj]]%insert_cases; [done|by apply HR].
  - intros j a' tm' k' [[_ ?]|[_ Hj]]%insert_cases; [done|by eapply HS].
  - by rewrite length_insert.
  - intros j w d all p Hs [[_ [= ->]]|[_ Hj]]%insert_cases E; [by apply Hn in E|by eapply HB].
  - intros j t s Hs [[_ ->]|[Hne Hj]]%insert_cases Hsl Hws; [by destruct Hsl as (? & ? & ? & _)|].
    destruct (HW j t s Hs Hj Hsl Hws) as (j' & w & Hj' & Hwk). exists j', w. split; [|done].
    rewrite list_lookup_insert_ne; [done|]. intros ->. congruence.
Qed.

Lemma wcv_inv_wake c i u a n u' js :
  wcv_inv c -> thr c !! i = Some (Run u) -> wcode u = AWake a n u' -> wake_ok a n js (thr c) = true ->
  wcv_inv (mkCfg (words c) (<[i := Run u']> (wake_all js (thr c)))).
Proof.
  intros HI Hi Hc Hok. pose proof HI as [HM HR HS HF HB HW].
  destruct (wwake _ _ _ _ _ _ (HR _ _ Hi) Hc) as (Hu' & Hn & Hk).
  assert (Hcase : forall j t, wake_all js (thr c) !! j = Some t -> thr c !! j = Some t \/
    exists tm k, thr c !! j = Some (Sleep a tm k) /\ t = Run (k TRONA_OK) /\ resumes (words c) j k).
  { intros j t Hj. destruct (wake_ok_cases _ _ _ _ _ _ Hok Hj) as [?|(tm & k & _ & Hs & ->)]; [by left|right].
    exists tm, k. split_and!; try done. by eapply HS. }
  split; cbn [thr words].
  - eapply project_wake; [done|done|done|]. destruct Hk as [(-> & -> & Ho & Ho' & Hv & _)|(-> & Ep & _)]; [by left|right].
    split_and!; [done|done|]. intros j tm k Hj. exists 3%nat, tm, k. split_and!; [done|done|]. intros r.
    destruct (HS _ _ _ _ Hj) as [Hres _]. by destruct (Hres r) as (_ & ? & ? & _).
  - intros j w [[-> [= ->]]|[_ Hj]]%insert_cases; [done|].
    destruct (Hcase _ _ Hj) as [?|(tm & k & _ & [= ->] & Hres)]; [by apply HR|apply Hres].
  - intros j a' tm k [[_ ?]|[_ Hj]]%insert_cases; [done|].
    destruct (Hcase _ _ Hj) as [?|(? & ? & _ & ? & _)]; [by eapply HS|done].
  - by rewrite length_insert, length_wake_all.
  - intros j w d all p Hs [[_ [= ->]]|[_ Hj]]%insert_cases E; [by apply Hn in E|].
    destruct (Hcase _ _ Hj) as [?|(tm & k & _ & [= ->] & Hres)]; [by eapply HB|].
    by destruct (Hres TRONA_OK) as (_ & _ & _ & H); apply H in E.
  - intros j t s Hs [[_ ->]|[Hne Hj]]%insert_cases Hsl Hws; [by destruct Hsl as (? & ? & ? & _)|].
    destruct (Hcase _ _ Hj) as [Hj0|(? & ? & _ & -> & _)]; [|by destruct Hsl as (? & ? & ? & _)].
    destruct Hk as [(-> & _ & _ & _ & _ & Hq)|(-> & _ & d & all & E & ->)].
    + destruct (HW j t s Hs Hj0 Hsl Hws) as (j' & w & Hj' & Hwk). exists j', w. split; [|done].
      rewrite list_lookup_insert_ne by (intros ->; congruence). by eapply not_sleeping_wake.
    + exfalso. rewrite (HB i u d all Cs_wake Hs Hi E) in Hok. destruct Hsl as (tm & k & -> & _).
      by apply (wake_ok_all _ _ _ _ j tm k Hok) in Hj.
Qed.

Lemma wcv_inv_moves c c' : wcv_inv c -> moves wcode c c' -> wcv_inv c'.
Proof.
  intros HI Hm. destruct Hm as [i u m u' Hi Hl|i u a v tm k Hi Hc Hw|i u a n u' js Hi Hc Hok|i a tm k r Hi _].
  - eapply wcv_inv_local; [done|done|]. apply wstep; [by eapply few_ids|by eapply (wi_run c HI)|by apply local_inv].
  - by eapply wcv_inv_sleep.
  - by eapply wcv_inv_wake.
  - by eapply wcv_inv_resume.
Qed.

Lemma tnew_lookup n i t :
  thr (TypedCondvar_new n) !! i = Some t -> t = Run (mkW (Z.of_nat i) (WMutex (TIdle 0 None))) /\ (i < n)%nat.
Proof.
  unfold TypedCondvar_new. cbn. intros H.
  apply (list_lookup_fmap_Some_1 _ _ _ _) in H as (x & -> & [-> ?]%lookup_seq). done.
Qed.

Lemma wcv_inv_new n : Z.of_nat n < U32_MAX -> wcv_inv (TypedCondvar_new n).
Proof.
  intros Hn. assert (Hno : Z.of_nat n < NO_OWNER) by (unfold NO_OWNER, U32_MAX, U64_MAX in *; lia).
  pose proof (typed_inv_new mutex_type n Hno) as [HM HT _]. split.
  - assert (project wpr (TypedCondvar_new n) = inner (TypedMutex_new n)) as ->; [|done].
    unfold project, inner, TypedCondvar_new, TypedMutex_new. cbn. by rewrite !List.map_map.
  - intros i u [[= ->] Hi]%tnew_lookup. split; [done|]. split; [done|].
    apply (HT i (Run (mkT (Z.of_nat i) (TIdle 0 None)))). unfold TypedMutex_new. cbn.
    change (map ?f (seq 0 n)) with (f <$> seq 0 n). by rewrite list_lookup_fmap, lookup_seq_lt.
  - intros i a tm k [? _]%tnew_lookup. done.
  - unfold TypedCondvar_new. cbn. by rewrite length_map, length_seq.
  - intros i u d all p _ [[= ->] _]%tnew_lookup. done.
  - intros i t s _ [-> _]%tnew_lookup (? & ? & ? & _). done.
Qed.

Lemma wcv_inv_reachable n c : Z.of_nat n < U32_MAX -> reachable wcode (TypedCondvar_new n) c -> wcv_inv c.
Proof. intros Hn. apply reachable_inv; [by apply wcv_inv_new|apply wcv_inv_moves]. Qed.

(** The depth of a thread between two operations. *)
Definition depth_of (u : wuser) : option nat :=
  match wstate u with WMutex (TIdle d _) | WBack d _ _ => Some d | _ => None end.
End typed.


(** Thread 0 locks a RECURSIVE mutex twice and waits; thread 1 broadcasts; thread
    0 comes back. *)
Definition nested_wait : list event :=
  [GoPick 0 1; Go 0; Go 0; Go 0; Go 0; GoPick 0 1; Go 0; Go 0;
   GoPick 0 3; Go 0; Go 0; Go 0; Go 0; Go 0; Go 0;
   GoPick 1 5; Go 1; GoWake 1 [0%nat];
   Go 0; Go 0; Go 0].

Definition nested_wait_cfg : cfg wuser :=
  default (TypedCondvar_new 2) (run (wcode MUTEX_RECURSIVE [] false) nested_wait (TypedCondvar_new 2)).

Lemma nested_wait_reachable : reachable (wcode MUTEX_RECURSIVE [] false) (TypedCondvar_new 2) nested_wait_cfg.
Proof. exists nested_wait. vm_compute. reflexivity. Qed.

