(* ===== verification/Abi.v ===== *)
(** The binary interface of [src/uapi]: how [#[repr(C)]] structures lie in
    memory, every structure of [src/uapi/types] in that form, and the constants
    no modelled function refers to.

    [cty] describes a C-compatible type; [alignof], [sizeof] and [place] follow
    the layout rule of [repr(C)]: each field at the next multiple of its
    alignment, the whole padded to the largest one.  [encode] and [decode] are
    the bytes of a value, integers little-endian, padding zero.  A signed integer
    or a pointer is the unsigned integer of the same bits.

    The theorems say that fields never overlap and are aligned, that decoding
    inverts encoding, that the sizes the comments of the sources promise are the
    real ones, that every [zeroed()] is memory full of zeros, and that the byte
    offsets used by the models of the ELF and PE loaders, of the capability table
    and of thread-local storage are the offsets of this layout. *)

From Stdlib Require Import String.
From S2P Require Import Prelude Consts Kernel CapTable Elf Pe Protocol Serial ByteMem Tls Pthread.
Import String.StringSyntax.

(** ** Types, sizes, offsets *)

Inductive cty :=
| CInt (n : nat)                                  (* 1, 2, 4 or 8 bytes *)
| CArr (n : nat) (t : cty)
| CStruct (fs : list (string * cty)).

Definition up (o a : nat) : nat := ((o + (a - 1)) / a * a)%nat.

Fixpoint alignof (t : cty) : nat :=
  match t with
  | CInt n => n
  | CArr _ t => alignof t
  | CStruct fs => fold_right (fun f a => Nat.max (alignof (snd f)) a) 1%nat fs
  end.

Fixpoint sizeof (t : cty) : nat :=
  match t with
  | CInt n => n
  | CArr n t => n * sizeof t
  | CStruct fs => up (fold_left (fun o f => up o (alignof (snd f)) + sizeof (snd f))%nat fs 0%nat) (alignof t)
  end.

(** The offset of every field of a structure whose first free byte is [o]. *)
Fixpoint place (o : nat) (fs : list (string * cty)) : list (string * nat * cty) :=
  match fs with
  | [] => []
  | (f, t) :: rest => let o' := up o (alignof t) in (f, o', t) :: place (o' + sizeof t) rest
  end.

Definition offsetof (t : cty) (f : string) : option nat :=
  match t with
  | CStruct fs => (fun x => snd (fst x)) <$> find (fun x => String.eqb (fst (fst x)) f) (place 0 fs)
  | _ => None
  end.

Definition u8 : cty := CInt 1.
Definition u16 : cty := CInt 2.
Definition u32 : cty := CInt 4.
Definition u64 : cty := CInt 8.
Definition ptr : cty := CInt 8.
Definition usize : cty := CInt 8.

Fixpoint cty_wf (t : cty) : bool :=
  match t with
  | CInt n => bool_decide (n ∈ [1; 2; 4; 8]%nat)
  | CArr _ t => cty_wf t
  | CStruct fs => forallb (fun f => cty_wf (snd f)) fs
  end.

(** ** Values and their bytes *)

Inductive cval := VInt (z : Z) | VArr (vs : list cval) | VRec (vs : list cval).

Definition pad (n : nat) : list Z := replicate n 0.

Fixpoint encode (t : cty) (v : cval) {struct t} : list Z :=
  match t, v with
  | CInt n, VInt z => le_bytes n z
  | CArr _ t, VArr vs => concat (map (encode t) vs)
  | CStruct fs, VRec vs =>
      let body := (fix go (o : nat) (fs : list (string * cty)) (vs : list cval) {struct fs} : list Z :=
        match fs, vs with
        | (_, t) :: fs', v :: vs' =>
            let o' := up o (alignof t) in
            pad (o' - o) ++ encode t v ++ go (o' + sizeof t)%nat fs' vs'
        | _, _ => []
        end) 0%nat fs vs in
      body ++ pad (sizeof (CStruct fs) - length body)
  | _, _ => []
  end.

(** [*(mem.add(off) as *const T)]. *)
Fixpoint decode (t : cty) (mem : list Z) (off : nat) {struct t} : cval :=
  match t with
  | CInt n => VInt (le_read n mem off)
  | CArr n t => VArr (map (fun i => decode t mem (off + i * sizeof t)) (seq 0 n))
  | CStruct fs =>
      VRec ((fix go (o : nat) (fs : list (string * cty)) {struct fs} : list cval :=
        match fs with
        | [] => []
        | (_, t) :: fs' => let o' := up o (alignof t) in decode t mem (off + o') :: go (o' + sizeof t)%nat fs'
        end) 0%nat fs)
  end.

(** The values of a type. *)
Fixpoint has_type (t : cty) (v : cval) {struct t} : Prop :=
  match t, v with
  | CInt n, VInt z => 0 <= z < 256 ^ Z.of_nat n
  | CArr n t, VArr vs => length vs = n /\ Forall (has_type t) vs
  | CStruct fs, VRec vs =>
      (fix go (fs : list (string * cty)) (vs : list cval) {struct fs} : Prop :=
        match fs, vs with
        | [], [] => True
        | (_, t) :: fs', v :: vs' => has_type t v /\ go fs' vs'
        | _, _ => False
        end) fs vs
  | _, _ => False
  end.

(** The value with every integer 0. *)
Fixpoint czero (t : cty) : cval :=
  match t with
  | CInt _ => VInt 0
  | CArr n t => VArr (replicate n (czero t))
  | CStruct fs => VRec (map (fun f => czero (snd f)) fs)
  end.

(** ** The structures *)

#[local] Open Scope string_scope.

(** *** [src/uapi/types/core.rs] *)

Definition TronaResult_c : cty := CStruct [
  ("error", u64); ("value", u64)].

Definition TronaMsg_c : cty := CStruct [
  ("label", u64); ("length", u64); ("regs", CArr 32 u64)].

Definition TronaMsg_zero_c : cval := VRec [VInt 0; VInt 0; VArr (replicate 32 (VInt 0))].

Definition IpcBuffer_c : cty := CStruct [
  ("msg", CArr 34 u64); ("badge", u64); ("caps", CArr 4 u64); ("receive_cnode", u64);
  ("receive_index", u64); ("receive_depth", u64); ("timeout_ns", u64); ("reserved", CArr IPC_BUFFER_RESERVED_WORDS u64)].

Definition IpcContext_c : cty := CStruct [
  ("ipc_buffer", ptr); ("send_cap_count", u32)].

Definition IpcContext_zero_c : cval := VRec [VInt 0; VInt 0].

Definition TronaCspaceLayoutV1_c : cty := CStruct [
  ("version", u64); ("flags", u64); ("cnode_bits", u64); ("frame_slot_base", u64);
  ("alloc_base", u64); ("alloc_limit", u64); ("recv_base", u64); ("recv_limit", u64);
  ("expand_base", u64); ("expand_limit", u64)].

Definition TronaCspaceLayoutV1_zero_c : cval := VRec [VInt 0; VInt 0; VInt 0; VInt 0; VInt 0; VInt 0; VInt 0; VInt 0; VInt 0; VInt 0].

Definition TronaCapEntryV1_c : cty := CStruct [
  ("role_id", u32); ("slot", u32); ("rights", u32); ("flags", u32)].

Definition TronaCapEntryV1_zero_c : cval := VRec [VInt 0; VInt 0; VInt 0; VInt 0].

Definition TronaCapTableV1_c : cty := CStruct [
  ("magic", u32); ("version", u32); ("count", u32); ("reserved", u32);
  ("entries", CArr 0 TronaCapEntryV1_c)].

Definition TronaCapTableV1_zero_c : cval := VRec [VInt 0; VInt 0; VInt 0; VInt 0; VArr []].

Definition MAX_REQUIRE_PROVIDER : nat := 32.
Definition MAX_REQUIRE_ALIAS : nat := 24.
Definition MAX_REQUIRES : nat := 8.
Definition REQUIRE_KIND_SYSTEM : Z := 0.
Definition REQUIRE_KIND_LOCAL : Z := 1.
Definition TronaRequireDefV1_c : cty := CStruct [
  ("provider", CArr MAX_REQUIRE_PROVIDER u8); ("provider_len", u8); ("alias", CArr MAX_REQUIRE_ALIAS u8); ("alias_len", u8);
  ("kind", u8); ("badged", u8); ("raw", u8); ("_pad", u8);
  ("role_id", u32)].

Definition TronaRequireDefV1_zero_c : cval := VRec [VArr (replicate MAX_REQUIRE_PROVIDER (VInt 0)); VInt 0; VArr (replicate MAX_REQUIRE_ALIAS (VInt 0)); VInt 0; VInt REQUIRE_KIND_SYSTEM; VInt 0; VInt 0; VInt 0; VInt 0].

Definition MAX_PROCMGR_REQUIRES : nat := 6.
Definition MAX_PROCMGR_SERVICE_DEFS : nat := 14.
Definition TRONA_PROCMGR_DEFS_MAGIC : Z := 0x44534D50.
Definition TRONA_PROCMGR_DEFS_VERSION : Z := 1.
Definition TronaProcmgrRequireV1_c : cty := CStruct [
  ("provider", CArr MAX_REQUIRE_PROVIDER u8); ("provider_len", u8); ("kind", u8); ("badged", u8);
  ("raw", u8); ("role_id", u32)].

Definition TronaProcmgrRequireV1_zero_c : cval := VRec [VArr (replicate MAX_REQUIRE_PROVIDER (VInt 0)); VInt 0; VInt REQUIRE_KIND_SYSTEM; VInt 0; VInt 0; VInt 0].

Definition TronaProcmgrServiceDefV1_c : cty := CStruct [
  ("name", CArr MAX_REQUIRE_PROVIDER u8); ("name_len", u8); ("bootstrap_privileged", u8); ("require_count", u8);
  ("_pad", u8); ("requires", CArr MAX_PROCMGR_REQUIRES TronaProcmgrRequireV1_c)].

Definition TronaProcmgrServiceDefV1_zero_c : cval := VRec [VArr (replicate MAX_REQUIRE_PROVIDER (VInt 0)); VInt 0; VInt 0; VInt 0; VInt 0; VArr (replicate MAX_PROCMGR_REQUIRES TronaProcmgrRequireV1_zero_c)].

Definition TronaProcmgrServiceDefsV1_c : cty := CStruct [
  ("magic", u32); ("version", u32); ("count", u32); ("reserved", u32);
  ("entries", CArr 0 TronaProcmgrServiceDefV1_c)].

Definition TronaProcmgrServiceDefsV1_zero_c : cval := VRec [VInt 0; VInt 0; VInt 0; VInt 0; VArr []].

Definition Elf64Ehdr_c : cty := CStruct [
  ("e_ident", CArr 16 u8); ("e_type", u16); ("e_machine", u16); ("e_version", u32);
  ("e_entry", u64); ("e_phoff", u64); ("e_shoff", u64); ("e_flags", u32);
  ("e_ehsize", u16); ("e_phentsize", u16); ("e_phnum", u16); ("e_shentsize", u16);
  ("e_shnum", u16); ("e_shstrndx", u16)].

Definition Elf64Phdr_c : cty := CStruct [
  ("p_type", u32); ("p_flags", u32); ("p_offset", u64); ("p_vaddr", u64);
  ("p_paddr", u64); ("p_filesz", u64); ("p_memsz", u64); ("p_align", u64)].

Definition Elf64Dyn_c : cty := CStruct [
  ("d_tag", u64); ("d_val", u64)].

Definition Elf64Rela_c : cty := CStruct [
  ("r_offset", u64); ("r_info", u64); ("r_addend", u64)].

Definition ElfLoadResult_c : cty := CStruct [
  ("entry", u64); ("base", u64); ("brk", u64)].

Definition ElfPageEntry_c : cty := CStruct [
  ("vaddr", u64); ("frame_cap", u64); ("flags", u64)].

Definition ElfLoaderCtx_c : cty := CStruct [
  ("untyped", u64); ("self_vspace", u64); ("child_vspace", u64); ("scratch_vaddr", u64);
  ("next_frame_slot", u64); ("alloc_frame_slot", ptr); ("alloc_opaque", ptr); ("record_page", ptr);
  ("record_opaque", ptr)].

Definition CpioEntry_c : cty := CStruct [
  ("name", ptr); ("name_len", usize); ("data", ptr); ("data_len", usize)].

Definition CpioEntry_zero_c : cval := VRec [VInt 0; VInt 0; VInt 0; VInt 0].

Definition CpioEntryExt_c : cty := CStruct [
  ("name", ptr); ("name_len", usize); ("data", ptr); ("data_len", usize);
  ("mode", u32); ("uid", u32); ("gid", u32); ("nlink", u32);
  ("mtime", u32); ("ino", u32)].

Definition CpioEntryExt_zero_c : cval := VRec [VInt 0; VInt 0; VInt 0; VInt 0; VInt 0; VInt 0; VInt 0; VInt 0; VInt 0; VInt 0].

Definition Timespec_c : cty := CStruct [
  ("tv_sec", u64); ("tv_nsec", u64)].

Definition Timespec_zero_c : cval := VRec [VInt 0; VInt 0].

Definition Timeval_c : cty := CStruct [
  ("tv_sec", u64); ("tv_usec", u64)].

Definition Timeval_zero_c : cval := VRec [VInt 0; VInt 0].

Definition CleanupHandler_c : cty := CStruct [
  ("routine", ptr); ("arg", ptr); ("next", ptr)].

Definition ThreadLocalBlock_c : cty := CStruct [
  ("self_ptr", ptr); ("ipc_ctx", IpcContext_c); ("thread_id", u64); ("errno", u32);
  ("_pad0", u32); ("desc", ptr); ("cancel_state", u32); ("cancel_type", u32);
  ("cancel_pending", u32); ("_pad1", u32); ("cleanup_stack", ptr); ("blocked_futex_addr", u64);
  ("strtok_save", ptr); ("libc_tm_buf", CArr 56 u8); ("libc_asctime_buf", CArr 64 u8); ("libc_ctime_buf", CArr 64 u8)].

Definition ThreadLocalBlock_zero_c : cval := VRec [VInt 0; IpcContext_zero_c; VInt 0; VInt 0; VInt 0; VInt 0; VInt 0; VInt 0; VInt 0; VInt 0; VInt 0; VInt 0; VInt 0; VArr (replicate 56 (VInt 0)); VArr (replicate 64 (VInt 0)); VArr (replicate 64 (VInt 0))].

Definition AbiThreadPointerBlock_c : cty := CStruct [
  ("runtime_tcb", ptr); ("reserved", u64)].

Definition AbiThreadPointerBlock_zero_c : cval := VRec [VInt 0; VInt 0].

Definition StaticTlsModule_c : cty := CStruct [
  ("module_id", u64); ("template_addr", u64); ("filesz", u64); ("memsz", u64);
  ("tp_offset", u64)].

Definition StaticTlsModule_zero_c : cval := VRec [VInt 0; VInt 0; VInt 0; VInt 0; VInt 0].

(** *** [src/uapi/types/pe.rs] *)

Definition DosHeader_c : cty := CStruct [
  ("e_magic", u16); ("e_cblp", u16); ("e_cp", u16); ("e_crlc", u16);
  ("e_cparhdr", u16); ("e_minalloc", u16); ("e_maxalloc", u16); ("e_ss", u16);
  ("e_sp", u16); ("e_csum", u16); ("e_ip", u16); ("e_cs", u16);
  ("e_lfarlc", u16); ("e_ovno", u16); ("e_res", CArr 4 u16); ("e_oemid", u16);
  ("e_oeminfo", u16); ("e_res2", CArr 10 u16); ("e_lfanew", u32)].

Definition CoffHeader_c : cty := CStruct [
  ("machine", u16); ("number_of_sections", u16); ("time_date_stamp", u32); ("pointer_to_symbol_table", u32);
  ("number_of_symbols", u32); ("size_of_optional_header", u16); ("characteristics", u16)].

Definition DataDirectory_c : cty := CStruct [
  ("virtual_address", u32); ("size", u32)].

Definition DataDirectory_zero_c : cval := VRec [VInt 0; VInt 0].

Definition OptionalHeader64_c : cty := CStruct [
  ("magic", u16); ("major_linker_version", u8); ("minor_linker_version", u8); ("size_of_code", u32);
  ("size_of_initialized_data", u32); ("size_of_uninitialized_data", u32); ("address_of_entry_point", u32); ("base_of_code", u32);
  ("image_base", u64); ("section_alignment", u32); ("file_alignment", u32); ("major_os_version", u16);
  ("minor_os_version", u16); ("major_image_version", u16); ("minor_image_version", u16); ("major_subsystem_version", u16);
  ("minor_subsystem_version", u16); ("win32_version_value", u32); ("size_of_image", u32); ("size_of_headers", u32);
  ("checksum", u32); ("subsystem", u16); ("dll_characteristics", u16); ("size_of_stack_reserve", u64);
  ("size_of_stack_commit", u64); ("size_of_heap_reserve", u64); ("size_of_heap_commit", u64); ("loader_flags", u32);
  ("number_of_rva_and_sizes", u32)].

Definition SectionHeader_c : cty := CStruct [
  ("name", CArr 8 u8); ("virtual_size", u32); ("virtual_address", u32); ("size_of_raw_data", u32);
  ("pointer_to_raw_data", u32); ("pointer_to_relocations", u32); ("pointer_to_linenumbers", u32); ("number_of_relocations", u16);
  ("number_of_linenumbers", u16); ("characteristics", u32)].

Definition ImportDescriptor_c : cty := CStruct [
  ("original_first_thunk", u32); ("time_date_stamp", u32); ("forwarder_chain", u32); ("name_rva", u32);
  ("first_thunk", u32)].

Definition BaseRelocation_c : cty := CStruct [
  ("virtual_address", u32); ("size_of_block", u32)].

Definition PeLoadResult_c : cty := CStruct [
  ("entry", u64); ("base", u64); ("image_end", u64)].

Definition PeLoadResult_zero_c : cval := VRec [VInt 0; VInt 0; VInt 0].

(** *** [src/uapi/types/posix.rs] *)

Definition TronaStat_c : cty := CStruct [
  ("st_ino", u64); ("st_mode", u64); ("st_nlink", u64); ("st_size", u64);
  ("st_uid", u64); ("st_gid", u64); ("st_mtime", u64); ("st_type", u64)].

Definition TronaStat_zero_c : cval := VRec [VInt 0; VInt 0; VInt 0; VInt 0; VInt 0; VInt 0; VInt 0; VInt 0].

Definition TronaDirent_c : cty := CStruct [
  ("d_ino", u64); ("d_type", u8); ("d_namlen", u8); ("d_name", CArr 128 u8)].

Definition TronaDirent_zero_c : cval := VRec [VInt 0; VInt 0; VInt 0; VArr (replicate 128 (VInt 0))].

Definition SockAddrUn_c : cty := CStruct [
  ("sun_family", u16); ("sun_path", CArr 64 u8)].

Definition SockAddrUn_zero_c : cval := VRec [VInt 0; VArr (replicate 64 (VInt 0))].

Definition SockAddrIn_c : cty := CStruct [
  ("family", u16); ("port", u16); ("addr", u32)].

Definition SockAddrIn_zero_c : cval := VRec [VInt 0; VInt 0; VInt 0].

Definition PollFd_c : cty := CStruct [
  ("fd", u32); ("events", u16); ("revents", u16)].

Definition PollFd_zero_c : cval := VRec [VInt U32_MAX; VInt 0; VInt 0].

Definition Termios_c : cty := CStruct [
  ("c_iflag", u32); ("c_oflag", u32); ("c_cflag", u32); ("c_lflag", u32);
  ("c_line", u8); ("c_cc", CArr 32 u8); ("c_ispeed", u32); ("c_ospeed", u32)].

Definition Termios_zero_c : cval := VRec [VInt 0; VInt 0; VInt 0; VInt 0; VInt 0; VArr (replicate 32 (VInt 0)); VInt 0; VInt 0].

Definition EpollEvent_c : cty := CStruct [
  ("events", u32); ("data", u64)].

Definition EpollEvent_zero_c : cval := VRec [VInt 0; VInt 0].

Definition DnsResult_c : cty := CStruct [
  ("count", u32); ("ttl", u32); ("addrs", CArr 4 u32)].

Definition DnsResult_zero_c : cval := VRec [VInt 0; VInt 0; VArr (replicate 4 (VInt 0))].

Definition DnsAddrInfo_c : cty := CStruct [
  ("family", u32); ("socktype", u32); ("protocol", u32); ("addr", SockAddrIn_c)].

Definition DnsAddrInfo_zero_c : cval := VRec [VInt 0; VInt 0; VInt 0; SockAddrIn_zero_c].

#[local] Close Scope string_scope.

(** ** The constants *)

(** *** Kernel constants ([src/uapi/consts/kernel.rs]) *)

Definition SYS_DEBUG_PUTSTR : Z := 14.
Definition SYS_DEBUG_CONSOLE_CONTROL : Z := 16.
Definition IPC_RECV_SOURCE_NOTIFICATION : Z := U64_MAX.
Definition CLOCK_REALTIME : Z := 0.
Definition CLOCK_MONOTONIC : Z := 1.
Definition TRONA_TOO_LARGE : Z := 0x11.
Definition TRONA_NOT_SUPPORTED : Z := 0x12.
Definition TRONA_READONLY : Z := 0x13.
Definition TRONA_PENDING : Z := 0x80.
Definition VSPACE_FLAG_CACHE_DISABLE : Z := Z.shiftl 1 3.
Definition VSPACE_FLAG_WRITE_THROUGH : Z := Z.shiftl 1 4.
Definition VSPACE_FLAG_COW : Z := Z.shiftl 1 5.
Definition OBJ_UNTYPED : Z := 1.
Definition OBJ_ENDPOINT : Z := 2.
Definition OBJ_NOTIFICATION : Z := 3.
Definition OBJ_CNODE : Z := 5.
Definition OBJ_VSPACE : Z := 6.
Definition OBJ_IRQ_HANDLER : Z := 8.
Definition OBJ_IO_PORT : Z := 9.
Definition OBJ_MEMORY_OBJECT : Z := 11.
Definition INITRD_VADDR : Z := 0x0000000001000000.
Definition SCRATCH_VADDR : Z := 0x0000000002000000.
Definition AT_TRONA_IPC_BUFFER : Z := 0x100C.
Definition AT_TRONA_SC_CAP : Z := 0x100E.
Definition LOCAL_ROLE_BASE : Z := 0x0100.
Definition LOCAL_ROLE_END : Z := 0x0FFF.
Definition CAP_TBL_RIGHT_READ : Z := Z.shiftl 1 0.
Definition CAP_TBL_RIGHT_WRITE : Z := Z.shiftl 1 1.
Definition CAP_TBL_RIGHT_GRANT : Z := Z.shiftl 1 2.
Definition CAP_TBL_RIGHT_INVOKE : Z := Z.shiftl 1 3.
Definition CAP_TBL_RIGHT_BADGE : Z := Z.shiftl 1 4.
Definition CAP_TBL_RIGHT_DEVICE : Z := Z.shiftl 1 5.
Definition CAP_TBL_FLAG_BADGED : Z := Z.shiftl 1 0.
Definition CAP_TBL_FLAG_RAW : Z := Z.shiftl 1 1.
Definition CAP_TBL_FLAG_OPTIONAL : Z := Z.shiftl 1 2.
Definition CAP_TBL_FLAG_NOTIFICATION : Z := Z.shiftl 1 3.
Definition CAP_TBL_FLAG_UNTYPED : Z := Z.shiftl 1 4.
Definition CAP_TBL_FLAG_DEVICE_UT : Z := Z.shiftl 1 5.
Definition CAP_TBL_FLAG_IO_PORT : Z := Z.shiftl 1 6.
Definition AT_SALTYOS_PE_BASE : Z := 0x2000.
Definition AT_SALTYOS_PE_SIZE : Z := 0x2001.
Definition AT_SALTYOS_WIN32SRV : Z := 0x2002.
Definition AT_SALTYOS_KERNEL32_BASE : Z := 0x2003.
Definition AT_SALTYOS_KERNEL32_SIZE : Z := 0x2004.
Definition SUBSYSTEM_POSIX : Z := 0.
Definition SUBSYSTEM_WIN32 : Z := 1.
Definition SUBSYSTEM_STARNITE : Z := 2.
Definition IMAGE_SCN_CNT_CODE : Z := 0x00000020.
Definition IMAGE_SCN_CNT_INITIALIZED_DATA : Z := 0x00000040.
Definition IMAGE_SCN_CNT_UNINITIALIZED_DATA : Z := 0x00000080.
Definition IMAGE_DIRECTORY_ENTRY_EXPORT : Z := 0.
Definition IMAGE_DIRECTORY_ENTRY_IAT : Z := 12.
Definition IMAGE_NUMBEROF_DIRECTORY_ENTRIES : Z := 16.
Definition IMAGE_FILE_EXECUTABLE_IMAGE : Z := 0x0002.
Definition IMAGE_FILE_LARGE_ADDRESS_AWARE : Z := 0x0020.
Definition IMAGE_FILE_DLL : Z := 0x2000.

(** *** Server constants ([src/uapi/consts/server.rs]) *)

Definition SPAWN_READY_IMMEDIATE : Z := 0.
Definition SPAWN_READY_NOTIFY : Z := 1.
Definition SPAWN_FLAG_USE_PRE_EP : Z := Z.shiftl 1 0.
Definition SPAWN_FLAG_RESPAWN : Z := Z.shiftl 1 1.
Definition SPAWN_FLAG_START_SUSPENDED : Z := Z.shiftl 1 2.
Definition MMAP_BACKING_NONE : Z := 0.
Definition MMAP_BACKING_FILE : Z := 1.
Definition MMAP_BACKING_MOUNT : Z := 2.
Definition MMAP_BACKING_DEVICE : Z := 3.
Definition MMAP_BACKING_SHM : Z := 4.
Definition MMAP_OBJECT_OPT_LAZY : Z := Z.shiftl 1 0.
Definition MMAP_OBJECT_OPT_WRITEBACK : Z := Z.shiftl 1 1.
Definition INET_OP_CONNECT : Z := 1.
Definition INET_OP_RECV : Z := 2.
Definition INET_OP_ACCEPT : Z := 3.
Definition INET_OP_RECVFROM : Z := 4.
Definition INET_RECV_TIMESTAMP_NONE : Z := U64_MAX.
Definition NETCFG_STATE_DOWN : Z := 0.
Definition NETCFG_STATE_CONFIGURING : Z := 1.
Definition NETCFG_STATE_READY : Z := 2.
Definition NETCFG_STATE_FALLBACK : Z := 3.
Definition MM_SYNC_BACKING_TRUNCATE : Z := Z.shiftl 1 0.

(** *** The labels of the terminal server ([src/uapi/protocol/server.rs]) *)

Definition POSIX_TTYSRV_GET_FG_PGRP : Z := 1.
Definition POSIX_TTYSRV_SET_FG_PGRP : Z := 2.
Definition POSIX_TTYSRV_SET_CTTY : Z := 3.
Definition POSIX_TTYSRV_DROP_CTTY : Z := 4.
Definition POSIX_TTYSRV_PTY_ALLOC : Z := 10.
Definition POSIX_TTYSRV_PTY_READ : Z := 11.
Definition POSIX_TTYSRV_PTY_WRITE : Z := 12.
Definition POSIX_TTYSRV_PTY_CLOSE : Z := 13.
Definition POSIX_TTYSRV_PTY_TCGETATTR : Z := 14.
Definition POSIX_TTYSRV_PTY_TCSETATTR : Z := 15.
Definition POSIX_TTYSRV_PTY_IOCTL : Z := 16.
Definition POSIX_TTYSRV_PTY_POLL : Z := 17.
Definition POSIX_TTYSRV_INPUT_EVENT : Z := 18.
Definition POSIX_TTYSRV_PTY_COLLECT : Z := 19.
Definition POSIX_TTYSRV_PTY_MASTER_WRITE : Z := 20.
Definition POSIX_TTYSRV_CLIENT_EXIT : Z := 21.

(** *** POSIX constants ([src/uapi/consts/posix.rs]) *)

Definition O_RDONLY : Z := 0x0000.
Definition O_WRONLY : Z := 0x0001.
Definition O_RDWR : Z := 0x0002.
Definition O_ACCMODE : Z := 0x0003.
Definition O_CREAT : Z := 0x0040.
Definition O_EXCL : Z := 0x0080.
Definition O_NOCTTY : Z := 0x0100.
Definition O_TRUNC : Z := 0x0200.
Definition O_APPEND : Z := 0x0400.
Definition O_NONBLOCK : Z := 0x0800.
Definition O_CLOEXEC : Z := 0x80000.
Definition SEEK_SET : Z := 0.
Definition SEEK_CUR : Z := 1.
Definition SEEK_END : Z := 2.
Definition S_IFMT : Z := 0xf000.
Definition S_IFDIR : Z := 0x4000.
Definition S_IFCHR : Z := 0x2000.
Definition S_IFREG : Z := 0x8000.
Definition S_IFSOCK : Z := 0xc000.
Definition S_IFIFO : Z := 0x1000.
Definition S_IFLNK : Z := 0xa000.
Definition S_ISUID : Z := 0x800.
Definition S_ISGID : Z := 0x400.
Definition S_ISVTX : Z := 0x200.
Definition S_IRWXU : Z := 0x1c0.
Definition S_IRUSR : Z := 0x100.
Definition S_IWUSR : Z := 0x80.
Definition S_IXUSR : Z := 0x40.
Definition S_IRWXG : Z := 0x38.
Definition S_IRGRP : Z := 0x20.
Definition S_IWGRP : Z := 0x10.
Definition S_IXGRP : Z := 0x8.
Definition S_IRWXO : Z := 0x7.
Definition S_IROTH : Z := 0x4.
Definition S_IWOTH : Z := 0x2.
Definition S_IXOTH : Z := 0x1.
Definition NGROUPS_MAX : Z := 32.
Definition F_OK : Z := 0.
Definition R_OK : Z := 4.
Definition W_OK : Z := 2.
Definition X_OK : Z := 1.
Definition DT_UNKNOWN : Z := 0.
Definition DT_REG : Z := 8.
Definition DT_DIR : Z := 4.
Definition DT_CHR : Z := 2.
Definition DT_SOCK : Z := 12.
Definition DT_FIFO : Z := 1.
Definition DT_LNK : Z := 10.
Definition WNOHANG : Z := 1.
Definition SIGHUP : Z := 1.
Definition SIGINT : Z := 2.
Definition SIGQUIT : Z := 3.
Definition SIGABRT : Z := 6.
Definition SIGUSR1 : Z := 10.
Definition SIGUSR2 : Z := 12.
Definition SIGPIPE : Z := 13.
Definition SIGALRM : Z := 14.
Definition SIGTERM : Z := 15.
Definition PROT_NONE : Z := 0x0.
Definition PROT_EXEC : Z := 0x4.
Definition MAP_SHARED : Z := 0x01.
Definition MAP_FIXED : Z := 0x10.
Definition AF_UNIX : Z := 1.
Definition SOCK_DGRAM : Z := 2.
Definition IPPROTO_UDP : Z := 17.
Definition SOCK_RAW : Z := 3.
Definition IPPROTO_ICMP : Z := 1.
Definition IPPROTO_IP : Z := 0.
Definition SCM_RIGHTS : Z := 1.
Definition SCM_TIMESTAMP : Z := 2.
Definition SOL_SOCKET : Z := 1.
Definition SO_REUSEADDR : Z := 2.
Definition SO_TYPE : Z := 3.
Definition SO_ERROR : Z := 4.
Definition SO_BROADCAST : Z := 6.
Definition SO_SNDBUF : Z := 7.
Definition SO_RCVBUF : Z := 8.
Definition SO_TIMESTAMP : Z := 0x00000400.
Definition SO_PROTOCOL : Z := 38.
Definition SO_DOMAIN : Z := 39.
Definition SO_TS_CLOCK : Z := 0x1017.
Definition SO_TS_MONOTONIC : Z := 3.
Definition IP_TTL : Z := 2.
Definition SHUT_RD : Z := 0.
Definition SHUT_WR : Z := 1.
Definition SHUT_RDWR : Z := 2.
Definition AT_SYMLINK_NOFOLLOW : Z := 0x100.
Definition AT_REMOVEDIR : Z := 0x200.
Definition AT_SYMLINK_FOLLOW : Z := 0x400.
Definition AT_EMPTY_PATH : Z := 0x1000.
Definition UTIME_NOW : Z := Z.shiftl 1 30 - 1.
Definition UTIME_OMIT : Z := Z.shiftl 1 30 - 2.
Definition F_DUPFD : Z := 0.
Definition F_GETFD : Z := 1.
Definition F_SETFD : Z := 2.
Definition F_GETFL : Z := 3.
Definition F_SETFL : Z := 4.
Definition F_DUPFD_CLOEXEC : Z := 1030.
Definition FD_CLOEXEC : Z := 1.
Definition TIOCSPGRP : Z := 0x5410.
Definition TIOCSCTTY : Z := 0x540E.
Definition TIOCNOTTY : Z := 0x5422.
Definition FBIOGET_VSCREENINFO : Z := 0x4600.
Definition FBIOGET_FSCREENINFO : Z := 0x4602.
Definition POLLNVAL : Z := 0x020.
Definition EPOLL_CTL_ADD : Z := 1.
Definition EPOLL_CTL_DEL : Z := 2.
Definition EPOLL_CTL_MOD : Z := 3.
Definition EPOLLIN : Z := 0x001.
Definition EPOLLOUT : Z := 0x004.
Definition EPOLLERR : Z := 0x008.
Definition EPOLLHUP : Z := 0x010.
Definition DEV_CONSOLE : Z := 0.
Definition DEV_NULL : Z := 1.
Definition DEV_ZERO : Z := 2.
Definition DEV_FB0 : Z := 3.
Definition DEV_PTY_SLAVE : Z := 4.
Definition DEV_PTMX : Z := 5.
Definition DEV_URANDOM : Z := 6.
Definition TTY_DEV_CONSOLE : Z := 1.
Definition TTY_DEV_PTS_BASE : Z := 0x1000.
Definition RLIMIT_NOFILE : Z := 0.
Definition RLIMIT_NPROC : Z := 1.
Definition RLIMIT_AS : Z := 2.
Definition RLIMIT_FSIZE : Z := 3.
Definition RLIMIT_STACK : Z := 4.
Definition RLIMIT_CPU : Z := 5.
Definition RLIMIT_CORE : Z := 6.
Definition RLIMIT_DATA : Z := 7.
Definition RLIM_NLIMITS : Z := 8.
Definition RLIM_INFINITY : Z := U64_MAX.

(** *** Wait statuses and terminal devices *)

Definition wifexited (s : Z) : bool := Z.land s 0x7f =? 0.
Definition wexitstatus (s : Z) : Z := Z.land (Z.shiftr s 8) 0xff.
Definition wifsignaled (s : Z) : bool := negb (Z.land s 0x7f =? 0) && negb (Z.land s 0x7f =? 0x7f).
Definition wtermsig (s : Z) : Z := Z.land s 0x7f.
Definition wifstopped (s : Z) : bool := Z.land s 0xff =? 0x7f.
Definition wstopsig (s : Z) : Z := Z.land (Z.shiftr s 8) 0xff.

Definition tty_dev_for_console : Z := TTY_DEV_CONSOLE.
Definition tty_dev_for_pts (pty_id : Z) : Z := (TTY_DEV_PTS_BASE + pty_id)%u64.

Definition DEFAULT_PATH : list Z := lit "/bin:/sbin:/usr/bin:/usr/sbin".
Definition DEFAULT_PATH_NUL : list Z := lit "/bin:/sbin:/usr/bin:/usr/sbin" ++ [0].

(** ** Layout *)

(** The field list of a structure, as functions of their own. *)
Definition end_of (o : nat) (fs : list (string * cty)) : nat :=
  fold_left (fun o f => up o (alignof (snd f)) + sizeof (snd f))%nat fs o.

Fixpoint encode_fields (o : nat) (fs : list (string * cty)) (vs : list cval) : list Z :=
  match fs, vs with
  | (_, t) :: fs', v :: vs' =>
      let o' := up o (alignof t) in pad (o' - o) ++ encode t v ++ encode_fields (o' + sizeof t) fs' vs'
  | _, _ => []
  end.

Definition decode_fields (mem : list Z) (off : nat) : nat -> list (string * cty) -> list cval :=
  fix go (o : nat) (fs : list (string * cty)) {struct fs} : list cval :=
    match fs with
    | [] => []
    | (_, t) :: fs' => let o' := up o (alignof t) in decode t mem (off + o') :: go (o' + sizeof t)%nat fs'
    end.

Fixpoint have_types (fs : list (string * cty)) (vs : list cval) : Prop :=
  match fs, vs with
  | [], [] => True
  | (_, t) :: fs', v :: vs' => has_type t v /\ have_types fs' vs'
  | _, _ => False
  end.

Lemma encode_struct fs vs :
  encode (CStruct fs) (VRec vs) =
  encode_fields 0 fs vs ++ pad (sizeof (CStruct fs) - length (encode_fields 0 fs vs)).
Proof. done. Qed.

Lemma decode_struct fs mem off : decode (CStruct fs) mem off = VRec (decode_fields mem off 0 fs).
Proof. done. Qed.

Lemma cty_induction (P : cty -> Prop) :
  (forall n, P (CInt n)) -> (forall n t, P t -> P (CArr n t)) ->
  (forall fs, Forall (fun f => P (snd f)) fs -> P (CStruct fs)) -> forall t, P t.
Proof.
  intros HI HA HS. fix IH 1. intros [n|n t|fs]; [apply HI|apply HA, IH|]. apply HS.
  induction fs as [|[f t] fs IHfs]; constructor; [apply IH|exact IHfs].
Qed.

Lemma up_spec o a : (0 < a)%nat -> (o <= up o a < o + a)%nat /\ (a | up o a)%nat.
Proof.
  intros Ha. unfold up. split; [|by exists ((o + (a - 1)) / a)%nat].
  pose proof (Nat.div_mod_eq (o + (a - 1)) a). pose proof (Nat.mod_upper_bound (o + (a - 1)) a). nia.
Qed.

Lemma align_dvd a b : a ∈ [1; 2; 4; 8]%nat -> b ∈ [1; 2; 4; 8]%nat -> (a <= b)%nat -> (a | b)%nat.
Proof.
  rewrite !elem_of_cons, !elem_of_nil. intros Ha Hb Hle.
  destruct Ha as [->|[->|[->|[->|[]]]]], Hb as [->|[->|[->|[->|[]]]]]; try lia;
    (apply Nat.Lcm0.mod_divide; reflexivity).
Qed.

Lemma alignof_wf t : cty_wf t = true -> alignof t ∈ [1; 2; 4; 8]%nat.
Proof.
  induction t as [n|n t IH|fs IH] using cty_induction; cbn [cty_wf alignof].
  - apply bool_decide_eq_true.
  - done.
  - intros Hwf. assert (Hf : Forall (fun f : string * cty => alignof (snd f) ∈ [1; 2; 4; 8]%nat) fs).
    { rewrite forallb_forall in Hwf. rewrite Forall_forall in IH |- *. intros f Hin.
      by apply IH, Hwf, list_elem_of_In. }
    clear -Hf. induction Hf as [|f fs Ha _ IH]; cbn; [by left|].
    destruct (Nat.max_spec (alignof (snd f)) (fold_right (fun f a => Nat.max (alignof (snd f)) a) 1%nat fs))
      as [[_ ->]|[_ ->]]; done.
Qed.

Lemma alignof_pos t : cty_wf t = true -> (0 < alignof t)%nat.
Proof.
  intros H%alignof_wf. rewrite !elem_of_cons, elem_of_nil in H. lia.
Qed.

Lemma alignof_field fs f t :
  cty_wf (CStruct fs) = true -> (f, t) ∈ fs -> cty_wf t = true /\ (alignof t | alignof (CStruct fs))%nat.
Proof.
  intros Hwf Hin. assert (Ht : cty_wf t = true).
  { cbn in Hwf. rewrite forallb_forall in Hwf. exact (Hwf (f, t) (proj1 (list_elem_of_In _ _) Hin)). }
  split; [done|]. apply align_dvd; [by apply alignof_wf|by apply alignof_wf|]. clear Hwf Ht.
  induction fs as [|g fs IH]; [by apply elem_of_nil in Hin|].
  apply elem_of_cons in Hin as [<-|Hin]; cbn [alignof fold_right snd] in *; [lia|].
  specialize (IH Hin). lia.
Qed.

Lemma sizeof_align t : cty_wf t = true -> (alignof t | sizeof t)%nat.
Proof.
  induction t as [n|n t IH|fs _] using cty_induction; intros Hwf.
  - done.
  - cbn. apply Nat.divide_mul_r. by apply IH.
  - apply up_spec. by apply alignof_pos.
Qed.

Lemma end_of_ge o fs : Forall (fun f => cty_wf (snd f) = true) fs -> (o <= end_of o fs)%nat.
Proof.
  revert o. induction fs as [|[f t] fs IH]; intros o Hf; cbn; [done|]. inversion_clear Hf as [|? ? Ht Hr].
  specialize (IH (up o (alignof t) + sizeof t)%nat Hr). destruct (up_spec o _ (alignof_pos t Ht)). unfold end_of in IH. cbn in *. lia.
Qed.

(** Where [place] puts the fields: in order, apart, aligned, before the end. *)
Lemma place_spec o fs :
  Forall (fun f => cty_wf (snd f) = true) fs ->
  Forall (fun '(_, off, t) => o <= off /\ off + sizeof t <= end_of o fs /\ (alignof t | off))%nat (place o fs) /\
  forall i j f g a b s t, (i < j)%nat -> place o fs !! i = Some (f, a, s) -> place o fs !! j = Some (g, b, t) ->
    (a + sizeof s <= b)%nat.
Proof.
  revert o. induction fs as [|[f t] fs IH]; intros o Hf; [split; [constructor|by intros [] []]|].
  inversion_clear Hf as [|? ? Ht Hr]. destruct (up_spec o _ (alignof_pos t Ht)) as [Hup Hdvd].
  destruct (IH (up o (alignof t) + sizeof t)%nat Hr) as [IHf IHo].
  pose proof (end_of_ge (up o (alignof t) + sizeof t) fs Hr) as Hend.
  change (end_of o ((f, t) :: fs)) with (end_of (up o (alignof t) + sizeof t) fs) in *. cbn [place]. split.
  - constructor; [cbn in *; split_and!; [lia|done|done]|].
    eapply Forall_impl; [exact IHf|]. intros [[g off] s] (H1 & H2 & H3). split_and!; [lia|done|done].
  - intros [|i] [|j] g h a b s u Hlt Hi Hj; try lia; cbn in Hi, Hj.
    + injection Hi as [= <- <- <-]. rewrite Forall_forall in IHf.
      apply (IHf (h, b, u)). by eapply list_elem_of_lookup_2.
    + apply (IHo i j g h a b s u); [lia|done|done].
Qed.

(** [repr(C)] is a layout: sizes are multiples of the alignment, fields are
    aligned, in the order of declaration, disjoint, and inside the structure. *)
Lemma layout_sound fs (Hwf : cty_wf (CStruct fs) = true) :
  (alignof (CStruct fs) | sizeof (CStruct fs))%nat /\
  (forall f o t, (f, o, t) ∈ place 0 fs ->
     (alignof t | o)%nat /\ (alignof t | alignof (CStruct fs))%nat /\ (o + sizeof t <= sizeof (CStruct fs))%nat) /\
  (forall i j f g a b s t, (i < j)%nat -> place 0 fs !! i = Some (f, a, s) -> place 0 fs !! j = Some (g, b, t) ->
     (a + sizeof s <= b)%nat).
Proof.
  assert (Hf : Forall (fun f : string * cty => cty_wf (snd f) = true) fs).
  { apply Forall_forall. intros f Hin. cbn in Hwf. rewrite forallb_forall in Hwf. by apply Hwf, list_elem_of_In. }
  destruct (place_spec 0 fs Hf) as [Hp Ho]. split; [by apply sizeof_align|]. split; [|done].
  intros f o t Hin. rewrite Forall_forall in Hp. destruct (Hp _ Hin) as (_ & He & Hd). split; [done|].
  assert (Hin' : (f, t) ∈ fs).
  { clear -Hin. revert Hin. generalize 0%nat. induction fs as [|[g s] fs IH]; intros q Hin; cbn in Hin.
    - by apply elem_of_nil in Hin.
    - apply elem_of_cons in Hin as [[= -> _ ->]|Hin]; [left|right; by eapply IH]. }
  split; [by eapply alignof_field|].
  destruct (up_spec (end_of 0 fs) _ (alignof_pos _ Hwf)) as [Hup _].
  change (sizeof (CStruct fs)) with (up (end_of 0 fs) (alignof (CStruct fs))). lia.
Qed.

(** ** Round trip *)

Lemma wf_fields fs : cty_wf (CStruct fs) = true -> Forall (fun f => cty_wf (snd f) = true) fs.
Proof.
  cbn. rewrite forallb_forall, Forall_forall. intros H f Hin. by apply H, list_elem_of_In.
Qed.

Lemma length_encode_fields fs : Forall (fun f => cty_wf (snd f) = true) fs ->
  Forall (fun f => forall v, cty_wf (snd f) = true -> has_type (snd f) v -> length (encode (snd f) v) = sizeof (snd f)) fs ->
  forall o vs, have_types fs vs -> (o + length (encode_fields o fs vs) = end_of o fs)%nat.
Proof.
  induction fs as [|[f t] fs IH]; intros Hwf Hl o vs Hv; destruct vs as [|v vs]; try done; cbn [encode_fields].
  inversion_clear Hwf as [|? ? Ht Hr]. inversion_clear Hl as [|? ? Hlt Hlr]. destruct Hv as [Hv Hvs].
  destruct (up_spec o _ (alignof_pos t Ht)) as [Hup _].
  specialize (IH Hr Hlr (up o (alignof t) + sizeof t)%nat vs Hvs).
  rewrite !length_app. unfold pad. rewrite length_replicate, (Hlt v Ht Hv : length (encode t v) = _).
  change (end_of o ((f, t) :: fs)) with (end_of (up o (alignof t) + sizeof t) fs). cbn [snd] in *. lia.
Qed.

Lemma length_encode t v : cty_wf t = true -> has_type t v -> length (encode t v) = sizeof t.
Proof.
  revert v. induction t as [n|n t IH|fs IH] using cty_induction; intros v Hwf Hv; destruct v as [z|vs|vs]; try done.
  - apply length_le_bytes.
  - destruct Hv as [<- Hv]. cbn. induction Hv as [|v vs Hv _ IHv]; cbn; [done|].
    by rewrite length_app, IHv, (IH v Hwf Hv).
  - rewrite encode_struct, length_app. unfold pad. rewrite length_replicate.
    pose proof (length_encode_fields fs (wf_fields fs Hwf)
      ltac:(eapply Forall_impl; [exact IH|]; cbn; auto) 0 vs Hv) as Hl.
    destruct (up_spec (end_of 0 fs) _ (alignof_pos _ Hwf)) as [Hup _].
    change (sizeof (CStruct fs)) with (up (end_of 0 fs) (alignof (CStruct fs))). lia.
Qed.

Lemma decode_encode_array t n : (forall v pre post, has_type t v -> decode t (pre ++ encode t v ++ post) (length pre) = v) ->
  (forall v, has_type t v -> length (encode t v) = n) ->
  forall vs pre post, Forall (has_type t) vs ->
  map (fun i => decode t (pre ++ concat (map (encode t) vs) ++ post) (length pre + i * n)) (seq 0 (length vs)) = vs.
Proof.
  intros IH Hn vs. induction vs as [|v vs IHv]; intros pre post Hv; [done|]. inversion_clear Hv as [|? ? H1 H2].
  cbn [length seq map concat]. rewrite <- !app_assoc. f_equal.
  - rewrite Nat.add_0_r. by apply IH.
  - etransitivity; [|exact (IHv (pre ++ encode t v) post H2)].
    rewrite <- seq_shift, map_map. apply map_ext. intros i.
    rewrite <- app_assoc, length_app, (Hn v H1). f_equal. lia.
Qed.

Lemma decode_encode_fields fs : Forall (fun f => cty_wf (snd f) = true) fs ->
  Forall (fun f => forall v pre post, cty_wf (snd f) = true -> has_type (snd f) v ->
    decode (snd f) (pre ++ encode (snd f) v ++ post) (length pre) = v) fs ->
  forall off o vs pre post, have_types fs vs -> length pre = (off + o)%nat ->
  decode_fields (pre ++ encode_fields o fs vs ++ post) off o fs = vs.
Proof.
  induction fs as [|[f t] fs IH]; intros Hwf Hd off o vs pre post Hv Hp; destruct vs as [|v vs]; try done.
  inversion_clear Hwf as [|? ? Ht Hr]. inversion_clear Hd as [|? ? Hdt Hdr]. destruct Hv as [Hv Hvs].
  destruct (up_spec o _ (alignof_pos t Ht)) as [Hup _]. cbn [encode_fields]. cbn [decode_fields].
  rewrite <- !app_assoc. set (p := pad (up o (alignof t) - o)).
  assert (Hl : length (pre ++ p) = (off + up o (alignof t))%nat).
  { unfold p, pad. rewrite length_app, length_replicate. lia. }
  f_equal.
  - rewrite <- Hl, (app_assoc pre p). by apply Hdt.
  - rewrite (app_assoc pre p), (app_assoc (pre ++ p)).
    apply (IH Hr Hdr); [done|]. rewrite length_app, Hl, (length_encode t v Ht Hv). lia.
Qed.

Lemma decode_of_encode t : forall v pre post,
  cty_wf t = true -> has_type t v -> decode t (pre ++ encode t v ++ post) (length pre) = v.
Proof.
  induction t as [n|n t IH|fs IH] using cty_induction; intros v pre post Hwf Hv; destruct v as [z|vs|vs]; try done.
  - cbn. f_equal. by apply le_read_app.
  - destruct Hv as [<- Hv]. cbn [encode decode]. f_equal.
    apply decode_encode_array; [intros; by apply IH|intros; by apply length_encode|done].
  - rewrite encode_struct, decode_struct, <- app_assoc. f_equal.
    apply decode_encode_fields; [by apply wf_fields|done|done|]. lia.
Qed.

(** ** The structures of the interface *)

(** Every [zeroed()] and [new()] of a structure but that of [PollFd], whose
    descriptor is -1. *)
Definition zeroed_structs : list (cty * cval) :=
  [(TronaMsg_c, TronaMsg_zero_c); (IpcContext_c, IpcContext_zero_c); (TronaCspaceLayoutV1_c, TronaCspaceLayoutV1_zero_c);
   (TronaCapEntryV1_c, TronaCapEntryV1_zero_c); (TronaCapTableV1_c, TronaCapTableV1_zero_c); (TronaRequireDefV1_c, TronaRequireDefV1_zero_c);
   (TronaProcmgrRequireV1_c, TronaProcmgrRequireV1_zero_c); (TronaProcmgrServiceDefV1_c, TronaProcmgrServiceDefV1_zero_c); (TronaProcmgrServiceDefsV1_c, TronaProcmgrServiceDefsV1_zero_c);
   (CpioEntry_c, CpioEntry_zero_c); (CpioEntryExt_c, CpioEntryExt_zero_c); (Timespec_c, Timespec_zero_c);
   (Timeval_c, Timeval_zero_c); (ThreadLocalBlock_c, ThreadLocalBlock_zero_c); (AbiThreadPointerBlock_c, AbiThreadPointerBlock_zero_c);
   (StaticTlsModule_c, StaticTlsModule_zero_c); (DataDirectory_c, DataDirectory_zero_c); (PeLoadResult_c, PeLoadResult_zero_c);
   (TronaStat_c, TronaStat_zero_c); (TronaDirent_c, TronaDirent_zero_c); (SockAddrUn_c, SockAddrUn_zero_c);
   (SockAddrIn_c, SockAddrIn_zero_c); (Termios_c, Termios_zero_c); (EpollEvent_c, EpollEvent_zero_c);
   (DnsResult_c, DnsResult_zero_c); (DnsAddrInfo_c, DnsAddrInfo_zero_c)].

Lemma zeroed_is_zero t v : (t, v) ∈ zeroed_structs -> encode t v = pad (sizeof t).
Proof.
  assert (H : forallb (fun '(t, v) => bool_decide (encode t v = pad (sizeof t))) zeroed_structs = true)
    by (vm_compute; reflexivity).
  rewrite forallb_forall in H. intros Hin%list_elem_of_In. by apply H, bool_decide_eq_true in Hin.
Qed.

(** [PollFd::zeroed()] is not. *)
Lemma PollFd_zeroed_not_zero : encode PollFd_c PollFd_zero_c = [255; 255; 255; 255; 0; 0; 0; 0].
Proof. vm_compute. reflexivity. Qed.

(** The sizes the comments give.  The doc of [IpcBuffer] says 4096 bytes; its
    fields make 4064. *)
Lemma documented_sizes :
  sizeof TronaProcmgrServiceDefsV1_c = 16%nat /\ sizeof TronaProcmgrServiceDefV1_c = 276%nat /\
  sizeof TronaProcmgrRequireV1_c = 40%nat /\ sizeof TronaRequireDefV1_c = 68%nat /\
  sizeof TronaCapTableV1_c = 16%nat /\ sizeof SectionHeader_c = 40%nat /\ sizeof DosHeader_c = 64%nat /\
  le_bytes 4 TRONA_PROCMGR_DEFS_MAGIC = lit "PMSD" /\ sizeof IpcBuffer_c = 4064%nat.
Proof. vm_compute. done. Qed.

(** The offsets and sizes the other files use are those of the layout. *)
Definition offset (t : cty) (f : string) : Z := default (-1) (Z.of_nat <$> offsetof t f).
Arguments offset t f%_string_scope.

Lemma model_offsets :
  [off_self_ptr; off_thread_id; off_errno; off_desc; off_cancel_state; off_cancel_type; off_cancel_pending;
   off_cleanup_stack; off_blocked_futex_addr] =
  map (offset ThreadLocalBlock_c) ["self_ptr"; "thread_id"; "errno"; "desc"; "cancel_state"; "cancel_type";
    "cancel_pending"; "cleanup_stack"; "blocked_futex_addr"]%string /\
  off_ipc_buffer = offset ThreadLocalBlock_c "ipc_ctx" + offset IpcContext_c "ipc_buffer" /\
  off_send_cap_count = offset ThreadLocalBlock_c "ipc_ctx" + offset IpcContext_c "send_cap_count" /\
  TCB_SIZE = Z.of_nat (sizeof ThreadLocalBlock_c) /\
  [off_routine; off_arg; off_next] = map (offset CleanupHandler_c) ["routine"; "arg"; "next"]%string /\
  SIZEOF_ENTRY = sizeof TronaCapEntryV1_c /\ SIZEOF_TABLE = sizeof TronaCapTableV1_c /\
  [SIZEOF_EHDR; SIZEOF_PHDR; SIZEOF_DYN; SIZEOF_RELA] =
    map (fun t => Z.of_nat (sizeof t)) [Elf64Ehdr_c; Elf64Phdr_c; Elf64Dyn_c; Elf64Rela_c] /\
  [SIZEOF_DOS; SIZEOF_COFF; SIZEOF_DIR; SIZEOF_OPT; SIZEOF_SECTION; SIZEOF_IMPORT; SIZEOF_RELOC] =
    map (fun t => Z.of_nat (sizeof t)) [DosHeader_c; CoffHeader_c; DataDirectory_c; OptionalHeader64_c;
      SectionHeader_c; ImportDescriptor_c; BaseRelocation_c].
Proof. vm_compute. done. Qed.

(** *** The readers of the loaders *)

Definition bytes_val (l : list Z) : cval := VArr (map VInt l).

Definition ehdr_val (h : Elf64Ehdr) : cval := VRec
  (bytes_val (e_ident h) :: map VInt [e_type h; e_machine h; e_version h; e_entry h; e_phoff h; e_shoff h;
     e_flags h; e_ehsize h; e_phentsize h; e_phnum h; e_shentsize h; e_shnum h; e_shstrndx h]).
Definition phdr_val (h : Elf64Phdr) : cval := VRec (map VInt
  [p_type h; p_flags h; p_offset h; p_vaddr h; p_paddr h; p_filesz h; p_memsz h; p_align h]).
Definition dyn_val (d : Elf64Dyn) : cval := VRec (map VInt [as_u64 (d_tag d); d_val d]).
Definition rela_val (r : Elf64Rela) : cval := VRec (map VInt [r_offset r; r_info r; as_u64 (r_addend r)]).
Definition dos_val (h : DosHeader) : cval := VRec
  (map VInt [e_magic h; e_cblp h; e_cp h; e_crlc h; e_cparhdr h; e_minalloc h; e_maxalloc h; e_ss h; e_sp h;
     e_csum h; e_ip h; e_cs h; e_lfarlc h; e_ovno h] ++
   bytes_val (e_res h) :: map VInt [e_oemid h; e_oeminfo h] ++ [bytes_val (e_res2 h); VInt (e_lfanew h)]).
Definition coff_val (h : CoffHeader) : cval := VRec (map VInt
  [coff_machine h; coff_number_of_sections h; coff_time_date_stamp h; coff_pointer_to_symbol_table h;
   coff_number_of_symbols h; coff_size_of_optional_header h; coff_characteristics h]).
Definition dir_val (d : DataDirectory) : cval := VRec (map VInt [dir_virtual_address d; dir_size d]).
Definition opt_val (h : OptionalHeader64) : cval := VRec (map VInt
  [opt_magic h; opt_major_linker_version h; opt_minor_linker_version h; opt_size_of_code h;
   opt_size_of_initialized_data h; opt_size_of_uninitialized_data h; opt_address_of_entry_point h;
   opt_base_of_code h; opt_image_base h; opt_section_alignment h; opt_file_alignment h;
   opt_major_os_version h; opt_minor_os_version h; opt_major_image_version h; opt_minor_image_version h;
   opt_major_subsystem_version h; opt_minor_subsystem_version h; opt_win32_version_value h;
   opt_size_of_image h; opt_size_of_headers h; opt_checksum h; opt_subsystem h; opt_dll_characteristics h;
   opt_size_of_stack_reserve h; opt_size_of_stack_commit h; opt_size_of_heap_reserve h;
   opt_size_of_heap_commit h; opt_loader_flags h; opt_number_of_rva_and_sizes h]).
Definition section_val (s : SectionHeader) : cval := VRec
  (bytes_val (sec_name s) :: map VInt [sec_virtual_size s; sec_virtual_address s; sec_size_of_raw_data s;
     sec_pointer_to_raw_data s; sec_pointer_to_relocations s; sec_pointer_to_linenumbers s;
     sec_number_of_relocations s; sec_number_of_linenumbers s; sec_characteristics s]).
Definition import_val (d : ImportDescriptor) : cval := VRec (map VInt
  [original_first_thunk d; imp_time_date_stamp d; forwarder_chain d; name_rva d; first_thunk d]).
Definition reloc_val (r : BaseRelocation) : cval := VRec (map VInt [rel_virtual_address r; rel_size_of_block r]).

(** [T] read by [f] is the structure [t] of the file, or the read is outside. *)
Definition reads_as {T} (data : list Z) (off : Z) (r : option T) (t : cty) (val : T -> cval) : Prop :=
  match r with
  | Some x => 0 <= off /\ off + Z.of_nat (sizeof t) <= data_len data /\ decode t data (Z.to_nat off) = val x
  | None => off < 0 \/ data_len data < off + Z.of_nat (sizeof t)
  end.

Lemma view_reads {T} data off size t (f : nat -> T) val :
  size = Z.of_nat (sizeof t) -> (forall o, (o + sizeof t <= length data)%nat -> decode t data o = val (f o)) ->
  reads_as data off (view_at data size off f) t val.
Proof.
  intros -> Hf. unfold reads_as, view_at. destruct (0 <=? off) eqn:E1; cbn [andb].
  - destruct (off + Z.of_nat (sizeof t) <=? data_len data) eqn:E2; bprop; [|lia].
    split_and!; [done|done|]. apply Hf. unfold data_len in *. lia.
  - bprop. lia.
Qed.

Lemma decode_bytes n data o : (o + n <= length data)%nat ->
  decode (CArr n u8) data o = bytes_val (take n (drop o data)).
Proof.
  intros Ho. cbn. unfold bytes_val. f_equal. apply list_eq. intros i.
  change (map VInt) with (fmap (M := list) VInt). rewrite !list_lookup_fmap.
  destruct (decide (i < n)%nat) as [Hi|Hi].
  - rewrite lookup_seq_lt, lookup_take, lookup_drop by done. rewrite decide_True by done.
    destruct (lookup_lt_is_Some_2 data (o + i) ltac:(lia)) as [x Hx]. rewrite Hx. cbn. do 2 f_equal.
    unfold byte_at. rewrite Nat.add_0_r, Nat.mul_1_r, Hx. cbn. lia.
  - rewrite lookup_seq_ge by lia. rewrite (lookup_ge_None_2 (take n _)); [done|]. rewrite length_take. lia.
Qed.

Lemma as_u64_i64 z : 0 <= z < 2 ^ 64 -> as_u64 (as_i64 z) = z.
Proof.
  intros Hz. unfold as_i64, signed, as_u64. change (64 - 1) with 63. rewrite (wrap_small 64 z) by lia. unfold wrap.
  destruct (Z.ltb_spec z (2 ^ 63)); [by apply Z.mod_small|].
  replace (z - 2 ^ 64) with (z + (-1) * 2 ^ 64) by lia. rewrite Z.mod_add by lia. by apply Z.mod_small.
Qed.

(** Decodes a structure of integers, up to the additions in the offsets. *)
Ltac fields := cbn; rewrite ?Nat.add_0_r; repeat f_equal; lia.
(** The same with byte arrays in it. *)
Ltac array_fields t n data :=
  unfold t; rewrite decode_struct; cbn [decode_fields]; rewrite (decode_bytes n data) by (cbn in *; lia);
  cbn; rewrite ?Nat.add_0_r; repeat f_equal; lia.

Section readers.
Context (data : list Z) (off : Z).

Lemma ehdr_reads : reads_as data 0 (read_ehdr data) Elf64Ehdr_c ehdr_val.
Proof. apply view_reads; [done|]. intros o Ho. array_fields Elf64Ehdr_c 16%nat data. Qed.
Lemma phdr_reads : reads_as data off (read_phdr data off) Elf64Phdr_c phdr_val.
Proof. apply view_reads; [done|]. intros o Ho. fields. Qed.
Lemma dos_reads : reads_as data 0 (read_dos data) DosHeader_c dos_val.
Proof. apply view_reads; [done|]. intros o Ho. fields. Qed.
Lemma coff_reads : reads_as data off (read_coff data off) CoffHeader_c coff_val.
Proof. apply view_reads; [done|]. intros o Ho. fields. Qed.
Lemma dir_reads : reads_as data off (read_dir data off) DataDirectory_c dir_val.
Proof. apply view_reads; [done|]. intros o Ho. fields. Qed.
Lemma opt_reads : reads_as data off (read_opt data off) OptionalHeader64_c opt_val.
Proof. apply view_reads; [done|]. intros o Ho. fields. Qed.
Lemma section_reads : reads_as data off (read_section data off) SectionHeader_c section_val.
Proof. apply view_reads; [done|]. intros o Ho. array_fields SectionHeader_c 8%nat data. Qed.
Lemma import_reads : reads_as data off (read_import data off) ImportDescriptor_c import_val.
Proof. apply view_reads; [done|]. intros o Ho. fields. Qed.
Lemma reloc_reads : reads_as data off (read_reloc data off) BaseRelocation_c reloc_val.
Proof. apply view_reads; [done|]. intros o Ho. fields. Qed.
End readers.

Lemma dyn_reads data off : Forall (fun b => 0 <= b < 256) data ->
  reads_as data off (read_dyn data off) Elf64Dyn_c dyn_val.
Proof.
  intros Hb. apply view_reads; [done|]. intros o Ho. unfold dyn_val. cbn [d_tag d_val].
  rewrite as_u64_i64 by (exact (le_read_range 8 data o Hb)). fields.
Qed.

Lemma rela_reads data off : Forall (fun b => 0 <= b < 256) data ->
  reads_as data off (read_rela data off) Elf64Rela_c rela_val.
Proof.
  intros Hb. apply view_reads; [done|]. intros o Ho. unfold rela_val. cbn [r_offset r_info r_addend].
  rewrite as_u64_i64 by (exact (le_read_range 8 data (o + 16) Hb)). fields.
Qed.


Definition two_dyns : list Z := le_bytes 8 5 ++ le_bytes 8 0x400 ++ le_bytes 8 U64_MAX ++ le_bytes 8 7.


(** ** The service registry of the process manager *)

(** A frame with the header and the definitions, as [PM_REGISTER_SERVICE_DEFS]
    describes it. *)
Definition registry_header (count : nat) : cval :=
  VRec [VInt TRONA_PROCMGR_DEFS_MAGIC; VInt TRONA_PROCMGR_DEFS_VERSION; VInt (Z.of_nat count); VInt 0; VArr []].
Definition registry (defs : list cval) : list Z :=
  encode TronaProcmgrServiceDefsV1_c (registry_header (length defs)) ++
  concat (map (encode TronaProcmgrServiceDefV1_c) defs).

(** the registry of services fits a frame and is read back as written: with
    at most [MAX_PROCMGR_SERVICE_DEFS] definitions the header and the entries
    take at most 4096 bytes, the header carries the magic, the version and the
    number of definitions, and the structure at 16 + 276 * i is definition i. *)
Theorem registry_roundtrip defs (Hty : Forall (has_type TronaProcmgrServiceDefV1_c) defs)
    (Hn : (length defs <= MAX_PROCMGR_SERVICE_DEFS)%nat) :
  (length (registry defs) <= 4096)%nat /\
  decode TronaProcmgrServiceDefsV1_c (registry defs) 0 = registry_header (length defs) /\
  forall i d, defs !! i = Some d -> decode TronaProcmgrServiceDefV1_c (registry defs) (16 + 276 * i) = d.
Proof.
  assert (Hh : has_type TronaProcmgrServiceDefsV1_c (registry_header (length defs))).
  { unfold MAX_PROCMGR_SERVICE_DEFS in Hn. cbn. split_and!; try done; try lia. }
  assert (Hl : forall d, has_type TronaProcmgrServiceDefV1_c d ->
    length (encode TronaProcmgrServiceDefV1_c d) = 276%nat).
  { intros d Hd. by rewrite length_encode. }
  assert (Hlh : length (encode TronaProcmgrServiceDefsV1_c (registry_header (length defs))) = 16%nat)
    by (by rewrite length_encode).
  unfold registry. split; [|split].
  - rewrite length_app, Hlh. assert (length (concat (map (encode TronaProcmgrServiceDefV1_c) defs)) = length defs * 276)%nat as ->.
    { clear -Hty Hl. induction Hty as [|d defs Hd _ IH]; cbn [map concat length]; [done|].
      rewrite length_app, IH, (Hl d Hd). lia. }
    unfold MAX_PROCMGR_SERVICE_DEFS in Hn. lia.
  - by apply (decode_of_encode _ _ []).
  - intros i d Hi.
    pose proof (decode_encode_array TronaProcmgrServiceDefV1_c 276
      (fun v pre post Hv => decode_of_encode TronaProcmgrServiceDefV1_c v pre post eq_refl Hv) Hl defs
      (encode TronaProcmgrServiceDefsV1_c (registry_header (length defs))) [] Hty) as Ha.
    rewrite app_nil_r, Hlh in Ha. rewrite <- Ha in Hi at 1.
    change (map ?f (seq 0 (length defs))) with (f <$> seq 0 (length defs)) in Hi.
    rewrite list_lookup_fmap in Hi. apply fmap_Some in Hi as (j & [-> _]%lookup_seq & ->).
    f_equal. lia.
Qed.

Lemma registry_roundtrip_witness :
  decode TronaProcmgrServiceDefV1_c (registry [TronaProcmgrServiceDefV1_zero_c]) 16 = TronaProcmgrServiceDefV1_zero_c.
Proof.
  refine (proj2 (proj2 (registry_roundtrip [TronaProcmgrServiceDefV1_zero_c] _ _)) 0%nat _ eq_refl).
  - constructor; [|constructor].
    cbn. split_and!; try done; repeat (constructor; [cbn; split_and!; try done; repeat (constructor; [lia|]); constructor|]); constructor.
  - unfold MAX_PROCMGR_SERVICE_DEFS. cbn. lia.
Defined.

(** ** Wait statuses, device numbers, flags *)

Lemma low_bits s : Z.land s 0xff = s mod 256 /\ Z.land s 0x7f = s mod 128.
Proof. split; [apply (Z.land_ones s 8)|apply (Z.land_ones s 7)]; lia. Qed.

(** A status is that of an exit, of a signal or of a stop, and never of two; only
    statuses whose low byte is 0xff are none of these. *)
Lemma wait_status_cases s :
  match wifexited s, wifsignaled s, wifstopped s with
  | true, false, false | false, true, false | false, false, true => Z.land s 0xff <> 0xff
  | false, false, false => Z.land s 0xff = 0xff
  | _, _, _ => False
  end.
Proof.
  unfold wifexited, wifsignaled, wifstopped. destruct (low_bits s) as [-> ->].
  destruct (Z.eqb_spec (s mod 128) 0), (Z.eqb_spec (s mod 128) 0x7f), (Z.eqb_spec (s mod 256) 0x7f); cbn;
    Z.to_euclidean_division_equations; lia.
Qed.

(** The encodings of the process manager: [code << 8], [sig], [(sig << 8) | 0x7f]. *)
Lemma wait_status_values code sig : 0 <= code < 256 -> 0 < sig < 127 ->
  (wifexited (Z.shiftl code 8) = true /\ wexitstatus (Z.shiftl code 8) = code) /\
  (wifsignaled sig = true /\ wtermsig sig = sig) /\
  (wifstopped (Z.lor (Z.shiftl sig 8) 0x7f) = true /\ wstopsig (Z.lor (Z.shiftl sig 8) 0x7f) = sig).
Proof.
  intros Hc Hs. unfold wifexited, wexitstatus, wifsignaled, wtermsig, wifstopped, wstopsig.
  assert (Hor : Z.lor (Z.shiftl sig 8) 0x7f = sig * 256 + 127).
  { rewrite <- Z.add_lor_land, Z.shiftl_mul_pow2 by lia. change (2 ^ 8) with 256.
    replace (Z.land (sig * 256) 127) with 0; [lia|]. change 127 with (Z.ones 7). rewrite Z.land_ones by lia.
    change (2 ^ 7) with 128. Z.to_euclidean_division_equations. lia. }
  rewrite Hor, Z.shiftl_mul_pow2, !Z.shiftr_div_pow2 by lia. change (2 ^ 8) with 256.
  destruct (low_bits sig) as [_ ->], (low_bits (code * 256)) as [_ ->], (low_bits (sig * 256 + 127)) as [-> _].
  destruct (low_bits (code * 256 / 256)) as [-> _], (low_bits ((sig * 256 + 127) / 256)) as [-> _].
  split_and!; bprop; Z.to_euclidean_division_equations; try lia.
Qed.

(** Terminal devices are distinct for every pseudo terminal whose number leaves
    room above the base. *)
Lemma tty_dev_distinct a b :
  0 <= a < 2 ^ 64 - 0x1000 -> 0 <= b < 2 ^ 64 - 0x1000 ->
  tty_dev_for_pts a <> tty_dev_for_console /\ (tty_dev_for_pts a = tty_dev_for_pts b -> a = b).
Proof.
  unfold tty_dev_for_pts, tty_dev_for_console, TTY_DEV_PTS_BASE, TTY_DEV_CONSOLE. intros Ha Hb.
  rewrite !wrap_small by lia. lia.
Qed.

(** Directory entry types are the file types of the mode; the events of [epoll]
    are those of [poll]; rights and modes are made of disjoint bits. *)
Lemma flag_relations :
  map (fun m => Z.shiftr m 12) [S_IFDIR; S_IFCHR; S_IFREG; S_IFSOCK; S_IFIFO; S_IFLNK] =
    [DT_DIR; DT_CHR; DT_REG; DT_SOCK; DT_FIFO; DT_LNK] /\
  forallb (fun m => Z.land m S_IFMT =? m) [S_IFDIR; S_IFCHR; S_IFREG; S_IFSOCK; S_IFIFO; S_IFLNK] = true /\
  S_IRWXU = fold_right Z.lor 0 [S_IRUSR; S_IWUSR; S_IXUSR] /\
  S_IRWXG = fold_right Z.lor 0 [S_IRGRP; S_IWGRP; S_IXGRP] /\
  S_IRWXO = fold_right Z.lor 0 [S_IROTH; S_IWOTH; S_IXOTH] /\
  fold_right Z.lor 0 [S_ISUID; S_ISGID; S_ISVTX; S_IRWXU; S_IRWXG; S_IRWXO] = 0xfff /\
  O_ACCMODE = Z.lor O_WRONLY O_RDWR.
Proof. vm_compute. done. Qed.

(** Both copies of the terminal server's labels agree. *)
Lemma tty_labels_agree :
  [POSIX_TTYSRV_GET_FG_PGRP; POSIX_TTYSRV_SET_FG_PGRP; POSIX_TTYSRV_SET_CTTY; POSIX_TTYSRV_DROP_CTTY;
   POSIX_TTYSRV_PTY_ALLOC; POSIX_TTYSRV_PTY_READ; POSIX_TTYSRV_PTY_WRITE; POSIX_TTYSRV_PTY_CLOSE] =
  [Protocol.POSIX_TTYSRV_GET_FG_PGRP; Protocol.POSIX_TTYSRV_SET_FG_PGRP; Protocol.POSIX_TTYSRV_SET_CTTY;
   Protocol.POSIX_TTYSRV_DROP_CTTY; Protocol.POSIX_TTYSRV_PTY_ALLOC; Protocol.POSIX_TTYSRV_PTY_READ;
   Protocol.POSIX_TTYSRV_PTY_WRITE; Protocol.POSIX_TTYSRV_PTY_CLOSE].
Proof. done. Qed.
